(* ===== verification/_CoqProject ===== *)
-Q . S2P
Prelude.v
GoStrings.v
GoFloat.v
StrOrder.v
GoPath.v
GoTime.v
Utf8.v
JsonString.v
Effects.v
Dailywindow.v
LoginVault.v
BrokerTypes.v
SingleFlight.v
Broker.v
BrokerPolicy.v
JRecord.v
JDiff.v
JValue.v
JRules.v
JCompile.v
JAccess.v
JStore.v
JValidate.v
JErase.v
JFold.v
JJournal.v
JValid.v
JWire.v
JGuarantees.v
JRead.v
JReadFacts.v
JRescan.v
JRescanFacts.v
JHousehold.v
EMatch.v
EUnescape.v
EInvisible.v
EBidi.v
EFold.v
EDecode.v
EViews.v
EScore.v
ESign.v
EScan.v
EScanFacts.v
DSanitize.v
DStaging.v
DSubject.v
DRoute.v
DDeliver.v
DRouteFacts.v
DHealthy.v
DEndToEnd.v
DPipeline.v
DWatcher.v
ADisk.v
AMeta.v
ATar.v
ATarFacts.v
AStore.v
AFinalize.v
AHandler.v
AFinalizeFacts.v
AUploads.v
AUpkeep.v
AListener.v
AProtocol.v
AComplete.v
AExample.v
IConfig.v
GoNet.v
ITokens.v
IRateLimit.v
IMiddleware.v
IServer.v
IIngest.v
IIngestFacts.v
IListeners.v
IExample.v
