(* ===== verification/Prelude.v ===== *)
(** * Glovebox: a verification library

    Glovebox takes content from connectors, scans it and hands it to agents.
    This library models the subsystems whose correctness is their logic
    rather than their I/O, and proves what they promise.

    ** The scan engine (src/internal/engine, src/internal/scan)

    The scan decides whether an item may reach an agent. It looks for the
    patterns of a signed ruleset in the text and in further views of it, in
    which text that was hidden, disguised or encoded reads as what it says.
    - EMatch.v is matcher.go; EUnescape.v is unescape.go; EInvisible.v is
      invisible.go; EBidi.v is bidi.go, next to the rules of Unicode Standard
      Annex 9 it follows, written on their own; EFold.v is confusables.go; EDecode.v is decode.go.
    - EViews.v is preprocess.go, the views of an item; EScore.v is rules.go,
      scoring.go and the ceiling of provenance.go; ESign.v is signature.go
      and the loading of rules in provenance.go.
    - EScan.v is scan.go with the compiled scan functions of stream.go;
      EScanFacts.v proves what a scan reports and what it quarantines.

    ** The login broker (src/internal/loginbroker, loginvault, dailywindow)

    The broker logs in to a portal that locks accounts, so it must count
    every login, stop when told to, and never retry a login that may have
    been submitted.
    - Dailywindow.v is dailywindow.go: windows, sets of windows and
      schedules on the wall clock of a zone (a zone is its offset function).
      [BlocksAt] and [NextClear] are proved to be what they scan for.
    - LoginVault.v is the state record of loginvault.go and the exactly-once
      write; it runs that write against a store that checks and
      sets, may lose answers and has other writers, and proves that the
      record is written once.
    - BrokerTypes.v holds brokerapi/api.go, driver.go and the configuration
      (New); SingleFlight.v the sharing of one refresh by concurrent callers
      as a step relation; Broker.v one refresh (Broker.refresh of broker.go)
      as a program over its store, driver and clock: an effect tree
      (Effects.v) that any environment may answer. BrokerPolicy.v
      proves what every run keeps: at most one submission, a
      recorded login for each, the gate's budget and schedule, an inert
      latch, and sessions that were confirmed.

    ** The record journal (src/internal/journal)

    The journal stores what connectors observe, as events and as current
    rows, shows each reader what it may see, and can erase a person.
    - JRecord.v is record/scope.go, fields.go, types.go: canonical scopes,
      field maps and the input of their hash, record types, the registry and
      the renames between versions. JValue.v is record/value.go, one
      encoding per field value; JValidate.v is record/validate.go and
      JValid.v what a validated snapshot or note satisfies.
    - JDiff.v is diff/: an observation becomes planned events, events fold
      back into rows, and the removal guard (its floating-point comparison
      in IEEE arithmetic); the theorem [diff_then_fold] ties them together.
    - JRules.v is rules.go's Evaluate, JCompile.v its Compile (what a compiled
      rule means of the rule as it was written), JAccess.v roster.go,
      access.go and policy.go.
    - JStore.v is apply.go, hold.go and notes.go over a record of the
      tables; JErase.v is erase.go. Each operation is one function from the
      tables to an answer and new tables: writes about a subject take its
      advisory lock for the whole transaction, notes their author's too, and
      an erase takes every lock it needs first, so operations about the same
      data are serial.
    - JFold.v: events folded record by record, and the invariant
      ([good]) that rows, events, sequence numbers and verdicts agree.
    - JJournal.v makes the operations the steps of a state machine
      ([step], [reachable]); JGuarantees.v states what holds of every state
      they reach; JHousehold.v is a worked household, where each theorem
      with hypotheses is applied.
    - JWire.v is the writing handlers of httpapi/, from an authenticated
      caller and the bytes of a request to the answer and the new tables; it
      proves that a request is a step of that state machine, so what holds
      of the journal's states holds of a served one. JHousehold.v serves the
      household.
    - JRead.v is read.go with the reading handlers and the authentication of
      httpapi/: the SQL that masks and filters is written as the functions
      of a row it computes. JReadFacts.v proves that this SQL and the Go
      code that decides about one entry agree ([sql_agrees_with_go]), keeps
      the invariant that the text of every event was scanned, and shows from
      both exactly what a reader gets, one page or many.
    - JRescan.v is rescan.go: judging all stored texts again with a new
      scanner, a program whose queries and transactions interleave with the
      steps of JJournal.v and may fail. JRescanFacts.v proves that success
      means that everything was judged, for which the invariant of JFold.v
      and JReadFacts.v is stated for the rows and events that are [all]
      done; JHousehold.v has a run that an erase interrupts.

    ** From staging to delivery (src/internal/staging, subject, source,
       routing, audit, pipeline, watcher, main.go)

    An item that connectors staged is validated, scanned and routed: to an
    agent's inbox, to quarantine, to failed/ or nowhere.
    - DStaging.v is staging/ and proves what it accepts;
      DSubject.v is subject/ and source/ and proves what a loaded
      registry satisfies; DSanitize.v is routing/sanitize.go.
    - DRoute.v is the rest of routing/ with audit/logger.go, DDeliver.v is
      deliverResult and the handlers of main.go with pipeline/worker.go: each
      function is a program (Effects.v) over file-system calls, audit writes
      and the clock, which any environment may answer.
    - DRouteFacts.v proves what such programs may write and destroy, and
      the guarantees that follow, whatever fails: an item leaves staging only
      when its delivery, its quarantine files or a rejection that is due
      ([recorded]) is in the trace before; DHealthy.v that
      the decision ([disposition]) is carried out when nothing fails;
      DEndToEnd.v joins them to the scan and has a worked delivery.
    - DPipeline.v is pipeline/router.go and consumer.go over a delivery that
      may fail; DWatcher.v is watcher.go as a state machine.

    ** The archive ingest (src/internal/ingest/archives)

    Large deliveries arrive in pieces over the tus protocol, are verified,
    unpacked and published; the process or the disk may fail at any moment.
    - ADisk.v is the file system under it: the calls that the code makes, the
      disk they act on (a map from paths to folders and files) and what each
      call may answer and leave ([dstep]), also when it fails; [hstep] is a
      disk that fails only where it must, next to one that computes.
    - AMeta.v is metadata.go, ATar.v untar.go, AStore.v store.go, AFinalize.v
      finalize.go and scan_extract.go, AHandler.v handler.go (each request a
      program from the table of uploads to the new one and the response),
      AUpkeep.v cleanup.go and quota.go, AListener.v listener.go.
    - ATarFacts.v proves where an extraction writes, how much and what;
      AFinalizeFacts.v that publication is all or nothing; AUploads.v that
      every request keeps the table, the temporary files and the archives
      together ([service_ok]); AUpkeep.v what the cleanup removes, how the
      storage cap trips and lifts, and that a cleanup beside a request, which
      leaves alone what the request works on, does not show ([exec_amid]).
    - AListener.v makes the start, requests, cleanups (between requests and
      beside them), measurements and kills (at any moment of these) the steps
      of a state machine, and lifts the invariant to every history of the
      service. AProtocol.v is what clients rely on: resuming from what is on
      disk ([resumable]), and not seeing each other's uploads. AComplete.v
      proves that an upload that can be published is. AExample.v runs the
      service on a concrete disk.

    ** The ingest side (src/internal/ingest, archive_listener.go)

    Connectors deliver over HTTP: archives with a bearer token, items to the
    ingest endpoint, there with a client certificate where that is required.
    - ITokens.v is auth/tokens.go (a reload is a program over the source of
      the tokens), and auth/source.go with the Vault client and the
      choice of a source in archive_listener.go; IRateLimit.v is
      auth/ratelimit.go, next to the list of buckets it stands for;
      IMiddleware.v is auth/middleware.go and auth/proxy.go; IIngest.v is
      peer/peer.go.
    - IServer.v is the archive listener behind its authentication: starts,
      reloads, requests with any headers and kills as the steps of a state
      machine, whose requests are those of AListener.v.
    - IIngest.v is handler.go, the endpoint, over the disk of ADisk.v;
      IIngestFacts.v proves that it stages the parts of the request ([sent])
      and that the scanner (DStaging.v) takes it. IExample.v applies the theorems. GoNet.v is the part of the
      package net that these files use.

    ** Configuration and listeners (src/internal/config, main.go,
       ingest_listeners.go, archive_listener.go)

    - IConfig.v is config.go and journal.go: the configuration, its defaults,
      the environment's overrides and every check of Validate, over
      functions that give what the checks read.
    - IListeners.v is ingest_listeners.go and the parts of main.go and
      archive_listener.go that open listeners: it proves of any accepted
      configuration which listeners open and what they carry, and composes
      them with the ingest endpoint. IExample.v applies the theorems.

    ** Shared files

    Prelude.v (this file) has the automation, the result type and generic
    lemmas; GoStrings.v, GoTime.v, GoFloat.v, GoPath.v, Utf8.v, StrOrder.v
    and JsonString.v model the parts of Go's standard library that the code
    uses. GoFloat.v proves that rounding keeps order.

    ** What the theorems show

    - The scan: [hidden_instruction_quarantined] (a pattern found in any
      view of an item quarantines it, when no other rule has its rule's name
      and the score is a number), [smuggled_instruction_quarantined]
      (from the bytes of an item that hides its instruction in tags to the
      verdict), [scan_reports_findings], [scan_returns], [score_only_rises],
      [ruleset_accepted_exactly].
    - Delivery: [delivered_content_is_clean] (from the bytes of a staged item
      to its inbox: what arrives there was scanned and no blocking rule
      matches any view of it), [inbox_needs_pass], [nothing_lost],
      [delivery_carries_out], [placeholder_removed],
      [quarantined_text_is_inert], [consumer_delivers_each_once],
      [flush_in_name_order], [item_handled_once],
      [poll_leaves_none_behind], [staged_item_accepted_exactly],
      [resolution_is_canonical], [source_policies_well_formed].
    - The archives: [published_archives_are_authenticated] (an invariant of
      every history in which the cleanup leaves alone what a request works
      on: what is published, outside the folder .done, is whole, has the
      announced digest and was delivered by a source whose own token a
      request carried; on
      [published_archives_are_verified], the same of the service alone), [finalize_all_or_nothing],
      [untar_stays_inside], [untar_within_caps], [untar_succeeds],
      [concurrency_caps_hold], [patches_resume], [raw_upload_completes],
      [upload_metadata_accepted_exactly], [metadata_pairs_round_trip],
      [others_uploads_do_not_show], [others_archives_do_not_show],
      [cleanup_removes_only_old], [cap_trips_and_lifts].
    - The ingest side: [staged_whole_or_not] (at every moment of a request,
      even a killed one), [staged_items_are_taken] (refinement: what the
      endpoint accepted the scanner accepts), [reload_serves_the_provisioned]
      (exactly the provisioned tokens, and none that two ids share),
      [limiter_is_exact] (refinement of one bucket per address).
    - Configuration: [required_mode_binds_source] (from the configuration to
      the staged item: no item whose source is not the client's certificate),
      [accepted_listeners], [accepted_limiter_starts].
    - Journal rules: [compiled_rules_mean_what_they_say] (an event gets the
      importance and notices of the rules as written),
      [group_keys_carry_no_text] (noninterference).
    - What each view reads: [strip_reads_through], [smuggled_text_read],
      [disguise_is_read], [encoded_payload_read], [reversed_text_is_read],
      [levels_are_the_annex] (equivalence with Annex 9 within the depth the
      code supports, where its scripts and letters tell the direction), [form_plus_mask], [find_all_offsets_exact],
      [table_from_runes_exact].
    - Which rules are enforced: [enforced_ruleset_is_signed],
      [refused_ruleset_is_recorded], [signature_round_trip],
      [keyring_well_formed].
    - Safety of logins: [refresh_login_policy], [refresh_login_recorded],
      [refresh_session_accepted], [gate_exact], [latched_refresh_is_inert],
      [write_state_once_exactly_once], [single_flight],
      [waiting_caller_answered].
    - The journal's history: [events_replay_to_current] (folding the events
      gives the rows, whatever the operations), [events_append_only],
      [apply_shows_observation], [applied_is_newest],
      [resend_changes_nothing], [mass_removal_is_held].
    - The journal's wire: [wire_refines_journal] (refinement),
      [wire_write_authorised], [wire_refusal_changes_nothing],
      [validate_snapshot_exact], [normalize_value_canonical].
    - Who may do and see what: [may_write_confined],
      [note_needs_authority], [confirm_is_rechecked],
      [roster_grants_exact], [withheld_unless_passed],
      [stored_text_is_scanned].
    - What a reader gets: [state_shows_exactly], [events_show_exactly] (the
      rows and events the caller may see, masked where no verdict passes),
      [polling_delivers_each_once] (a client that follows the cursor gets
      each event once, in order), [counts_exact], [served_read_is_allowed]
      (from the request's headers to the answer).
    - Rescans: [rescan_judges_everything] (whatever the journal does
      meanwhile but an erase that keeps a note), [rescan_completes] (enough
      fuel, no interference: it ends, in success),
      [rescan_changes_only_verdicts].
    - Erasure: [erased_stays_erased], [frozen_readers_exact],
      [kept_note_frozen].
    - Encodings and names: [canonical_scopes_distinct],
      [hash_input_injective], [group_key_separates],
      [forward_name_injective], [text_stays_text], [parse_list_of_string].

    Theorems that record where the code does not do what it says:
    [accepted_ruleset_hangs], [namesake_hides_rule], [boosters_overflow],
    [overflow_hides_reversal], [mark_is_not_seen],
    [short_write_cannot_complete],
    [seven_logins_in_one_day], [token_can_spell_password],
    [parse_clock_accepts_signs],
    [failed_flush_redelivers], [late_response_overtaken],
    [placeholder_shows_unscanned_subject], [pass_log_failure_alternates],
    [missing_type_misreported], [footer_can_be_forged],
    [lost_file_keeps_the_slot], [cleanup_during_extraction_loses_entries],
    [retention_folder_is_an_archive_id], [dot_is_a_file_name],
    [intake_never_reopens], [client_address_can_be_empty],
    [wide_window_panics], [metrics_port_may_collide],
    [erase_hides_note_from_rescan].

    ** Conventions

    Instants are integers of nanoseconds (GoTime.v), a Go string is a Coq
    string of bytes, content that is scanned a list of byte values, a Go map
    is a gmap (iterated in sorted order where the code sorts), an error is a
    value of [res] or [option], a float64 a binary64 value. A computation
    that may not return is an option: [None] is no answer.

    Loops of the code run on their own data where they can. Fuel is given
    where they cannot, and is enough: NextClear and the retry loops run as
    often as their constants say, which the code does too; the offset loop
    of a matcher runs at most once for each byte and once more, which
    [find_all_offsets_exact] shows suffices for every needle but the empty
    one ([empty_pattern_diverges]); the payloads of a payload are decoded
    to the code's depth of two; the reversal loop runs once per level; a
    key file is read once per byte at most. The loops of a rescan run once per
    page of a hundred rows; [rescan_completes] gives the fuel.

    ** Assumptions

    Third parties are parameters: the store and driver of the broker, the
    scanner's verdict in the journal, SHA-256 (in theorems that compare
    hashes, without collisions), the pseudonym an erase draws (unused
    before), uuid.Parse, the texts of numbers and timestamps, strict JSON
    decoding of a request, the answer of a TokenReview, the database's order
    of texts; in the scan engine NFKC and NFD, the unicode
    package's tables, the HTML tokenizer and html.UnescapeString, regexp,
    bytes.ToLower, Ed25519, PEM, PKIX and JSON decoding, the file system,
    and the detectors, which are values of the interface the scan takes; in
    delivery JSON, strconv.Quote, and every answer of the file system, of
    which [delivered_content_is_clean] supposes only that an item's content
    does not change while it is processed and that a listing gives plain
    names; in the archive ingest the JSON of
    a receipt, archive/tar's reading of an upload, and every answer of the
    disk. Archive requests are served one after the other: the store's mutex
    makes its operations atomic and an upload's mutex is asked, but two
    requests on different uploads are not interleaved. The cleanup is
    interleaved with the calls of a request, but its removals of what the
    request works on are not: [cleanup_during_extraction_loses_entries] has
    one. The bound on the length of an
    upload in these theorems (2^62 bytes) is that of the configured maximum.
    Each theorem that relies on one states what it relies on.

    ** Not modelled

    PostgreSQL itself: jsonb reformatting (undone by Reload) is the identity
    here. Metrics and logging. The HTTP clients of the
    TokenReview and of Vault. Detectors (regular expressions and a language model). The
    delivery timeout, which leaves a delivery running in a goroutine of its
    own, and the concurrency of scan workers, whose results the router takes
    one by one. Type synchronisation (types_sync.go), the records spool and
    the session gate of the connectors. Other connector code, importers,
    drivers and deployment
    files are I/O over third parties. *)
From stdpp Require Export prelude strings gmap list sorting pretty.
From Stdlib Require Export ZArith Lia Ascii.

#[export] Set Default Goal Selector "!".

(** ** Notation scope and automation of the development *)

Declare Scope glovebox_scope.
Delimit Scope glovebox_scope with gb.
Create HintDb glovebox.
Create Rewrite HintDb glovebox.

(** Case analysis on the scrutinee of a [match] or [if], in the goal or a
    hypothesis, with the equation kept. *)
Ltac split_match :=
  match goal with
  | |- context [match ?x with _ => _ end] => destruct x eqn:?
  | H : context [match ?x with _ => _ end] |- _ => destruct x eqn:?
  end.

(** Turns boolean comparisons in the context and the goal into
    propositions. *)
Ltac bool_to_prop :=
  repeat match goal with
  | H : _ && _ = true |- _ => apply andb_true_iff in H as [? ?]
  | H : _ || _ = false |- _ => apply orb_false_iff in H as [? ?]
  | H : negb _ = true |- _ => apply negb_true_iff in H
  | H : negb _ = false |- _ => apply negb_false_iff in H
  | H : (_ <? _)%Z = true |- _ => apply Z.ltb_lt in H
  | H : (_ <? _)%Z = false |- _ => apply Z.ltb_ge in H
  | H : (_ <=? _)%Z = true |- _ => apply Z.leb_le in H
  | H : (_ <=? _)%Z = false |- _ => apply Z.leb_gt in H
  | H : (_ =? _)%Z = true |- _ => apply Z.eqb_eq in H
  | H : (_ =? _)%Z = false |- _ => apply Z.eqb_neq in H
  end.

(** ** Results of operations that can fail *)

Inductive res (E A : Type) : Type :=
| Ok (a : A)
| Err (e : E).
Arguments Ok {E A} _.
Arguments Err {E A} _.

Definition res_bind {E A B} (m : res E A) (f : A → res E B) : res E B :=
  match m with Ok a => f a | Err e => Err e end.

Notation "x '<~' m ';;' k" := (res_bind m (λ x, k))
  (at level 100, m at next level, right associativity) : glovebox_scope.

Definition is_ok {E A} (r : res E A) : bool :=
  match r with Ok _ => true | Err _ => false end.

#[export] Instance res_eq_dec {E A} `{EqDecision E, EqDecision A} : EqDecision (res E A).
Proof. solve_decision. Defined.

Lemma res_bind_ok {E A B} (m : res E A) (f : A → res E B) b :
  res_bind m f = Ok b ↔ ∃ a, m = Ok a ∧ f a = Ok b.
Proof. destruct m; naive_solver. Qed.

(** ** Booleans and lists *)

Lemma forallb_Forall {A} (f : A → bool) (l : list A) :
  forallb f l = true ↔ Forall (λ x, f x = true) l.
Proof. rewrite forallb_forall, List.Forall_forall; done. Qed.

Lemma existsb_Exists {A} (f : A → bool) (l : list A) :
  existsb f l = true ↔ Exists (λ x, f x = true) l.
Proof. rewrite existsb_exists, List.Exists_exists; done. Qed.

Lemma existsb_false {A} (f : A → bool) (l : list A) :
  existsb f l = false ↔ ∀ x, x ∈ l → f x = false.
Proof.
  induction l as [|y l IH]; simpl; [set_solver|].
  rewrite orb_false_iff, IH. set_solver.
Qed.

(** A property of every natural below a bound, checked by evaluation. *)
Lemma check_below (f : nat → bool) (n : nat) :
  forallb f (seq 0 n) = true → ∀ i, i < n → f i = true.
Proof.
  intros H i Hi. apply (proj1 (forallb_forall _ _) H), in_seq. lia.
Qed.

Lemma check_below_Z (f : Z → bool) (n : nat) :
  forallb (λ i, f (Z.of_nat i)) (seq 0 n) = true →
  ∀ z, (0 ≤ z < Z.of_nat n)%Z → f z = true.
Proof.
  intros H z Hz. pose proof (check_below _ _ H (Z.to_nat z)) as Hc. simpl in Hc.
  rewrite Z2Nat.id in Hc by lia. apply Hc. lia.
Qed.

(** Where a split at an element falls in a list cut at another. *)
Lemma app_cons_cases {A} (a l k1 k2 : list A) (e e1 : A) :
  (a ++ [e]) ++ l = k1 ++ e1 :: k2 →
  (k1 = a ∧ e1 = e ∧ k2 = l) ∨ e1 ∈ a ∨ e1 ∈ l.
Proof.
  rewrite <- app_assoc. simpl. revert k1. induction a as [|x a IH]; intros [|y k1] E;
    simpl in E; injection E as -> E.
  - subst. by left.
  - subst. right. right. set_solver.
  - right. left. set_solver.
  - apply IH in E as [(-> & -> & ->)|[H|H]]; [by left|right; left; set_solver|by right; right].
Qed.
