(* ===== verification/GoStrings.v ===== *)
(** Go string operations of the standard library that the modelled code
    uses: strings.TrimSpace, strings.Split by one byte, strings.Join,
    strconv.Atoi, strconv.Itoa and the "%02d" verb.  A Go string is a byte
    sequence, modelled as a [string]. *)
From S2P Require Import Prelude.

Definition byte_of (a : ascii) : Z := Z.of_N (N_of_ascii a).

(** unicode.IsSpace, by the UTF-8 form of the code point: one byte. *)
Definition space1 (a : ascii) : bool :=
  let n := byte_of a in ((9 <=? n)%Z && (n <=? 13)%Z) || (n =? 32)%Z.
(** Two bytes: U+0085 and U+00A0. *)
Definition space2 (a b : ascii) : bool :=
  (byte_of a =? 194)%Z && ((byte_of b =? 133)%Z || (byte_of b =? 160)%Z).
(** Three bytes: U+1680, U+2000..U+200A, U+2028, U+2029, U+202F, U+205F,
    U+3000. *)
Definition space3 (a b c : ascii) : bool :=
  let x := byte_of a in let y := byte_of b in let z := byte_of c in
  ((x =? 225) && (y =? 154) && (z =? 128))%Z
  || ((x =? 226) && (y =? 128)
      && (((128 <=? z) && (z <=? 138)) || (z =? 168) || (z =? 169) || (z =? 175)))%Z
  || ((x =? 226) && (y =? 129) && (z =? 159))%Z
  || ((x =? 227) && (y =? 128) && (z =? 128))%Z.

Fixpoint trim_left (s : list ascii) : list ascii :=
  match s with
  | [] => []
  | a :: r =>
      if space1 a then trim_left r else
      match r with
      | [] => s
      | b :: r2 =>
          if space2 a b then trim_left r2 else
          match r2 with
          | [] => s
          | c :: r3 => if space3 a b c then trim_left r3 else s
          end
      end
  end.

(** The same from the other end, on the reversed bytes. *)
Fixpoint trim_left_rev (s : list ascii) : list ascii :=
  match s with
  | [] => []
  | a :: r =>
      if space1 a then trim_left_rev r else
      match r with
      | [] => s
      | b :: r2 =>
          if space2 b a then trim_left_rev r2 else
          match r2 with
          | [] => s
          | c :: r3 => if space3 c b a then trim_left_rev r3 else s
          end
      end
  end.

Definition trim_space (s : string) : string :=
  String.string_of_list_ascii (rev (trim_left_rev (rev (trim_left (String.list_ascii_of_string s))))).

(** strings.Split for a one-byte separator. *)
Fixpoint split_on (c : ascii) (s : string) : list string :=
  match s with
  | EmptyString => [EmptyString]
  | String a r =>
      if Ascii.eqb a c then EmptyString :: split_on c r
      else match split_on c r with
           | [] => [String a EmptyString]
           | h :: t => String a h :: t
           end
  end.

(** strings.Join. *)
Fixpoint join (sep : string) (l : list string) : string :=
  match l with
  | [] => EmptyString
  | [x] => x
  | x :: r => (x ++ sep ++ join sep r)%string
  end.

Definition is_digit (a : ascii) : bool :=
  let n := byte_of a in (48 <=? n)%Z && (n <=? 57)%Z.

Fixpoint digits_value (acc : Z) (s : string) : option Z :=
  match s with
  | EmptyString => Some acc
  | String a r =>
      if is_digit a then digits_value (acc * 10 + (byte_of a - 48))%Z r else None
  end.

Definition min_int64 : Z := - 2 ^ 63.
Definition max_int64 : Z := 2 ^ 63 - 1.

(** The int64 that arithmetic gives, wrapping around. *)
Definition wrap64 (z : Z) : Z := ((z + 2 ^ 63) mod 2 ^ 64 - 2 ^ 63)%Z.

Lemma wrap64_small z : (- 2 ^ 63 ≤ z < 2 ^ 63)%Z → wrap64 z = z.
Proof. intros H. unfold wrap64. rewrite Z.mod_small; lia. Qed.

(** strconv.Atoi: an optional sign and at least one decimal digit, in the
    int64 range. *)
Definition atoi (s : string) : option Z :=
  let '(neg, body) :=
    match s with
    | String a r =>
        if Ascii.eqb a "-" then (true, r)
        else if Ascii.eqb a "+" then (false, r) else (false, s)
    | EmptyString => (false, s)
    end in
  match body with
  | EmptyString => None
  | _ =>
      match digits_value 0 body with
      | None => None
      | Some v =>
          let v := if neg : bool then (- v)%Z else v in
          if ((min_int64 <=? v) && (v <=? max_int64))%Z then Some v else None
      end
  end.

(** strconv.Itoa. *)
Definition itoa (z : Z) : string := pretty z.

(** fmt's "%02d": at least two columns, padded with zeros after the sign. *)
Definition fmt_02d (z : Z) : string :=
  if (z <? 0)%Z then
    itoa z
  else if (z <? 10)%Z then ("0" ++ itoa z)%string else itoa z.

(** ** Lemmas *)

Fixpoint no_char (c : ascii) (s : string) : bool :=
  match s with
  | EmptyString => true
  | String a r => negb (Ascii.eqb a c) && no_char c r
  end.

Lemma split_on_nonempty c s : split_on c s ≠ [].
Proof. induction s as [|a s IH]; simpl; repeat case_match; done. Qed.

Lemma split_on_no_char c s : no_char c s = true → split_on c s = [s].
Proof.
  induction s as [|a s IH]; simpl; [done|].
  intros [Ha Hs]%andb_true_iff. apply negb_true_iff in Ha. rewrite Ha.
  by rewrite (IH Hs).
Qed.

Lemma split_on_app c x s :
  no_char c x = true → split_on c (x ++ String c s) = x :: split_on c s.
Proof.
  induction x as [|a x IH]; simpl; intros H.
  - by rewrite Ascii.eqb_refl.
  - apply andb_true_iff in H as [Ha Hx]. apply negb_true_iff in Ha.
    by rewrite Ha, (IH Hx).
Qed.

(** Splitting what was joined gives the parts back. *)
Lemma split_on_join c l :
  l ≠ [] → Forall (λ x, no_char c x = true) l →
  split_on c (join (String c EmptyString) l) = l.
Proof.
  intros Hne Hl. induction Hl as [|x l Hx Hl IH]; [done|].
  destruct l as [|y l].
  - by apply split_on_no_char.
  - change (join (String c EmptyString) (x :: y :: l))
      with (x ++ String c (join (String c EmptyString) (y :: l)))%string.
    rewrite split_on_app by done. by rewrite IH.
Qed.

(** Printable ASCII without the space: nothing TrimSpace would remove. *)
Definition visible (a : ascii) : bool :=
  let n := byte_of a in (33 <=? n)%Z && (n <=? 126)%Z.

Fixpoint all_visible (s : string) : bool :=
  match s with EmptyString => true | String a r => visible a && all_visible r end.

Lemma visible_not_space1 a : visible a = true → space1 a = false.
Proof.
  unfold visible, space1. intros H. bool_to_prop.
  apply orb_false_iff; split; [apply andb_false_iff; right; apply Z.leb_gt|apply Z.eqb_neq]; lia.
Qed.

Lemma visible_space2 a b : visible a = true → space2 a b = false ∧ space2 b a = false.
Proof.
  unfold visible, space2. intros H. bool_to_prop.
  rewrite !andb_false_iff, orb_false_iff, !Z.eqb_neq. lia.
Qed.

Lemma visible_space3 a b c : visible a = true → space3 a b c = false ∧ space3 c b a = false.
Proof.
  unfold visible, space3. intros H. bool_to_prop.
  destruct (Z.eqb_spec (byte_of a) 225), (Z.eqb_spec (byte_of a) 226), (Z.eqb_spec (byte_of a) 227);
    try lia.
Qed.

Lemma trim_left_visible a r : visible a = true → trim_left (a :: r) = a :: r.
Proof.
  intros H. simpl. rewrite (visible_not_space1 a H).
  destruct r as [|b r]; [done|]. rewrite (proj1 (visible_space2 a b H)).
  destruct r as [|c r]; [done|]. by rewrite (proj1 (visible_space3 a b c H)).
Qed.

Lemma trim_left_rev_visible a r : visible a = true → trim_left_rev (a :: r) = a :: r.
Proof.
  intros H. simpl. rewrite (visible_not_space1 a H).
  destruct r as [|b r]; [done|]. rewrite (proj2 (visible_space2 a b H)).
  destruct r as [|c r]; [done|]. by rewrite (proj2 (visible_space3 a b c H)).
Qed.

Lemma all_visible_list s :
  all_visible s = true → Forall (λ a, visible a = true) (String.list_ascii_of_string s).
Proof.
  induction s as [|a s IH]; simpl; [constructor|].
  intros [? ?]%andb_true_iff. constructor; auto.
Qed.

Lemma trim_space_visible s : all_visible s = true → trim_space s = s.
Proof.
  intros H%all_visible_list. unfold trim_space.
  assert (Hl : trim_left (String.list_ascii_of_string s) = String.list_ascii_of_string s).
  { destruct H; [done|]. by apply trim_left_visible. }
  rewrite Hl.
  assert (Hr : trim_left_rev (rev (String.list_ascii_of_string s)) = rev (String.list_ascii_of_string s)).
  { apply (List.Forall_rev) in H.
    destruct H; [done|]. by apply trim_left_rev_visible. }
  rewrite Hr, rev_involutive. apply String.string_of_list_ascii_of_string.
Qed.

(** Neither end is a space. *)
Lemma trim_space_ends a m z :
  visible a = true → visible z = true →
  let s := String.string_of_list_ascii (a :: m ++ [z]) in trim_space s = s.
Proof.
  intros Ha Hz s. unfold trim_space, s. rewrite String.list_ascii_of_string_of_list_ascii.
  rewrite trim_left_visible by done. rewrite app_comm_cons, rev_app_distr. cbn [rev app].
  rewrite trim_left_rev_visible by done. cbn [rev]. by rewrite rev_app_distr, rev_involutive.
Qed.

Lemma all_visible_app s t :
  all_visible (s ++ t) = all_visible s && all_visible t.
Proof. induction s as [|a s IH]; simpl; [done|]. by rewrite IH, andb_assoc. Qed.

Lemma string_length_app (a b : string) : String.length (a ++ b)%string = (String.length a + String.length b)%nat.
Proof. induction a as [|x a IH]; [done|]. cbn. by rewrite <- IH. Qed.

Lemma no_char_substring c s n m : no_char c s = true → no_char c (String.substring n m s) = true.
Proof.
  revert n m. induction s as [|a s IH]; intros n m; [by destruct n, m|]. intros Hs. pose proof Hs as [Ha Hr]%andb_true_iff.
  destruct n as [|n]; [|by apply IH]. destruct m as [|m]; [done|].
  change (negb (Ascii.eqb a c) && no_char c (String.substring 0 m s) = true). by rewrite Ha, IH.
Qed.

Lemma no_char_app c s t : no_char c (s ++ t) = no_char c s && no_char c t.
Proof. induction s as [|a s IH]; simpl; [done|]. by rewrite IH, andb_assoc. Qed.
#[export] Hint Rewrite all_visible_app no_char_app : glovebox.

(** strings.HasPrefix, strings.Contains and strings.ReplaceAll (for a
    non-empty old string). *)
Fixpoint has_prefix (p s : string) : bool :=
  match p, s with
  | EmptyString, _ => true
  | String a p', String b s' => Ascii.eqb a b && has_prefix p' s'
  | _, _ => false
  end.

Fixpoint contains (sub s : string) : bool :=
  has_prefix sub s ||
  match s with EmptyString => false | String _ r => contains sub r end.

Fixpoint replace_skip (old new : string) (skip : nat) (s : string) : string :=
  match s with
  | EmptyString => EmptyString
  | String a r =>
      match skip with
      | S n => replace_skip old new n r
      | O =>
          if has_prefix old s
          then (new ++ replace_skip old new (String.length old - 1) r)%string
          else String a (replace_skip old new 0 r)
      end
  end.
Definition replace_all (s old new : string) : string := replace_skip old new 0 s.
