(* ===== verification/GoFloat.v ===== *)
(** Go's float64: IEEE 754 binary64, rounding to nearest even. *)
From Stdlib Require Export Floats.SpecFloat.
From S2P Require Import Prelude.
Local Open Scope Z_scope.

(** float64 of an integer. *)
Definition float64 (z : Z) : spec_float := binary_normalize 53 1024 z 0 false.

Definition fadd : spec_float → spec_float → spec_float := SFadd 53 1024.
Definition fmul : spec_float → spec_float → spec_float := SFmul 53 1024.
Definition fdiv : spec_float → spec_float → spec_float := SFdiv 53 1024.

(** a < b, a <= b and a >= b: false when one of them is not a number. *)
Definition flt : spec_float → spec_float → bool := SFltb.
Definition fle : spec_float → spec_float → bool := SFleb.
Definition fge (a b : spec_float) : bool := SFleb b a.

Definition fzero : spec_float := S754_zero false.
Definition fone : spec_float := float64 1.

(** The float64 nearest the quotient of two integers that float64 holds. *)
Definition fquot (a b : Z) : spec_float := fdiv (float64 a) (float64 b).

(** * Rounding in binary64 keeps the order of what is not negative: a sum is
    at least each of its terms, and a product by a factor of one or more is
    at least what it multiplies. *)

(** ** Digits *)

Definition dig (m : positive) : Z := Z.pos (digits2_pos m).

Lemma dig_spec m : 2 ^ (dig m - 1) ≤ Z.pos m < 2 ^ dig m.
Proof.
  unfold dig. induction m as [m IH|m IH|]; cbn [digits2_pos]; [| |done];
    rewrite Pos2Z.inj_succ; replace (Z.succ (Z.pos (digits2_pos m)) - 1) with (Z.pos (digits2_pos m)) by lia;
    rewrite Z.pow_succ_r by lia;
    assert (2 ^ Z.pos (digits2_pos m) = 2 * 2 ^ (Z.pos (digits2_pos m) - 1)) as E
      by (rewrite <- Z.pow_succ_r by lia; f_equal; lia); lia.
Qed.

Lemma dig_pos m : 1 ≤ dig m.
Proof. unfold dig. lia. Qed.

Lemma dig_ge m k : 0 ≤ k → 2 ^ k ≤ Z.pos m → k < dig m.
Proof.
  intros Hk Hm. pose proof (dig_spec m) as [_ H]. pose proof (dig_pos m).
  apply (Z.pow_lt_mono_r_iff 2); lia.
Qed.

Lemma dig_mono m n : Z.pos m ≤ Z.pos n → dig m ≤ dig n.
Proof.
  intros H. pose proof (dig_pos m). pose proof (dig_spec m) as [Hm _].
  pose proof (dig_ge n (dig m - 1) ltac:(lia) ltac:(lia)). lia.
Qed.

(** Shifting left adds digits, shifting right removes them. *)
Lemma dig_shift_left m n k : 0 ≤ k → Z.pos m * 2 ^ k ≤ Z.pos n → dig m + k ≤ dig n.
Proof.
  intros Hk H. pose proof (dig_pos m). pose proof (dig_spec m) as [Hm _].
  assert (2 ^ (dig m - 1 + k) ≤ Z.pos n).
  { rewrite Z.pow_add_r by lia. nia. }
  pose proof (dig_ge n (dig m - 1 + k) ltac:(lia) ltac:(lia)). lia.
Qed.

Lemma dig_shift_right m n k : 0 ≤ k < dig m → Z.pos m / 2 ^ k = Z.pos n → dig n = dig m - k.
Proof.
  intros Hk H. pose proof (dig_spec m) as [H1 H2]. pose proof (dig_spec n) as [H3 H4]. pose proof (dig_pos n).
  assert (0 < 2 ^ k) by (apply Z.pow_pos_nonneg; lia).
  assert (2 ^ (dig m - 1) = 2 ^ (dig m - 1 - k) * 2 ^ k) as E1 by (rewrite <- Z.pow_add_r by lia; f_equal; lia).
  assert (2 ^ dig m = 2 ^ (dig m - k) * 2 ^ k) as E2 by (rewrite <- Z.pow_add_r by lia; f_equal; lia).
  assert (2 ^ (dig m - 1 - k) ≤ Z.pos n) by (rewrite <- H; apply Z.div_le_lower_bound; lia).
  assert (Z.pos n < 2 ^ (dig m - k)) by (rewrite <- H; apply Z.div_lt_upper_bound; lia).
  pose proof (dig_ge n (dig m - 1 - k) ltac:(lia) ltac:(lia)).
  assert (dig n - 1 < dig m - k); [|lia]. apply (Z.pow_lt_mono_r_iff 2); lia.
Qed.

(** ** Exponents *)

Definition fx (e : Z) : Z := fexp 53 1024 e.

Lemma fx_def e : fx e = Z.max (e - 53) (-1074).
Proof. done. Qed.

(** ** Shifting out *)

Lemma iter_pos_nat {A} (f : A → A) p : ∀ x, SpecFloat.iter_pos f p x = Nat.iter (Pos.to_nat p) f x.
Proof.
  induction p as [p IH|p IH|]; intros x; cbn [SpecFloat.iter_pos]; [..|done]; rewrite !IH, <- Nat.iter_add.
  - rewrite <- Nat.iter_succ_r. f_equal. lia.
  - f_equal. lia.
Qed.

Lemma shr_1_half r : 0 ≤ shr_m r → shr_m (shr_1 r) = shr_m r / 2.
Proof.
  destruct r as [[|[p|p|]|p] a b]; cbn; intros H; try done; try lia.
  - rewrite (Pos2Z.inj_xI p), Z.mul_comm, Z.div_add_l by lia. done.
  - rewrite (Pos2Z.inj_xO p), Z.mul_comm, Z.div_mul by lia. done.
Qed.

Lemma shr_iter n : ∀ r, 0 ≤ shr_m r → shr_m (Nat.iter n shr_1 r) = shr_m r / 2 ^ Z.of_nat n.
Proof.
  induction n as [|n IH]; intros r Hr; [by rewrite Z.div_1_r|].
  rewrite Nat.iter_succ, shr_1_half, IH by (rewrite ?IH by done; try apply Z.div_pos; try apply Z.pow_pos_nonneg; lia).
  rewrite Z.div_div by (try apply Z.pow_pos_nonneg; lia). f_equal. rewrite Nat2Z.inj_succ, Z.pow_succ_r by lia. lia.
Qed.

Lemma shr_spec r e n :
  0 ≤ shr_m r → shr_m (shr r e n).1 = shr_m r / 2 ^ Z.max 0 n ∧ (shr r e n).2 = e + Z.max 0 n.
Proof.
  intros Hr. destruct n as [|p|p]; cbn [shr fst snd].
  - rewrite Z.div_1_r. split; [done|lia].
  - rewrite iter_pos_nat, shr_iter by done. rewrite positive_nat_Z. split; [done|lia].
  - rewrite Z.div_1_r. split; [done|lia].
Qed.

Lemma shr_record_m m l : shr_m (shr_record_of_loc m l) = m.
Proof. by destruct l as [|[]]. Qed.

Lemma shr_fexp_spec m e l :
  0 ≤ m → let n := Z.max 0 (fx (Zdigits2 m + e) - e) in
  shr_m (shr_fexp 53 1024 m e l).1 = m / 2 ^ n ∧ (shr_fexp 53 1024 m e l).2 = e + n.
Proof.
  intros Hm. unfold shr_fexp. pose proof (shr_spec (shr_record_of_loc m l) e (fexp 53 1024 (Zdigits2 m + e) - e)) as H.
  rewrite shr_record_m in H. by apply H.
Qed.

Lemma round_even_bounds m l : m ≤ round_nearest_even m l ≤ m + 1.
Proof. destruct l as [|[]]; cbn; try lia. destruct (Z.even m); lia. Qed.

(** What the two shifts and the rounding between them give. *)
Lemma aux_cases M E :
  E ≤ fx (dig M + E) →
  let e1 := fx (dig M + E) in let m1 := Z.pos M / 2 ^ (e1 - E) in
  ∃ m1', m1 ≤ m1' ≤ m1 + 1 ∧
    let n2 := Z.max 0 (fx (Zdigits2 m1' + e1) - e1) in
    binary_round_aux 53 1024 false (Z.pos M) E loc_Exact =
    match m1' / 2 ^ n2 with
    | Z0 => S754_zero false
    | Z.pos m => if e1 + n2 <=? 971 then S754_finite false m (e1 + n2) else S754_infinity false
    | Z.neg _ => S754_nan
    end.
Proof.
  intros HE e1 m1. unfold binary_round_aux.
  pose proof (shr_fexp_spec (Z.pos M) E loc_Exact ltac:(lia)) as [H1 H2].
  destruct (shr_fexp 53 1024 (Z.pos M) E loc_Exact) as [r1 e1'] eqn:Hs1. cbn [fst snd] in H1, H2.
  change (Zdigits2 (Z.pos M)) with (dig M) in *. fold e1 in H1, H2. rewrite Z.max_r in H1, H2 by (unfold e1; lia).
  replace (E + (e1 - E)) with e1 in H2 by lia. subst e1'. fold m1 in H1.
  pose proof (round_even_bounds (shr_m r1) (loc_of_shr_record r1)) as Hr. rewrite H1 in Hr |- *.
  exists (round_nearest_even m1 (loc_of_shr_record r1)). split; [done|].
  assert (0 ≤ m1) by (apply Z.div_pos; [lia|apply Z.pow_pos_nonneg; unfold e1; lia]).
  pose proof (shr_fexp_spec (round_nearest_even m1 (loc_of_shr_record r1)) e1 loc_Exact ltac:(lia)) as [H3 H4].
  destruct (shr_fexp 53 1024 (round_nearest_even _ _) e1 loc_Exact) as [r2 e2]. cbn [fst snd] in H3, H4.
  by rewrite H3, H4.
Qed.

(** Canonical mantissas, and the order of the pairs. *)
Definition canonical (m : positive) (e : Z) : Prop := fx (dig m + e) = e.
Definition pair_le (m0 e0 m e : Z) : Prop := e0 < e ∨ e0 = e ∧ m0 ≤ m.

(** The second shift: one more digit at most. *)
Lemma second_shift m1 m1' e1 :
  0 < m1 → m1 ≤ m1' → -1074 ≤ e1 →
  let n2 := Z.max 0 (fx (Zdigits2 m1' + e1) - e1) in
  ∃ m2, m1' / 2 ^ n2 = Z.pos m2 ∧ pair_le m1 e1 (Z.pos m2) (e1 + n2) ∧
    (e1 ≤ fx (Zdigits2 m1' + e1) → canonical m2 (e1 + n2)).
Proof.
  intros Hm Hle He n2. destruct m1' as [|p|p]; [lia| |lia]. change (Zdigits2 (Z.pos p)) with (dig p) in *.
  destruct (Z.max_spec 0 (fx (dig p + e1) - e1)) as [[Hn Hn2]|[Hn Hn2]]; fold n2 in Hn2; rewrite Hn2.
  - rewrite fx_def in *. assert (Hk : 0 ≤ dig p + e1 - 53 - e1 < dig p) by lia.
    replace (Z.max (dig p + e1 - 53) (-1074)) with (dig p + e1 - 53) by lia.
    assert (0 < 2 ^ (dig p + e1 - 53 - e1)) by (apply Z.pow_pos_nonneg; lia).
    destruct (Z.pos p / 2 ^ (dig p + e1 - 53 - e1)) as [|m2|m2] eqn:Hq.
    + exfalso. pose proof (dig_spec p) as [Hd _]. apply Z.div_small_iff in Hq; [|lia].
      assert (2 ^ (dig p + e1 - 53 - e1) ≤ 2 ^ (dig p - 1)) by (apply Z.pow_le_mono_r; lia). lia.
    + exists m2. split_and!; [done|left; lia|]. intros _. pose proof (dig_shift_right p m2 _ Hk Hq) as Hd.
      unfold canonical. rewrite fx_def, Hd. lia.
    + exfalso. assert (0 ≤ Z.pos p / 2 ^ (dig p + e1 - 53 - e1)) by (apply Z.div_pos; lia). lia.
  - rewrite Z.div_1_r, Z.add_0_r. exists p. split_and!; [done|right; lia|]. intros ?. unfold canonical. lia.
Qed.

(** The first shift keeps what is below. *)
Lemma first_shift M E m0 e0 :
  E ≤ fx (dig M + E) → canonical m0 e0 →
  (if E <=? e0 then Z.pos m0 * 2 ^ (e0 - E) ≤ Z.pos M else Z.pos m0 ≤ Z.pos M * 2 ^ (E - e0)) →
  let e1 := fx (dig M + E) in let m1 := Z.pos M / 2 ^ (e1 - E) in
  0 < m1 ∧ pair_le (Z.pos m0) e0 m1 e1.
Proof.
  intros HE Hc Hle e1 m1. unfold canonical in Hc.
  assert (He1 : e1 = Z.max (dig M + E - 53) (-1074)) by done.
  assert (Hm1 : m1 = Z.pos M / 2 ^ (e1 - E)) by done. fold e1 in HE. clearbody e1 m1.
  rewrite fx_def in Hc. pose proof (dig_spec M) as [Hd _].
  assert (Hpow : 0 < 2 ^ (e1 - E)) by (apply Z.pow_pos_nonneg; lia).
  assert (Hbig : e0 < e1 → 0 < m1).
  { intros Hlt. rewrite Hm1. apply Z.div_str_pos. split; [done|]. etrans; [|exact Hd].
    apply Z.pow_le_mono_r; lia. }
  destruct (Z.leb_spec E e0) as [HEe|HEe].
  - pose proof (dig_shift_left m0 M (e0 - E) ltac:(lia) Hle) as Hdm.
    destruct (decide (e0 = e1)) as [Heq|Hne]; [|split; [apply Hbig; lia|left; lia]].
    assert (Z.pos m0 ≤ m1).
    { rewrite Hm1. apply Z.div_le_lower_bound; [done|]. rewrite <- Heq in *. lia. }
    split; [lia|right; lia].
  - assert (e0 < e1) by lia. split; [by apply Hbig|by left].
Qed.

(** Rounding up does not lose a digit. *)
Lemma rounded_digits M E m1' :
  E ≤ fx (dig M + E) → let e1 := fx (dig M + E) in
  0 < Z.pos M / 2 ^ (e1 - E) ≤ m1' → e1 ≤ fx (Zdigits2 m1' + e1).
Proof.
  intros HE e1 Hm. assert (He1 : e1 = Z.max (dig M + E - 53) (-1074)) by done. fold e1 in HE. clearbody e1.
  rewrite fx_def. destruct (decide (e1 = -1074)) as [->|Hne]; [lia|].
  destruct (Z.pos M / 2 ^ (e1 - E)) as [|p|p] eqn:Hp; try lia. destruct m1' as [|q|q]; try lia.
  pose proof (dig_shift_right M p (e1 - E) ltac:(lia) Hp). pose proof (dig_mono p q ltac:(lia)).
  change (Zdigits2 (Z.pos q)) with (dig q). lia.
Qed.

(** ** Floats that are not negative *)

Definition ok (x : spec_float) : Prop :=
  match x with
  | S754_zero _ | S754_infinity false => True
  | S754_finite false m e => canonical m e ∧ e ≤ 971
  | _ => False
  end.

Lemma fle_finite m0 e0 m e :
  fle (S754_finite false m0 e0) (S754_finite false m e) = true ↔ pair_le (Z.pos m0) e0 (Z.pos m) e.
Proof.
  unfold fle, SFleb, pair_le. cbn [SFcompare].
  destruct (Z.compare_spec e0 e) as [->|?|?]; [|split; [lia|done]|split; [done|lia]].
  change (Pos.compare_cont Eq m0 m) with (Pos.compare m0 m).
  destruct (Pos.compare_spec m0 m); split; (done || lia).
Qed.

Lemma pair_le_trans a b c d e f : pair_le a b c d → pair_le c d e f → pair_le a b e f.
Proof. unfold pair_le. lia. Qed.

(** Rounding a number that is at least [x] gives at least [x]. *)
Lemma round_ge M E m0 e0 :
  E ≤ fx (dig M + E) → canonical m0 e0 → e0 ≤ 971 →
  (if E <=? e0 then Z.pos m0 * 2 ^ (e0 - E) ≤ Z.pos M else Z.pos m0 ≤ Z.pos M * 2 ^ (E - e0)) →
  let r := binary_round_aux 53 1024 false (Z.pos M) E loc_Exact in
  ok r ∧ fle (S754_finite false m0 e0) r = true.
Proof.
  intros HE Hc He Hle. destruct (aux_cases M E HE) as (m1' & Hm1 & Hr).
  destruct (first_shift M E m0 e0 HE Hc Hle) as [Hpos Hp].
  assert (Hemin : -1074 ≤ fx (dig M + E)) by (rewrite fx_def; lia).
  destruct (second_shift _ m1' _ Hpos (proj1 Hm1) Hemin) as (m2 & Hm2 & Hp2 & Hcan).
  cbv zeta in *. rewrite Hr, Hm2. clear Hr Hm2.
  pose proof (rounded_digits M E m1' HE ltac:(lia)) as Hge.
  specialize (Hcan Hge). destruct (Z.leb_spec (fx (dig M + E) + Z.max 0 (fx (Zdigits2 m1' + fx (dig M + E)) - fx (dig M + E))) 971).
  - split; [by split|]. apply fle_finite. by eapply pair_le_trans.
  - split; [done|]. done.
Qed.

(** ** Addition *)

Lemma shl_align_spec m e e' :
  e' ≤ e → Z.pos (shl_align m e e').1 = Z.pos m * 2 ^ (e - e') ∧ (shl_align m e e').2 = e'.
Proof.
  intros He. unfold shl_align. destruct (e' - e) as [|d|d] eqn:Hd; [|lia|]; cbn [fst snd].
  - replace (e - e') with 0 by lia. split; lia.
  - split; [|done]. replace (e - e') with (Z.pos d) by lia.
    rewrite <- Z.shiftl_mul_pow2 by lia.
    change (Z.shiftl (Z.pos m) (Z.pos d)) with (Pos.iter (Z.mul 2) (Z.pos m) d).
    rewrite !Pos2Nat.inj_iter. generalize (Pos.to_nat d) as k. clear.
    induction k as [|k IH]; [done|]. cbn [nat_rect]. rewrite <- IH. done.
Qed.

Lemma shl_align_up m e e' : e ≤ e' → shl_align m e e' = (m, e).
Proof. intros He. unfold shl_align. destruct (e' - e) eqn:Hd; [done|done|lia]. Qed.

(** binary_round first brings the mantissa to the digits it can keep. *)
Lemma binary_round_ge p ez m0 e0 :
  canonical m0 e0 → e0 ≤ 971 → ez ≤ e0 → Z.pos m0 * 2 ^ (e0 - ez) ≤ Z.pos p →
  let r := binary_round 53 1024 false p ez in ok r ∧ fle (S754_finite false m0 e0) r = true.
Proof.
  intros Hc He0 Hez Hle. unfold binary_round. change (Z.pos (digits2_pos p)) with (dig p).
  change (fexp 53 1024 (dig p + ez)) with (fx (dig p + ez)).
  destruct (Z.le_gt_cases ez (fx (dig p + ez))) as [Hup|Hdown].
  - rewrite shl_align_up by done. apply round_ge; [done..|]. by rewrite (proj2 (Z.leb_le ez e0)) by done.
  - assert (Hf : fx (dig p + ez) = Z.max (dig p + ez - 53) (-1074)) by done.
    generalize dependent (fx (dig p + ez)). intros f Hdown Hf.
    pose proof (shl_align_spec p ez f ltac:(lia)) as [H1 H2].
    destruct (shl_align p ez f) as [q eq]. cbn [fst snd] in *. subst eq.
    pose proof (dig_shift_left p q (ez - f) ltac:(lia) ltac:(lia)) as Hd.
    apply round_ge; [rewrite fx_def; lia|done..|].
    rewrite (proj2 (Z.leb_le _ e0)) by lia. rewrite H1.
    replace (e0 - f) with (e0 - ez + (ez - f)) by lia. rewrite Z.pow_add_r by lia.
    assert (0 < 2 ^ (ez - f)) by (apply Z.pow_pos_nonneg; lia). nia.
Qed.

Lemma fle_refl x : ok x → fle x x = true.
Proof.
  destruct x as [s|[|]| |[|] m e]; try done. intros _. apply fle_finite. right. split; [done|lia].
Qed.

Lemma fle_trans x y z : ok x → ok y → ok z → fle x y = true → fle y z = true → fle x z = true.
Proof.
  intros Hx Hy Hz.
  destruct x as [sx|[|]| |[|] mx ex], y as [sy|[|]| |[|] my ey], z as [sz|[|]| |[|] mz ez]; try done.
  rewrite !fle_finite. apply pair_le_trans.
Qed.

(** The order of all floats; NaN is not below or above anything. *)
Lemma fle_negative m0 e0 m e :
  fle (S754_finite true m0 e0) (S754_finite true m e) = true ↔ pair_le (Z.pos m) e (Z.pos m0) e0.
Proof.
  unfold fle, SFleb, pair_le. cbn [SFcompare].
  destruct (Z.compare_spec e0 e) as [->|?|?]; [|split; [done|lia]|split; [lia|done]].
  change (Pos.compare_cont Eq m0 m) with (Pos.compare m0 m).
  destruct (Pos.compare_spec m0 m); split; (done || cbn; lia).
Qed.

Lemma fle_transitive x y z : fle x y = true → fle y z = true → fle x z = true.
Proof.
  destruct x as [sx|[|]| |[|] mx ex], y as [sy|[|]| |[|] my ey], z as [sz|[|]| |[|] mz ez]; try done.
  - rewrite !fle_negative. intros H1 H2. by eapply pair_le_trans.
  - rewrite !fle_finite. apply pair_le_trans.
Qed.

Theorem fadd_ge x y : ok x → ok y → ok (fadd x y) ∧ fle x (fadd x y) = true ∧ fle y (fadd x y) = true.
Proof.
  intros Hx Hy. unfold fadd.
  destruct x as [[|]|[|]| |[|] mx ex], y as [[|]|[|]| |[|] my ey]; try done; cbn [SFadd];
    try (by split_and!; first [done|apply fle_refl]).
  destruct Hx as [Hcx Hex], Hy as [Hcy Hey]. cbn [cond_Zopp].
  pose proof (shl_align_spec mx ex (Z.min ex ey) ltac:(lia)) as [H1 _].
  pose proof (shl_align_spec my ey (Z.min ex ey) ltac:(lia)) as [H2 _].
  cbn [binary_normalize Z.add].
  destruct (binary_round_ge (Pos.add (shl_align mx ex (Z.min ex ey)).1 (shl_align my ey (Z.min ex ey)).1)
    (Z.min ex ey) mx ex) as [Ho Hlx]; [done|done|lia|lia|].
  destruct (binary_round_ge (Pos.add (shl_align mx ex (Z.min ex ey)).1 (shl_align my ey (Z.min ex ey)).1)
    (Z.min ex ey) my ey) as [_ Hly]; [done|done|lia|lia|].
  done.
Qed.

(** ** Multiplication by a factor of at least one *)

Definition finite (x : spec_float) : bool :=
  match x with S754_zero _ | S754_finite _ _ _ => true | _ => false end.

Lemma one_or_more b :
  ok b → fle fone b = true → finite b = true →
  ∃ m e, b = S754_finite false m e ∧ 53 ≤ dig m ∧ (e ≤ 0 → 2 ^ (- e) ≤ Z.pos m).
Proof.
  change fone with (S754_finite false 4503599627370496 (-52)).
  destruct b as [s|[|]| |[|] m e]; try done. intros [Hc He] Hle%fle_finite _. exists m, e.
  unfold canonical in Hc. rewrite fx_def in Hc. pose proof (dig_spec m) as [Hm _].
  destruct Hle as [Hlt|[<- Hle]].
  - assert (dig m = 53) as Hd by lia. split_and!; [done|lia|]. intros Hneg. etrans; [|exact Hm].
    rewrite Hd. apply Z.pow_le_mono_r; lia.
  - split_and!; [done|lia|]. intros _. done.
Qed.

Theorem fmul_ge x b :
  ok x → ok b → fle fone b = true → finite b = true →
  ok (fmul x b) ∧ fle x (fmul x b) = true.
Proof.
  intros Hx Hb H1 Hf. destruct (one_or_more b Hb H1 Hf) as (my & ey & -> & Hdy & Hmy).
  destruct x as [[|]|[|]| |[|] mx ex]; try done. destruct Hx as [Hc He].
  unfold fmul. cbn [SFmul xorb]. apply round_ge; [|done..|].
  - pose proof (dig_mono my (mx * my) ltac:(nia)). rewrite fx_def. lia.
  - rewrite Pos2Z.inj_mul. destruct (Z.leb_spec (ex + ey) ex).
    + specialize (Hmy ltac:(lia)). replace (ex - (ex + ey)) with (- ey) by lia. nia.
    + assert (0 < 2 ^ (ex + ey - ex)) by (apply Z.pow_pos_nonneg; lia).
      assert (1 ≤ Z.pos my * 2 ^ (ex + ey - ex)) by nia. rewrite <- Z.mul_assoc. nia.
Qed.

(** ** Sums *)

Definition fsum (acc : spec_float) (l : list spec_float) : spec_float := foldl fadd acc l.

Lemma fsum_ge l : ∀ acc,
  ok acc → Forall ok l →
  ok (fsum acc l) ∧ fle acc (fsum acc l) = true ∧ ∀ x, x ∈ l → fle x (fsum acc l) = true.
Proof.
  induction l as [|y l IH]; intros acc Ha Hl; cbn [fsum foldl].
  { split_and!; [done|by apply fle_refl|]. intros x Hx. by apply elem_of_nil in Hx. }
  apply Forall_cons in Hl as [Hy Hl]. destruct (fadd_ge acc y Ha Hy) as (Ho & Hacc & Hyle).
  destruct (IH (fadd acc y) Ho Hl) as (H1 & H2 & H3). split_and!; [done|by eapply fle_trans; [..|exact Hacc|exact H2]|].
  intros x [->|Hx]%elem_of_cons; [|by apply H3]. by eapply fle_trans; [..|exact Hyle|exact H2].
Qed.

(** Products of factors of at least one. *)
Definition fprod (acc : spec_float) (l : list spec_float) : spec_float := foldl fmul acc l.

Definition factor (b : spec_float) : Prop := ok b ∧ fle fone b = true.

Lemma fmul_factor x b : factor x → factor b → factor (fmul x b).
Proof.
  intros [Hx Hx1] [Hb Hb1]. destruct (finite b) eqn:Hf.
  - destruct (fmul_ge x b Hx Hb Hb1 Hf) as [Ho Hle]. split; [done|]. by eapply fle_trans; [| |exact Ho|exact Hx1|exact Hle].
  - destruct b as [|[|]| |[|] mb eb]; try done. by destruct x as [sx|[|]| |[|] mx ex].
Qed.

Lemma fprod_factor l : ∀ acc, factor acc → Forall factor l → factor (fprod acc l).
Proof.
  induction l as [|b l IH]; intros acc Ha Hl; [done|]. apply Forall_cons in Hl as [Hb Hl].
  apply IH; [by apply fmul_factor|done].
Qed.

Lemma factor_one : factor fone.
Proof. by split; [split; vm_compute|]. Qed.
