(* ===== verification/StrOrder.v ===== *)
(** Go's byte order on strings, sorted lists, and the sorted keys of a
    map. *)
From S2P Require Import Prelude GoStrings.
From Stdlib Require Import Structures.OrdersEx.

(** a <= b of Go strings. *)
Definition str_le (a b : string) : Prop := String.leb a b = true.

#[export] Instance str_le_dec a b : Decision (str_le a b).
Proof. unfold str_le. apply _. Defined.
#[export] Instance str_le_total : Total str_le.
Proof. intros a b. apply String.leb_total. Qed.
#[export] Instance str_le_antisymm : AntiSymm eq str_le.
Proof. intros a b. apply String.leb_antisym. Qed.

Lemma str_le_not_lt a b : str_le a b ↔ ¬ String_as_OT.lt b a.
Proof.
  change (String_as_OT.lt b a) with (String.compare b a = Lt).
  unfold str_le, String.leb. rewrite (String.compare_antisym b a).
  by destruct (String.compare a b).
Qed.

#[export] Instance str_le_trans : Transitive str_le.
Proof.
  intros a b c. rewrite !str_le_not_lt. intros Hab Hbc Hca.
  destruct (String_as_OT.compare_spec b c) as [E|H|H]; [|..].
  - apply Hab. by rewrite E.
  - apply Hab. by transitivity c.
  - done.
Qed.

(** sort.Strings. *)
Definition sort_strings (l : list string) : list string := merge_sort str_le l.

Lemma sort_strings_Permutation l : sort_strings l ≡ₚ l.
Proof. apply merge_sort_Permutation. Qed.
Lemma elem_of_sort_strings l x : x ∈ sort_strings l ↔ x ∈ l.
Proof. by rewrite sort_strings_Permutation. Qed.
Lemma sort_strings_sorted l : StronglySorted str_le (sort_strings l).
Proof. apply StronglySorted_merge_sort; apply _. Qed.
Lemma sort_strings_unique l k : l ≡ₚ k → sort_strings l = sort_strings k.
Proof.
  intros H. apply (StronglySorted_unique str_le); [apply sort_strings_sorted..|].
  by rewrite !sort_strings_Permutation.
Qed.

(** A sorted list without its repeats. *)
Fixpoint drop_repeats (l : list string) : list string :=
  match l with
  | x :: ((y :: _) as r) => if String.eqb x y then drop_repeats r else x :: drop_repeats r
  | l => l
  end.

(** The distinct elements of a list, sorted. *)
Definition sorted_set (l : list string) : list string := drop_repeats (sort_strings l).

Lemma drop_repeats_cons x y r :
  drop_repeats (x :: y :: r)
  = if String.eqb x y then drop_repeats (y :: r) else x :: drop_repeats (y :: r).
Proof. done. Qed.

Lemma elem_of_drop_repeats l x : x ∈ drop_repeats l ↔ x ∈ l.
Proof.
  induction l as [|a [|b l] IH]; [done..|]. rewrite drop_repeats_cons.
  destruct (String.eqb_spec a b) as [->|_]; rewrite ?(elem_of_cons (drop_repeats _)), IH.
  - rewrite !elem_of_cons. tauto.
  - by rewrite (elem_of_cons (b :: l)).
Qed.

Lemma drop_repeats_sorted l :
  StronglySorted str_le l → StronglySorted str_le (drop_repeats l) ∧ NoDup (drop_repeats l).
Proof.
  induction l as [|a [|b l] IH]; intros H.
  - split; constructor.
  - split; [done|apply NoDup_singleton].
  - inversion H as [|? ? Hs Hle]; subst. destruct (IH Hs) as [IH1 IH2].
    rewrite drop_repeats_cons. rewrite Forall_forall in Hle.
    destruct (String.eqb_spec a b) as [->|Hne]; [done|]. split.
    + constructor; [done|]. apply Forall_forall. intros x Hx. by apply Hle, elem_of_drop_repeats.
    + constructor; [|done]. rewrite elem_of_drop_repeats. intros [->|Hin]%elem_of_cons; [done|].
      apply Hne, (anti_symm str_le).
      * apply Hle. by left.
      * inversion Hs as [|? ? _ Hb]; subst. rewrite Forall_forall in Hb. by apply Hb.
Qed.

Lemma elem_of_sorted_set l x : x ∈ sorted_set l ↔ x ∈ l.
Proof. unfold sorted_set. by rewrite elem_of_drop_repeats, elem_of_sort_strings. Qed.
Lemma sorted_set_NoDup l : NoDup (sorted_set l).
Proof. apply drop_repeats_sorted, sort_strings_sorted. Qed.
Lemma sorted_set_sorted l : StronglySorted str_le (sorted_set l).
Proof. apply drop_repeats_sorted, sort_strings_sorted. Qed.

(** Sorted sets with the same elements are equal. *)
Lemma sorted_set_ext l k : (∀ x, x ∈ l ↔ x ∈ k) → sorted_set l = sorted_set k.
Proof.
  intros H. apply (StronglySorted_unique str_le); [apply sorted_set_sorted..|].
  apply NoDup_Permutation; [apply sorted_set_NoDup..|]. intros x.
  by rewrite !elem_of_sorted_set.
Qed.

(** The keys of a map, sorted: how Go code iterates over a map in a fixed
    order. *)
Definition sorted_keys {A} (m : gmap string A) : list string :=
  sort_strings (map_to_list m).*1.

Lemma elem_of_sorted_keys {A} (m : gmap string A) k :
  k ∈ sorted_keys m ↔ is_Some (m !! k).
Proof.
  unfold sorted_keys. rewrite elem_of_sort_strings, list_elem_of_fmap. split.
  - intros ([k' v] & -> & H%elem_of_map_to_list). by exists v.
  - intros [v H%elem_of_map_to_list]. by exists (k, v).
Qed.

Lemma sorted_keys_NoDup {A} (m : gmap string A) : NoDup (sorted_keys m).
Proof. unfold sorted_keys. rewrite sort_strings_Permutation. apply NoDup_fst_map_to_list. Qed.
