(* ===== verification/GoPath.v ===== *)
(** Go's path/filepath on a Unix system: Clean, Join and Base, and what they
    keep of a clean absolute path.

    A path is split into its elements at the slashes; Clean folds them with
    the rules of its documentation. *)
From S2P Require Import Prelude GoStrings.
Local Open Scope string_scope.

Definition slash : ascii := "/"%char.

Definition is_rooted (p : string) : bool := has_prefix "/" p.

(** One element added to those kept so far, the last one first. *)
Definition clean_step (rooted : bool) (kept : list string) (e : string) : list string :=
  if String.eqb e "" || String.eqb e "." then kept
  else if String.eqb e ".." then
    match kept with
    | k :: rest => if String.eqb k ".." then e :: kept else rest
    | [] => if rooted then [] else [e]
    end
  else e :: kept.

Definition clean_elems (rooted : bool) (es : list string) : list string :=
  rev (foldl (clean_step rooted) [] es).

Definition render (rooted : bool) (es : list string) : string :=
  if rooted then "/" ++ join "/" es
  else match es with [] => "." | _ => join "/" es end.

(** filepath.Clean *)
Definition Clean (p : string) : string :=
  render (is_rooted p) (clean_elems (is_rooted p) (split_on slash p)).

(** filepath.Join: what is empty is left out. *)
Definition Join (es : list string) : string :=
  match filter (λ e, e ≠ "") es with
  | [] => ""
  | ks => Clean (join "/" ks)
  end.

(** The last of the elements that is not empty. *)
Definition last_elem (es : list string) : option string :=
  last (filter (λ e, e ≠ "") es).

(** filepath.Base: trailing slashes do not count. *)
Definition Base (p : string) : string :=
  if String.eqb p "" then "."
  else match last_elem (split_on slash p) with
       | Some e => e
       | None => "/"
       end.

(** An element that Clean keeps as it is. *)
Definition plain_name (n : string) : bool :=
  negb (String.eqb n "") && negb (String.eqb n ".") && negb (String.eqb n "..") && no_char slash n.

(** A rooted path written with such elements: what Clean leaves of an
    absolute path. *)
Definition absolute (p : string) : Prop :=
  ∃ es, Forall (λ e, plain_name e = true) es ∧ p = "/" ++ join "/" es.

(** ** Lemmas *)

Lemma app_str_assoc (a b c : string) : (a ++ b) ++ c = a ++ b ++ c.
Proof. induction a as [|x a IH]; cbn; [done|]. change (String x ((a ++ b) ++ c) = String x (a ++ b ++ c)). by rewrite IH. Qed.

Lemma plain_name_spec n :
  plain_name n = true ↔ n ≠ "" ∧ n ≠ "." ∧ n ≠ ".." ∧ no_char slash n = true.
Proof.
  unfold plain_name. rewrite !andb_true_iff, !negb_true_iff, !String.eqb_neq. tauto.
Qed.

Lemma clean_step_plain r kept n : plain_name n = true → clean_step r kept n = n :: kept.
Proof.
  intros (H1 & H2 & H3 & _)%plain_name_spec. unfold clean_step.
  by rewrite !(proj2 (String.eqb_neq _ _)) by done.
Qed.

Lemma clean_fold_plain r es kept :
  Forall (λ e, plain_name e = true) es → foldl (clean_step r) kept es = (rev es ++ kept)%list.
Proof.
  intros H. revert kept. induction H as [|e es He _ IH]; intros kept; cbn; [done|].
  rewrite clean_step_plain by done. rewrite IH. cbn. by rewrite <- app_assoc.
Qed.

Lemma clean_elems_plain r es : Forall (λ e, plain_name e = true) es → clean_elems r es = es.
Proof. intros H. unfold clean_elems. by rewrite clean_fold_plain, app_nil_r, rev_involutive. Qed.

(** The elements between the slashes hold no slash. *)
Lemma split_on_pieces c s : Forall (λ e, no_char c e = true) (split_on c s).
Proof.
  induction s as [|a s IH]; cbn; [by repeat constructor|].
  destruct (Ascii.eqb a c) eqn:E; [by constructor|].
  destruct (split_on c s) as [|x r]; [by repeat constructor; cbn; rewrite E|].
  inversion IH; subst. constructor; [cbn; by rewrite E|done].
Qed.

(** Rooted folds keep plain elements only: there is no ".." above the root. *)
Lemma clean_fold_rooted es kept :
  Forall (λ e, no_char slash e = true) es → Forall (λ e, plain_name e = true) kept →
  Forall (λ e, plain_name e = true) (foldl (clean_step true) kept es).
Proof.
  intros H. revert kept. induction H as [|e es He _ IH]; intros kept Hk; cbn; [done|]. apply IH.
  unfold clean_step. destruct (String.eqb e "" || String.eqb e ".") eqn:E; [done|].
  apply orb_false_iff in E as [E1%String.eqb_neq E2%String.eqb_neq].
  destruct (String.eqb e "..") eqn:E3.
  - destruct kept as [|k rest]; [done|]. inversion Hk as [|? ? Hp Hr]; subst.
    apply plain_name_spec in Hp as (_ & _ & Hd & _). by rewrite (proj2 (String.eqb_neq _ _) Hd).
  - constructor; [|done]. apply plain_name_spec. apply String.eqb_neq in E3. done.
Qed.

Lemma Clean_absolute p : is_rooted p = true → absolute (Clean p).
Proof.
  intros H. unfold Clean. rewrite H. eexists. split; [|done]. unfold clean_elems.
  apply Forall_rev, clean_fold_rooted; [apply split_on_pieces|done].
Qed.

Lemma join_snoc es n : es ≠ [] → join "/" (es ++ [n])%list = join "/" es ++ "/" ++ n.
Proof.
  induction es as [|e es IH]; [done|]. intros _. destruct es as [|e2 es]; [done|].
  change (join "/" ((e :: e2 :: es) ++ [n])%list) with (e ++ "/" ++ join "/" ((e2 :: es) ++ [n])%list).
  rewrite IH by done. cbn [join]. by rewrite !app_str_assoc.
Qed.

Lemma split_absolute es :
  Forall (λ e, plain_name e = true) es → es ≠ [] → split_on slash ("/" ++ join "/" es) = "" :: es.
Proof.
  intros H Hne. change (split_on slash ("/" ++ join "/" es)) with ("" :: split_on slash (join "/" es)).
  f_equal. apply split_on_join; [done|].
  eapply Forall_impl; [exact H|]. by intros n (_ & _ & _ & ?)%plain_name_spec.
Qed.

(** Joining plain names to a directory appends them. *)
Lemma Join_plain es n :
  Forall (λ e, plain_name e = true) es → plain_name n = true →
  Join ["/" ++ join "/" es; n] = "/" ++ join "/" (es ++ [n])%list.
Proof.
  intros Hes Hn. destruct (proj1 (plain_name_spec n) Hn) as (Hn0 & _ & _ & Hslash).
  unfold Join. rewrite filter_cons_True by done. rewrite filter_cons_True by done.
  change (filter _ []) with (@nil string). change (join "/" ["/" ++ join "/" es; n]) with (("/" ++ join "/" es) ++ "/" ++ n).
  unfold Clean. change (is_rooted _) with true.
  destruct es as [|e es].
  - change (split_on slash _) with ("" :: "" :: split_on slash n). rewrite split_on_no_char by done.
    change (clean_elems true ["";"";n]) with (clean_elems true [n]). by rewrite clean_elems_plain by (by constructor).
  - cbn [render]. unfold render. do 2 f_equal.
    change (("/" ++ join "/" (e :: es)) ++ "/" ++ n) with ("/" ++ (join "/" (e :: es) ++ "/" ++ n)).
    rewrite <- (join_snoc (e :: es)) by done. rewrite split_absolute; [|by apply Forall_app_2; [|constructor]|done].
    change (clean_elems true ("" :: ((e :: es) ++ [n])%list)) with (clean_elems true ((e :: es) ++ [n])%list).
    apply clean_elems_plain. by apply Forall_app_2; [|constructor].
Qed.

Lemma Join_absolute d n : absolute d → plain_name n = true → absolute (Join [d; n]).
Proof.
  intros (es & Hes & ->) Hn. rewrite Join_plain by done. exists (es ++ [n])%list.
  split; [by apply Forall_app_2; [|constructor]|done].
Qed.

Lemma has_prefix_app p s : has_prefix p (p ++ s) = true.
Proof.
  induction p as [|a p IH]; [done|]. change (Ascii.eqb a a && has_prefix p (p ++ s) = true).
  by rewrite Ascii.eqb_refl.
Qed.

Lemma has_prefix_split p s : has_prefix p s = true ↔ ∃ t, s = p ++ t.
Proof.
  split; [|intros [t ->]; apply has_prefix_app].
  revert s. induction p as [|a p IH]; intros s; [by exists s|]. destruct s as [|b s]; cbn; [done|].
  intros [->%Ascii.eqb_eq [t ->]%IH]%andb_true_iff. by exists t.
Qed.

(** Whatever is below a directory stays below it when a plain name is
    joined. *)
Lemma Join_below root d n :
  absolute d → plain_name n = true → has_prefix (root ++ "/") d = true →
  has_prefix (root ++ "/") (Join [d; n]) = true.
Proof.
  intros (es & Hes & ->) Hn [t Ht]%has_prefix_split. rewrite Join_plain by done.
  apply has_prefix_split. destruct es as [|e es].
  - destruct root as [|a root]; [by exists n|].
    change ("/" = String a ((root ++ "/") ++ t)) in Ht. by destruct root.
  - rewrite join_snoc by done. exists (t ++ "/" ++ n).
    by rewrite <- !app_str_assoc, <- Ht.
Qed.

(** *** Several names at once *)

Lemma join_app es ns : es ≠ [] → ns ≠ [] → join "/" (es ++ ns)%list = join "/" es ++ "/" ++ join "/" ns.
Proof.
  intros He Hn. induction es as [|e es IH]; [done|]. destruct es as [|e2 es].
  - by destruct ns.
  - change (join "/" ((e :: e2 :: es) ++ ns)%list) with (e ++ "/" ++ join "/" ((e2 :: es) ++ ns)%list).
    rewrite IH by done. change (join "/" (e :: e2 :: es)) with (e ++ "/" ++ join "/" (e2 :: es)).
    by rewrite !app_str_assoc.
Qed.

Lemma filter_plain ns : Forall (λ e, plain_name e = true) ns → filter (λ e : string, e ≠ "") ns = ns.
Proof.
  intros H. induction H as [|e l He _ IH]; [done|]. rewrite filter_cons_True; [by rewrite IH|].
  by apply plain_name_spec in He as (? & _).
Qed.

Lemma Join_plains es ns :
  Forall (λ e, plain_name e = true) es → Forall (λ e, plain_name e = true) ns → ns ≠ [] →
  Join (("/" ++ join "/" es) :: ns) = "/" ++ join "/" (es ++ ns)%list.
Proof.
  intros Hes Hns Hne. unfold Join. rewrite filter_cons_True by done. rewrite filter_plain by done.
  assert (Hj : join "/" (("/" ++ join "/" es) :: ns) = ("/" ++ join "/" es) ++ "/" ++ join "/" ns) by (by destruct ns).
  rewrite Hj. unfold Clean. change (is_rooted _) with true. unfold render. do 2 f_equal.
  assert (Hsp : split_on slash (join "/" ns) = ns).
  { apply split_on_join; [done|]. eapply Forall_impl; [exact Hns|]. by intros n (_ & _ & _ & ?)%plain_name_spec. }
  destruct es as [|e es].
  - change (split_on slash _) with ("" :: "" :: split_on slash (join "/" ns)). rewrite Hsp.
    change (clean_elems true ("" :: "" :: ns)) with (clean_elems true ns). by apply clean_elems_plain.
  - change (("/" ++ join "/" (e :: es)) ++ "/" ++ join "/" ns) with ("/" ++ (join "/" (e :: es) ++ "/" ++ join "/" ns)).
    rewrite <- join_app by done. rewrite split_absolute; [|by apply Forall_app_2|done].
    change (clean_elems true ("" :: ((e :: es) ++ ns)%list)) with (clean_elems true ((e :: es) ++ ns)%list).
    apply clean_elems_plain. by apply Forall_app_2.
Qed.

(** A clean absolute path is its own Clean, with or without another slash
    before it. *)
Lemma Clean_fixed p : absolute p → Clean p = p ∧ Clean ("/" ++ p) = p.
Proof.
  intros (es & Hes & ->). unfold Clean. change (is_rooted ("/" ++ join "/" es)) with true.
  change (is_rooted ("/" ++ "/" ++ join "/" es)) with true. unfold render. destruct es as [|e es]; [done|].
  change (split_on slash ("/" ++ "/" ++ join "/" (e :: es))) with ("" :: split_on slash ("/" ++ join "/" (e :: es))).
  rewrite !split_absolute by done.
  change (clean_elems true ("" :: "" :: e :: es)) with (clean_elems true (e :: es)).
  change (clean_elems true ("" :: e :: es)) with (clean_elems true (e :: es)).
  by rewrite clean_elems_plain.
Qed.

(** ** Base of a joined name *)

Lemma Base_snoc es n :
  Forall (λ e, plain_name e = true) es → plain_name n = true →
  Base ("/" ++ join "/" (es ++ [n])%list) = n.
Proof.
  intros Hes Hn. unfold Base. change (String.eqb _ "") with false. cbn match.
  rewrite split_absolute; [|by apply Forall_app_2; [|constructor]|by destruct es].
  unfold last_elem. rewrite filter_cons_False by (intros H; by apply H).
  assert (Hf : filter (λ e : string, e ≠ "") (es ++ [n])%list = (es ++ [n])%list).
  { assert (Ha : Forall (λ e, plain_name e = true) (es ++ [n])%list) by (by apply Forall_app_2; [|constructor]).
    induction Ha as [|e l He _ IH]; [done|]. rewrite filter_cons_True; [by rewrite IH|].
    by apply plain_name_spec in He as (? & _). }
  by rewrite Hf, last_snoc.
Qed.

Lemma Base_Join d n : absolute d → plain_name n = true → Base (Join [d; n]) = n.
Proof. intros (es & Hes & ->) Hn. rewrite Join_plain by done. by apply Base_snoc. Qed.

(** ** Examples *)

Example clean_examples :
  (Clean <$> ["a//b"; "/../a"; "a/../../b"; "./x/."; ""; "/"]) = ["a/b"; "/a"; "../b"; "x"; "."; "/"]
  ∧ (Base <$> ["/a/b/"; "b"; "///"; ""]) = ["b"; "b"; "/"; "."]
  ∧ Join ["/srv"; ""; "agents"; "../etc"] = "/srv/etc".
Proof. vm_compute. done. Qed.
