(* ===== verification/GoTime.v ===== *)
(** Instants, durations, zones and calendar days of Go's time package, as
    the modelled code uses them.  An instant is a [Z] of nanoseconds since
    1970-01-01T00:00:00Z and a duration a [Z] of nanoseconds. *)
From S2P Require Import Prelude GoStrings.
Local Open Scope Z_scope.

Definition nanosecond : Z := 1.
Definition second : Z := 1000000000.
Definition minute : Z := 60 * second.
Definition hour : Z := 60 * minute.

(** The zero time.Time, 0001-01-01T00:00:00Z. *)
Definition zero_time : Z := -62135596800 * second.
Definition is_zero (t : Z) : bool := t =? zero_time.

(** t.After(u), t.Before(u), t.Sub(u): a Sub outside the int64 range
    saturates. *)
Definition after (t u : Z) : bool := u <? t.
Definition before (t u : Z) : bool := t <? u.
Definition sub (t u : Z) : Z := Z.max min_int64 (Z.min max_int64 (t - u)).

(** t.Unix(). *)
Definition unix (t : Z) : Z := t / second.

(** t.Truncate(time.Minute) for an instant after the zero time: the zero
    time is on a whole minute. *)
Definition truncate_minute (t : Z) : Z := t / minute * minute.

(** A *time.Location: its name and, for every second since the epoch, the
    offset east of UTC.  The zone database is data, not code under src/. *)
Record Location := mkLocation {
  loc_name : string;
  loc_offset : Z → Z;
}.

Definition UTC : Location := mkLocation "UTC" (λ _, 0).

(** Seconds on the local clock since the epoch of the calendar. *)
Definition local_seconds (l : Location) (t : Z) : Z := unix t + loc_offset l (unix t).

(** t.In(loc).Clock(). *)
Definition clock (l : Location) (t : Z) : Z * Z * Z :=
  let s := local_seconds l t mod 86400 in
  (s / 3600, s mod 3600 / 60, s mod 60).

(** The local calendar day, counted from 1970-01-01. *)
Definition local_day (l : Location) (t : Z) : Z := local_seconds l t / 86400.

(** time.Date at 00:00:00 local on a calendar day: the offset is looked up
    at the wall-clock second taken as UTC, then once more at the instant
    that gives. *)
Definition date_midnight (l : Location) (day : Z) : Z :=
  let u := day * 86400 in
  let o := loc_offset l u in
  if o =? 0 then u * second else (u - loc_offset l (u - o)) * second.

(** The proleptic Gregorian date of a day number. *)
Definition civil (day : Z) : Z * Z * Z :=
  let z := day + 719468 in
  let era := z / 146097 in
  let doe := z mod 146097 in
  let yoe := (doe - doe / 1460 + doe / 36524 - doe / 146096) / 365 in
  let doy := doe - (365 * yoe + yoe / 4 - yoe / 100) in
  let mp := (5 * doy + 2) / 153 in
  let d := doy - (153 * mp + 2) / 5 + 1 in
  let m := if mp <? 10 then mp + 3 else mp - 9 in
  let y := yoe + era * 400 + (if m <=? 2 then 1 else 0) in
  (y, m, d).

(** The four-digit year of the "2006" layout element. *)
Definition pad4 (n : Z) : string :=
  if n <? 10 then ("000" ++ itoa n)%string
  else if n <? 100 then ("00" ++ itoa n)%string
  else if n <? 1000 then ("0" ++ itoa n)%string
  else itoa n.
Definition format_year (y : Z) : string :=
  if y <? 0 then ("-" ++ pad4 (- y))%string else pad4 y.

(** t.In(loc).Format("2006-01-02"). *)
Definition format_date (day : Z) : string :=
  let '(y, m, d) := civil day in
  (format_year y ++ "-" ++ fmt_02d m ++ "-" ++ fmt_02d d)%string.

(** t.UTC().Format(time.RFC3339). *)
Definition format_rfc3339 (t : Z) : string :=
  let '(h, m, s) := clock UTC t in
  (format_date (local_day UTC t) ++ "T" ++ fmt_02d h ++ ":" ++ fmt_02d m ++ ":" ++ fmt_02d s
    ++ "Z")%string.

Example format_rfc3339_2025 :
  format_rfc3339 (1735689600 * second) = "2025-01-01T00:00:00Z"%string.
Proof. reflexivity. Qed.
Example civil_epoch : civil 0 = (1970, 1, 1).
Proof. reflexivity. Qed.
Example civil_leap : civil 19782 = (2024, 2, 29).
Proof. reflexivity. Qed.
Example format_date_2026 : format_date 20453 = "2025-12-31"%string.
Proof. reflexivity. Qed.

(** ** Zones whose offset is constant within every minute

    Every zone of the tz database since 1972: offsets are whole minutes and
    change on whole UTC minutes. *)
Class MinuteZone (l : Location) : Prop := {
  mz_whole : ∀ u, loc_offset l u mod 60 = 0;
  mz_const : ∀ u, loc_offset l u = loc_offset l (u / 60 * 60);
}.

#[export] Instance minute_zone_utc : MinuteZone UTC.
Proof. split; done. Qed.

Lemma minute_zone_fixed n o : MinuteZone (mkLocation n (λ _, 60 * o)).
Proof. split; intros; simpl; [|done]. rewrite Z.mul_comm. apply Z.mod_mul. lia. Qed.

Lemma local_seconds_minute l `{!MinuteZone l} (t u : Z) :
  t / minute = u / minute →
  local_seconds l t / 60 = local_seconds l u / 60.
Proof.
  intros E. unfold local_seconds.
  assert (Hm : ∀ x, x / minute = unix x / 60).
  { intros x. unfold unix, minute. rewrite Z.div_div by (unfold second; lia).
    done. }
  rewrite !Hm in E.
  rewrite (mz_const (l:=l) (unix t)), (mz_const (l:=l) (unix u)), E.
  pose proof (mz_whole (l:=l) (unix u / 60 * 60)) as Hw.
  set (o := loc_offset l (unix u / 60 * 60)) in *.
  assert (o = 60 * (o / 60)) as Ho by (pose proof (Z.div_mod o 60); lia).
  rewrite Ho, (Z.mul_comm 60), !Z.div_add by lia. lia.
Qed.
