(* ===== verification/Utf8.v ===== *)
(** The UTF-8 of Go's unicode/utf8 package: decoding with the replacement
    rune for what is not UTF-8, encoding, validity.  A byte is a [Z] in
    0..255, a rune a [Z]. *)
From S2P Require Import Prelude GoStrings.
Local Open Scope Z_scope.

Abbreviation bytes := (list Z).

Definition is_byte (b : Z) : Prop := 0 ≤ b < 256.

Definition bytes_of_string (s : string) : bytes := byte_of <$> String.list_ascii_of_string s.
Definition string_of_bytes (b : bytes) : string :=
  String.string_of_list_ascii ((λ z, ascii_of_N (Z.to_N z)) <$> b).

Definition RuneError : Z := 65533.

(** lo <= b <= hi *)
Definition within (lo hi b : Z) : bool := (lo <=? b) && (b <=? hi).
Definition cont (b : Z) : bool := within 128 191 b.

(** The range of the second byte of a three- or four-byte form. *)
Definition second3 (a b : Z) : bool :=
  if a =? 224 then within 160 191 b
  else if a =? 237 then within 128 159 b else cont b.
Definition second4 (a b : Z) : bool :=
  if a =? 240 then within 144 191 b
  else if a =? 244 then within 128 143 b else cont b.

(** utf8.DecodeRune: the rune and the number of bytes it takes. *)
Definition decode_rune (s : bytes) : Z * nat :=
  match s with
  | [] => (RuneError, 0%nat)
  | a :: r =>
      if a <? 128 then (a, 1%nat)
      else if within 194 223 a then
        match r with
        | b :: _ => if cont b then ((a - 192) * 64 + (b - 128), 2%nat) else (RuneError, 1%nat)
        | _ => (RuneError, 1%nat)
        end
      else if within 224 239 a then
        match r with
        | b :: c :: _ =>
            if second3 a b && cont c
            then ((a - 224) * 4096 + (b - 128) * 64 + (c - 128), 3%nat) else (RuneError, 1%nat)
        | _ => (RuneError, 1%nat)
        end
      else if within 240 244 a then
        match r with
        | b :: c :: d :: _ =>
            if second4 a b && cont c && cont d
            then ((a - 240) * 262144 + (b - 128) * 4096 + (c - 128) * 64 + (d - 128), 4%nat)
            else (RuneError, 1%nat)
        | _ => (RuneError, 1%nat)
        end
      else (RuneError, 1%nat)
  end.

(** The runes of a range loop over a string; [skip] bytes belong to the rune
    already produced. *)
Fixpoint runes_skip (skip : nat) (s : bytes) : list Z :=
  match s with
  | [] => []
  | _ :: r =>
      match skip with
      | S n => runes_skip n r
      | O => let '(c, w) := decode_rune s in c :: runes_skip (w - 1) r
      end
  end.
Definition runes (s : bytes) : list Z := runes_skip 0 s.

(** utf8.Valid. *)
Fixpoint valid_skip (skip : nat) (s : bytes) : bool :=
  match s with
  | [] => true
  | a :: r =>
      match skip with
      | S n => valid_skip n r
      | O =>
          if a <? 128 then valid_skip 0 r
          else let '(_, w) := decode_rune s in
               if (w =? 1)%nat then false else valid_skip (w - 1) r
      end
  end.
Definition valid (s : bytes) : bool := valid_skip 0 s.

(** Code points that are not surrogates and not past U+10FFFF. *)
Definition scalar (r : Z) : bool :=
  within 0 55295 r || within 57344 1114111 r.

(** utf8.AppendRune: what is not a scalar value becomes U+FFFD. *)
Definition encode_rune (r0 : Z) : bytes :=
  let r := if scalar r0 then r0 else RuneError in
  if r <? 128 then [r]
  else if r <? 2048 then [192 + r / 64; 128 + r mod 64]
  else if r <? 65536 then [224 + r / 4096; 128 + r / 64 mod 64; 128 + r mod 64]
  else [240 + r / 262144; 128 + r / 4096 mod 64; 128 + r / 64 mod 64; 128 + r mod 64].

Definition encode (rs : list Z) : bytes := rs ≫= encode_rune.

Definition norm_rune (r : Z) : Z := if scalar r then r else RuneError.

(** ** Lemmas *)

Lemma string_of_bytes_cons b l : string_of_bytes (b :: l) = String (ascii_of_N (Z.to_N b)) (string_of_bytes l).
Proof. done. Qed.

Lemma within_spec lo hi b : within lo hi b = true ↔ lo ≤ b ≤ hi.
Proof. unfold within. rewrite andb_true_iff, !Z.leb_le. done. Qed.

Lemma within_false lo hi b : within lo hi b = false ↔ b < lo ∨ hi < b.
Proof. unfold within. rewrite andb_false_iff, !Z.leb_gt. done. Qed.

Lemma scalar_norm r : scalar (norm_rune r) = true.
Proof. unfold norm_rune. by destruct (scalar r) eqn:E. Qed.

Lemma cont_mod x : cont (128 + x mod 64) = true.
Proof. pose proof (Z.mod_pos_bound x 64). apply within_spec. lia. Qed.

Lemma norm_scalar r : scalar r = true → norm_rune r = r.
Proof. unfold norm_rune. by intros ->. Qed.

(** The encoding by length of the form. *)
Lemma encode_cases r :
  scalar r = true →
  (0 ≤ r < 128 ∧ encode_rune r = [r]) ∨
  (∃ q, 2 ≤ q < 32 ∧ r = q * 64 + r mod 64 ∧ encode_rune r = [192 + q; 128 + r mod 64]) ∨
  (∃ q p, 128 ≤ r ∧ 0 ≤ q < 16 ∧ 0 ≤ p < 64 ∧ r = q * 4096 + p * 64 + r mod 64 ∧
     second3 (224 + q) (128 + p) = true ∧
     encode_rune r = [224 + q; 128 + p; 128 + r mod 64]) ∨
  (∃ q p o, 128 ≤ r ∧ 0 ≤ q < 5 ∧ 0 ≤ p < 64 ∧ 0 ≤ o < 64 ∧
     r = q * 262144 + p * 4096 + o * 64 + r mod 64 ∧
     second4 (240 + q) (128 + p) = true ∧
     encode_rune r = [240 + q; 128 + p; 128 + o; 128 + r mod 64]).
Proof.
  intros Hs. unfold encode_rune. rewrite Hs.
  unfold scalar in Hs. rewrite orb_true_iff, !within_spec in Hs.
  pose proof (Z.div_mod r 64 ltac:(lia)). pose proof (Z.mod_pos_bound r 64 ltac:(lia)).
  pose proof (Z.div_mod (r / 64) 64 ltac:(lia)).
  pose proof (Z.mod_pos_bound (r / 64) 64 ltac:(lia)).
  assert (E1 : r / 4096 = r / 64 / 64) by (by rewrite Z.div_div).
  pose proof (Z.div_mod (r / 4096) 64 ltac:(lia)).
  pose proof (Z.mod_pos_bound (r / 4096) 64 ltac:(lia)).
  assert (E2 : r / 262144 = r / 4096 / 64) by (by rewrite Z.div_div).
  destruct (Z.ltb_spec r 128); [left; split; [lia|done]|right].
  destruct (Z.ltb_spec r 2048); [left; exists (r / 64); split_and!; [lia..|done]|right].
  destruct (Z.ltb_spec r 65536); [left|right].
  - exists (r / 4096), (r / 64 mod 64). split_and!; [lia..| |done]. unfold second3, cont.
    destruct (Z.eqb_spec (224 + r / 4096) 224); [|destruct (Z.eqb_spec (224 + r / 4096) 237)];
      apply within_spec; lia.
  - exists (r / 262144), (r / 4096 mod 64), (r / 64 mod 64).
    split_and!; [lia..| |done]. unfold second4, cont.
    destruct (Z.eqb_spec (240 + r / 262144) 240); [|destruct (Z.eqb_spec (240 + r / 262144) 244)];
      apply within_spec; lia.
Qed.

(** Decoding what was encoded gives the rune, whatever follows. *)
Lemma decode_encode r s :
  scalar r = true →
  decode_rune (encode_rune r ++ s) = (r, length (encode_rune r)) ∧
  (r < 128 → encode_rune r = [r]) ∧ (128 ≤ r → (1 < length (encode_rune r))%nat) ∧
  match encode_rune r with a :: _ => (a <? 128) = (r <? 128) | [] => False end.
Proof.
  intros Hs. pose proof (Z.mod_pos_bound r 64 ltac:(lia)).
  destruct (encode_cases r Hs) as
    [[Hr ->]|[(q & Hq & Hr & ->)|[(q & p & Hge & Hq & Hp & Hr & H3 & ->)
      |(q & p & o & Hge & Hq & Hp & Ho & Hr & H4 & ->)]]]; cbn [app decode_rune].
  - rewrite (proj2 (Z.ltb_lt r 128)) by lia. split_and!; [done|done|simpl; lia|done].
  - rewrite (proj2 (Z.ltb_ge _ 128)) by lia. rewrite (proj2 (within_spec 194 223 _)) by lia.
    rewrite cont_mod. split_and!; [f_equal; lia|lia|simpl; lia|lia].
  - rewrite (proj2 (Z.ltb_ge _ 128)) by lia. rewrite (proj2 (within_false 194 223 _)) by lia.
    rewrite (proj2 (within_spec 224 239 _)) by lia. rewrite H3, cont_mod.
    split_and!; [simpl; f_equal; lia|lia|simpl; lia|lia].
  - rewrite (proj2 (Z.ltb_ge _ 128)) by lia. rewrite (proj2 (within_false 194 223 _)) by lia.
    rewrite (proj2 (within_false 224 239 _)) by lia. rewrite (proj2 (within_spec 240 244 _)) by lia.
    assert (cont (128 + o) = true) as Hc by (apply within_spec; lia). rewrite H4, Hc, cont_mod.
    split_and!; [simpl; f_equal; lia|lia|simpl; lia|lia].
Qed.

Lemma runes_skip_drop n s : runes_skip n s = runes (drop n s).
Proof. revert n; induction s as [|a s IH]; intros [|n]; simpl; done. Qed.

Lemma valid_skip_drop n s : valid_skip n s = valid (drop n s).
Proof. revert n; induction s as [|a s IH]; intros [|n]; simpl; done. Qed.

Lemma encode_rune_norm r : encode_rune r = encode_rune (norm_rune r).
Proof. unfold encode_rune. rewrite (scalar_norm r). unfold norm_rune. by destruct (scalar r). Qed.

Lemma runes_encode_rune r s : runes (encode_rune r ++ s) = norm_rune r :: runes s.
Proof.
  rewrite encode_rune_norm.
  destruct (decode_encode (norm_rune r) s (scalar_norm r)) as (Hd & _ & _ & Hne).
  unfold runes. destruct (encode_rune (norm_rune r)) as [|a l] eqn:E; [done|].
  cbn [app runes_skip]. cbn [app] in Hd. rewrite Hd.
  cbn [length]. rewrite Nat.sub_succ, Nat.sub_0_r, runes_skip_drop, drop_app_length. done.
Qed.

(** Range over an encoded sequence: the same scalar values. *)
Lemma runes_encode rs : runes (encode rs) = norm_rune <$> rs.
Proof.
  unfold encode. induction rs as [|r rs IH]; [done|].
  rewrite bind_cons, runes_encode_rune, IH. done.
Qed.

Lemma valid_encode_rune r s : valid (encode_rune r ++ s) = valid s.
Proof.
  rewrite encode_rune_norm.
  destruct (decode_encode (norm_rune r) s (scalar_norm r)) as (Hd & Hs & Hl & Hne).
  unfold valid. destruct (encode_rune (norm_rune r)) as [|a l] eqn:E; [done|].
  cbn [app valid_skip]. cbn [app] in Hd. rewrite Hne.
  destruct (Z.ltb_spec (norm_rune r) 128) as [H|H].
  - specialize (Hs H). by simplify_eq/=.
  - rewrite Hd. specialize (Hl H).
    destruct (Nat.eqb_spec (length (a :: l)) 1); [lia|].
    cbn [length]. rewrite Nat.sub_succ, Nat.sub_0_r, valid_skip_drop, drop_app_length. done.
Qed.

(** Everything encoded is valid UTF-8. *)
Lemma valid_encode rs : valid (encode rs) = true.
Proof.
  unfold encode. induction rs as [|r rs IH]; [done|].
  by rewrite bind_cons, valid_encode_rune.
Qed.

(** Boolean range tests in the hypotheses, as inequalities. *)
Ltac byte_ranges :=
  repeat match goal with
  | H : _ && _ = true |- _ => apply andb_true_iff in H as [? ?]
  | H : within _ _ _ = true |- _ => apply within_spec in H
  | H : cont _ = true |- _ => unfold cont in H
  | H : (_ =? _) = true |- _ => apply Z.eqb_eq in H
  | H : (_ =? _) = false |- _ => apply Z.eqb_neq in H
  end.

(** What a range loop produces is always a scalar value. *)
Lemma decode_rune_scalar s : Forall is_byte s → scalar (decode_rune s).1 = true.
Proof.
  intros Hb. unfold decode_rune.
  destruct s as [|a r]; [done|]. apply Forall_cons in Hb as [Ha _]. unfold is_byte in Ha.
  destruct (Z.ltb_spec a 128).
  { cbn [fst]. unfold scalar. rewrite (proj2 (within_spec 0 55295 a)) by lia. done. }
  repeat (case_match; try done); cbn [fst]; unfold scalar; rewrite orb_true_iff, !within_spec;
    byte_ranges; unfold second3, second4 in *; repeat case_match; byte_ranges; lia.
Qed.

Lemma runes_scalar s : Forall is_byte s → Forall (λ r, scalar r = true) (runes s).
Proof.
  unfold runes. generalize 0%nat as k. induction s as [|a s IH]; intros [|k] Hb; cbn [runes_skip]; [constructor..| |].
  - pose proof (decode_rune_scalar (a :: s) Hb) as Hd. apply Forall_cons in Hb as [_ Hb].
    destruct (decode_rune (a :: s)) as [r n]. constructor; [done|by apply IH].
  - apply Forall_cons in Hb as [_ Hb]. by apply IH.
Qed.
