(* ===== verification/JsonString.v ===== *)
(** JSON strings as encoding/json writes them (no HTML escaping) and reads
    them: the encoding of every string, date and timestamp value of the
    journal. *)
From S2P Require Import Prelude GoStrings Utf8.
Local Open Scope Z_scope.

Definition hex_digit (n : Z) : Z := if n <? 10 then 48 + n else 87 + n.

(** What encoding/json writes for one rune of the string; [bad] marks a
    byte that is not UTF-8. *)
Definition quote_rune (bad : bool) (r : Z) : bytes :=
  if bad then [92; 117; 102; 102; 102; 100]
  else if r =? 34 then [92; 34]
  else if r =? 92 then [92; 92]
  else if r =? 8 then [92; 98]
  else if r =? 12 then [92; 102]
  else if r =? 10 then [92; 110]
  else if r =? 13 then [92; 114]
  else if r =? 9 then [92; 116]
  else if r <? 32 then [92; 117; 48; 48; hex_digit (r / 16); hex_digit (r mod 16)]
  else if (r =? 8232) || (r =? 8233) then [92; 117; 50; 48; 50; hex_digit (r mod 16)]
  else encode_rune r.

Fixpoint quote_skip (skip : nat) (s : bytes) : bytes :=
  match s with
  | [] => []
  | a :: r =>
      match skip with
      | S n => quote_skip n r
      | O =>
          let '(c, w) := decode_rune s in
          quote_rune ((c =? RuneError) && (w =? 1)%nat) c ++ quote_skip (w - 1) r
      end
  end.

(** The JSON text of a string. *)
Definition quote (s : bytes) : bytes := [34] ++ quote_skip 0 s ++ [34].

(** ** Decoding *)

Definition hex_value (b : Z) : option Z :=
  if within 48 57 b then Some (b - 48)
  else if within 97 102 b then Some (b - 87)
  else if within 65 70 b then Some (b - 55)
  else None.

(** getu4 after the backslash: "u" and four hex digits. *)
Definition getu4 (s : bytes) : option Z :=
  match s with
  | 117 :: a :: b :: c :: d :: _ =>
      match hex_value a, hex_value b, hex_value c, hex_value d with
      | Some a, Some b, Some c, Some d => Some (a * 4096 + b * 256 + c * 16 + d)
      | _, _, _, _ => None
      end
  | _ => None
  end.

(** utf16.DecodeRune of a surrogate pair. *)
Definition surrogate_pair (hi lo : Z) : option Z :=
  if within 55296 56319 hi && within 56320 57343 lo
  then Some ((hi - 55296) * 1024 + (lo - 56320) + 65536) else None.

(** An escape after its backslash: the rune and the bytes it takes. *)
Definition unescape (s : bytes) : option (Z * nat) :=
  match s with
  | [] => None
  | a :: r =>
      if (a =? 34) || (a =? 92) || (a =? 47) then Some (a, 1%nat)
      else if a =? 98 then Some (8, 1%nat)
      else if a =? 102 then Some (12, 1%nat)
      else if a =? 110 then Some (10, 1%nat)
      else if a =? 114 then Some (13, 1%nat)
      else if a =? 116 then Some (9, 1%nat)
      else match getu4 s with
           | None => None
           | Some u =>
               if within 55296 57343 u then
                 match drop 5 s with
                 | 92 :: r2 =>
                     match getu4 r2 with
                     | Some u2 =>
                         match surrogate_pair u u2 with
                         | Some c => Some (c, 11%nat)
                         | None => Some (RuneError, 5%nat)
                         end
                     | None => Some (RuneError, 5%nat)
                     end
                 | _ => Some (RuneError, 5%nat)
                 end
               else Some (u, 5%nat)
           end
  end.

Fixpoint unquote_skip (skip : nat) (s : bytes) : option bytes :=
  match s with
  | [] => None
  | a :: r =>
      match skip with
      | S n => unquote_skip n r
      | O =>
          if a =? 34 then match r with [] => Some [] | _ => None end
          else if a =? 92 then
            match unescape r with
            | Some (c, w) => (λ l, encode_rune c ++ l) <$> unquote_skip w r
            | None => None
            end
          else if a <? 32 then None
          else let '(c, w) := decode_rune s in
               (λ l, encode_rune c ++ l) <$> unquote_skip (w - 1) r
      end
  end.

(** The string of a JSON text, [None] when the text is not one string. *)
Definition unquote (s : bytes) : option bytes :=
  match s with
  | 34 :: r => unquote_skip 0 r
  | _ => None
  end.

(** ** The round trip *)

Lemma quote_skip_drop n s : quote_skip n s = quote_skip 0 (drop n s).
Proof. revert n; induction s as [|a s IH]; intros [|n]; simpl; done. Qed.
Lemma unquote_skip_drop n s : unquote_skip n s = unquote_skip 0 (drop n s).
Proof. revert n; induction s as [|a s IH]; intros [|n]; simpl; done. Qed.

Lemma encode_rune_nonempty r : encode_rune r ≠ [].
Proof. unfold encode_rune. by repeat case_match. Qed.

Lemma quote_encode_rune r s :
  scalar r = true → quote_skip 0 (encode_rune r ++ s) = quote_rune false r ++ quote_skip 0 s.
Proof.
  intros Hs. destruct (decode_encode r s Hs) as (Hd & H1 & H2 & _).
  destruct (encode_rune r) as [|a l] eqn:E; [by apply encode_rune_nonempty in E|].
  cbn [app quote_skip]. cbn [app] in Hd. rewrite Hd. cbn [length].
  rewrite Nat.sub_succ, Nat.sub_0_r, quote_skip_drop, drop_app_length.
  assert ((r =? RuneError) && (S (length l) =? 1)%nat = false) as ->; [|done].
  apply andb_false_iff. destruct (Z.eqb_spec r RuneError) as [->|]; [right|by left].
  apply Nat.eqb_neq. specialize (H2 ltac:(by vm_compute)). simpl in H2. lia.
Qed.

Lemma hex_value_digit n : 0 ≤ n < 16 → hex_value (hex_digit n) = Some n.
Proof.
  intros Hn. pose proof (check_below_Z
    (λ n, match hex_value (hex_digit n) with Some m => m =? n | None => false end) 16
    ltac:(by vm_compute) n Hn) as H. cbv beta in H.
  destruct (hex_value _); [|done]. apply Z.eqb_eq in H. by subst.
Qed.

Lemma getu4_hex a b c d s :
  0 ≤ a < 16 → 0 ≤ b < 16 → 0 ≤ c < 16 → 0 ≤ d < 16 →
  getu4 (117 :: hex_digit a :: hex_digit b :: hex_digit c :: hex_digit d :: s)
  = Some (a * 4096 + b * 256 + c * 16 + d).
Proof. intros. cbn [getu4]. by rewrite !hex_value_digit. Qed.

(** An escape of the encoder is read back. *)
Lemma unquote_u4 u s :
  0 ≤ u < 65536 → within 55296 57343 u = false →
  unescape (117 :: hex_digit (u / 4096) :: hex_digit (u / 256 mod 16)
    :: hex_digit (u / 16 mod 16) :: hex_digit (u mod 16) :: s) = Some (u, 5%nat).
Proof.
  intros Hu Hns. cbn [unescape]. unfold orb. cbn [Z.eqb].
  assert (0 ≤ u / 4096 < 16 ∧ 0 ≤ u / 256 mod 16 < 16 ∧ 0 ≤ u / 16 mod 16 < 16 ∧ 0 ≤ u mod 16 < 16)
    as (?&?&?&?) by (Z.to_euclidean_division_equations; lia).
  rewrite getu4_hex by done.
  assert (u / 4096 * 4096 + u / 256 mod 16 * 256 + u / 16 mod 16 * 16 + u mod 16 = u) as ->.
  { pose proof (Z.div_mod u 16 ltac:(lia)). pose proof (Z.div_mod (u / 16) 16 ltac:(lia)).
    assert (u / 256 = u / 16 / 16) as -> by (by rewrite Z.div_div).
    assert (u / 4096 = u / 16 / 16 / 16) as -> by (by rewrite !Z.div_div).
    pose proof (Z.div_mod (u / 16 / 16) 16 ltac:(lia)). lia. }
  by rewrite Hns.
Qed.

Lemma unquote_quote_rune r s :
  scalar r = true →
  unquote_skip 0 (quote_rune false r ++ s) = (λ l, encode_rune r ++ l) <$> unquote_skip 0 s.
Proof.
  intros Hs. unfold quote_rune.
  assert (Hesc : ∀ e c w, unescape (e ++ s) = Some (c, w) → w = length e →
    unquote_skip 0 ((92 :: e) ++ s) = (λ l, encode_rune c ++ l) <$> unquote_skip 0 s).
  { intros e c w He ->. cbn [app unquote_skip]. cbn [Z.eqb Pos.eqb].
    rewrite He, unquote_skip_drop, drop_app_length. done. }
  destruct (Z.eqb_spec r 34) as [->|H34]; [by apply (Hesc [34] 34 1%nat)|].
  destruct (Z.eqb_spec r 92) as [->|H92]; [by apply (Hesc [92] 92 1%nat)|].
  destruct (Z.eqb_spec r 8) as [->|]; [by apply (Hesc [98] 8 1%nat)|].
  destruct (Z.eqb_spec r 12) as [->|]; [by apply (Hesc [102] 12 1%nat)|].
  destruct (Z.eqb_spec r 10) as [->|]; [by apply (Hesc [110] 10 1%nat)|].
  destruct (Z.eqb_spec r 13) as [->|]; [by apply (Hesc [114] 13 1%nat)|].
  destruct (Z.eqb_spec r 9) as [->|]; [by apply (Hesc [116] 9 1%nat)|].
  assert (0 ≤ r) as Hr0.
  { unfold scalar in Hs. rewrite orb_true_iff, !within_spec in Hs. lia. }
  destruct (Z.ltb_spec r 32) as [H32|H32].
  { apply (Hesc [117; 48; 48; hex_digit (r / 16); hex_digit (r mod 16)] r 5%nat); [|done].
    pose proof (unquote_u4 r s ltac:(lia) ltac:(apply within_false; lia)) as Hu.
    assert (0 ≤ r / 16 < 16) by (Z.to_euclidean_division_equations; lia).
    rewrite (Z.div_small r 4096), (Z.div_small r 256), (Z.mod_small (r / 16)) in Hu by lia.
    exact Hu. }
  destruct (Z.eqb_spec r 8232) as [->|]; [by apply (Hesc [117; 50; 48; 50; 56] 8232 5%nat)|].
  destruct (Z.eqb_spec r 8233) as [->|]; [by apply (Hesc [117; 50; 48; 50; 57] 8233 5%nat)|].
  cbn [orb]. destruct (decode_encode r s Hs) as (Hd & H1 & H2 & Hhd).
  destruct (encode_rune r) as [|a l] eqn:E; [by apply encode_rune_nonempty in E|].
  assert (Ha : a ≠ 34 ∧ a ≠ 92 ∧ 32 ≤ a).
  { destruct (Z.ltb_spec r 128) as [Hlt|Hge].
    - specialize (H1 Hlt). simplify_eq. lia.
    - apply Z.ltb_ge in Hhd. lia. }
  cbn [app unquote_skip]. cbn [app] in Hd. rewrite Hd.
  rewrite (proj2 (Z.eqb_neq a 34)), (proj2 (Z.eqb_neq a 92)), (proj2 (Z.ltb_ge a 32)) by lia.
  cbn [length]. by rewrite Nat.sub_succ, Nat.sub_0_r, unquote_skip_drop, drop_app_length, E.
Qed.

Lemma unquote_quote rs :
  Forall (λ r, scalar r = true) rs → unquote (quote (encode rs)) = Some (encode rs).
Proof.
  intros Hrs. unfold unquote, quote. cbn [app].
  induction Hrs as [|r rs Hr Hrs IH]; [done|].
  change (encode (r :: rs)) with (encode_rune r ++ encode rs).
  rewrite quote_encode_rune, <- app_assoc, unquote_quote_rune, IH by done. done.
Qed.

(** ** Strings and bytes *)

Lemma bytes_of_string_of_bytes b : Forall is_byte b → bytes_of_string (string_of_bytes b) = b.
Proof.
  intros Hb. unfold bytes_of_string, string_of_bytes.
  rewrite String.list_ascii_of_string_of_list_ascii. induction Hb as [|x b Hx _ IH]; [done|].
  rewrite !fmap_cons, IH. f_equal. unfold byte_of, is_byte in *.
  rewrite N_ascii_embedding by lia. by rewrite Z2N.id by lia.
Qed.

Lemma string_of_bytes_of_string s : string_of_bytes (bytes_of_string s) = s.
Proof.
  unfold bytes_of_string, string_of_bytes. rewrite <- list_fmap_compose.
  rewrite (list_fmap_ext _ id), list_fmap_id.
  - apply String.string_of_list_ascii_of_string.
  - intros i a _. simpl. unfold byte_of. by rewrite N2Z.id, ascii_N_embedding.
Qed.

Lemma encode_ascii b : Forall (λ x, 0 ≤ x < 128) b → encode b = b.
Proof.
  induction 1 as [|x b Hx _ IH]; [done|]. unfold encode in *. rewrite bind_cons, IH.
  unfold encode_rune, scalar. rewrite (proj2 (within_spec 0 55295 x)) by lia. simpl.
  by rewrite (proj2 (Z.ltb_lt x 128)) by lia.
Qed.

Lemma ascii_scalar b : Forall (λ x, 0 ≤ x < 128) b → Forall (λ r, scalar r = true) b.
Proof.
  intros H. eapply Forall_impl; [exact H|]. cbv beta. intros x Hx. unfold scalar. by rewrite (proj2 (within_spec 0 55295 x)) by lia.
Qed.

(** Visible ASCII without a quote or a backslash is quoted as it is. *)
Definition plain_byte (x : Z) : bool := within 32 126 x && negb (x =? 34) && negb (x =? 92).

Lemma quote_plain b : Forall (λ x, plain_byte x = true) b → quote b = 34 :: b ++ [34].
Proof.
  intros Hb. unfold quote. cbn [app]. f_equal. f_equal.
  induction Hb as [|x b Hx _ IH]; [done|]. unfold plain_byte in Hx. bool_to_prop.
  rename select (within _ _ _ = true) into Hw. apply within_spec in Hw.
  cbn [quote_skip decode_rune]. rewrite (proj2 (Z.ltb_lt x 128)) by lia.
  rewrite (proj2 (Z.eqb_neq x RuneError)) by (unfold RuneError; lia).
  cbn [andb Nat.sub]. rewrite IH. unfold quote_rune.
  rewrite (proj2 (Z.eqb_neq x 34)), (proj2 (Z.eqb_neq x 92)), (proj2 (Z.eqb_neq x 8)),
    (proj2 (Z.eqb_neq x 12)), (proj2 (Z.eqb_neq x 10)), (proj2 (Z.eqb_neq x 13)),
    (proj2 (Z.eqb_neq x 9)), (proj2 (Z.ltb_ge x 32)), (proj2 (Z.eqb_neq x 8232)),
    (proj2 (Z.eqb_neq x 8233)) by lia.
  cbn [orb]. unfold encode_rune, scalar. rewrite (proj2 (within_spec 0 55295 x)) by lia. cbn [orb].
  by rewrite (proj2 (Z.ltb_lt x 128)) by lia.
Qed.

(** ** Bytes *)

Lemma bytes_of_string_bytes s : Forall is_byte (bytes_of_string s).
Proof.
  unfold bytes_of_string. apply Forall_fmap, Forall_forall. intros a _. unfold is_byte, compose, byte_of.
  pose proof (N_ascii_bounded a). lia.
Qed.

Lemma encode_rune_is_byte r : Forall is_byte (encode_rune r).
Proof.
  rewrite encode_rune_norm. destruct (encode_cases (norm_rune r) (scalar_norm r))
    as [(H & ->)|[(q & H & _ & ->)|[(q & p & _ & H1 & H2 & _ & _ & ->)|(q & p & o & _ & H1 & H2 & H3 & _ & _ & ->)]]];
    pose proof (Z.mod_pos_bound (norm_rune r) 64); repeat constructor; unfold is_byte; lia.
Qed.

Lemma encode_bytes rs : Forall is_byte (encode rs).
Proof.
  unfold encode. induction rs as [|r rs IH]; [constructor|]. rewrite bind_cons.
  apply Forall_app_2; [apply encode_rune_is_byte|done].
Qed.
