(* ===== verification/Effects.v ===== *)
(** Programs that call an environment: a finite free monad over a signature
    of operations, its runs against any environment, and the rule for
    proving that every run satisfies a property.

    An environment answers each operation from the history of the run so
    far, so quantifying over environments quantifies over every behaviour of
    the stores, clocks and remote sites behind the operations. *)
From S2P Require Import Prelude.

(** A signature: the operations and the type of each one's answer. *)
Class Sig := {
  op : Type;
  ans : op → Type;
}.

Section prog.
Context {Σ : Sig}.

Inductive prog (A : Type) : Type :=
| Ret (a : A)
| Do (o : op) (k : ans o → prog A).
Arguments Ret {A} _.
Arguments Do {A} _ _.

Fixpoint bind {A B} (p : prog A) (f : A → prog B) : prog B :=
  match p with
  | Ret a => f a
  | Do o k => Do o (λ r, bind (k r) f)
  end.

(** One call. *)
Definition call (o : op) : prog (ans o) := Do o Ret.

(** What was called and what was answered. *)
Record event := Event { ev_op : op; ev_ans : ans ev_op }.
Definition environment := list event → ∀ o, ans o.

(** The run of a program: the whole history and the result. *)
Fixpoint run {A} (env : environment) (h : list event) (p : prog A) : list event * A :=
  match p with
  | Ret a => (h, a)
  | Do o k => let r := env h o in run env (h ++ [Event o r]) (k r)
  end.

(** Every run from history [h] ends in a history and a result that
    satisfy [Q]. *)
Fixpoint post {A} (p : prog A) (h : list event) (Q : list event → A → Prop) : Prop :=
  match p with
  | Ret a => Q h a
  | Do o k => ∀ r, post (k r) (h ++ [Event o r]) Q
  end.

Lemma post_run {A} (p : prog A) h Q :
  post p h Q → ∀ env, let '(h', a) := run env h p in Q h' a.
Proof.
  revert h; induction p as [a|o k IH]; intros h HQ env; simpl in *; [done|].
  apply IH, HQ.
Qed.

Lemma post_bind {A B} (p : prog A) (f : A → prog B) h Q :
  post p h (λ h' a, post (f a) h' Q) → post (bind p f) h Q.
Proof. revert h; induction p as [a|o k IH]; intros h; simpl; auto. Qed.

Lemma post_mono {A} (p : prog A) h (Q R : list event → A → Prop) :
  (∀ h' a, Q h' a → R h' a) → post p h Q → post p h R.
Proof. intros HQR. revert h; induction p as [a|o k IH]; intros h; simpl; auto. Qed.

Lemma post_and {A} (p : prog A) h (Q R : list event → A → Prop) :
  post p h Q → post p h R → post p h (λ h' a, Q h' a ∧ R h' a).
Proof. revert h; induction p as [a|o k IH]; intros h; simpl; auto. Qed.

(** Programs only append to the history. *)
Lemma post_extends {A} (p : prog A) h :
  post p h (λ h' _, ∃ l, h' = h ++ l).
Proof.
  revert h; induction p as [a|o k IH]; intros h; simpl.
  { exists []. by rewrite app_nil_r. }
  intros r. eapply post_mono; [|apply IH]. intros h' _ [l ->].
  exists (Event o r :: l). by rewrite <- app_assoc.
Qed.
End prog.

Arguments prog {Σ} _.
Arguments Ret {Σ A} _.
Arguments Do {Σ A} _ _.
Arguments event Σ : clear implicits.
Arguments environment Σ : clear implicits.
Abbreviation trace Σ := (list (event Σ)).

Declare Scope prog_scope.
Delimit Scope prog_scope with prog.
Notation "'let!' x ':=' m 'in' k" := (bind m (λ x, k))
  (at level 10, x binder, m at level 100, k at level 200) : prog_scope.

(** ** Programs all of whose calls satisfy a predicate *)

Section calls.
Context {Σ : Sig}.
Context (P : op → Prop).

Fixpoint calls {A} (p : prog A) : Prop :=
  match p with
  | Ret _ => True
  | Do o k => P o ∧ ∀ r, calls (k r)
  end.

Lemma calls_bind {A B} (p : prog A) (f : A → prog B) :
  calls p → (∀ a, calls (f a)) → calls (bind p f).
Proof. intros Hp Hf. induction p as [a|o k IH]; simpl in *; [done|]. naive_solver. Qed.

Lemma calls_call o : P o → calls (call o).
Proof. done. Qed.

(** Such a program extends the history with such events only. *)
Lemma post_calls {A} (p : prog A) h :
  calls p → post p h (λ h' _, ∃ l, h' = h ++ l ∧ Forall (λ e, P (ev_op e)) l).
Proof.
  revert h; induction p as [a|o k IH]; intros h; simpl.
  { intros _. exists []. by rewrite app_nil_r. }
  intros [Ho Hk] r. eapply post_mono; [|apply IH, Hk]. intros h' _ (l & -> & Hl).
  exists (Event o r :: l). rewrite <- app_assoc. by split; [|constructor].
Qed.
End calls.

(** ** Programs each of whose calls is allowed by what happened before *)

Section during.
Context {Σ : Sig}.
Context (P : trace Σ → op → Prop).

Fixpoint during {A} (p : prog A) (h : trace Σ) : Prop :=
  match p with
  | Ret _ => True
  | Do o k => P h o ∧ ∀ r, during (k r) (h ++ [Event o r])
  end.

Lemma during_bind {A B} (p : prog A) (f : A → prog B) h :
  during p h → post p h (λ h' a, during (f a) h') → during (bind p f) h.
Proof.
  revert h. induction p as [a|o k IH]; intros h; simpl; [done|].
  intros [Ho Hk] Hf. split; [done|]. intros r. apply IH; [apply Hk|apply Hf].
Qed.

(** In every run, each call was allowed when it was made. *)
Lemma during_run {A} (p : prog A) h env :
  during p h →
  ∃ l, (run env h p).1 = h ++ l ∧
    ∀ l1 e l2, l = l1 ++ e :: l2 → P (h ++ l1) (ev_op e).
Proof.
  revert h. induction p as [a|o k IH]; intros h; simpl.
  { intros _. exists []. rewrite app_nil_r. split; [done|]. intros l1 e l2 E. by destruct l1. }
  intros [Ho Hk]. destruct (IH _ (h ++ [Event o (env h o)]) (Hk (env h o))) as (l & -> & Hl).
  exists (Event o (env h o) :: l). split; [by rewrite <- app_assoc|].
  intros [|e1 l1] e l2 E; cbn [app] in E; injection E as E1 E2.
  - subst e. cbn [ev_op]. by rewrite app_nil_r.
  - subst e1. rewrite (cons_middle _ h l1), app_assoc. by apply (Hl l1 e l2).
Qed.
End during.

Lemma during_mono {Σ : Sig} (P Q : trace Σ → op → Prop) {A} (p : prog A) h :
  (∀ h' o, P h' o → Q h' o) → during P p h → during Q p h.
Proof.
  intros HPQ. revert h. induction p as [a|o k IH]; intros h; simpl; [done|].
  intros [Ho Hk]. split; [by apply HPQ|]. intros r. by apply IH.
Qed.

(** The calls are made in histories that extend the first one. *)
Lemma during_extends {Σ : Sig} (P : trace Σ → op → Prop) {A} (p : prog A) h :
  during P p h → during (λ h' o, P h' o ∧ ∃ l, h' = h ++ l) p h.
Proof.
  assert (Hgen : ∀ l, during P p (h ++ l) → during (λ h' o, P h' o ∧ ∃ l, h' = h ++ l) p (h ++ l)).
  { induction p as [a|o k IH]; intros l; simpl; [done|]. intros [Ho Hk]. split; [split; [done|by eexists]|].
    intros r. rewrite <- app_assoc. apply IH. rewrite app_assoc. apply Hk. }
  specialize (Hgen []). by rewrite app_nil_r in Hgen.
Qed.

(** ** Runs against an environment whose answers satisfy a predicate *)

Section post_when.
Context {Σ : Sig}.
Context (G : ∀ o, ans o → Prop).

Fixpoint post_when {A} (p : prog A) (h : trace Σ) (Q : trace Σ → A → Prop) : Prop :=
  match p with
  | Ret a => Q h a
  | Do o k => ∀ r, G o r → post_when (k r) (h ++ [Event o r]) Q
  end.

Lemma post_when_run {A} (p : prog A) h Q env :
  (∀ h' o, G o (env h' o)) → post_when p h Q → Q (run env h p).1 (run env h p).2.
Proof.
  intros HG. revert h. induction p as [a|o k IH]; intros h HQ; simpl in *; [done|]. by apply IH, HQ.
Qed.

Lemma post_when_bind {A B} (p : prog A) (f : A → prog B) h Q :
  post_when p h (λ h' a, post_when (f a) h' Q) → post_when (bind p f) h Q.
Proof. revert h. induction p as [a|o k IH]; intros h; simpl; auto. Qed.

Lemma post_when_mono {A} (p : prog A) h (Q R : trace Σ → A → Prop) :
  (∀ h' a, Q h' a → R h' a) → post_when p h Q → post_when p h R.
Proof. intros HQR. revert h. induction p as [a|o k IH]; intros h; simpl; auto. Qed.

(** What every run satisfies, these runs satisfy. *)
Lemma post_when_post {A} (p : prog A) h (Q R : trace Σ → A → Prop) :
  post p h Q → post_when p h R → post_when p h (λ h' a, Q h' a ∧ R h' a).
Proof. revert h. induction p as [a|o k IH]; intros h; simpl; auto. Qed.
End post_when.

(** A run's events were answered by the environment. *)
Lemma run_answers {Σ : Sig} {A} (p : prog A) h env :
  (∀ e, e ∈ h → ∃ h', ev_ans e = env h' (ev_op e)) →
  ∀ e, e ∈ (run env h p).1 → ∃ h', ev_ans e = env h' (ev_op e).
Proof.
  revert h. induction p as [a|o k IH]; intros h Hh; simpl; [done|]. apply IH.
  intros e [He| ->%list_elem_of_singleton]%elem_of_app; [by apply Hh|by exists h].
Qed.

(** ** Programs over a state that answers *)

(** [step s o r s'] says that in the state [s] the operation [o] may be
    answered [r] and leave the state [s'].  Several answers are allowed where
    an operation may fail. *)
Section stateful.
Context {Σ : Sig} {S : Type}.
Context (step : S → ∀ o, ans o → S → Prop).

(** One execution of a program from a state to its result. *)
Inductive exec {A} : prog A → S → S → A → Prop :=
| ExecRet a s : exec (Ret a) s s a
| ExecDo o k r s s1 s' a : step s o r s1 → exec (k r) s1 s' a → exec (Do o k) s s' a.

(** Every execution from [s] ends in a state and a result that satisfy
    [Q]. *)
Fixpoint under {A} (p : prog A) (s : S) (Q : S → A → Prop) : Prop :=
  match p with
  | Ret a => Q s a
  | Do o k => ∀ r s', step s o r s' → under (k r) s' Q
  end.

Lemma under_exec {A} (p : prog A) s Q : under p s Q ↔ ∀ s' a, exec p s s' a → Q s' a.
Proof.
  split.
  - intros H s' a He. induction He; naive_solver.
  - revert s. induction p as [a|o k IH]; intros s H; simpl; [apply H; constructor|].
    intros r s' Hs. apply IH. intros s2 a He. apply H. by econstructor.
Qed.

Lemma under_bind {A B} (p : prog A) (f : A → prog B) s Q :
  under p s (λ s' a, under (f a) s' Q) → under (bind p f) s Q.
Proof. revert s. induction p as [a|o k IH]; intros s; simpl; auto. Qed.

Lemma under_mono {A} (p : prog A) s (Q R : S → A → Prop) :
  (∀ s' a, Q s' a → R s' a) → under p s Q → under p s R.
Proof. intros HQR. revert s. induction p as [a|o k IH]; intros s; simpl; eauto. Qed.

Lemma under_and {A} (p : prog A) s (Q R : S → A → Prop) :
  under p s Q → under p s R → under p s (λ s' a, Q s' a ∧ R s' a).
Proof. revert s. induction p as [a|o k IH]; intros s; simpl; auto. Qed.

Lemma under_true {A} (p : prog A) s (Q : S → A → Prop) : (∀ s' a, Q s' a) → under p s Q.
Proof. intros H. apply under_exec. auto. Qed.

(** What no operation of the program changes holds in the end. *)
Lemma under_calls (P : op → Prop) (I : S → Prop) {A} (p : prog A) s :
  (∀ s o r s', P o → step s o r s' → I s → I s') → calls P p → I s → under p s (λ s' _, I s').
Proof.
  intros HI. revert s. induction p as [a|o k IH]; intros s; simpl; [done|].
  intros [Ho Hk] Hs r s' Hstep. eauto.
Qed.

(** [I] holds at every moment of every execution, in particular when the
    program is killed. *)
Fixpoint always {A} (p : prog A) (s : S) (I : S → Prop) : Prop :=
  I s ∧ match p with
        | Ret _ => True
        | Do o k => ∀ r s', step s o r s' → always (k r) s' I
        end.

(** The states that a program passes through. *)
Inductive passes {A} : prog A → S → S → Prop :=
| PassHere p s : passes p s s
| PassOn o k r s s1 s' : step s o r s1 → passes (k r) s1 s' → passes (Do o k) s s'.

Lemma always_passes {A} (p : prog A) s s' I : always p s I → passes p s s' → I s'.
Proof. intros Ha Hp. induction Hp as [[a|o k] s|o k r s s1 s' Hs Hp IH]; simpl in Ha; [by destruct Ha..|]. apply IH. naive_solver. Qed.

Lemma always_bind {A B} (p : prog A) (f : A → prog B) s I :
  always p s I → under p s (λ s' a, always (f a) s' I) → always (bind p f) s I.
Proof.
  revert s. induction p as [a|o k IH]; intros s; simpl; [done|].
  intros [Hs Hk] Hf. split; [done|]. eauto.
Qed.

Lemma always_mono {A} (p : prog A) s (I J : S → Prop) :
  (∀ s, I s → J s) → always p s I → always p s J.
Proof. intros H. revert s. induction p as [a|o k IH]; intros s; simpl; naive_solver. Qed.

Lemma always_calls (P : op → Prop) (I : S → Prop) {A} (p : prog A) s :
  (∀ s o r s', P o → step s o r s' → I s → I s') → calls P p → I s → always p s I.
Proof.
  intros HI. revert s. induction p as [a|o k IH]; intros s; simpl; [done|].
  intros [Ho Hk] Hs. split; eauto.
Qed.
End stateful.

(** [I] holds at every moment and [Q] in the end. *)
Section safely.
Context {Σ : Sig} {S : Type} (step : S → ∀ o, ans o → S → Prop) (I : S → Prop).

Definition safely {A} (p : prog A) (s : S) (Q : S → A → Prop) : Prop := always step p s I ∧ under step p s Q.

Lemma safely_ret {A} (a : A) s (Q : S → A → Prop) : I s → Q s a → safely (Ret a) s Q.
Proof. by repeat split. Qed.

Lemma safely_bind {A B} (p : prog A) (f : A → prog B) s Q :
  safely p s (λ s' a, safely (f a) s' Q) → safely (bind p f) s Q.
Proof.
  intros [H1 H2]. split.
  - apply always_bind; [done|]. eapply under_mono; [|exact H2]. by intros s' a [H _].
  - apply under_bind. eapply under_mono; [|exact H2]. by intros s' a [_ H].
Qed.

Lemma safely_call (o : op) s (Q : S → ans o → Prop) :
  I s → (∀ r s', step s o r s' → I s' ∧ Q s' r) → safely (call o) s Q.
Proof. intros Hs H. split; [split; [done|]|]; intros r s' Hr; by destruct (H r s' Hr). Qed.

Lemma safely_mono {A} (p : prog A) s (Q R : S → A → Prop) :
  (∀ s' a, Q s' a → R s' a) → safely p s Q → safely p s R.
Proof. intros HQR [H1 H2]. split; [done|]. by eapply under_mono. Qed.

Lemma safely_and {A} (p : prog A) s (Q R : S → A → Prop) :
  safely p s Q → under step p s R → safely p s (λ s' a, Q s' a ∧ R s' a).
Proof. intros [H1 H2] H3. split; [done|by apply under_and]. Qed.
End safely.

(** Fewer steps, more holds. *)
Lemma under_step_mono {Σ : Sig} {S A : Type} (step1 step2 : S → ∀ o, ans o → S → Prop) (p : prog A) s Q :
  (∀ s o r s', step1 s o r s' → step2 s o r s') → under step2 p s Q → under step1 p s Q.
Proof. intros H. revert s. induction p as [a|o k IH]; intros s; simpl; eauto. Qed.
