(* ===== verification/Dailywindow.v ===== *)
(** internal/dailywindow: daily spans on the wall clock of a named zone, and
    whether something started now could still be running inside one. *)
From S2P Require Import Prelude GoStrings GoTime.
Local Open Scope Z_scope.

Definition daySeconds : Z := 86400.

(** [Start, End) in seconds since local midnight; Start > End wraps. *)
Record Window := mkWindow { Start : Z; WEnd : Z }.

#[export] Instance Window_eq_dec : EqDecision Window.
Proof. solve_decision. Defined.

Definition ContainsSecond (w : Window) (sec : Z) : bool :=
  if Start w <? WEnd w
  then (Start w <=? sec) && (sec <? WEnd w)
  else (Start w <=? sec) || (sec <? WEnd w).

(** The loop of Covers: [None] when it has not ended within the fuel. *)
Fixpoint covers_loop (fuel : nat) (w : Window) (sec stop : Z) : option bool :=
  match fuel with
  | O => None
  | S n =>
      if sec =? stop
      then Some (ContainsSecond w (Z.rem (stop + daySeconds - 1) daySeconds))
      else if negb (ContainsSecond w sec) then Some false
      else covers_loop n w (Z.rem (sec + 60) daySeconds) stop
  end.

Definition Covers (w other : Window) : option bool :=
  covers_loop 1441 w (Start other) (WEnd other).

Inductive window_error :=
| NotClock (v : string)
| BadStart (e : window_error)
| BadEnd (e : window_error)
| EmptyWindow (v : string)
| NotBounds (item : string)
| BadItem (item : string) (e : window_error).

#[export] Instance window_error_eq_dec : EqDecision window_error.
Proof. intros x y. unfold Decision. decide equality; apply String.string_dec. Defined.

Definition ParseClock (v : string) : res window_error Z :=
  match split_on ":" (trim_space v) with
  | [a; b] =>
      if negb (String.length a =? 2)%nat || negb (String.length b =? 2)%nat
      then Err (NotClock v) else
      match atoi a with
      | None => Err (NotClock v)
      | Some h =>
          if (h <? 0) || (23 <? h) then Err (NotClock v) else
          match atoi b with
          | None => Err (NotClock v)
          | Some m =>
              if (m <? 0) || (59 <? m) then Err (NotClock v)
              else Ok (h * 3600 + m * 60)
          end
      end
  | _ => Err (NotClock v)
  end.

Definition ClockString (sec : Z) : string :=
  (fmt_02d (Z.quot sec 3600) ++ ":" ++ fmt_02d (Z.quot (Z.rem sec 3600) 60))%string.

Definition Parse (start stop : string) : res window_error Window :=
  match ParseClock start with
  | Err e => Err (BadStart e)
  | Ok s =>
      match ParseClock stop with
      | Err e => Err (BadEnd e)
      | Ok e => if s =? e then Err (EmptyWindow (trim_space start)) else Ok (mkWindow s e)
      end
  end.

(** The body of ParseList's loop over the comma-separated items. *)
Fixpoint parse_items (items : list string) : res window_error (list Window) :=
  match items with
  | [] => Ok []
  | item :: rest =>
      let item := trim_space item in
      if decide (item = ""%string) then parse_items rest else
      match split_on "-" item with
      | [a; b] =>
          match Parse a b with
          | Err e => Err (BadItem item e)
          | Ok w =>
              match parse_items rest with
              | Err e => Err e
              | Ok ws => Ok (w :: ws)
              end
          end
      | _ => Err (NotBounds item)
      end
  end.

Definition ParseList (spec : string) : res window_error (list Window) :=
  parse_items (split_on "," spec).

Definition Window_String (w : Window) : string :=
  (ClockString (Start w) ++ "-" ++ ClockString (WEnd w))%string.

(** Daily windows on the wall clock of one zone. *)
Record Set_ := mkSet { Windows : list Window; Loc : option Location }.

Definition Contains (s : Set_) (t : Z) : bool :=
  match Loc s with
  | None => false
  | Some l =>
      let '(h, m, sec) := clock l t in
      existsb (λ w, ContainsSecond w (h * 3600 + m * 60 + sec)) (Windows s)
  end.

Definition blockStep : Z := 15 * second.

Fixpoint blocks_loop (fuel : nat) (s : Set_) (t headroom d : Z) : bool :=
  match fuel with
  | O => false
  | S n =>
      if d <? headroom
      then if Contains s (t + d) then true else blocks_loop n s t headroom (d + blockStep)
      else false
  end.

(** One step of the loop per [blockStep] of headroom: the fuel covers it. *)
Definition BlocksAt (s : Set_) (t headroom : Z) : bool :=
  blocks_loop (Z.to_nat (headroom / blockStep + 1)) s t headroom 0
  || Contains s (t + headroom).

Definition Set_String (s : Set_) : string := join "," (Window_String <$> Windows s).

Definition Schedule := list Set_.

Definition Schedule_BlocksAt (sc : Schedule) (t headroom : Z) : bool :=
  existsb (λ s, BlocksAt s t headroom) sc.

Definition nextClearHorizon : Z := 48 * hour.

Fixpoint clear_loop (fuel : nat) (sc : Schedule) (headroom next stop : Z) : option Z :=
  match fuel with
  | O => None
  | S n =>
      if before next stop
      then if negb (Schedule_BlocksAt sc next headroom) then Some next
           else clear_loop n sc headroom (next + minute) stop
      else None
  end.

(** At most 48 * 60 whole minutes lie in the horizon. *)
Definition nextClearFuel : nat := 2881.

Definition NextClear (sc : Schedule) (t headroom : Z) : option Z :=
  if negb (Schedule_BlocksAt sc t headroom) then Some t
  else clear_loop nextClearFuel sc headroom (truncate_minute t + minute) (t + nextClearHorizon).

Definition Schedule_String (sc : Schedule) : string :=
  join "; " (omap (λ s,
    match Loc s with
    | None => None
    | Some l =>
        if decide (Windows s = []) then None
        else Some (Set_String s ++ " " ++ loc_name l)%string
    end) sc).

(** ** Windows that Parse can return *)

Definition valid_bound (x : Z) : Prop := 0 ≤ x < daySeconds ∧ x mod 60 = 0.
Definition valid_window (w : Window) : Prop :=
  valid_bound (Start w) ∧ valid_bound (WEnd w) ∧ Start w ≠ WEnd w.

Definition valid_set (s : Set_) : Prop :=
  Forall valid_window (Windows s) ∧ match Loc s with Some l => MinuteZone l | None => True end.

(** ** Membership *)

Lemma ContainsSecond_minute w sec :
  valid_window w → ContainsSecond w sec = ContainsSecond w (sec / 60 * 60).
Proof.
  intros ([Hs Hs60] & [He He60] & _). unfold ContainsSecond, daySeconds in *.
  assert (Start w = 60 * (Start w / 60)) by (pose proof (Z.div_mod (Start w) 60); lia).
  assert (WEnd w = 60 * (WEnd w / 60)) by (pose proof (Z.div_mod (WEnd w) 60); lia).
  pose proof (Z.div_mod sec 60). pose proof (Z.mod_pos_bound sec 60).
  assert ((Start w <=? sec) = (Start w <=? sec / 60 * 60)) as -> by lia.
  assert ((sec <? WEnd w) = (sec / 60 * 60 <? WEnd w)) as -> by lia.
  done.
Qed.

(** The second of the day that Contains tests. *)
Definition second_of_day (l : Location) (t : Z) : Z := local_seconds l t mod 86400.

Lemma clock_second l t :
  let '(h, m, s) := clock l t in h * 3600 + m * 60 + s = second_of_day l t.
Proof.
  unfold clock, second_of_day. set (s := local_seconds l t mod 86400).
  pose proof (Z.div_mod s 3600). pose proof (Z.div_mod (s mod 3600) 60).
  assert (s mod 60 = (s mod 3600) mod 60) as ->.
  { rewrite Z.mod_mod_divide; [done|]. by exists 60. }
  lia.
Qed.

Lemma Contains_second s l t :
  Loc s = Some l →
  Contains s t = existsb (λ w, ContainsSecond w (second_of_day l t)) (Windows s).
Proof.
  unfold Contains. intros ->. pose proof (clock_second l t) as Hc.
  destruct (clock l t) as [[h m] sec]. by rewrite Hc.
Qed.

Lemma second_of_day_minute l `{!MinuteZone l} t u :
  t / minute = u / minute → second_of_day l t / 60 = second_of_day l u / 60.
Proof.
  intros E%(local_seconds_minute l). unfold second_of_day.
  assert (H : ∀ x, x mod 86400 / 60 = (x / 60) mod 1440).
  { intros x. pose proof (Z.div_mod x 60 ltac:(lia)). pose proof (Z.mod_pos_bound x 60 ltac:(lia)).
    pose proof (Z.div_mod (x/60) 1440 ltac:(lia)). pose proof (Z.mod_pos_bound (x/60) 1440 ltac:(lia)).
    assert (x mod 86400 = 60 * ((x/60) mod 1440) + x mod 60) as ->.
    { symmetry. apply (Z.mod_unique x 86400 (x / 60 / 1440)); lia. }
    rewrite Z.mul_comm, Z.div_add_l by lia. rewrite (Z.div_small (x mod 60)); lia. }
  by rewrite !H, E.
Qed.

(** Membership of a Set is constant within each UTC minute. *)
Lemma Contains_minute s t u :
  valid_set s → t / minute = u / minute → Contains s t = Contains s u.
Proof.
  intros [Hw Hl] E. destruct (Loc s) as [l|] eqn:El.
  2: { unfold Contains. by rewrite El. }
  rewrite !(Contains_second s l) by done.
  pose proof (second_of_day_minute l t u E) as Em.
  induction Hw as [|w ws Hw _ IH]; simpl; [done|].
  by rewrite (ContainsSecond_minute w (second_of_day l t)),
    (ContainsSecond_minute w (second_of_day l u)), Em, IH.
Qed.

(** ** Blocking a span *)

Lemma blocks_loop_spec s t headroom n d :
  0 ≤ d →
  blocks_loop n s t headroom d = true ↔
  ∃ k, 0 ≤ k < Z.of_nat n ∧ d + k * blockStep < headroom ∧
       Contains s (t + (d + k * blockStep)) = true.
Proof.
  assert (0 < blockStep) as Hstep by (unfold blockStep, second; lia).
  revert d; induction n as [|n IH]; intros d Hd; simpl.
  { split; [done|]. intros (k & ? & _). lia. }
  destruct (Z.ltb_spec d headroom) as [Hlt|Hge].
  2: { split; [done|]. intros (k & ? & ? & _). nia. }
  destruct (Contains s (t + d)) eqn:Hc.
  { split; [|done]. intros _. exists 0. rewrite Z.mul_0_l, Z.add_0_r. split_and!; [lia..|done]. }
  rewrite IH by lia. split.
  - intros (k & ? & ? & Hk). exists (k + 1).
    replace (d + (k + 1) * blockStep) with (d + blockStep + k * blockStep) by lia.
    split_and!; [lia..|done].
  - intros (k & ? & ? & Hk). destruct (decide (k = 0)) as [->|].
    { rewrite Z.mul_0_l, Z.add_0_r in Hk. congruence. }
    exists (k - 1).
    replace (d + blockStep + (k - 1) * blockStep) with (d + k * blockStep) by lia.
    split_and!; [lia..|done].
Qed.

(** Two instants at most one step apart with the later one past an instant
    of a window: one of them is in the window's minute. *)
Lemma sampled_neighbour s a b x :
  valid_set s → a ≤ x ≤ b → b ≤ a + blockStep →
  Contains s x = true → Contains s a = true ∨ Contains s b = true.
Proof.
  intros Hv Hx Hb Hc.
  destruct (decide (a / minute = x / minute)) as [E|E].
  { left. by rewrite (Contains_minute s a x). }
  destruct (decide (b / minute = x / minute)) as [E'|E'].
  { right. by rewrite (Contains_minute s b x). }
  exfalso. unfold blockStep in Hb.
  assert (Hm : minute = 60 * second) by done. assert (0 < second) by (unfold second; lia).
  pose proof (Z.div_mod a minute ltac:(lia)). pose proof (Z.mod_pos_bound a minute ltac:(lia)).
  pose proof (Z.div_mod b minute ltac:(lia)). pose proof (Z.mod_pos_bound b minute ltac:(lia)).
  pose proof (Z.div_le_mono a x minute ltac:(lia) ltac:(lia)).
  pose proof (Z.div_le_mono x b minute ltac:(lia) ltac:(lia)).
  assert (a / minute + 2 ≤ b / minute) by lia. nia.
Qed.

Lemma BlocksAt_sound s t headroom :
  0 ≤ headroom → BlocksAt s t headroom = true →
  ∃ x, t ≤ x ≤ t + headroom ∧ Contains s x = true.
Proof.
  intros Hh [Hl|Hl]%orb_true_iff.
  - apply blocks_loop_spec in Hl as (k & ? & ? & Hc); [|lia].
    exists (t + (0 + k * blockStep)). split; [|done].
    unfold blockStep, second in *. lia.
  - exists (t + headroom). split; [lia|done].
Qed.

Lemma BlocksAt_complete s t headroom x :
  valid_set s → t ≤ x ≤ t + headroom → Contains s x = true →
  BlocksAt s t headroom = true.
Proof.
  intros Hv Hx Hc. assert (0 < blockStep) as Hstep by (unfold blockStep, second; lia).
  unfold BlocksAt. apply orb_true_iff.
  rewrite (blocks_loop_spec s t headroom _ 0) by lia.
  set (k := (x - t) / blockStep).
  pose proof (Z.div_mod (x - t) blockStep ltac:(lia)) as Hdm.
  pose proof (Z.mod_pos_bound (x - t) blockStep ltac:(lia)). fold k in Hdm.
  assert (0 ≤ k) by (apply Z.div_pos; lia).
  assert (k ≤ headroom / blockStep) by (apply Z.div_le_mono; lia).
  assert (Hs : ∀ j, 0 ≤ j → j * blockStep < headroom → Contains s (t + j * blockStep) = true →
    ∃ k, 0 ≤ k < Z.of_nat (Z.to_nat (headroom / blockStep + 1)) ∧ 0 + k * blockStep < headroom ∧
       Contains s (t + (0 + k * blockStep)) = true).
  { intros j Hj0 Hj Hjc. exists j. rewrite Z.add_0_l.
    assert (j ≤ headroom / blockStep) by (apply Z.div_le_lower_bound; lia).
    split_and!; [lia..|done]. }
  destruct (sampled_neighbour s (t + k * blockStep)
              (Z.min (t + (k + 1) * blockStep) (t + headroom)) x) as [Ha|Hb];
    [done|lia|lia|done| |].
  - destruct (Z.ltb_spec (k * blockStep) headroom).
    + left. by apply (Hs k).
    + right. assert (k * blockStep = headroom) as E by nia. by rewrite <- E.
  - destruct (Z.ltb_spec ((k + 1) * blockStep) headroom).
    + left. apply (Hs (k + 1)); [lia..|]. rewrite Z.min_l in Hb by lia. done.
    + right. rewrite Z.min_r in Hb by lia. done.
Qed.

(** Whether some instant of [t, t + headroom] is inside a window of some
    Set. *)
Definition span_blocked (sc : Schedule) (t headroom : Z) : Prop :=
  ∃ s x, s ∈ sc ∧ t ≤ x ≤ t + headroom ∧ Contains s x = true.

Lemma Schedule_BlocksAt_spec sc t headroom :
  Forall valid_set sc → 0 ≤ headroom →
  Schedule_BlocksAt sc t headroom = true ↔ span_blocked sc t headroom.
Proof.
  intros Hv Hh. unfold Schedule_BlocksAt, span_blocked.
  rewrite existsb_Exists, Exists_exists. rewrite Forall_forall in Hv. split.
  - intros (s & Hs & (x & ? & ?)%BlocksAt_sound); [by exists s, x|done].
  - intros (s & x & Hs & ? & ?). exists s. split; [done|].
    apply (BlocksAt_complete _ _ _ x); auto.
Qed.

(** A schedule of windows that Parse can return, in zones whose offset
    is constant within each UTC minute, blocks a span of time exactly when
    some instant of the span, ends included, lies in one of its windows:
    sampling every 15 seconds misses no window and adds none, also across
    a change of the zone's offset. *)
Theorem schedule_blocks_exact sc t headroom :
  Forall valid_set sc → 0 ≤ headroom →
  Schedule_BlocksAt sc t headroom = true ↔
  ∃ s x, s ∈ sc ∧ t ≤ x ≤ t + headroom ∧ Contains s x = true.
Proof. apply Schedule_BlocksAt_spec. Qed.

(** ** The next clear minute *)

#[local] Opaque nextClearFuel minute.

Lemma clear_loop_spec n sc headroom next stop :
  0 ≤ Z.of_nat n → stop < next + Z.of_nat n * minute →
  match clear_loop n sc headroom next stop with
  | Some c =>
      ∃ k, 0 ≤ k ∧ c = next + k * minute ∧ c < stop ∧ Schedule_BlocksAt sc c headroom = false ∧
        ∀ j, 0 ≤ j < k → Schedule_BlocksAt sc (next + j * minute) headroom = true
  | None =>
      ∀ j, 0 ≤ j → next + j * minute < stop →
        Schedule_BlocksAt sc (next + j * minute) headroom = true
  end.
Proof.
  assert (0 < minute) as Hmin by done.
  revert next; induction n as [|n IH]; intros next Hn Hf; simpl.
  { intros j ? ?. nia. }
  unfold before. destruct (Z.ltb_spec next stop) as [Hlt|Hge].
  2: { intros j ? ?. nia. }
  destruct (Schedule_BlocksAt sc next headroom) eqn:Hb; simpl.
  2: { exists 0. split_and!; [lia..|done|]. intros; lia. }
  specialize (IH (next + minute) ltac:(lia) ltac:(lia)).
  assert (Hshift : ∀ j, next + j * minute = next + minute + (j - 1) * minute) by (intros; lia).
  destruct (clear_loop n sc headroom (next + minute) stop) as [c|].
  - destruct IH as (k & ? & -> & ? & ? & Hall). exists (k + 1).
    split_and!; [lia..|done|]. intros j Hj. destruct (decide (j = 0)) as [->|].
    { by rewrite Z.mul_0_l, Z.add_0_r. }
    rewrite Hshift. apply Hall. lia.
  - intros j ? ?. destruct (decide (j = 0)) as [->|].
    { by rewrite Z.mul_0_l, Z.add_0_r. }
    rewrite Hshift. apply IH; lia.
Qed.

(** The instants NextClear considers: [t] itself and the whole minutes
    after it, up to the horizon. *)
Definition candidate (t c : Z) : Prop :=
  c = t ∨ (c mod minute = 0 ∧ t < c < t + nextClearHorizon).

Lemma truncate_minute_bounds t : truncate_minute t ≤ t < truncate_minute t + minute.
Proof.
  unfold truncate_minute. assert (0 < minute) by done.
  pose proof (Z.div_mod t minute). pose proof (Z.mod_pos_bound t minute). lia.
Qed.

Lemma candidate_form t c :
  candidate t c → c = t ∨ ∃ j, 0 ≤ j ∧ c = truncate_minute t + minute + j * minute.
Proof.
  intros [->|[Hm Hc]]; [by left|]. right.
  assert (0 < minute) by done.
  pose proof (truncate_minute_bounds t). unfold truncate_minute in *.
  exists (c / minute - t / minute - 1).
  pose proof (Z.div_mod c minute). nia.
Qed.

(** NextClear answers with the earliest instant at which nothing of the
    headroom that follows is inside a window: among the instant asked about
    and the whole minutes of the next 48 hours, the answer is clear and
    everything before it is blocked; no answer means that all of them are
    blocked. *)
Theorem next_clear_earliest sc t headroom :
  Forall valid_set sc → 0 ≤ headroom →
  match NextClear sc t headroom with
  | Some c => candidate t c ∧ ¬ span_blocked sc c headroom ∧
              ∀ c', candidate t c' → c' < c → span_blocked sc c' headroom
  | None => ∀ c', candidate t c' → span_blocked sc c' headroom
  end.
Proof.
  intros Hv Hh. unfold NextClear.
  pose proof (Schedule_BlocksAt_spec sc) as Hspec.
  assert (Hno : ∀ x, Schedule_BlocksAt sc x headroom = false → ¬ span_blocked sc x headroom).
  { intros x E Hb. apply (Hspec x) in Hb; congruence. }
  destruct (Schedule_BlocksAt sc t headroom) eqn:Hb; simpl.
  2: { split_and!; [by left|by apply Hno|]. intros c' [->|[_ ?]] ?; lia. }
  apply Hspec in Hb; [|done..].
  pose proof (truncate_minute_bounds t) as Ht.
  assert (Hhor : nextClearHorizon = 2880 * minute) by reflexivity.
  assert (Hfuel : Z.of_nat nextClearFuel = 2881) by reflexivity.
  assert (Hmin : 0 < minute) by done.
  pose proof (clear_loop_spec nextClearFuel sc headroom (truncate_minute t + minute)
    (t + nextClearHorizon) ltac:(lia) ltac:(lia)) as Hl.
  destruct (clear_loop _ _ _ _ _) as [c|].
  - destruct Hl as (k & ? & -> & ? & Hclear & Hall). split_and!.
    + right. split; [|lia]. unfold truncate_minute.
      replace (t / minute * minute + minute + k * minute)
        with ((t / minute + 1 + k) * minute) by lia. apply Z.mod_mul. lia.
    + by apply Hno.
    + intros c' [->|(j & ? & ->)]%candidate_form ?; [done|].
      apply Hspec; [done..|]. apply Hall. nia.
  - intros c' Hc'. pose proof Hc' as [->|(j & ? & ->)]%candidate_form; [done|].
    destruct Hc' as [E|[_ ?]]; [by rewrite E|]. apply Hspec; [done..|]. apply Hl; lia.
Qed.

(** ** Windows, their containment and their text form *)

Lemma ContainsSecond_arc w sec :
  valid_window w → 0 ≤ sec < daySeconds →
  ContainsSecond w sec = true ↔
  (sec - Start w) mod daySeconds < (WEnd w - Start w) mod daySeconds.
Proof.
  intros ([Hs _] & [He _] & Hne) Hsec. unfold ContainsSecond, daySeconds in *.
  assert (Hm : ∀ x, -86400 < x < 86400 → x mod 86400 = if x <? 0 then x + 86400 else x).
  { intros x Hx. destruct (Z.ltb_spec x 0).
    - rewrite <- (Z_mod_plus_full x 1). apply Z.mod_small. lia.
    - apply Z.mod_small. lia. }
  rewrite !Hm by lia.
  destruct (Z.ltb_spec (Start w) (WEnd w)), (Z.ltb_spec (sec - Start w) 0),
    (Z.ltb_spec (WEnd w - Start w) 0); lia.
Qed.

Lemma contains_arc w sec :
  valid_window w → 0 ≤ sec < daySeconds →
  ContainsSecond w sec = true ↔
  ∃ k, sec = (Start w + k) mod daySeconds ∧ 0 ≤ k < (WEnd w - Start w) mod daySeconds.
Proof.
  intros Hv Hsec. rewrite ContainsSecond_arc by done. unfold daySeconds in *. split.
  - intros H. exists ((sec - Start w) mod 86400). split.
    + rewrite Z.add_mod_idemp_r by lia. replace (Start w + (sec - Start w)) with sec by lia.
      by rewrite Z.mod_small.
    + split; [apply Z.mod_pos_bound; lia|done].
  - intros (k & -> & Hk).
    pose proof (Z.mod_pos_bound (WEnd w - Start w) 86400 ltac:(lia)).
    rewrite Zminus_mod_idemp_l. replace (Start w + k - Start w) with k by lia.
    rewrite Z.mod_small; lia.
Qed.

(** A window is the arc of the day's circle from its start, included, to
    its end, excluded, whether or not it passes midnight. *)
Theorem contains_second_arc w sec :
  valid_window w → 0 ≤ sec < daySeconds →
  ContainsSecond w sec = true ↔
  ∃ k, sec = (Start w + k) mod daySeconds ∧ 0 ≤ k < (WEnd w - Start w) mod daySeconds.
Proof. apply contains_arc. Qed.

(** The loop of Covers from [p] minutes before the end: it visits each of
    them, in order, and the last second. *)
Lemma covers_loop_spec n w e p :
  valid_bound e → 0 ≤ p < 1440 → p < Z.of_nat n →
  ∃ b, covers_loop n w ((e - 60 * p) mod daySeconds) e = Some b ∧
    (b = true ↔
     (∀ j, 1 ≤ j ≤ p → ContainsSecond w ((e - 60 * j) mod daySeconds) = true) ∧
     ContainsSecond w (Z.rem (e + daySeconds - 1) daySeconds) = true).
Proof.
  intros [He _]. unfold daySeconds in *. revert p; induction n as [|n IH]; intros p Hp Hn; [lia|].
  simpl. unfold daySeconds. destruct (Z.eqb_spec ((e - 60 * p) mod 86400) e) as [E|E].
  { assert (p = 0) as ->.
    { pose proof (Z.div_mod (e - 60 * p) 86400 ltac:(lia)). nia. }
    eexists; split; [done|]. split; [intros ->; split; [lia|done]|tauto]. }
  assert (0 < p).
  { destruct (decide (p = 0)) as [->|]; [|lia]. exfalso. apply E.
    rewrite Z.mul_0_r, Z.sub_0_r. by apply Z.mod_small. }
  destruct (ContainsSecond w ((e - 60 * p) mod 86400)) eqn:Hc; simpl.
  2: { exists false. split; [done|]. split; [done|]. intros [Hall _].
       rewrite Hall in Hc by lia. done. }
  assert (Z.rem ((e - 60 * p) mod 86400 + 60) 86400 = (e - 60 * (p - 1)) mod 86400) as ->.
  { pose proof (Z.mod_pos_bound (e - 60 * p) 86400 ltac:(lia)).
    rewrite Z.rem_mod_nonneg by lia. rewrite Z.add_mod_idemp_l by lia. f_equal. lia. }
  destruct (IH (p - 1) ltac:(lia) ltac:(lia)) as (b & -> & Hb).
  exists b. split; [done|]. rewrite Hb. split; intros [Hall Hl]; (split; [|done]); intros j Hj.
  - destruct (decide (j = p)) as [->|]; [done|]. apply Hall; lia.
  - apply Hall; lia.
Qed.

Lemma mod_minute_floor x : x mod 86400 / 60 * 60 = (x / 60 * 60) mod 86400.
Proof.
  pose proof (Z.div_mod x 60 ltac:(lia)). pose proof (Z.mod_pos_bound x 60 ltac:(lia)).
  pose proof (Z.div_mod (x / 60) 1440 ltac:(lia)).
  pose proof (Z.mod_pos_bound (x / 60) 1440 ltac:(lia)).
  assert (x mod 86400 = 60 * ((x / 60) mod 1440) + x mod 60) as ->
    by (symmetry; apply (Z.mod_unique x 86400 (x / 60 / 1440)); lia).
  assert ((x / 60 * 60) mod 86400 = 60 * ((x / 60) mod 1440)) as ->
    by (symmetry; apply (Z.mod_unique _ 86400 (x / 60 / 1440)); lia).
  rewrite (Z.mul_comm 60), Z.div_add_l by lia. rewrite (Z.div_small (x mod 60)); lia.
Qed.

(** For windows that Parse can return, Covers ends within one turn of
    the day and answers whether every second of the other window is a
    second of the first. *)
Theorem covers_exact w other :
  valid_window w → valid_window other →
  ∃ b, Covers w other = Some b ∧
    (b = true ↔ ∀ sec, 0 ≤ sec < daySeconds →
       ContainsSecond other sec = true → ContainsSecond w sec = true).
Proof.
  intros Hw Hv. pose proof Hv as ([Hs Hs60] & He & Hne). pose proof He as [He' He60]. unfold Covers.
  set (p := (WEnd other / 60 - Start other / 60) mod 1440).
  pose proof (Z.mod_pos_bound (WEnd other / 60 - Start other / 60) 1440 ltac:(lia)) as Hp.
  fold p in Hp.
  assert (Hsd : Start other = 60 * (Start other / 60)) by (pose proof (Z.div_mod (Start other) 60); lia).
  assert (Hed : WEnd other = 60 * (WEnd other / 60)) by (pose proof (Z.div_mod (WEnd other) 60); lia).
  assert (Hk : ∃ q, WEnd other - Start other = 60 * p + 86400 * q).
  { exists ((WEnd other / 60 - Start other / 60) / 1440). unfold p.
    pose proof (Z.div_mod (WEnd other / 60 - Start other / 60) 1440). lia. }
  destruct Hk as [q Hq].
  assert (Start other = (WEnd other - 60 * p) mod daySeconds) as E.
  { unfold daySeconds in *. apply (Z.mod_unique _ 86400 q); lia. }
  assert (Hlen : (WEnd other - Start other) mod daySeconds = 60 * p).
  { unfold daySeconds in *. symmetry. apply (Z.mod_unique _ 86400 q); lia. }
  destruct (covers_loop_spec 1441 w (WEnd other) p He ltac:(lia) ltac:(lia)) as (b & Hb & Hspec).
  exists b. rewrite E at 1. split; [done|]. rewrite Hspec.
  assert (Hother : ∀ sec, 0 ≤ sec < daySeconds → ContainsSecond other sec = true ↔
    ∃ k, sec = (Start other + k) mod daySeconds ∧ 0 ≤ k < 60 * p).
  { intros sec ?. rewrite <- Hlen. by apply contains_arc. }
  split.
  - intros [Hall _] sec Hsec (k & -> & Hk)%Hother; [|done].
    rewrite ContainsSecond_minute by done. unfold daySeconds in *. rewrite mod_minute_floor.
    specialize (Hall (p - k / 60)).
    replace (WEnd other - 60 * (p - k / 60))
      with ((Start other + k) / 60 * 60 + q * 86400) in Hall.
    + rewrite Z_mod_plus_full in Hall. apply Hall.
      pose proof (Z.div_mod k 60). pose proof (Z.mod_pos_bound k 60). lia.
    + rewrite Hsd at 1. rewrite (Z.mul_comm 60), Z.div_add_l by lia. lia.
  - intros Hsub.
    assert (Hback : ∀ x, 1 ≤ x ≤ 60 * p →
      ContainsSecond w ((WEnd other - x) mod daySeconds) = true).
    { intros x Hx. apply Hsub; [apply Z.mod_pos_bound; unfold daySeconds; lia|].
      apply Hother; [apply Z.mod_pos_bound; unfold daySeconds; lia|].
      exists (60 * p - x). split; [|lia].
      replace (WEnd other - x) with (Start other + (60 * p - x) + q * daySeconds)
        by (unfold daySeconds; lia). apply Z_mod_plus_full. }
    split; [intros j ?; apply Hback; lia|].
    rewrite Z.rem_mod_nonneg by (unfold daySeconds in *; lia).
    replace (WEnd other + daySeconds - 1) with (WEnd other - 1 + 1 * daySeconds) by lia.
    rewrite Z_mod_plus_full. apply Hback.
    assert (p ≠ 0); [|lia]. intros ->. unfold daySeconds in *. nia.
Qed.

(** What the text of one clock time satisfies, checked on the 1440 bounds a
    window can have. *)
Definition clock_text_ok (x : Z) : bool :=
  bool_decide (ParseClock (ClockString x) = Ok x)
  && all_visible (ClockString x) && no_char "-" (ClockString x)
  && no_char "," (ClockString x).

Lemma clock_text x : valid_bound x → clock_text_ok x = true.
Proof.
  intros [Hx Hx60]. unfold daySeconds in *.
  assert (Hall : ∀ m, 0 ≤ m < Z.of_nat 1440 → clock_text_ok (60 * m) = true).
  { apply check_below_Z. vm_compute. reflexivity. }
  assert (x = 60 * (x / 60)) as -> by (pose proof (Z.div_mod x 60); lia).
  apply Hall. split; [apply Z.div_pos; lia|apply Z.div_lt_upper_bound; lia].
Qed.

Lemma window_text w :
  valid_window w →
  trim_space (Window_String w) = Window_String w ∧
  split_on "-" (Window_String w) = [ClockString (Start w); ClockString (WEnd w)] ∧
  Parse (ClockString (Start w)) (ClockString (WEnd w)) = Ok w ∧
  no_char "," (Window_String w) = true ∧ Window_String w ≠ ""%string.
Proof.
  intros ([Hs]%clock_text%andb_true_iff & [He]%clock_text%andb_true_iff & Hne). bool_to_prop.
  repeat match goal with H : bool_decide _ = true |- _ => apply bool_decide_eq_true in H end.
  unfold Window_String, Parse. split_and!.
  - apply trim_space_visible. autorewrite with glovebox. simpl. by rewrite !andb_true_iff.
  - etrans; [by apply (split_on_app "-")|]. by rewrite split_on_no_char.
  - repeat match goal with H : ParseClock _ = _ |- _ => rewrite H; clear H end.
    destruct (Z.eqb_spec (Start w) (WEnd w)); [done|]. by destruct w.
  - autorewrite with glovebox. simpl. by rewrite !andb_true_iff.
  - by destruct (ClockString (Start w)).
Qed.

(** What Set.String renders, ParseList reads back: the comma-separated
    "HH:MM-HH:MM" form of any list of windows that Parse can return is
    parsed into the same windows in the same order. *)
Theorem parse_list_of_string ws l :
  Forall valid_window ws →
  ParseList (Set_String (mkSet ws l)) = Ok ws.
Proof.
  intros Hws. unfold ParseList, Set_String. simpl.
  destruct (decide (ws = [])) as [->|Hne]; [by vm_compute|].
  assert (Hnn : Window_String <$> ws ≠ []) by (by destruct ws).
  rewrite split_on_join; [|done|].
  2: { apply Forall_fmap. eapply Forall_impl; [done|]. intros w Hw. apply window_text, Hw. }
  clear Hne Hnn. induction Hws as [|w ws Hw _ IH]; [done|].
  rewrite fmap_cons. cbn [parse_items].
  destruct (window_text w Hw) as (-> & -> & -> & _ & Hne).
  rewrite decide_False by done. by rewrite IH.
Qed.

(** ParseClock is meant to read "HH:MM" from 00:00 through 23:59 and to
    refuse anything else; because strconv.Atoi accepts a sign, it also
    accepts "+5:+7" and "-0:07". *)
Theorem parse_clock_accepts_signs :
  ParseClock "+5:+7" = Ok (5 * 3600 + 7 * 60) ∧ ParseClock "-0:07" = Ok (7 * 60).
Proof. by vm_compute. Qed.

(** ** Witnesses *)

Definition pacific : Location := mkLocation "fixed -08:00" (λ _, 60 * -480).
Definition evening : Set_ := mkSet [mkWindow 57600 75600; mkWindow 79200 7200] (Some pacific).

Lemma evening_valid : valid_set evening.
Proof.
  split; [|apply minute_zone_fixed].
  repeat constructor; try done; simpl; unfold daySeconds; lia.
Qed.

Lemma schedule_blocks_exact_witness :
  Schedule_BlocksAt [evening] (1735689600 * second) (150 * second) = true ∧
  ∃ s x, s ∈ [evening] ∧
    1735689600 * second ≤ x ≤ 1735689600 * second + 150 * second ∧ Contains s x = true.
Proof.
  assert (H : Schedule_BlocksAt [evening] (1735689600 * second) (150 * second) = true)
    by (vm_compute; reflexivity).
  split; [exact H|].
  apply (schedule_blocks_exact [evening]); [|vm_compute; discriminate|exact H].
  constructor; [apply evening_valid|constructor].
Defined.

Lemma next_clear_earliest_witness :
  NextClear [evening] (1735689600 * second) (150 * second) = Some (1735707600 * second) ∧
  ¬ span_blocked [evening] (1735707600 * second) (150 * second).
Proof.
  assert (H : NextClear [evening] (1735689600 * second) (150 * second)
              = Some (1735707600 * second)) by (vm_compute; reflexivity).
  split; [exact H|].
  pose proof (next_clear_earliest [evening] (1735689600 * second) (150 * second)
    (List.Forall_cons _ _ _ evening_valid (List.Forall_nil _)) ltac:(vm_compute; discriminate)) as Hn.
  rewrite H in Hn. exact (proj1 (proj2 Hn)).
Defined.

Lemma contains_second_arc_witness :
  ContainsSecond (mkWindow 79200 7200) 3600 = true ∧
  ∃ k, 3600 = (79200 + k) mod daySeconds ∧ 0 ≤ k < (7200 - 79200) mod daySeconds.
Proof.
  assert (H : ContainsSecond (mkWindow 79200 7200) 3600 = true) by reflexivity.
  split; [exact H|].
  apply (contains_second_arc (mkWindow 79200 7200) 3600);
    [|unfold daySeconds; lia|exact H].
  repeat split; simpl; unfold daySeconds; lia.
Defined.

Lemma covers_exact_witness :
  ∃ b, Covers (mkWindow 79200 7200) (mkWindow 82800 3600) = Some b ∧
    (b = true ↔ ∀ sec, 0 ≤ sec < daySeconds →
       ContainsSecond (mkWindow 82800 3600) sec = true →
       ContainsSecond (mkWindow 79200 7200) sec = true).
Proof.
  apply (covers_exact (mkWindow 79200 7200) (mkWindow 82800 3600));
    repeat split; simpl; unfold daySeconds; lia.
Defined.

Lemma parse_list_of_string_witness :
  ParseList "16:00-21:00,22:00-02:00" = Ok (Windows evening).
Proof.
  exact (parse_list_of_string (Windows evening) None (proj1 evening_valid)).
Defined.
