(* ===== verification/LoginVault.v ===== *)
(** internal/loginvault: the record a login workload keeps beside the
    session (latch, failure count, daily count, attempt marker) and the
    exactly-once write of it. *)
From S2P Require Import Prelude GoStrings GoTime Effects.
Local Open Scope Z_scope.

Record State := mkState {
  Salt : string;
  Blocked : bool;
  BlockedReason : string;
  BlockedAt : Z;
  CredentialFingerprint : string;
  UnconfirmedCount : Z;
  ServedRequest : string;
  RequestLoginAt : Z;
  AttemptStartedAt : Z;
  CooldownUntil : Z;
  LoginDay : string;
  LoginDayCount : Z;
  Version : Z;
}.

#[export] Instance State_eq_dec : EqDecision State.
Proof. solve_decision. Defined.

(** The zero State of Go. *)
Definition zero_state : State :=
  mkState "" false "" zero_time "" 0 "" zero_time zero_time zero_time "" 0 0.

(** Assignments to one field. *)
Definition set_Salt v s := mkState v (Blocked s) (BlockedReason s) (BlockedAt s)
  (CredentialFingerprint s) (UnconfirmedCount s) (ServedRequest s) (RequestLoginAt s)
  (AttemptStartedAt s) (CooldownUntil s) (LoginDay s) (LoginDayCount s) (Version s).
Definition set_latch b r t s := mkState (Salt s) b r t
  (CredentialFingerprint s) (UnconfirmedCount s) (ServedRequest s) (RequestLoginAt s)
  (AttemptStartedAt s) (CooldownUntil s) (LoginDay s) (LoginDayCount s) (Version s).
Definition set_CredentialFingerprint v s := mkState (Salt s) (Blocked s) (BlockedReason s)
  (BlockedAt s) v (UnconfirmedCount s) (ServedRequest s) (RequestLoginAt s)
  (AttemptStartedAt s) (CooldownUntil s) (LoginDay s) (LoginDayCount s) (Version s).
Definition set_UnconfirmedCount v s := mkState (Salt s) (Blocked s) (BlockedReason s)
  (BlockedAt s) (CredentialFingerprint s) v (ServedRequest s) (RequestLoginAt s)
  (AttemptStartedAt s) (CooldownUntil s) (LoginDay s) (LoginDayCount s) (Version s).
Definition set_RequestLoginAt v s := mkState (Salt s) (Blocked s) (BlockedReason s)
  (BlockedAt s) (CredentialFingerprint s) (UnconfirmedCount s) (ServedRequest s) v
  (AttemptStartedAt s) (CooldownUntil s) (LoginDay s) (LoginDayCount s) (Version s).
Definition set_AttemptStartedAt v s := mkState (Salt s) (Blocked s) (BlockedReason s)
  (BlockedAt s) (CredentialFingerprint s) (UnconfirmedCount s) (ServedRequest s)
  (RequestLoginAt s) v (CooldownUntil s) (LoginDay s) (LoginDayCount s) (Version s).
Definition set_CooldownUntil v s := mkState (Salt s) (Blocked s) (BlockedReason s)
  (BlockedAt s) (CredentialFingerprint s) (UnconfirmedCount s) (ServedRequest s)
  (RequestLoginAt s) (AttemptStartedAt s) v (LoginDay s) (LoginDayCount s) (Version s).
Definition set_logins d n s := mkState (Salt s) (Blocked s) (BlockedReason s)
  (BlockedAt s) (CredentialFingerprint s) (UnconfirmedCount s) (ServedRequest s)
  (RequestLoginAt s) (AttemptStartedAt s) (CooldownUntil s) d n (Version s).
Definition set_Version v s := mkState (Salt s) (Blocked s) (BlockedReason s)
  (BlockedAt s) (CredentialFingerprint s) (UnconfirmedCount s) (ServedRequest s)
  (RequestLoginAt s) (AttemptStartedAt s) (CooldownUntil s) (LoginDay s) (LoginDayCount s) v.

(** Times are compared at the precision they are stored at. *)
Definition same_time (a b : Z) : bool :=
  (unix a =? unix b) || (is_zero a && is_zero b).

Definition SameRecord (s o : option State) : bool :=
  match s, o with
  | Some s, Some o =>
      String.eqb (Salt s) (Salt o)
      && Bool.eqb (Blocked s) (Blocked o) && String.eqb (BlockedReason s) (BlockedReason o)
      && same_time (BlockedAt s) (BlockedAt o)
      && String.eqb (CredentialFingerprint s) (CredentialFingerprint o)
      && (UnconfirmedCount s =? UnconfirmedCount o)
      && String.eqb (ServedRequest s) (ServedRequest o)
      && same_time (RequestLoginAt s) (RequestLoginAt o)
      && same_time (AttemptStartedAt s) (AttemptStartedAt o)
      && same_time (CooldownUntil s) (CooldownUntil o)
      && String.eqb (LoginDay s) (LoginDay o) && (LoginDayCount s =? LoginDayCount o)
  | _, _ => false
  end.

(** An error of the store: its text and, for a Vault response, its HTTP
    status. *)
Record store_err := mkErr { err_text : string; err_status : option Z }.

Definition IsCASMismatch (err : option store_err) : bool :=
  match err with
  | None => false
  | Some e => contains "check-and-set" (err_text e)
  end.

Definition client_markers : list string :=
  ["permission denied"; "Forbidden"; "Bad Request"; "not found"]%string.

Definition IsClientError (err : option store_err) : bool :=
  match err with
  | None => false
  | Some e =>
      match err_status e with
      | Some code => (400 <=? code) && (code <? 500)
      | None => existsb (λ m, contains m (err_text e)) client_markers
      end
  end.

Definition AttemptFreshFor : Z := 10 * minute.

Definition AttemptInProgress (s : State) (now : Z) : bool :=
  if is_zero (AttemptStartedAt s) then false
  else let d := sub now (AttemptStartedAt s) in
       (d <? AttemptFreshFor) && (- AttemptFreshFor <? d).

Definition DayOf (t : Z) (loc : option Location) : string :=
  format_date (local_day (match loc with Some l => l | None => UTC end) t).

Definition LoginsOn (s : State) (day : string) : Z :=
  if String.eqb (LoginDay s) day then LoginDayCount s else 0.

Definition CountLogin (day : string) (s : State) : State :=
  let s := if String.eqb (LoginDay s) day then s else set_logins day 0 s in
  set_logins (LoginDay s) (LoginDayCount s + 1) s.

(** WriteStateOnce over any StateStore: an implementation of the two
    operations and of the pause between attempts.  It returns the error, if
    any, and the state with its version advanced. *)
Section write_once.
Context `{Σ : Sig}.
Context (readState : prog (res store_err (option State)))
        (writeState : State → prog (res store_err Z))
        (pause : prog bool).
Local Open Scope prog_scope.

Fixpoint write_once_loop (attempts : nat) (uncertain : bool) (state : State)
    : prog (option store_err * State) :=
  match attempts with
  | O => Ret (None, state)
  | S n =>
      let! r := writeState state in
      match r with
      | Ok v => Ret (None, set_Version v state)
      | Err e =>
          if IsCASMismatch (Some e) then
            if uncertain then
              let! rd := readState in
              match rd with
              | Ok stored =>
                  if SameRecord stored (Some state)
                  then Ret (None, set_Version (from_option Version 0 stored) state)
                  else Ret (Some e, state)
              | Err _ => Ret (Some e, state)
              end
            else Ret (Some e, state)
          else if IsClientError (Some e) then Ret (Some e, state)
          else match n with
               | O => Ret (Some e, state)
               | S _ =>
                   let! ok := pause in
                   if ok : bool then write_once_loop n true state else Ret (Some e, state)
               end
      end
  end.

Definition WriteStateOnce (state : State) (attempts : nat) : prog (option store_err * State) :=
  write_once_loop attempts false state.
End write_once.

(** ** Counting *)

Lemma LoginsOn_CountLogin day s : LoginsOn (CountLogin day s) day = LoginsOn s day + 1.
Proof.
  unfold LoginsOn, CountLogin. destruct (String.eqb_spec (LoginDay s) day) as [E|E]; simpl.
  - by rewrite E, String.eqb_refl.
  - by rewrite String.eqb_refl.
Qed.

Lemma LoginsOn_CountLogin_other day day' s :
  day ≠ day' → LoginsOn (CountLogin day s) day' = 0.
Proof.
  intros Hne. unfold LoginsOn, CountLogin.
  destruct (String.eqb_spec (LoginDay s) day) as [E|E]; simpl.
  - rewrite E. by destruct (String.eqb_spec day day').
  - by destruct (String.eqb_spec day day').
Qed.

Lemma LoginsOn_after_count day st st' :
  LoginDay st' = LoginDay (CountLogin day st) →
  LoginDayCount st' = LoginDayCount (CountLogin day st) →
  LoginsOn st' day = LoginsOn st day + 1.
Proof.
  intros E1 E2. rewrite <- LoginsOn_CountLogin. unfold LoginsOn at 1 2. by rewrite E1, E2.
Qed.

Lemma CountLogin_fields day st :
  RequestLoginAt (CountLogin day st) = RequestLoginAt st ∧
  AttemptStartedAt (CountLogin day st) = AttemptStartedAt st ∧
  UnconfirmedCount (CountLogin day st) = UnconfirmedCount st.
Proof. unfold CountLogin. by destruct (String.eqb _ _). Qed.

Lemma LoginsOn_ext day st st' :
  LoginDay st = LoginDay st' → LoginDayCount st = LoginDayCount st' →
  LoginsOn st day = LoginsOn st' day.
Proof. unfold LoginsOn. by intros -> ->. Qed.

Lemma same_time_refl t : same_time t t = true.
Proof. unfold same_time. by rewrite Z.eqb_refl. Qed.

Lemma SameRecord_refl s v : SameRecord (Some (set_Version v s)) (Some s) = true.
Proof.
  unfold SameRecord. simpl.
  by rewrite !String.eqb_refl, !same_time_refl, !Z.eqb_refl, Bool.eqb_reflx.
Qed.

(** * internal/loginvault: WriteStateOnce against a check-and-set store that
    can lose answers and has other writers. *)

(** ** The store

    A KV v2 path: the record of the current version and its number (0: the
    path does not exist).  A put names the version it replaces. *)
Inductive vault_op := VRead | VWrite (s : State) | VPause.

Definition vault_ans (o : vault_op) : Type :=
  match o with
  | VRead => res store_err (option State)
  | VWrite _ => res store_err Z
  | VPause => bool
  end.

#[local] Instance vault_sig : Sig := { op := vault_op; ans := vault_ans }.

Record vault := mkVault { vrecord : option State; vversion : Z }.

(** What is stored for [s] is equal to it at the precision records are
    stored at. *)
Definition stores (s : State) (v v' : vault) : Prop :=
  vversion v' = vversion v + 1 ∧
  ∃ s', vrecord v' = Some s' ∧ SameRecord (Some s') (Some s) = true ∧ Version s' = vversion v'.

Definition cas_error (e : store_err) : Prop := IsCASMismatch (Some e) = true.
(** A failure that says nothing about whether the write was applied. *)
Definition transient (e : store_err) : Prop :=
  IsCASMismatch (Some e) = false ∧ IsClientError (Some e) = false.
Definition refused (e : store_err) : Prop :=
  IsCASMismatch (Some e) = false ∧ IsClientError (Some e) = true.

(** One answered operation: the store before and after it, and whether a
    write of this caller was applied ([b]).  A write is applied only at the
    version it names; when it is, the answer may still be lost. *)
Definition answers (v : vault) (e : event vault_sig) (v' : vault) (b : bool) : Prop :=
  match e with
  | Event o a =>
      match o return vault_ans o → Prop with
      | VRead => λ r, v' = v ∧ b = false ∧ match r with Ok s => s = vrecord v | Err _ => True end
      | VPause => λ _, v' = v ∧ b = false
      | VWrite s => λ r,
          match r with
          | Ok w => Version s = vversion v ∧ stores s v v' ∧ w = vversion v' ∧ b = true
          | Err e =>
              (Version s = vversion v ∧ stores s v v' ∧ transient e ∧ b = true) ∨
              (v' = v ∧ b = false ∧
               (transient e ∨ refused e ∨ Version s ≠ vversion v ∧ cas_error e))
          end
      end a
  end.

(** Another writer replaces the record. *)
Inductive other_write (v : vault) : vault → Prop :=
| other_write_intro s' :
    Version s' = vversion v + 1 → other_write v (mkVault (Some s') (vversion v + 1)).

(** A history the store can give, with other writers' writes ([others]
    counts them) between the operations; [applied] counts this caller's
    writes that took effect. *)
Inductive vault_run (v0 : vault) : trace vault_sig → vault → nat → nat → Prop :=
| run_start : vault_run v0 [] v0 0 0
| run_other h v v' applied others :
    vault_run v0 h v applied others → other_write v v' →
    vault_run v0 h v' applied (S others)
| run_event h v e v' (b : bool) applied others :
    vault_run v0 h v applied others → answers v e v' b →
    vault_run v0 (h ++ [e]) v' (if b then S applied else applied) others.

(** ** The invariant of the loop *)

(** An answered operation applies nothing, or is a write at its version. *)
Lemma answers_cases v e v' b :
  answers v e v' b →
  (b = false ∧ v' = v) ∨
  (b = true ∧ ∃ s, ev_op e = VWrite s ∧ Version s = vversion v ∧ stores s v v').
Proof.
  destruct e as [[|s|] r]; simpl.
  - intros (? & ? & _). by left.
  - destruct r as [w|e]; [intros (? & ? & _ & ?)|intros [(? & ? & _ & ?)|(? & ? & _)]];
      [right|right|by left]; (split; [done|by exists s]).
  - intros [? ?]. by left.
Qed.

Lemma vault_run_version v0 h v applied others :
  vault_run v0 h v applied others →
  vversion v = vversion v0 + Z.of_nat applied + Z.of_nat others.
Proof.
  induction 1 as [|h v v' a o _ IH Ho|h v e v' b a o _ IH He]; [lia| |].
  - destruct Ho. simpl. lia.
  - apply answers_cases in He as [[-> ->]|(-> & s & _ & _ & [E _])]; [done|]. rewrite E. lia.
Qed.

Lemma vault_run_snoc v0 h e v' applied others :
  vault_run v0 (h ++ [e]) v' applied others →
  ∃ v v1 (b : bool) a o, vault_run v0 h v a o ∧ answers v e v1 b ∧
    (o ≤ others)%nat ∧ applied = (if b then S a else a) ∧
    vversion v1 ≤ vversion v' ∧ (others = o → v' = v1).
Proof.
  intros H. remember (h ++ [e]) as h' eqn:Eh. revert h e Eh.
  induction H as [|h0 v v' a o H IH Ho|h0 v e v' b a o H IH He]; intros h e' Eh.
  - by destruct h.
  - destruct (IH h e' Eh) as (v2 & v1 & b & a' & o' & ? & ? & ? & ? & ? & ?).
    exists v2, v1, b, a', o'. split_and!; try done; try lia.
    destruct Ho. simpl. lia.
  - apply app_inj_tail in Eh as [-> ->]. exists v, v', b, a, o.
    split_and!; try done; lia.
Qed.

(** Every write of the history is a write of [s]. *)
Definition writes_only (s : State) (h : trace vault_sig) : Prop :=
  ∀ e, e ∈ h → match ev_op e with VWrite s' => s' = s | _ => True end.

Lemma vault_run_idle v0 h v applied others :
  vault_run v0 h v applied others → applied = 0%nat → others = 0%nat → v = v0.
Proof.
  induction 1 as [|h v v' a o H IH Ho|h v e v' b a o H IH He]; intros Ha Ho'; [done..|].
  apply answers_cases in He as [[-> ->]|[-> _]]; [by apply IH|done].
Qed.

Lemma vault_run_once s v0 h v applied others :
  vault_run v0 h v applied others → writes_only s h →
  (applied ≤ 1)%nat ∧
  (applied = 1%nat → Version s < vversion v ∧
    (others = 0%nat → stores s v0 v ∧ Version s = vversion v0)).
Proof.
  induction 1 as [|h v v' a o H IH Ho|h v e v' b a o H IH He]; intros Hw.
  - split; [lia|done].
  - destruct (IH Hw) as [H1 H2]. split; [done|]. intros Ha. destruct (H2 Ha) as [H3 _].
    destruct Ho. simpl. split; [lia|done].
  - assert (Hw' : writes_only s h) by (intros e' He'; apply Hw, elem_of_app; by left).
    assert (Hwe : match ev_op e with VWrite s' => s' = s | _ => True end)
      by (apply Hw, elem_of_app; right; by apply list_elem_of_singleton).
    destruct (IH Hw') as [H1 H2].
    apply answers_cases in He as [[-> ->]|(-> & s' & Eo & Hv & Hs)]; [done|].
    rewrite Eo in Hwe. subst s'.
    destruct a as [|a]; [|destruct H2 as [H2 _]; lia].
    pose proof (vault_run_version _ _ _ _ _ H) as Hver.
    split; [lia|]; intros _. split; [destruct Hs as [-> _]; lia|].
    intros ->. by rewrite (vault_run_idle _ _ _ _ _ H eq_refl eq_refl) in *.
Qed.

(** ** WriteStateOnce over the store *)

Definition vault_write_once (s : State) (attempts : nat) : prog (option store_err * State) :=
  WriteStateOnce (Σ := vault_sig) (call (VRead : op)) (λ s, call (VWrite s : op)) (call (VPause : op))
    s attempts.

(** How a successful call ends: with an acknowledged write, or with a
    mismatch and the record read back. *)
Definition ends_stored (s : State) (h : trace vault_sig) (s' : State) : Prop :=
  (∃ h0 w, h = h0 ++ [@Event vault_sig (VWrite s) (Ok w)] ∧ s' = set_Version w s) ∨
  (∃ h0 e stored, cas_error e ∧ SameRecord stored (Some s) = true ∧
     h = (h0 ++ [@Event vault_sig (VWrite s) (Err e)]) ++ [@Event vault_sig VRead (Ok stored)] ∧
     s' = set_Version (from_option Version 0 stored) s).

Lemma writes_only_snoc s h e :
  writes_only s h → match ev_op e with VWrite s' => s' = s | _ => True end →
  writes_only s (h ++ [e]).
Proof. intros Hh He e' [?|Heq%list_elem_of_singleton]%elem_of_app; [by apply Hh|by subst]. Qed.

Lemma write_once_ends s n h :
  writes_only s h →
  post (vault_write_once s (S n)) h (λ h' r,
    writes_only s h' ∧ (r.1 = None → ends_stored s h' r.2)).
Proof.
  unfold vault_write_once, WriteStateOnce. generalize false as u. revert h.
  induction n as [|n IH]; intros h u Hh; cbn [write_once_loop]; apply post_bind;
    intros [w|e]; cbn [post]; rename Hh into Hh0.
  all: assert (Hh : ∀ r, writes_only s (h ++ [@Event vault_sig (VWrite s) r]))
    by (intros r; by apply writes_only_snoc).
  1, 3: split; [apply Hh|intros _; left; by exists h, w].
  all: destruct (IsCASMismatch (Some e)) eqn:Hcas; [|destruct (IsClientError (Some e));
    [split; [apply Hh|done]|]].
  1, 3: destruct u; [|split; [apply Hh|done]]; apply post_bind; intros [stored|e']; cbn [post];
    [destruct (SameRecord stored (Some s)) eqn:Hs|]; cbn [post];
    split; try (by apply writes_only_snoc); try done; intros _; right; by exists h, e, stored.
  - split; [apply Hh|done].
  - apply post_bind. intros ok. cbn [post]. destruct ok; [|split; [by apply writes_only_snoc|done]].
    refine (IH _ true _). by apply writes_only_snoc.
Qed.

(** C27. Exactly once.  Whatever a check-and-set store answers (lost
    acknowledgements, failures before the write, refusals, mismatches) and
    whatever other writers do in between, WriteStateOnce applies its record
    at most once.  When it reports success, its own write was applied or
    the record was read back and is the one it was writing; and when the
    state was read at the store's version and nobody else wrote, the record
    was applied exactly once, is the one now stored, and the returned
    version is the stored version. *)
Theorem write_state_once_exactly_once env n s v0 v applied others :
  vault_run v0 (run env [] (vault_write_once s (S n))).1 v applied others →
  let '(h, (err, s')) := run env [] (vault_write_once s (S n)) in
  (applied ≤ 1)%nat ∧
  (err = None →
     (applied = 1%nat ∨
      ∃ e stored, e ∈ h ∧ e = @Event vault_sig VRead (Ok stored) ∧
        SameRecord stored (Some s) = true) ∧
     (others = 0%nat → Version s = vversion v0 →
        applied = 1%nat ∧ stores s v0 v ∧ s' = set_Version (vversion v) s)).
Proof.
  pose proof (post_run _ _ _ (write_once_ends s n [] ltac:(by intros e ?%elem_of_nil)) env) as Hp.
  destruct (run env [] (vault_write_once s (S n))) as [h [err s']]. simpl in *.
  destruct Hp as [Hw Hend]. intros Hrun.
  destruct (vault_run_once _ _ _ _ _ _ Hrun Hw) as [H1 H2]. split; [done|].
  intros Herr. destruct (Hend Herr) as [(h0 & w & -> & ->)|(h0 & e & stored & Hcas & Hs & -> & ->)].
  - apply vault_run_snoc in Hrun as (v2 & v1 & b & a & o & Hr & Ha & Ho & -> & Hv & Heq).
    destruct Ha as (Hver & Hst & -> & ->). assert (a = 0%nat) as -> by lia.
    split; [by left|]. intros Hoth _. destruct (H2 eq_refl) as [_ H3].
    destruct (H3 Hoth) as [? _]. by rewrite <- (Heq ltac:(lia)).
  - apply vault_run_snoc in Hrun as (v2 & v1 & b & a & o & Hr & Ha & Ho & -> & Hv & Heq).
    destruct Ha as (-> & -> & ->).
    apply vault_run_snoc in Hr as (v3 & v4 & b & a' & o' & Hr & Ha & Ho' & -> & Hv' & Heq').
    split.
    + right. eexists _, _. split; [apply elem_of_app; right; by apply list_elem_of_singleton|done].
    + intros Hoth Hver. assert (o = 0%nat ∧ o' = 0%nat) as [-> ->] by lia.
      specialize (Heq Hoth) as ->. specialize (Heq' eq_refl) as ->.
      destruct Ha as [(_ & _ & [Hno _] & _)|(-> & -> & Hcase)]; [unfold cas_error in *; congruence|].
      destruct Hcase as [[Hno _]|[[Hno _]|[Hne _]]]; [unfold cas_error in *; congruence..|].
      destruct a' as [|a']; [by rewrite (vault_run_idle _ _ _ _ _ Hr eq_refl eq_refl) in Hne|].
      assert (a' = 0%nat) as -> by lia. destruct (H2 eq_refl) as [_ H3].
      destruct (H3 Hoth) as [Hst _]. split_and!; try done.
      destruct Hst as (_ & s1 & Es & _ & Ev). rewrite Es. simpl. by rewrite Ev.
Qed.

(** ** Witness

    The write is applied and its acknowledgement lost; the retry is refused
    as a mismatch, and the record read back is the one written. *)
Definition lost_ack : store_err := mkErr "connection reset" None.
Definition mismatch : store_err := mkErr "check-and-set parameter did not match" (Some 400).

Definition lossy_env : environment vault_sig := λ h o,
  match o with
  | VRead => Ok (Some (set_Version 1 zero_state))
  | VWrite _ => Err (if (length h =? 0)%nat then lost_ack else mismatch)
  | VPause => true
  end.

Lemma write_state_once_exactly_once_witness :
  let '(_, (err, s')) := run lossy_env [] (vault_write_once zero_state 3) in
  err = None ∧ s' = set_Version 1 zero_state.
Proof.
  set (V0 := mkVault None 0). set (V1 := mkVault (Some (set_Version 1 zero_state)) 1).
  assert (Hrun : vault_run V0 (run lossy_env [] (vault_write_once zero_state 3)).1 V1 1 0).
  { apply (run_event V0 [_; _; _] V1 (@Event vault_sig VRead _) V1 false); [|done].
    apply (run_event V0 [_; _] V1 (@Event vault_sig (VWrite _) _) V1 false);
      [|right; split_and!; [done|done|by right; right]].
    apply (run_event V0 [_] V1 (@Event vault_sig VPause _) V1 false); [|done].
    apply (run_event V0 [] V0 (@Event vault_sig (VWrite _) _) V1 true 0); [constructor|].
    left. split_and!; [done| |done|done].
    split; [done|]. by exists (set_Version 1 zero_state). }
  pose proof (write_state_once_exactly_once lossy_env 2 zero_state _ _ _ _ Hrun) as H.
  destruct H as [_ H]. destruct (H eq_refl) as [_ H']. destruct (H' eq_refl eq_refl) as (_ & _ & E).
  split; [reflexivity|exact E].
Defined.
