(* ===== verification/BrokerTypes.v ===== *)
(** internal/loginbroker: the wire types (brokerapi), the Driver interface,
    the broker's configuration and its tokens. *)
From S2P Require Import Prelude GoStrings GoTime Utf8 Dailywindow LoginVault.
Local Open Scope Z_scope.

(** ** brokerapi *)

Inductive Outcome :=
| OutcomeRefreshed | OutcomeCurrent | OutcomeDeferred | OutcomeBudgetExhausted
| OutcomeLatched | OutcomeInconclusive | OutcomeFailed.

#[export] Instance Outcome_eq_dec : EqDecision Outcome.
Proof. solve_decision. Defined.

Definition CodeBlackout := "blackout"%string.
Definition CodeMinInterval := "min_interval"%string.
Definition CodeCooldown := "cooldown"%string.
Definition CodeLoginInProgress := "login_in_progress"%string.
Definition CodeStateConflict := "state_conflict"%string.
Definition CodeCredentialsRejected := "credentials_rejected"%string.
Definition CodeConsecutiveFailures := "consecutive_failures"%string.
Definition CodeLoginUnconfirmed := "login_unconfirmed"%string.
Definition CodeLoginFailed := "login_failed"%string.
Definition CodeLoginNotSubmitted := "login_not_submitted"%string.
Definition CodeStoreUnavailable := "store_unavailable"%string.
Definition CodeStoreRejected := "store_rejected"%string.
Definition CodeProbeInconclusive := "probe_inconclusive"%string.
Definition CodeInternal := "internal"%string.
Definition CodeSuperseded := "superseded"%string.
Definition CodeSessionNotStored := "session_not_stored"%string.

Record Request := mkRequest { Reason : string; ReqFingerprint : string }.

Record Response := mkResponse {
  RSite : string;
  ROutcome : Outcome;
  RCode : string;
  RDetail : string;
  RetryAfter : option Z;
  RSession : option (gmap string string);
  RFingerprint : string;
  RLoggedInAt : option Z;
}.

Definition NoFingerprint : string := "none".
Definition FingerprintLen : nat := 16.

Definition ShortFingerprint (full : string) : string :=
  if String.eqb full "" || String.eqb full NoFingerprint then NoFingerprint
  else if (FingerprintLen <? String.length full)%nat
  then String.substring 0 FingerprintLen full else full.

(** ** Driver *)

Inductive ProbeState := ProbeUnknown | ProbeAlive | ProbeDead.
Record ProbeResult := mkProbe { PState : ProbeState; PReason : string }.

Definition ProbeState_String (s : ProbeState) : string :=
  match s with ProbeAlive => "alive" | ProbeDead => "dead" | ProbeUnknown => "unknown" end.

Inductive LoginFailure := LoginUnknown | LoginNotSubmitted | LoginRejected.
Record LoginError := mkLoginError { Kind : LoginFailure; Detail : string }.

(** What the driver's Login returns as its error: a *LoginError somewhere
    in the chain, or anything else. *)
Inductive login_err := LoginErr (e : LoginError) | OtherErr.

Record Constraints := mkConstraints {
  CBlackout : Schedule;
  CMinInterval : Z;
  CLoginHeadroom : Z;
  CLocation : option Location;
}.

(** The interface a site's driver implements; Login and Probe talk to the
    site and are operations of the environment. *)
Class Driver (Session : Type) := {
  Site : string;
  Encode : Session → Z → option (gmap string string);
  Decode : gmap string string → option Session;
  Fingerprint : Session → string;
  Constrained : option Constraints;
}.

Record Credentials := mkCredentials { Username : string; Password : string }.

(** ** Policy constants *)

Definition DefaultMinInterval : Z := 20 * minute.
Definition FloorMinInterval : Z := 5 * minute.
Definition DefaultMaxFailures : Z := 2.
Definition CeilingMaxFailures : Z := 5.
Definition DefaultLoginHeadroom : Z := 150 * second.
Definition DefaultCooldown : Z := 2 * minute.
Definition DefaultOpTimeout : Z := 6 * minute.
Definition CeilingDailyLogins : Z := 6.
Definition recentLogin : Z := 2 * minute.
Definition retryDelay : Z := 10 * second.
Definition maxLoginAttempts : nat := 2.
Definition confirmAttempts : nat := 3.
Definition confirmDelay : Z := 5 * second.
Definition writeAttempts : nat := 3.
Definition writeDelay : Z := 5 * second.

Definition blockedCredentialsRejected : string := "credentials_rejected".
Definition blockedConsecutiveFailures : string := "consecutive_failures".

(** ** Tokens *)

(** unicode.ToLower of a rune, as far as it decides whether the result is
    ASCII: the two code points past ASCII whose lower case is an ASCII
    letter are U+0130 and U+212A. *)
Definition ascii_lower_of (r : Z) : Z :=
  if within 65 90 r then r + 32
  else if r =? 304 then 105 else if r =? 8490 then 107 else r.

Definition token_rune (r : Z) : bool :=
  within 97 122 r || within 48 57 r || (r =? 95) || (r =? 58).

(** safeToken: every rune of the lower-cased string becomes one byte, and
    the loop stops at 64. *)
Definition safeToken (s : string) : string :=
  string_of_bytes (take 64
    ((λ r, let l := ascii_lower_of r in if token_rune l then l else 95)
       <$> runes (bytes_of_string s))).

Definition token (creds : Credentials) (s : string) : string :=
  let clean secret s :=
    if String.eqb secret "" then s else replace_all s secret "redacted" in
  safeToken (clean (Username creds) (clean (Password creds) s)).

Fixpoint site_chars (s : string) : bool :=
  match s with
  | EmptyString => true
  | String a r =>
      (within 97 122 (byte_of a) || within 48 57 (byte_of a) || (byte_of a =? 45))
      && site_chars r
  end.

Definition validSite (s : string) : bool :=
  if String.eqb s "" || (40 <? String.length s)%nat then false else site_chars s.

(** ** Configuration *)

Record Config := mkConfig {
  cfgCredentials : Credentials;
  cfgConnect : bool;            (* whether a store is given *)
  cfgBlackout : Schedule;
  cfgMinInterval : Z;
  cfgMaxFailures : Z;
  cfgDailyBudget : Z;
  cfgCooldown : Z;
  cfgOpTimeout : Z;
  cfgNewSalt : bool;            (* whether a salt source is given *)
}.

Record Broker := mkBroker {
  creds : Credentials;
  blackout : Schedule;
  headroom : Z;
  minInterval : Z;
  maxFailures : Z;
  dailyBudget : Z;
  budgetLoc : Location;
  cooldown : Z;
  opTimeout : Z;
}.

Inductive config_error :=
| NoDriver | BadSite | NoStore | NoCredentials | BadBudget | BadInterval | BadFailures | NoSalt.

(** The zone of the first configured Set that has one. *)
Fixpoint first_loc (sc : Schedule) : option Location :=
  match sc with
  | [] => None
  | s :: r => match Loc s with Some l => Some l | None => first_loc r end
  end.

(** A zero setting takes its default; so does a non-positive duration. *)
Definition or_default (v dflt : Z) : Z := if v =? 0 then dflt else v.
Definition pos_or_default (v dflt : Z) : Z := if v <=? 0 then dflt else v.

(** What a driver's own limits make of the configuration: the windows, the
    floor of the interval, the headroom and the zone. *)
Definition limits (c : option Constraints) (cfg : Config) : Schedule * Z * Z * option Location :=
  match c with
  | Some lim =>
      (cfgBlackout cfg ++ CBlackout lim,
       if FloorMinInterval <? CMinInterval lim then CMinInterval lim else FloorMinInterval,
       if 0 <? CLoginHeadroom lim then CLoginHeadroom lim else DefaultLoginHeadroom,
       CLocation lim)
  | None => (cfgBlackout cfg, FloorMinInterval, DefaultLoginHeadroom, None)
  end.

Definition budget_zone (loc : option Location) (cfg : Config) : Location :=
  match loc with
  | Some l => l
  | None => match first_loc (cfgBlackout cfg) with Some l => l | None => UTC end
  end.

(** New, the driver given ([None]: no driver). *)
Definition New {Session} (d : option (Driver Session)) (cfg : Config) : res config_error Broker :=
  match d with
  | None => Err NoDriver
  | Some d =>
      if negb (validSite Site) then Err BadSite else
      if negb (cfgConnect cfg) then Err NoStore else
      if String.eqb (Username (cfgCredentials cfg)) "" || String.eqb (Password (cfgCredentials cfg)) ""
      then Err NoCredentials else
      let minI := or_default (cfgMinInterval cfg) DefaultMinInterval in
      let '(black, floor, head, loc) := limits Constrained cfg in
      let budget := or_default (cfgDailyBudget cfg) CeilingDailyLogins in
      if (budget <? 1) || (CeilingDailyLogins <? budget) then Err BadBudget else
      if minI <? floor then Err BadInterval else
      let maxF := or_default (cfgMaxFailures cfg) DefaultMaxFailures in
      if (maxF <? 1) || (CeilingMaxFailures <? maxF) then Err BadFailures else
      if negb (cfgNewSalt cfg) then Err NoSalt else
      Ok (mkBroker (cfgCredentials cfg) black head minI maxF budget (budget_zone loc cfg)
            (pos_or_default (cfgCooldown cfg) DefaultCooldown)
            (pos_or_default (cfgOpTimeout cfg) DefaultOpTimeout))
  end.

(** ** Properties *)

(** The bounds every broker is built with. *)
Definition broker_ok (b : Broker) : Prop :=
  FloorMinInterval ≤ minInterval b ∧
  1 ≤ dailyBudget b ≤ CeilingDailyLogins ∧
  1 ≤ maxFailures b ≤ CeilingMaxFailures ∧
  0 < headroom b ∧ 0 < cooldown b ∧ 0 < opTimeout b ∧
  Username (creds b) ≠ ""%string ∧ Password (creds b) ≠ ""%string.

Lemma pos_or_default_pos v dflt : 0 < dflt → 0 < pos_or_default v dflt.
Proof. unfold pos_or_default. destruct (Z.leb_spec v 0); lia. Qed.

Lemma limits_spec c cfg black floor head loc :
  limits c cfg = (black, floor, head, loc) →
  FloorMinInterval ≤ floor ∧ 0 < head ∧ (∀ s, s ∈ cfgBlackout cfg → s ∈ black) ∧
  match c with
  | Some lim => CMinInterval lim ≤ floor ∧ ∀ s, s ∈ CBlackout lim → s ∈ black
  | None => True
  end.
Proof.
  unfold limits. destruct c as [lim|]; intros [= <- <- <- <-].
  - assert (0 < DefaultLoginHeadroom) by done.
    destruct (Z.ltb_spec FloorMinInterval (CMinInterval lim)),
      (Z.ltb_spec 0 (CLoginHeadroom lim)); set_solver by lia.
  - split_and!; done.
Qed.

(** Whatever the configuration asks for, a broker that New builds keeps
    the policy's bounds: at least five minutes (or the driver's own, longer
    interval) between logins, one to six logins a day, one to five failures
    before the latch, positive timeouts, credentials present, and every
    configured window and every window of the driver in its blackout. *)
Theorem new_keeps_bounds {Session} (d : option (Driver Session)) cfg b :
  New d cfg = Ok b →
  broker_ok b ∧ (∀ s, s ∈ cfgBlackout cfg → s ∈ blackout b) ∧
  ∃ d', d = Some d' ∧
    match @Constrained _ d' with
    | Some lim => CMinInterval lim ≤ minInterval b ∧ ∀ s, s ∈ CBlackout lim → s ∈ blackout b
    | None => True
    end.
Proof.
  unfold New. destruct d as [d|]; [|done].
  destruct (negb (validSite Site)); [done|].
  destruct (negb (cfgConnect cfg)); [done|].
  destruct (_ || _) eqn:Hcr; [done|]. apply orb_false_iff in Hcr as [Hu%String.eqb_neq Hp%String.eqb_neq].
  destruct (limits Constrained cfg) as [[[black floor] head] loc] eqn:El.
  apply limits_spec in El as (? & ? & ? & Hc). cbv zeta.
  set (minI := or_default (cfgMinInterval cfg) _). set (budget := or_default (cfgDailyBudget cfg) _).
  set (maxF := or_default (cfgMaxFailures cfg) _). clearbody minI budget maxF.
  destruct ((budget <? 1) || _) eqn:Hb; [done|]. destruct (minI <? floor) eqn:Hi; [done|].
  destruct ((maxF <? 1) || _) eqn:Hf; [done|]. destruct (negb (cfgNewSalt cfg)); [done|].
  bool_to_prop. intros [= <-].
  assert (0 < DefaultCooldown ∧ 0 < DefaultOpTimeout) as [? ?] by done.
  unfold broker_ok; simpl. split_and!; auto using pos_or_default_pos; [lia|].
  exists d. split; [done|]. destruct Constrained; [|done]. split; [lia|]. apply Hc.
Qed.

(** ** The alphabet and length of tokens *)

Definition token_char (a : ascii) : bool := token_rune (byte_of a).

Lemma string_of_bytes_chars (P : ascii → bool) b :
  Forall (λ z, P (ascii_of_N (Z.to_N z)) = true) b →
  Forall (λ a, P a = true) (String.list_ascii_of_string (string_of_bytes b)).
Proof.
  intros H. unfold string_of_bytes. rewrite String.list_ascii_of_string_of_list_ascii.
  by apply Forall_fmap.
Qed.

Lemma token_rune_char r :
  token_rune r = true → token_char (ascii_of_N (Z.to_N r)) = true.
Proof.
  intros H. assert (0 ≤ r < 256) as Hr.
  { unfold token_rune in H. rewrite !orb_true_iff, !within_spec, !Z.eqb_eq in H. lia. }
  unfold token_char, byte_of. rewrite N_ascii_embedding by lia. by rewrite Z2N.id by lia.
Qed.

(** Whatever a driver supplies as a detail or a reason, the token the
    broker logs and sends is at most 64 bytes of lower-case letters, digits,
    underscores and colons. *)
Theorem token_alphabet creds s :
  (String.length (token creds s) ≤ 64)%nat ∧
  Forall (λ a, token_char a = true) (String.list_ascii_of_string (token creds s)).
Proof.
  unfold token, safeToken. set (t := if String.eqb (Username creds) "" then _ else _). split.
  - unfold string_of_bytes.
    assert (Hl : ∀ l, String.length (String.string_of_list_ascii l) = length l).
    { induction l; simpl; auto. }
    rewrite Hl, length_fmap, length_take. lia.
  - apply string_of_bytes_chars, Forall_take, Forall_fmap, Forall_true.
    intros r. apply token_rune_char. simpl.
    by destruct (token_rune (ascii_lower_of r)) eqn:E.
Qed.

(** The token is meant to have the account's username and password
    removed, but they are removed before the text is lower-cased and its
    other characters are replaced: a detail that spells the password
    "hunter_2" as "Hunter-2" is sent as the password. *)
Theorem token_can_spell_password :
  token (mkCredentials "parent" "hunter_2") "bad password Hunter-2"
  = "bad_password_hunter_2"%string.
Proof. by vm_compute. Qed.
