(* ===== verification/SingleFlight.v ===== *)
(** internal/loginbroker: Refresh and run, the single flight that concurrent
    requests share, as interleaved atomic steps under the broker's mutex. *)
From S2P Require Import Prelude BrokerTypes.

(** ** State *)

(** The phases of one call: its goroutine is in refresh; refresh returned
    and c.resp is set; b.inflight is cleared; c.done is closed. *)
Inductive phase :=
| Running
| Returned (r : Response)
| Cleared (r : Response)
| Closed (r : Response).

Inductive caller :=
| Waiting (n : nat)
| Answered (n : nat) (r : Response)
| GaveUp (n : nat).

Record flight := mkFlight {
  calls_ : list phase;             (* every call ever made, oldest first *)
  inflight : option nat;           (* b.inflight *)
  callers : gmap nat caller;
}.

Definition idle : flight := mkFlight [] None ∅.

(** What can happen next. *)
Inductive action :=
| Arrive (k : nat)                 (* Refresh up to the unlock *)
| Return (n : nat) (r : Response)  (* refresh returned or panicked *)
| Clear (n : nat)                  (* b.inflight = nil *)
| Close (n : nat)                  (* close(c.done) *)
| Deliver (k : nat)                (* the caller's select sees c.done *)
| GiveUp (k : nat).                (* the caller's select sees ctx.Done *)

Definition step (f : flight) (a : action) : option flight :=
  match a with
  | Arrive k =>
      match callers f !! k with
      | Some _ => None
      | None =>
          match inflight f with
          | None =>
              let n := length (calls_ f) in
              Some (mkFlight (calls_ f ++ [Running]) (Some n) (<[k := Waiting n]> (callers f)))
          | Some n => Some (mkFlight (calls_ f) (Some n) (<[k := Waiting n]> (callers f)))
          end
      end
  | Return n r =>
      match calls_ f !! n with
      | Some Running => Some (mkFlight (<[n := Returned r]> (calls_ f)) (inflight f) (callers f))
      | _ => None
      end
  | Clear n =>
      match calls_ f !! n with
      | Some (Returned r) => Some (mkFlight (<[n := Cleared r]> (calls_ f)) None (callers f))
      | _ => None
      end
  | Close n =>
      match calls_ f !! n with
      | Some (Cleared r) => Some (mkFlight (<[n := Closed r]> (calls_ f)) (inflight f) (callers f))
      | _ => None
      end
  | Deliver k =>
      match callers f !! k with
      | Some (Waiting n) =>
          match calls_ f !! n with
          | Some (Closed r) =>
              Some (mkFlight (calls_ f) (inflight f) (<[k := Answered n r]> (callers f)))
          | _ => None
          end
      | _ => None
      end
  | GiveUp k =>
      match callers f !! k with
      | Some (Waiting n) =>
          Some (mkFlight (calls_ f) (inflight f) (<[k := GaveUp n]> (callers f)))
      | _ => None
      end
  end.

Inductive reaches : flight → list action → flight → Prop :=
| reach_start f : reaches f [] f
| reach_step f g h l a : reaches f l g → step g a = Some h → reaches f (l ++ [a]) h.

(** The steps of a schedule, when each one can be taken. *)
Definition exec (f : flight) (l : list action) : option flight :=
  foldl (λ o a, match o with Some g => step g a | None => None end) (Some f) l.

Lemma exec_reaches f l g : exec f l = Some g → reaches f l g.
Proof.
  revert g. unfold exec. induction l as [|a l IH] using rev_ind; intros g.
  - intros [= <-]. constructor.
  - rewrite foldl_app. simpl. destruct (foldl _ _ l) as [h|]; [|done].
    intros Hs. econstructor; [by apply IH|done].
Qed.

(** ** The invariant *)

(** A call that b.inflight has not yet forgotten. *)
Definition in_flight (p : phase) : bool :=
  match p with Running | Returned _ => true | Cleared _ | Closed _ => false end.

Definition caller_call (c : caller) : nat :=
  match c with Waiting n | Answered n _ | GaveUp n => n end.

Record flight_ok (f : flight) : Prop := {
  one_flight : ∀ n p, calls_ f !! n = Some p → in_flight p = true → inflight f = Some n;
  flight_live : ∀ n, inflight f = Some n → ∃ p, calls_ f !! n = Some p ∧ in_flight p = true;
  caller_known : ∀ k c, callers f !! k = Some c → (caller_call c < length (calls_ f))%nat;
  answer_true : ∀ k n r, callers f !! k = Some (Answered n r) → calls_ f !! n = Some (Closed r);
  call_asked : ∀ n, (n < length (calls_ f))%nat → ∃ k c, callers f !! k = Some c ∧ caller_call c = n;
}.

Lemma idle_ok : flight_ok idle.
Proof. split; simpl; try done; try (by intros; simplify_map_eq). intros n ?. lia. Qed.

(** One call moves to another phase. *)
Lemma phase_ok f n p q i :
  flight_ok f → calls_ f !! n = Some p → (∀ r, p ≠ Closed r) →
  i = (if in_flight q then inflight f else if in_flight p then None else inflight f) →
  (in_flight q = true → in_flight p = true) →
  flight_ok (mkFlight (<[n := q]> (calls_ f)) i (callers f)).
Proof.
  intros [H1 H2 H3 H4 H5] Hn Hp Hi Hq. pose proof (lookup_lt_Some _ _ _ Hn) as Hlt.
  split; simpl; rewrite ?length_insert; try done.
  - intros m p' [(-> & <- & _)|[Hne Hm]]%list_lookup_insert_Some Hf.
    + subst i. rewrite Hf. eauto.
    + subst i. pose proof (H1 _ _ Hm Hf) as Em.
      destruct (in_flight q); [done|]. destruct (in_flight p) eqn:Ep; [|done].
      pose proof (H1 _ _ Hn Ep). congruence.
  - intros m Hm. subst i. destruct (in_flight q) eqn:Eq.
    + destruct (H2 m Hm) as (p' & Hm' & Hf').
      assert (inflight f = Some n) by eauto. simplify_eq.
      exists q. by rewrite list_lookup_insert_eq.
    + destruct (in_flight p) eqn:Ep; [done|]. destruct (H2 m Hm) as (p' & Hm' & Hf').
      exists p'. rewrite list_lookup_insert_ne; [done|]. congruence.
  - intros k m r Hk. specialize (H4 k m r Hk). rewrite list_lookup_insert_ne; [done|].
    intros ->. rewrite Hn in H4. injection H4 as ->. by destruct (Hp r).
Qed.

(** A caller's entry changes. *)
Lemma caller_ok f k c c0 :
  flight_ok f → callers f !! k = Some c0 → caller_call c = caller_call c0 →
  (∀ n r, c0 ≠ Answered n r) →
  (∀ n r, c = Answered n r → calls_ f !! n = Some (Closed r)) →
  flight_ok (mkFlight (calls_ f) (inflight f) (<[k := c]> (callers f))).
Proof.
  intros [H1 H2 H3 H4 H5] Hk Hc Hc0 Ha. split; simpl; try done.
  - intros k' c' [[-> <-]|[_ ?]]%lookup_insert_Some; [rewrite Hc|]; eauto.
  - intros k' n r [[-> ->]|[_ ?]]%lookup_insert_Some; eauto.
  - intros n Hn. destruct (H5 n Hn) as (k' & c' & Hk' & Hn').
    destruct (decide (k = k')) as [->|Hne].
    + exists k', c. rewrite lookup_insert_eq. split; [done|]. congruence.
    + exists k', c'. by rewrite lookup_insert_ne.
Qed.

Lemma arrive_ok f k n :
  flight_ok f → callers f !! k = None → inflight f = Some n →
  flight_ok (mkFlight (calls_ f) (Some n) (<[k := Waiting n]> (callers f))).
Proof.
  intros [H1 H2 H3 H4 H5] Hk Hn. rewrite <- Hn. destruct (H2 n Hn) as (p & Hp & _).
  apply lookup_lt_Some in Hp. split; simpl; try done.
  - intros k' c' [[-> <-]|[_ ?]]%lookup_insert_Some; eauto.
  - intros k' m r [[-> [=]]|[_ ?]]%lookup_insert_Some; eauto.
  - intros m Hm. destruct (H5 m Hm) as (k' & c' & Hk' & Hm').
    exists k', c'. rewrite lookup_insert_ne; [done|]. congruence.
Qed.

Lemma start_ok f :
  flight_ok f → inflight f = None → ∀ k, callers f !! k = None →
  flight_ok (mkFlight (calls_ f ++ [Running]) (Some (length (calls_ f)))
    (<[k := Waiting (length (calls_ f))]> (callers f))).
Proof.
  intros [H1 H2 H3 H4 H5] Hn k Hk. split; simpl; rewrite ?length_app; simpl.
  - intros m p [Hm|[Hge Hm]]%lookup_app_Some Hf; [|].
    + rewrite (H1 m p Hm Hf) in Hn. done.
    + apply lookup_lt_Some in Hm as Hlt. simpl in Hlt. f_equal. lia.
  - intros m [= <-]. exists Running. split; [|done].
    by rewrite lookup_app_r, Nat.sub_diag by lia.
  - intros k' c' [[-> <-]|[_ Hk']]%lookup_insert_Some; simpl; [lia|].
    specialize (H3 k' c' Hk'). lia.
  - intros k' m r [[-> [=]]|[_ Hk']]%lookup_insert_Some.
    rewrite lookup_app_l; [by eapply H4|]. by eapply lookup_lt_Some, H4.
  - intros m Hm. destruct (decide (m = length (calls_ f))) as [->|Hne].
    + exists k, (Waiting (length (calls_ f))). by rewrite lookup_insert_eq.
    + destruct (H5 m ltac:(lia)) as (k' & c' & Hk' & Hm').
      exists k', c'. rewrite lookup_insert_ne; [done|]. congruence.
Qed.

Lemma step_ok f a g : flight_ok f → step f a = Some g → flight_ok g.
Proof.
  intros Hf. destruct a as [k|n r|n|n|k|k]; simpl; intros Hs; repeat case_match; simplify_eq.
  - by apply arrive_ok.
  - by apply start_ok.
  - by eapply phase_ok.
  - by eapply phase_ok.
  - eapply phase_ok; try done.
  - eapply caller_ok; try done. naive_solver.
  - eapply caller_ok; try done.
Qed.

Lemma reaches_ok l f : reaches idle l f → flight_ok f.
Proof.
  intros H. remember idle as f0. induction H as [|f0 g h l a _ IH Hs]; subst.
  - apply idle_ok.
  - eapply step_ok; [by apply IH|done].
Qed.

(** Single flight.  However requests, answers and cancellations
    interleave, at most one refresh runs at a time; every caller that is
    answered gets the response of the refresh it joined, so two callers of
    one refresh get the same answer; and every refresh was asked for by
    some caller. *)
Theorem single_flight l f :
  reaches idle l f →
  (∀ n m, calls_ f !! n = Some Running → calls_ f !! m = Some Running → n = m) ∧
  (∀ k n r, callers f !! k = Some (Answered n r) → calls_ f !! n = Some (Closed r)) ∧
  (∀ k k' n r r', callers f !! k = Some (Answered n r) →
     callers f !! k' = Some (Answered n r') → r = r') ∧
  (∀ n, (n < length (calls_ f))%nat → ∃ k c, callers f !! k = Some c ∧ caller_call c = n).
Proof.
  intros [H1 H2 H3 H4 H5]%reaches_ok. split_and!.
  - intros n m Hn Hm. specialize (H1 n _ Hn eq_refl) as E1.
    specialize (H1 m _ Hm eq_refl) as E2. congruence.
  - done.
  - intros k k' n r r' Hk%H4 Hk'%H4. congruence.
  - done.
Qed.

(** Nobody waits for ever: a caller whose call has ended can be answered,
    and a call that has not ended can take its next step. *)
Definition next_action (f : flight) (k : nat) (resp : Response) : option action :=
  match callers f !! k with
  | Some (Waiting n) =>
      match calls_ f !! n with
      | Some Running => Some (Return n resp)
      | Some (Returned _) => Some (Clear n)
      | Some (Cleared _) => Some (Close n)
      | Some (Closed _) => Some (Deliver k)
      | None => None
      end
  | _ => None
  end.

Fixpoint drive (fuel : nat) (k : nat) (resp : Response) (f : flight) : flight :=
  match fuel with
  | O => f
  | S fuel =>
      match next_action f k resp with
      | Some a => match step f a with Some g => drive fuel k resp g | None => f end
      | None => f
      end
  end.

Lemma drive_closed m f k n r resp :
  callers f !! k = Some (Waiting n) → calls_ f !! n = Some (Closed r) →
  callers (drive (S m) k resp f) !! k = Some (Answered n r).
Proof.
  intros Hk Hn. cbn [drive]. unfold next_action. rewrite Hk, Hn. cbn [step]. rewrite Hk, Hn.
  destruct m; cbn [drive]; unfold next_action; cbn [callers];
    by rewrite lookup_insert_eq; cbn [callers]; rewrite ?lookup_insert_eq.
Qed.

(** A waiting caller's call moves one phase on. *)
Lemma drive_phase m f k n p q i a resp :
  callers f !! k = Some (Waiting n) → calls_ f !! n = Some p →
  next_action f k resp = Some a →
  step f a = Some (mkFlight (<[n := q]> (calls_ f)) i (callers f)) →
  ∃ g, drive (S m) k resp f = drive m k resp g ∧
    callers g !! k = Some (Waiting n) ∧ calls_ g !! n = Some q.
Proof.
  intros Hk Hn Ha Hs. cbn [drive]. rewrite Ha, Hs. eexists. split; [done|]. simpl.
  split; [done|]. apply list_lookup_insert_eq. by eapply lookup_lt_Some.
Qed.

Lemma drive_cleared m f k n r resp :
  callers f !! k = Some (Waiting n) → calls_ f !! n = Some (Cleared r) →
  callers (drive (S (S m)) k resp f) !! k = Some (Answered n r).
Proof.
  intros Hk Hn. destruct (drive_phase (S m) f k n (Cleared r) (Closed r) (inflight f) (Close n) resp)
    as (g & -> & ? & ?); try done.
  - unfold next_action. by rewrite Hk, Hn.
  - simpl. by rewrite Hn.
  - by apply drive_closed.
Qed.

Lemma drive_returned m f k n r resp :
  callers f !! k = Some (Waiting n) → calls_ f !! n = Some (Returned r) →
  callers (drive (S (S (S m))) k resp f) !! k = Some (Answered n r).
Proof.
  intros Hk Hn. destruct (drive_phase (S (S m)) f k n (Returned r) (Cleared r) None (Clear n) resp)
    as (g & -> & ? & ?); try done.
  - unfold next_action. by rewrite Hk, Hn.
  - simpl. by rewrite Hn.
  - by apply drive_cleared.
Qed.

(** A waiting caller is answered within four steps of its call's
    goroutine and its own: nothing any other caller does can leave it
    waiting on a call that has ended. *)
Theorem waiting_caller_answered l f k n resp :
  reaches idle l f → callers f !! k = Some (Waiting n) →
  ∃ r, callers (drive 4 k resp f) !! k = Some (Answered n r).
Proof.
  intros Hok%reaches_ok Hk. pose proof (caller_known f Hok k _ Hk) as Hlt. simpl in Hlt.
  apply lookup_lt_is_Some in Hlt as [p Hp].
  destruct p as [|r|r|r]; [exists resp|exists r..];
    [|by apply drive_returned|by apply drive_cleared|by apply drive_closed].
  destruct (drive_phase 3 f k n Running (Returned resp) (inflight f) (Return n resp) resp)
    as (g & -> & ? & ?); try done.
  - unfold next_action. by rewrite Hk, Hp.
  - simpl. by rewrite Hp.
  - by apply drive_returned.
Qed.

(** ** Witness: two callers share one call. *)

Definition sf_resp : Response := mkResponse "demo" OutcomeCurrent "" "" None None "" None.

Definition two_callers : list action :=
  [Arrive 0; Arrive 1; Return 0 sf_resp; Clear 0; Close 0; Deliver 0; Deliver 1].

Definition two_callers_end : flight :=
  mkFlight [Closed sf_resp] None (<[1 := Answered 0 sf_resp]> (<[0 := Answered 0 sf_resp]>
    (<[1 := Waiting 0]> (<[0 := Waiting 0]> ∅)))).

Lemma single_flight_witness :
  calls_ two_callers_end !! 0 = Some (Closed sf_resp).
Proof.
  assert (H : reaches idle two_callers two_callers_end).
  { apply exec_reaches. vm_compute. reflexivity. }
  destruct (single_flight two_callers two_callers_end H) as (_ & H2 & _).
  apply (H2 0). reflexivity.
Defined.

Lemma waiting_caller_answered_witness :
  ∃ r, callers (drive 4 0 sf_resp (mkFlight [Running] (Some 0) (<[0 := Waiting 0]> ∅))) !! 0
    = Some (Answered 0 r).
Proof.
  apply (waiting_caller_answered [Arrive 0]); [|reflexivity].
  apply exec_reaches. reflexivity.
Defined.
