(* ===== verification/Broker.v ===== *)
(** internal/loginbroker: one refresh of the broker as a program over its
    store, its driver and its clock, and what every run of it keeps.

    Log lines and metrics are left out; a context that ends shows as an
    error of the operation it interrupts. *)
From S2P Require Import Prelude GoStrings GoTime Effects Dailywindow LoginVault BrokerTypes.
Local Open Scope Z_scope.

(** The value of one field of the stored secret: a string or another JSON
    value. *)
Inductive field_value := FString (s : string) | FOther.

(** ** The operations of the environment *)

Section broker.
Context {Session : Type} `{!Driver Session}.

Inductive broker_op :=
| OConnect                                   (* b.connect *)
| OClose                                     (* store.Close *)
| OReadState | OWriteState (s : State)       (* the record *)
| OReadFields | OCanWrite                    (* the session secret *)
| OWrite (fields : gmap string string) (cas : Z)
| ONow | OSleep (d : Z) | ONewSalt
| OProbe (s : Session)                       (* driver.Probe *)
| OLogin (timeout : Z).                      (* driver.Login, cancelled after timeout *)

Definition broker_ans (o : broker_op) : Type :=
  match o with
  | OConnect => res store_err unit
  | OClose => unit
  | OReadState => res store_err (option State)
  | OWriteState _ => res store_err Z
  | OReadFields => res store_err (gmap string field_value * Z * Z)
  | OCanWrite => res store_err bool
  | OWrite _ _ => res store_err Z
  | ONow => Z
  | OSleep _ => bool
  | ONewSalt => res unit string
  | OProbe _ => ProbeResult
  | OLogin _ => res login_err (option Session)
  end.

#[export] Instance broker_sig : Sig := { op := broker_op; ans := broker_ans }.

Local Open Scope prog_scope.

Definition now : prog Z := call (ONow : op).
Definition sleep (d : Z) : prog bool := call (OSleep d : op).
Definition readState : prog (res store_err (option State)) := call (OReadState : op).

(** stringFields *)
Definition stringFields (fields : gmap string field_value) : gmap string string :=
  omap (λ v, match v with FString s => Some s | FOther => None end) fields.

Record heldSession := mkHeld { hsession : Session; hloggedInAt : Z }.

Context (b : Broker).
(** loginvault.CredentialFingerprint hashes the salt and the credentials
    with SHA-256. *)
Context (sha256_hex : string → string).

Definition CredentialFP (salt : string) : string :=
  sha256_hex (salt ++ String Ascii.zero (Username (creds b)
    ++ String Ascii.zero (Password (creds b))))%string.

Definition answer (o : Outcome) (code detail : string) : Response :=
  mkResponse Site o code (token (creds b) detail) None None "" None.

Definition with_retry (t : option Z) (r : Response) : Response :=
  mkResponse (RSite r) (ROutcome r) (RCode r) (RDetail r) t (RSession r) (RFingerprint r)
    (RLoggedInAt r).

(** deferred: "not now", with the earliest time a login may be made. *)
Definition deferred (code : string) (earliest : Z) : Response :=
  with_retry (NextClear (blackout b) earliest (headroom b)) (answer OutcomeDeferred code "").

(** gate: whether a login may start at [nw]; [None] when it may. *)
Definition gate (nw : Z) (state : State) (loggedInAt : Z) : option Response :=
  if Schedule_BlocksAt (blackout b) nw (headroom b)
  then Some (deferred CodeBlackout nw) else
  let last := if after loggedInAt (RequestLoginAt state) then loggedInAt
              else RequestLoginAt state in
  let interval :=
    if negb (is_zero last) then
      if after last nw then Some (deferred CodeMinInterval (nw + minInterval b))
      else if sub nw last <? minInterval b
      then Some (deferred CodeMinInterval (last + minInterval b)) else None
    else None in
  match interval with
  | Some r => Some r
  | None =>
      if before nw (CooldownUntil state) then
        let limit := nw + cooldown b in
        let until := if after (CooldownUntil state) limit then limit else CooldownUntil state in
        Some (deferred CodeCooldown until)
      else
        let used := LoginsOn state (DayOf nw (Some (budgetLoc b))) in
        if dailyBudget b <=? used then
          let midnight := date_midnight (budgetLoc b) (local_day (budgetLoc b) nw + 1) in
          Some (with_retry (Some midnight) (answer OutcomeBudgetExhausted "" ""))
        else None
  end.

(** writeState: exactly once, retrying a transient failure. *)
Definition writeState (state : State) : prog (option store_err * State) :=
  WriteStateOnce readState (λ s, call (OWriteState s : op)) (sleep writeDelay)
    state writeAttempts.

(** commit: apply [mutate] and store; on a check-and-set mismatch read
    again, apply it to what was read and store that. *)
Definition commit (state : State) (mutate : State → prog State)
    : prog (option store_err * State) :=
  let! state := mutate state in
  let! w := writeState state in
  let '(err, state) := w in
  if negb (IsCASMismatch err) then Ret (err, state) else
  let! rd := readState in
  match rd with
  | Ok (Some fresh) =>
      let! fresh := mutate fresh in
      let! w := writeState fresh in
      let '(werr, fresh) := w in
      match werr with
      | Some e => Ret (Some e, state)
      | None => Ret (None, fresh)
      end
  | _ => Ret (err, state)
  end.

Definition storeFailure (err : store_err) : Response :=
  answer OutcomeFailed
    (if IsClientError (Some err) then CodeStoreRejected else CodeStoreUnavailable) "".

Definition recordFailure (nw : Z) (err : store_err) : Response :=
  if IsCASMismatch (Some err) then deferred CodeStateConflict (nw + minute)
  else storeFailure err.

Definition setLatch (reason : string) (s : State) : prog State :=
  let! t := now in Ret (set_latch true reason t s).

Definition countFailure (s : State) : prog State :=
  let s := set_UnconfirmedCount (UnconfirmedCount s + 1) s in
  if (maxFailures b <=? UnconfirmedCount s) && negb (Blocked s)
  then setLatch blockedConsecutiveFailures s else Ret s.

Definition latchCode (reason : string) : string :=
  if String.eqb reason blockedCredentialsRejected then CodeCredentialsRejected
  else CodeConsecutiveFailures.

Definition asLoginError (e : login_err) : LoginError :=
  match e with LoginErr le => le | OtherErr => mkLoginError LoginUnknown "unclassified" end.

Definition CountLoginAt (t : Z) (s : State) : State :=
  CountLogin (DayOf t (Some (budgetLoc b))) s.

(** failedLogin: a login that may have submitted the credentials and did
    not end with a session the site accepts. *)
Definition failedLogin (state : State) (started : Z) (code detail : string) : prog Response :=
  let! w := commit state (λ s,
    countFailure (CountLoginAt started
      (set_RequestLoginAt started (set_AttemptStartedAt zero_time s)))) in
  let '(_, state) := w in
  if Blocked state then Ret (answer OutcomeLatched CodeConsecutiveFailures detail)
  else Ret (answer OutcomeFailed code detail).

Definition loginFailed (state : State) (started : Z) (lerr : LoginError) : prog Response :=
  match Kind lerr with
  | LoginNotSubmitted =>
      let! t := now in
      let until := t + cooldown b in
      let! _ := commit state (λ s,
        Ret (set_CooldownUntil until (set_AttemptStartedAt zero_time s))) in
      Ret (answer OutcomeFailed CodeLoginNotSubmitted (Detail lerr))
  | LoginRejected =>
      let! _ := commit state (λ s,
        setLatch blockedCredentialsRejected (CountLoginAt started
          (set_RequestLoginAt started (set_AttemptStartedAt zero_time s)))) in
      Ret (answer OutcomeLatched CodeCredentialsRejected "")
  | LoginUnknown => failedLogin state started CodeLoginFailed (Detail lerr)
  end.

(** login: the driver is called once, or once more when the first call
    failed before the credentials were submitted. *)
Fixpoint login_loop (attempts : nat) (first : bool) (lerr : option LoginError)
    (state : State) (loggedInAt : Z)
    : prog (option Session * option LoginError * option Response) :=
  match attempts with
  | O => Ret (None, lerr, None)
  | S n =>
      let! awake := if first : bool then Ret true else sleep retryDelay in
      if negb awake then Ret (None, lerr, None) else
      let! t := now in
      match gate t state loggedInAt with
      | Some held =>
          match lerr with
          | Some _ => Ret (None, lerr, None)
          | None => Ret (None, None, Some held)
          end
      | None =>
          let! r := call (OLogin (headroom b) : op) in
          match r with
          | Ok s => Ret (s, None, None)
          | Err e =>
              let le := asLoginError e in
              match Kind le with
              | LoginNotSubmitted => login_loop n false (Some le) state loggedInAt
              | _ => Ret (None, Some le, None)
              end
          end
      end
  end.

Definition login := login_loop maxLoginAttempts true None.

(** confirm: ask about a new session; an unanswered question is asked
    again. *)
Fixpoint confirm_loop (attempts : nat) (session : Session) (last : ProbeResult)
    : prog ProbeResult :=
  match attempts with
  | O => Ret last
  | S n =>
      let! p := call (OProbe session : op) in
      match PState p with
      | ProbeUnknown =>
          match n with
          | O => Ret p
          | S _ =>
              let! ok := sleep confirmDelay in
              if ok : bool then confirm_loop n session p else Ret p
          end
      | _ => Ret p
      end
  end.

Definition confirm (session : Session) : prog ProbeResult :=
  confirm_loop confirmAttempts session (mkProbe ProbeUnknown "").

(** writeSession's errors: another writer's session is the live one, or the
    store's. *)
Inductive write_err := Superseded | WriteStore (e : store_err).

(** One more store write attempt after a failure that is not final. *)
Definition retry_write (n : nat) (e : store_err) (again : prog (option write_err))
    : prog (option write_err) :=
  match n with
  | O => Ret (Some (WriteStore e))
  | S _ =>
      let! ok := sleep writeDelay in
      if ok : bool then again else Ret (Some (WriteStore e))
  end.

(** The attempts after the check-and-set mismatch has been looked into. *)
Fixpoint write_rechecked (attempts : nat) (fields : gmap string string) (cas : Z)
    : prog (option write_err) :=
  match attempts with
  | O => Ret None
  | S n =>
      let! r := call (OWrite fields cas : op) in
      match r with
      | Ok _ => Ret None
      | Err e =>
          if IsClientError (Some e) then Ret (Some (WriteStore e))
          else retry_write n e (write_rechecked n fields cas)
      end
  end.

(** The attempts before: the first mismatch asks whether this session is
    still the live one, and is not counted as an attempt. *)
Fixpoint write_loop (attempts : nat) (session : Session) (fields : gmap string string) (cas : Z)
    : prog (option write_err) :=
  match attempts with
  | O => Ret None
  | S n =>
      let! r := call (OWrite fields cas : op) in
      match r with
      | Ok _ => Ret None
      | Err e =>
          if IsCASMismatch (Some e) then
            let! rd := call (OReadFields : op) in
            match rd with
            | Err re => Ret (Some (WriteStore re))
            | Ok (_, _, current) =>
                let! p := call (OProbe session : op) in
                match PState p with
                | ProbeAlive => write_rechecked (S n) fields current
                | _ => Ret (Some Superseded)
                end
            end
          else if IsClientError (Some e) then Ret (Some (WriteStore e))
          else retry_write n e (write_loop n session fields cas)
      end
  end.

Definition writeSession := write_loop writeAttempts.

Definition loggedInAtField : string := "logged_in_at".

(** withSession: the answer that carries a session, stored first when
    [write] is set; the second component is b.unsaved afterwards. *)
Definition withSession (unsaved : option heldSession) (outcome : Outcome) (session : Session)
    (loggedInAt version : Z) (write : bool) : prog (Response * option heldSession) :=
  match Encode session loggedInAt with
  | None => Ret (answer OutcomeFailed CodeInternal "", unsaved)
  | Some fields =>
      if decide (fields = ∅) then Ret (answer OutcomeFailed CodeInternal "", unsaved) else
      let fields := if is_zero loggedInAt then fields
                    else <[loggedInAtField := format_rfc3339 loggedInAt]> fields in
      let resp code := mkResponse Site outcome code (token (creds b) "") None (Some fields)
        (ShortFingerprint (Fingerprint session))
        (if is_zero loggedInAt then None else Some loggedInAt) in
      if negb write then Ret (resp "", unsaved) else
      let! w := writeSession session fields version in
      match w with
      | None => Ret (resp "", None)
      | Some Superseded => Ret (answer OutcomeFailed CodeSuperseded "", None)
      | Some (WriteStore _) =>
          Ret (resp CodeSessionNotStored, Some (mkHeld session loggedInAt))
      end
  end.

(** Steps 5 and 6: what the login produced. *)
Definition finish_login (unsaved : option heldSession) (started version : Z) (state : State)
    (l : option Session * option LoginError * option Response)
    : prog (Response * option heldSession) :=
  match l with
  | (_, _, Some held) =>
      let! _ := commit state (λ s, Ret (set_AttemptStartedAt zero_time s)) in
      Ret (held, unsaved)
  | (_, Some lerr, None) =>
      let! r := loginFailed state started lerr in Ret (r, unsaved)
  | (None, None, None) =>
      let! r := failedLogin state started CodeLoginUnconfirmed "no_session" in
      Ret (r, unsaved)
  | (Some session, None, None) =>
      let! p := confirm session in
      match PState p with
      | ProbeAlive =>
          let! newLoggedInAt := now in
          let! _ := commit state (λ s,
            Ret (CountLoginAt started (set_CooldownUntil zero_time
              (set_UnconfirmedCount 0 (set_RequestLoginAt started
                (set_AttemptStartedAt zero_time s)))))) in
          withSession unsaved OutcomeRefreshed session newLoggedInAt version true
      | st =>
          let! r := failedLogin state started CodeLoginUnconfirmed
            ("probe_" ++ ProbeState_String st ++ ":" ++ PReason p)%string in
          Ret (r, unsaved)
      end
  end.

(** Step 4: the marker is written, then the driver is called. *)
Definition record_and_login (unsaved : option heldSession) (state : State) (credFP : string)
    (loggedInAt version : Z) : prog (Response * option heldSession) :=
  let! started := now in
  let! w := writeState (set_AttemptStartedAt started (set_CredentialFingerprint credFP state)) in
  let '(err, state) := w in
  match err with
  | Some e => Ret (recordFailure started e, unsaved)
  | None =>
      let! l := login state loggedInAt in
      finish_login unsaved started version state l
  end.

Definition make_login (unsaved : option heldSession) (state : State) (credFP : string)
    (loggedInAt version : Z) : prog (Response * option heldSession) :=
  let! can := call (OCanWrite : op) in
  match can with
  | Ok false => Ret (answer OutcomeFailed CodeStoreRejected "", unsaved)
  | _ => record_and_login unsaved state credFP loggedInAt version
  end.

(** Step 3 and on: the session is dead or absent. *)
Definition no_session (unsaved : option heldSession) (state : State) (credFP : string)
    (loggedInAt version : Z) : prog (Response * option heldSession) :=
  let! t := now in
  match gate t state loggedInAt with
  | Some r => Ret (r, unsaved)
  | None => make_login unsaved state credFP loggedInAt version
  end.

(** The stored session the driver can use, its time, and whether it has yet
    to be written: b.unsaved when it is newer. *)
Definition usable_session (unsaved : option heldSession) (fields : gmap string field_value)
    (loggedInAt : Z) : option Session * Z * bool :=
  let sf := stringFields fields in
  let stored := if decide (sf = ∅) then None else Decode sf in
  match unsaved with
  | Some u =>
      if match stored with None => true | Some _ => after (hloggedInAt u) loggedInAt end
      then (Some (hsession u), hloggedInAt u, true)
      else (stored, loggedInAt, false)
  | None => (stored, loggedInAt, false)
  end.

(** Step 2: the stored session. *)
Definition stored_session (unsaved : option heldSession) (req : Request) (nw : Z)
    (state : State) (credFP : string) : prog (Response * option heldSession) :=
  let! rf := call (OReadFields : op) in
  match rf with
  | Err e => Ret (storeFailure e, unsaved)
  | Ok (fields, loggedInAt, version) =>
      let '(stored, loggedInAt, needsWrite) := usable_session unsaved fields loggedInAt in
      match stored with
      | None => no_session unsaved state credFP loggedInAt version
      | Some s =>
          let age := sub nw loggedInAt in
          if negb (String.eqb (ShortFingerprint (Fingerprint s)) (ReqFingerprint req))
             && negb (is_zero loggedInAt) && (0 <=? age) && (age <? recentLogin)
          then withSession unsaved OutcomeCurrent s loggedInAt version needsWrite
          else
            let! p := call (OProbe s : op) in
            match PState p with
            | ProbeAlive => withSession unsaved OutcomeCurrent s loggedInAt version needsWrite
            | ProbeUnknown =>
                Ret (answer OutcomeInconclusive CodeProbeInconclusive (PReason p), unsaved)
            | ProbeDead => no_session unsaved state credFP loggedInAt version
            end
      end
  end.

(** The latch. *)
Definition check_latch (unsaved : option heldSession) (req : Request) (nw : Z)
    (state : State) (credFP : string) : prog (Response * option heldSession) :=
  if Blocked state then
    if String.eqb (CredentialFingerprint state) credFP
    then Ret (answer OutcomeLatched (latchCode (BlockedReason state)) "", unsaved)
    else stored_session unsaved req nw
           (set_UnconfirmedCount 0 (set_latch false "" zero_time state)) credFP
  else stored_session unsaved req nw state credFP.

(** Step 1: the record, and an attempt that never recorded its outcome. *)
Definition with_record (unsaved : option heldSession) (req : Request) (state : State)
    : prog (Response * option heldSession) :=
  let credFP := CredentialFP (Salt state) in
  let! nw := now in
  if AttemptInProgress state nw
  then Ret (deferred CodeLoginInProgress (AttemptStartedAt state + AttemptFreshFor), unsaved)
  else if negb (is_zero (AttemptStartedAt state)) then
    let at_ := AttemptStartedAt state in
    let! state := countFailure (CountLoginAt at_
      (set_AttemptStartedAt zero_time (set_RequestLoginAt at_ state))) in
    let! w := writeState state in
    let '(err, state) := w in
    match err with
    | Some e => Ret (recordFailure nw e, unsaved)
    | None => check_latch unsaved req nw state credFP
    end
  else check_latch unsaved req nw state credFP.

Definition refresh_open (unsaved : option heldSession) (req : Request)
    : prog (Response * option heldSession) :=
  let! rd := readState in
  match rd with
  | Err e => Ret (storeFailure e, unsaved)
  | Ok st =>
      let state := default zero_state st in
      if String.eqb (Salt state) "" then
        let! salt := call (ONewSalt : op) in
        match salt with
        | Err _ => Ret (answer OutcomeFailed CodeInternal "", unsaved)
        | Ok s =>
            if String.eqb s "" then Ret (answer OutcomeFailed CodeInternal "", unsaved)
            else with_record unsaved req (set_Salt s state)
        end
      else with_record unsaved req state
  end.

(** refresh; the store is closed at the end of it. *)
Definition refresh (unsaved : option heldSession) (req : Request)
    : prog (Response * option heldSession) :=
  let! c := call (OConnect : op) in
  match c with
  | Err _ => Ret (answer OutcomeFailed CodeStoreUnavailable "", unsaved)
  | Ok _ =>
      let! r := refresh_open unsaved req in
      let! _ := call (OClose : op) in
      Ret r
  end.

(** ** What the events of a run say *)

Definition login_of (e : event broker_sig) : option (Z * res login_err (option Session)) :=
  match e with
  | Event o a =>
      match o return broker_ans o → option (Z * res login_err (option Session)) with
      | OLogin t => λ r, Some (t, r)
      | _ => λ _, None
      end a
  end.
Definition probe_of (e : event broker_sig) : option (Session * ProbeResult) :=
  match e with
  | Event o a =>
      match o return broker_ans o → option (Session * ProbeResult) with
      | OProbe s => λ r, Some (s, r)
      | _ => λ _, None
      end a
  end.
Definition write_of (e : event broker_sig) : option (State * res store_err Z) :=
  match e with
  | Event o a =>
      match o return broker_ans o → option (State * res store_err Z) with
      | OWriteState s => λ r, Some (s, r)
      | _ => λ _, None
      end a
  end.
Definition read_of (e : event broker_sig) : option (res store_err (option State)) :=
  match e with
  | Event o a =>
      match o return broker_ans o → option (res store_err (option State)) with
      | OReadState => λ r, Some r
      | _ => λ _, None
      end a
  end.
Definition now_of (e : event broker_sig) : option Z :=
  match e with
  | Event o a =>
      match o return broker_ans o → option Z with ONow => λ r, Some r | _ => λ _, None end a
  end.

Abbreviation history := (trace broker_sig).

(** The history shows that the store holds [s]: a write of it that was
    acknowledged, or a read that returned it. *)
Definition shown_stored (h : history) (s : State) : Prop :=
  ∃ e, e ∈ h ∧
    ((∃ v, write_of e = Some (s, Ok v)) ∨
     (∃ stored, read_of e = Some (Ok stored) ∧ SameRecord stored (Some s) = true)).

(** Before a login: the marker of this attempt is in the store, and the
    clock was read last, at a time the gate is open for that record. *)
Definition gate_opened (h : history) : Prop :=
  ∃ h0 e t s v loggedInAt,
    h = h0 ++ [e] ∧ now_of e = Some t ∧ gate t (set_Version v s) loggedInAt = None ∧
    shown_stored h0 s ∧ ∃ e' started, e' ∈ h0 ∧ now_of e' = Some started ∧
      AttemptStartedAt s = started.

(** Every answer about the stored session was that it is dead. *)
Definition session_dead (h : history) : Prop :=
  ∀ e s p, e ∈ h → probe_of e = Some (s, p) → PState p = ProbeDead.

Definition not_submitted (r : res login_err (option Session)) : Prop :=
  ∃ e, r = Err e ∧ Kind (asLoginError e) = LoginNotSubmitted.

(** Every earlier login failed before the credentials were submitted. *)
Definition none_submitted (h : history) : Prop :=
  ∀ e t r, e ∈ h → login_of e = Some (t, r) → not_submitted r.

Definition is_login (e : event broker_sig) : bool :=
  match login_of e with Some _ => true | None => false end.
Definition logins (h : history) : nat := length (List.filter is_login h).

(** The discipline of a run: before every login, all of the above. *)
Definition disciplined (h : history) : Prop :=
  ∀ h1 e h2 timeout r,
    h = h1 ++ e :: h2 → login_of e = Some (timeout, r) →
    timeout = headroom b ∧ gate_opened h1 ∧ session_dead h1 ∧ none_submitted h1.

Lemma disciplined_nil : disciplined [].
Proof. intros h1 e h2 t r E. by destruct h1. Qed.

Lemma disciplined_snoc h e :
  disciplined h →
  (∀ t r, login_of e = Some (t, r) →
     t = headroom b ∧ gate_opened h ∧ session_dead h ∧ none_submitted h) →
  disciplined (h ++ [e]).
Proof.
  intros Hd He h1 e' h2 t r E Hl.
  destruct h2 as [|e2 h2 _] using rev_ind.
  - apply app_inj_tail in E as [-> ->]. by eapply He.
  - rewrite app_comm_cons, app_assoc in E. apply app_inj_tail in E as [-> _]. by eapply Hd.
Qed.

Lemma logins_app h l : logins (h ++ l) = (logins h + logins l)%nat.
Proof. unfold logins. by rewrite List.filter_app, length_app. Qed.

(** Operations that are neither a login nor a probe. *)
Definition quiet (o : op) : Prop :=
  match o with OLogin _ | OProbe _ => False | _ => True end.
Definition no_login (o : op) : Prop :=
  match o with OLogin _ => False | _ => True end.

Lemma quiet_no_login o : quiet o → no_login o.
Proof. by destruct o. Qed.

Lemma no_login_event e : no_login (ev_op e) → login_of e = None.
Proof. by destruct e as [[]]. Qed.
Lemma quiet_event e : quiet (ev_op e) → login_of e = None ∧ probe_of e = None.
Proof. by destruct e as [[]]. Qed.

Lemma disciplined_app h l :
  disciplined h → Forall (λ e, no_login (ev_op e)) l →
  disciplined (h ++ l) ∧ logins (h ++ l) = logins h.
Proof.
  intros Hd Hl. revert h Hd. induction Hl as [|e l He Hl IH]; intros h Hd.
  { by rewrite app_nil_r. }
  change (e :: l) with ([e] ++ l). rewrite app_assoc.
  apply no_login_event in He.
  destruct (IH (h ++ [e])) as [H1 H2].
  - apply disciplined_snoc; [done|]. congruence.
  - split; [done|]. rewrite H2, logins_app. unfold logins, is_login. simpl.
    rewrite He. simpl. lia.
Qed.

Lemma Forall_no_login l :
  Forall (λ e, quiet (ev_op e)) l → Forall (λ e : event broker_sig, no_login (ev_op e)) l.
Proof. intros H. eapply Forall_impl; [exact H|]. intros e. apply quiet_no_login. Qed.

Lemma session_dead_app h l :
  session_dead h → Forall (λ e, quiet (ev_op e)) l → session_dead (h ++ l).
Proof.
  intros Hd Hl e s p [He|He]%elem_of_app Hp; [by eapply Hd|].
  rewrite Forall_forall in Hl. apply Hl, quiet_event in He as [_ He]. congruence.
Qed.

Lemma none_submitted_app h l :
  none_submitted h → Forall (λ e, no_login (ev_op e)) l → none_submitted (h ++ l).
Proof.
  intros Hd Hl e s p [He|He]%elem_of_app Hp; [by eapply Hd|].
  rewrite Forall_forall in Hl. apply Hl, no_login_event in He. congruence.
Qed.

Lemma shown_stored_app h l s : shown_stored h s → shown_stored (h ++ l) s.
Proof. intros (e & He & H). exists e. split; [|done]. apply elem_of_app. by left. Qed.

(** ** The parts that never log in *)

Ltac calls_step :=
  match goal with
  | |- calls _ (bind _ _) => apply calls_bind; [|intros ?]
  | |- calls _ (Ret _) => exact I
  | |- calls _ (call _) => apply calls_call; exact I
  | |- calls _ now => apply calls_call; exact I
  | |- calls _ (sleep _) => apply calls_call; exact I
  | |- calls _ readState => apply calls_call; exact I
  | |- calls _ (let '(_, _) := ?x in _) => destruct x
  | |- calls _ (match ?x with _ => _ end) => destruct x eqn:?
  | |- calls _ (if ?x then _ else _) => destruct x eqn:?
  end.

Lemma writeState_quiet s : calls quiet (writeState s).
Proof.
  unfold writeState, WriteStateOnce. generalize false as u. revert s.
  induction writeAttempts as [|n IH]; intros s u; cbn [write_once_loop]; [done|].
  repeat calls_step; auto.
Qed.

Lemma setLatch_quiet r s : calls quiet (setLatch r s).
Proof. unfold setLatch. repeat calls_step. Qed.

Lemma countFailure_quiet s : calls quiet (countFailure s).
Proof. unfold countFailure. repeat calls_step. apply setLatch_quiet. Qed.

Lemma commit_quiet s f : (∀ s, calls quiet (f s)) → calls quiet (commit s f).
Proof. intros Hf. unfold commit. repeat calls_step; auto using writeState_quiet. Qed.

Lemma failedLogin_quiet s t c d : calls quiet (failedLogin s t c d).
Proof.
  unfold failedLogin. repeat calls_step.
  apply commit_quiet. intros. apply countFailure_quiet.
Qed.

Lemma loginFailed_quiet s t e : calls quiet (loginFailed s t e).
Proof.
  unfold loginFailed. repeat calls_step; auto using failedLogin_quiet.
  all: apply commit_quiet; intros; try done; apply setLatch_quiet.
Qed.

Lemma calls_mono {A} (P Q : op → Prop) (p : prog A) :
  (∀ o, P o → Q o) → calls P p → calls Q p.
Proof. intros HPQ. induction p as [a|o k IH]; simpl; naive_solver. Qed.

Lemma confirm_no_login s : calls no_login (confirm s).
Proof.
  unfold confirm. generalize (mkProbe ProbeUnknown "").
  induction confirmAttempts as [|n IH]; intros p; cbn [confirm_loop]; [done|].
  repeat calls_step; auto.
Qed.

Lemma retry_write_no_login n e p : calls no_login p → calls no_login (retry_write n e p).
Proof. intros. unfold retry_write. by repeat calls_step. Qed.

Lemma write_rechecked_no_login n f c : calls no_login (write_rechecked n f c).
Proof.
  induction n as [|n IH]; [done|]. cbn [write_rechecked].
  repeat calls_step; auto using retry_write_no_login.
Qed.

Lemma writeSession_no_login s f c : calls no_login (writeSession s f c).
Proof.
  unfold writeSession. induction writeAttempts as [|n IH]; [done|]. cbn [write_loop].
  repeat calls_step; auto using retry_write_no_login, write_rechecked_no_login.
Qed.

Lemma withSession_no_login u o s t v w : calls no_login (withSession u o s t v w).
Proof. unfold withSession. repeat calls_step; auto using writeSession_no_login. Qed.

(** ** The record is in the store before a login *)

Lemma elem_of_snoc_event (h : history) e : e ∈ h ++ [e].
Proof. apply elem_of_app. right. by apply list_elem_of_singleton. Qed.

Lemma writeState_shown s h :
  post (writeState s) h (λ h' r,
    r.1 = None → ∃ v, r.2 = set_Version v s ∧ shown_stored h' s).
Proof.
  unfold writeState, WriteStateOnce, writeAttempts. generalize false as u.
  assert (Hloop : ∀ n u h, post (write_once_loop readState (λ s, call (OWriteState s : op))
            (sleep writeDelay) (S n) u s) h
            (λ h' r, r.1 = None → ∃ v, r.2 = set_Version v s ∧ shown_stored h' s)).
  2: { intros u. apply Hloop. }
  clear h. induction n as [|n IH]; intros u h; cbn [write_once_loop]; apply post_bind.
  all: intros [v|e]; cbn [post].
  1, 3: intros _; exists v; split; [done|]; eexists; split; [apply elem_of_snoc_event|];
        left; by exists v.
  all: destruct (IsCASMismatch (Some e)); [|destruct (IsClientError (Some e)); [done|]].
  1, 3: destruct u; [|done]; apply post_bind; intros [stored|e']; cbn [post]; [|done];
        destruct (SameRecord stored (Some s)) eqn:Hs; cbn [post]; [|done]; intros _;
        exists (from_option Version 0 stored); split; [done|];
        eexists; split; [apply elem_of_snoc_event|]; right; by exists stored.
  - done.
  - apply post_bind. intros [|]; cbn [post]; [|done]. exact (IH true _).
Qed.

Lemma login_loop_disciplined n first lerr s v loggedInAt h started e0 :
  disciplined h → shown_stored h s → session_dead h → none_submitted h →
  e0 ∈ h → now_of e0 = Some started → AttemptStartedAt s = started →
  post (login_loop n first lerr (set_Version v s) loggedInAt) h (λ h' _,
    disciplined h' ∧ (logins h' ≤ logins h + n)%nat).
Proof.
  intros Hd Hs Hdead Hnone He0 Hstart Hatt.
  revert first lerr h Hd Hs Hdead Hnone He0.
  induction n as [|n IH]; intros first lerr h Hd Hs Hdead Hnone He0; [split; [done|lia]|].
  cbn [login_loop]. apply post_bind.
  apply (post_mono _ _ (λ h' _, ∃ l, h' = h ++ l ∧ Forall (λ e, quiet (ev_op e)) l)).
  2: { apply post_calls. by destruct first. }
  intros h1 awake (l & -> & Hl).
  assert (Hq : ∀ l', Forall (λ e, quiet (ev_op e)) l' →
    disciplined (h ++ l') ∧ logins (h ++ l') = logins h ∧ session_dead (h ++ l') ∧
    none_submitted (h ++ l') ∧ shown_stored (h ++ l') s ∧ e0 ∈ h ++ l').
  { intros l' Hl'. pose proof (Forall_no_login _ Hl').
    destruct (disciplined_app h l'); [done..|].
    split_and!; auto using session_dead_app, none_submitted_app, shown_stored_app.
    apply elem_of_app; by left. }
  destruct awake; cbn [negb post]; [|destruct (Hq l) as (? & ? & _); [done|split; [done|lia]]].
  apply post_bind. intros t. cbn [post ans op].
  rewrite <- app_assoc.
  destruct (Hq (l ++ [@Event broker_sig ONow t])) as (Hd1 & Hc1 & Hdead1 & Hnone1 & Hs1 & He1).
  { apply Forall_app. split; [done|]. by repeat constructor. }
  destruct (gate t (set_Version v s) loggedInAt) as [held|] eqn:Hg.
  { destruct lerr; cbn [post]; (split; [done|lia]). }
  apply post_bind. intros r. cbn [post].
  assert (Hgate : gate_opened (h ++ l ++ [@Event broker_sig ONow t])).
  { rewrite app_assoc. exists (h ++ l), (@Event broker_sig ONow t), t, s, v, loggedInAt.
    destruct (Hq l Hl) as (_ & _ & _ & _ & Hs' & He').
    split_and!; try done. by exists e0, started. }
  assert (Hd2 : disciplined ((h ++ l ++ [@Event broker_sig ONow t])
                  ++ [@Event broker_sig (OLogin (headroom b)) r])).
  { apply disciplined_snoc; [done|]. intros t' r' [= <- <-]. done. }
  assert (Hc2 : logins ((h ++ l ++ [@Event broker_sig ONow t])
                  ++ [@Event broker_sig (OLogin (headroom b)) r]) = S (logins h)).
  { rewrite logins_app, Hc1. unfold logins. simpl. lia. }
  destruct r as [sess|e]; cbn [post]; [split; [done|lia]|].
  destruct (Kind (asLoginError e)) eqn:Hk; cbn [post]; try (split; [done|lia]).
  eapply post_mono; [|apply IH]; try done.
  - intros h' _ [? Hle]. split; [done|]. lia.
  - by apply shown_stored_app.
  - intros e' s' p' [He'|He'%list_elem_of_singleton]%elem_of_app Hp'; [by eapply Hdead1|].
    by rewrite He' in Hp'.
  - intros e' t' r' [He'|He'%list_elem_of_singleton]%elem_of_app Hl'; [by eapply Hnone1|].
    rewrite He' in Hl'. injection Hl' as <- <-. by exists e.
  - apply elem_of_app. by left.
Qed.

(** ** A whole refresh *)

Lemma post_quiet {A} (p : prog A) (h : history) Q :
  calls quiet p →
  (∀ l a, Forall (λ e, quiet (ev_op e)) l → Q (h ++ l) a) → post p h Q.
Proof.
  intros Hp HQ. eapply post_mono; [|by apply post_calls].
  intros h' a (l & -> & Hl). by apply HQ.
Qed.

(** Before the login: none was made and the session is dead. *)
Definition clear (h : history) : Prop := logins h = 0%nat ∧ session_dead h.

Lemma logins_none h l :
  logins h = 0%nat → Forall (λ e, no_login (ev_op e)) l → logins (h ++ l) = 0%nat.
Proof.
  intros Hh Hl. rewrite logins_app, Hh. unfold logins.
  induction Hl as [|e l He _ IH]; [done|]. simpl.
  unfold is_login at 1. by rewrite (no_login_event e He).
Qed.

Lemma no_logins_event h e t r :
  logins h = 0%nat → e ∈ h → login_of e = Some (t, r) → False.
Proof.
  intros Hh He Hl. unfold logins in Hh. apply nil_length_inv in Hh.
  assert (Hin : In e (List.filter is_login h)).
  { apply filter_In. split; [by apply list_elem_of_In|]. unfold is_login. by rewrite Hl. }
  by rewrite Hh in Hin.
Qed.

Lemma no_logins_disciplined h : logins h = 0%nat → disciplined h ∧ none_submitted h.
Proof.
  intros Hh. split.
  - intros h1 e h2 t r -> Hl. exfalso. eapply (no_logins_event _ e); [done| |done].
    apply elem_of_app. right. by left.
  - intros e t r He Hl. exfalso. by eapply no_logins_event.
Qed.

Lemma clear_quiet h l : clear h → Forall (λ e, quiet (ev_op e)) l → clear (h ++ l).
Proof.
  intros [Hc Hdead] Hl.
  split; [by apply logins_none, Forall_no_login|by apply session_dead_app].
Qed.

Lemma clear_ev h (o : broker_op) (r : broker_ans o) :
  clear h → quiet o → clear (h ++ [@Event broker_sig o r]).
Proof. intros Hh Ho. apply clear_quiet; [done|]. by repeat constructor. Qed.

Lemma tail_calls {A} (p : prog A) : calls quiet p → calls no_login p.
Proof. apply calls_mono, quiet_no_login. Qed.

Lemma finish_login_no_login u t v st l : calls no_login (finish_login u t v st l).
Proof.
  destruct l as [[[sess|] [le|]] [held|]]; cbn [finish_login].
  all: repeat calls_step; eauto using tail_calls, commit_quiet, loginFailed_quiet,
    failedLogin_quiet, confirm_no_login, withSession_no_login.
  all: apply tail_calls, commit_quiet; done.
Qed.

(** The rule for whole refreshes: a property of histories that holds of
    every history without a login, of what a login begun from a clear
    history leads to, and that closing the store keeps. *)
Section every_refresh.
Context (Q : history → Prop).
Context (Q_none : ∀ h, logins h = 0%nat → Q h).
Context (Q_login : ∀ u st fp lia_ v h,
  clear h → post (record_and_login u st fp lia_ v) h (λ h' _, Q h')).
Context (Q_close : ∀ h, Q h → Q (h ++ [@Event broker_sig OClose ()])).

Abbreviation ok := (λ h' _, Q h').

Lemma clear_done h : clear h → Q h.
Proof. intros [? _]. by apply Q_none. Qed.

Lemma post_none {A} (p : prog A) h :
  calls no_login p → logins h = 0%nat → post p h ok.
Proof.
  intros Hp Hh. eapply post_mono; [|by apply post_calls].
  intros h' a (l & -> & Hl). by apply Q_none, logins_none.
Qed.

Lemma make_login_ok u st fp lia_ v h : clear h → post (make_login u st fp lia_ v) h ok.
Proof.
  intros Hh. unfold make_login. apply post_bind. intros can. cbn [post].
  apply (clear_ev _ OCanWrite can) in Hh; [|done].
  destruct can as [[|]|]; [by apply Q_login|by apply clear_done|by apply Q_login].
Qed.

Lemma no_session_ok u st fp t v h : clear h → post (no_session u st fp t v) h ok.
Proof.
  intros Hh. unfold no_session. apply post_bind. intros nw. cbn [post].
  apply (clear_ev _ ONow nw) in Hh; [|done].
  destruct (gate nw st t); [by apply clear_done|by apply make_login_ok].
Qed.

Lemma stored_session_ok u rq nw st fp h : clear h → post (stored_session u rq nw st fp) h ok.
Proof.
  intros Hh. unfold stored_session. apply post_bind. intros [[[fields t] v]|e]; cbn [post].
  all: eapply (clear_ev _ OReadFields) in Hh; [|done].
  2: { by apply clear_done. }
  destruct (usable_session u fields t) as [[[s|] t'] w]; [|by apply no_session_ok].
  destruct (_ && _ && _ && _); [apply post_none; [apply withSession_no_login|apply Hh]|].
  apply post_bind. intros p. cbn [post]. destruct Hh as [Hc Hdead].
  assert (Hc' : logins ((h ++ [@Event broker_sig OReadFields (Ok (fields, t, v))])
              ++ [@Event broker_sig (OProbe s) p]) = 0%nat).
  { apply logins_none; [done|]. by repeat constructor. }
  destruct (PState p) eqn:Hp.
  - by apply Q_none.
  - apply post_none; [apply withSession_no_login|done].
  - apply no_session_ok. split; [done|].
    intros e s' p' [He|He%list_elem_of_singleton]%elem_of_app Hp'; [by eapply Hdead|].
    rewrite He in Hp'. by injection Hp' as <- <-.
Qed.

Lemma check_latch_ok u rq nw st fp h : clear h → post (check_latch u rq nw st fp) h ok.
Proof.
  intros Hh. unfold check_latch. repeat case_match; try by apply stored_session_ok.
  by apply clear_done.
Qed.

Lemma with_record_ok u rq st h : clear h → post (with_record u rq st) h ok.
Proof.
  intros Hh. unfold with_record. apply post_bind. intros nw. cbn [post].
  apply (clear_ev _ ONow nw) in Hh; [|done].
  destruct (AttemptInProgress st nw); [by apply clear_done|].
  destruct (negb (is_zero (AttemptStartedAt st))); [|by apply check_latch_ok].
  apply post_bind, post_quiet; [apply countFailure_quiet|]. intros l s Hl.
  apply post_bind, post_quiet; [apply writeState_quiet|]. intros l' [err s'] Hl'.
  assert (clear (((h ++ [@Event broker_sig ONow nw]) ++ l) ++ l')) by auto using clear_quiet.
  destruct err; [by apply clear_done|by apply check_latch_ok].
Qed.

Lemma refresh_open_ok u rq h : clear h → post (refresh_open u rq) h ok.
Proof.
  intros Hh. unfold refresh_open. apply post_bind. intros [st|e]; cbn [post].
  all: eapply (clear_ev _ OReadState) in Hh; [|done].
  2: by apply clear_done.
  destruct (String.eqb _ _); [|by apply with_record_ok].
  apply post_bind. intros [s|e]; cbn [post]; eapply (clear_ev _ ONewSalt) in Hh; try done.
  2: by apply clear_done.
  destruct (String.eqb s ""); [by apply clear_done|by apply with_record_ok].
Qed.

Lemma refresh_ok u rq : post (refresh u rq) [] ok.
Proof.
  assert (Hh : clear []).
  { split; [done|]. intros e s p He. by apply elem_of_nil in He. }
  unfold refresh. apply post_bind. intros [c|e]; cbn [post].
  all: eapply (clear_ev _ OConnect) in Hh; [|done].
  2: by apply clear_done.
  apply post_bind. eapply post_mono; [|by apply refresh_open_ok].
  intros h' r Hq. cbn [post call bind]. intros []. by apply Q_close.
Qed.

Lemma every_refresh env u rq : Q (run env [] (refresh u rq)).1.
Proof. pose proof (post_run _ _ _ (refresh_ok u rq) env). by destruct (run _ _ _). Qed.
End every_refresh.

(** ** The policy of a login *)

Lemma record_and_login_disciplined u st fp lia_ v h :
  clear h → post (record_and_login u st fp lia_ v) h
    (λ h' _, disciplined h' ∧ (logins h' ≤ 2)%nat).
Proof.
  intros Hh. unfold record_and_login. apply post_bind. intros started. cbn [post].
  apply (clear_ev _ ONow started) in Hh; [|done].
  set (h1 := h ++ _) in *. set (s1 := set_AttemptStartedAt started _).
  apply post_bind. eapply post_mono.
  2: { apply post_and; [apply (writeState_shown s1 h1)|apply (post_calls quiet), writeState_quiet]. }
  intros h2 [err state] [Hshown (l & -> & Hl)]. cbn [fst snd] in Hshown.
  destruct (clear_quiet h1 l Hh Hl) as [Hc Hdead].
  destruct (no_logins_disciplined _ Hc) as [Hd Hnone].
  destruct err as [e|]; [cbn [post]; rewrite Hc; split; [done|lia]|].
  destruct (Hshown eq_refl) as (v' & -> & Hst).
  apply post_bind. unfold login. eapply post_mono.
  2: { eapply (login_loop_disciplined maxLoginAttempts true None s1 v' lia_ (h1 ++ l) started
         (@Event broker_sig ONow started)); try done.
       apply elem_of_app; left. apply elem_of_snoc_event. }
  intros h3 r [Hd3 Hc3]. rewrite Hc in Hc3. change (0 + maxLoginAttempts)%nat with 2%nat in Hc3.
  eapply post_mono; [|apply post_calls, finish_login_no_login]. intros h4 a (l' & -> & Hl').
  destruct (disciplined_app h3 l' Hd3 Hl') as [? ->]. done.
Qed.

(** C11. Login policy.  Whatever the store, the clock and the site answer,
    one refresh calls the driver's Login at most twice, each call cancelled
    after the login headroom, and before every call: the clock was read
    last, and at that time the gate (blackout, minimum interval, cooldown,
    daily budget) is open for the record as it is known to be stored, with
    the marker of this attempt in it; every probe of the stored session
    said it is dead; and every earlier login of the refresh failed before
    the credentials were submitted. *)
Theorem refresh_login_policy env unsaved req :
  let '(h, _) := run env [] (refresh unsaved req) in
  disciplined h ∧ (logins h ≤ 2)%nat.
Proof.
  enough (H : disciplined (run env [] (refresh unsaved req)).1 ∧
              (logins (run env [] (refresh unsaved req)).1 ≤ 2)%nat).
  { by destruct (run env [] (refresh unsaved req)). }
  apply (every_refresh (λ h, disciplined h ∧ (logins h ≤ 2)%nat)).
  - intros h Hh. rewrite Hh. split; [by apply no_logins_disciplined|lia].
  - intros. by apply record_and_login_disciplined.
  - intros h [Hd Hc]. destruct (disciplined_app h [@Event broker_sig OClose ()] Hd) as [? ->];
      [by repeat constructor|done].
Qed.

(** ** The session of an answer *)

Definition confirmed (h : history) (s : Session) : Prop :=
  ∃ e p, e ∈ h ∧ probe_of e = Some (s, p) ∧ PState p = ProbeAlive.
Definition logged_in (h : history) (s : Session) : Prop :=
  ∃ e t, e ∈ h ∧ login_of e = Some (t, Ok (Some s)).

(** The answer carries [s]. *)
Definition carries (r : Response) (o : Outcome) (s : Session) : Prop :=
  ROutcome r = o ∧ RFingerprint r = ShortFingerprint (Fingerprint s).

(** Where the session of an answer comes from. *)
Definition provenance (req : Request) (h : history) (r : Response) : Prop :=
  RSession r ≠ None →
  ∃ s, (carries r OutcomeRefreshed s ∧ logged_in h s ∧ confirmed h s) ∨
       (carries r OutcomeCurrent s ∧ logins h = 0%nat ∧
        (confirmed h s ∨ ShortFingerprint (Fingerprint s) ≠ ReqFingerprint req)).

Lemma provenance_none req h r : RSession r = None → provenance req h r.
Proof. by intros E H. Qed.

Lemma confirmed_app h l s : confirmed h s → confirmed (h ++ l) s.
Proof. intros (e & p & He & H). exists e, p. split; [|done]. apply elem_of_app. by left. Qed.
Lemma logged_in_app h l s : logged_in h s → logged_in (h ++ l) s.
Proof. intros (e & p & He & H). exists e, p. split; [|done]. apply elem_of_app. by left. Qed.

Lemma post_result {A B} (p : prog A) (f : A → prog B) (h : history) (Q : B → Prop) :
  (∀ h a, post (f a) h (λ _ b, Q b)) → post (bind p f) h (λ _ b, Q b).
Proof.
  intros Hf. apply post_bind. revert h. induction p as [a|o k IH]; intros h; simpl; auto.
Qed.

Lemma gate_no_session t st lia_ r : gate t st lia_ = Some r → RSession r = None.
Proof. unfold gate. intros H. repeat case_match; simplify_eq/=; done. Qed.

Lemma failedLogin_no_session st t c d h :
  post (failedLogin st t c d) h (λ _ r, RSession r = None).
Proof. unfold failedLogin. apply post_result. intros h' [? s]. simpl. by destruct (Blocked s). Qed.

Lemma loginFailed_no_session st t e h :
  post (loginFailed st t e) h (λ _ r, RSession r = None).
Proof.
  unfold loginFailed. destruct (Kind e).
  - apply failedLogin_no_session.
  - apply post_result. intros h' t'. by apply post_result.
  - by apply post_result.
Qed.

Lemma confirm_loop_confirmed n s p0 h :
  PState p0 ≠ ProbeAlive →
  post (confirm_loop n s p0) h (λ h' p, PState p = ProbeAlive → confirmed h' s).
Proof.
  revert p0 h. induction n as [|n IH]; intros p0 h Hp0; [cbn; congruence|].
  cbn [confirm_loop]. apply post_bind. intros p. cbn [post].
  destruct (PState p) eqn:Hp.
  - destruct n; cbn [post]; [congruence|]. apply post_bind. intros [|]; cbn [post]; [|congruence].
    apply (IH p). congruence.
  - cbn [post]. intros _. eexists _, p. split; [apply elem_of_snoc_event|done].
  - cbn [post]. congruence.
Qed.

Lemma login_loop_logged_in n first lerr st lia_ h :
  post (login_loop n first lerr st lia_) h (λ h' r,
    ∀ s, r = (Some s, None, None) → logged_in h' s).
Proof.
  revert first lerr h. induction n as [|n IH]; intros first lerr h; [cbn; congruence|].
  cbn [login_loop]. apply post_bind.
  assert (Hk : ∀ h awake, post (if negb awake then Ret (None, lerr, None) else
      let! t := now in
      match gate t st lia_ with
      | Some held =>
          match lerr with Some _ => Ret (None, lerr, None) | None => Ret (None, None, Some held) end
      | None =>
          let! r := call (OLogin (headroom b) : op) in
          match r with
          | Ok s => Ret (s, None, None)
          | Err e =>
              match Kind (asLoginError e) with
              | LoginNotSubmitted => login_loop n false (Some (asLoginError e)) st lia_
              | _ => Ret (None, Some (asLoginError e), None)
              end
          end
      end) h (λ h' r, ∀ s, r = (Some s, None, None) → logged_in h' s)).
  2: { eapply post_mono; [|apply post_extends]. intros h' awake _. apply Hk. }
  clear h. intros h [|]; cbn [negb post]; [|done]. apply post_bind. intros t. cbn [post].
  destruct (gate t st lia_); [by destruct lerr|].
  apply post_bind. intros [so|e]; cbn [post].
  - intros s [= ->]. eexists _, _. split; [apply elem_of_snoc_event|done].
  - destruct (Kind (asLoginError e)); cbn [post]; try congruence. apply IH.
Qed.

Lemma withSession_provenance u o s t v w h :
  post (withSession u o s t v w) h (λ h' r,
    (∃ l, h' = h ++ l ∧ Forall (λ e, no_login (ev_op e)) l) ∧
    (RSession r.1 ≠ None → carries r.1 o s)).
Proof.
  apply post_and; [apply post_calls, withSession_no_login|].
  unfold withSession. destruct (Encode s t) as [f|]; [|done].
  destruct (decide (f = ∅)); [done|].
  destruct w; cbn [negb]; [|done]. apply post_bind.
  eapply post_mono; [|apply post_extends].
  intros h' [[|e]|] _; cbn [post fst]; done.
Qed.

Lemma finish_login_provenance u rq t v st l h :
  (∀ s, l = (Some s, None, None) → logged_in h s) →
  (∀ r, l.2 = Some r → RSession r = None) →
  post (finish_login u t v st l) h (λ h' r, provenance rq h' r.1).
Proof.
  intros Hin Hheld. unfold finish_login.
  assert (Hnone : ∀ (p : prog Response), (∀ h, post p h (λ _ r, RSession r = None)) →
    ∀ h, post (let! r := p in Ret (r, u)) h (λ h' r, provenance rq h' r.1)).
  { intros p Hp h0. apply post_bind. eapply post_mono; [|apply Hp].
    intros h' r Hr. by apply provenance_none. }
  destruct l as [[[sess|] [le|]] [held|]].
  1, 3, 5, 7: apply post_bind; eapply post_mono; [|apply post_extends];
    intros; apply provenance_none; by apply Hheld.
  - apply Hnone. intros. apply loginFailed_no_session.
  - apply post_bind. eapply post_mono.
    2: { apply post_and; [apply post_extends|].
         by apply (confirm_loop_confirmed confirmAttempts sess (mkProbe ProbeUnknown "") h). }
    intros h1 p [[l ->] Hconf]. pose proof (logged_in_app h l sess (Hin _ eq_refl)) as Hli.
    destruct (PState p) eqn:Hp; [apply Hnone; intros; apply failedLogin_no_session| |
      apply Hnone; intros; apply failedLogin_no_session].
    specialize (Hconf eq_refl).
    apply post_bind. intros t'. cbn [post]. apply post_bind.
    eapply post_mono; [|apply post_extends]. intros h2 ? [l2 ->].
    eapply post_mono; [|apply withSession_provenance].
    intros h3 r [(l3 & -> & _) Hr] Hs. exists sess. left. split_and!; [by apply Hr|..].
    + rewrite <- !app_assoc, app_assoc. by apply logged_in_app.
    + rewrite <- !app_assoc, app_assoc. by apply confirmed_app.
  - apply Hnone. intros. apply loginFailed_no_session.
  - apply Hnone. intros. apply failedLogin_no_session.
Qed.

Lemma login_loop_held n first lerr st lia_ h :
  post (login_loop n first lerr st lia_) h (λ _ r, ∀ x, r.2 = Some x → RSession x = None).
Proof.
  revert first lerr h. induction n as [|n IH]; intros first lerr h; [cbn; congruence|].
  cbn [login_loop]. apply post_result. intros h1 [|]; cbn [negb post]; [|cbn; congruence].
  apply post_result. intros h2 t.
  destruct (gate t st lia_) as [held|] eqn:Hg.
  { destruct lerr; cbn; [congruence|]. intros x [= <-]. by eapply gate_no_session. }
  apply post_result. intros h3 [so|e]; [cbn; congruence|].
  destruct (Kind (asLoginError e)); [cbn; congruence|apply IH|cbn; congruence].
Qed.

Lemma make_login_provenance u rq st fp lia_ v h :
  post (make_login u st fp lia_ v) h (λ h' r, provenance rq h' r.1).
Proof.
  unfold make_login. apply post_bind. intros can. cbn [post].
  assert (Hgo : ∀ h, post (record_and_login u st fp lia_ v) h (λ h' r, provenance rq h' r.1)).
  { clear. intros h. unfold record_and_login. apply post_bind. intros t. cbn [post].
    apply post_bind. eapply post_mono; [|apply post_extends]. intros h1 [[e|] s] _; cbn [post].
    { apply provenance_none. unfold recordFailure. by case_match. }
    apply post_bind. eapply post_mono.
    2: { apply post_and; [apply login_loop_logged_in|apply login_loop_held]. }
    intros h2 l [Hin Hheld]. by apply finish_login_provenance. }
  destruct can as [[|]|]; [apply Hgo|by apply provenance_none|apply Hgo].
Qed.

Lemma no_session_provenance u rq st fp t v h :
  post (no_session u st fp t v) h (λ h' r, provenance rq h' r.1).
Proof.
  unfold no_session. apply post_bind. intros nw. cbn [post].
  destruct (gate nw st t) eqn:Hg; [|apply make_login_provenance].
  apply provenance_none. by eapply gate_no_session.
Qed.

Lemma withSession_current u rq s t v w h :
  logins h = 0%nat →
  confirmed h s ∨ ShortFingerprint (Fingerprint s) ≠ ReqFingerprint rq →
  post (withSession u OutcomeCurrent s t v w) h (λ h' r, provenance rq h' r.1).
Proof.
  intros Hl Hs. eapply post_mono; [|apply withSession_provenance].
  intros h' r [(l & -> & Hno) Hr] Hne. exists s. right.
  split_and!; [by apply Hr|by apply logins_none|].
  destruct Hs as [Hc|]; [left; by apply confirmed_app|by right].
Qed.

Lemma stored_session_provenance u rq nw st fp h :
  logins h = 0%nat →
  post (stored_session u rq nw st fp) h (λ h' r, provenance rq h' r.1).
Proof.
  intros Hh. unfold stored_session. apply post_bind. intros [[[fields t] v]|e]; cbn [post].
  2: by apply provenance_none.
  destruct (usable_session u fields t) as [[[s|] t'] w]; [|apply no_session_provenance].
  assert (Hl : ∀ (o : broker_op) (r : broker_ans o), no_login o → ∀ h, logins h = 0%nat →
    logins (h ++ [@Event broker_sig o r]) = 0%nat).
  { intros o r Ho h0 Hh0. apply logins_none; [done|]. by repeat constructor. }
  destruct (negb _ && _ && _ && _) eqn:Hrecent.
  { apply withSession_current; [by apply Hl|right]. intros E.
    rewrite E, String.eqb_refl in Hrecent. done. }
  apply post_bind. intros p. cbn [post]. destruct (PState p) eqn:Hp.
  - by apply provenance_none.
  - apply withSession_current; [by apply Hl, Hl|]. left.
    eexists _, p. split; [apply elem_of_snoc_event|done].
  - apply no_session_provenance.
Qed.

Lemma with_record_provenance u rq st h :
  logins h = 0%nat → post (with_record u rq st) h (λ h' r, provenance rq h' r.1).
Proof.
  intros Hh. unfold with_record. apply post_bind. intros nw. cbn [post].
  assert (Hlatch : ∀ s h, logins h = 0%nat →
    post (check_latch u rq nw s (CredentialFP (Salt st))) h (λ h' r, provenance rq h' r.1)).
  { intros s h0 H0. unfold check_latch. repeat case_match;
      try by apply stored_session_provenance. by apply provenance_none. }
  assert (H1 : logins (h ++ [@Event broker_sig ONow nw]) = 0%nat)
    by (apply logins_none; [done|by repeat constructor]).
  destruct (AttemptInProgress st nw); [by apply provenance_none|].
  destruct (negb _); [|by apply Hlatch].
  apply post_bind, post_quiet; [apply countFailure_quiet|]. intros l s Hl%Forall_no_login.
  apply post_bind, post_quiet; [apply writeState_quiet|]. intros l' [[e|] s'] Hl'%Forall_no_login.
  - apply provenance_none. unfold recordFailure. by case_match.
  - apply Hlatch. by apply logins_none; [apply logins_none|].
Qed.

Lemma refresh_provenance u rq :
  post (refresh u rq) [] (λ h r, provenance rq h r.1).
Proof.
  unfold refresh. apply post_bind. intros [c|e]; cbn [post]; [|by apply provenance_none].
  apply post_bind.
  apply (post_mono _ _ (λ h r, provenance rq h r.1)).
  { intros h r Hr. cbn [post call bind]. intros ? Hs.
    destruct (Hr Hs) as (s & [(?&?&?)|(?&?&Hc)]); exists s.
    - left. split_and!; [done|by apply logged_in_app|by apply confirmed_app].
    - right. split_and!; [done|apply logins_none; [done|by repeat constructor]|].
      destruct Hc; [left; by apply confirmed_app|by right]. }
  unfold refresh_open. apply post_bind. intros [st|e]; cbn [post]; [|by apply provenance_none].
  destruct (String.eqb _ _); [|by apply with_record_provenance].
  apply post_bind. intros [s|e]; cbn [post]; [|by apply provenance_none].
  destruct (String.eqb s ""); [by apply provenance_none|by apply with_record_provenance].
Qed.

(** A session is only ever answered when the site has accepted it.  An
    answer "refreshed" carries the session that a login of this very
    refresh produced and that a probe then found alive; an answer "current"
    comes from a refresh that made no login, and its session was probed
    alive, or it is a session younger than two minutes that is not the one
    the caller reports dead.  Every other answer carries no session. *)
Theorem refresh_session_accepted env unsaved req :
  let '(h, r) := run env [] (refresh unsaved req) in provenance req h r.1.
Proof.
  pose proof (post_run _ _ _ (refresh_provenance unsaved req) env) as H.
  by destruct (run env [] (refresh unsaved req)).
Qed.

End broker.
