(* ===== verification/BrokerPolicy.v ===== *)
(** internal/loginbroker: when the gate is open, what the latch stops, and
    what a login leaves in the record. *)
From S2P Require Import Prelude GoStrings GoTime Effects Dailywindow LoginVault BrokerTypes Broker.
Local Open Scope Z_scope.

(** ** The gate *)

Lemma last_login l r : (if after l r then l else r) = Z.max l r.
Proof. unfold after. destruct (Z.ltb_spec r l); lia. Qed.

Lemma sub_ltb_spec t u d :
  u ≤ t → d ≤ max_int64 → (sub t u <? d) = (t - u <? d).
Proof.
  intros Hu Hd. unfold sub. apply eq_true_iff_eq. rewrite !Z.ltb_lt.
  assert (min_int64 < 0) by done. lia.
Qed.

(** When a login may start at [t]. *)
Definition may_login (b : Broker) (t : Z) (st : State) (loggedInAt : Z) : Prop :=
  ¬ span_blocked (blackout b) t (headroom b) ∧
  (let last := Z.max loggedInAt (RequestLoginAt st) in
   last = zero_time ∨ last ≤ t - minInterval b) ∧
  CooldownUntil st ≤ t ∧
  LoginsOn st (DayOf t (Some (budgetLoc b))) < dailyBudget b.

(** The gate is exact.  With windows that Parse can return, it lets a
    login start at [t] exactly when no instant of the span
    [t, t + headroom] is in a window, the account's last known login is at
    least the minimum interval ago, the cooldown is over, and the record
    counts fewer logins on the local day of [t] than the daily budget. *)
Theorem gate_exact {Session} `{!Driver Session} b t st loggedInAt :
  Forall valid_set (blackout b) → 0 ≤ headroom b → 0 ≤ minInterval b ≤ max_int64 →
  gate b t st loggedInAt = None ↔ may_login b t st loggedInAt.
Proof.
  intros Hv Hh Hm. unfold gate, may_login.
  pose proof (Schedule_BlocksAt_spec (blackout b) t (headroom b) Hv Hh) as Hspec.
  rewrite last_login. set (last := Z.max _ _). cbv zeta.
  destruct (Schedule_BlocksAt _ _ _).
  { split; [done|]. intros [Hn _]. destruct Hn. by apply Hspec. }
  assert (Hnb : ¬ span_blocked (blackout b) t (headroom b)) by (intros H%Hspec; done).
  unfold is_zero, after, before.
  destruct (Z.eqb_spec last zero_time) as [El|El]; cbn [negb].
  2: destruct (Z.ltb_spec t last); [split; [done|intros (_ & [?|?] & _); [done|lia]]|].
  2: rewrite sub_ltb_spec by lia.
  2: destruct (Z.ltb_spec (t - last) (minInterval b));
     [split; [done|intros (_ & [?|?] & _); [done|lia]]|].
  all: destruct (Z.ltb_spec t (CooldownUntil st)); [split; [done|intros (_ & _ & ? & _); lia]|].
  all: destruct (Z.leb_spec (dailyBudget b) (LoginsOn st (DayOf t (Some (budgetLoc b)))));
    [split; [done|intros (_ & _ & _ & ?); lia]|].
  all: split; [intros _|done]; split_and!; try done; try lia.
Qed.

(** ** The latch *)

(** While the record is latched for the configured credentials, a
    refresh answers "latched" and does nothing else: it connects, reads the
    record and the clock, and closes the store; it does not log in, probe a
    session, or write. *)
Theorem latched_refresh_is_inert {Session} `{!Driver Session} b sha
    (env : environment (@broker_sig Session)) unsaved req st :
  (∀ h, env h (OConnect : @op broker_sig) = Ok ()) →
  (∀ h, env h (OReadState : @op broker_sig) = Ok (Some st)) →
  Salt st ≠ ""%string → Blocked st = true → AttemptStartedAt st = zero_time →
  CredentialFingerprint st = CredentialFP b sha (Salt st) →
  let '(h, r) := run env [] (refresh b sha unsaved req) in
  map ev_op h = [OConnect; OReadState; ONow; OClose] ∧
  r = (answer b OutcomeLatched (latchCode (BlockedReason st)) "", unsaved).
Proof.
  intros Hc Hr Hs Hb Ha Hf.
  unfold refresh. cbn [run call bind]. rewrite Hc. cbn [run call bind].
  unfold refresh_open, readState. cbn [run call bind app]. rewrite Hr. cbn [run bind default].
  change (id st) with st.
  destruct (String.eqb_spec (Salt st) ""); [done|].
  unfold with_record. cbn [run call bind]. unfold now, AttemptInProgress.
  cbn [run call bind]. rewrite Ha.
  change (is_zero zero_time) with true. cbn [negb].
  unfold check_latch. rewrite Hb, Hf, String.eqb_refl. cbn [run bind call]. done.
Qed.

(** ** What a login leaves in the record *)

Section recorded.
Context {Session : Type} `{!Driver Session}.
Context (b : Broker) (sha : string → string).
Local Open Scope prog_scope.
#[local] Opaque DayOf CountLogin LoginsOn.

Definition submitted (r : res login_err (option Session)) : Prop := ¬ not_submitted r.

(** What the record must say after a login, begun at [started] from the
    record [st], that the driver answered with [r]. *)
Definition counted (started : Z) (st : State) (r : res login_err (option Session)) (s' : State) : Prop :=
  let day := DayOf started (Some (budgetLoc b)) in
  LoginsOn s' day = LoginsOn st day + 1 ∧
  RequestLoginAt s' = started ∧ AttemptStartedAt s' = zero_time ∧
  match r with
  | Err e =>
      match Kind (asLoginError e) with
      | LoginRejected => Blocked s' = true ∧ BlockedReason s' = blockedCredentialsRejected
      | _ => UnconfirmedCount s' = UnconfirmedCount st + 1 ∧
             (maxFailures b ≤ UnconfirmedCount s' → Blocked s' = true)
      end
  | Ok None => UnconfirmedCount s' = UnconfirmedCount st + 1 ∧
             (maxFailures b ≤ UnconfirmedCount s' → Blocked s' = true)
  | Ok (Some _) => UnconfirmedCount s' = 0 ∨
             (UnconfirmedCount s' = UnconfirmedCount st + 1 ∧
              (maxFailures b ≤ UnconfirmedCount s' → Blocked s' = true))
  end.

Definition writes_with (P : State → Prop) (l : trace (@broker_sig Session)) : Prop :=
  ∃ e s' a, e ∈ l ∧ write_of e = Some (s', a) ∧ P s'.

Lemma writes_with_app P (l1 l2 : trace (@broker_sig Session)) :
  writes_with P l1 ∨ writes_with P l2 → writes_with P (l1 ++ l2).
Proof.
  intros [(e & s & a & He & H)|(e & s & a & He & H)]; exists e, s, a;
    split; try done; apply elem_of_app; auto.
Qed.

(** The tail that a program adds satisfies [Q]. *)
Abbreviation adds Q h := (λ h' _, ∃ l, h' = h ++ l ∧ Q l).

Lemma adds_bind {A B} (p : prog A) (f : A → prog B) (h : trace (@broker_sig Session)) P :
  post p h (adds (writes_with P) h) → post (bind p f) h (adds (writes_with P) h).
Proof.
  intros Hp. apply post_bind. eapply post_mono; [|exact Hp]. intros h1 a (l1 & -> & H1).
  eapply post_mono; [|apply post_extends]. intros h2 c [l2 ->]. exists (l1 ++ l2).
  rewrite app_assoc. split; [done|]. apply writes_with_app. by left.
Qed.

Lemma adds_later {A B} (p : prog A) (f : A → prog B) (h : trace (@broker_sig Session)) P (Q : A → Prop) :
  post p h (λ _ a, Q a) →
  (∀ h a, Q a → post (f a) h (adds (writes_with P) h)) →
  post (bind p f) h (adds (writes_with P) h).
Proof.
  intros Hp Hf. apply post_bind.
  eapply post_mono; [|apply post_and; [exact Hp|apply post_extends]].
  intros h1 a [Ha [l1 ->]]. eapply post_mono; [|by apply Hf]. intros h2 c (l2 & -> & H2).
  exists (l1 ++ l2). rewrite app_assoc. split; [done|]. apply writes_with_app. by right.
Qed.

Lemma writeState_writes (P : State → Prop) s h :
  P s → post (@writeState Session s) h (adds (writes_with P) h).
Proof.
  intros Hs. unfold writeState, WriteStateOnce, writeAttempts. cbn [write_once_loop].
  apply adds_bind. cbn [post call]. intros r. eexists. split; [done|].
  eexists _, s, r. split; [by apply list_elem_of_singleton|]. done.
Qed.

Lemma commit_writes (P : State → Prop) st f h :
  (∀ h, post (f st) h (λ _ s', P s')) → post (commit st f) h (adds (writes_with P) h).
Proof.
  intros Hf. unfold commit. apply (adds_later _ _ _ _ P); [apply Hf|].
  intros h' s' Hs'. apply adds_bind. by apply writeState_writes.
Qed.

Lemma countFailure_spec st (h : trace (@broker_sig Session)) :
  post (countFailure b st) h (λ _ s',
    UnconfirmedCount s' = UnconfirmedCount st + 1 ∧
    (maxFailures b ≤ UnconfirmedCount s' → Blocked s' = true) ∧
    LoginDay s' = LoginDay st ∧ LoginDayCount s' = LoginDayCount st ∧
    RequestLoginAt s' = RequestLoginAt st ∧ AttemptStartedAt s' = AttemptStartedAt st).
Proof.
  unfold countFailure.
  destruct (Z.leb_spec (maxFailures b) (UnconfirmedCount (set_UnconfirmedCount (UnconfirmedCount st + 1) st)));
    simpl in *.
  - destruct (Blocked st) eqn:Hb; simpl; [done|]. intros t. done.
  - split_and!; try done. lia.
Qed.

(** The mutations of the record, whatever the failure count becomes. *)
Lemma count_mutation st st0 st' day :
  LoginDay st' = LoginDay (CountLogin day st0) →
  LoginDayCount st' = LoginDayCount (CountLogin day st0) →
  LoginDay st0 = LoginDay st → LoginDayCount st0 = LoginDayCount st →
  LoginsOn st' day = LoginsOn st day + 1.
Proof.
  intros E1 E2 E3 E4. rewrite (LoginsOn_after_count day st0 st'), (LoginsOn_ext day st0 st); done.
Qed.

Lemma failed_mutation started st (h : trace (@broker_sig Session)) :
  post (countFailure b (CountLoginAt b started
          (set_RequestLoginAt started (set_AttemptStartedAt zero_time st)))) h
    (λ _ s', LoginsOn s' (DayOf started (Some (budgetLoc b))) =
               LoginsOn st (DayOf started (Some (budgetLoc b))) + 1 ∧
             RequestLoginAt s' = started ∧ AttemptStartedAt s' = zero_time ∧
             UnconfirmedCount s' = UnconfirmedCount st + 1 ∧
             (maxFailures b ≤ UnconfirmedCount s' → Blocked s' = true)).
Proof.
  eapply post_mono; [|apply countFailure_spec]. cbv beta.
  intros h' s' (H1 & H2 & H3 & H4 & H5 & H6). unfold CountLoginAt in *.
  set (st0 := set_RequestLoginAt _ _) in *.
  destruct (CountLogin_fields (DayOf started (Some (budgetLoc b))) st0) as (E1 & E2 & E3).
  rewrite H5, H6, E1, E2. rewrite E3 in H1. split_and!; try done.
  by eapply (count_mutation st st0).
Qed.

Lemma failedLogin_writes started st c d (h : trace (@broker_sig Session)) P :
  (∀ s', LoginsOn s' (DayOf started (Some (budgetLoc b))) =
           LoginsOn st (DayOf started (Some (budgetLoc b))) + 1 ∧
         RequestLoginAt s' = started ∧ AttemptStartedAt s' = zero_time ∧
         UnconfirmedCount s' = UnconfirmedCount st + 1 ∧
         (maxFailures b ≤ UnconfirmedCount s' → Blocked s' = true) → P s') →
  post (failedLogin b st started c d) h (adds (writes_with P) h).
Proof.
  intros HP. unfold failedLogin. apply adds_bind, commit_writes. intros h'.
  eapply post_mono; [|apply failed_mutation]. intros h'' s' H. by apply HP.
Qed.

Lemma loginFailed_writes started st e (h : trace (@broker_sig Session)) :
  submitted (Err e) →
  post (loginFailed b st started (asLoginError e)) h
    (adds (writes_with (counted started st (Err e))) h).
Proof.
  intros Hs. unfold loginFailed, counted. destruct (Kind (asLoginError e)) eqn:Hk.
  - apply failedLogin_writes. intros s' (?&?&?&?&?). done.
  - exfalso. apply Hs. by exists e.
  - apply adds_bind, commit_writes. intros h'. unfold setLatch. apply post_bind.
    intros t. cbn [post]. unfold CountLoginAt.
    set (st0 := set_RequestLoginAt _ _).
    destruct (CountLogin_fields (DayOf started (Some (budgetLoc b))) st0) as (E1 & E2 & E3).
    split_and!; try done. by eapply (count_mutation st st0).
Qed.

(** What login returns for the driver's last answer. *)
Definition login_result (r : res login_err (option Session))
    : option Session * option LoginError * option Response :=
  match r with
  | Ok s => (s, None, None)
  | Err e => (None, Some (asLoginError e), None)
  end.

Lemma confirm_any (s : Session) h : post (confirm s) h (λ _ _, True).
Proof. eapply post_mono; [|apply post_extends]. done. Qed.

Lemma finish_login_writes u started v st r (h : trace (@broker_sig Session)) :
  submitted r →
  post (finish_login b u started v st (login_result r)) h
    (adds (writes_with (counted started st r)) h).
Proof.
  intros Hs. destruct r as [[sess|]|e]; cbn [login_result finish_login].
  - eapply (adds_later _ _ _ _ (λ _, True)); [apply confirm_any|]. intros h' p _.
    destruct (PState p).
    2: { eapply (adds_later _ _ _ _ (λ _, True)); [done|]. intros h1 t _. apply adds_bind.
         apply commit_writes. intros h2. cbn [post]. unfold CountLoginAt, counted.
         set (st0 := set_CooldownUntil _ _).
         destruct (CountLogin_fields (DayOf started (Some (budgetLoc b))) st0) as (E1 & E2 & E3).
         rewrite E1, E2, E3. split_and!; try done; [|by left].
         by eapply (count_mutation st st0). }
    all: apply adds_bind, failedLogin_writes; intros s' (?&?&?&?&?); unfold counted;
      split_and!; try done; by right.
  - apply adds_bind, failedLogin_writes. intros s' (?&?&?&?&?). done.
  - by apply adds_bind, loginFailed_writes.
Qed.

(** Every login of the history that may have submitted the credentials is
    followed by a write of a record that counts it. *)
Definition recorded (h : trace (@broker_sig Session)) : Prop :=
  ∀ h1 e h2 t r, h = h1 ++ e :: h2 → login_of e = Some (t, r) → submitted r →
    ∃ started s,
      (∃ e', e' ∈ h1 ∧ now_of e' = Some started) ∧
      shown_stored h1 s ∧ AttemptStartedAt s = started ∧
      writes_with (counted started s r) h2.

Lemma none_submitted_recorded h : none_submitted h → recorded h.
Proof.
  intros Hn h1 e h2 t r -> He Hs. destruct Hs. eapply Hn; [|done].
  apply elem_of_app. right. by left.
Qed.

Lemma recorded_app h l :
  recorded h → Forall (λ e, no_login (ev_op e)) l → recorded (h ++ l).
Proof.
  intros Hh Hl h1 e h2 t r E He Hs.
  assert (∃ h3, h2 = h3 ++ l ∧ h = h1 ++ e :: h3) as (h3 & -> & E1).
  { revert h2 E Hh. induction l as [|e' l IH] using rev_ind; intros h2 E Hh.
    { exists h2. by rewrite !app_nil_r in *. }
    apply Forall_app in Hl as [Hl He']. apply Forall_cons in He' as [He' _].
    rewrite app_assoc in E. destruct h2 as [|e2 h2 _] using rev_ind.
    { apply app_inj_tail in E as [_ ->]. apply no_login_event in He'. congruence. }
    rewrite app_comm_cons, app_assoc in E. apply app_inj_tail in E as [E ->].
    destruct (IH Hl h2 E Hh) as (h3 & -> & ->). exists h3. by rewrite app_assoc. }
  destruct (Hh h1 e h3 t r E1 He Hs) as (started & s & H1 & H2 & H3 & H4).
  exists started, s. split_and!; try done. apply writes_with_app. by left.
Qed.

(** What login_loop leaves: no submission, or one as the last event. *)
Lemma login_loop_last n first lerr st lia_ h :
  none_submitted h →
  post (login_loop b n first lerr st lia_) h (λ h' l,
    none_submitted h' ∨
    ∃ h0 e t r, h' = (h ++ h0) ++ [e] ∧ none_submitted (h ++ h0) ∧
      login_of e = Some (t, r) ∧ submitted r ∧ l = login_result r).
Proof.
  revert first lerr h. induction n as [|n IH]; intros first lerr h Hn; [by left|].
  cbn [login_loop]. apply post_bind.
  apply (post_mono _ _ (λ h' _, ∃ l, h' = h ++ l ∧ Forall (λ e, quiet (ev_op e)) l)).
  2: { apply post_calls. by destruct first. }
  intros h1 awake (l & -> & Hl%Forall_no_login).
  destruct awake; cbn [negb post]; [|left; by apply none_submitted_app].
  apply post_bind. intros t. cbn [post]. rewrite <- app_assoc.
  set (h1 := l ++ [@Event broker_sig ONow t]).
  assert (Hn1 : none_submitted (h ++ h1)).
  { apply none_submitted_app; [done|]. apply Forall_app. split; [done|]. by repeat constructor. }
  destruct (gate b t st lia_); [destruct lerr; by left|].
  apply post_bind. intros r. cbn [post].
  assert (Hlast : submitted r → ∃ h0 e t0 r0,
    (h ++ h1) ++ [@Event broker_sig (OLogin (headroom b)) r] = (h ++ h0) ++ [e] ∧
    none_submitted (h ++ h0) ∧ login_of e = Some (t0, r0) ∧ submitted r0 ∧
    login_result r = login_result r0).
  { intros Hs. eexists h1, _, _, r. split_and!; done. }
  destruct r as [s|e]; [right; apply Hlast; by intros (e & [=] & _)|].
  destruct (Kind (asLoginError e)) eqn:Hk; cbn [post].
  1, 3: right; apply Hlast; intros (e' & [= <-] & ?); congruence.
  eapply post_mono; [|apply IH].
  - intros h' l' [?|(h0 & e0 & t0 & r0 & -> & ? & ? & ? & ?)]; [by left|right].
    exists (h1 ++ [@Event broker_sig (OLogin (headroom b)) (Err e)] ++ h0), e0, t0, r0.
    rewrite <- !app_assoc in *. done.
  - intros e' t' r' [He|He%list_elem_of_singleton]%elem_of_app Hr; [by eapply Hn1|].
    rewrite He in Hr. injection Hr as <- <-. by exists e.
Qed.

Lemma record_and_login_recorded u st fp lia_ v h :
  clear h → post (record_and_login b u st fp lia_ v) h (λ h' _, recorded h').
Proof.
  intros Hh. unfold record_and_login. apply post_bind. intros started. cbn [post].
  apply (clear_ev _ ONow started) in Hh; [|done].
  set (h1 := h ++ _) in *. set (s1 := set_AttemptStartedAt started _).
  apply post_bind. eapply post_mono.
  2: { apply post_and; [apply (writeState_shown s1 h1)|apply (post_calls quiet), writeState_quiet]. }
  intros h2 [err state] [Hshown (l & -> & Hl)]. cbn [fst snd] in Hshown.
  destruct (clear_quiet h1 l Hh Hl) as [Hc _].
  destruct (no_logins_disciplined b _ Hc) as [_ Hnone].
  destruct err as [e|]; [by apply none_submitted_recorded|].
  destruct (Hshown eq_refl) as (v' & -> & Hst). apply post_bind.
  eapply post_mono; [|by apply login_loop_last].
  intros h3 lg [Hn3|(h0 & e & t & r & -> & Hn0 & He & Hs & ->)].
  { eapply post_mono; [|apply post_calls, finish_login_no_login].
    intros h4 a (l' & -> & Hl'). by apply none_submitted_recorded, none_submitted_app. }
  eapply post_mono.
  2: { apply post_and; [by apply finish_login_writes|apply post_calls, finish_login_no_login]. }
  intros h4 a [(l' & -> & Hw) (l'' & E & Hl')]. apply app_inv_head in E as <-.
  intros k1 e1 k2 t1 r1 E He1 Hs1.
  apply app_cons_cases in E as [(-> & -> & ->)|[Hin|Hin]].
  2: { destruct Hs1. by eapply Hn0. }
  2: { rewrite Forall_forall in Hl'. apply Hl', no_login_event in Hin. congruence. }
  rewrite He in He1. injection He1 as <- <-.
  exists started, s1. split_and!.
  - exists (@Event broker_sig ONow started). split; [|done].
    apply elem_of_app; left. apply elem_of_app; left. apply elem_of_snoc_event.
  - by apply shown_stored_app.
  - done.
  - destruct Hw as (ew & s' & aw & ? & ? & Hcnt). by exists ew, s', aw.
Qed.

(** Every login counts.  Whatever the environment does, a login of a
    refresh that may have submitted the credentials is followed by an
    attempt to store a record that counts it: the local day's count is one
    more than in the record that carried this attempt's marker, the marker
    is cleared and the login's time set, a rejection latches the record, any
    other failure or unconfirmed session adds one to the failure count and
    latches when the count reaches the limit, and a confirmed session
    clears the failure count. *)
Theorem refresh_login_recorded env unsaved req :
  recorded (run env [] (refresh b sha unsaved req)).1.
Proof.
  apply (every_refresh b sha recorded).
  - intros h Hh. apply none_submitted_recorded. by apply (no_logins_disciplined b h Hh).
  - intros. by apply record_and_login_recorded.
  - intros h Hr. apply recorded_app; [done|]. by repeat constructor.
Qed.

End recorded.

(** * internal/loginbroker: a concrete driver, store and clock, the runs they
    give, and the witnesses of the broker's theorems. *)


(** A driver whose session is one token. *)
#[local] Instance demo_driver : Driver string := {
  Site := "demo";
  Encode s _ := Some {[ "token"%string := s ]};
  Decode f := f !! "token"%string;
  Fingerprint s := s;
  Constrained := None;
}.

Definition demo_config : Config :=
  mkConfig (mkCredentials "parent" "hunter_2") true [] 0 0 0 0 0 true.

Definition demo_broker : Broker :=
  mkBroker (mkCredentials "parent" "hunter_2") [] DefaultLoginHeadroom DefaultMinInterval
    DefaultMaxFailures CeilingDailyLogins UTC DefaultCooldown DefaultOpTimeout.

Example demo_New : New (Some demo_driver) demo_config = Ok demo_broker.
Proof. vm_compute. reflexivity. Qed.

(** An environment that keeps what it is given: the record and the session
    are stored at every write, the clock shows the instants of [script] in
    turn, every login succeeds, and the site accepts a session for one
    check only. *)
Section demo.
Context (script : list Z).

Definition count_events (f : event (@broker_sig string) → bool) (h : trace broker_sig) : nat :=
  length (List.filter f h).

Definition stored_state (h : trace (@broker_sig string)) : option State :=
  foldl (λ acc e, match write_of e with Some (s, Ok v) => Some (set_Version v s) | _ => acc end)
    None h.

Definition stored_fields (h : trace (@broker_sig string)) : gmap string string :=
  foldl (λ acc (e : event broker_sig), match (ev_op e : @broker_op string) with OWrite f _ => f | _ => acc end) ∅ h.

Definition is_now (e : event (@broker_sig string)) : bool :=
  match now_of e with Some _ => true | None => false end.
Definition is_write (e : event (@broker_sig string)) : bool :=
  match write_of e with Some _ => true | None => false end.

(** The time of the session that was stored last. *)
Definition stored_at (h : trace (@broker_sig string)) : Z :=
  (foldl (λ '(t, at_) (e : event broker_sig),
     match now_of e with
     | Some t' => (t', at_)
     | None => match (ev_op e : @broker_op string) with OWrite _ _ => (t, t) | _ => (t, at_) end
     end) (0, zero_time) h).2.

Definition alive (h : trace (@broker_sig string)) : bool :=
  foldl (λ acc (e : event broker_sig), match (ev_op e : @broker_op string) with OLogin _ => true | OProbe _ => false | _ => acc end) false h.

Definition demo_env : environment (@broker_sig string) := λ h o,
  match o with
  | OConnect => Ok ()
  | OClose => ()
  | OReadState => Ok (stored_state h)
  | OWriteState _ => Ok (Z.of_nat (count_events is_write h) + 1)
  | OReadFields => Ok (FString <$> stored_fields h, stored_at h, 0)
  | OCanWrite => Ok true
  | OWrite _ _ => Ok 1
  | ONow => nth (count_events is_now h) script 0
  | OSleep _ => true
  | ONewSalt => Ok "salt"%string
  | OProbe _ => mkProbe (if alive h then ProbeAlive else ProbeDead) ""
  | OLogin _ => Ok (Some ("session" +:+ pretty (count_events is_login h))%string)
  end.

Definition demo_sha (s : string) : string := s.

(** [n] refreshes one after another. *)
Fixpoint refreshes (n : nat) (unsaved : option (heldSession)) (h : trace (@broker_sig string))
    : trace (@broker_sig string) * list Outcome :=
  match n with
  | O => (h, [])
  | S n =>
      let '(h, (r, unsaved)) := run demo_env h (refresh demo_broker demo_sha unsaved (mkRequest "" "")) in
      let '(h, rs) := refreshes n unsaved h in
      (h, ROutcome r :: rs)
  end.
End demo.

(** The instant of the clock before each login. *)
Definition login_times (h : trace (@broker_sig string)) : list Z :=
  (foldl (λ '(t, acc) e,
     match now_of e with
     | Some t' => (t', acc)
     | None => if is_login e then (t, acc ++ [t]) else (t, acc)
     end) (0, []) h).2.

(** 2025-03-01T23:59:59Z. *)
Definition eve : Z := 1740873599 * second.

(** The clock of seven refreshes: the first begins a second before midnight
    and calls Login two seconds later; the others follow at half-hour
    intervals. *)
Definition midnight_script : list Z :=
  [eve; eve; eve; eve + 2 * second; eve + 30 * second]
  ++ concat ((λ k, repeat (eve + k * 30 * minute + minute) 5) <$> [1; 2; 3; 4; 5; 6]).

(** The ceiling of six logins in one local calendar day can be passed
    by one.  A login is counted on the day its attempt started, while the
    driver's Login is called later, after the marker is stored: when
    midnight falls between the two, the login is counted on the day before,
    and six more are let through on the day it was made. *)
Theorem seven_logins_in_one_day :
  dailyBudget demo_broker = CeilingDailyLogins ∧
  let '(h, rs) := refreshes midnight_script 7 None [] in
  (λ t, DayOf t (Some (budgetLoc demo_broker))) <$> login_times h
    = repeat "2025-03-02"%string 7 ∧
  rs = repeat OutcomeRefreshed 7.
Proof. vm_compute. auto. Qed.

(** ** Witnesses *)

Lemma new_keeps_bounds_witness :
  New (Some demo_driver) demo_config = Ok demo_broker ∧ broker_ok demo_broker.
Proof.
  assert (H : New (Some demo_driver) demo_config = Ok demo_broker) by (vm_compute; reflexivity).
  split; [exact H|]. apply (new_keeps_bounds (Some demo_driver) demo_config demo_broker H).
Defined.

Definition noon : Z := 1740830400 * second.

(** A broker with the evening windows of Dailywindow. *)
Definition evening_broker : Broker :=
  mkBroker (mkCredentials "parent" "hunter_2") [evening] DefaultLoginHeadroom DefaultMinInterval
    DefaultMaxFailures CeilingDailyLogins pacific DefaultCooldown DefaultOpTimeout.

Lemma gate_exact_witness : may_login evening_broker noon zero_state zero_time.
Proof.
  apply (gate_exact (Session := string) evening_broker noon zero_state zero_time).
  - apply Forall_singleton, evening_valid.
  - vm_compute. discriminate.
  - split; vm_compute; discriminate.
  - vm_compute. reflexivity.
Defined.

Definition latched_state : State :=
  set_latch true blockedCredentialsRejected noon
    (set_CredentialFingerprint (CredentialFP demo_broker demo_sha "salt") (set_Salt "salt" zero_state)).

Definition latched_env : environment (@broker_sig string) := λ h o,
  match o with
  | OReadState => Ok (Some latched_state)
  | o => demo_env [] h o
  end.

Lemma latched_refresh_is_inert_witness :
  let '(h, _) := run latched_env [] (refresh demo_broker demo_sha None (mkRequest "" "")) in
  map ev_op h = [OConnect; OReadState; ONow; OClose].
Proof.
  pose proof (latched_refresh_is_inert demo_broker demo_sha latched_env None (mkRequest "" "")
    latched_state) as H.
  destruct (run latched_env [] (refresh demo_broker demo_sha None (mkRequest "" ""))) as [h r].
  apply H; try reflexivity. discriminate.
Defined.
