(* ===== verification/JRecord.v ===== *)
(** internal/journal/record: names, scopes, fields and their hash, record
    types and the registry of their versions. *)
From S2P Require Import Prelude GoStrings StrOrder Utf8 JsonString.
Local Open Scope Z_scope.

(** ** Rejections (value.go)

    The status and the reason a sender's spool acts on; the detail is text
    for the operator and is left out. *)
Record Rejection := mkRejection { RStatus : Z; RReason : string }.

#[export] Instance Rejection_eq_dec : EqDecision Rejection.
Proof. solve_decision. Defined.

Definition ReasonSchema : string := "schema".
Definition ReasonTooLarge : string := "too_large".
Definition schemaErr : Rejection := mkRejection 422 ReasonSchema.
Definition tooLarge : Rejection := mkRejection 413 ReasonTooLarge.

(** ** Names *)

Definition name_start (a : ascii) : bool := within 97 122 (byte_of a).
Definition name_char (a : ascii) : bool :=
  name_start a || within 48 57 (byte_of a) || (byte_of a =? 95).

Fixpoint all_chars (f : ascii → bool) (s : string) : bool :=
  match s with EmptyString => true | String a r => f a && all_chars f r end.

(** A letter and up to [n] further characters. *)
Definition name_upto (n : nat) (s : string) : bool :=
  match s with
  | EmptyString => false
  | String a r => name_start a && all_chars name_char r && (String.length r <=? n)%nat
  end.

Definition ValidName (s : string) : bool := name_upto 63 s.
Definition ValidToken (s : string) : bool := name_upto 31 s.

(** ** Scopes (scope.go) *)

Definition PartSource : string := "source".
Definition PartSubject : string := "data_subject".
Definition MaxScopeParts : nat := 8.
Definition MaxScopeValueBytes : nat := 256.
Definition OwnerHousehold : string := "household".

Definition ScopePart := (string * string)%type.
Definition Scope := list ScopePart.

Definition suspicious (r : Z) : bool :=
  within 128 159 r || within 8234 8238 r || within 8294 8297 r
  || (r =? 8206) || (r =? 8207) || (r =? 1564) || (r =? 8203) || (r =? 65279)
  || (r =? 8232) || (r =? 8233).

(** A rune refused in stored keys. *)
Definition control (r : Z) : bool := (r <? 32) || (r =? 127) || suspicious r.

(** The checks of one part: its name, whether it is a repeat, the first
    part's name, the value. *)
Definition scope_part_ok (first : bool) (seen : list string) (p : ScopePart) : bool :=
  let '(name, value) := p in
  ValidName name && negb (existsb (String.eqb name) seen)
  && (negb first || String.eqb name PartSource)
  && negb (String.eqb value "") && (String.length value <=? MaxScopeValueBytes)%nat
  && valid (bytes_of_string value)
  && negb (existsb control (runes (bytes_of_string value))).

Fixpoint scope_parts_ok (first : bool) (seen : list string) (l : list ScopePart) : bool :=
  match l with
  | [] => true
  | p :: r => scope_part_ok first seen p && scope_parts_ok false (p.1 :: seen) r
  end.

Definition ParseScope (l : list ScopePart) : res Rejection Scope :=
  if (length l =? 0)%nat || (MaxScopeParts <? length l)%nat then Err schemaErr
  else if scope_parts_ok true [] l then Ok l else Err schemaErr.

(** The replacer of EscapeScopeValue, which goes through the value once. *)
Fixpoint EscapeScopeValue (s : string) : string :=
  match s with
  | EmptyString => EmptyString
  | String a r =>
      (if Ascii.eqb a "%" then "%25"
       else if Ascii.eqb a "/" then "%2F"
       else if Ascii.eqb a "=" then "%3D"
       else String a EmptyString) ++ EscapeScopeValue r
  end%string.

Definition canonical_part (p : ScopePart) : string :=
  (EscapeScopeValue p.1 ++ "=" ++ EscapeScopeValue p.2)%string.
Definition Canonical (s : Scope) : string := join "/" (canonical_part <$> s).

Fixpoint Get (name : string) (s : Scope) : option string :=
  match s with
  | [] => None
  | p :: r => if String.eqb p.1 name then Some p.2 else Get name r
  end.
Definition Source (s : Scope) : string := default "" (Get PartSource s).
Definition Subject (s : Scope) : string := default "" (Get PartSubject s).

Definition HouseholdScope (recordType subject : string) : string :=
  Canonical ([(PartSource, OwnerHousehold); ("record_type"%string, recordType)]
    ++ if String.eqb subject "" then [] else [(PartSubject, subject)]).

(** ** Fields (fields.go)

    A value is its canonical JSON text; a field that is null is absent. *)
Abbreviation Fields := (gmap string string).

Definition Keys (f : Fields) : list string := sorted_keys f.

Definition nul : string := String Ascii.zero EmptyString.

(** What Hash feeds to SHA-256. *)
Definition hash_input (f : Fields) : string :=
  String.concat "" ((λ k, k ++ nul ++ default "" (f !! k) ++ nul)%string <$> Keys f).

(** JSON: the fields as an object with sorted keys. *)
Definition encode_string (s : string) : string :=
  string_of_bytes (quote (bytes_of_string s)).
Definition Fields_JSON (f : Fields) : string :=
  ("{" ++ join "," ((λ k, encode_string k ++ ":" ++ default "" (f !! k)) <$> Keys f) ++ "}")%string.

(** ** Scan verdicts *)

Definition VerdictPass : string := "pass".
Definition VerdictError : string := "error".

Record ScanEntry := mkScanEntry { Verdict : string; ScannerVersion : string }.
Abbreviation ScanMap := (gmap string ScanEntry).
Record EventScan := mkEventScan { EOld : string; ENew : string; EScannerVersion : string }.

#[export] Instance ScanEntry_eq_dec : EqDecision ScanEntry.
Proof. solve_decision. Defined.
#[export] Instance EventScan_eq_dec : EqDecision EventScan.
Proof. solve_decision. Defined.

(** ** Types (types.go) *)

Inductive FieldType :=
| TString | TText | TInt | TNumber | TBool | TDate | TTimestamp | TStringList
| TUnknown (name : string).

#[export] Instance FieldType_eq_dec : EqDecision FieldType.
Proof. solve_decision. Defined.

Definition FieldType_Valid (t : FieldType) : bool :=
  match t with TUnknown _ => false | _ => true end.

Record FieldDef := mkFieldDef { FType : FieldType; FRequired : bool }.

Record Type_ := mkType {
  TName : string;
  SchemaVersion : Z;
  Owner : string;
  TFields : gmap string FieldDef;
  Renames : gmap string string;
  DefaultAudience : list string;
  FixedAudience : list string;
  AllowNoSubject : bool;
}.

Definition MaxAudienceTokens : nat := 16.

Definition Household (t : Type_) : bool := String.eqb (Owner t) OwnerHousehold.

Definition field_type (fs : gmap string FieldDef) (k : string) : option FieldType :=
  FType <$> fs !! k.
Definition IsText (t : Type_) (field : string) : bool :=
  bool_decide (field_type (TFields t) field = Some TText).

(** A condition on every entry of a map, and on some entry. *)
Definition map_all {A} (f : string → A → bool) (m : gmap string A) : bool :=
  forallb (λ '(k, v), f k v) (map_to_list m).

Definition declared {A} (m : gmap string A) (k : string) : bool := bool_decide (is_Some (m !! k)).

Definition distinct (l : list string) : bool := bool_decide (NoDup l).

(** The renames of a version: names, declared targets, sources no longer
    declared, no two onto one. *)
Definition renames_valid (t : Type_) : bool :=
  map_all (λ from to, ValidName from && declared (TFields t) to
                      && negb (declared (TFields t) from)) (Renames t)
  && distinct (map_to_list (Renames t)).*2.

Definition audience_valid (aud : list string) : bool :=
  (length aud <=? MaxAudienceTokens)%nat && forallb ValidToken aud && distinct aud.

Definition household_valid (t : Type_) : bool :=
  if Household t then
    negb (length (FixedAudience t) =? 0)%nat && (length (DefaultAudience t) =? 0)%nat
    && bool_decide (field_type (TFields t) "date" = Some TDate)
  else (length (FixedAudience t) =? 0)%nat.

(** Validate: whether it returns no error. *)
Definition Validate (t : Type_) : bool :=
  ValidName (TName t) && (1 <=? SchemaVersion t) && ValidName (Owner t)
  && negb (bool_decide (TFields t = ∅))
  && map_all (λ name def, ValidName name && FieldType_Valid (FType def)) (TFields t)
  && negb ((SchemaVersion t =? 1) && negb (bool_decide (Renames t = ∅)))
  && renames_valid t
  && audience_valid (DefaultAudience t) && audience_valid (FixedAudience t)
  && household_valid t.

(** The versions of one type, in order. *)
Definition version_le (a b : Type_) : Prop := SchemaVersion a ≤ SchemaVersion b.
#[export] Instance version_le_dec a b : Decision (version_le a b).
Proof. unfold version_le. apply _. Defined.

(** The previous version's name of a field: none when the name was renamed
    away and is declared again. *)
Definition rename_source (t : Type_) (field : string) : string :=
  match filter (λ p, p.2 = field) (map_to_list (Renames t)) with
  | (from, _) :: _ => from
  | [] => if declared (Renames t) field then "" else field
  end.

Definition required (fs : gmap string FieldDef) (k : string) : bool :=
  match fs !! k with Some d => FRequired d | None => false end.

(** What the step from version [prev] to [t] must keep; [ever] has the type
    of every name of an earlier version. *)
Definition evolves (prev t : Type_) (ever : gmap string FieldType) : bool :=
  String.eqb (Owner t) (Owner prev)
  && map_all (λ field def, negb (FRequired def)
                || required (TFields prev) (rename_source t field)) (TFields t)
  && map_all (λ from to, declared (TFields prev) from && negb (declared ever to)
                && bool_decide (field_type (TFields prev) from = field_type (TFields t) to))
       (Renames t)
  && map_all (λ field def, match ever !! field with
                            | Some old => bool_decide (old = FType def)
                            | None => true
                            end) (TFields t)
  && map_all (λ field def, negb (bool_decide (FType def = TText))
                || declared (Renames t) field || declared (TFields t) field) (TFields prev).

Definition field_types (fs : gmap string FieldDef) : gmap string FieldType := FType <$> fs.

(** The rest of a chain of versions after [prev], number [n]. *)
Fixpoint chain_ok (n : Z) (prev : Type_) (ever : gmap string FieldType) (vs : list Type_) : bool :=
  match vs with
  | [] => true
  | t :: r =>
      (SchemaVersion t =? n) && evolves prev t ever
      && chain_ok (n + 1) t (field_types (TFields t) ∪ ever) r
  end.

Definition versions_ok (vs : list Type_) : bool :=
  match vs with
  | [] => true
  | t :: r => (SchemaVersion t =? 1) && chain_ok 2 t (field_types (TFields t)) r
  end.

(** The registry: index i of a type's list holds version i+1. *)
Abbreviation Registry := (gmap string (list Type_)).

Definition versions_of (types : list Type_) (name : string) : list Type_ :=
  merge_sort version_le (filter (λ t, TName t = name) types).

Definition NewRegistry (types : list Type_) : option Registry :=
  if forallb Validate types then
    let reg : Registry :=
      list_to_map ((λ name, (name, versions_of types name)) <$> sorted_set (TName <$> types)) in
    if map_all (λ _ vs, versions_ok vs) reg then Some reg else None
  else None.

Definition versions (r : Registry) (name : string) : list Type_ := default [] (r !! name).

Definition Active (r : Registry) (name : string) : option Type_ := last (versions r name).

Definition Version_ (r : Registry) (name : string) (v : Z) : option Type_ :=
  if (v <? 1) then None else versions r name !! Z.to_nat (v - 1).

(** ForwardName through the renames of the versions in [vs]. *)
Fixpoint forward_through (vs : list Type_) (field : string) : string :=
  match vs with
  | [] => field
  | t :: r => forward_through r (default field (Renames t !! field))
  end.

Definition ForwardName (r : Registry) (name : string) (from : Z) (field : string) : string :=
  forward_through (drop (Z.to_nat (Z.max 1 from)) (versions r name)) field.

(** Forward: renamed fields beat undeclared keys of the same final name. *)
Definition Forward (r : Registry) (name : string) (from : Z) (f : Fields) : Fields :=
  let fwd := ForwardName r name from in
  list_to_map ((λ p, (fwd p.1, p.2)) <$> filter (λ p, fwd p.1 ≠ p.1) (map_to_list f))
  ∪ filter (λ p, fwd p.1 = p.1) f.

(** ** Canonical scopes *)

Definition no_sep (a : ascii) : bool := negb (Ascii.eqb a "/") && negb (Ascii.eqb a "=").

Lemma escape_app_cons a r :
  EscapeScopeValue (String a r)
  = ((if Ascii.eqb a "%" then "%25" else if Ascii.eqb a "/" then "%2F"
      else if Ascii.eqb a "=" then "%3D" else String a EmptyString) ++ EscapeScopeValue r)%string.
Proof. done. Qed.

Lemma escape_no_sep c s :
  c = "/"%char ∨ c = "="%char → no_char c (EscapeScopeValue s) = true.
Proof.
  intros Hc. induction s as [|a s IH]; [done|]. rewrite escape_app_cons, no_char_app, IH.
  rewrite andb_true_r. destruct (Ascii.eqb_spec a "%"); [by destruct Hc as [-> | ->]|].
  destruct (Ascii.eqb_spec a "/"); [by destruct Hc as [-> | ->]|].
  destruct (Ascii.eqb_spec a "="); [by destruct Hc as [-> | ->]|].
  simpl. rewrite andb_true_r. apply negb_true_iff, Ascii.eqb_neq.
  destruct Hc; congruence.
Qed.

Lemma escape_injective s t : EscapeScopeValue s = EscapeScopeValue t → s = t.
Proof.
  revert t. induction s as [|a s IH]; intros [|b t]; [done|..].
  - rewrite escape_app_cons. by repeat case_match.
  - rewrite escape_app_cons. by repeat case_match.
  - rewrite !escape_app_cons.
    destruct (Ascii.eqb_spec a "%") as [->|?]; [|destruct (Ascii.eqb_spec a "/") as [->|?];
      [|destruct (Ascii.eqb_spec a "=") as [->|?]]];
    (destruct (Ascii.eqb_spec b "%") as [->|?]; [|destruct (Ascii.eqb_spec b "/") as [->|?];
      [|destruct (Ascii.eqb_spec b "=") as [->|?]]]); simpl; intros E; simplify_eq; f_equal; auto.
Qed.

(** Two texts with one separator character each, absent from their parts. *)
Lemma sep_split c (a b x y : string) :
  no_char c a = true → no_char c x = true →
  (a ++ String c b = x ++ String c y)%string → a = x ∧ b = y.
Proof.
  revert x. induction a as [|d a IH]; intros [|e x]; simpl; intros Ha Hx E.
  - by injection E as ->.
  - injection E as <- _. by rewrite Ascii.eqb_refl in Hx.
  - injection E as -> _. by rewrite Ascii.eqb_refl in Ha.
  - injection E as -> E. apply andb_true_iff in Ha as [_ Ha], Hx as [_ Hx]. by destruct (IH x Ha Hx E) as [-> ->].
Qed.

Lemma canonical_part_injective p q : canonical_part p = canonical_part q → p = q.
Proof.
  destruct p as [n v], q as [m w]. unfold canonical_part. simpl.
  intros E. apply (sep_split "=") in E as [?%escape_injective ?%escape_injective];
    [congruence|apply escape_no_sep; by right..].
Qed.

Lemma canonical_part_no_slash p : no_char "/" (canonical_part p) = true.
Proof.
  unfold canonical_part. rewrite !no_char_app. rewrite !escape_no_sep by (by left). done.
Qed.

Lemma split_canonical (l : Scope) : l ≠ [] → split_on "/" (Canonical l) = canonical_part <$> l.
Proof.
  intros Hl. apply (split_on_join "/"); [by destruct l|].
  apply Forall_fmap, Forall_true. intros p. apply canonical_part_no_slash.
Qed.

Lemma canonical_injective s t : s ≠ [] → t ≠ [] → Canonical s = Canonical t → s = t.
Proof.
  intros Hs Ht E. apply (f_equal (split_on "/")) in E. rewrite !split_canonical in E by done.
  clear Hs Ht. revert t E. induction s as [|p s IH]; intros [|q t] E; [done..|].
  injection E as E1 E2. f_equal; [by apply canonical_part_injective|by apply IH].
Qed.

(** Scopes that ParseScope accepts have the same stored form only when
    they are the same list of parts: no value can be written so that two
    scopes share one key, whatever separators or percent signs it carries. *)
Theorem canonical_scopes_distinct l k s t :
  ParseScope l = Ok s → ParseScope k = Ok t → Canonical s = Canonical t → l = k ∧ s = t.
Proof.
  unfold ParseScope. intros Hl Hk E.
  destruct ((length l =? 0)%nat || _) eqn:El; [done|].
  destruct ((length k =? 0)%nat || _) eqn:Ek; [done|].
  destruct (scope_parts_ok true [] l), (scope_parts_ok true [] k); simplify_eq.
  assert (s = t); [|done]. apply canonical_injective; [by intros ->..|done].
Qed.

(** ** The version chain *)

Lemma map_all_spec {A} (f : string → A → bool) m :
  map_all f m = true ↔ ∀ k v, m !! k = Some v → f k v = true.
Proof.
  unfold map_all. rewrite forallb_Forall, Forall_forall. split.
  - intros H k v Hk. by apply (H (k, v)), elem_of_map_to_list.
  - intros H [k v] Hkv%elem_of_map_to_list. by apply H.
Qed.

Lemma declared_spec {A} (m : gmap string A) k : declared m k = true ↔ is_Some (m !! k).
Proof. apply bool_decide_eq_true. Qed.
Lemma declared_false {A} (m : gmap string A) k : declared m k = false ↔ m !! k = None.
Proof. unfold declared. rewrite bool_decide_eq_false. by rewrite eq_None_not_Some. Qed.

(** Renames in use, as a relation on names. *)
Record renames_ok (t : Type_) : Prop := {
  rename_target : ∀ a b, Renames t !! a = Some b → is_Some (TFields t !! b) ∧ TFields t !! a = None;
  rename_inj : ∀ a a' b, Renames t !! a = Some b → Renames t !! a' = Some b → a = a';
}.

Lemma renames_valid_ok t : renames_valid t = true → renames_ok t.
Proof.
  unfold renames_valid. rewrite andb_true_iff, map_all_spec. intros [H1 H2]. split.
  - intros a b Hab. apply H1 in Hab. bool_to_prop.
    by rewrite declared_spec, declared_false in *.
  - intros a a' b Ha Ha'. unfold distinct in H2. apply bool_decide_eq_true in H2.
    apply elem_of_map_to_list in Ha, Ha'.
    apply list_elem_of_lookup in Ha as [i Hi], Ha' as [j Hj].
    assert (i = j) as ->.
    { eapply (NoDup_lookup _ _ _ _ H2); rewrite list_lookup_fmap;
        [rewrite Hi|rewrite Hj]; reflexivity. }
    congruence.
Qed.

(** What a step of the chain means: [ever] the names of earlier versions
    with their types, [prev] among them. *)
Record evolves_ok (prev t : Type_) (ever : gmap string FieldType) : Prop := {
  ev_renames : renames_ok t;
  ev_new_target : ∀ a b, Renames t !! a = Some b → ever !! b = None;
  ev_from : ∀ a b, Renames t !! a = Some b → is_Some (TFields prev !! a);
  ev_same_type : ∀ a b, Renames t !! a = Some b →
    field_type (TFields prev) a = field_type (TFields t) b;
  ev_type : ∀ a ty d, ever !! a = Some ty → TFields t !! a = Some d → ty = FType d;
  ev_text : ∀ a, field_type (TFields prev) a = Some TText →
    is_Some (Renames t !! a) ∨ is_Some (TFields t !! a);
}.

Lemma evolves_spec prev t ever :
  renames_valid t = true → evolves prev t ever = true → evolves_ok prev t ever.
Proof.
  intros Hr. unfold evolves. rewrite !andb_true_iff, !map_all_spec.
  intros [[[[_ _] H3] H4] H5]. split.
  - by apply renames_valid_ok.
  - intros a b Hab%H3. bool_to_prop. by apply declared_false.
  - intros a b Hab%H3. bool_to_prop. by apply declared_spec.
  - intros a b Hab%H3. bool_to_prop. by eapply bool_decide_eq_true.
  - intros a ty d Ha Hd. specialize (H4 a d Hd). rewrite Ha in H4. by apply bool_decide_eq_true in H4.
  - intros a Ha. unfold field_type in Ha. destruct (TFields prev !! a) as [d|] eqn:Hd; [|done].
    injection Ha as Ht. specialize (H5 a d Hd). rewrite bool_decide_eq_true_2 in H5 by done.
    simpl in H5. apply orb_true_iff in H5 as [H5|H5]; [left|right]; by apply declared_spec.
Qed.

(** The types of a version extend those of the earlier ones. *)
Definition ever_of (t : Type_) (ever : gmap string FieldType) : gmap string FieldType :=
  field_types (TFields t) ∪ ever.

Definition covers (ever : gmap string FieldType) (t : Type_) : Prop :=
  ∀ a d, TFields t !! a = Some d → ever !! a = Some (FType d).

Inductive chain : Type_ → gmap string FieldType → list Type_ → Prop :=
| chain_end prev ever : covers ever prev → chain prev ever []
| chain_step prev ever t vs :
    covers ever prev → evolves_ok prev t ever → chain t (ever_of t ever) vs →
    chain prev ever (t :: vs).

Lemma ever_of_lookup t ever a :
  ever_of t ever !! a = match TFields t !! a with Some d => Some (FType d) | None => ever !! a end.
Proof.
  unfold ever_of, field_types. rewrite lookup_union, lookup_fmap.
  destruct (TFields t !! a); simpl; [by destruct (ever !! a)|by destruct (ever !! a)].
Qed.

Lemma covers_ever_of t ever : covers (ever_of t ever) t.
Proof. intros a d Hd. by rewrite ever_of_lookup, Hd. Qed.

Lemma ever_of_mono t ever a : is_Some (ever !! a) → is_Some (ever_of t ever !! a).
Proof. rewrite ever_of_lookup. by destruct (TFields t !! a). Qed.

Lemma chain_ok_chain vs : ∀ n prev ever,
  Forall (λ t, renames_valid t = true) vs → covers ever prev →
  chain_ok n prev ever vs = true → chain prev ever vs.
Proof.
  induction vs as [|t vs IH]; intros n prev ever Hv Hc; [by constructor|].
  apply Forall_cons in Hv as [Ht Hv]. cbn [chain_ok]. rewrite !andb_true_iff.
  intros [[_ He] Hr]. constructor; [done|by apply evolves_spec|].
  eapply IH; [done|apply covers_ever_of|exact Hr].
Qed.

Definition rename_once (t : Type_) (a : string) : string := default a (Renames t !! a).

Lemma rename_once_cases t a :
  Renames t !! a = Some (rename_once t a) ∨ (Renames t !! a = None ∧ rename_once t a = a).
Proof. unfold rename_once. destruct (Renames t !! a); [by left|by right]. Qed.

Lemma rename_once_ever prev t ever a :
  evolves_ok prev t ever → is_Some (ever !! a) → is_Some (ever_of t ever !! rename_once t a).
Proof.
  intros He Ha. destruct (rename_once_cases t a) as [Hr|[_ ->]]; [|by apply ever_of_mono].
  destruct (rename_target _ (ev_renames _ _ _ He) _ _ Hr) as [[d Hd] _].
  rewrite ever_of_lookup, Hd. by eexists.
Qed.

Lemma forward_through_cons t vs a :
  forward_through (t :: vs) a = forward_through vs (rename_once t a).
Proof. done. Qed.

Lemma forward_injective prev ever vs : chain prev ever vs → ∀ a b,
  is_Some (ever !! a) → is_Some (ever !! b) →
  forward_through vs a = forward_through vs b → a = b.
Proof.
  induction 1 as [prev ever _|prev ever t vs _ He _ IH]; intros a b Ha Hb; [done|].
  rewrite !forward_through_cons. intros E.
  apply IH in E; [|by eapply rename_once_ever..].
  destruct (rename_once_cases t a) as [Hra|[Hra Ea]], (rename_once_cases t b) as [Hrb|[Hrb Eb]].
  - rewrite E in Hra. by eapply rename_inj; [apply He|..].
  - rewrite E, Eb in Hra. apply (ev_new_target _ _ _ He) in Hra. rewrite Hra in Hb. by destruct Hb.
  - rewrite <- E, Ea in Hrb. apply (ev_new_target _ _ _ He) in Hrb. rewrite Hrb in Ha. by destruct Ha.
  - by rewrite <- Ea, <- Eb.
Qed.

(** A final name that an earlier version used was never renamed. *)
Lemma forward_old_name prev ever vs : chain prev ever vs → ∀ a,
  is_Some (ever !! a) → is_Some (ever !! forward_through vs a) → forward_through vs a = a.
Proof.
  induction 1 as [prev ever _|prev ever t vs _ He _ IH]; intros a Ha; [done|].
  rewrite forward_through_cons. intros Hf.
  assert (E : forward_through vs (rename_once t a) = rename_once t a).
  { apply IH; [by eapply rename_once_ever|by apply ever_of_mono]. }
  rewrite E in *. destruct (rename_once_cases t a) as [Hr|[_ Er]]; [|done].
  apply (ev_new_target _ _ _ He) in Hr. rewrite Hr in Hf. by destruct Hf.
Qed.

Lemma forward_idempotent prev ever vs : chain prev ever vs → ∀ a,
  is_Some (ever !! a) → forward_through vs (forward_through vs a) = forward_through vs a.
Proof.
  induction 1 as [prev ever _|prev ever t vs Hc He Hch IH]; intros a Ha; [done|].
  rewrite !forward_through_cons. set (a' := rename_once t a).
  assert (Ha' : is_Some (ever_of t ever !! a')) by (by eapply rename_once_ever).
  set (x := forward_through vs a').
  destruct (rename_once_cases t x) as [Hr|[_ ->]]; [exfalso|by apply IH].
  destruct (ev_from _ _ _ He _ _ Hr) as [d Hd]. apply Hc in Hd.
  assert (Ex : x = a').
  { eapply forward_old_name; [exact Hch|done|]. apply ever_of_mono. by eexists. }
  rewrite Ex in Hr, Hd. destruct (rename_target _ (ev_renames _ _ _ He) _ _ Hr) as [_ Hnone].
  destruct (rename_once_cases t a) as [Hra|[Hra Ea]].
  - apply (ev_new_target _ _ _ He) in Hra. fold a' in Hra. congruence.
  - fold a' in Ea. rewrite Ea in Hr. congruence.
Qed.

Lemma forward_text prev ever vs : chain prev ever vs → ∀ a,
  field_type (TFields prev) a = Some TText →
  field_type (TFields (default prev (last vs))) (forward_through vs a) = Some TText.
Proof.
  induction 1 as [prev ever _|prev ever t vs Hc He Hch IH]; intros a Ha; [done|].
  rewrite forward_through_cons.
  assert (Ht : field_type (TFields t) (rename_once t a) = Some TText).
  { destruct (rename_once_cases t a) as [Hr|[Hr ->]].
    - by rewrite <- (ev_same_type _ _ _ He _ _ Hr).
    - destruct (ev_text _ _ _ He a Ha) as [[b Hb]|[d Hd]]; [congruence|].
      unfold field_type in *. destruct (TFields prev !! a) as [d0|] eqn:Hd0; [|done].
      apply Hc in Hd0. pose proof (ev_type _ _ _ He _ _ _ Hd0 Hd) as E.
      rewrite Hd. simpl in *. congruence. }
  specialize (IH _ Ht). destruct vs as [|t' vs]; [done|].
  rewrite last_cons_cons. destruct (last (t' :: vs)) eqn:El; [done|].
  by apply last_None in El.
Qed.

(** The chain after a version of a registry. *)
Lemma chain_at vs i t :
  Forall (λ t, renames_valid t = true) vs → versions_ok vs = true → vs !! i = Some t →
  ∃ ever, covers ever t ∧ chain t ever (drop (S i) vs).
Proof.
  intros Hv Hok Hi. destruct vs as [|t0 vs]; [done|].
  apply Forall_cons in Hv as [_ Hv]. cbn [versions_ok] in Hok.
  apply andb_true_iff in Hok as [_ Hok].
  assert (Hch : chain t0 (field_types (TFields t0)) vs).
  { eapply chain_ok_chain; [done| |exact Hok]. intros a d Hd. unfold field_types.
    by rewrite lookup_fmap, Hd. }
  assert (Hcov : covers (field_types (TFields t0)) t0).
  { intros a d Hd. unfold field_types. by rewrite lookup_fmap, Hd. }
  clear Hok Hv. revert i Hi Hcov. induction Hch as [t0 ever Hc|t0 ever t1 vs Hc He Hch IH];
    intros [|i] Hi Hcov; simplify_eq/=.
  - exists ever. split; [done|by constructor].
  - exists ever. split; [done|by econstructor].
  - apply (IH i Hi), covers_ever_of.
Qed.

Lemma NewRegistry_versions types reg name :
  NewRegistry types = Some reg →
  versions_ok (versions reg name) = true ∧
  Forall (λ t, renames_valid t = true) (versions reg name).
Proof.
  unfold NewRegistry. destruct (forallb Validate types) eqn:Hval; [|done].
  set (r := list_to_map _). destruct (map_all _ r) eqn:Hall; [|done]. intros [= <-].
  rewrite map_all_spec in Hall. unfold versions. destruct (r !! name) as [vs|] eqn:Hn; [|done].
  simpl. split; [by eapply Hall|].
  apply elem_of_list_to_map_2 in Hn. apply list_elem_of_fmap in Hn as (nm & [= -> ->] & _).
  apply Forall_forall. intros t Ht.
  unfold versions_of in Ht. rewrite merge_sort_Permutation, list_elem_of_filter in Ht.
  apply forallb_Forall in Hval. rewrite Forall_forall in Hval.
  destruct Ht as [_ Ht]. specialize (Hval t Ht). unfold Validate in Hval. by bool_to_prop.
Qed.

Lemma registry_chain types reg name v t :
  NewRegistry types = Some reg → Version_ reg name v = Some t →
  ∃ ever, covers ever t ∧ chain t ever (drop (Z.to_nat (Z.max 1 v)) (versions reg name)).
Proof.
  intros Hreg Hv. unfold Version_ in Hv. destruct (Z.ltb_spec v 1); [done|].
  destruct (NewRegistry_versions _ _ name Hreg) as [Hok Hval].
  destruct (chain_at _ _ _ Hval Hok Hv) as (ever & ? & ?). exists ever.
  by replace (Z.to_nat (Z.max 1 v)) with (S (Z.to_nat (v - 1))) by lia.
Qed.

(** The last version has its list's length as its number. *)
Lemma chain_ok_last vs : ∀ n prev ever t,
  chain_ok n prev ever vs = true → last vs = Some t → SchemaVersion t = n + Z.of_nat (length vs) - 1.
Proof.
  induction vs as [|t0 vs IH]; intros n prev ever t; [done|]. cbn [chain_ok].
  rewrite !andb_true_iff. intros [[Hn _] Hr] Hl. apply Z.eqb_eq in Hn.
  destruct vs as [|t1 vs]; [injection Hl as <-; simpl; lia|].
  rewrite (IH _ _ _ _ Hr Hl). cbn [length]. lia.
Qed.

(** The active version's own names are current. *)
Lemma active_renames_nothing types reg name t k :
  NewRegistry types = Some reg → Active reg name = Some t →
  ForwardName reg name (SchemaVersion t) k = k.
Proof.
  intros Hreg Ht. destruct (NewRegistry_versions _ _ name Hreg) as [Hok _].
  unfold Active in Ht. unfold ForwardName.
  assert (Hn : SchemaVersion t = Z.of_nat (length (versions reg name)) ∧ 1 ≤ SchemaVersion t).
  { destruct (versions reg name) as [|t0 vs]; [done|]. cbn [versions_ok] in Hok.
    apply andb_true_iff in Hok as [H1 Hc]. apply Z.eqb_eq in H1.
    destruct vs as [|t1 vs]; [injection Ht as <-; simpl; lia|].
    rewrite (chain_ok_last _ _ _ _ _ Hc Ht). cbn [length]. lia. }
  rewrite drop_ge; [done|]. lia.
Qed.

(** Renames never merge two fields: in a registry that NewRegistry
    accepts, two fields that one version of a type declares have different
    names in the active version, through any number of renames. *)
Theorem forward_name_injective types reg name v t a b :
  NewRegistry types = Some reg → Version_ reg name v = Some t →
  is_Some (TFields t !! a) → is_Some (TFields t !! b) →
  ForwardName reg name v a = ForwardName reg name v b → a = b.
Proof.
  intros Hreg Hv [da Ha] [db Hb]. destruct (registry_chain _ _ _ _ _ Hreg Hv) as (ever & Hc & Hch).
  intros E. eapply forward_injective; [exact Hch|..|exact E]; eexists; by apply Hc.
Qed.

(** A field name is renamed once: mapping a name a version declares to
    the active version's name and mapping the result again from the same
    version gives the same name. *)
Theorem forward_name_idempotent types reg name v t a :
  NewRegistry types = Some reg → Version_ reg name v = Some t → is_Some (TFields t !! a) →
  ForwardName reg name v (ForwardName reg name v a) = ForwardName reg name v a.
Proof.
  intros Hreg Hv [d Ha]. destruct (registry_chain _ _ _ _ _ Hreg Hv) as (ever & Hc & Hch).
  eapply forward_idempotent; [exact Hch|]. eexists. by apply Hc.
Qed.

(** C40. Text stays text: a text field of any version of a type is a text
    field of the active version, under its name there.  Free text that was
    scanned when it was written is never served as an unscanned type after
    a schema change. *)
Theorem text_stays_text types reg name v t a :
  NewRegistry types = Some reg → Version_ reg name v = Some t → IsText t a = true →
  ∃ active, Active reg name = Some active ∧ IsText active (ForwardName reg name v a) = true.
Proof.
  intros Hreg Hv Ha. destruct (registry_chain _ _ _ _ _ Hreg Hv) as (ever & Hc & Hch).
  unfold Version_ in Hv. destruct (Z.ltb_spec v 1); [done|].
  set (vs := versions reg name) in *.
  assert (Hlast : Active reg name = Some (default t (last (drop (Z.to_nat (Z.max 1 v)) vs)))).
  { unfold Active. fold vs. replace (Z.to_nat (Z.max 1 v)) with (S (Z.to_nat (v - 1))) by lia.
    rewrite <- (take_drop_middle vs _ t Hv) at 1.
    rewrite last_app, last_cons. by destruct (last (drop (S (Z.to_nat (v - 1))) vs)). }
  eexists. split; [exact Hlast|]. unfold IsText in *. apply bool_decide_eq_true in Ha.
  apply bool_decide_eq_true. by eapply forward_text in Ha.
Qed.

(** ** The content hash *)

Definition no_nul (s : string) : bool := no_char Ascii.zero s.
Definition fields_clean (f : Fields) : Prop :=
  ∀ k v, f !! k = Some v → no_nul k = true ∧ no_nul v = true.

Definition nul_entries (l : list (string * string)) : string :=
  String.concat "" ((λ p, p.1 ++ nul ++ p.2 ++ nul)%string <$> l).

Lemma nul_split (a b x y : string) :
  no_nul a = true → no_nul x = true → (a ++ nul ++ b = x ++ nul ++ y)%string → a = x ∧ b = y.
Proof. apply sep_split. Qed.

Lemma str_app_cons a (s t : string) : (String a s ++ t = String a (s ++ t))%string.
Proof. done. Qed.
Lemma app_nil_str (s : string) : (s ++ "" = s)%string.
Proof. induction s as [|a s IH]; [done|]. by rewrite str_app_cons, IH. Qed.

Lemma concat_empty_cons s l : String.concat "" (s :: l) = (s ++ String.concat "" l)%string.
Proof.
  destruct l as [|t l]; simpl; [|done]. by rewrite app_nil_str.
Qed.

Lemma app_assoc_str (a b c : string) : ((a ++ b) ++ c = a ++ (b ++ c))%string.
Proof. induction a as [|x a IH]; [done|]. by rewrite !str_app_cons, IH. Qed.

Lemma nul_entries_injective l k :
  Forall (λ p, no_nul p.1 = true ∧ no_nul p.2 = true) l →
  Forall (λ p, no_nul p.1 = true ∧ no_nul p.2 = true) k →
  nul_entries l = nul_entries k → l = k.
Proof.
  unfold nul_entries. revert k. induction l as [|[a b] l IH]; intros [|[x y] k] Hl Hk E.
  - done.
  - exfalso. rewrite fmap_cons, concat_empty_cons in E. simpl in E. by destruct x.
  - exfalso. rewrite fmap_cons, concat_empty_cons in E. simpl in E. by destruct a.
  - apply Forall_cons in Hl as [[Ha Hb] Hl], Hk as [[Hx Hy] Hk].
    rewrite !fmap_cons, !concat_empty_cons, !app_assoc_str in E. simpl in *.
    apply nul_split in E as [-> E]; [|done..].
    apply nul_split in E as [-> E]; [|done..]. by rewrite (IH k).
Qed.

Lemma hash_input_entries f :
  hash_input f = nul_entries ((λ k, (k, default "" (f !! k))) <$> Keys f).
Proof. unfold hash_input, nul_entries. by rewrite <- list_fmap_compose. Qed.

Lemma hash_input_fields f g :
  fields_clean f → fields_clean g → hash_input f = hash_input g → f = g.
Proof.
  intros Hf Hg. rewrite !hash_input_entries.
  assert (Hcl : ∀ h, fields_clean h → Forall (λ p : string * string, no_nul p.1 = true ∧ no_nul p.2 = true)
    ((λ k, (k, default "" (h !! k))) <$> Keys h)).
  { intros h Hh. apply Forall_fmap, Forall_forall. intros k Hk.
    apply elem_of_sorted_keys in Hk as [v Hv]. simpl. rewrite Hv. by apply Hh. }
  intros E%nul_entries_injective; [|by apply Hcl..].
  assert (Hin : ∀ h k v, h !! k = Some v ↔
    (k, v) ∈ (λ k, (k, default "" (h !! k))) <$> Keys h).
  { intros h k v. rewrite list_elem_of_fmap. split.
    - intros Hv. exists k. rewrite Hv. split; [done|]. apply elem_of_sorted_keys. by eexists.
    - intros (k' & [= -> ->] & [w Hw]%elem_of_sorted_keys). by rewrite Hw. }
  apply map_eq. intros k. apply option_eq. intros v. by rewrite !Hin, E.
Qed.

(** The bytes Hash feeds to SHA-256 determine the fields: different
    field maps (of names and values without NUL bytes, which validation
    guarantees) never produce the same input, whatever their map order. *)
Theorem hash_input_injective f g :
  fields_clean f → fields_clean g → hash_input f = hash_input g → f = g.
Proof. apply hash_input_fields. Qed.

(** ** Witnesses *)

Definition grade_v1 : Type_ :=
  mkType "grade" 1 "powerschool"
    {[ "title"%string := mkFieldDef TText true; "score"%string := mkFieldDef TNumber false ]}
    ∅ ["guardians"%string] [] false.
Definition grade_v2 : Type_ :=
  mkType "grade" 2 "powerschool"
    {[ "heading"%string := mkFieldDef TText true; "score"%string := mkFieldDef TNumber false ]}
    {[ "title"%string := "heading"%string ]} ["guardians"%string] [] false.
Definition grade_types : list Type_ := [grade_v2; grade_v1].
Definition grade_registry : Registry :=
  {[ "grade"%string := [grade_v1; grade_v2] ]}.

Example grade_registry_new : NewRegistry grade_types = Some grade_registry.
Proof. vm_compute. reflexivity. Qed.

Lemma canonical_scopes_distinct_witness :
  [("source"%string, "a/b"%string)] = [("source"%string, "a/b"%string)].
Proof.
  destruct (canonical_scopes_distinct [("source"%string, "a/b"%string)]
    [("source"%string, "a/b"%string)] [("source"%string, "a/b"%string)]
    [("source"%string, "a/b"%string)]) as [H _]; [vm_compute; reflexivity..|exact H].
Defined.

Lemma forward_name_injective_witness :
  ForwardName grade_registry "grade" 1 "title" = "heading"%string ∧ "title"%string = "title"%string.
Proof.
  split; [vm_compute; reflexivity|].
  apply (forward_name_injective grade_types grade_registry "grade" 1 grade_v1 "title" "title");
    [vm_compute; reflexivity|vm_compute; reflexivity|eexists; vm_compute; reflexivity
    |eexists; vm_compute; reflexivity|reflexivity].
Defined.

Lemma forward_name_idempotent_witness :
  ForwardName grade_registry "grade" 1 (ForwardName grade_registry "grade" 1 "title")
  = ForwardName grade_registry "grade" 1 "title".
Proof.
  apply (forward_name_idempotent grade_types grade_registry "grade" 1 grade_v1 "title");
    [vm_compute; reflexivity|vm_compute; reflexivity|eexists; vm_compute; reflexivity].
Defined.

Lemma text_stays_text_witness :
  ∃ active, Active grade_registry "grade" = Some active ∧
    IsText active (ForwardName grade_registry "grade" 1 "title") = true.
Proof.
  apply (text_stays_text grade_types grade_registry "grade" 1 grade_v1 "title");
    vm_compute; reflexivity.
Defined.

Definition sample_fields : Fields := {[ "title"%string := "x"%string ]}.

Lemma sample_clean : fields_clean sample_fields.
Proof. unfold sample_fields. intros k v [<- <-]%lookup_singleton_Some. done. Qed.

Lemma hash_input_injective_witness : sample_fields = sample_fields.
Proof. apply (hash_input_injective _ _ sample_clean sample_clean). reflexivity. Defined.
