(* ===== verification/JDiff.v ===== *)
(** internal/journal/diff and the values it works on: one observation of a
    scope turned into planned events, events folded back into rows, and the
    removal guard. *)
From S2P Require Import Prelude GoStrings GoFloat StrOrder Utf8 JsonString JRecord.
Local Open Scope Z_scope.

(** ** Dates and ranges (record/value.go, record/validate.go) *)

Definition digit (a : ascii) : option Z :=
  if is_digit a then Some (byte_of a - 48) else None.

Definition leap_year (y : Z) : bool :=
  (y mod 4 =? 0) && (negb (y mod 100 =? 0) || (y mod 400 =? 0)).
Definition days_in (y m : Z) : Z :=
  if m =? 2 then if leap_year y then 29 else 28
  else if (m =? 4) || (m =? 6) || (m =? 9) || (m =? 11) then 30 else 31.

(** The layout 2006-01-02: four, two and two digits. *)
Definition date_of (s : string) : option (Z * Z * Z) :=
  match String.list_ascii_of_string s with
  | [a; b; c; d; h1; e; f; h2; g; i] =>
      match digit a, digit b, digit c, digit d, digit e, digit f, digit g, digit i with
      | Some a, Some b, Some c, Some d, Some e, Some f, Some g, Some i =>
          if Ascii.eqb h1 "-" && Ascii.eqb h2 "-"
          then Some (a * 1000 + b * 100 + c * 10 + d, e * 10 + f, g * 10 + i) else None
      | _, _, _, _, _, _, _, _ => None
      end
  | _ => None
  end.

Definition ValidDate (s : string) : bool :=
  match date_of s with
  | Some (y, m, d) => (1 <=? m) && (m <=? 12) && (1 <=? d) && (d <=? days_in y m)
  | None => false
  end.

(** json.Unmarshal into a string variable. *)
Definition unmarshal_string (v : string) : option string :=
  if String.eqb v "null" then Some ""%string
  else string_of_bytes <$> unquote (bytes_of_string v).

Record Range := mkRange { RField : string; RFrom : string; RTo : string }.

Definition Range_Contains (r : Range) (v : option string) : bool :=
  match v with
  | None => false
  | Some v =>
      match unmarshal_string v with
      | Some s => ValidDate s && String.leb (RFrom r) s && String.leb s (RTo r)
      | None => false
      end
  end.

Record NormRecord := mkNormRecord {
  NKey : string; NDataSubject : string; NAudience : list string; NFields : Fields; NHash : string;
}.

(** ** diff.go *)

Inductive Kind := Created | Updated | Removed | Restored.

#[export] Instance Kind_eq_dec : EqDecision Kind.
Proof. solve_decision. Defined.

Record Current := mkCurrent {
  CKey : string;
  CScope : string;
  CAudience : list string;
  CFields : Fields;
  CRemoved : bool;
  CHash : string;
  CLastSeenAt : Z;
  CLastConfirmedAt : Z;
  CScan : ScanMap;
}.

(** One changed field; [None] is nil: null, absent. *)
Record Change := mkChange { Old : option string; NewV : option string }.

Record Event := mkEvent {
  EKind : Kind;
  EKey : string;
  EScope : string;
  EPrevScope : string;
  EAudience : list string;
  EPrevAudience : option (list string);
  EAfter : option Fields;
  EBefore : option Fields;
  EChanged : gmap string Change;
  EPrevObservedAt : option Z;
}.

Record Input := mkInput {
  InScope : string;
  Complete : bool;
  InRange : option Range;
  ObservedAt : Z;
  InCurrent : gmap string Current;
  Records : list NormRecord;
}.

Record Plan := mkPlan {
  Events : list Event;
  Removals : list Event;
  Confirm : list string;
  Stale : list string;
  LiveInRange : nat;
}.

Record Stats := mkStats {
  SCreated : nat; SUpdated : nat; SRestored : nat; SRemoved : nat; SUnchanged : nat; SStale : nat;
}.

Definition count_kind (k : Kind) (l : list Event) : nat :=
  length (filter (λ e, EKind e = k) l).

Definition Plan_Stats (p : Plan) : Stats :=
  mkStats (count_kind Created (Events p)) (count_kind Updated (Events p))
    (count_kind Restored (Events p)) (length (Removals p)) (length (Confirm p))
    (length (Stale p)).

(** The changed fields: a nil value and an empty one are equal bytes. *)
Definition change (b a : option string) : option Change :=
  match b, a with
  | Some v, a => if String.eqb v (default "" a)%string then None else Some (mkChange (Some v) a)
  | None, Some v => Some (mkChange None (Some v))
  | None, None => None
  end.
Definition changes (before after : Fields) : gmap string Change := merge change before after.

Definition equalStrings (a b : list string) : bool := bool_decide (a = b).

(** What the loop over the records makes of one of them. *)
Inductive verdict := VEvent (e : Event) | VStale | VConfirm.

Definition classify (i : Input) (r : NormRecord) : verdict :=
  match InCurrent i !! NKey r with
  | None =>
      VEvent (mkEvent Created (NKey r) (InScope i) "" (NAudience r) None (Some (NFields r)) None ∅ None)
  | Some c =>
      if (ObservedAt i <? CLastConfirmedAt c) then VStale else
      let prevScope := if String.eqb (CScope c) (InScope i) then ""%string else CScope c in
      let audChanged := negb (equalStrings (CAudience c) (NAudience r)) in
      let ev k changed := mkEvent k (NKey r) (InScope i) prevScope (NAudience r)
        (if audChanged then Some (CAudience c) else None) (Some (NFields r)) (Some (CFields c))
        changed (Some (CLastConfirmedAt c)) in
      if CRemoved c then VEvent (ev Restored ∅)
      else if String.eqb (CHash c) (NHash r) && String.eqb prevScope "" && negb audChanged
      then VConfirm
      else let changed := changes (CFields c) (NFields r) in
           if bool_decide (changed = ∅) && String.eqb prevScope "" && negb audChanged
           then VConfirm else VEvent (ev Updated changed)
  end.

(** A live row of the scope, in range. *)
Definition live_in_range (i : Input) (c : Current) : bool :=
  negb (CRemoved c) && String.eqb (CScope c) (InScope i)
  && match InRange i with
     | None => true
     | Some r => Range_Contains r (CFields c !! RField r)
     end.

Definition present (i : Input) (k : string) : bool :=
  existsb (String.eqb k) (NKey <$> Records i).

Definition removal (i : Input) (k : string) : option Event :=
  match InCurrent i !! k with
  | None => None
  | Some c =>
      if live_in_range i c && negb (present i k) && negb (ObservedAt i <? CLastConfirmedAt c)
      then Some (mkEvent Removed k (CScope c) "" (CAudience c) None None (Some (CFields c)) ∅
                   (Some (CLastConfirmedAt c)))
      else None
  end.

Definition live_key (i : Input) (k : string) : bool :=
  match InCurrent i !! k with Some c => live_in_range i c | None => false end.

Definition Diff (i : Input) : Plan :=
  let events := omap (λ r, match classify i r with VEvent e => Some e | _ => None end) (Records i) in
  let confirm := omap (λ r, match classify i r with VConfirm => Some (NKey r) | _ => None end)
                   (Records i) in
  let stale := omap (λ r, match classify i r with VStale => Some (NKey r) | _ => None end)
                 (Records i) in
  if negb (Complete i) then mkPlan events [] confirm stale 0
  else let keys := sorted_keys (InCurrent i) in
       mkPlan events (omap (removal i) keys) confirm stale
         (length (List.filter (live_key i) keys)).

(** ** fold.go *)

Abbreviation Identity := (string * string * string)%type.

Record FoldEvent := mkFoldEvent {
  FID : Identity;
  FKind : Kind;
  FVersion : Z;
  FEScope : string;
  FEAudience : list string;
  FEFields : Fields;
  FEChanged : gmap string Change;
}.

Record FoldRow := mkFoldRow {
  FScope : string; FAudience : list string; FFields : Fields; FRemoved : bool;
}.

Definition zero_row : FoldRow := mkFoldRow "" [] ∅ false.

Definition Rename := string → Z → string → string.

(** Names that are not renamed first, then renamed ones, each by name. *)
Definition key_le (ren : string → string) (a b : string) : Prop :=
  if bool_decide (ren a = a) then
    if bool_decide (ren b = b) then str_le a b else True
  else if bool_decide (ren b = b) then False else str_le a b.
#[export] Instance key_le_dec ren a b : Decision (key_le ren a b).
Proof. unfold key_le. repeat case_bool_decide; apply _. Defined.

Definition orderKeys (ren : string → string) (keys : list string) : list string :=
  merge_sort (key_le ren) keys.

Definition set_keys (ren : string → string) (value : string → string) (keys : list string)
    (m : Fields) : Fields :=
  foldl (λ m k, <[ren k := value k]> m) m keys.

Definition delete_keys (ren : string → string) (keys : list string) (m : Fields) : Fields :=
  foldl (λ m k, delete (ren k) m) m keys.

Definition new_value (ch : gmap string Change) (k : string) : option string :=
  match ch !! k with Some c => NewV c | None => None end.

(** One event on the row of its record. *)
Definition fold_row (rename : Rename) (row : FoldRow) (e : FoldEvent) : FoldRow :=
  let ren := rename (FID e).1.1 (FVersion e) in
  match FKind e with
  | Created | Restored =>
      mkFoldRow (FEScope e) (FEAudience e)
        (set_keys ren (λ k, default "" (FEFields e !! k))%string
           (orderKeys ren (Keys (FEFields e))) ∅) false
  | Updated =>
      let keys := orderKeys ren (map_to_list (FEChanged e)).*1 in
      let gone := List.filter (λ k, match new_value (FEChanged e) k with None => true | _ => false end) keys in
      let set_ := List.filter (λ k, match new_value (FEChanged e) k with None => false | _ => true end) keys in
      mkFoldRow (FEScope e) (FEAudience e)
        (set_keys ren (λ k, default "" (new_value (FEChanged e) k))%string set_
           (delete_keys ren gone (FFields row))) false
  | Removed => mkFoldRow (FEScope e) (FEAudience e) (FFields row) true
  end.

Definition fold_step (rename : Rename) (rows : gmap Identity FoldRow) (e : FoldEvent)
    : gmap Identity FoldRow :=
  <[FID e := fold_row rename (default zero_row (rows !! FID e)) e]> rows.

Definition Fold (rename : Rename) (events : list FoldEvent) : gmap Identity FoldRow :=
  foldl (fold_step rename) ∅ events.

(** ** guard.go *)

Record Guard := mkGuard { MaxFraction : spec_float; MinKeys : Z }.

(** The float64 nearest 0.3. *)
Definition point3 : spec_float := S754_finite false 5404319552844595 (-54).

Definition DefaultGuard : Guard := mkGuard point3 3.

Definition Hold (g : Guard) (live removals : Z) : bool :=
  if (removals =? 0) || (live <=? MinKeys g) then false
  else (removals =? live)
       || SFltb (SFmul 53 1024 (MaxFraction g) (float64 live)) (float64 removals).

(** ** Folding one event *)

Lemma orderKeys_Permutation ren l : orderKeys ren l ≡ₚ l.
Proof. apply merge_sort_Permutation. Qed.

Lemma set_keys_lookup ren value keys m x :
  (∀ k, k ∈ keys → ren k = k) →
  set_keys ren value keys m !! x = if bool_decide (x ∈ keys) then Some (value x) else m !! x.
Proof.
  unfold set_keys. revert m. induction keys as [|k keys IH]; intros m Hren; [done|].
  simpl. rewrite IH by (intros; apply Hren; by right). rewrite Hren by (by left).
  destruct (decide (x = k)) as [->|Hne].
  - rewrite (bool_decide_eq_true_2 (k ∈ k :: keys)) by (by left). rewrite lookup_insert_eq.
    by case_bool_decide.
  - rewrite lookup_insert_ne by done.
    rewrite (bool_decide_ext (x ∈ k :: keys) (x ∈ keys)); [done|]. rewrite elem_of_cons. tauto.
Qed.

Lemma delete_keys_lookup ren keys m x :
  (∀ k, k ∈ keys → ren k = k) →
  delete_keys ren keys m !! x = if bool_decide (x ∈ keys) then None else m !! x.
Proof.
  unfold delete_keys. revert m. induction keys as [|k keys IH]; intros m Hren; [done|].
  simpl. rewrite IH by (intros; apply Hren; by right). rewrite Hren by (by left).
  destruct (decide (x = k)) as [->|Hne].
  - rewrite (bool_decide_eq_true_2 (k ∈ k :: keys)) by (by left). rewrite lookup_delete_eq.
    by case_bool_decide.
  - rewrite lookup_delete_ne by done.
    rewrite (bool_decide_ext (x ∈ k :: keys) (x ∈ keys)); [done|]. rewrite elem_of_cons. tauto.
Qed.

(** The fields of a created record are the event's. *)
Lemma set_all_keys ren f :
  (∀ k, is_Some (f !! k) → ren k = k) →
  set_keys ren (λ k, default "" (f !! k))%string (orderKeys ren (Keys f)) ∅ = f.
Proof.
  intros Hren. apply map_eq. intros x.
  assert (Hin : ∀ k, k ∈ orderKeys ren (Keys f) ↔ is_Some (f !! k)).
  { intros k. rewrite orderKeys_Permutation. apply elem_of_sorted_keys. }
  rewrite set_keys_lookup by (intros k Hk; by apply Hren, Hin).
  case_bool_decide as Hx; rewrite Hin in Hx; destruct (f !! x); simpl; try done; by destruct Hx.
Qed.

(** Values are never empty: they are JSON texts. *)
Definition values_ok (f : Fields) : Prop := ∀ k v, f !! k = Some v → v ≠ ""%string.

Lemma changes_lookup before after k :
  changes before after !! k = change (before !! k) (after !! k).
Proof. unfold changes. rewrite lookup_merge. by destruct (before !! k), (after !! k). Qed.

Lemma change_spec b a :
  (∀ v, b = Some v → v ≠ ""%string) →
  match change b a with
  | None => a = b
  | Some c => NewV c = a ∧ a ≠ b
  end.
Proof.
  intros Hb. destruct b as [v|], a as [w|]; simpl; try done.
  - destruct (String.eqb_spec v w) as [->|Hne]; [done|]. split; [done|]. congruence.
  - destruct (String.eqb_spec v ""); [by destruct (Hb v)|]. done.
Qed.

Definition is_set (ch : gmap string Change) (k : string) : bool :=
  match new_value ch k with None => false | _ => true end.
Definition is_gone (ch : gmap string Change) (k : string) : bool :=
  match new_value ch k with None => true | _ => false end.

Lemma elem_of_bool_filter {A} (f : A → bool) l x : x ∈ List.filter f l ↔ x ∈ l ∧ f x = true.
Proof. rewrite !list_elem_of_In. apply filter_In. Qed.

(** Applying the changes between two field maps gives the second. *)
Lemma apply_changes ren before after :
  values_ok before →
  (∀ k, is_Some (before !! k) ∨ is_Some (after !! k) → ren k = k) →
  let ch := changes before after in
  let keys := orderKeys ren (map_to_list ch).*1 in
  set_keys ren (λ k, default "" (new_value ch k))%string (List.filter (is_set ch) keys)
    (delete_keys ren (List.filter (is_gone ch) keys) before) = after.
Proof.
  intros Hok Hren ch keys. apply map_eq. intros x.
  assert (Hin : ∀ k, k ∈ keys ↔ is_Some (ch !! k)).
  { intros k. unfold keys. rewrite orderKeys_Permutation, list_elem_of_fmap. split.
    - intros ([k' c] & -> & H%elem_of_map_to_list). by eexists.
    - intros [c H%elem_of_map_to_list]. by exists (k, c). }
  assert (Hk : ∀ k, k ∈ keys → ren k = k).
  { intros k [c Hc]%Hin. apply Hren. unfold ch in Hc. rewrite changes_lookup in Hc.
    destruct (before !! k); [left; by eexists|]. destruct (after !! k); [right; by eexists|done]. }
  rewrite set_keys_lookup, delete_keys_lookup
    by (intros k [Hf _]%elem_of_bool_filter; by apply Hk).
  pose proof (change_spec (before !! x) (after !! x) ltac:(intros v; apply Hok)) as Hc.
  assert (Hch : ch !! x = change (before !! x) (after !! x)) by apply changes_lookup.
  case_bool_decide as H1; rewrite elem_of_bool_filter, Hin in H1;
    [|case_bool_decide as H2; rewrite elem_of_bool_filter, Hin in H2];
    unfold is_set, is_gone, new_value in *; rewrite Hch in *;
    destruct (change (before !! x) (after !! x)) as [c|]; simpl in *.
  - destruct H1 as [_ H1], Hc as [<- _]. by destruct (NewV c).
  - by destruct H1 as [[? ?] _].
  - destruct H2 as [_ H2], Hc as [<- _]. by destruct (NewV c).
  - by destruct H2 as [[? ?] _].
  - exfalso. destruct (NewV c); [apply H1|apply H2]; eauto.
  - done.
Qed.

(** ** Folding a list of events about different records *)

Lemma fold_untouched rename es rows id :
  id ∉ FID <$> es → foldl (fold_step rename) rows es !! id = rows !! id.
Proof.
  revert rows. induction es as [|e es IH]; intros rows Hid; [done|].
  rewrite fmap_cons, not_elem_of_cons in Hid. destruct Hid as [Hne Hid]. simpl.
  rewrite IH by done. unfold fold_step. by rewrite lookup_insert_ne.
Qed.

Lemma fold_touched rename es rows e :
  NoDup (FID <$> es) → e ∈ es →
  foldl (fold_step rename) rows es !! FID e
  = Some (fold_row rename (default zero_row (rows !! FID e)) e).
Proof.
  revert rows. induction es as [|e' es IH]; intros rows Hnd He; [by apply elem_of_nil in He|].
  rewrite fmap_cons, NoDup_cons in Hnd. destruct Hnd as [Hno Hnd]. simpl.
  apply elem_of_cons in He as [->|He].
  - rewrite fold_untouched by done. unfold fold_step. by rewrite lookup_insert_eq.
  - rewrite IH by done. unfold fold_step. rewrite lookup_insert_ne; [done|].
    intros E. apply Hno. rewrite E. by apply list_elem_of_fmap_2.
Qed.

(** ** What a snapshot means *)

(** The event as the store writes it and the fold reads it. *)
Definition stored_event (rt subject : string) (version : Z) (e : Event) : FoldEvent :=
  mkFoldEvent (rt, subject, EKey e) (EKind e) version (EScope e) (EAudience e)
    match EKind e with Created | Restored => default ∅ (EAfter e) | _ => ∅ end
    match EKind e with Updated => EChanged e | _ => ∅ end.

Definition row_of (c : Current) : FoldRow :=
  mkFoldRow (CScope c) (CAudience c) (CFields c) (CRemoved c).

Definition newer (i : Input) (c : Current) : bool := ObservedAt i <? CLastConfirmedAt c.

(** What one observation says about the record of key [k]: nothing when the
    record was confirmed later; the observed content when it is present;
    removed when it is live in the scope and range of a complete
    observation and absent from it. *)
Definition observed (i : Input) (k : string) : option FoldRow :=
  let cur := InCurrent i !! k in
  match List.find (λ r, String.eqb (NKey r) k) (Records i) with
  | Some r =>
      if match cur with Some c => newer i c | None => false end then row_of <$> cur
      else Some (mkFoldRow (InScope i) (NAudience r) (NFields r) false)
  | None =>
      match cur with
      | Some c =>
          if Complete i && live_in_range i c && negb (newer i c)
          then Some (mkFoldRow (CScope c) (CAudience c) (CFields c) true)
          else Some (row_of c)
      | None => None
      end
  end.

(** What validation and the store guarantee of an input: keys are distinct,
    values are JSON texts, rows are stored under their key, and SHA-256 has
    no collision between a stored row and the observation of it. *)
Record input_ok (i : Input) : Prop := {
  keys_distinct : NoDup (NKey <$> Records i);
  stored_values : ∀ k c, InCurrent i !! k = Some c → values_ok (CFields c);
  hash_sound : ∀ k c r, InCurrent i !! k = Some c → r ∈ Records i → NKey r = k →
    CHash c = NHash r → CFields c = NFields r;
  scope_nonempty : InScope i ≠ ""%string;
  stored_scope : ∀ k c, InCurrent i !! k = Some c → CScope c ≠ ""%string;
}.

Lemma find_record i r :
  NoDup (NKey <$> Records i) → r ∈ Records i →
  List.find (λ r', String.eqb (NKey r') (NKey r)) (Records i) = Some r.
Proof.
  intros Hnd Hr. induction (Records i) as [|r0 rs IH]; [by apply elem_of_nil in Hr|].
  rewrite fmap_cons, NoDup_cons in Hnd. destruct Hnd as [Hno Hnd]. simpl.
  apply elem_of_cons in Hr as [->|Hr]; [by rewrite String.eqb_refl|].
  destruct (String.eqb_spec (NKey r0) (NKey r)) as [E|_]; [|by apply IH].
  exfalso. apply Hno. rewrite E. by apply list_elem_of_fmap_2.
Qed.

Lemma find_record_none (rs : list NormRecord) k :
  List.find (λ r, String.eqb (NKey r) k) rs = None ↔ k ∉ NKey <$> rs.
Proof.
  induction rs as [|r rs IH]; [split; [intros _ H; by apply elem_of_nil in H|done]|].
  rewrite fmap_cons, not_elem_of_cons. simpl. destruct (String.eqb_spec (NKey r) k) as [->|Hne].
  - split; [done|]. by intros [? _].
  - rewrite IH. split; [intros ?; split; [congruence|done]|by intros [_ ?]].
Qed.

Lemma present_spec i k : present i k = true ↔ k ∈ NKey <$> Records i.
Proof.
  unfold present. rewrite existsb_Exists, Exists_exists. split.
  - by intros (k' & Hk & ->%String.eqb_eq).
  - intros Hk. exists k. split; [done|apply String.eqb_refl].
Qed.

Lemma removal_spec i k e :
  removal i k = Some e →
  ∃ c, InCurrent i !! k = Some c ∧ (k ∉ NKey <$> Records i) ∧ live_in_range i c = true ∧
    newer i c = false ∧ EKey e = k ∧ EKind e = Removed ∧ EScope e = CScope c ∧
    EAudience e = CAudience c ∧ EBefore e = Some (CFields c) ∧ CRemoved c = false.
Proof.
  unfold removal. destruct (InCurrent i !! k) as [c|] eqn:Hc; [|done].
  destruct (_ && _ && _) eqn:Hcond; [|done]. intros [= <-]. bool_to_prop. exists c.
  assert (CRemoved c = false) by (unfold live_in_range in *; by bool_to_prop).
  split_and!; try done; [|by unfold newer; apply Z.ltb_ge].
  rewrite <- present_spec. congruence.
Qed.

Lemma classify_event i r e :
  classify i r = VEvent e →
  EKey e = NKey r ∧ EScope e = InScope i ∧ EAudience e = NAudience r ∧ EKind e ≠ Removed ∧
  match InCurrent i !! NKey r with
  | None => EKind e = Created ∧ EAfter e = Some (NFields r)
  | Some c =>
      newer i c = false ∧
      ((EKind e = Restored ∧ CRemoved c = true ∧ EAfter e = Some (NFields r)) ∨
       (EKind e = Updated ∧ CRemoved c = false ∧ EAfter e = Some (NFields r) ∧
        EChanged e = changes (CFields c) (NFields r)))
  end.
Proof.
  unfold classify, newer. destruct (InCurrent i !! NKey r) as [c|] eqn:Hc; [|by intros [= <-]].
  destruct (ObservedAt i <? CLastConfirmedAt c); [done|].
  destruct (CRemoved c); [intros [= <-]; simpl; split_and!; auto|].
  destruct (_ && _ && _); [done|]. destruct (_ && _ && _); [done|].
  intros [= <-]. simpl. split_and!; auto.
Qed.

Lemma classify_confirm i r :
  input_ok i → r ∈ Records i → classify i r = VConfirm →
  ∃ c, InCurrent i !! NKey r = Some c ∧ newer i c = false ∧
    row_of c = mkFoldRow (InScope i) (NAudience r) (NFields r) false.
Proof.
  intros Hok Hr. unfold classify, newer, row_of. destruct (InCurrent i !! NKey r) as [c|] eqn:Hc; [|done].
  destruct (ObservedAt i <? CLastConfirmedAt c) eqn:Hn; [done|].
  destruct (CRemoved c) eqn:Hrem; [done|]. unfold equalStrings.
  assert (Hsc : ∀ b1 b2, b1 && String.eqb (if String.eqb (CScope c) (InScope i) then "" else CScope c) ""
     && negb (negb b2) = true → b1 = true ∧ CScope c = InScope i ∧ b2 = true).
  { intros b1 b2 H. bool_to_prop. destruct (String.eqb_spec (CScope c) (InScope i)).
    - by destruct b2.
    - exfalso. apply (stored_scope i Hok _ _ Hc). by apply String.eqb_eq. }
  destruct (String.eqb (CHash c) (NHash r) && _ && _) eqn:H1.
  { apply Hsc in H1 as (Hh & Es & Ha). apply bool_decide_eq_true in Ha. apply String.eqb_eq in Hh.
    intros _. exists c. by rewrite (hash_sound i Hok _ _ _ Hc Hr eq_refl Hh), Es, Ha, Hrem. }
  destruct (bool_decide (changes _ _ = ∅) && _ && _) eqn:H2; [|done].
  apply Hsc in H2 as (Hch & Es & Ha). apply bool_decide_eq_true in Ha, Hch.
  intros _. exists c. rewrite Es, Ha, Hrem. split_and!; [done..|]. f_equal.
  apply map_eq. intros k. apply (f_equal (lookup k)) in Hch. rewrite changes_lookup, lookup_empty in Hch.
  pose proof (change_spec (CFields c !! k) (NFields r !! k)
    ltac:(intros v; apply (stored_values i Hok _ _ Hc))) as Hs. by rewrite Hch in Hs.
Qed.

(** ** Diff against Fold *)

Lemma elem_of_events i e :
  e ∈ Events (Diff i) ↔ ∃ r, r ∈ Records i ∧ classify i r = VEvent e.
Proof.
  assert (Events (Diff i) = omap (λ r, match classify i r with VEvent e => Some e | _ => None end)
    (Records i)) as -> by (unfold Diff; by destruct (negb (Complete i))).
  rewrite list_elem_of_omap. split.
  - intros (r & Hr & He). exists r. split; [done|]. by destruct (classify i r); simplify_eq.
  - intros (r & Hr & He). exists r. by rewrite He.
Qed.

Lemma elem_of_removals i e :
  e ∈ Removals (Diff i) ↔ Complete i = true ∧ ∃ k, removal i k = Some e.
Proof.
  unfold Diff. destruct (Complete i); simpl.
  - rewrite list_elem_of_omap. split.
    + intros (k & _ & Hk). split; [done|]. by exists k.
    + intros [_ (k & Hk)]. exists k. split; [|done]. apply elem_of_sorted_keys.
      unfold removal in Hk. destruct (InCurrent i !! k); [by eexists|done].
  - split; [intros H; by apply elem_of_nil in H|by intros [? _]].
Qed.

Lemma NoDup_omap_keys {A} (f : A → option Event) (key : A → string) (l : list A) :
  NoDup (key <$> l) → (∀ x e, f x = Some e → EKey e = key x) → NoDup (EKey <$> omap f l).
Proof.
  intros Hnd Hf. induction l as [|x l IH]; [constructor|].
  rewrite fmap_cons, NoDup_cons in Hnd. destruct Hnd as [Hno Hnd]. simpl.
  destruct (f x) as [e|] eqn:He; [|by apply IH]. rewrite fmap_cons, NoDup_cons. split; [|by apply IH].
  intros (e' & E & (y & Hy & Hey)%list_elem_of_omap)%list_elem_of_fmap.
  apply Hno. apply Hf in He, Hey. rewrite <- He, E, Hey. by apply list_elem_of_fmap_2.
Qed.

Lemma plan_keys_distinct i :
  input_ok i → NoDup (EKey <$> Events (Diff i) ++ Removals (Diff i)).
Proof.
  intros Hok. rewrite fmap_app. apply NoDup_app. split_and!.
  - assert (Events (Diff i) = omap (λ r, match classify i r with VEvent e => Some e | _ => None end)
      (Records i)) as -> by (unfold Diff; by destruct (negb (Complete i))).
    apply (NoDup_omap_keys _ NKey); [apply keys_distinct, Hok|].
    intros r e He. destruct (classify i r) eqn:Hc; simplify_eq. by apply classify_event in Hc as [? _].
  - intros k (e & -> & (r & Hr & (E & _)%classify_event)%elem_of_events)%list_elem_of_fmap
      (e' & E' & [_ [k' (c & _ & Hno & _ & _ & Ek & _)%removal_spec]]%elem_of_removals)%list_elem_of_fmap.
    apply Hno. rewrite <- Ek, <- E', E. by apply list_elem_of_fmap_2.
  - unfold Diff. destruct (Complete i); [|constructor]. simpl.
    apply (NoDup_omap_keys _ id); [rewrite list_fmap_id; apply sorted_keys_NoDup|].
    intros k e (c & _ & _ & _ & _ & Ek & _)%removal_spec. done.
Qed.

(** Only live records are removed. *)
Lemma removals_live i : (length (Removals (Diff i)) ≤ LiveInRange (Diff i))%nat.
Proof.
  unfold Diff. destruct (Complete i); simpl; [|done].
  induction (sorted_keys (InCurrent i)) as [|k ks IH]; [done|]. simpl.
  assert (H : is_Some (removal i k) → live_key i k = true).
  { intros [e (c & Hc & _ & Hl & _)%removal_spec]. unfold live_key. by rewrite Hc. }
  unfold omap in IH. destruct (removal i k) as [e|]; [rewrite H by (by eexists)|destruct (live_key i k)];
    simpl; lia.
Qed.

Section diff_fold.
Context (rename : Rename) (rt subject : string) (version : Z).
(** The active version renames nothing. *)
Context (Hren : ∀ k, rename rt version k = k).

Lemma fold_event_row (i : Input) (e : Event) (rows : gmap Identity FoldRow) :
  input_ok i → e ∈ Events (Diff i) ++ Removals (Diff i) →
  (∀ k, rows !! (rt, subject, k) = row_of <$> InCurrent i !! k) →
  Some (fold_row rename (default zero_row (rows !! (rt, subject, EKey e)))
          (stored_event rt subject version e)) = observed i (EKey e).
Proof.
  intros Hok He Hrows. rewrite Hrows. unfold observed.
  apply elem_of_app in He as [(r & Hr & Hc)%elem_of_events|[Hcomp [k Hk]]%elem_of_removals].
  - pose proof (classify_event _ _ _ Hc) as (Ek & Es & Ea & Hnr & Hcase).
    rewrite Ek, (find_record i r (keys_distinct i Hok) Hr).
    unfold fold_row, stored_event; simpl. rewrite Es, Ea.
    destruct (InCurrent i !! NKey r) as [c|] eqn:Hcur; simpl.
    + destruct Hcase as [-> [(-> & _ & ->)|(-> & _ & _ & ->)]]; do 2 f_equal.
      * simpl. apply set_all_keys. intros; apply Hren.
      * simpl. apply apply_changes; [by eapply stored_values|intros; apply Hren].
    + destruct Hcase as [-> ->]. do 2 f_equal. simpl. apply set_all_keys. intros; apply Hren.
  - apply removal_spec in Hk as (c & Hcur & Hno & Hlive & Hnew & Ek & Hkind & Es & Ea & _).
    rewrite Ek, (proj2 (find_record_none _ _) Hno), Hcur, Hcomp, Hlive, Hnew.
    unfold fold_row, stored_event; simpl. by rewrite Hkind, Es, Ea.
Qed.

Lemma no_event_row i k :
  input_ok i → k ∉ (EKey <$> Events (Diff i) ++ Removals (Diff i)) →
  observed i k = row_of <$> InCurrent i !! k.
Proof.
  intros Hok Hno. unfold observed.
  destruct (List.find _ _) as [r|] eqn:Hf.
  - apply find_some in Hf as [Hr%list_elem_of_In Hk%String.eqb_eq]. subst k.
    destruct (classify i r) as [e| |] eqn:Hc.
    + exfalso. apply Hno. pose proof (classify_event _ _ _ Hc) as [<- _].
      apply list_elem_of_fmap_2, elem_of_app. left. apply elem_of_events. by exists r.
    + unfold classify, newer in *. destruct (InCurrent i !! NKey r) as [c|]; [|done].
      destruct (ObservedAt i <? CLastConfirmedAt c); [done|]. by repeat case_match.
    + apply classify_confirm in Hc as (c & Hcur & Hnew & Hrow); [|done..].
      rewrite Hcur, Hnew. simpl. by rewrite Hrow.
  - apply find_record_none in Hf. destruct (InCurrent i !! k) as [c|] eqn:Hcur; [|done].
    destruct (Complete i && live_in_range i c && negb (newer i c)) eqn:Hc; [|done].
    exfalso. apply Hno. bool_to_prop.
    assert (Hrem : ∃ e, removal i k = Some e).
    { unfold removal. rewrite Hcur.
      assert (present i k = false) as ->.
      { apply not_true_is_false. by rewrite present_spec. }
      assert (live_in_range i c = true) as -> by done.
      assert ((ObservedAt i <? CLastConfirmedAt c) = false) as -> by done. simpl. by eexists. }
    destruct Hrem as [e He]. pose proof (removal_spec _ _ _ He) as (? & _ & _ & _ & _ & <- & _).
    apply list_elem_of_fmap_2, elem_of_app. right. apply elem_of_removals. split; [done|by eexists].
Qed.

Lemma diff_fold_rows (i : Input) (rows : gmap Identity FoldRow) :
  input_ok i → (∀ k, rows !! (rt, subject, k) = row_of <$> InCurrent i !! k) →
  let p := Diff i in
  let rows' := foldl (fold_step rename) rows
                 (stored_event rt subject version <$> Events p ++ Removals p) in
  (∀ k, rows' !! (rt, subject, k) = observed i k) ∧
  (∀ id, id.1 ≠ (rt, subject) → rows' !! id = rows !! id).
Proof.
  intros Hok Hrows p rows'.
  assert (Hids : FID <$> (stored_event rt subject version <$> Events p ++ Removals p)
    = (λ k, (rt, subject, k)) <$> (EKey <$> Events p ++ Removals p)).
  { by rewrite <- !list_fmap_compose. }
  assert (Hnd : NoDup (FID <$> (stored_event rt subject version <$> Events p ++ Removals p))).
  { rewrite Hids. by apply (NoDup_fmap_2 _), plan_keys_distinct. }
  split.
  - intros k. destruct (decide (k ∈ (EKey <$> Events p ++ Removals p))) as [Hin|Hno].
    + apply list_elem_of_fmap in Hin as (e & -> & He).
      rewrite <- (fold_event_row i e rows); [|done..].
      apply (fold_touched rename _ rows (stored_event rt subject version e) Hnd).
      by apply list_elem_of_fmap_2.
    + unfold rows'. rewrite fold_untouched, Hrows; [by rewrite no_event_row|].
      rewrite Hids. intros (k' & [= ->] & Hk)%list_elem_of_fmap. done.
  - intros id Hid. apply fold_untouched. rewrite Hids.
    intros (k & -> & _)%list_elem_of_fmap. done.
Qed.
End diff_fold.

(** A plan means what the snapshot says.  Folding the planned events
    over the rows they were computed against gives, for every record of the
    subject and type, exactly what the observation shows: the observed
    scope, audience and fields when the record is in the snapshot, removed
    when it is live in the scope and range of a complete snapshot that
    leaves it out, and unchanged when it was confirmed later or the
    snapshot says nothing about it; no other record changes. *)
Theorem diff_then_fold (rename : Rename) (rt subject : string) (version : Z) (i : Input) (rows : gmap Identity FoldRow) :
  (∀ k, rename rt version k = k) → input_ok i →
  (∀ k, rows !! (rt, subject, k) = row_of <$> InCurrent i !! k) →
  let p := Diff i in
  let rows' := foldl (fold_step rename) rows
                 (stored_event rt subject version <$> Events p ++ Removals p) in
  (∀ k, rows' !! (rt, subject, k) = observed i k) ∧
  (∀ id, id.1 ≠ (rt, subject) → rows' !! id = rows !! id).
Proof. intros Hren Hok Hrows. by apply diff_fold_rows. Qed.

(** ** The guard *)

(** The fraction test without floating point. *)
Definition hold_fraction (live removals : Z) : bool := (3 <? live) && (3 * live <? 10 * removals).

Definition guard_check (live : Z) : bool :=
  forallb (λ r, Bool.eqb (Hold DefaultGuard live (Z.of_nat r)) (hold_fraction live (Z.of_nat r)))
    (seq 0 (S (Z.to_nat live))).

Lemma guard_checked : forallb (λ i, guard_check (Z.of_nat i)) (seq 0 201) = true.
Proof. vm_compute. reflexivity. Qed.

Lemma guard_exact live removals :
  0 ≤ removals ≤ live → live ≤ 200 →
  Hold DefaultGuard live removals = true ↔ 3 < live ∧ 3 * live < 10 * removals.
Proof.
  intros Hr Hl.
  pose proof (check_below_Z guard_check 201 guard_checked live ltac:(lia)) as Hc.
  unfold guard_check in Hc.
  pose proof (check_below _ _ Hc (Z.to_nat removals) ltac:(lia)) as Hb. simpl in Hb.
  rewrite Z2Nat.id in Hb by lia. apply Bool.eqb_prop in Hb. rewrite Hb.
  unfold hold_fraction. by rewrite andb_true_iff, !Z.ltb_lt.
Qed.

(** The default removal guard, for scopes of up to two hundred live
    records: a snapshot is held exactly when more than three records are
    live and more than three tenths of them would be removed.  The
    comparison in binary floating point never differs from the exact one,
    at 30 percent itself in particular. *)
Theorem default_guard_exact live removals :
  0 ≤ removals ≤ live → live ≤ 200 →
  Hold DefaultGuard live removals = true ↔ 3 < live ∧ 3 * live < 10 * removals.
Proof. apply guard_exact. Qed.

(** ** Dates in order *)

Definition date_num (s : string) : Z :=
  match date_of s with Some (y, m, d) => y * 10000 + m * 100 + d | None => 0 end.

Lemma digit_byte a d : digit a = Some d → byte_of a = d + 48 ∧ 0 ≤ d < 10.
Proof.
  unfold digit, is_digit. destruct (_ && _) eqn:E; [|done]. intros [= <-]. bool_to_prop. lia.
Qed.

Lemma ascii_compare_byte a b : Ascii.compare a b = (byte_of a ?= byte_of b).
Proof. unfold Ascii.compare, byte_of. symmetry. apply N2Z.inj_compare. Qed.

Lemma string_compare_cons a s b t :
  String.compare (String a s) (String b t)
  = match byte_of a ?= byte_of b with Eq => String.compare s t | c => c end.
Proof. rewrite <- ascii_compare_byte. done. Qed.

(** A date text is ten characters: eight digits around two dashes. *)
Lemma date_of_text s r :
  date_of s = Some r →
  ∃ l a b c d e f g i, String.list_ascii_of_string s = l ∧
    l = [a; b; c; d; "-"%char; e; f; "-"%char; g; i] ∧
    Forall (λ x, ∃ v, digit x = Some v) [a; b; c; d; e; f; g; i].
Proof.
  unfold date_of. intros H. exists (String.list_ascii_of_string s).
  destruct (String.list_ascii_of_string s) as [|a [|b [|c [|d [|h1 [|e [|f [|h2 [|g [|i [|]]]]]]]]]]];
    try done.
  destruct (digit a) eqn:?, (digit b) eqn:?, (digit c) eqn:?, (digit d) eqn:?, (digit e) eqn:?,
    (digit f) eqn:?, (digit g) eqn:?, (digit i) eqn:?; try done.
  destruct (Ascii.eqb_spec h1 "-") as [->|]; [|done].
  destruct (Ascii.eqb_spec h2 "-") as [->|]; [|done].
  exists a, b, c, d, e, f, g, i. split_and!; [done..|]. repeat constructor; by eexists.
Qed.

Lemma date_compare s t :
  is_Some (date_of s) → is_Some (date_of t) →
  String.compare s t = (date_num s ?= date_num t).
Proof.
  intros [rs Hs] [rt Ht].
  destruct (date_of_text s rs Hs) as (l & a & b & c & d & e & f & g & i & El & -> & Hl).
  destruct (date_of_text t rt Ht) as (k & a' & b' & c' & d' & e' & f' & g' & i' & Ek & -> & Hk).
  rewrite <- (String.string_of_list_ascii_of_string s), <- (String.string_of_list_ascii_of_string t).
  unfold date_num, date_of. rewrite !String.list_ascii_of_string_of_list_ascii, El, Ek.
  clear Hs Ht rs rt El Ek s t.
  repeat match goal with H : Forall _ (_ :: _) |- _ =>
    apply Forall_cons in H as [[? ?] H] end. clear Hl Hk.
  repeat match goal with H : digit _ = Some _ |- _ =>
    rewrite H; let B := fresh "B" in pose proof (digit_byte _ _ H) as [B ?]; clear H end.
  cbn [String.string_of_list_ascii Ascii.eqb andb Bool.eqb].
  rewrite !string_compare_cons.
  repeat match goal with H : byte_of _ = _ |- _ => rewrite H; clear H end.
  change (byte_of "-") with 45. change (45 ?= 45) with Eq.
  change (String.compare EmptyString EmptyString) with Eq. cbn iota.
  repeat match goal with |- context [match ?x ?= ?y with _ => _ end] =>
    destruct (Z.compare_spec x y) end;
  symmetry; first [apply Z.compare_eq_iff; lia | apply Z.compare_lt_iff; lia
                  | apply Z.compare_gt_iff; lia].
Qed.

Lemma date_leb s t :
  is_Some (date_of s) → is_Some (date_of t) → String.leb s t = (date_num s <=? date_num t).
Proof. intros Hs Ht. unfold String.leb, Z.leb. by rewrite date_compare. Qed.

Lemma ValidDate_date s : ValidDate s = true → is_Some (date_of s).
Proof. unfold ValidDate. by destruct (date_of s). Qed.

(** ** Ranges *)

Definition plain_text (s : string) : bool := all_chars (λ a, plain_byte (byte_of a)) s.

Lemma plain_text_bytes s :
  plain_text s = true → Forall (λ x, plain_byte x = true) (bytes_of_string s).
Proof.
  induction s as [|a s IH]; [constructor|]. unfold plain_text. cbn [all_chars].
  rewrite andb_true_iff. intros [Ha Hs]. change (bytes_of_string (String a s))
    with (byte_of a :: bytes_of_string s). constructor; [done|by apply IH].
Qed.

Lemma plain_byte_range b : Forall (λ x, plain_byte x = true) b → Forall (λ x, 0 ≤ x < 128) b.
Proof.
  intros H. eapply Forall_impl; [exact H|]. cbv beta. intros x Hx. unfold plain_byte in Hx. bool_to_prop.
  rename select (within _ _ _ = true) into Hw. apply within_spec in Hw. lia.
Qed.

Lemma ascii_is_byte b : Forall (λ x, 0 ≤ x < 128) b → Forall is_byte b.
Proof. intros H. eapply Forall_impl; [exact H|]. unfold is_byte. cbv beta. lia. Qed.

(** The JSON text of a plain string is read back. *)
Lemma unmarshal_encode s : plain_text s = true → unmarshal_string (encode_string s) = Some s.
Proof.
  intros Hs%plain_text_bytes. unfold unmarshal_string, encode_string.
  pose proof (plain_byte_range _ Hs) as Hr.
  assert (Hb : bytes_of_string (string_of_bytes (quote (bytes_of_string s)))
    = quote (bytes_of_string s)).
  { apply bytes_of_string_of_bytes. rewrite quote_plain by done. apply ascii_is_byte.
    constructor; [lia|]. apply Forall_app. split; [done|]. by repeat constructor. }
  destruct (String.eqb_spec (string_of_bytes (quote (bytes_of_string s))) "null") as [E|_].
  - exfalso. rewrite E in Hb. rewrite quote_plain in Hb by done. done.
  - rewrite Hb. rewrite <- (encode_ascii _ Hr) at 1.
    rewrite (unquote_quote _ (ascii_scalar _ Hr)), (encode_ascii _ Hr). simpl.
    by rewrite string_of_bytes_of_string.
Qed.

Lemma digit_plain a v : digit a = Some v → plain_byte (byte_of a) = true.
Proof.
  intros [-> ?]%digit_byte. unfold plain_byte. rewrite (proj2 (within_spec _ _ _)) by lia.
  rewrite (proj2 (Z.eqb_neq _ 34)), (proj2 (Z.eqb_neq _ 92)) by lia. done.
Qed.

Lemma date_plain s : is_Some (date_of s) → plain_text s = true.
Proof.
  intros [r Hr]. destruct (date_of_text s r Hr) as (l & a & b & c & d & e & f & g & i & El & -> & Hl).
  rewrite <- (String.string_of_list_ascii_of_string s), El.
  repeat match goal with H : Forall _ (_ :: _) |- _ =>
    apply Forall_cons in H as [[? ?%digit_plain] H] end.
  unfold plain_text. cbn [String.string_of_list_ascii all_chars].
  rewrite !andb_true_iff. split_and!; done.
Qed.

(** A range is chronological.  For a range whose ends are dates, a
    stored date value lies in it exactly when its date is not before the
    first day and not after the last, although the code compares the texts
    byte by byte; and a value that is null or is not a date is never in it,
    so such a record is never removed by a windowed snapshot. *)
Theorem range_contains_dates r :
  ValidDate (RFrom r) = true → ValidDate (RTo r) = true →
  (∀ s, ValidDate s = true →
     Range_Contains r (Some (encode_string s)) = true ↔
     date_num (RFrom r) ≤ date_num s ≤ date_num (RTo r)) ∧
  (∀ v s, unmarshal_string v = Some s → ValidDate s = false → Range_Contains r (Some v) = false) ∧
  (∀ v, unmarshal_string v = None → Range_Contains r (Some v) = false) ∧
  Range_Contains r None = false.
Proof.
  intros Hf Ht. split_and!.
  - intros s Hs. unfold Range_Contains.
    rewrite unmarshal_encode by (by apply date_plain, ValidDate_date). rewrite Hs.
    rewrite !date_leb by (by apply ValidDate_date). simpl.
    by rewrite andb_true_iff, !Z.leb_le.
  - intros v s Hv Hs. unfold Range_Contains. by rewrite Hv, Hs.
  - intros v Hv. unfold Range_Contains. by rewrite Hv.
  - done.
Qed.

(** ** Witnesses *)

Definition sample_scope : string := "source=powerschool/surface=grades/data_subject=child1".

Definition sample_current : Current :=
  mkCurrent "gone" sample_scope ["guardians"%string] sample_fields false "h1" 0 0 ∅.

Definition sample_input : Input :=
  mkInput sample_scope true None 10 {[ "gone"%string := sample_current ]}
    [mkNormRecord "new" "child1" ["guardians"%string] sample_fields "h2"].

Lemma sample_input_ok : input_ok sample_input.
Proof.
  assert (Hcur : ∀ k c, InCurrent sample_input !! k = Some c → k = "gone"%string ∧ c = sample_current).
  { unfold sample_input. cbn [InCurrent]. intros k c [<- <-]%lookup_singleton_Some. done. }
  split.
  - apply NoDup_singleton.
  - intros k c [-> ->]%Hcur x v. simpl. unfold sample_fields.
    intros [<- <-]%lookup_singleton_Some. done.
  - intros k c r [-> ->]%Hcur Hr%list_elem_of_singleton. by subst r.
  - done.
  - by intros k c [-> ->]%Hcur.
Qed.

Lemma diff_then_fold_witness :
  observed sample_input "gone"
    = Some (mkFoldRow sample_scope ["guardians"%string] sample_fields true) ∧
  foldl (fold_step (λ _ _ k, k)) {[ ("grade", "child1", "gone")%string := row_of sample_current ]}
    (stored_event "grade" "child1" 1 <$>
       Events (Diff sample_input) ++ Removals (Diff sample_input))
    !! ("grade", "child1", "gone")%string = observed sample_input "gone".
Proof.
  split; [vm_compute; reflexivity|].
  apply (diff_then_fold (λ _ _ k, k) "grade" "child1" 1 sample_input).
  - reflexivity.
  - exact sample_input_ok.
  - intros k. destruct (decide (k = "gone"%string)) as [->|Hne]; [reflexivity|].
    simpl. rewrite !lookup_singleton_ne by congruence. reflexivity.
Defined.

Lemma default_guard_exact_witness : Hold DefaultGuard 10 4 = true.
Proof. apply (default_guard_exact 10 4); lia. Defined.

Lemma range_contains_dates_witness :
  Range_Contains (mkRange "date" "2026-09-01" "2026-10-15") (Some (encode_string "2026-09-30")) = true.
Proof.
  apply (range_contains_dates (mkRange "date" "2026-09-01" "2026-10-15")).
  - vm_compute. reflexivity.
  - vm_compute. reflexivity.
  - vm_compute. reflexivity.
  - vm_compute. split; discriminate.
Defined.
