(* ===== verification/JValue.v ===== *)
(** internal/journal/record/value.go and fields.go: one canonical encoding
    per field value. *)
From S2P Require Import Prelude GoStrings GoTime StrOrder Utf8 JsonString JRecord JDiff.
Local Open Scope Z_scope.

Definition MaxStringBytes : Z := 1024.
Definition MaxTextBytes : Z := 65536.
Definition MaxListItems : Z := 256.

(** ** Strings *)

Definition is_text (t : FieldType) : bool := bool_decide (t = TText).

Definition replace_suspicious (r : Z) : Z := if suspicious r then RuneError else r.

(** The size and character rules, and the bytes to store. *)
Definition checkString (t : FieldType) (s : bytes) : res Rejection bytes :=
  let rs := runes s in
  if existsb (λ r, (r =? 0) || (negb (is_text t) && ((r <? 32) || (r =? 127)))) rs then Err schemaErr
  else
    let s' := if negb (is_text t) && existsb suspicious rs then encode (replace_suspicious <$> rs) else s in
    if (if is_text t then MaxTextBytes else MaxStringBytes) <? Z.of_nat (length s') then Err tooLarge
    else Ok s'.

(** ** JSON values

    A value is trimmed first, so no white space surrounds it. *)
Definition json_space (b : Z) : bool := (b =? 32) || (b =? 9) || (b =? 10) || (b =? 13).

Fixpoint skip_space (s : bytes) : bytes :=
  match s with
  | a :: r => if json_space a then skip_space r else s
  | [] => []
  end.

(** The rest of a string literal after its opening quote, closing quote
    included, and what follows it. *)
Fixpoint literal_rest (esc : bool) (s : bytes) : option (bytes * bytes) :=
  match s with
  | [] => None
  | a :: r =>
      if negb esc && (a =? 34) then Some ([a], r)
      else (λ '(l, k), (a :: l, k)) <$> literal_rest (negb esc && (a =? 92)) r
  end.

(** One item of a list of strings: null or a string. *)
Definition list_item (s : bytes) : option (option bytes * bytes) :=
  match s with
  | 34 :: r =>
      match literal_rest false r with
      | Some (l, k) => (λ b, (Some b, k)) <$> unquote (34 :: l)
      | None => None
      end
  | 110 :: 117 :: 108 :: 108 :: k => Some (None, k)
  | _ => None
  end.

(** The items after the opening bracket; each takes at least a byte. *)
Fixpoint list_items (fuel : nat) (s : bytes) : option (list (option bytes)) :=
  match fuel with
  | O => None
  | S n =>
      match list_item (skip_space s) with
      | None => None
      | Some (x, k) =>
          match skip_space k with
          | 44 :: k => (λ l, x :: l) <$> list_items n k
          | [93] => Some [x]
          | _ => None
          end
      end
  end.

(** json.Unmarshal into a list of string pointers. *)
Definition unmarshal_list (s : bytes) : option (list (option bytes)) :=
  match s with
  | 91 :: r =>
      match skip_space r with
      | [93] => Some []
      | r => list_items (length r) r
      end
  | _ => None
  end.

(** checkString on every item; a null item is refused. *)
Fixpoint check_items (l : list (option bytes)) : res Rejection (list bytes) :=
  match l with
  | [] => Ok []
  | None :: _ => Err schemaErr
  | Some s :: r =>
      match checkString TString s with
      | Err e => Err e
      | Ok s => match check_items r with Err e => Err e | Ok k => Ok (s :: k) end
      end
  end.

Fixpoint join_bytes (l : list bytes) : bytes :=
  match l with
  | [] => []
  | [x] => x
  | x :: r => x ++ 44 :: join_bytes r
  end.

Definition encode_list (l : list bytes) : bytes := 91 :: join_bytes (quote <$> l) ++ [93].

(** The digits of an integer as JSON writes it: no leading zero. *)
Definition int_digits (s : string) : bool :=
  match s with
  | String a EmptyString => is_digit a
  | String a r => is_digit a && negb (Ascii.eqb a "0") && all_chars is_digit r
  | EmptyString => false
  end.
Definition int_literal (s : string) : bool :=
  match s with
  | String a r => if Ascii.eqb a "-" then int_digits r else int_digits s
  | EmptyString => false
  end.

(** ** NormalizeValue *)

Section value.
(** strconv.ParseFloat of a JSON number and its encoding; time.Parse of an
    RFC 3339 timestamp and its UTC form; None when they refuse. *)
Context (float_text timestamp_text : string → option string).

Definition of_bytes (b : bytes) : string := string_of_bytes (quote b).

Definition string_value (t : FieldType) (v : string) : res Rejection (option string) :=
  match unmarshal_string v with
  | None => Err schemaErr
  | Some s => match checkString t (bytes_of_string s) with
              | Err e => Err e
              | Ok b => Ok (Some (of_bytes b))
              end
  end.

Definition list_value (v : string) : res Rejection (option string) :=
  match unmarshal_list (bytes_of_string v) with
  | None => Err schemaErr
  | Some l =>
      if MaxListItems <? Z.of_nat (length l) then Err tooLarge
      else match check_items l with
           | Err e => Err e
           | Ok k => Ok (Some (string_of_bytes (encode_list k)))
           end
  end.

Definition or_schema (o : option string) : res Rejection (option string) :=
  match o with Some s => Ok (Some s) | None => Err schemaErr end.

Definition NormalizeValue (t : FieldType) (raw : string) : res Rejection (option string) :=
  let v := trim_space raw in
  if String.eqb v "" || String.eqb v "null" then Ok None
  else match t with
       | TString | TText => string_value t v
       | TInt => or_schema (if int_literal v then itoa <$> atoi v else None)
       | TNumber => or_schema (float_text v)
       | TBool => or_schema (if String.eqb v "true" || String.eqb v "false" then Some v else None)
       | TDate =>
           or_schema (unmarshal_string v ≫= λ s, if ValidDate s then Some (encode_string s) else None)
       | TTimestamp => or_schema (unmarshal_string v ≫= λ s, encode_string <$> timestamp_text s)
       | TStringList => list_value v
       | TUnknown _ => Err schemaErr
       end.

(** ** Fields *)

(** The loop over the sorted names. *)
Fixpoint normalize_names (t : Type_) (inp : Fields) (names : list string) (out : Fields)
    : res Rejection Fields :=
  match names with
  | [] => Ok out
  | name :: rest =>
      match TFields t !! name with
      | None => Err schemaErr
      | Some def =>
          match NormalizeValue (FType def) (default "" (inp !! name))%string with
          | Err e => Err e
          | Ok (Some v) => normalize_names t inp rest (<[name := v]> out)
          | Ok None => normalize_names t inp rest out
          end
      end
  end.

Definition NormalizeFields (t : Type_) (inp : Fields) : res Rejection Fields :=
  match normalize_names t inp (sorted_keys inp) ∅ with
  | Err e => Err e
  | Ok out =>
      if map_all (λ name def, negb (FRequired def) || declared out name) (TFields t)
      then Ok out else Err schemaErr
  end.

(** Reload, from the decoded object: declared values to canonical form,
    other names as stored. *)
Definition Reload (t : Type_) (inp : Fields) : option Fields :=
  foldr (λ name (acc : option Fields),
    match acc with
    | None => None
    | Some out =>
        let v := default "" (inp !! name)%string in
        match TFields t !! name with
        | None => Some (<[name := v]> out)
        | Some def =>
            match NormalizeValue (FType def) v with
            | Err _ => None
            | Ok (Some nv) => Some (<[name := nv]> out)
            | Ok None => Some out
            end
        end
    end) (Some ∅) (sorted_keys inp).
End value.

(** ** What decoding and encoding strings gives *)

(** The bytes of some scalar values. *)
Definition utf8 (b : bytes) : Prop := ∃ rs, Forall (λ r, scalar r = true) rs ∧ b = encode rs.

Lemma encode_rune_utf8 r : encode_rune r = encode [norm_rune r].
Proof. unfold encode. cbn [mbind list_bind]. by rewrite app_nil_r, encode_rune_norm. Qed.

Lemma encode_app rs ks : encode (rs ++ ks) = encode rs ++ encode ks.
Proof. unfold encode. by rewrite bind_app. Qed.

Lemma unquote_skip_utf8 s : ∀ n b, unquote_skip n s = Some b → utf8 b.
Proof.
  induction s as [|a s IH]; intros n b H; [by destruct n|]. cbn [unquote_skip] in H.
  destruct n as [|n]; [|by eapply IH].
  assert (Hc : ∀ c m, (λ l, encode_rune c ++ l) <$> unquote_skip m s = Some b → utf8 b).
  { intros c m (l & (rs & Hrs & ->)%IH & ->)%fmap_Some. exists (norm_rune c :: rs). split.
    - constructor; [apply scalar_norm|done].
    - by rewrite encode_rune_utf8, <- encode_app. }
  destruct (a =? 34); [destruct s; [|done]; injection H as <-; by exists []|].
  destruct (a =? 92); [destruct (unescape s) as [[c w]|]; [by eapply Hc|done]|].
  destruct (a <? 32); [done|]. destruct (decode_rune _) as [c w]. by eapply Hc.
Qed.

Lemma unquote_utf8 s b : unquote s = Some b → utf8 b.
Proof.
  unfold unquote. destruct s as [|a s]; [done|].
  destruct (Z.eq_dec a 34) as [->|Hne]; [apply unquote_skip_utf8|].
  intros H. exfalso. revert H. repeat case_match; done.
Qed.

Lemma Forall_byte_bind {A} (f : A → bytes) (P : A → Prop) l :
  (∀ x, P x → Forall is_byte (f x)) → Forall P l → Forall is_byte (l ≫= f).
Proof.
  intros Hf. induction 1 as [|x l Hx _ IH]; [constructor|]. rewrite bind_cons.
  apply Forall_app. auto.
Qed.

Lemma encode_rune_bytes r : scalar r = true → Forall is_byte (encode_rune r).
Proof.
  intros Hs. pose proof (Z.mod_pos_bound r 64 ltac:(lia)). unfold is_byte.
  destruct (encode_cases r Hs) as [[Hr ->]|[(q & Hq & Hr & ->)|[(q & p & _ & Hq & Hp & Hr & _ & ->)
    |(q & p & o & _ & Hq & Hp & Ho & Hr & _ & ->)]]]; repeat constructor; lia.
Qed.

Lemma hex_digit_byte n : 0 ≤ n < 16 → is_byte (hex_digit n).
Proof. unfold hex_digit, is_byte. destruct (n <? 10); lia. Qed.

Lemma quote_rune_bytes r : scalar r = true → Forall is_byte (quote_rune false r).
Proof.
  intros Hs. assert (0 ≤ r) by (unfold scalar in Hs; rewrite orb_true_iff, !within_spec in Hs; lia).
  unfold quote_rune.
  repeat (match goal with |- context [if ?b then _ else _] => destruct b eqn:? end;
    [repeat constructor; try (unfold is_byte; lia)|]); [..|by apply encode_rune_bytes];
  apply hex_digit_byte; repeat match goal with H : (_ <? _) = true |- _ => apply Z.ltb_lt in H end;
  Z.to_euclidean_division_equations; lia.
Qed.

Lemma quote_encode rs :
  Forall (λ r, scalar r = true) rs → quote (encode rs) = 34 :: (rs ≫= quote_rune false) ++ [34].
Proof.
  intros Hrs. unfold quote. cbn [app]. f_equal. f_equal. induction Hrs as [|r rs Hr _ IH]; [done|].
  change (encode (r :: rs)) with (encode_rune r ++ encode rs). by rewrite quote_encode_rune, IH, bind_cons.
Qed.

Lemma utf8_bytes b : utf8 b → Forall is_byte b.
Proof. intros (rs & Hrs & ->). by apply (Forall_byte_bind _ _ _ encode_rune_bytes). Qed.

Lemma quote_bytes b : utf8 b → Forall is_byte (quote b).
Proof.
  intros (rs & Hrs & ->). rewrite quote_encode by done. constructor; [unfold is_byte; lia|].
  apply Forall_app. split; [by apply (Forall_byte_bind _ _ _ quote_rune_bytes)|].
  repeat constructor; lia.
Qed.

Lemma quote_ends b : utf8 b → ∃ m, quote b = 34 :: m ++ [34].
Proof. intros (rs & Hrs & ->). rewrite quote_encode by done. by eexists. Qed.

Lemma unquote_quote_utf8 b : utf8 b → unquote (quote b) = Some b.
Proof. intros (rs & Hrs & ->). by apply unquote_quote. Qed.

Lemma of_bytes_bytes b : utf8 b → bytes_of_string (of_bytes b) = quote b.
Proof. intros Hb. by apply bytes_of_string_of_bytes, quote_bytes. Qed.

Lemma unmarshal_of_bytes b : utf8 b → unmarshal_string (of_bytes b) = Some (string_of_bytes b).
Proof.
  intros Hb. unfold unmarshal_string. destruct (String.eqb_spec (of_bytes b) "null") as [E|_].
  - exfalso. apply (f_equal bytes_of_string) in E. rewrite of_bytes_bytes in E by done.
    destruct (quote_ends b Hb) as [m Hm]. by rewrite Hm in E.
  - by rewrite of_bytes_bytes, unquote_quote_utf8.
Qed.

Lemma unmarshal_utf8 v s : unmarshal_string v = Some s → v ≠ "null"%string → utf8 (bytes_of_string s).
Proof.
  unfold unmarshal_string. destruct (String.eqb_spec v "null"); [done|].
  intros (b & Hb%unquote_utf8 & ->)%fmap_Some _. by rewrite bytes_of_string_of_bytes by (by apply utf8_bytes).
Qed.

(** ** Trimming *)

Lemma trim_of_bytes a m z :
  within 33 126 a = true → within 33 126 z = true →
  let s := string_of_bytes (a :: m ++ [z]) in trim_space s = s ∧ s ≠ ""%string.
Proof.
  intros Ha Hz s.
  assert (Hv : ∀ x, within 33 126 x = true → visible (ascii_of_N (Z.to_N x)) = true).
  { intros x Hx. apply within_spec in Hx. unfold visible, byte_of. rewrite N_ascii_embedding by lia.
    rewrite Z2N.id by lia. apply andb_true_iff. rewrite !Z.leb_le. lia. }
  split; [|done]. unfold s, string_of_bytes. rewrite fmap_cons, fmap_app.
  apply (trim_space_ends _ _ (ascii_of_N (Z.to_N z))); auto.
Qed.

(** ** Canonical strings *)

Lemma existsb_In {A} (f : A → bool) l : existsb f l = false ↔ ∀ x, x ∈ l → f x = false.
Proof. apply existsb_false. Qed.

Lemma runes_utf8 rs : Forall (λ r, scalar r = true) rs → runes (encode rs) = rs.
Proof.
  intros Hrs. rewrite runes_encode. induction Hrs as [|r rs Hr _ IH]; [done|].
  rewrite fmap_cons, IH. by rewrite norm_scalar.
Qed.

Lemma replace_scalar r : scalar r = true → scalar (replace_suspicious r) = true.
Proof. unfold replace_suspicious. by destruct (suspicious r). Qed.

Lemma replace_clean rs : existsb suspicious (replace_suspicious <$> rs) = false.
Proof.
  apply existsb_In. intros x (r & -> & _)%list_elem_of_fmap. unfold replace_suspicious.
  by destruct (suspicious r) eqn:E.
Qed.

Definition refused (t : FieldType) (r : Z) : bool :=
  (r =? 0) || (negb (is_text t) && ((r <? 32) || (r =? 127))).

(** What checkString returns is UTF-8, holds no refused rune, and is
    returned again as it is. *)
Lemma checkString_fix t b b' :
  utf8 b → checkString t b = Ok b' →
  utf8 b' ∧ existsb (refused t) (runes b') = false ∧ checkString t b' = Ok b'.
Proof.
  intros (rs & Hrs & ->). unfold checkString. fold (refused t). rewrite runes_utf8 by done.
  destruct (existsb (refused t) rs) eqn:Hbad; [done|].
  set (rs' := if negb (is_text t) && existsb suspicious rs then replace_suspicious <$> rs else rs).
  assert (Hrs' : Forall (λ r, scalar r = true) rs').
  { unfold rs'. destruct (_ && _); [|done]. apply Forall_fmap. eapply Forall_impl; [exact Hrs|].
    intros r Hr. by apply replace_scalar. }
  assert (Hbad' : existsb (refused t) rs' = false).
  { unfold rs'. destruct (_ && _); [|done]. apply existsb_In. intros x (r & -> & Hr)%list_elem_of_fmap.
    rewrite existsb_In in Hbad. unfold replace_suspicious. destruct (suspicious r); [|by apply Hbad].
    unfold refused. by destruct (is_text t). }
  assert (Hclean : negb (is_text t) && existsb suspicious rs' = false).
  { unfold rs'. destruct (negb (is_text t)); [|done]. simpl.
    destruct (existsb suspicious rs) eqn:E; [apply replace_clean|done]. }
  assert ((if negb (is_text t) && existsb suspicious rs then encode (replace_suspicious <$> rs)
           else encode rs) = encode rs') as -> by (unfold rs'; by destruct (_ && _)).
  destruct (_ <? _) eqn:Hlen; [done|]. intros [= <-].
  rewrite runes_utf8, Hbad', Hclean, Hlen by done. split_and!; [by exists rs'|done|done].
Qed.

Lemma trim_quoted b : utf8 b → trim_space (of_bytes b) = of_bytes b ∧ of_bytes b ≠ ""%string ∧ of_bytes b ≠ "null"%string.
Proof.
  intros Hb. unfold of_bytes. destruct (quote_ends b Hb) as [m Hm]. rewrite Hm.
  destruct (trim_of_bytes 34 m 34 eq_refl eq_refl) as [H1 H2]. split_and!; [done|done|].
  intros E. by apply (f_equal (String.get 0)) in E.
Qed.

(** No NUL byte in the text of a value. *)
Lemma quote_rune_no_nul r : scalar r = true → Forall (λ x, x ≠ 0) (quote_rune false r).
Proof.
  intros Hs. assert (0 ≤ r) by (unfold scalar in Hs; rewrite orb_true_iff, !within_spec in Hs; lia).
  assert (Hh : ∀ n, 0 ≤ n → hex_digit n ≠ 0) by (intros n ?; unfold hex_digit; destruct (n <? 10); lia).
  unfold quote_rune.
  repeat (match goal with |- context [if ?b then _ else _] => destruct b eqn:? end;
    [repeat constructor; try lia|]);
    try (apply Hh; Z.to_euclidean_division_equations; lia).
  destruct (Z.ltb_spec r 32); [done|].
  destruct (encode_cases r Hs) as [[Hr ->]|[(q & Hq & Hr & ->)|[(q & p & _ & Hq & Hp & Hr & _ & ->)
    |(q & p & o & _ & Hq & Hp & Ho & Hr & _ & ->)]]];
    pose proof (Z.mod_pos_bound r 64 ltac:(lia)); repeat constructor; lia.
Qed.

Lemma quote_no_nul b : utf8 b → Forall (λ x, x ≠ 0) (quote b).
Proof.
  intros (rs & Hrs & ->). rewrite quote_encode by done. constructor; [done|]. apply Forall_app. split.
  - induction Hrs as [|r rs Hr _ IH]; [constructor|]. rewrite bind_cons. apply Forall_app.
    split; [by apply quote_rune_no_nul|done].
  - by repeat constructor.
Qed.

Lemma no_nul_bytes b : Forall is_byte b → Forall (λ x, x ≠ 0) b → no_nul (string_of_bytes b) = true.
Proof.
  intros Hb Hn. unfold no_nul, string_of_bytes. induction Hb as [|x b Hx Hb IH]; [done|].
  apply Forall_cons in Hn as [Hx0 Hn]. rewrite fmap_cons. cbn [String.string_of_list_ascii no_char].
  rewrite IH by done. rewrite andb_true_r. apply negb_true_iff, Ascii.eqb_neq. intros E.
  apply (f_equal N_of_ascii) in E. unfold is_byte in Hx. rewrite N_ascii_embedding in E by lia.
  change (N_of_ascii Ascii.zero) with 0%N in E. lia.
Qed.

(** ** Integers *)

Lemma digit_char x : (x < 10)%N → is_digit (pretty_N_char x) = true ∧ byte_of (pretty_N_char x) = 48 + Z.of_N x.
Proof.
  intros Hx. assert (Hall : forallb (λ n : nat, let c := pretty_N_char (N.of_nat n) in
    is_digit c && (byte_of c =? 48 + Z.of_nat n)) (seq 0 10) = true) by (by vm_compute).
  pose proof (check_below _ _ Hall (N.to_nat x) ltac:(lia)) as H. cbv beta zeta in H.
  rewrite N2Nat.id in H. apply andb_true_iff in H as [H1 H2%Z.eqb_eq]. split; [done|]. lia.
Qed.

Lemma digits_value_app v s t :
  digits_value v (s ++ t) = digits_value v s ≫= λ w, digits_value w t.
Proof.
  revert v. induction s as [|a s IH]; intros v; [done|]. rewrite str_app_cons. cbn [digits_value].
  destruct (is_digit a); [apply IH|done].
Qed.

Lemma app_assoc_string (a b c : string) : ((a ++ b) ++ c = a ++ (b ++ c))%string.
Proof. apply app_assoc_str. Qed.

(** The digits pretty prints: no leading zero, and their value. *)
Lemma pretty_go_digits x : (0 < x)%N → ∀ s, ∃ a d,
  pretty_N_go x s = (String a d ++ s)%string ∧ is_digit a = true ∧ a ≠ "0"%char ∧
  all_chars is_digit d = true ∧ digits_value 0 (String a d) = Some (Z.of_N x).
Proof.
  induction (N.lt_wf_0 x) as [x _ IH]. intros Hx s. rewrite pretty_N_go_step by done.
  destruct (digit_char (x mod 10) ltac:(by apply N.mod_lt)) as [Hd Hb].
  pose proof (N.div_mod x 10 ltac:(done)) as Hdm.
  destruct (decide (x / 10 = 0)%N) as [H0|H0].
  - rewrite H0, pretty_N_go_0. eexists _, EmptyString. split_and!; [done|done| |done|].
    + intros E. rewrite E in Hb. change (byte_of "0") with 48 in Hb. lia.
    + cbn [digits_value]. rewrite Hd, Hb. f_equal. lia.
  - destruct (IH (x / 10)%N ltac:(by apply N.div_lt) (proj1 (N.neq_0_lt_0 _) H0)
      (String (pretty_N_char (x mod 10)) s)) as (a & d & -> & Ha & Hz & Hall & Hv).
    exists a, (d ++ String (pretty_N_char (x mod 10)) EmptyString)%string. split_and!; [| |done| |].
    + by rewrite !str_app_cons, app_assoc_string, str_app_cons.
    + done.
    + clear -Hall Hd. induction d as [|b d IHd]; cbn [all_chars] in *; rewrite ?str_app_cons; cbn [all_chars].
      * change (is_digit (pretty_N_char (x mod 10)) && true = true). by rewrite Hd.
      * apply andb_true_iff in Hall as [-> Hall]. by apply IHd.
    + rewrite <- str_app_cons, digits_value_app, Hv. cbn [mbind option_bind digits_value].
      rewrite Hd, Hb. f_equal. lia.
Qed.

Lemma int_digits_cons a d :
  is_digit a = true → a ≠ "0"%char → all_chars is_digit d = true → int_digits (String a d) = true.
Proof.
  intros H1 H2 H3. cbn [int_digits]. destruct d as [|b d]; [done|].
  rewrite H1, H3. cbn [andb]. rewrite andb_true_r. by apply negb_true_iff, Ascii.eqb_neq.
Qed.

Lemma pretty_digits (p : positive) : ∃ a d,
  pretty (N.pos p) = String a d ∧ int_digits (String a d) = true ∧ is_digit a = true ∧
  all_chars is_digit (String a d) = true ∧ digits_value 0 (String a d) = Some (Z.pos p).
Proof.
  destruct (pretty_go_digits (N.pos p) ltac:(lia) "") as (a & d & E & Ha & Hz & Hall & Hv).
  exists a, d. unfold pretty, pretty_N. rewrite decide_False by done. rewrite E, app_nil_str.
  refine (conj eq_refl (conj _ (conj Ha (conj _ Hv)))); [by apply int_digits_cons|].
  cbn [all_chars]. by rewrite Ha.
Qed.

Lemma digit_not_sign a : is_digit a = true → Ascii.eqb a "-" = false ∧ Ascii.eqb a "+" = false ∧ visible a = true.
Proof.
  unfold is_digit, visible. cbv zeta. rewrite !andb_true_iff, !Z.leb_le. intros H.
  split_and!; [apply Ascii.eqb_neq; intros ->; change (byte_of "-") with 45 in H; lia
    |apply Ascii.eqb_neq; intros ->; change (byte_of "+") with 43 in H; lia|lia..].
Qed.

Lemma digits_visible s : all_chars is_digit s = true → all_visible s = true.
Proof.
  induction s as [|a s IH]; [done|]. cbn [all_chars all_visible]. intros [Ha Hs]%andb_true_iff.
  rewrite IH by done. by rewrite (proj2 (proj2 (digit_not_sign a Ha))).
Qed.

(** An integer's text is read back, and is a JSON integer. *)
Lemma itoa_literal z :
  min_int64 ≤ z ≤ max_int64 →
  int_literal (itoa z) = true ∧ atoi (itoa z) = Some z ∧ all_visible (itoa z) = true.
Proof.
  intros Hz. destruct z as [|p|p]; [done| |].
  - change (itoa (Z.pos p)) with (pretty (N.pos p)).
    destruct (pretty_digits p) as (a & d & -> & Hi & Ha & Hall & Hv).
    destruct (digit_not_sign a Ha) as (H1 & H2 & _).
    unfold int_literal, atoi. rewrite H1, H2, Hv. split_and!; [done| |by apply digits_visible].
    rewrite (proj2 (Z.leb_le _ _)) by lia. by rewrite (proj2 (Z.leb_le _ _)) by lia.
  - change (itoa (Z.neg p)) with ("-" ++ pretty (N.pos p))%string. rewrite str_app_cons.
    destruct (pretty_digits p) as (a & d & -> & Hi & Ha & Hall & Hv).
    unfold int_literal, atoi. cbn [Ascii.eqb Bool.eqb]. change ("" ++ String a d)%string with (String a d).
    split_and!; [done| |by apply (digits_visible (String a d))].
    cbn iota. rewrite Hv. change (- Z.pos p) with (Z.neg p).
    rewrite (proj2 (Z.leb_le _ _)) by lia. by rewrite (proj2 (Z.leb_le _ _)) by lia.
Qed.

(** ** Lists of strings *)

Lemma literal_plain c s :
  Forall (λ x, x ≠ 34 ∧ x ≠ 92) c →
  literal_rest false (c ++ s) = (λ '(l, k), (c ++ l, k)) <$> literal_rest false s.
Proof.
  induction 1 as [|x c [H1 H2] _ IH]; cbn [app literal_rest].
  - by destruct (literal_rest false s) as [[l k]|].
  - rewrite (proj2 (Z.eqb_neq x 34)), (proj2 (Z.eqb_neq x 92)) by done. cbn [negb andb]. rewrite IH.
    by destruct (literal_rest false s) as [[l k]|].
Qed.

Lemma literal_escape x c s :
  Forall (λ x, x ≠ 34 ∧ x ≠ 92) c →
  literal_rest false ((92 :: x :: c) ++ s) = (λ '(l, k), ((92 :: x :: c) ++ l, k)) <$> literal_rest false s.
Proof.
  intros Hc. cbn [app literal_rest negb andb Z.eqb Pos.eqb]. rewrite literal_plain by done.
  by destruct (literal_rest false s) as [[l k]|].
Qed.

Lemma encode_rune_plain r :
  scalar r = true → 32 ≤ r → r ≠ 34 → r ≠ 92 → Forall (λ x, x ≠ 34 ∧ x ≠ 92) (encode_rune r).
Proof.
  intros Hs H32 H34 H92. pose proof (Z.mod_pos_bound r 64 ltac:(lia)).
  destruct (encode_cases r Hs) as [[Hr ->]|[(q & Hq & Hr & ->)|[(q & p & _ & Hq & Hp & Hr & _ & ->)
    |(q & p & o & _ & Hq & Hp & Ho & Hr & _ & ->)]]]; repeat constructor; lia.
Qed.

Lemma hex_digit_plain n : 0 ≤ n < 16 → hex_digit n ≠ 34 ∧ hex_digit n ≠ 92.
Proof. unfold hex_digit. destruct (Z.ltb_spec n 10); lia. Qed.

Lemma literal_quote_rune r s :
  scalar r = true →
  literal_rest false (quote_rune false r ++ s)
  = (λ '(l, k), (quote_rune false r ++ l, k)) <$> literal_rest false s.
Proof.
  intros Hs. assert (0 ≤ r) by (unfold scalar in Hs; rewrite orb_true_iff, !within_spec in Hs; lia).
  unfold quote_rune.
  destruct (Z.eqb_spec r 34); [by apply literal_escape|].
  destruct (Z.eqb_spec r 92); [by apply literal_escape|].
  destruct (Z.eqb_spec r 8); [by apply literal_escape|].
  destruct (Z.eqb_spec r 12); [by apply literal_escape|].
  destruct (Z.eqb_spec r 10); [by apply literal_escape|].
  destruct (Z.eqb_spec r 13); [by apply literal_escape|].
  destruct (Z.eqb_spec r 9); [by apply literal_escape|].
  destruct (Z.ltb_spec r 32).
  { apply literal_escape. repeat constructor; try lia;
      apply hex_digit_plain; Z.to_euclidean_division_equations; lia. }
  destruct (_ || _).
  { apply literal_escape. repeat constructor; try lia;
      apply hex_digit_plain; Z.to_euclidean_division_equations; lia. }
  apply literal_plain, encode_rune_plain; lia || done.
Qed.

Lemma literal_quoted b k :
  utf8 b → ∃ m, quote b = 34 :: m ∧ literal_rest false (m ++ k) = Some (m, k).
Proof.
  intros (rs & Hrs & ->). rewrite quote_encode by done. eexists. split; [done|].
  rewrite <- app_assoc. cbn [app].
  induction Hrs as [|r rs Hr _ IH]; [done|].
  rewrite bind_cons, <- app_assoc, literal_quote_rune, IH by done. cbn. by rewrite <- app_assoc.
Qed.

Lemma list_item_quoted b k : utf8 b → list_item (quote b ++ k) = Some (Some b, k).
Proof.
  intros Hb. destruct (literal_quoted b k Hb) as (m & Hm & Hl). rewrite Hm. cbn [app list_item].
  rewrite Hl, <- Hm, unquote_quote_utf8 by done. done.
Qed.

Lemma skip_quoted b k : utf8 b → skip_space (quote b ++ k) = quote b ++ k.
Proof. intros Hb. by destruct (quote_ends b Hb) as [m ->]. Qed.

Lemma list_items_join l b n :
  Forall utf8 (b :: l) → (length l < n)%nat →
  list_items n (join_bytes (quote <$> b :: l) ++ [93]) = Some (Some <$> b :: l).
Proof.
  revert b n. induction l as [|b' l IH]; intros b n Hl Hn; (destruct n as [|n]; [lia|]);
    apply Forall_cons in Hl as [Hb Hl]; cbn [list_items].
  - cbn [fmap list_fmap join_bytes]. by rewrite skip_quoted, list_item_quoted by done.
  - change (join_bytes (quote <$> b :: b' :: l)) with (quote b ++ 44 :: join_bytes (quote <$> b' :: l)).
    rewrite <- app_assoc, skip_quoted, list_item_quoted by done. cbn [app skip_space json_space orb Z.eqb Pos.eqb].
    rewrite IH; [done|done|]. cbn [length] in Hn. lia.
Qed.

Lemma join_length l : (length l ≤ S (length (join_bytes l)))%nat.
Proof.
  induction l as [|x [|y l] IH]; [simpl; lia..|]. cbn [join_bytes length] in *. rewrite length_app.
  cbn [length]. lia.
Qed.

Lemma unmarshal_encode_list l : Forall utf8 l → unmarshal_list (encode_list l) = Some (Some <$> l).
Proof.
  intros Hl. unfold encode_list, unmarshal_list. destruct l as [|b l]; [done|].
  set (r := join_bytes (quote <$> b :: l) ++ [93]).
  assert (Hr : ∃ m, r = 34 :: m).
  { apply Forall_cons in Hl as [Hb _]. destruct (quote_ends b Hb) as [m Hm].
    unfold r. destruct l as [|b' l]; cbn [fmap list_fmap join_bytes]; rewrite Hm; by eexists. }
  destruct Hr as [m Hr].
  assert (Hs : skip_space r = r) by (by rewrite Hr).
  transitivity (list_items (length r) r); [by rewrite Hs, Hr|].
  unfold r at 2. apply list_items_join; [done|]. unfold r. rewrite length_app.
  pose proof (join_length (quote <$> b :: l)) as Hj. rewrite length_fmap in Hj. cbn [length] in *. lia.
Qed.

Lemma list_item_utf8 s b k : list_item s = Some (Some b, k) → utf8 b.
Proof.
  unfold list_item. intros H.
  assert (Hq : ∀ r, match literal_rest false r with
                    | Some (l, k) => (λ b, (Some b, k)) <$> unquote (34 :: l)
                    | None => None end = Some (Some b, k) → utf8 b).
  { intros r. destruct (literal_rest false r) as [[l k']|]; [|done].
    intros (b' & Hb & [= -> ->])%fmap_Some. by apply unquote_utf8 in Hb. }
  revert H. destruct s as [|a s]; [done|]. destruct (Z.eq_dec a 34) as [->|Hne]; [apply Hq|].
  repeat case_match; done.
Qed.

Lemma list_items_utf8 n s l : list_items n s = Some l → Forall (λ o, ∀ b, o = Some b → utf8 b) l.
Proof.
  revert s l. induction n as [|n IH]; intros s l; [done|]. cbn [list_items].
  destruct (list_item (skip_space s)) as [[x k]|] eqn:Hi; [|done]. intros H.
  assert (Hx : ∀ b, x = Some b → utf8 b) by (intros b ->; by apply list_item_utf8 in Hi).
  assert (Hc : ∀ k, (λ l, x :: l) <$> list_items n k = Some l → Forall (λ o, ∀ b, o = Some b → utf8 b) l).
  { intros k' (l' & Hl & ->)%fmap_Some. constructor; [done|]. by eapply IH. }
  revert H. repeat case_match; try done; try apply Hc. intros [= <-]. by repeat constructor.
Qed.

Lemma unmarshal_list_utf8 s l : unmarshal_list s = Some l → Forall (λ o, ∀ b, o = Some b → utf8 b) l.
Proof.
  unfold unmarshal_list. intros H. revert H.
  repeat case_match; try done; try apply list_items_utf8. intros [= <-]. constructor.
Qed.

Lemma check_items_fix l k :
  Forall (λ o, ∀ b, o = Some b → utf8 b) l → check_items l = Ok k →
  Forall utf8 k ∧ length k = length l ∧ check_items (Some <$> k) = Ok k.
Proof.
  intros Hl. revert k. induction Hl as [|o l Ho _ IH]; intros k; cbn [check_items].
  { intros [= <-]. done. }
  destruct o as [s|]; [|done]. destruct (checkString TString s) as [b|] eqn:Hs; [|done].
  destruct (check_items l) as [k'|] eqn:Hk; [|done]. intros [= <-].
  destruct (checkString_fix TString s b (Ho s eq_refl) Hs) as (Hb & _ & Hfix).
  destruct (IH k' eq_refl) as (Hk' & Hlen & Hfix'). split_and!.
  - by constructor.
  - cbn [length]. by rewrite Hlen.
  - cbn [fmap list_fmap check_items] in *. by rewrite Hfix, Hfix'.
Qed.

Lemma join_bytes_Forall (P : Z → Prop) l : P 44 → Forall (Forall P) l → Forall P (join_bytes l).
Proof.
  intros Hp. induction 1 as [|x [|y l] Hx Hl IH]; [constructor|done|].
  change (join_bytes (x :: y :: l)) with (x ++ 44 :: join_bytes (y :: l)).
  apply Forall_app. split; [done|]. by constructor.
Qed.

Lemma encode_list_Forall (P : Z → Prop) l :
  P 44 → P 91 → P 93 → (∀ b, utf8 b → Forall P (quote b)) → Forall utf8 l → Forall P (encode_list l).
Proof.
  intros H1 H2 H3 Hq Hl. constructor; [done|]. apply Forall_app. split; [|by repeat constructor].
  apply join_bytes_Forall; [done|]. apply Forall_fmap. eapply Forall_impl; [exact Hl|]. exact Hq.
Qed.

(** ** Canonical values *)

Lemma visible_no_nul s : all_visible s = true → no_nul s = true.
Proof.
  unfold no_nul. induction s as [|a s IH]; [done|]. cbn [all_visible no_char].
  intros [Ha Hs]%andb_true_iff. rewrite IH by done. rewrite andb_true_r.
  apply negb_true_iff, Ascii.eqb_neq. intros ->. done.
Qed.

Lemma encode_string_of_bytes s : encode_string s = of_bytes (bytes_of_string s).
Proof. done. Qed.

Lemma plain_utf8 s : plain_text s = true → utf8 (bytes_of_string s).
Proof.
  intros Hs%plain_text_bytes%plain_byte_range. exists (bytes_of_string s).
  split; [by apply ascii_scalar|by rewrite encode_ascii].
Qed.

Lemma of_bytes_no_nul b : utf8 b → no_nul (of_bytes b) = true.
Proof. intros Hb. apply no_nul_bytes; [by apply quote_bytes|by apply quote_no_nul]. Qed.

Section canonical.
Context (float_text timestamp_text : string → option string).
Local Abbreviation NormalizeValue := (NormalizeValue float_text timestamp_text).

Lemma normalize_trimmed t v :
  trim_space v = v → v ≠ ""%string → v ≠ "null"%string →
  NormalizeValue t v
  = match t with
    | TString | TText => string_value t v
    | TInt => or_schema (if int_literal v then itoa <$> atoi v else None)
    | TNumber => or_schema (float_text v)
    | TBool => or_schema (if String.eqb v "true" || String.eqb v "false" then Some v else None)
    | TDate => or_schema (unmarshal_string v ≫= λ s, if ValidDate s then Some (encode_string s) else None)
    | TTimestamp => or_schema (unmarshal_string v ≫= λ s, encode_string <$> timestamp_text s)
    | TStringList => list_value v
    | TUnknown _ => Err schemaErr
    end.
Proof.
  intros H1 H2 H3. unfold JValue.NormalizeValue. rewrite H1.
  by destruct (String.eqb_spec v ""), (String.eqb_spec v "null").
Qed.

(** A string value: stored as the JSON text of a checked string. *)
Lemma string_value_spec t v c :
  v ≠ "null"%string → string_value t v = Ok (Some c) →
  ∃ b, utf8 b ∧ c = of_bytes b ∧ checkString t b = Ok b.
Proof.
  intros Hv. unfold string_value. destruct (unmarshal_string v) as [s|] eqn:Hs; [|done].
  destruct (checkString t (bytes_of_string s)) as [b|] eqn:Hb; [|done]. intros [= <-].
  destruct (checkString_fix t _ b (unmarshal_utf8 _ _ Hs Hv) Hb) as (Hu & _ & Hf). by exists b.
Qed.

Lemma string_value_fix t b : utf8 b → checkString t b = Ok b → string_value t (of_bytes b) = Ok (Some (of_bytes b)).
Proof.
  intros Hb Hf. unfold string_value. rewrite unmarshal_of_bytes by done.
  rewrite bytes_of_string_of_bytes by (by apply utf8_bytes). by rewrite Hf.
Qed.

Lemma list_value_spec v c :
  list_value v = Ok (Some c) →
  ∃ l, Forall utf8 l ∧ Z.of_nat (length l) ≤ MaxListItems ∧ c = string_of_bytes (encode_list l) ∧
    check_items (Some <$> l) = Ok l.
Proof.
  unfold list_value. destruct (unmarshal_list _) as [l|] eqn:Hl; [|done].
  destruct (Z.ltb_spec MaxListItems (Z.of_nat (length l))); [done|].
  destruct (check_items l) as [k|] eqn:Hk; [|done]. intros [= <-].
  destruct (check_items_fix l k (unmarshal_list_utf8 _ _ Hl) Hk) as (Hu & Hlen & Hf).
  exists k. split_and!; [done|lia|done|done].
Qed.

Lemma list_value_fix l :
  Forall utf8 l → Z.of_nat (length l) ≤ MaxListItems → check_items (Some <$> l) = Ok l →
  list_value (string_of_bytes (encode_list l)) = Ok (Some (string_of_bytes (encode_list l))).
Proof.
  intros Hu Hlen Hf. unfold list_value.
  rewrite bytes_of_string_of_bytes.
  - rewrite unmarshal_encode_list, length_fmap by done.
    destruct (Z.ltb_spec MaxListItems (Z.of_nat (length l))); [lia|]. by rewrite Hf.
  - by apply encode_list_Forall; [unfold is_byte; lia..|apply quote_bytes|].
Qed.

Lemma trim_list l :
  let c := string_of_bytes (encode_list l) in trim_space c = c ∧ c ≠ ""%string ∧ c ≠ "null"%string.
Proof.
  intros c. unfold c, encode_list. destruct (trim_of_bytes 91 (join_bytes (quote <$> l)) 93 eq_refl eq_refl).
  split_and!; [done|done|]. intros E. by apply (f_equal (String.get 0)) in E.
Qed.

(** A canonical value is trimmed, is not null, and holds no NUL. *)
Definition settled (c : string) : Prop :=
  trim_space c = c ∧ c ≠ ""%string ∧ c ≠ "null"%string ∧ no_nul c = true.

Lemma settled_quoted b : utf8 b → settled (of_bytes b).
Proof. intros Hb. destruct (trim_quoted b Hb) as (?&?&?). split_and!; try done. by apply of_bytes_no_nul. Qed.

Lemma settled_int z : min_int64 ≤ z ≤ max_int64 → settled (itoa z).
Proof.
  intros Hz. destruct (itoa_literal z Hz) as (Hl & Ha & Hv). split_and!.
  - by apply trim_space_visible.
  - intros E. by rewrite E in Hl.
  - intros E. by rewrite E in Hl.
  - by apply visible_no_nul.
Qed.

Lemma atoi_range v z : atoi v = Some z → min_int64 ≤ z ≤ max_int64.
Proof.
  unfold atoi. intros H. revert H. repeat case_match; intros [= <-] || intros H'; try done.
  all: rename select (_ && _ = true) into Hr; apply andb_true_iff in Hr; rewrite !Z.leb_le in Hr; done.
Qed.

Lemma normalize_value_fix t raw c :
  t ≠ TNumber → t ≠ TTimestamp → NormalizeValue t raw = Ok (Some c) →
  settled c ∧ NormalizeValue t c = Ok (Some c).
Proof.
  intros Hn Ht. unfold JValue.NormalizeValue at 1. set (v := trim_space raw).
  destruct (String.eqb_spec v "") as [|_]; [done|]. destruct (String.eqb_spec v "null") as [|Hv]; [done|].
  cbn [orb].
  assert (Hdone : ∀ c, settled c → NormalizeValue t c = Ok (Some c) → settled c ∧ NormalizeValue t c = Ok (Some c))
    by done.
  destruct t; try done.
  - intros (b & Hb & -> & Hf)%string_value_spec; [|done]. pose proof (settled_quoted b Hb) as (H1 & H2 & H3 & H4).
    split; [by apply settled_quoted|]. rewrite normalize_trimmed by done. by apply string_value_fix.
  - intros (b & Hb & -> & Hf)%string_value_spec; [|done]. pose proof (settled_quoted b Hb) as (H1 & H2 & H3 & H4).
    split; [by apply settled_quoted|]. rewrite normalize_trimmed by done. by apply string_value_fix.
  - destruct (int_literal v); [|done]. destruct (atoi v) as [z|] eqn:Ha; [|done]. intros [= <-].
    apply atoi_range in Ha. destruct (settled_int z Ha) as (H1 & H2 & H3 & H4).
    split; [by apply settled_int|]. rewrite normalize_trimmed by done.
    destruct (itoa_literal z Ha) as (-> & -> & _). done.
  - destruct (String.eqb_spec v "true") as [->|]; [intros [= <-]; done|].
    destruct (String.eqb_spec v "false") as [->|]; [intros [= <-]; done|done].
  - destruct (unmarshal_string v) as [s|]; [|done]. cbn [mbind option_bind]. destruct (ValidDate s) eqn:Hd; [|done]. intros [= <-].
    pose proof (date_plain s (ValidDate_date s Hd)) as Hp.
    pose proof (settled_quoted _ (plain_utf8 s Hp)) as Hs. rewrite encode_string_of_bytes.
    split; [done|]. destruct Hs as (H1 & H2 & H3 & H4). rewrite normalize_trimmed by done.
    rewrite <- encode_string_of_bytes, unmarshal_encode by done. cbn [mbind option_bind]. by rewrite Hd.
  - intros (l & Hu & Hlen & -> & Hf)%list_value_spec. destruct (trim_list l) as (H1 & H2 & H3).
    split.
    + split_and!; [done..|]. apply no_nul_bytes.
      * by apply encode_list_Forall; [unfold is_byte; lia..|apply quote_bytes|].
      * by apply encode_list_Forall; [done..|apply quote_no_nul|].
    + rewrite normalize_trimmed by done. by apply list_value_fix.
Qed.

(** What the standard library's numbers and timestamps look like: visible
    ASCII without a quote. *)
Definition texts_plain : Prop :=
  (∀ v c, float_text v = Some c → c ≠ ""%string ∧ no_nul c = true) ∧
  (∀ v c, timestamp_text v = Some c → plain_text c = true).

Lemma normalize_value_content t raw c :
  texts_plain → NormalizeValue t raw = Ok (Some c) → c ≠ ""%string ∧ no_nul c = true.
Proof.
  intros [Hf Hts] H.
  destruct (decide (t = TNumber)) as [->|Hn]; [|destruct (decide (t = TTimestamp)) as [->|Ht]].
  - unfold JValue.NormalizeValue in H. destruct (_ || _); [done|].
    destruct (float_text _) eqn:E; [|done]. injection H as <-. by eapply Hf.
  - unfold JValue.NormalizeValue in H. destruct (_ || _); [done|].
    destruct (unmarshal_string _) as [s|]; [|done]. cbn [mbind option_bind] in H.
    destruct (timestamp_text s) as [x|] eqn:E; [|done]. injection H as <-.
    pose proof (settled_quoted _ (plain_utf8 x (Hts _ _ E))) as (_ & H2 & _ & H4). done.
  - destruct (normalize_value_fix t raw c Hn Ht H) as [(_ & H2 & _ & H4) _]. done.
Qed.

(** A value has one stored form.  Normalising a value of any type but
    number and timestamp gives text that normalises to itself, so a value
    read back from the store (Reload) keeps its bytes and its hash; the
    text is trimmed, is not null and holds no NUL byte. *)
Theorem normalize_value_canonical t raw c :
  t ≠ TNumber → t ≠ TTimestamp → NormalizeValue t raw = Ok (Some c) →
  NormalizeValue t c = Ok (Some c) ∧ trim_space c = c ∧ c ≠ "null"%string ∧ no_nul c = true.
Proof.
  intros Hn Ht H. destruct (normalize_value_fix t raw c Hn Ht H) as [(H1 & _ & H3 & H4) H5]. done.
Qed.
End canonical.

Lemma normalize_value_canonical_witness :
  NormalizeValue (λ _, None) (λ _, None) TInt "-7" = Ok (Some "-7"%string).
Proof.
  apply (normalize_value_canonical (λ _, None) (λ _, None) TInt " -7 " "-7");
    [discriminate..|vm_compute; reflexivity].
Defined.

(** ** Texts of numbers and dates hold digits and dashes only *)

Section chars.
Context (c : ascii) (Hd : is_digit c = false) (Hm : c ≠ "-"%char).

Lemma digits_no_char s : all_chars is_digit s = true → no_char c s = true.
Proof using Hd.
  induction s as [|a s IH]; [done|]. cbn [all_chars no_char]. intros [Ha Hs]%andb_true_iff. rewrite IH by done.
  rewrite andb_true_r. apply negb_true_iff, Ascii.eqb_neq. intros ->. congruence.
Qed.

Lemma dash_no_char : no_char c "-" = true.
Proof using Hm. change (negb (Ascii.eqb "-" c) && true = true). by rewrite (proj2 (Ascii.eqb_neq _ _)). Qed.

Lemma itoa_no_char z : no_char c (itoa z) = true.
Proof using Hd Hm.
  assert (Hp : ∀ p, no_char c (pretty (N.pos p)) = true).
  { intros p. destruct (pretty_digits p) as (a & d & -> & _ & _ & Hall & _). by apply digits_no_char. }
  destruct z as [|p|p].
  - by apply digits_no_char.
  - apply (Hp p).
  - change (itoa (Z.neg p)) with ("-" ++ pretty (N.pos p))%string. by rewrite no_char_app, Hp, dash_no_char.
Qed.

Lemma fmt_no_char z : no_char c (fmt_02d z) = true.
Proof using Hd Hm.
  unfold fmt_02d. repeat case_match; rewrite ?no_char_app, ?itoa_no_char, ?andb_true_r; try done. by apply digits_no_char.
Qed.

Lemma year_no_char z : no_char c (format_year z) = true.
Proof using Hd Hm.
  assert (Hp : ∀ n, no_char c (pad4 n) = true).
  { intros n. unfold pad4. repeat case_match; rewrite ?no_char_app, ?itoa_no_char, ?andb_true_r; try done; by apply digits_no_char. }
  unfold format_year. destruct (z <? 0)%Z; [|done]. by rewrite no_char_app, Hp, dash_no_char.
Qed.
End chars.
