(* ===== verification/JRules.v ===== *)
(** internal/journal/rules: what a compiled rule list makes of an event. *)
From S2P Require Import Prelude GoStrings StrOrder JRecord JDiff.
Local Open Scope Z_scope.

Definition High : string := "high".
Definition Normal : string := "normal".
Definition Low : string := "low".

Definition ImportanceRank (s : string) : Z :=
  if String.eqb s High then 3 else if String.eqb s Normal then 2
  else if String.eqb s Low then 1 else 0.

Definition AtLeast (min : string) : list string :=
  List.filter (λ l, ImportanceRank min <=? ImportanceRank l) [High; Normal; Low].

Record Notice := mkNotice { NToken : string; NMode : string; NPurpose : string }.
#[export] Instance Notice_eq_dec : EqDecision Notice.
Proof. solve_decision. Defined.

Definition MaxGroupKeyBytes : nat := 512.

(** A compiled rule: the match, with the values in canonical form, and what
    it assigns. *)
Record compiled := mkCompiled {
  RuleName : string;
  MatchRecordType : string;
  kinds : list Kind;
  becomes : gmap string string;
  field_in : gmap string (list string);
  RImportance : string;
  RNotify : list Notice;
  GroupBy : list string;
}.

Definition RuleSet := list compiled.

Record EventView := mkView {
  VRecordType : string; VDataSubject : string; VKey : string; VScope : string; VKind : Kind;
  VBefore : option Fields; VAfter : option Fields;
}.

Record ROutcome := mkROutcome {
  OImportance : string; ORule : string; OGroupKey : string; ONotify : list Notice;
}.

(** The value of a field of nil or present fields: nil is no bytes. *)
Definition field_bytes (f : option Fields) (k : string) : string :=
  default "" (f ≫= λ m, m !! k)%string.

Definition holdsAll (want : gmap string string) (have : option Fields) : bool :=
  map_all (λ field v, String.eqb (field_bytes have field) v) want.

(** After, or Before when After is nil. *)
Definition view_values (e : EventView) : option Fields :=
  match VAfter e with Some f => Some f | None => VBefore e end.

Definition matches (c : compiled) (e : EventView) : bool :=
  String.eqb (MatchRecordType c) (VRecordType e)
  && ((length (kinds c) =? 0)%nat || bool_decide (VKind e ∈ kinds c))
  && (bool_decide (becomes c = ∅)
      || (negb (bool_decide (VKind e = Removed)) && holdsAll (becomes c) (VAfter e)
          && negb (holdsAll (becomes c) (VBefore e))))
  && map_all (λ field vs, existsb (String.eqb (field_bytes (view_values e) field)) vs) (field_in c).

(** plain: a JSON string without its quotes, any other value as written. *)
Definition plain (v : string) : string := default v (unmarshal_string v).

Definition field_prefix : string := "field:".

(** The field a group_by entry names: strings.TrimPrefix. *)
Definition group_field (g : string) : string :=
  if has_prefix field_prefix g
  then String.substring (String.length field_prefix)
         (String.length g - String.length field_prefix) g
  else g.

(** The value of a group_by entry; [None] for an absent field. *)
Definition group_value (e : EventView) (g : string) : option string :=
  if String.eqb g "data_subject" then Some (VDataSubject e)
  else if String.eqb g "record_type" then Some (VRecordType e)
  else if String.eqb g "key" then Some (VKey e)
  else if String.eqb g "scope" then Some (VScope e)
  else plain <$> (view_values e ≫= λ m, m !! group_field g).

Definition group_part (e : EventView) (g : string) : string :=
  (EscapeScopeValue g ++ "=" ++
   match group_value e g with Some v => EscapeScopeValue v | None => "%00" end)%string.

Section rules.
(** crypto/sha256 and encoding/hex. *)
Context (sha256_hex : string → string).

Definition groupKey (c : compiled) (e : EventView) : string :=
  match GroupBy c with
  | [] => ""
  | gs =>
      let key := join "/" (group_part e <$> gs) in
      if (MaxGroupKeyBytes <? String.length key)%nat then ("sha256=" ++ sha256_hex key)%string
      else key
  end.

(** Evaluate: the first rule that matches; low importance without one. *)
Definition Evaluate (s : RuleSet) (e : EventView) : ROutcome :=
  match List.find (λ c, matches c e) s with
  | Some c => mkROutcome (RImportance c) (RuleName c) (groupKey c e) (RNotify c)
  | None => mkROutcome Low "" "" []
  end.

(** ** Group keys *)

(** A percent sign in escaped text never starts the absent marker. *)
Lemma escape_not_absent s t : EscapeScopeValue s ≠ ("%00" ++ t)%string.
Proof.
  destruct s as [|a s]; [done|]. rewrite escape_app_cons.
  destruct (Ascii.eqb_spec a "%"); [done|]. destruct (Ascii.eqb_spec a "/"); [done|].
  destruct (Ascii.eqb_spec a "="); [done|]. intros [= E _]. congruence.
Qed.

Lemma group_part_no_slash e g : no_char "/" (group_part e g) = true.
Proof.
  unfold group_part. rewrite !no_char_app, escape_no_sep by (by left).
  destruct (group_value e g); [|done]. rewrite escape_no_sep by (by left). done.
Qed.

Lemma group_part_injective e e' g :
  group_part e g = group_part e' g → group_value e g = group_value e' g.
Proof.
  unfold group_part. intros E. apply (sep_split "=") in E as [_ E];
    [|apply escape_no_sep; by right..].
  destruct (group_value e g) as [v|], (group_value e' g) as [w|]; try done.
  - f_equal. by apply escape_injective.
  - exfalso. by apply (escape_not_absent v "").
  - exfalso. by apply (escape_not_absent w "").
Qed.

(** Group keys do not mix groups.  Two events that one rule gives the
    same group key, each short enough to be written out, agree on every
    group_by entry: on the value, and on whether the field is present at
    all, so an absent field never joins an empty or any other value. *)
Theorem group_key_separates c e e' g :
  g ∈ GroupBy c →
  (String.length (join "/" (group_part e <$> GroupBy c)) ≤ MaxGroupKeyBytes)%nat →
  (String.length (join "/" (group_part e' <$> GroupBy c)) ≤ MaxGroupKeyBytes)%nat →
  groupKey c e = groupKey c e' → group_value e g = group_value e' g.
Proof.
  intros Hg He He' E. unfold groupKey in E.
  destruct (GroupBy c) as [|g0 gs] eqn:Hgs; [by apply elem_of_nil in Hg|].
  rewrite (proj2 (Nat.ltb_ge _ _) He), (proj2 (Nat.ltb_ge _ _) He') in E.
  apply (f_equal (split_on "/")) in E.
  assert (Hno : ∀ e, Forall (λ x, no_char "/" x = true) (group_part e <$> g0 :: gs)).
  { intros e0. apply Forall_fmap, Forall_true. intros x. apply group_part_no_slash. }
  assert (Hne : ∀ e, group_part e <$> g0 :: gs ≠ []) by (intros e0; by rewrite fmap_cons).
  pose proof (split_on_join "/" (group_part e <$> g0 :: gs) (Hne _) (Hno e)) as H1.
  pose proof (split_on_join "/" (group_part e' <$> g0 :: gs) (Hne _) (Hno e')) as H2.
  change (String "/" EmptyString) with "/"%string in H1, H2. rewrite H1, H2 in E.
  apply list_elem_of_lookup in Hg as [i Hi].
  apply (f_equal (lookup i)) in E. rewrite !list_lookup_fmap, Hi in E. injection E as E.
  by apply group_part_injective.
Qed.

(** ** Which rule applies *)

Lemma find_first {A} (f : A → bool) (l : list A) x :
  List.find f l = Some x ↔
  ∃ l1 l2, l = l1 ++ x :: l2 ∧ f x = true ∧ Forall (λ y, f y = false) l1.
Proof.
  induction l as [|y l IH]; simpl.
  - split; [done|]. intros (l1 & l2 & E & _). by destruct l1.
  - destruct (f y) eqn:Hy.
    + split.
      * intros [= ->]. by exists [], l.
      * intros ([|z l1] & l2 & E & Hx & Hl); simplify_eq/=; [done|].
        apply Forall_cons in Hl as [Hz _]. congruence.
    + rewrite IH. split.
      * intros (l1 & l2 & -> & Hx & Hl). exists (y :: l1), l2. by split_and!; [|..|constructor].
      * intros ([|z l1] & l2 & E & Hx & Hl); simplify_eq/=; [congruence|].
        apply Forall_cons in Hl as [_ Hl]. by exists l1, l2.
Qed.

(** The first matching rule decides, and a field_becomes rule fires
    only on the change: when a rule with such conditions is the one
    applied, the event is not a removal, all the values hold after it, and
    they did not all hold before it.  With no matching rule the importance
    is low and nothing is notified. *)
Theorem evaluate_first_match s e :
  (∃ l1 c l2, s = l1 ++ c :: l2 ∧ matches c e = true ∧ Forall (λ c, matches c e = false) l1 ∧
     Evaluate s e = mkROutcome (RImportance c) (RuleName c) (groupKey c e) (RNotify c) ∧
     (becomes c ≠ ∅ → VKind e ≠ Removed ∧
        (∀ k v, becomes c !! k = Some v → field_bytes (VAfter e) k = v) ∧
        ¬ (∀ k v, becomes c !! k = Some v → field_bytes (VBefore e) k = v))) ∨
  (Forall (λ c, matches c e = false) s ∧ Evaluate s e = mkROutcome Low "" "" []).
Proof.
  unfold Evaluate. destruct (List.find _ s) as [c|] eqn:Hf; [left|right].
  - apply find_first in Hf as (l1 & l2 & -> & Hc & Hl). exists l1, c, l2.
    split_and!; [done..|]. intros Hne. unfold matches in Hc.
    rewrite (bool_decide_eq_false_2 (becomes c = ∅)) in Hc by done. bool_to_prop. simpl in *.
    bool_to_prop.
    assert (Hall : ∀ f, holdsAll (becomes c) f = true ↔
      ∀ k v, becomes c !! k = Some v → field_bytes f k = v).
    { intros f. unfold holdsAll. rewrite map_all_spec. by setoid_rewrite String.eqb_eq. }
    split_and!.
    + rename select (bool_decide (VKind e = _) = false) into Hk. by apply bool_decide_eq_false in Hk.
    + by apply Hall.
    + rewrite <- Hall. congruence.
  - split; [|done]. apply Forall_forall. intros c Hc. apply (List.find_none _ _ Hf).
    by apply list_elem_of_In.
Qed.
End rules.

(** ** Witness *)

Definition missing_rule : compiled :=
  mkCompiled "missing" "grade" [] ∅ ∅ High [] ["data_subject"%string; "field:course"%string].

Definition grade_view (course : Fields) : EventView :=
  mkView "grade" "child1" "k" sample_scope Created None (Some course).

Lemma group_key_separates_witness :
  group_value (grade_view {[ "course"%string := encode_string "a/b" ]}) "field:course"
  = Some "a/b"%string ∧
  group_value (grade_view {[ "course"%string := encode_string "a/b" ]}) "field:course"
  = group_value (grade_view {[ "course"%string := encode_string "a/b" ]}) "field:course".
Proof.
  split; [vm_compute; reflexivity|].
  apply (group_key_separates (λ s, s) missing_rule).
  - right. left.
  - vm_compute. lia.
  - vm_compute. lia.
  - reflexivity.
Defined.
