(* ===== verification/JCompile.v ===== *)
(** internal/journal/rules: Compile, which checks configured rules and puts
    their values into canonical form, and what a compiled rule means. *)
From S2P Require Import Prelude GoStrings StrOrder JsonString JRecord JDiff JValue JRules.
Local Open Scope Z_scope.

(** A configured rule, with its raw values. *)
Record Match_ := mkMatch {
  MRecordType : string;
  MKind : list string;
  FieldBecomes : gmap string string;
  FieldIn : gmap string (list string);
}.
Record Rule := mkRule {
  RName : string;
  RMatch : Match_;
  RuleImportance : string;
  RuleNotify : list Notice;
  RuleGroupBy : list string;
}.

Definition kind_of (k : string) : option Kind :=
  if String.eqb k "created" then Some Created else if String.eqb k "updated" then Some Updated
  else if String.eqb k "removed" then Some Removed else if String.eqb k "restored" then Some Restored
  else None.

Definition type_name (t : FieldType) : string :=
  match t with
  | TString => "string" | TText => "text" | TInt => "int" | TNumber => "number" | TBool => "bool"
  | TDate => "date" | TTimestamp => "timestamp" | TStringList => "string_list" | TUnknown name => name
  end.

Lemma Forall2_in_l {A B} (P : A → B → Prop) l k x : Forall2 P l k → x ∈ l → ∃ y, y ∈ k ∧ P x y.
Proof.
  intros H [i Hi]%list_elem_of_lookup. destruct (Forall2_lookup_l _ _ _ _ _ H Hi) as (y & Hy & HP).
  exists y. split; [by eapply list_elem_of_lookup_2|done].
Qed.

Lemma Forall2_in_r {A B} (P : A → B → Prop) l k y : Forall2 P l k → y ∈ k → ∃ x, x ∈ l ∧ P x y.
Proof.
  intros H [i Hi]%list_elem_of_lookup. destruct (Forall2_lookup_r _ _ _ _ _ H Hi) as (x & Hx & HP).
  exists x. split; [by eapply list_elem_of_lookup_2|done].
Qed.

Section compile.
(** The texts of numbers and timestamps (JValue.v), and fmt's %q. *)
Context (float_text timestamp_text : string → option string) (Quote : string → string).
Local Open Scope string_scope.

Abbreviation rule_error name s := (Err ("rule " ++ name ++ ": " ++ s)).

(** The kinds, as a set. *)
Fixpoint compile_kinds (name : string) (ks : list string) : res string (list Kind) :=
  match ks with
  | [] => Ok []
  | k :: rest =>
      match kind_of k with
      | None => rule_error name ("unknown kind " ++ Quote k)
      | Some k => match compile_kinds name rest with Ok out => Ok (k :: out) | Err e => Err e end
      end
  end.

Definition norm (r : Rule) (t : Type_) (field : string) (v : string) : res string string :=
  match TFields t !! field with
  | None => rule_error (RName r) (TName t ++ " has no field " ++ Quote field)
  | Some def =>
      match NormalizeValue float_text timestamp_text (FType def) v with
      | Ok (Some nv) => Ok nv
      | _ => rule_error (RName r) ("value for " ++ field ++ " is not a non-null " ++ type_name (FType def))
      end
  end.

Fixpoint compile_becomes (r : Rule) (t : Type_) (fs : list (string * string)) : res string (gmap string string) :=
  match fs with
  | [] => Ok ∅
  | (field, v) :: rest =>
      match norm r t field v with
      | Err e => Err e
      | Ok nv => match compile_becomes r t rest with Ok m => Ok (<[field := nv]> m) | Err e => Err e end
      end
  end.

Fixpoint norm_all (r : Rule) (t : Type_) (field : string) (vs : list string) : res string (list string) :=
  match vs with
  | [] => Ok []
  | v :: rest =>
      match norm r t field v with
      | Err e => Err e
      | Ok nv => match norm_all r t field rest with Ok l => Ok (nv :: l) | Err e => Err e end
      end
  end.

Fixpoint compile_in (r : Rule) (t : Type_) (fs : list (string * list string)) : res string (gmap string (list string)) :=
  match fs with
  | [] => Ok ∅
  | (field, vs) :: rest =>
      if (length vs =? 0)%nat then rule_error (RName r) ("field_in " ++ field ++ " lists no values")
      else match norm_all r t field vs with
      | Err e => Err e
      | Ok l => match compile_in r t rest with Ok m => Ok (<[field := l]> m) | Err e => Err e end
      end
  end.

Definition check_notice (name : string) (n : Notice) : res string () :=
  if negb (ValidToken (NToken n)) then rule_error name ("invalid notify token " ++ Quote (NToken n))
  else
    let purpose :=
      if negb (String.eqb (NPurpose n) "") && negb (ValidName (NPurpose n))
      then rule_error name ("invalid purpose " ++ Quote (NPurpose n)) else Ok tt in
    if String.eqb (NMode n) "push" || String.eqb (NMode n) "digest" then purpose
    else if String.eqb (NMode n) "prompt" then
      if String.eqb (NPurpose n) "" then rule_error name "a prompt names its purpose" else purpose
    else rule_error name "notify mode is push, prompt or digest".

Definition check_group (name : string) (t : Type_) (g : string) : res string () :=
  if String.eqb g "data_subject" || String.eqb g "record_type" || String.eqb g "key" || String.eqb g "scope" then Ok tt
  else if has_prefix field_prefix g then
    match TFields t !! group_field g with
    | None => rule_error name ("group_by " ++ g ++ " names no field of " ++ TName t)
    | Some def =>
        if bool_decide (FType def = TText)
        then rule_error name ("group_by " ++ g ++ " names a text field; group keys carry no untrusted text")
        else Ok tt
    end
  else rule_error name "group_by entries are data_subject, record_type, key, scope or field:<name>".

Fixpoint check_each {A : Type} (f : A → res string ()) (l : list A) : res string () :=
  match l with [] => Ok tt | x :: rest => match f x with Ok _ => check_each f rest | Err e => Err e end end.

(** One rule; the maps are ranged over in some order. *)
Definition compile_rule (reg : Registry) (names : list string) (r : Rule) : res string compiled :=
  if negb (ValidName (RName r)) || bool_decide (RName r ∈ names)
  then Err ("rule " ++ Quote (RName r) ++ ": names are [a-z][a-z0-9_]* and distinct")
  else if (ImportanceRank (RuleImportance r) =? 0)%Z then rule_error (RName r) "importance is high, normal or low"
  else match Active reg (MRecordType (RMatch r)) with
  | None => rule_error (RName r) ("unknown record type " ++ Quote (MRecordType (RMatch r)))
  | Some t =>
      match compile_kinds (RName r) (MKind (RMatch r)) with
      | Err e => Err e
      | Ok ks =>
          match compile_becomes r t (map_to_list (FieldBecomes (RMatch r))) with
          | Err e => Err e
          | Ok bs =>
              match compile_in r t (map_to_list (FieldIn (RMatch r))) with
              | Err e => Err e
              | Ok ins =>
                  match check_each (check_notice (RName r)) (RuleNotify r) with
                  | Err e => Err e
                  | Ok _ =>
                      match check_each (check_group (RName r) t) (RuleGroupBy r) with
                      | Err e => Err e
                      | Ok _ =>
                          Ok (mkCompiled (RName r) (MRecordType (RMatch r)) ks bs ins (RuleImportance r) (RuleNotify r) (RuleGroupBy r))
                      end
                  end
              end
          end
      end
  end.

Fixpoint compile_rules (reg : Registry) (names : list string) (rs : list Rule) : res string RuleSet :=
  match rs with
  | [] => Ok []
  | r :: rest =>
      match compile_rule reg names r with
      | Err e => Err e
      | Ok c => match compile_rules reg (RName r :: names) rest with Ok s => Ok (c :: s) | Err e => Err e end
      end
  end.

Definition Compile (rs : list Rule) (reg : option Registry) : res string RuleSet :=
  match reg with
  | None => Err "rules: no record type registry"
  | Some reg => compile_rules reg [] rs
  end.

(** ** What a compiled rule is *)

Abbreviation NormalizeValue := (JValue.NormalizeValue float_text timestamp_text).

(** [c] is the canonical form of the configured value [v] of a field. *)
Definition means (t : Type_) (field v c : string) : Prop :=
  ∃ def, TFields t !! field = Some def ∧ NormalizeValue (FType def) v = Ok (Some c).

Lemma norm_spec r t field v :
  match norm r t field v with Ok nv => means t field v nv | Err _ => True end.
Proof using Type.
  unfold norm, means. destruct (TFields t !! field) as [def|]; [|done].
  destruct (JValue.NormalizeValue _ _ _ _) as [[nv|]|] eqn:E; try done. by exists def.
Qed.

Lemma means_fun t field v c c' : means t field v c → means t field v c' → c = c'.
Proof using Type. intros (d & Hd & Hc) (d' & Hd' & Hc'). congruence. Qed.

(** The map [m] holds what [P] makes of each entry of the list. *)
Lemma fold_entries {A B} (P : string → A → B → Prop) (f : string → A → res string B) go (fs : list (string * A)) (m : gmap string B) :
  (∀ fs, go fs = match fs with [] => Ok ∅ | (k, v) :: rest =>
     match f k v with Err e => Err e | Ok b => match go rest with Ok m => Ok (<[k := b]> m) | Err e => Err e end end end) →
  (∀ k v b, f k v = Ok b → P k v b) → NoDup fs.*1 → go fs = Ok m →
  (∀ k v, (k, v) ∈ fs → ∃ b, m !! k = Some b ∧ P k v b) ∧ (∀ k b, m !! k = Some b → ∃ v, (k, v) ∈ fs ∧ P k v b).
Proof using Type.
  intros Hgo Hf. revert m. induction fs as [|[k v] fs IH]; intros m Hnd; rewrite Hgo.
  { intros [= <-]. split; [by intros k v ?%elem_of_nil|]. intros k b. by rewrite lookup_empty. }
  apply NoDup_cons in Hnd as [Hk Hnd]. destruct (f k v) as [b|] eqn:E; [|done]. destruct (go fs) as [m'|] eqn:Em; [|done].
  intros [= <-]. destruct (IH m' Hnd eq_refl) as [H1 H2]. split.
  - intros k' v' [[= -> ->]|Hin]%elem_of_cons; [exists b; rewrite lookup_insert_eq; eauto|].
    destruct (H1 k' v' Hin) as (b' & Hb' & HP). exists b'. rewrite lookup_insert_ne; [done|]. intros ->. apply Hk.
    apply list_elem_of_fmap. by exists (k', v').
  - intros k' b' [[<- <-]|[_ Hb']]%lookup_insert_Some; [exists v; split; [left|by apply Hf]|].
    destruct (H2 k' b' Hb') as (v' & Hin & HP). exists v'. split; [by right|done].
Qed.

Lemma compile_becomes_spec r t (m out : gmap string string) :
  compile_becomes r t (map_to_list m) = Ok out →
  (∀ k v, m !! k = Some v → ∃ c, out !! k = Some c ∧ means t k v c) ∧ (∀ k c, out !! k = Some c → ∃ v, m !! k = Some v ∧ means t k v c).
Proof using Type.
  intros H. destruct (fold_entries (means t) (norm r t) (compile_becomes r t) (map_to_list m) out) as [H1 H2]; try done.
  - by intros [|[k v] fs].
  - intros k v c Hc. pose proof (norm_spec r t k v) as Hn. by rewrite Hc in Hn.
  - apply NoDup_fst_map_to_list.
  - split; [intros k v Hk%elem_of_map_to_list; by apply H1|]. intros k c Hk. destruct (H2 k c Hk) as (v & Hv & ?).
    exists v. split; [by apply elem_of_map_to_list|done].
Qed.

Lemma norm_all_spec r t field vs l : norm_all r t field vs = Ok l → Forall2 (means t field) vs l.
Proof using Type.
  revert l. induction vs as [|v vs IH]; intros l; cbn [norm_all]; [intros [= <-]; constructor|].
  pose proof (norm_spec r t field v) as Hn. destruct (norm r t field v) as [nv|]; [|done].
  destruct (norm_all r t field vs) as [l'|]; [|done]. intros [= <-]. constructor; [done|by apply IH].
Qed.

Lemma compile_in_spec r t (m out : gmap string (list string)) :
  compile_in r t (map_to_list m) = Ok out →
  (∀ k vs, m !! k = Some vs → ∃ l, out !! k = Some l ∧ Forall2 (means t k) vs l) ∧
  (∀ k l, out !! k = Some l → ∃ vs, m !! k = Some vs ∧ Forall2 (means t k) vs l).
Proof using Type.
  set (f := λ (k : string) (vs : list string), if (length vs =? 0)%nat
    then (Err ("rule " ++ RName r ++ ": " ++ ("field_in " ++ k ++ " lists no values")) : res string (list string)) else norm_all r t k vs).
  intros H. destruct (fold_entries (λ k vs l, Forall2 (means t k) vs l) f (compile_in r t) (map_to_list m) out) as [H1 H2]; try done.
  - intros [|[k vs] fs]; [done|]. cbn [compile_in]. unfold f. by destruct (length vs =? 0)%nat.
  - intros k vs l. unfold f. destruct (length vs =? 0)%nat; [done|]. apply norm_all_spec.
  - apply NoDup_fst_map_to_list.
  - split; [intros k v Hk%elem_of_map_to_list; by apply H1|]. intros k c Hk. destruct (H2 k c Hk) as (v & Hv & ?).
    exists v. split; [by apply elem_of_map_to_list|done].
Qed.

Lemma compile_kinds_spec name ks out : compile_kinds name ks = Ok out → Forall2 (λ k o, kind_of k = Some o) ks out.
Proof using Type.
  revert out. induction ks as [|k ks IH]; intros out; cbn [compile_kinds]; [intros [= <-]; constructor|].
  destruct (kind_of k) as [o|] eqn:E; [|done]. destruct (compile_kinds name ks) as [l|]; [|done]. intros [= <-].
  constructor; [done|by apply IH].
Qed.

Lemma check_each_spec {A : Type} (f : A → res string ()) l : check_each f l = Ok tt → ∀ x, x ∈ l → f x = Ok tt.
Proof using Type.
  induction l as [|y l IH]; [by intros _ x ?%elem_of_nil|]. cbn [check_each]. destruct (f y) as [[]|] eqn:E; [|done].
  intros H x [->|Hx]%elem_of_cons; [done|by apply IH].
Qed.

(** A compiled rule [c] of the configured rule [r]. *)
Record compiles (reg : Registry) (r : Rule) (c : compiled) : Prop := {
  co_name : RuleName c = RName r ∧ ValidName (RName r) = true;
  co_out : RImportance c = RuleImportance r ∧ RNotify c = RuleNotify r ∧ GroupBy c = RuleGroupBy r;
  co_type : MatchRecordType c = MRecordType (RMatch r);
  co_kinds : Forall2 (λ k o, kind_of k = Some o) (MKind (RMatch r)) (kinds c);
  co_known : ∃ t, Active reg (MRecordType (RMatch r)) = Some t ∧
    ((∀ k v, FieldBecomes (RMatch r) !! k = Some v → ∃ x, becomes c !! k = Some x ∧ means t k v x) ∧
     (∀ k x, becomes c !! k = Some x → ∃ v, FieldBecomes (RMatch r) !! k = Some v ∧ means t k v x)) ∧
    ((∀ k vs, FieldIn (RMatch r) !! k = Some vs → ∃ l, field_in c !! k = Some l ∧ Forall2 (means t k) vs l) ∧
     (∀ k l, field_in c !! k = Some l → ∃ vs, FieldIn (RMatch r) !! k = Some vs ∧ Forall2 (means t k) vs l)) ∧
    (∀ g, g ∈ GroupBy c → check_group (RName r) t g = Ok tt);
}.

Lemma compile_rule_spec reg names r c : compile_rule reg names r = Ok c → compiles reg r c.
Proof using Type.
  unfold compile_rule. destruct (ValidName (RName r)) eqn:Hv; cbn [negb orb]; [|done].
  destruct (bool_decide _); [done|]. destruct (_ =? 0)%Z; [done|].
  destruct (Active reg _) as [t|] eqn:Ht; [|done]. destruct (compile_kinds _ _) as [ks|] eqn:Hk; [|done].
  destruct (compile_becomes r t _) as [bs|] eqn:Hb; [|done]. destruct (compile_in r t _) as [is_|] eqn:Hi; [|done].
  destruct (check_each (check_notice _) _) as [[]|]; [|done]. destruct (check_each (check_group _ t) _) as [[]|] eqn:Hg; [|done].
  intros [= <-]. constructor; cbn [RuleName RImportance RNotify GroupBy MatchRecordType kinds becomes field_in]; try done.
  - by eapply compile_kinds_spec.
  - exists t. split; [done|]. split; [by eapply compile_becomes_spec|]. split; [by eapply compile_in_spec|].
    by apply check_each_spec.
Qed.

Lemma compile_rules_spec reg names rs s : compile_rules reg names rs = Ok s → Forall2 (compiles reg) rs s.
Proof using Type.
  revert names s. induction rs as [|r rs IH]; intros names s; cbn [compile_rules]; [intros [= <-]; constructor|].
  destruct (compile_rule reg names r) as [c|] eqn:E; [|done]. destruct (compile_rules _ _ rs) as [s'|] eqn:E'; [|done].
  intros [= <-]. constructor; [by eapply compile_rule_spec|by eapply IH].
Qed.

(** ** What its configuration says *)

(** The field holds the configured value. *)
Definition holds (t : Type_) (f : option Fields) (field v : string) : Prop :=
  ∃ c, f ≫= (λ m, m !! field) = Some c ∧ means t field v c.

(** When a configured rule applies to an event, in its own terms. *)
Definition applies (t : Type_) (m : Match_) (e : EventView) : Prop :=
  MRecordType m = VRecordType e ∧
  (MKind m = [] ∨ ∃ k, k ∈ MKind m ∧ kind_of k = Some (VKind e)) ∧
  (FieldBecomes m = ∅ ∨
     VKind e ≠ Removed ∧ (∀ k v, FieldBecomes m !! k = Some v → holds t (VAfter e) k v) ∧
     ¬ (∀ k v, FieldBecomes m !! k = Some v → holds t (VBefore e) k v)) ∧
  (∀ k vs, FieldIn m !! k = Some vs → ∃ v, v ∈ vs ∧ holds t (view_values e) k v).

(** What the conversions of JValue.v never give. *)
Context (Htexts : texts_plain float_text timestamp_text).

Lemma means_nonempty t k v c : means t k v c → c ≠ "".
Proof using Htexts. intros (def & _ & H). by destruct (normalize_value_content _ _ _ _ _ Htexts H). Qed.

Lemma field_holds t f k v c : means t k v c → String.eqb (field_bytes f k) c = true ↔ holds t f k v.
Proof using Htexts.
  intros Hm. rewrite String.eqb_eq. unfold field_bytes, holds. split.
  - destruct (f ≫= _) as [x|] eqn:E; cbn; [intros <-; by exists x|]. intros <-. by apply means_nonempty in Hm.
  - intros (x & -> & Hx). cbn. by eapply means_fun.
Qed.

Lemma kinds_apply ks out k : Forall2 (λ s o, kind_of s = Some o) ks out → k ∈ out ↔ ∃ s, s ∈ ks ∧ kind_of s = Some k.
Proof using Type.
  intros H. split.
  - intros Hk. destruct (Forall2_in_r _ _ _ _ H Hk) as (s & Hs & ?). by exists s.
  - intros (s & Hs & Hk). destruct (Forall2_in_l _ _ _ _ H Hs) as (o & Ho & ?). congruence.
Qed.

Lemma entries_empty {A B} (m : gmap string A) (out : gmap string B) :
  (∀ k v, m !! k = Some v → is_Some (out !! k)) → (∀ k b, out !! k = Some b → is_Some (m !! k)) → out = ∅ ↔ m = ∅.
Proof using Type.
  intros H1 H2. split; intros ->; apply map_eq; intros k; rewrite lookup_empty; apply eq_None_not_Some; intros [x Hx].
  - destruct (H1 _ _ Hx) as [y Hy]. by rewrite lookup_empty in Hy.
  - destruct (H2 _ _ Hx) as [y Hy]. by rewrite lookup_empty in Hy.
Qed.

Lemma becomes_apply t (m out : gmap string string) f :
  (∀ k v, m !! k = Some v → ∃ x, out !! k = Some x ∧ means t k v x) →
  (∀ k x, out !! k = Some x → ∃ v, m !! k = Some v ∧ means t k v x) →
  holdsAll out f = true ↔ ∀ k v, m !! k = Some v → holds t f k v.
Proof using Htexts.
  intros H1 H2. unfold holdsAll. rewrite map_all_spec. split.
  - intros H k v Hv. destruct (H1 k v Hv) as (x & Hx & Hm). apply (field_holds t f k v x Hm). by apply H.
  - intros H k x Hx. destruct (H2 k x Hx) as (v & Hv & Hm). apply (field_holds t f k v x Hm). by apply H.
Qed.

Lemma values_apply t k vs l f : Forall2 (means t k) vs l → existsb (String.eqb (field_bytes f k)) l = true ↔ ∃ v, v ∈ vs ∧ holds t f k v.
Proof using Htexts.
  intros H. rewrite existsb_exists. split.
  - intros (c & Hc%list_elem_of_In & E). destruct (Forall2_in_r _ _ _ _ H Hc) as (v & Hv & Hm). exists v.
    split; [done|]. by apply (field_holds t f k v c Hm).
  - intros (v & Hv & Hh). destruct (Forall2_in_l _ _ _ _ H Hv) as (c & Hc & Hm). exists c.
    split; [by apply list_elem_of_In|]. by apply (field_holds t f k v c Hm).
Qed.

Lemma compiled_matches reg r c t e :
  compiles reg r c → Active reg (MRecordType (RMatch r)) = Some t → matches c e = true ↔ applies t (RMatch r) e.
Proof using Htexts.
  intros [_ _ Hty Hk (t' & Ht' & [Hb1 Hb2] & [Hi1 Hi2] & _)] Ht. assert (t' = t) as -> by congruence.
  assert (Hbe : becomes c = ∅ ↔ FieldBecomes (RMatch r) = ∅).
  { apply entries_empty; [intros k v Hv; destruct (Hb1 k v Hv) as (x & -> & _)|intros k x Hx; destruct (Hb2 k x Hx) as (v & -> & _)]; by eexists. }
  assert (Hlen : (length (kinds c) =? 0)%nat = true ↔ MKind (RMatch r) = []).
  { rewrite Nat.eqb_eq, <- (Forall2_length _ _ _ Hk). apply length_zero_iff_nil. }
  unfold matches, applies. rewrite Hty, !andb_true_iff, !orb_true_iff, !andb_true_iff, String.eqb_eq, Hlen, !negb_true_iff.
  rewrite bool_decide_eq_true, (kinds_apply _ _ _ Hk), bool_decide_eq_true, Hbe, bool_decide_eq_false.
  rewrite (becomes_apply t _ _ _ Hb1 Hb2), <- (becomes_apply t _ _ (VBefore e) Hb1 Hb2), not_true_iff_false, map_all_spec.
  assert (Hin : (∀ k l, field_in c !! k = Some l → existsb (String.eqb (field_bytes (view_values e) k)) l = true) ↔
    (∀ k vs, FieldIn (RMatch r) !! k = Some vs → ∃ v, v ∈ vs ∧ holds t (view_values e) k v)).
  { split.
    - intros H k vs Hvs. destruct (Hi1 k vs Hvs) as (l & Hl & Hm). apply (values_apply t k vs l _ Hm). by apply H.
    - intros H k l Hl. destruct (Hi2 k l Hl) as (vs & Hvs & Hm). apply (values_apply t k vs l _ Hm). by apply (H k vs). }
  rewrite Hin. tauto.
Qed.

(** C15. Configured rules mean what they say.  When a list of rules compiles,
    its outcome for any event is that of the first rule of the list, as it
    was written, that applies: whose record type is the event's, whose kinds, if any, name the
    event's, whose field_becomes values are all held after the event and were
    not all held before, and for each field_in one of the listed values is
    held.  A value is held when the stored text is its canonical form, so a
    rule's value matches however it was spelled (the number 7.0, the date
    with blanks around). *)
Theorem compiled_rules_mean_what_they_say sha rs reg s e :
  Compile rs (Some reg) = Ok s →
  Forall (λ r, ∃ t, Active reg (MRecordType (RMatch r)) = Some t) rs ∧
  ((∃ l1 r l2 t, rs = (l1 ++ r :: l2)%list ∧ Active reg (MRecordType (RMatch r)) = Some t ∧ applies t (RMatch r) e ∧
      Forall (λ r', ∀ t', Active reg (MRecordType (RMatch r')) = Some t' → ¬ applies t' (RMatch r') e) l1 ∧
      OImportance (Evaluate sha s e) = RuleImportance r ∧ ORule (Evaluate sha s e) = RName r ∧
      ONotify (Evaluate sha s e) = RuleNotify r) ∨
   (Forall (λ r', ∀ t', Active reg (MRecordType (RMatch r')) = Some t' → ¬ applies t' (RMatch r') e) rs ∧
      Evaluate sha s e = mkROutcome Low "" "" [])).
Proof using Htexts.
  intros H%compile_rules_spec. fold Compile in H. split.
  { eapply Forall2_Forall_l; [exact H|]. apply Forall_true. intros c r Hc. destruct (co_known _ _ _ Hc) as (t & ? & _). by exists t. }
  assert (Hno : ∀ l sl, Forall2 (compiles reg) l sl → Forall (λ c, matches c e = false) sl →
    Forall (λ r', ∀ t', Active reg (MRecordType (RMatch r')) = Some t' → ¬ applies t' (RMatch r') e) l).
  { intros l sl Hl Hf. apply Forall_forall. intros r Hr t Ht Ha.
    destruct (Forall2_in_l _ _ _ _ Hl Hr) as (c & Hc & Hcr). pose proof (proj1 (Forall_forall _ _) Hf c Hc) as Hm. cbn in Hm.
    apply (compiled_matches reg r c t e Hcr Ht) in Ha. congruence. }
  destruct (evaluate_first_match sha s e) as [(l1 & c & l2 & -> & Hc & Hl1 & -> & _)|[Hall ->]]; [left|right; split; [by eapply Hno|done]].
  apply Forall2_app_inv_r in H as (r1 & r2 & Hr1 & Hr2 & ->). apply Forall2_cons_inv_r in Hr2 as (r & r3 & Hr & Hr3 & ->).
  destruct (co_known _ _ _ Hr) as (t & Ht & _). exists r1, r, r3, t. split_and!; [done|done| |by eapply Hno|..].
  - by apply (compiled_matches reg r c t e Hr Ht).
  - by destruct (co_out _ _ _ Hr).
  - by destruct (co_name _ _ _ Hr).
  - by destruct (co_out _ _ _ Hr) as (_ & ? & _).
Qed.

(** ** Group keys carry no text *)

(** The events agree on everything but fields declared as text. *)
Record same_but_text (t : Type_) (e e' : EventView) : Prop := {
  sb_type : VRecordType e = VRecordType e';
  sb_subject : VDataSubject e = VDataSubject e';
  sb_key : VKey e = VKey e';
  sb_scope : VScope e = VScope e';
  sb_fields : ∀ k, field_type (TFields t) k ≠ Some TText → (view_values e ≫= λ m, m !! k) = (view_values e' ≫= λ m, m !! k);
}.

Lemma check_group_value name t g e e' :
  check_group name t g = Ok tt → same_but_text t e e' → group_value e g = group_value e' g.
Proof using Type.
  intros Hg [H1 H2 H3 H4 H5]. unfold check_group in Hg. unfold group_value. rewrite H1, H2, H3, H4.
  destruct (String.eqb g "data_subject"); cbn [orb] in Hg; [done|]. destruct (String.eqb g "record_type"); cbn [orb] in Hg; [done|].
  destruct (String.eqb g "key"); cbn [orb] in Hg; [done|]. destruct (String.eqb g "scope"); cbn [orb] in Hg; [done|].
  destruct (has_prefix field_prefix g); [|done]. f_equal. apply H5. unfold field_type.
  destruct (TFields t !! group_field g) as [def|]; [|done]. case_bool_decide; [done|]. cbn. congruence.
Qed.

(** C23. Group keys carry no untrusted text.  Group keys are stored and shown
    outside the verdicts of the scanner; so two events that a compiled rule
    of their type is given have the same group key whenever they differ in
    nothing but fields declared as text: the key, and the digest that
    replaces a long one, tells nothing about such a field. *)
Theorem group_keys_carry_no_text sha rs reg s c t e e' :
  Compile rs (Some reg) = Ok s → c ∈ s → Active reg (MatchRecordType c) = Some t → same_but_text t e e' →
  groupKey sha c e = groupKey sha c e'.
Proof using Type.
  intros H%compile_rules_spec Hc Ht Hsame. destruct (Forall2_in_r _ _ _ _ H Hc) as (r & _ & Hr).
  destruct (co_known _ _ _ Hr) as (t' & Ht' & _ & _ & Hg). rewrite <- (co_type _ _ _ Hr), Ht in Ht'. injection Ht' as <-.
  assert (E : group_part e <$> GroupBy c = group_part e' <$> GroupBy c).
  { apply list_fmap_ext. intros i g Hi%list_elem_of_lookup_2. unfold group_part.
    by rewrite (check_group_value _ t g e e' (Hg g Hi) Hsame). }
  unfold groupKey. by destruct (GroupBy c); [done|rewrite E].
Qed.
End compile.

(** ** Witnesses *)

Local Open Scope string_scope.

(** A conversion that knows one number in two spellings. *)
Definition seven (v : string) : option string := if String.eqb v "7.0" || String.eqb v "7" then Some "7" else None.

Definition score_rule : Rule :=
  mkRule "seven" (mkMatch "grade" ["updated"] {["score" := " 7.0 "]} ∅) High [mkNotice "guardians" "push" ""] ["data_subject"; "field:score"].
Definition score_view (heading : string) : EventView :=
  mkView "grade" "child1" "k" sample_scope Updated (Some {["heading" := heading]}) (Some {["heading" := heading; "score" := "7"]}).
Definition score_compiled : compiled :=
  mkCompiled "seven" "grade" [Updated] {["score" := "7"]} ∅ High [mkNotice "guardians" "push" ""] ["data_subject"; "field:score"].

Example score_rule_compiles : Compile seven (λ _, None) (λ s, s) [score_rule] (Some grade_registry) = Ok [score_compiled].
Proof. vm_compute. reflexivity. Qed.

(** A rule cannot group by a text. *)
Example text_group_refused :
  Compile seven (λ _, None) (λ s, s) [mkRule "r" (mkMatch "grade" [] ∅ ∅) Low [] ["field:heading"]] (Some grade_registry) =
  Err "rule r: group_by field:heading names a text field; group keys carry no untrusted text".
Proof. vm_compute. reflexivity. Qed.

Lemma seven_plain : texts_plain seven (λ _, None).
Proof. split; [|done]. intros v c. unfold seven. destruct (_ || _); [|done]. by intros [= <-]. Qed.

Lemma compiled_rules_mean_what_they_say_witness :
  OImportance (Evaluate (λ s, s) [score_compiled] (score_view "x")) = High.
Proof.
  destruct (compiled_rules_mean_what_they_say seven (λ _, None) (λ s, s) seven_plain (λ s, s) [score_rule] grade_registry [score_compiled]
    (score_view "x") score_rule_compiles) as (_ & [(l1 & r & l2 & t & E & _ & _ & _ & -> & _)|[Hno _]]).
  - destruct l1 as [|r1 l1]; [by injection E as <- _|]. injection E as _ E. by destruct l1.
  - apply Forall_cons in Hno as [Hno _]. exfalso. apply (Hno grade_v2 eq_refl). split; [done|]. split.
    + right. exists "updated". split; [left|done].
    + split; [right|by intros k vs]. assert (Hm : means seven (λ _, None) grade_v2 "score" " 7.0 " "7").
      { exists (mkFieldDef TNumber false). split; [done|by vm_compute]. }
      split_and!; [done| |].
      * intros k v Hkv. change (({["score" := " 7.0 "]} : gmap string string) !! k = Some v) in Hkv. apply lookup_singleton_Some in Hkv as [<- <-]. by exists "7".
      * intros H. destruct (H "score" " 7.0 " eq_refl) as (c & Hc & _). by vm_compute in Hc.
Defined.

Lemma group_keys_carry_no_text_witness :
  groupKey (λ s, s) score_compiled (score_view "x") = groupKey (λ s, s) score_compiled (score_view "y").
Proof.
  apply (group_keys_carry_no_text seven (λ _, None) (λ s, s) (λ s, s) [score_rule] grade_registry [score_compiled] score_compiled grade_v2).
  - apply score_rule_compiles.
  - left.
  - reflexivity.
  - split; [done..|]. intros k Hk. cbn. destruct (decide (k = "heading")) as [->|Hne]; [done|].
    unfold score_view. cbn. rewrite !lookup_insert_ne by congruence. done.
Defined.
