(* ===== verification/JAccess.v ===== *)
(** internal/journal/roster and access: who is granted what, and what a
    reader may see. *)
From S2P Require Import Prelude GoStrings StrOrder Utf8 JRecord JDiff JRules.
Local Open Scope Z_scope.

(** ** Roster *)

Record Grant := mkGrant { GSubject : string; GToken : string }.
#[export] Instance Grant_eq_dec : EqDecision Grant.
Proof. solve_decision. Defined.

Record v1Person := mkPerson { Agent : string; GuardianOf : list string; Siblings : list string }.

(** The decoded document. *)
Record v1Doc := mkDoc { People : gmap string v1Person; HouseholdMembers : list string }.

Definition id_char (a : ascii) : bool :=
  within 65 90 (byte_of a) || within 97 122 (byte_of a) || within 48 57 (byte_of a)
  || (byte_of a =? 46) || (byte_of a =? 95) || (byte_of a =? 45).

Definition ValidID (s : string) : bool :=
  negb (String.eqb s "") && all_chars id_char s
  && negb (String.eqb s ".") && negb (String.eqb s "..").

Abbreviation Roster := (gmap string (list Grant)).

(** One person's checks, besides the uniqueness of agents. *)
Definition person_ok (people : gmap string v1Person) (id : string) (p : v1Person) : bool :=
  ValidID id && negb (String.eqb (Agent p) "")
  && forallb (declared people) (GuardianOf p ++ Siblings p).

Definition grant_le (a b : Grant) : Prop :=
  if String.eqb (GSubject a) (GSubject b) then str_le (GToken a) (GToken b)
  else str_le (GSubject a) (GSubject b).
#[export] Instance grant_le_dec a b : Decision (grant_le a b).
Proof. unfold grant_le. destruct (String.eqb _ _); apply _. Defined.

Fixpoint drop_grant_repeats (l : list Grant) : list Grant :=
  match l with
  | x :: ((y :: _) as r) =>
      if bool_decide (x = y) then drop_grant_repeats r else x :: drop_grant_repeats r
  | l => l
  end.

Definition sortGrants (gs : list Grant) : list Grant := drop_grant_repeats (merge_sort grant_le gs).

(** The grants of one person before sorting. *)
Definition person_grants (members : list string) (id : string) (p : v1Person) : list Grant :=
  [mkGrant id "subject"]
  ++ ((λ c, mkGrant c "guardians") <$> GuardianOf p)
  ++ (if (length (GuardianOf p) =? 0)%nat then [] else [mkGrant "" "guardians"])
  ++ ((λ s, mkGrant s "siblings") <$> Siblings p)
  ++ (if bool_decide (id ∈ members)
      then ((λ m, mkGrant m "household") <$> members) ++ [mkGrant "" "household"] else []).

Definition parseV1 (doc : v1Doc) : option Roster :=
  if bool_decide (People doc = ∅) then None
  else if map_all (person_ok (People doc)) (People doc)
          && distinct (Agent <$> (map_to_list (People doc)).*2)
          && forallb (declared (People doc)) (HouseholdMembers doc)
  then Some (map_imap (λ id p, Some (sortGrants (person_grants (HouseholdMembers doc) id p)))
               (People doc))
  else None.

Definition Has (r : option Roster) (id : string) : bool :=
  match r with Some r => declared r id | None => false end.
Definition Grants (r : option Roster) (member : string) : option (list Grant) :=
  r ≫= λ r, r !! member.
Definition Members (r : option Roster) : list string :=
  match r with Some r => sorted_keys r | None => [] end.

(** ** Access *)

Definition Public : string := "public".
Definition ErasedPrefix : string := "erased:".
Definition ErasedAuthor : string := "erased:author".
Definition ErasedReaderPrefix : string := "erased:reader:".
Definition WithheldScan : string := "withheld: failed content scan".
Definition WithheldAudience : string := "withheld: different audience".

Definition ReaderToken (audience : list string) : string :=
  (ErasedReaderPrefix ++ join "," audience)%string.

Definition IsErased (subject : string) : bool := has_prefix ErasedPrefix subject.

Definition Visible (grants : list Grant) (subject : string) (audience : list string) : bool :=
  if IsErased subject then
    existsb (λ g, String.eqb (GSubject g) subject
      && (String.eqb (GToken g) ErasedAuthor || String.eqb (GToken g) (ReaderToken audience))) grants
  else
    existsb (String.eqb Public) audience
    || existsb (λ g, String.eqb (GSubject g) subject && existsb (String.eqb (GToken g)) audience)
         grants.

(** A text value as a reader may see it; [None] is null. *)
Definition Text_ (v : option string) (verdict : string) : option string :=
  match v with
  | None => None
  | Some v => if String.eqb verdict VerdictPass then Some v else Some (encode_string WithheldScan)
  end.

Definition OldValue (grants : list Grant) (subject : string) (prev : list string)
    (audienceChanged : bool) (v : option string) : option string :=
  if negb audienceChanged || Visible grants subject prev then v
  else Some (encode_string WithheldAudience).

Definition Notices (grants : list Grant) (subject : string) (l : list Notice) : list Notice :=
  if IsErased subject then []
  else List.filter (λ n, existsb (λ g, String.eqb (GSubject g) subject
                                       && String.eqb (GToken g) (NToken n)) grants) l.

(** ** What the roster grants *)

Lemma elem_of_drop_grant_repeats l x : x ∈ drop_grant_repeats l ↔ x ∈ l.
Proof.
  induction l as [|a [|b l] IH]; [done..|].
  change (drop_grant_repeats (a :: b :: l)) with
    (if bool_decide (a = b) then drop_grant_repeats (b :: l) else a :: drop_grant_repeats (b :: l)).
  case_bool_decide as Hab; rewrite ?(elem_of_cons (drop_grant_repeats _)), IH.
  - subst. rewrite !elem_of_cons. tauto.
  - by rewrite (elem_of_cons (b :: l)).
Qed.

Lemma elem_of_sortGrants l x : x ∈ sortGrants l ↔ x ∈ l.
Proof. unfold sortGrants. by rewrite elem_of_drop_grant_repeats, merge_sort_Permutation. Qed.

(** The household relations a grant stands for. *)
Definition entitled (doc : v1Doc) (id : string) (p : v1Person) (g : Grant) : Prop :=
  let '(mkGrant s t) := g in
  (t = "subject"%string ∧ s = id) ∨
  (t = "guardians"%string ∧ (s ∈ GuardianOf p ∨ s = ""%string ∧ GuardianOf p ≠ [])) ∨
  (t = "siblings"%string ∧ s ∈ Siblings p) ∨
  (t = "household"%string ∧ id ∈ HouseholdMembers doc ∧ (s ∈ HouseholdMembers doc ∨ s = ""%string)).

Lemma grant_fmap (l : list string) t s u :
  mkGrant s u ∈ (λ c, mkGrant c t) <$> l ↔ s ∈ l ∧ u = t.
Proof.
  rewrite list_elem_of_fmap. split; [by intros (c & [= -> ->] & Hc)|].
  intros [Hs ->]. by exists s.
Qed.

Lemma person_grants_spec doc id p g :
  g ∈ person_grants (HouseholdMembers doc) id p ↔ entitled doc id p g.
Proof.
  destruct g as [s t]. unfold person_grants, entitled.
  rewrite !elem_of_app, list_elem_of_singleton, !grant_fmap.
  assert (Hg : mkGrant s t ∈ (if (length (GuardianOf p) =? 0)%nat then [] else [mkGrant "" "guardians"])
    ↔ t = "guardians"%string ∧ s = ""%string ∧ GuardianOf p ≠ []).
  { destruct (GuardianOf p); simpl; rewrite ?list_elem_of_singleton, ?elem_of_nil.
    - split; [done|]. by intros (_ & _ & ?).
    - split; [by intros [= -> ->]|]. by intros (-> & -> & _). }
  assert (Hh : mkGrant s t ∈ (if bool_decide (id ∈ HouseholdMembers doc)
      then ((λ m, mkGrant m "household") <$> HouseholdMembers doc) ++ [mkGrant "" "household"] else [])
    ↔ t = "household"%string ∧ id ∈ HouseholdMembers doc ∧ (s ∈ HouseholdMembers doc ∨ s = ""%string)).
  { case_bool_decide; [rewrite elem_of_app, grant_fmap, list_elem_of_singleton|rewrite elem_of_nil].
    - split; [intros [[? ->]|[= -> ->]]|intros (-> & _ & [?| ->])]; tauto.
    - tauto. }
  rewrite Hg, Hh. split.
  - intros [[= -> ->]|[[? ->]|[?|[[? ->]|?]]]]; tauto.
  - intros [[-> ->]|[[-> [?|[-> ?]]]|[[-> ?]|?]]]; tauto.
Qed.

Lemma parseV1_spec doc r :
  parseV1 doc = Some r →
  (∀ id p, People doc !! id = Some p → person_ok (People doc) id p = true) ∧
  Forall (λ m, declared (People doc) m = true) (HouseholdMembers doc) ∧
  ∀ id, r !! id = (λ p, sortGrants (person_grants (HouseholdMembers doc) id p)) <$> People doc !! id.
Proof.
  unfold parseV1. case_bool_decide; [done|]. destruct (_ && _ && _) eqn:E; [|done].
  intros [= <-]. bool_to_prop. rewrite map_all_spec in *. split_and!.
  - done.
  - by apply forallb_Forall.
  - intros id. rewrite map_lookup_imap. by destruct (People doc !! id).
Qed.

(** The roster grants exactly the household's relations.  A member of
    a roster that Parse accepts holds the grants of its own data, of those
    it is guardian of (and of the household's own records when it is
    guardian of anyone), of its siblings, and, as a household member, of
    every household member and the household; and no other. *)
Theorem roster_grants_exact doc r id p gs g :
  parseV1 doc = Some r → People doc !! id = Some p → Grants (Some r) id = Some gs →
  g ∈ gs ↔ entitled doc id p g.
Proof.
  intros (_ & _ & Hr)%parseV1_spec Hp Hgs. unfold Grants in Hgs. simpl in Hgs.
  rewrite Hr, Hp in Hgs. injection Hgs as <-. by rewrite elem_of_sortGrants, person_grants_spec.
Qed.

(** ** Kept notes *)

(** Every member of a roster has a valid id. *)
Lemma parseV1_ids doc r m : parseV1 doc = Some r → is_Some (r !! m) → ValidID m = true.
Proof.
  intros (Hp & _ & Hr)%parseV1_spec [gs Hm]. rewrite Hr in Hm.
  destruct (People doc !! m) as [p|] eqn:Hpm; [|done]. specialize (Hp m p Hpm).
  unfold person_ok in Hp. by bool_to_prop.
Qed.

Lemma has_prefix_chars f p s :
  has_prefix p s = true → all_chars f s = true → all_chars f p = true.
Proof.
  revert s. induction p as [|a p IH]; intros [|b s] Hp Hs; try done. simpl in *.
  apply andb_true_iff in Hp as [->%Ascii.eqb_eq Hp], Hs as [-> Hs]. by apply (IH s).
Qed.

Lemma ValidID_not_erased id : ValidID id = true → IsErased id = false.
Proof.
  unfold ValidID. intros H. bool_to_prop. apply not_true_is_false. intros He.
  by apply (has_prefix_chars id_char) in He.
Qed.

Lemma entitled_not_erased doc r id p g :
  parseV1 doc = Some r → People doc !! id = Some p → entitled doc id p g →
  IsErased (GSubject g) = false.
Proof.
  intros (Hp & Hm & _)%parseV1_spec Hid He.
  assert (Hperson : ∀ x, is_Some (People doc !! x) → IsErased x = false).
  { intros x [q Hq]. apply ValidID_not_erased. specialize (Hp x q Hq). unfold person_ok in Hp.
    by bool_to_prop. }
  rewrite Forall_forall in Hm.
  assert (Hrefs : ∀ x, x ∈ GuardianOf p ++ Siblings p → IsErased x = false).
  { intros x Hx. apply Hperson, declared_spec. specialize (Hp id p Hid). unfold person_ok in Hp.
    bool_to_prop. rename select (forallb _ _ = true) into Hf.
    apply forallb_Forall in Hf. rewrite Forall_forall in Hf. by apply Hf. }
  destruct g as [s t]. simpl in *.
  destruct He as [[_ ->]|[[_ [Hs|[-> _]]]|[[_ Hs]|[_ [_ [Hs| ->]]]]]]; try done.
  - apply Hperson. by eexists.
  - apply Hrefs, elem_of_app. by left.
  - apply Hrefs, elem_of_app. by right.
  - by apply Hperson, declared_spec, Hm.
Qed.

(** Audience lists as they are stored: valid tokens. *)
Definition tokens_ok (aud : list string) : Prop := Forall (λ t, ValidToken t = true) aud.

Lemma name_char_not_comma a : name_char a = true → negb (Ascii.eqb a ",") = true.
Proof.
  intros H. apply negb_true_iff, Ascii.eqb_neq. intros ->. done.
Qed.

Lemma ValidToken_shape t : ValidToken t = true → t ≠ ""%string ∧ no_char "," t = true.
Proof.
  unfold ValidToken, name_upto. destruct t as [|a t]; [done|]. intros H. bool_to_prop.
  split; [done|]. cbn [no_char]. rewrite name_char_not_comma.
  2: { unfold name_char. rename select (name_start a = true) into Hs. by rewrite Hs. }
  rename select (all_chars name_char t = true) into Ht. clear -Ht.
  induction t as [|b t IH]; [done|]. cbn [all_chars no_char] in *.
  apply andb_true_iff in Ht as [Hb Ht]. rewrite name_char_not_comma by done. by apply IH.
Qed.

Lemma join_tokens_injective a b :
  tokens_ok a → tokens_ok b → join "," a = join "," b → a = b.
Proof.
  intros Ha Hb E.
  assert (Hsplit : ∀ l, l ≠ [] → tokens_ok l → split_on "," (join "," l) = l).
  { intros l Hne Hl. apply (split_on_join "," l Hne). eapply Forall_impl; [exact Hl|].
    intros t Ht. by apply ValidToken_shape. }
  assert (Hnil : ∀ l, tokens_ok l → join "," l = ""%string → l = []).
  { intros l Hl E0. destruct l as [|x l]; [done|]. exfalso.
    apply Forall_cons in Hl as [Hx _]. apply ValidToken_shape in Hx as [Hx _].
    destruct l; simpl in E0; [done|]. by destruct x. }
  destruct (decide (a = [])) as [->|Hne]; [symmetry; apply Hnil; [done|by rewrite <- E]|].
  destruct (decide (b = [])) as [->|Hne']; [by apply Hnil|].
  rewrite <- (Hsplit a), <- (Hsplit b) by done. by rewrite E.
Qed.

Lemma ReaderToken_injective a b :
  tokens_ok a → tokens_ok b → ReaderToken a = ReaderToken b → a = b.
Proof.
  intros Ha Hb E. apply join_tokens_injective; [done..|].
  unfold ReaderToken, ErasedReaderPrefix in E. by repeat (injection E as E).
Qed.

(** A note kept after an erasure is seen by its frozen readers only.
    No grant of any roster reaches it, nor does the audience "public".  The
    author sees every row of it; any other frozen reader sees a row exactly
    when its audience is the one the reader was frozen from. *)
Theorem kept_note_frozen doc r id p gs s aud frozen :
  parseV1 doc = Some r → People doc !! id = Some p → Grants (Some r) id = Some gs →
  IsErased s = true → tokens_ok aud → tokens_ok frozen →
  Visible gs s aud = false ∧
  Visible (gs ++ [mkGrant s ErasedAuthor]) s aud = true ∧
  (Visible (gs ++ [mkGrant s (ReaderToken frozen)]) s aud = true ↔ aud = frozen).
Proof.
  intros Hr Hp Hgs Hs Ha Hf.
  assert (Hno : existsb (λ g, String.eqb (GSubject g) s
      && (String.eqb (GToken g) ErasedAuthor || String.eqb (GToken g) (ReaderToken aud))) gs = false).
  { apply existsb_false. intros g Hg. apply andb_false_iff. left. apply String.eqb_neq.
    intros <-. pose proof Hr as Hr'. apply parseV1_spec in Hr' as (_ & _ & Hl).
    unfold Grants in Hgs. simpl in Hgs. rewrite Hl, Hp in Hgs. injection Hgs as <-.
    rewrite elem_of_sortGrants, person_grants_spec in Hg.
    by rewrite (entitled_not_erased _ _ _ _ _ Hr Hp Hg) in Hs. }
  unfold Visible. rewrite Hs, !existsb_app, Hno. cbn [existsb GSubject GToken orb].
  rewrite !String.eqb_refl. split_and!; [done|done|].
  rewrite orb_false_r. cbn [andb].
  assert (String.eqb (ReaderToken frozen) ErasedAuthor = false) as -> by done. cbn [orb].
  rewrite String.eqb_eq. split; [|by intros ->].
  intros E. symmetry. by apply ReaderToken_injective.
Qed.

(** ** Withheld values *)

(** Scanning fails closed: a text value is shown only under the verdict
    "pass"; under any other verdict, a missing one included, and whatever
    the value is, the reader gets the same marker.  An old value across a
    change of audience is shown only to a reader of the old audience. *)
Theorem withheld_unless_passed v w verdict verdict' gs s prev changed :
  (∀ x, Text_ (Some v) verdict = Some x → x = v ∨ x = encode_string WithheldScan) ∧
  (verdict ≠ VerdictPass → verdict' ≠ VerdictPass →
     Text_ (Some v) verdict = Text_ (Some w) verdict') ∧
  (changed = true → Visible gs s prev = false →
     OldValue gs s prev changed (Some v) = OldValue gs s prev changed (Some w)).
Proof.
  unfold Text_, OldValue. split_and!.
  - intros x. destruct (String.eqb verdict VerdictPass); intros [= <-]; auto.
  - intros H1%String.eqb_neq H2%String.eqb_neq. by rewrite H1, H2.
  - by intros -> ->.
Qed.

(** ** Witnesses *)

Definition household_doc : v1Doc :=
  mkDoc {[ "parent1"%string := mkPerson "agent-p" ["child1"%string] [];
           "child1"%string := mkPerson "agent-c" [] [] ]} ["parent1"%string; "child1"%string].

Definition household_roster : Roster := default ∅ (parseV1 household_doc).
Definition parent_grants : list Grant := default [] (household_roster !! "parent1"%string).

Lemma household_parse : parseV1 household_doc = Some household_roster.
Proof. vm_compute. reflexivity. Qed.

Lemma roster_grants_exact_witness : mkGrant "child1" "guardians" ∈ parent_grants.
Proof.
  apply (roster_grants_exact household_doc household_roster "parent1"
    (mkPerson "agent-p" ["child1"%string] []) parent_grants).
  - vm_compute. reflexivity.
  - vm_compute. reflexivity.
  - vm_compute. reflexivity.
  - right. left. split; [reflexivity|]. left. apply list_elem_of_singleton. reflexivity.
Defined.

Lemma kept_note_frozen_witness :
  Visible parent_grants "erased:00:1" ["public"%string] = false.
Proof.
  apply (kept_note_frozen household_doc household_roster "parent1"
    (mkPerson "agent-p" ["child1"%string] []) parent_grants "erased:00:1" ["public"%string]
    ["guardians"%string]);
    [vm_compute; reflexivity..| |]; (constructor; [vm_compute; reflexivity|constructor]).
Defined.

(** * internal/journal/policy: what each authenticated service may write, and
    whom it may read and write as. *)

Record Readers := mkReaders { Any : bool; IDs : list string }.

Definition Allows (r : Readers) (member : string) : bool :=
  Any r || existsb (String.eqb member) (IDs r).
Definition readers_empty (r : Readers) : bool := negb (Any r) && (length (IDs r) =? 0)%nat.

Record Service := mkService {
  Read : bool;
  SReaders : Readers;
  WriteTypes : list string;
  WriteScopes : gmap string (list string);
  WriteSubjects : string;
  Counts : bool;
  Admin : bool;
}.

Definition RosterSubjects : string := "roster_subjects".

Definition ReasonPolicy : string := "policy".
Definition denied : Rejection := mkRejection 403 ReasonPolicy.

(** ** Caller names: the pattern of callerRE *)

Definition alnum (a : ascii) : bool := within 97 122 (byte_of a) || within 48 57 (byte_of a).
Definition dash (a : ascii) : bool := alnum a || (byte_of a =? 45).
Definition dash_dot (a : ascii) : bool := dash a || (byte_of a =? 46).

(** A first and a last character from [alnum], the others from [mid]. *)
Definition label (mid : ascii → bool) (s : string) : bool :=
  match String.list_ascii_of_string s with
  | [] => false
  | a :: r => alnum a && match rev r with
                         | [] => true
                         | z :: m => alnum z && forallb mid m
                         end
  end.

Definition caller_ok (caller : string) : bool :=
  match split_on "/" caller with
  | [ns; name] => label dash ns && label dash_dot name
                  && (String.length ns <=? 63)%nat && (String.length name <=? 253)%nat
  | _ => false
  end.

(** The record types a service names: whether all are known, and whether
    some are household types or source types. *)
Definition writes_household (reg : Registry) (s : Service) : bool :=
  existsb (λ n, match Active reg n with Some t => Household t | None => false end) (WriteTypes s).
Definition writes_source (reg : Registry) (s : Service) : bool :=
  existsb (λ n, match Active reg n with Some t => negb (Household t) | None => false end)
    (WriteTypes s).

Definition service_ok (reg : Registry) (caller : string) (s : Service) : bool :=
  let household := writes_household reg s in
  let snapshots := writes_source reg s in
  let reads := Read s || Counts s || household in
  caller_ok caller
  && forallb (λ n, bool_decide (is_Some (Active reg n))) (WriteTypes s)
  && (negb snapshots || String.eqb (WriteSubjects s) RosterSubjects)
  && (String.eqb (WriteSubjects s) "" || String.eqb (WriteSubjects s) RosterSubjects)
  && (bool_decide (WriteScopes s = ∅) || snapshots)
  && (reads || readers_empty (SReaders s))
  && (Any (SReaders s) || (forallb ValidID (IDs (SReaders s)) && distinct (IDs (SReaders s))))
  && map_all (λ part vals, ValidName part && negb (length vals =? 0)%nat) (WriteScopes s)
  && negb (reads && readers_empty (SReaders s))
  && (Read s || Counts s || negb (length (WriteTypes s) =? 0)%nat || Admin s).

Definition Policy := gmap string Service.

Definition NewPolicy (services : gmap string Service) (reg : Registry) : option Policy :=
  if map_all (service_ok reg) services then Some services else None.

(** ** Decisions *)

Definition MayWrite (s : Service) (t : Type_) (sc : Scope) : option Rejection :=
  if Household t || negb (existsb (String.eqb (TName t)) (WriteTypes s)) then Some denied
  else if negb (String.eqb (Source sc) (Owner t)) then Some denied
  else if map_all (λ part allowed, match Get part sc with
                                   | Some v => existsb (String.eqb v) allowed
                                   | None => false
                                   end) (WriteScopes s)
  then None else Some denied.

Definition WritesSnapshots (s : Service) (reg : Registry) : bool := writes_source reg s.
Definition WritesNotes (s : Service) (reg : Registry) : bool := writes_household reg s.

Definition MayWriteNote (s : Service) (t : Type_) (onBehalfOf : string) : option Rejection :=
  if negb (Household t) || negb (existsb (String.eqb (TName t)) (WriteTypes s)) then Some denied
  else if negb (Allows (SReaders s) onBehalfOf) then Some denied else None.

Definition MayRead (s : Service) (reader : string) : bool := Read s && Allows (SReaders s) reader.
Definition MayCount (s : Service) (reader : string) : bool := Counts s && Allows (SReaders s) reader.

(** ** Properties *)

Lemma existsb_eqb x l : existsb (String.eqb x) l = true ↔ x ∈ l.
Proof.
  rewrite existsb_Exists, Exists_exists. split; [by intros (y & ? & ->%String.eqb_eq)|].
  intros Hx. exists x. split; [done|apply String.eqb_refl].
Qed.

(** A policy accepted by New lets a service write a snapshot only of a
    listed source type, under that type's own source, with every scope part
    it is limited to set to one of the allowed values; such a service
    states that it writes for roster subjects, and the types it may write
    snapshots of are never those it may write notes of. *)
Theorem may_write_confined services reg pol caller s t sc :
  NewPolicy services reg = Some pol → pol !! caller = Some s → Active reg (TName t) = Some t →
  MayWrite s t sc = None →
  TName t ∈ WriteTypes s ∧ Source sc = Owner t ∧ Owner t ≠ OwnerHousehold ∧
  (∀ part allowed, WriteScopes s !! part = Some allowed →
     ∃ v, Get part sc = Some v ∧ v ∈ allowed) ∧
  WriteSubjects s = RosterSubjects ∧ WritesSnapshots s reg = true ∧
  ∀ m, MayWriteNote s t m ≠ None.
Proof.
  unfold NewPolicy. destruct (map_all _ services) eqn:Hok; [|done]. intros [= <-] Hs Ht.
  unfold MayWrite. destruct (Household t || _) eqn:H1; [done|].
  destruct (negb (String.eqb (Source sc) (Owner t))) eqn:H2; [done|].
  destruct (map_all _ (WriteScopes s)) eqn:H3; [intros _|done]. bool_to_prop.
  rename select (existsb _ (WriteTypes s) = true) into Hin.
  apply existsb_eqb in Hin as Hin'. apply String.eqb_eq in H2.
  rewrite map_all_spec in Hok. rewrite map_all_spec in H3. specialize (Hok _ _ Hs). unfold service_ok in Hok.
  assert (Hsrc : writes_source reg s = true).
  { unfold writes_source. rewrite existsb_Exists, Exists_exists. exists (TName t).
    split; [done|]. rewrite Ht. by apply negb_true_iff. }
  rewrite Hsrc in Hok. bool_to_prop. split_and!; try done.
  - unfold Household in *. by apply String.eqb_neq.
  - intros part allowed Hp%H3. destruct (Get part sc) as [v|]; [|done].
    exists v. by rewrite <- existsb_eqb.
  - by apply String.eqb_eq.
  - intros m. unfold MayWriteNote. rename select (Household t = false) into Hh. by rewrite Hh.
Qed.

(** ** Witness *)

Definition connector : Service :=
  mkService false (mkReaders false []) ["grade"%string] {[ "surface"%string := ["grades"%string] ]}
    RosterSubjects false false.

Definition connector_policy : Policy := {[ "glovebox/powerschool"%string := connector ]}.
Definition grades_scope : Scope :=
  [("source", "powerschool"); ("surface", "grades"); ("data_subject", "child1")]%string.

Lemma may_write_confined_witness :
  NewPolicy connector_policy grade_registry = Some connector_policy ∧
  WritesSnapshots connector grade_registry = true.
Proof.
  assert (H : NewPolicy connector_policy grade_registry = Some connector_policy)
    by (vm_compute; reflexivity).
  split; [exact H|].
  apply (may_write_confined connector_policy grade_registry connector_policy
    "glovebox/powerschool" connector grade_v2 grades_scope H); vm_compute; reflexivity.
Defined.
