(* ===== verification/JStore.v ===== *)
(** internal/journal: the store.  The database is a record of its tables and
    every operation is one transaction: writes about a subject are
    serialised by its advisory lock, so each takes effect as a whole.

    Instants are at the database's precision, and stored fields are their
    canonical values: PostgreSQL reformats them and Reload restores them. *)
From S2P Require Import Prelude GoStrings StrOrder JRecord JDiff JRules JAccess.
Local Open Scope Z_scope.

(** ** Tables *)

Inductive status := Applied | Late | Held | Discarded.
#[export] Instance status_eq_dec : EqDecision status.
Proof. solve_decision. Defined.

(** record.Normalized: a validated snapshot. *)
Record Normalized := mkNormalized {
  NId : string;
  NType : Type_;
  NVersion : Z;
  NScope : Scope;
  NScopeKey : string;
  NSubject : string;
  NComplete : bool;
  NRange : option Range;
  NObservedAt : Z;
  NApproximate : bool;
  NRecords : list NormRecord;
}.

Record snapshot_row := mkSnapshotRow {
  ss_type : string;
  ss_version : Z;
  ss_scope : string;
  ss_subject : string;
  ss_complete : bool;
  ss_approximate : bool;
  ss_observed_at : Z;
  ss_received_at : Z;
  ss_writer : string;
  ss_status : status;
  ss_payload : string;
  ss_stats : Stats;
}.

Record currentRow := mkCurrentRow {
  cr_scope : string;
  cr_audience : list string;
  cr_fields : Fields;
  cr_removed : bool;
  cr_first_seen_at : Z;
  cr_last_seen_at : Z;
  cr_confirmed_snapshot : option string;
  cr_confirmed_at : Z;
  cr_hash : string;
  cr_last_event_seq : Z;
  cr_scan : ScanMap;
}.

(** The column "changed": the changed fields of an update, or the fields of
    a removed record. *)
Inductive changed_column := NoChange | ChangedFields (m : gmap string Change) | RemovedFields (f : Fields).

Record event_row := mkEventRow {
  er_seq : Z;
  er_id : Identity;
  er_kind : Kind;
  er_version : Z;
  er_scope : string;
  er_prev_scope : option string;
  er_audience : list string;
  er_prev_audience : option (list string);
  er_fields : option Fields;
  er_changed : changed_column;
  er_scan : gmap string EventScan;
  er_observed_at : Z;
  er_prev_observed_at : option Z;
  er_approximate : bool;
  er_snapshot : option string;
  er_actor : string;
  er_importance : string;
  er_rule : option string;
  er_notify : list Notice;
  er_group_key : option string;
}.

Record reader_row := mkReader { rd_pseudonym : string; rd_member : string; rd_author : bool }.

Record erasure_row := mkErasure { es_subject : string; es_at : Z; es_actor : string }.

Record db := mkDb {
  snapshots : gmap string snapshot_row;
  current : gmap Identity currentRow;
  events : list event_row;               (* in seq order *)
  next_seq : Z;
  erasures : list erasure_row;
  erasure_kept : gmap string (list string);
  erasure_reader : list reader_row;
  household_types : list string;         (* record_type names owned by the household *)
}.

Definition set_snapshots v d := mkDb v (current d) (events d) (next_seq d) (erasures d)
  (erasure_kept d) (erasure_reader d) (household_types d).
Definition set_current v d := mkDb (snapshots d) v (events d) (next_seq d) (erasures d)
  (erasure_kept d) (erasure_reader d) (household_types d).
Definition set_events v n d := mkDb (snapshots d) (current d) v n (erasures d)
  (erasure_kept d) (erasure_reader d) (household_types d).
Definition set_erasures v d := mkDb (snapshots d) (current d) (events d) (next_seq d) v
  (erasure_kept d) (erasure_reader d) (household_types d).
Definition set_kept v r d := mkDb (snapshots d) (current d) (events d) (next_seq d) (erasures d)
  v r (household_types d).

Definition rt_of (id : Identity) : string := id.1.1.
Definition subject_of (id : Identity) : string := id.1.2.
Definition key_of (id : Identity) : string := id.2.

(** ** Outcomes *)

Inductive outcome_status := SDuplicate | SApplied | SLate | SHeld.

Inductive Outcome :=
| Done (s : outcome_status) (stats : Stats)
| Rejected (r : Rejection).

Definition ReasonErasedSubject : string := "erased_subject".
Definition ReasonUnknownSubject : string := "unknown_subject".
Definition ReasonSnapshotIDReused : string := "snapshot_id_reused".
Definition ReasonConflict : string := "conflict".

Definition reusedRejection : Rejection := mkRejection 422 ReasonSnapshotIDReused.
Definition erasedRejection : Rejection := mkRejection 410 ReasonErasedSubject.
Definition unknownSubject : Rejection := mkRejection 409 ReasonUnknownSubject.

Definition zero_stats : Stats := mkStats 0 0 0 0 0 0.

(** lookup: the stored outcome of a snapshot id. *)
Definition lookup_snapshot (d : db) (id writer recordType scope : string) : option Outcome :=
  match snapshots d !! id with
  | None => None
  | Some r =>
      if negb (String.eqb (ss_writer r) writer && String.eqb (ss_type r) recordType
               && String.eqb (ss_scope r) scope)
      then Some (Rejected reusedRejection)
      else Some (Done (if bool_decide (ss_status r = Held) then SHeld else SDuplicate) (ss_stats r))
  end.

(** banned: some member of the list has an erasure row. *)
Definition is_erased (d : db) (m : string) : bool :=
  existsb (λ e, String.eqb (es_subject e) m) (erasures d).
Definition banned (d : db) (members : list string) : option Rejection :=
  if existsb (λ m, negb (String.eqb m "") && is_erased d m) members
  then Some erasedRejection else None.

Definition checkSubject (r : option Roster) (subject : string) : option Rejection :=
  if String.eqb subject "" then None
  else if Has r subject then None else Some unknownSubject.

(** ** Events *)

Record eventSource := mkSource {
  src_snapshot : option string; src_actor : string; src_observed_at : Z; src_approximate : bool;
}.

(** record_current after an event, without the bookkeeping columns. *)
Record next_row := mkNext {
  nx_key : string; nx_scope : string; nx_audience : list string; nx_fields : Fields;
  nx_removed : bool; nx_last_seen_at : Z; nx_scan : ScanMap;
}.

(** ** Writing a plan *)

Section store.
(** The scanner: its version and its verdict on a text. *)
Context (scanner_version : string) (scanner_verdict : string → string).
(** crypto/sha256, and its hexadecimal form. *)
Context (sha256 sha256_hex : string → string).
Context (rules : RuleSet) (guard : Guard).

Definition Hash (f : Fields) : string := sha256 (hash_input f).

(** The rows of one subject and type (of one key when it is set). *)
Definition current_of (id : Identity) (r : currentRow) : Current :=
  mkCurrent (key_of id) (cr_scope r) (cr_audience r) (cr_fields r) (cr_removed r) (cr_hash r)
    (cr_last_seen_at r) (cr_confirmed_at r) (cr_scan r).

Definition loadCurrent (d : db) (t : Type_) (subject key : string) : gmap string Current :=
  list_to_map (omap (λ '(id, r),
    if String.eqb (rt_of id) (TName t) && String.eqb (subject_of id) subject
       && (String.eqb key "" || String.eqb (key_of id) key)
    then Some (key_of id, current_of id r) else None) (map_to_list (current d))).

(** The zero value of a row that is not there. *)
Definition zero_current : Current := mkCurrent "" "" [] ∅ false "" 0 0 ∅.

Definition scanNew (v : string) : string := scanner_verdict (default "" (unmarshal_string v))%string.

(** What the text fields among [f] are mapped to. *)
Definition text_fields {A B} (t : Type_) (g : string → A → B) (f : gmap string A) : gmap string B :=
  map_imap (λ k v, if IsText t k then Some (g k v) else None) f.

Definition new_entry (v : string) : ScanEntry := mkScanEntry (scanNew v) scanner_version.

Definition prev_entry (prev : Current) (f : string) : ScanEntry :=
  default (mkScanEntry "" "") (CScan prev !! f).

(** The verdicts of an update: unchanged values keep theirs, a changed
    text field is scanned, a field that goes loses its entry. *)
Definition updated_scan (t : Type_) (prev : Current) (ev : Event) : ScanMap :=
  merge (λ (c : option (option ScanEntry)) (e : option ScanEntry), match c with Some x => x | None => e end)
    (text_fields t (λ _ c, new_entry <$> NewV c) (EChanged ev))
    (filter (λ p, is_Some (default ∅ (EAfter ev) !! p.1)) (CScan prev)).

(** Both sides of a changed text field; a version the sides do not share is
    the mixed "". *)
Definition updated_side (prev : Current) (f : string) (c : Change) : EventScan :=
  let old := prev_entry prev f in
  let new := match NewV c with Some v => scanNew v | None => ""%string end in
  match Old c with
  | Some _ => mkEventScan (Verdict old) new
                (if String.eqb (ScannerVersion old) scanner_version then scanner_version else "")
  | None => mkEventScan "" new scanner_version
  end.

Definition event_view (t : Type_) (subject : string) (ev : Event) : EventView :=
  mkView (TName t) subject (EKey ev) (EScope ev) (EKind ev)
    match EKind ev with Updated | Removed => EBefore ev | _ => None end
    match EKind ev with Removed => None | _ => EAfter ev end.

Definition nonempty (s : string) : option string := if String.eqb s "" then None else Some s.

(** The event row, for a sequence number, and the next current row. *)
Definition buildEvent (t : Type_) (subject : string) (src : eventSource) (prev : Current) (ev : Event)
    : (Z → event_row) * next_row :=
  let after := default ∅ (EAfter ev) in
  let before := default ∅ (EBefore ev) in
  let o := Evaluate sha256_hex rules (event_view t subject ev) in
  let '(fields, changed, evScan) :=
    match EKind ev with
    | Created | Restored =>
        (EAfter ev, NoChange, text_fields t (λ _ v, mkEventScan "" (scanNew v) scanner_version) after)
    | Updated => (None, ChangedFields (EChanged ev), text_fields t (updated_side prev) (EChanged ev))
    | Removed =>
        (None, RemovedFields before,
         text_fields t (λ f _, mkEventScan (Verdict (prev_entry prev f)) ""
                                 (ScannerVersion (prev_entry prev f))) before)
    end in
  let next :=
    match EKind ev with
    | Created | Restored =>
        mkNext (EKey ev) (EScope ev) (EAudience ev) after false (src_observed_at src)
          (text_fields t (λ _ v, new_entry v) after)
    | Updated =>
        mkNext (EKey ev) (EScope ev) (EAudience ev) after false (src_observed_at src)
          (updated_scan t prev ev)
    | Removed =>
        mkNext (EKey ev) (EScope ev) (EAudience ev) (CFields prev) true (CLastSeenAt prev) (CScan prev)
    end in
  (λ seq, mkEventRow seq (TName t, subject, EKey ev) (EKind ev) (SchemaVersion t) (EScope ev)
     (nonempty (EPrevScope ev)) (EAudience ev) (EPrevAudience ev) fields changed evScan
     (src_observed_at src) (EPrevObservedAt ev) (src_approximate src) (src_snapshot src)
     (src_actor src) (OImportance o) (nonempty (ORule o)) (ONotify o) (nonempty (OGroupKey o)),
   next).

(** INSERT ... ON CONFLICT DO UPDATE: first_seen_at is kept. *)
Definition next_current (src : eventSource) (c : next_row) (seq first : Z) : currentRow :=
  mkCurrentRow (nx_scope c) (nx_audience c) (nx_fields c) (nx_removed c) first (nx_last_seen_at c)
    (src_snapshot src) (src_observed_at src) (Hash (nx_fields c)) seq (nx_scan c).

Definition upsertCurrent (recordType subject : string) (src : eventSource) (c : next_row) (seq : Z)
    (d : db) : db :=
  let id := (recordType, subject, nx_key c) in
  let first := match current d !! id with
               | Some old => cr_first_seen_at old | None => src_observed_at src end in
  set_current (<[id := next_current src c seq first]> (current d)) d.

Definition write_event (t : Type_) (subject : string) (src : eventSource) (cur : gmap string Current)
    (d : db) (ev : Event) : db :=
  let '(row, next) := buildEvent t subject src (default zero_current (cur !! EKey ev)) ev in
  let seq := next_seq d in
  upsertCurrent (TName t) subject src next seq (set_events (events d ++ [row seq]) (seq + 1) d).

(** The records the observation confirms. *)
Definition confirm_row (src : eventSource) (r : currentRow) : currentRow :=
  mkCurrentRow (cr_scope r) (cr_audience r) (cr_fields r) (cr_removed r) (cr_first_seen_at r)
    (Z.max (cr_last_seen_at r) (src_observed_at src)) (src_snapshot src) (src_observed_at src)
    (cr_hash r) (cr_last_event_seq r) (cr_scan r).
Definition confirm_rows (t : Type_) (subject : string) (src : eventSource) (keys : list string)
    (d : db) : db :=
  set_current (map_imap (λ id r,
    Some (if String.eqb (rt_of id) (TName t) && String.eqb (subject_of id) subject
             && bool_decide (key_of id ∈ keys)
          then confirm_row src r else r)) (current d)) d.

Definition writePlan (t : Type_) (subject : string) (src : eventSource) (cur : gmap string Current)
    (plan : Plan) (d : db) : db :=
  confirm_rows t subject src (Confirm plan)
    (foldl (write_event t subject src cur) d (Events plan ++ Removals plan)).

(** ** Applying a snapshot *)

(** An applied snapshot of the type and scope, observed later. *)
Definition later (d : db) (n : Normalized) : bool :=
  existsb (λ p, String.eqb (ss_type p.2) (TName (NType n)) && String.eqb (ss_scope p.2) (NScopeKey n)
                && bool_decide (ss_status p.2 = Applied) && (NObservedAt n <? ss_observed_at p.2))
    (map_to_list (snapshots d)).

Definition set_status (st : status) (stats : Stats) (r : snapshot_row) : snapshot_row :=
  mkSnapshotRow (ss_type r) (ss_version r) (ss_scope r) (ss_subject r) (ss_complete r)
    (ss_approximate r) (ss_observed_at r) (ss_received_at r) (ss_writer r) st (ss_payload r) stats.

(** Insert the snapshot, or update the held one an operator confirms. *)
Definition storeSnapshot (n : Normalized) (writer payload : string) (now : Z) (confirmID : option string)
    (st : status) (stats : Stats) (d : db) : db :=
  match confirmID with
  | Some id => set_snapshots (alter (set_status st stats) id (snapshots d)) d
  | None =>
      set_snapshots (<[NId n := mkSnapshotRow (TName (NType n)) (NVersion n) (NScopeKey n)
        (NSubject n) (NComplete n) (NApproximate n) (NObservedAt n) now writer st payload stats]>
        (snapshots d)) d
  end.

(** Older held snapshots of the scope would now be late. *)
Definition discard_older (n : Normalized) (d : db) : db :=
  set_snapshots ((λ r, if String.eqb (ss_type r) (TName (NType n)) && String.eqb (ss_scope r) (NScopeKey n)
                          && bool_decide (ss_status r = Held) && (ss_observed_at r <? NObservedAt n)
                       then set_status Discarded (ss_stats r) r else r) <$> snapshots d) d.

Definition snapshot_input (d : db) (n : Normalized) : Input :=
  mkInput (NScopeKey n) (NComplete n) (NRange n) (NObservedAt n)
    (loadCurrent d (NType n) (NSubject n) "") (NRecords n).

Definition snapshot_source (n : Normalized) (writer : string) : eventSource :=
  mkSource (Some (NId n)) writer (NObservedAt n) (NApproximate n).

Definition applyFromOrdering (d : db) (n : Normalized) (writer payload : string) (now : Z)
    (confirmID : option string) : Outcome * db :=
  if later d n then (Done SLate zero_stats, storeSnapshot n writer payload now confirmID Late zero_stats d)
  else
    let i := snapshot_input d n in
    let plan := Diff i in
    let stats := Plan_Stats plan in
    if bool_decide (confirmID = None)
       && Hold guard (Z.of_nat (LiveInRange plan)) (Z.of_nat (length (Removals plan)))
    then (Done SHeld stats, storeSnapshot n writer payload now None Held stats d)
    else (Done SApplied stats,
          discard_older n
            (storeSnapshot n writer payload now confirmID Applied stats
              (writePlan (NType n) (NSubject n) (snapshot_source n writer) (InCurrent i) plan d))).

Definition Apply (d : db) (roster : option Roster) (now : Z) (writer : string) (n : Normalized)
    (payload : string) : Outcome * db :=
  match lookup_snapshot d (NId n) writer (TName (NType n)) (NScopeKey n) with
  | Some o => (o, d)
  | None =>
      match banned d [NSubject n] with
      | Some rej => (Rejected rej, d)
      | None =>
          match checkSubject roster (NSubject n) with
          | Some rej => (Rejected rej, d)
          | None => applyFromOrdering d n writer payload now None
          end
      end
  end.

(** ** Held snapshots (hold.go) *)

Inductive hold_error := ErrNotFound | ErrNotHeld | ErrPayload.

Definition WriteCheck := string → Type_ → Scope → option Rejection.

(** Decoding a stored payload (None: not a snapshot) and record.ValidateSnapshot
    of it at the time it was received. *)
Context (validate : string → Z → option (res Rejection Normalized)).

Definition payloadMismatch : Rejection := schemaErr.

Definition ConfirmHeld (d : db) (roster : option Roster) (now : Z) (id : string) (mayWrite : WriteCheck)
    : res hold_error Outcome * db :=
  match snapshots d !! id with
  | None => (Err ErrNotFound, d)
  | Some r =>
      if negb (bool_decide (ss_status r = Held)) then (Err ErrNotHeld, d) else
      match validate (ss_payload r) (ss_received_at r) with
      | None => (Err ErrPayload, d)
      | Some (Err rej) => (Ok (Rejected rej), d)
      | Some (Ok n) =>
          if negb (String.eqb (NId n) id && String.eqb (TName (NType n)) (ss_type r)
                   && String.eqb (NScopeKey n) (ss_scope r))
          then (Ok (Rejected payloadMismatch), d) else
          match mayWrite (ss_writer r) (NType n) (NScope n) with
          | Some rej => (Ok (Rejected rej), d)
          | None =>
              match banned d [NSubject n] with
              | Some rej => (Ok (Rejected rej), d)
              | None =>
                  match checkSubject roster (NSubject n) with
                  | Some rej => (Ok (Rejected rej), d)
                  | None =>
                      let '(o, d') := applyFromOrdering d n (ss_writer r) (ss_payload r) now (Some id) in
                      (Ok o, d')
                  end
              end
          end
      end
  end.

Definition DiscardHeld (d : db) (id : string) : option hold_error * db :=
  match snapshots d !! id with
  | None => (Some ErrNotFound, d)
  | Some r =>
      if bool_decide (ss_status r = Held)
      then (None, set_snapshots (<[id := set_status Discarded (ss_stats r) r]> (snapshots d)) d)
      else (Some ErrNotHeld, d)
  end.

(** ** Household notes (notes.go) *)

(** record.NormNote: a validated note. *)
Record NormNote := mkNote {
  NoType : Type_;
  NoKey : string;
  NoSubject : string;
  NoOnBehalfOf : string;
  NoFields : Fields;
  NoHash : string;
  NoAudience : list string;
  NoScope : string;
}.

Inductive note_status := Unchanged | Written (k : Kind).
Record NoteResponse := mkNoteResponse { NRStatus : note_status; NRKey : string; NRSeq : Z }.

Definition policyRefusal : Rejection := mkRejection 403 ReasonPolicy.
Definition conflictRejection : Rejection := mkRejection 409 ReasonConflict.

Definition coversAudience (grants : list Grant) (subject : string) (audience : list string) : bool :=
  existsb (λ g, String.eqb (GSubject g) subject && existsb (String.eqb (GToken g)) audience) grants.

Definition note_input (d : db) (now : Z) (n : NormNote) : Input :=
  mkInput (NoScope n) false None now (loadCurrent d (NoType n) (NoSubject n) (NoKey n))
    [mkNormRecord (NoKey n) (NoSubject n) (NoAudience n) (NoFields n) (NoHash n)].

Definition note_source (now : Z) (writer : string) (n : NormNote) : eventSource :=
  mkSource None (writer ++ ";on_behalf_of=" ++ NoOnBehalfOf n) now false.

(** The transaction, once the note is authorised. *)
Definition write_note (d : db) (now : Z) (writer : string) (n : NormNote)
    : res Rejection NoteResponse * db :=
  let i := note_input d now n in
  let plan := Diff i in
  let unchanged := mkNoteResponse Unchanged (NoKey n) 0 in
  match Stale plan, Events plan with
  | _ :: _, _ =>
      let c := default zero_current (InCurrent i !! NoKey n) in
      if negb (CRemoved c) && String.eqb (CHash c) (NoHash n) && String.eqb (CScope c) (NoScope n)
      then (Ok unchanged, d) else (Err conflictRejection, d)
  | [], [] => (Ok unchanged, d)
  | [], ev :: _ =>
      let d' := writePlan (NoType n) (NoSubject n) (note_source now writer n) (InCurrent i) plan d in
      (Ok (mkNoteResponse (Written (EKind ev)) (NoKey n)
             match current d' !! (TName (NoType n), NoSubject n, NoKey n) with
             | Some r => cr_last_event_seq r | None => 0 end), d')
  end.

Definition WriteNote (d : db) (roster : option Roster) (now : Z) (writer : string) (n : NormNote)
    : res Rejection NoteResponse * db :=
  match roster with
  | None => (Err unknownSubject, d)
  | Some _ =>
      match banned d [NoSubject n; NoOnBehalfOf n] with
      | Some rej => (Err rej, d)
      | None =>
          match Grants roster (NoOnBehalfOf n) with
          | None => (Err policyRefusal, d)
          | Some grants =>
              if negb (String.eqb (NoSubject n) "") && negb (Has roster (NoSubject n))
              then (Err unknownSubject, d)
              else if negb (coversAudience grants (NoSubject n) (NoAudience n))
              then (Err policyRefusal, d)
              else write_note d now writer n
          end
      end
  end.
End store.
