(* ===== verification/JValidate.v ===== *)
(** internal/journal/record/validate.go: a snapshot or a note from a sender
    becomes a validated one, or a rejection. *)
From S2P Require Import Prelude GoStrings GoTime StrOrder Utf8 JsonString JRecord JDiff JValue.
From S2P Require Import JRules JAccess JStore.
Local Open Scope Z_scope.

Definition MaxRecords : nat := 5000.
Definition MaxKeyBytes : nat := 512.
Definition MaxFutureSkew : Z := 10 * minute.

Definition ReasonFutureObservedAt : string := "future_observed_at".
Definition ReasonDuplicateKey : string := "duplicate_key".
Definition futureErr : Rejection := mkRejection 422 ReasonFutureObservedAt.
Definition duplicateErr : Rejection := mkRejection 422 ReasonDuplicateKey.

(** ** The wire types (journalapi/api.go) *)

Record CompleteRange := mkCompleteRange { CRField : string; CRFrom : string; CRTo : string }.

Record SnapRecord := mkSnapRecord {
  RKey : string; RDataSubject : string; RAudience : list string; RFields : Fields;
}.

Record Snapshot := mkSnapshot {
  SSnapshotID : string;
  SRecordType : string;
  SSchemaVersion : Z;
  SScope : list ScopePart;
  SComplete : bool;
  SCompleteRange : option CompleteRange;
  SObservedAt : Z;
  SApproximate : bool;
  SRecords : list SnapRecord;
}.

Record Note := mkWireNote {
  WRecordType : string; WDate : string; WOnBehalfOf : string; WDataSubject : string; WFields : Fields;
}.

(** ** Parts *)

Definition badText (s : string) : bool :=
  negb (valid (bytes_of_string s)) || existsb control (runes (bytes_of_string s)).

Definition badScopeValue (s : string) : bool := negb (is_ok (ParseScope [(PartSource, s)])).

Definition NormalizeAudience (inp : list string) : res Rejection (list string) :=
  if (length inp =? 0)%nat then Err schemaErr
  else if (MaxAudienceTokens <? length inp)%nat then Err tooLarge
  else if negb (forallb ValidToken inp) then Err schemaErr
  else Ok (sorted_set inp).

(** The years 0000 to 9999 in UTC. *)
Definition year_0000 : Z := -62167219200 * second.
Definition year_10000 : Z := 253402300800 * second.
Definition in_years (t : Z) : bool := (year_0000 <=? t) && (t <? year_10000).

Section validate.
(** uuid.Parse and its canonical text; number and timestamp texts. *)
Context (uuid_parse : string → option string) (float_text timestamp_text : string → option string).
Context (sha256 : string → string) (reg : Registry).

Local Abbreviation NormalizeFields := (NormalizeFields float_text timestamp_text).

(** The type of a declared field; Go's zero value is the empty type. *)
Definition is_date (t : Type_) (field : string) : bool :=
  bool_decide (field_type (TFields t) field = Some TDate).

Definition validate_range (t active : Type_) (s : Snapshot) : res Rejection (option Range) :=
  match SCompleteRange s with
  | None => Ok None
  | Some cr =>
      let field := ForwardName reg (TName t) (SchemaVersion t) (CRField cr) in
      if negb (SComplete s) then Err schemaErr
      else if negb (ValidName (CRField cr)) then Err schemaErr
      else if negb (is_date t (CRField cr)) then Err schemaErr
      else if negb (is_date active field) then Err schemaErr
      else if negb (ValidDate (CRFrom cr)) || negb (ValidDate (CRTo cr))
              || negb (String.leb (CRFrom cr) (CRTo cr)) then Err schemaErr
      else Ok (Some (mkRange field (CRFrom cr) (CRTo cr)))
  end.

(** One record, given the keys seen before it. *)
Definition validate_record (t active : Type_) (subject : string) (defAud : option (list string))
    (seen : list string) (rec : SnapRecord) : res Rejection NormRecord :=
  if String.eqb (trim_space (RKey rec)) "" || (MaxKeyBytes <? String.length (RKey rec))%nat
     || badText (RKey rec) then Err schemaErr
  else if negb (String.eqb (RDataSubject rec) subject) then Err schemaErr
  else if existsb (String.eqb (RKey rec)) seen then Err duplicateErr
  else
    match (match defAud with
           | Some a => if (length (RAudience rec) =? 0)%nat then Ok a else NormalizeAudience (RAudience rec)
           | None => NormalizeAudience (RAudience rec)
           end) with
    | Err e => Err e
    | Ok aud =>
        match NormalizeFields t (RFields rec) with
        | Err e => Err e
        | Ok f0 =>
            let f := Forward reg (TName t) (SchemaVersion t) f0 in
            if negb (map_all (λ name _, declared (TFields active) name) f) then Err schemaErr
            else Ok (mkNormRecord (RKey rec) (RDataSubject rec) aud f (Hash sha256 f))
        end
    end.

Fixpoint validate_records (t active : Type_) (subject : string) (defAud : option (list string))
    (seen : list string) (recs : list SnapRecord) : res Rejection (list NormRecord) :=
  match recs with
  | [] => Ok []
  | rec :: rest =>
      match validate_record t active subject defAud seen rec with
      | Err e => Err e
      | Ok n =>
          match validate_records t active subject defAud (RKey rec :: seen) rest with
          | Err e => Err e
          | Ok l => Ok (n :: l)
          end
      end
  end.

Definition ValidateSnapshot (s : Snapshot) (now : Z) : res Rejection Normalized :=
  match uuid_parse (SSnapshotID s) with
  | None => Err schemaErr
  | Some id =>
  if negb (ValidName (SRecordType s)) then Err schemaErr else
  match Version_ reg (SRecordType s) (SSchemaVersion s), Active reg (SRecordType s) with
  | Some t, Some active =>
  if Household t then Err schemaErr else
  match ParseScope (SScope s) with
  | Err e => Err e
  | Ok sc =>
  if is_zero (SObservedAt s) then Err schemaErr
  else if negb (in_years (SObservedAt s)) then Err schemaErr
  else if after (SObservedAt s) (now + MaxFutureSkew) then Err futureErr
  else if (MaxRecords <? length (SRecords s))%nat then Err tooLarge
  else if negb (String.eqb (Source sc) (Owner active)) then Err schemaErr
  else if String.eqb (Subject sc) "" && negb (AllowNoSubject active) then Err schemaErr
  else
  match validate_range t active s with
  | Err e => Err e
  | Ok range =>
  let defAud := match NormalizeAudience (DefaultAudience active) with Ok a => Some a | Err _ => None end in
  match validate_records t active (Subject sc) defAud [] (SRecords s) with
  | Err e => Err e
  | Ok recs =>
      Ok (mkNormalized id active (SSchemaVersion s) sc (Canonical sc) (Subject sc) (SComplete s) range
            (SObservedAt s) (SApproximate s) recs)
  end end end
  | _, _ => Err schemaErr
  end end.

Definition ValidateNote (inp : Note) : res Rejection NormNote :=
  if negb (ValidName (WRecordType inp)) then Err schemaErr else
  match Active reg (WRecordType inp) with
  | None => Err schemaErr
  | Some t =>
  if negb (Household t) then Err schemaErr
  else if negb (ValidDate (WDate inp)) then Err schemaErr
  else if String.eqb (WOnBehalfOf inp) "" || badScopeValue (WOnBehalfOf inp) then Err schemaErr
  else if String.eqb (WDataSubject inp) "" && negb (AllowNoSubject t) then Err schemaErr
  else if negb (String.eqb (WDataSubject inp) "") && badScopeValue (WDataSubject inp) then Err schemaErr
  else if declared (WFields inp) "date" then Err schemaErr
  else match NormalizeFields t (<["date"%string := encode_string (WDate inp)]> (WFields inp)) with
       | Err e => Err e
       | Ok f =>
           match NormalizeAudience (FixedAudience t) with
           | Err e => Err e
           | Ok aud =>
               Ok (mkNote t (WDate inp ++ ":" ++ WOnBehalfOf inp) (WDataSubject inp) (WOnBehalfOf inp) f
                     (Hash sha256 f) aud (HouseholdScope (TName t) (WDataSubject inp)))
           end
       end
  end.
End validate.
