(* ===== verification/JErase.v ===== *)
(** internal/journal/erase.go: erasing a member, one transaction. *)
From S2P Require Import Prelude GoStrings StrOrder JRecord JDiff JRules JAccess JStore.
Local Open Scope Z_scope.

(** split_part(key, ':', 2): the text between the first two colons. *)
Definition split_part2 (s : string) : string :=
  match split_on ":" s with _ :: p :: _ => p | _ => ""%string end.

(** authoredSQL: a household record whose key names the member. *)
Definition authored (d : db) (member : string) (id : Identity) : bool :=
  existsb (String.eqb (rt_of id)) (household_types d) && String.eqb (split_part2 (key_of id)) member.

(** DELETE FROM record_event and record_current, by identity. *)
Definition delete_events (p : Identity → bool) (d : db) : db :=
  set_events (List.filter (λ e, negb (p (er_id e))) (events d)) (next_seq d) d.
Definition delete_current (p : Identity → bool) (d : db) : db :=
  set_current (filter (λ x, p x.1 = false) (current d)) d.
Definition delete_rows (p : Identity → bool) (d : db) : db := delete_current p (delete_events p d).

Definition count_events (p : Identity → bool) (d : db) : nat :=
  length (List.filter (λ e, p (er_id e)) (events d)).
Definition count_current (p : Identity → bool) (d : db) : nat :=
  size (filter (λ x : Identity * currentRow, p x.1 = true) (current d)).

(** A kept note with no reader left. *)
Definition orphaned (d : db) (id : Identity) : bool :=
  IsErased (subject_of id)
  && negb (existsb (λ r, String.eqb (rd_pseudonym r) (subject_of id)) (erasure_reader d)).

Definition drop_reader (member : string) (d : db) : db :=
  set_kept (erasure_kept d)
    (List.filter (λ r, negb (String.eqb (rd_member r) member)) (erasure_reader d)) d.

(** Kept-note rows of notes that are gone, and, by the foreign key, their
    reader rows. *)
Definition kept_alive (d : db) (pseudonym : string) : bool :=
  existsb (λ x, String.eqb (subject_of x.1) pseudonym) (map_to_list (current d)).
Definition drop_kept (d : db) : db :=
  set_kept (filter (λ x, kept_alive d x.1 = true) (erasure_kept d))
    (List.filter (λ r, kept_alive d (rd_pseudonym r)) (erasure_reader d)) d.

(** keptNote: a note about the erased subject that someone else wrote. *)
Record keptNote := mkKeptNote { kn_type : string; kn_key : string; kn_audience : list string }.

Definition authorOf (key : string) : string :=
  match split_on ":" key with _ :: p :: _ => p | _ => ""%string end.

Definition frozenReaders (ros : Roster) (subject : string) (erased : list string) (n : keptNote)
    : list string :=
  let readers := List.filter (λ m,
    negb (String.eqb m subject) && negb (bool_decide (m ∈ erased))
    && Visible (default [] (Grants (Some ros) m)) subject (kn_audience n)) (Members (Some ros)) in
  let author := authorOf (kn_key n) in
  sorted_set (readers ++
    if negb (String.eqb author subject) && negb (bool_decide (author ∈ erased)) && Has (Some ros) author
    then [author] else []).

(** ORDER BY record_type, key. *)
Definition note_le (a b : keptNote) : Prop :=
  str_le (kn_type a) (kn_type b) ∧ (kn_type a = kn_type b → str_le (kn_key a) (kn_key b)).
#[export] Instance note_le_dec a b : Decision (note_le a b).
Proof. unfold note_le. apply _. Defined.

Definition notes_about (d : db) (subject : string) : list keptNote :=
  merge_sort note_le (omap (λ '(id, r),
    if String.eqb (subject_of id) subject && existsb (String.eqb (rt_of id)) (household_types d)
    then Some (mkKeptNote (rt_of id) (key_of id) (cr_audience r)) else None)
    (map_to_list (current d))).

(** The rewrite of a kept note's events and of its row. *)
Definition rewrite_event (from to : Identity) (scope : string) (e : event_row) : event_row :=
  if bool_decide (er_id e = from)
  then mkEventRow (er_seq e) to (er_kind e) (er_version e) scope
         (match er_prev_scope e with Some _ => Some scope | None => None end)
         (er_audience e) (er_prev_audience e) (er_fields e) (er_changed e) (er_scan e)
         (er_observed_at e) (er_prev_observed_at e) (er_approximate e) (er_snapshot e) (er_actor e)
         (er_importance e) (er_rule e) (er_notify e) None
  else e.

Definition set_scope (scope : string) (r : currentRow) : currentRow :=
  mkCurrentRow scope (cr_audience r) (cr_fields r) (cr_removed r) (cr_first_seen_at r)
    (cr_last_seen_at r) (cr_confirmed_snapshot r) (cr_confirmed_at r) (cr_hash r)
    (cr_last_event_seq r) (cr_scan r).

Definition rewrite_current (from to : Identity) (scope : string) (m : gmap Identity currentRow)
    : gmap Identity currentRow :=
  match m !! from with
  | Some r => <[to := set_scope scope r]> (delete from m)
  | None => m
  end.

Definition marker (pseudonym : string) (n : nat) : string :=
  (pseudonym ++ ":" ++ itoa (Z.of_nat n))%string.

(** One note moves to its pseudonymous subject. *)
Definition keep_note (subject to : string) (readers : list string) (n : keptNote) (d : db) : db :=
  let scope := HouseholdScope (kn_type n) "" in
  let from_id : Identity := (kn_type n, subject, kn_key n) in
  let to_id : Identity := (kn_type n, to, kn_key n) in
  set_current (rewrite_current from_id to_id scope (current d))
    (set_events (rewrite_event from_id to_id scope <$> events d) (next_seq d)
      (set_kept (<[to := kn_audience n]> (erasure_kept d))
        (erasure_reader d ++
         ((λ m, mkReader to m (String.eqb m (authorOf (kn_key n)))) <$> readers)) d)).

(** The loop over the notes, with the number kept so far. *)
Fixpoint keep_loop (ros : Roster) (subject pseudonym : string) (erased : list string)
    (notes : list keptNote) (kept : nat) (d : db) : nat * db :=
  match notes with
  | [] => (kept, d)
  | n :: rest =>
      match frozenReaders ros subject erased n with
      | [] => keep_loop ros subject pseudonym erased rest kept d
      | readers =>
          keep_loop ros subject pseudonym erased rest (S kept)
            (keep_note subject (marker pseudonym (S kept)) readers n d)
      end
  end.

Definition keepNotes (ros : Roster) (subject pseudonym : string) (d : db) : nat * db :=
  keep_loop ros subject pseudonym (es_subject <$> erasures d) (notes_about d subject) 0 d.

Definition about (subject : string) (id : Identity) : bool := String.eqb (subject_of id) subject.

Record EraseResponse := mkEraseResponse {
  DataSubject : string;
  ErasedAt : Z;
  RSnapshots : nat;
  RCurrent : nat;
  REvents : nat;
  NotesDeletedAsAuthor : nat;
  NotesPseudonymised : nat;
  SubjectUnknown : bool;
}.

Definition delete_snapshots (subject : string) (d : db) : db :=
  set_snapshots (filter (λ x, String.eqb (ss_subject x.2) subject = false) (snapshots d)) d.

(** Rule 1 and the reader rows: what is left before rule 2. *)
Definition erase_rule1 (subject : string) (d : db) : db :=
  let d1 := drop_reader subject (delete_rows (authored d subject) d) in
  drop_kept (delete_rows (orphaned d1) d1).

Definition eraseLocked (ros : Roster) (actor subject pseudonym : string) (now : Z) (d : db)
    : EraseResponse * db :=
  let evA := count_events (authored d subject) d in
  let authoredNotes := count_current (authored d subject) d in
  let d1 := drop_reader subject (delete_rows (authored d subject) d) in
  let evD := count_events (orphaned d1) d1 in
  let curD := count_current (orphaned d1) d1 in
  let '(kept, d2) := keepNotes ros subject pseudonym (erase_rule1 subject d) in
  let snaps := size (filter (λ x : string * snapshot_row, String.eqb (ss_subject x.2) subject = true)
                       (snapshots d2)) in
  let cur := (count_current (about subject) d2 + authoredNotes + curD)%nat in
  let evs := (count_events (about subject) d2 + evA + evD)%nat in
  let d3 := delete_rows (about subject) (delete_snapshots subject d2) in
  (mkEraseResponse subject now snaps cur evs authoredNotes kept
     (negb (Has (Some ros) subject) && (snaps =? 0)%nat && (cur =? 0)%nat && (evs =? 0)%nat
      && (authoredNotes =? 0)%nat && (kept =? 0)%nat),
   set_erasures (erasures d3 ++ [mkErasure subject now actor]) d3).

Inductive erase_error := ErrNoSubject | ErrNoRoster.

(** Erase: [pseudonym] is the one newPseudonym draws. *)
Definition Erase (ros : option Roster) (actor subject pseudonym : string) (now : Z) (d : db)
    : res erase_error EraseResponse * db :=
  if negb (ValidID subject) then (Err ErrNoSubject, d) else
  match ros with
  | None => (Err ErrNoRoster, d)
  | Some ros =>
      let '(r, d') := eraseLocked ros actor subject pseudonym now d in (Ok r, d')
  end.

(** ** Who keeps reading a kept note *)

Lemma elem_of_bool_list_filter {A} (f : A → bool) (l : list A) x : x ∈ List.filter f l ↔ x ∈ l ∧ f x = true.
Proof. rewrite !list_elem_of_In. apply filter_In. Qed.

Lemma ne_spec (a b : string) : negb (String.eqb a b) = true ↔ a ≠ b.
Proof. by rewrite negb_true_iff, String.eqb_neq. Qed.

Lemma not_in_spec (a : string) (l : list string) : negb (bool_decide (a ∈ l)) = true ↔ a ∉ l.
Proof. by rewrite negb_true_iff, bool_decide_eq_false. Qed.

(** The readers frozen for a kept note are exactly those who could read
    it: the roster members, neither the erased one nor any erased before,
    whose grants made the note visible, and its author if still on the
    roster; sorted, without repetition. *)
Theorem frozen_readers_exact (ros : Roster) (subject : string) (erased : list string) (n : keptNote) :
  (∀ m, m ∈ frozenReaders ros subject erased n ↔
     is_Some (ros !! m) ∧ m ≠ subject ∧ (m ∉ erased) ∧
     (Visible (default [] (ros !! m)) subject (kn_audience n) = true ∨ m = authorOf (kn_key n))) ∧
  NoDup (frozenReaders ros subject erased n) ∧ StronglySorted str_le (frozenReaders ros subject erased n).
Proof.
  split_and!; [|apply sorted_set_NoDup|apply sorted_set_sorted].
  intros m. unfold frozenReaders. rewrite elem_of_sorted_set, elem_of_app, elem_of_bool_list_filter.
  cbn [Members Grants Has]. rewrite elem_of_sorted_keys, !andb_true_iff, ne_spec, not_in_spec.
  assert (Ha : m ∈ (if negb (String.eqb (authorOf (kn_key n)) subject)
      && negb (bool_decide (authorOf (kn_key n) ∈ erased)) && declared ros (authorOf (kn_key n))
      then [authorOf (kn_key n)] else [])
    ↔ m = authorOf (kn_key n) ∧ is_Some (ros !! m) ∧ m ≠ subject ∧ m ∉ erased).
  { destruct (_ && _ && _) eqn:E.
    - rewrite !andb_true_iff, ne_spec, not_in_spec, declared_spec in E.
      rewrite list_elem_of_singleton. naive_solver.
    - rewrite elem_of_nil. split; [done|]. intros (-> & Hm & Hs & He).
      apply not_true_iff_false in E. apply E. by rewrite !andb_true_iff, ne_spec, not_in_spec, declared_spec. }
  rewrite Ha. simpl. naive_solver.
Qed.
