(* ===== verification/JFold.v ===== *)
(** The journal's history: how a list of events folds, record by record,
    under the changes the store makes to it. *)
From S2P Require Import Prelude GoStrings StrOrder JRecord JDiff JRules JAccess JStore JErase.
Local Open Scope Z_scope.

(** ** One record at a time *)

Definition fold_opt (rename : Rename) (o : option FoldRow) (l : list FoldEvent) : option FoldRow :=
  foldl (λ o e, Some (fold_row rename (default zero_row o) e)) o l.

Lemma fold_at (rename : Rename) (rows : gmap Identity FoldRow) (es : list FoldEvent) (id : Identity) :
  foldl (fold_step rename) rows es !! id
  = fold_opt rename (rows !! id) (filter (λ e, FID e = id) es).
Proof.
  revert rows. induction es as [|e es IH]; intros rows; [done|]. simpl. rewrite IH, filter_cons.
  unfold fold_step. destruct (decide (FID e = id)) as [->|Hne].
  - by rewrite lookup_insert_eq.
  - by rewrite lookup_insert_ne.
Qed.

Lemma Fold_at (rename : Rename) (es : list FoldEvent) (id : Identity) :
  Fold rename es !! id = fold_opt rename None (filter (λ e, FID e = id) es).
Proof. unfold Fold. by rewrite fold_at, lookup_empty. Qed.

(** The event as the fold reads it. *)
Definition fold_event (e : event_row) : FoldEvent :=
  mkFoldEvent (er_id e) (er_kind e) (er_version e) (er_scope e) (er_audience e)
    (default ∅ (er_fields e)) match er_changed e with ChangedFields m => m | _ => ∅ end.

(** The event-derived columns of a current row. *)
Definition cur_row (r : currentRow) : FoldRow :=
  mkFoldRow (cr_scope r) (cr_audience r) (cr_fields r) (cr_removed r).

Definition about_id (id : Identity) (l : list event_row) : list event_row :=
  filter (λ e, er_id e = id) l.

Lemma filter_fold_event (id : Identity) (l : list event_row) :
  filter (λ e, FID e = id) (fold_event <$> l) = fold_event <$> about_id id l.
Proof.
  unfold about_id. induction l as [|e l IH]; [done|]. rewrite fmap_cons, !filter_cons. simpl.
  case_decide; by rewrite ?fmap_cons, IH.
Qed.

(** The history of one record. *)
Definition replay_at (rename : Rename) (l : list event_row) (id : Identity) : option FoldRow :=
  fold_opt rename None (fold_event <$> about_id id l).

Lemma Fold_replay (rename : Rename) (l : list event_row) (id : Identity) : Fold rename (fold_event <$> l) !! id = replay_at rename l id.
Proof. by rewrite Fold_at, filter_fold_event. Qed.

Lemma about_id_app (id : Identity) (l k : list event_row) : about_id id (l ++ k) = about_id id l ++ about_id id k.
Proof. apply filter_app. Qed.

Lemma about_id_nil (id : Identity) (l : list event_row) : id ∉ er_id <$> l → about_id id l = [].
Proof.
  intros H. unfold about_id. induction l as [|e l IH]; [done|].
  rewrite fmap_cons, not_elem_of_cons in H. destruct H as [Hne H]. rewrite filter_cons.
  case_decide; [congruence|]. by apply IH.
Qed.

(** ** Deleting by identity *)

Lemma about_id_delete (p : Identity → bool) (id : Identity) (l : list event_row) :
  about_id id (List.filter (λ e, negb (p (er_id e))) l) = if p id then [] else about_id id l.
Proof.
  unfold about_id. induction l as [|e l IH]; [by destruct (p id)|]. simpl.
  rewrite filter_cons. destruct (decide (er_id e = id)) as [<-|Hne].
  - destruct (p (er_id e)); simpl; [done|]. rewrite filter_cons. rewrite decide_True by done.
    by rewrite IH.
  - destruct (p (er_id e)); simpl; [done|]. rewrite filter_cons. by rewrite decide_False by done.
Qed.

Lemma replay_delete (rename : Rename) (p : Identity → bool) (l : list event_row) (id : Identity) :
  replay_at rename (List.filter (λ e, negb (p (er_id e))) l) id
  = if p id then None else replay_at rename l id.
Proof. unfold replay_at. rewrite about_id_delete. by destruct (p id). Qed.

Lemma delete_current_at (p : Identity → bool) (d : db) (id : Identity) :
  current (delete_current p d) !! id = if p id then None else current d !! id.
Proof.
  simpl. destruct (p id) eqn:E.
  - apply map_lookup_filter_None. right. intros x _. simpl. congruence.
  - destruct (current d !! id) eqn:Hc.
    + by apply map_lookup_filter_Some.
    + apply map_lookup_filter_None. by left.
Qed.

(** ** Moving one record to a new identity *)

Definition row_scope (s : string) (r : FoldRow) : FoldRow :=
  mkFoldRow s (FAudience r) (FFields r) (FRemoved r).

Definition event_scope (to : Identity) (s : string) (e : FoldEvent) : FoldEvent :=
  mkFoldEvent to (FKind e) (FVersion e) s (FEAudience e) (FEFields e) (FEChanged e).

Lemma fold_opt_scope (rename : Rename) (to from : Identity) s l o :
  to.1.1 = from.1.1 → Forall (λ e, FID e = from) l →
  fold_opt rename (row_scope s <$> o) (event_scope to s <$> l) = row_scope s <$> fold_opt rename o l.
Proof.
  intros Hrt. revert o. induction l as [|e l IH]; intros o Hl; [done|].
  apply Forall_cons in Hl as [He Hl]. simpl. rewrite <- IH by done. simpl. f_equal. f_equal.
  unfold fold_row, event_scope. simpl. rewrite He, Hrt.
  assert (FFields (default zero_row (row_scope s <$> o)) = FFields (default zero_row o)) as ->
    by (by destruct o).
  by destruct (FKind e).
Qed.

Lemma fold_event_rewrite (from to : Identity) (s : string) (e : event_row) :
  er_id e = from → fold_event (rewrite_event from to s e) = event_scope to s (fold_event e).
Proof. intros He. unfold rewrite_event. by rewrite bool_decide_eq_true_2. Qed.

Lemma rewrite_event_id (from to : Identity) (s : string) (e : event_row) :
  er_id (rewrite_event from to s e) = if bool_decide (er_id e = from) then to else er_id e.
Proof. unfold rewrite_event. by case_bool_decide. Qed.

Lemma rewrite_event_other (from to : Identity) (s : string) (e : event_row) : er_id e ≠ from → rewrite_event from to s e = e.
Proof. intros He. unfold rewrite_event. by rewrite bool_decide_eq_false_2. Qed.

Lemma about_id_rewrite (from to : Identity) (s : string) (l : list event_row) (id : Identity) :
  from ≠ to → to ∉ er_id <$> l →
  about_id id (rewrite_event from to s <$> l)
  = if bool_decide (id = to) then rewrite_event from to s <$> about_id from l
    else if bool_decide (id = from) then [] else about_id id l.
Proof.
  intros Hne. unfold about_id. induction l as [|e l IH]; intros Hto; [by repeat case_bool_decide|].
  rewrite fmap_cons, not_elem_of_cons in Hto. destruct Hto as [Hto Hl].
  rewrite fmap_cons, !filter_cons, IH by done. clear IH. rewrite rewrite_event_id.
  destruct (decide (er_id e = from)) as [E|E].
  - rewrite (bool_decide_eq_true_2 (er_id e = from)) by done.
    destruct (decide (to = id)) as [<-|Hid].
    + by rewrite (bool_decide_eq_true_2 (to = to)).
    + rewrite (bool_decide_eq_false_2 (id = to)) by congruence.
      case_bool_decide as Hf; [done|]. by destruct (decide (er_id e = id)) as [E'|]; [rewrite E' in E|].
  - rewrite (bool_decide_eq_false_2 (er_id e = from)) by done.
    rewrite rewrite_event_other by done.
    destruct (decide (er_id e = id)) as [<-|Hid].
    + rewrite (bool_decide_eq_false_2 (er_id e = to)) by congruence.
      by rewrite (bool_decide_eq_false_2 (er_id e = from)).
    + done.
Qed.

Lemma replay_rewrite (rename : Rename) (from to : Identity) (s : string) (l : list event_row) (id : Identity) :
  from ≠ to → to.1.1 = from.1.1 → to ∉ er_id <$> l →
  replay_at rename (rewrite_event from to s <$> l) id
  = if bool_decide (id = to) then row_scope s <$> replay_at rename l from
    else if bool_decide (id = from) then None else replay_at rename l id.
Proof.
  intros Hne Hrt Hto. unfold replay_at. rewrite about_id_rewrite by done.
  case_bool_decide; [|by case_bool_decide].
  rewrite <- (fold_opt_scope rename to from s _ None Hrt).
  - f_equal. rewrite <- !list_fmap_compose. apply list_fmap_ext. intros i e He. simpl.
    apply fold_event_rewrite. apply list_elem_of_lookup_2, list_elem_of_filter in He. by destruct He.
  - apply Forall_fmap, Forall_forall. intros e He. apply list_elem_of_filter in He. by destruct He.
Qed.

(** * The store's tables agree: what every operation keeps true of the current
    rows, the events they come from and the verdicts they carry. *)

Section history.
Context (scanner_version : string) (scanner_verdict : string → string).
Context (sha256 sha256_hex : string → string).
Context (rules : RuleSet) (guard : Guard) (reg : Registry).

Local Abbreviation Hash := (Hash sha256).
Local Abbreviation new_entry := (new_entry scanner_version scanner_verdict).
Local Abbreviation buildEvent := (buildEvent scanner_version scanner_verdict sha256_hex rules).
Local Abbreviation write_event := (write_event scanner_version scanner_verdict sha256 sha256_hex rules).
Local Abbreviation writePlan := (writePlan scanner_version scanner_verdict sha256 sha256_hex rules).
Local Abbreviation rename := (ForwardName reg).

(** ** Well-formed rows *)

(** Every text value carries the verdict the scanner gives on that value,
    and nothing else carries one. *)
Definition scanned (t : Type_) (f : Fields) (m : ScanMap) : Prop :=
  ∀ k, m !! k = if IsText t k then new_entry <$> f !! k else None.

(** The same of the rows in [all] only, and up to what counts as right: what
    other rows carry may come from an older scanner, but what carries this
    scanner's version is right. *)
Context (right : string → string → Prop) (right_new : ∀ v, right v (scanNew scanner_verdict v)).
Context (all : Identity → Prop).

Definition right_entry (v : string) (e : ScanEntry) : Prop :=
  right v (Verdict e) ∧ ScannerVersion e = scanner_version.

Definition scanned_in (done : Prop) (t : Type_) (f : Fields) (m : ScanMap) : Prop :=
  (∀ k e, m !! k = Some e → ∃ v, f !! k = Some v ∧ IsText t k = true ∧
     (done ∨ ScannerVersion e = scanner_version → right_entry v e)) ∧
  (done → ∀ k v, f !! k = Some v → IsText t k = true → is_Some (m !! k)).

Lemma scanned_weaken (P Q : Prop) t f m : (Q → P) → scanned_in P t f m → scanned_in Q t f m.
Proof using Type.
  intros HPQ [H1 H2]. split; [|intros Hq; apply H2; by apply HPQ]. intros k e He. destruct (H1 k e He) as (v & Hv & Ht & Hn). exists v. split_and!; [done..|].
  intros [Hq|Hs]; apply Hn; [left; by apply HPQ|by right].
Qed.

Definition content_ok (f : Fields) : Prop := values_ok f ∧ fields_clean f.

Record row_ok (id : Identity) (r : currentRow) : Prop := {
  row_hash : cr_hash r = Hash (cr_fields r);
  row_content : content_ok (cr_fields r);
  row_scope_set : cr_scope r ≠ ""%string;
  row_scanned_in : ∀ t, Active reg (rt_of id) = Some t → scanned_in (all id) t (cr_fields r) (cr_scan r);
}.

(** A record that passed validation. *)
Definition record_ok (r : NormRecord) : Prop :=
  content_ok (NFields r) ∧ NHash r = Hash (NFields r).

(** The input of a write against the rows of its subject and type. *)
Record plan_input (t : Type_) (subject : string) (d : db) (i : Input) : Prop := {
  pi_active : Active reg (TName t) = Some t;
  pi_current : ∀ k, InCurrent i !! k
                    = current_of (TName t, subject, k) <$> current d !! (TName t, subject, k);
  pi_keys : NoDup (NKey <$> Records i);
  pi_records : ∀ r, r ∈ Records i → record_ok r;
  pi_scope : InScope i ≠ ""%string;
}.

Definition rows_ok (d : db) : Prop := ∀ id r, current d !! id = Some r → row_ok id r.

(** Collision resistance, taken as injectivity. *)
Context (sha256_injective : ∀ x y, sha256 x = sha256 y → x = y).

Lemma plan_input_current t subject d i k c :
  plan_input t subject d i → rows_ok d → InCurrent i !! k = Some c →
  ∃ r, current d !! (TName t, subject, k) = Some r ∧ c = current_of (TName t, subject, k) r
       ∧ row_ok (TName t, subject, k) r.
Proof.
  intros Hi Hd Hc. rewrite (pi_current _ _ _ _ Hi) in Hc.
  apply fmap_Some in Hc as (r & Hr & ->). exists r. split_and!; [done..|]. by apply Hd.
Qed.

Lemma plan_input_ok t subject d i : plan_input t subject d i → rows_ok d → input_ok i.
Proof.
  intros Hi Hd. split.
  - apply Hi.
  - intros k c Hc. destruct (plan_input_current _ _ _ _ _ _ Hi Hd Hc) as (r & _ & -> & Hr).
    apply (row_content _ _ Hr).
  - intros k c r Hc Hr Hk Hh.
    destruct (plan_input_current _ _ _ _ _ _ Hi Hd Hc) as (r' & _ & -> & Hr').
    destruct (pi_records _ _ _ _ Hi r Hr) as [[_ Hcl] Hnh]. simpl in *.
    rewrite (row_hash _ _ Hr'), Hnh in Hh. apply sha256_injective in Hh.
    apply hash_input_fields; [apply (row_content _ _ Hr')|done|done].
  - apply Hi.
  - intros k c Hc. destruct (plan_input_current _ _ _ _ _ _ Hi Hd Hc) as (r & _ & -> & Hr).
    apply (row_scope_set _ _ Hr).
Qed.

(** ** One event *)

(** The columns of the next row that the events determine. *)
Definition next_fold (c : next_row) : FoldRow :=
  mkFoldRow (nx_scope c) (nx_audience c) (nx_fields c) (nx_removed c).

Definition prev_of (i : Input) (e : Event) : Current := default zero_current (InCurrent i !! EKey e).

Lemma fold_event_build t subject src prev e seq :
  fold_event ((buildEvent t subject src prev e).1 seq)
  = stored_event (TName t) subject (SchemaVersion t) e.
Proof. unfold stored_event, fold_event, JStore.buildEvent. by destruct (EKind e). Qed.

Lemma build_key t subject src prev e : nx_key (buildEvent t subject src prev e).2 = EKey e.
Proof. unfold JStore.buildEvent. by destruct (EKind e). Qed.

Lemma build_seq t subject src prev e seq :
  er_seq ((buildEvent t subject src prev e).1 seq) = seq
  ∧ er_id ((buildEvent t subject src prev e).1 seq) = (TName t, subject, EKey e).
Proof. unfold JStore.buildEvent. by destruct (EKind e). Qed.

(** The next row is what the observation shows. *)
Lemma build_observed t subject src i e :
  input_ok i → e ∈ Events (Diff i) ++ Removals (Diff i) →
  Some (next_fold (buildEvent t subject src (prev_of i e) e).2) = observed i (EKey e).
Proof.
  intros Hok He. unfold observed, prev_of.
  apply elem_of_app in He as [(r & Hr & Hc)%elem_of_events|[Hcomp [k Hk]]%elem_of_removals].
  - pose proof (classify_event _ _ _ Hc) as (Ek & Es & Ea & Hnr & Hcase).
    rewrite Ek, (find_record i r (keys_distinct i Hok) Hr).
    destruct (InCurrent i !! NKey r) as [c|] eqn:Hcur; simpl.
    + destruct Hcase as [-> [(Hk & _ & Haf)|(Hk & _ & Haf & _)]];
        unfold next_fold, JStore.buildEvent; by rewrite Hk, Haf, Es, Ea.
    + destruct Hcase as [Hk Haf]. unfold next_fold, JStore.buildEvent. by rewrite Hk, Haf, Es, Ea.
  - apply removal_spec in Hk as (c & Hcur & Hno & Hlive & Hnew & Ek & Hkind & Es & Ea & _).
    rewrite Ek, (proj2 (find_record_none _ _) Hno), Hcur, Hcomp, Hlive, Hnew.
    unfold next_fold, JStore.buildEvent. by rewrite Hkind, Es, Ea.
Qed.

Lemma same_active t t' subject key :
  Active reg (TName t) = Some t → Active reg (rt_of (TName t, subject, key)) = Some t' → t = t'.
Proof. change (rt_of _) with (TName t). congruence. Qed.

Lemma text_fields_lookup {A B} t (g : string → A → B) f k :
  text_fields t g f !! k
  = if IsText t k then g k <$> f !! k else None.
Proof.
  unfold text_fields. rewrite map_lookup_imap. destruct (f !! k), (IsText t k); done.
Qed.

Lemma new_scanned P t f : scanned_in P t f (text_fields t (λ _ v, new_entry v) f).
Proof using right_new.
  split.
  - intros k e. rewrite text_fields_lookup. destruct (IsText t k); [|done]. intros (v & -> & ->)%fmap_Some. exists v. by repeat split.
  - intros _ k v Hf Ht. rewrite text_fields_lookup, Ht, Hf. by eexists.
Qed.

(** What an update scans: the changed text values; the others keep their
    entry. *)
Lemma updated_scan_lookup t prev e after k :
  EAfter e = Some after → EChanged e = changes (CFields prev) after → values_ok (CFields prev) →
  updated_scan scanner_version scanner_verdict t prev e !! k
  = (if IsText t k && bool_decide (CFields prev !! k ≠ after !! k) then new_entry <$> after !! k
     else if bool_decide (is_Some (after !! k)) then CScan prev !! k else None).
Proof.
  intros Haf Hch Hv. unfold updated_scan. rewrite lookup_merge, text_fields_lookup, Hch, changes_lookup, Haf. simpl.
  assert (Hf : filter (λ p, is_Some (after !! p.1)) (CScan prev) !! k
               = if bool_decide (is_Some (after !! k)) then CScan prev !! k else None).
  { rewrite map_lookup_filter. destruct (CScan prev !! k); simpl; [|by case_bool_decide].
    case_bool_decide; [by rewrite option_guard_True|by rewrite option_guard_False]. }
  rewrite Hf. pose proof (change_spec (CFields prev !! k) (after !! k) ltac:(intros w; apply Hv)) as Hs.
  destruct (IsText t k); simpl.
  - destruct (change _ _) as [c|]; simpl.
    + destruct Hs as [Hnew Hne]. rewrite (bool_decide_eq_true_2 (CFields prev !! k ≠ after !! k)) by (by apply not_eq_sym). rewrite Hnew. by destruct (if bool_decide _ then _ else None).
    + rewrite (bool_decide_eq_false_2 (CFields prev !! k ≠ after !! k)) by (intros Hx; apply Hx; symmetry; exact Hs). by destruct (if bool_decide _ then _ else None).
  - by destruct (if bool_decide _ then _ else None).
Qed.

(** A scan of an update keeps the verdicts in step with the values. *)
Lemma updated_scan_ok P t prev e after :
  EAfter e = Some after → EChanged e = changes (CFields prev) after → values_ok (CFields prev) →
  scanned_in P t (CFields prev) (CScan prev) →
  scanned_in P t after (updated_scan scanner_version scanner_verdict t prev e).
Proof.
  intros Haf Hch Hv [H1 H2]. split.
  - intros k x. rewrite (updated_scan_lookup _ _ _ _ k Haf Hch Hv). destruct (IsText t k) eqn:Ht; simpl.
    + case_bool_decide as Hne; [intros (v & -> & ->)%fmap_Some; exists v; by repeat split|].
      case_bool_decide; [|done]. intros Hx. destruct (H1 k x Hx) as (v & Hf & _ & Hn).
      exists v. split_and!; [congruence|done..].
    + case_bool_decide; [|done]. intros Hx. destruct (H1 k x Hx) as (v & Hf & Ht' & _). congruence.
  - intros HP k v Hf Ht. rewrite (updated_scan_lookup _ _ _ _ k Haf Hch Hv), Ht, Hf. simpl.
    case_bool_decide as Hne; [by eexists|]. apply (H2 HP k v); [congruence|done].
Qed.

Lemma build_row_ok t subject src d i e seq first :
  plan_input t subject d i → rows_ok d → e ∈ Events (Diff i) ++ Removals (Diff i) →
  row_ok (TName t, subject, EKey e)
    (next_current sha256 src (buildEvent t subject src (prev_of i e) e).2 seq first).
Proof.
  intros Hi Hd He. pose proof (plan_input_ok _ _ _ _ Hi Hd) as Hok.
  pose proof (pi_active _ _ _ _ Hi) as Hact. pose proof (pi_scope _ _ _ _ Hi) as Hsc.
  unfold prev_of.
  apply elem_of_app in He as [(r & Hr & Hc)%elem_of_events|[Hcomp [k Hk]]%elem_of_removals].
  - pose proof (classify_event _ _ _ Hc) as (Ek & Es & Ea & Hnr & Hcase).
    pose proof (pi_records _ _ _ _ Hi r Hr) as [Hcont _]. rewrite Ek.
    destruct (InCurrent i !! NKey r) as [c|] eqn:Hcur; simpl.
    + destruct (plan_input_current _ _ _ _ _ _ Hi Hd Hcur) as (row & _ & Ec & Hrow).
      destruct Hcase as [_ [(Hk & _ & Haf)|(Hk & _ & Haf & Hch)]];
        unfold JStore.buildEvent; rewrite Hk, Haf; split; simpl; rewrite ?Es; try done.
      * intros t' <-%(same_active _ _ _ _ Hact). apply new_scanned.
      * intros t' <-%(same_active _ _ _ _ Hact).
        apply (updated_scan_ok _ _ _ _ _ Haf Hch); subst c; [apply (row_content _ _ Hrow)|].
        by apply (row_scanned_in _ _ Hrow).
    + destruct Hcase as [Hk Haf]. unfold JStore.buildEvent. rewrite Hk, Haf.
      split; simpl; rewrite ?Es; try done.
      intros t' <-%(same_active _ _ _ _ Hact). apply new_scanned.
  - apply removal_spec in Hk as (c & Hcur & Hno & Hlive & Hnew & Ek & Hkind & Es & Ea & _).
    destruct (plan_input_current _ _ _ _ _ _ Hi Hd Hcur) as (row & _ & Ec & Hrow).
    rewrite Ek, Hcur. unfold JStore.buildEvent. rewrite Hkind. subst c.
    split; simpl; rewrite ?Es; try done; try apply Hrow.
Qed.

(** ** A list of events *)

Section plan.
Context (t : Type_) (subject : string) (src : eventSource) (cur : gmap string Current).

Definition ev_id (e : Event) : Identity := (TName t, subject, EKey e).
Definition built (e : Event) : (Z → event_row) * next_row :=
  buildEvent t subject src (default zero_current (cur !! EKey e)) e.

(** The event rows, numbered from [n]. *)
Fixpoint built_rows (n : Z) (l : list Event) : list event_row :=
  match l with
  | [] => []
  | e :: l => (built e).1 n :: built_rows (n + 1) l
  end.

Lemma write_event_eq d e :
  write_event t subject src cur d e
  = set_current (<[ev_id e := next_current sha256 src (built e).2 (next_seq d)
        match current d !! ev_id e with
        | Some old => cr_first_seen_at old | None => src_observed_at src end]> (current d))
      (set_events (events d ++ [(built e).1 (next_seq d)]) (next_seq d + 1) d).
Proof.
  unfold JStore.write_event, ev_id, built.
  pose proof (build_key t subject src (default zero_current (cur !! EKey e)) e) as Hk.
  destruct (buildEvent t subject src (default zero_current (cur !! EKey e)) e) as [row next] eqn:E.
  simpl in *. unfold upsertCurrent. simpl. by rewrite Hk.
Qed.

Definition frame (d d' : db) : Prop :=
  snapshots d' = snapshots d ∧ erasures d' = erasures d ∧ erasure_kept d' = erasure_kept d ∧
  erasure_reader d' = erasure_reader d ∧ household_types d' = household_types d.

Lemma write_event_tables d e :
  let d' := write_event t subject src cur d e in
  events d' = events d ++ [(built e).1 (next_seq d)] ∧ next_seq d' = next_seq d + 1 ∧ frame d d'.
Proof. cbv zeta. rewrite write_event_eq. done. Qed.

Lemma frame_trans d1 d2 d3 : frame d1 d2 → frame d2 d3 → frame d1 d3.
Proof. unfold frame. clear. intuition congruence. Qed.

Lemma write_events_tables l d :
  let d' := foldl (write_event t subject src cur) d l in
  events d' = events d ++ built_rows (next_seq d) l ∧
  next_seq d' = next_seq d + Z.of_nat (length l) ∧ frame d d'.
Proof.
  cbv zeta. revert d. induction l as [|e l IH]; intros d.
  - simpl. rewrite app_nil_r. split_and!; [done|lia|done].
  - cbn [foldl built_rows length]. destruct (IH (write_event t subject src cur d e)) as (-> & -> & H3).
    destruct (write_event_tables d e) as (-> & -> & H4). split_and!.
    + by rewrite <- app_assoc.
    + lia.
    + by eapply frame_trans.
Qed.

Lemma write_events_untouched l d id :
  id ∉ ev_id <$> l → current (foldl (write_event t subject src cur) d l) !! id = current d !! id.
Proof.
  revert d. induction l as [|e l IH]; intros d Hid; [done|].
  rewrite fmap_cons, not_elem_of_cons in Hid. destruct Hid as [Hne Hid]. simpl.
  rewrite IH, write_event_eq by done. simpl. by rewrite lookup_insert_ne.
Qed.

Lemma write_events_touched l d e :
  NoDup (EKey <$> l) → e ∈ l →
  ∃ seq first, current (foldl (write_event t subject src cur) d l) !! ev_id e
               = Some (next_current sha256 src (built e).2 seq first).
Proof.
  revert d. induction l as [|e' l IH]; intros d Hnd He; [by apply elem_of_nil in He|].
  rewrite fmap_cons, NoDup_cons in Hnd. destruct Hnd as [Hno Hnd]. simpl.
  apply elem_of_cons in He as [->|He].
  - rewrite write_events_untouched.
    + rewrite write_event_eq. simpl. rewrite lookup_insert_eq. eauto.
    + intros (e & E & He)%list_elem_of_fmap. apply Hno. unfold ev_id in E.
      injection E as ->. by apply list_elem_of_fmap_2.
  - by apply IH.
Qed.

(** Sequence numbers: a current row points at the last event of its record. *)
Definition linked (d : db) : Prop :=
  ∀ id r, current d !! id = Some r →
    last (er_seq <$> about_id id (events d)) = Some (cr_last_event_seq r).

Definition seqs_ok (d : db) : Prop :=
  StronglySorted Z.lt (er_seq <$> events d) ∧ 0 < next_seq d ∧ ∀ e, e ∈ events d → 0 < er_seq e < next_seq d.

Lemma about_id_snoc id l e :
  about_id id (l ++ [e]) = about_id id l ++ (if decide (er_id e = id) then [e] else []).
Proof. rewrite about_id_app. unfold about_id. rewrite filter_cons. by destruct (decide _). Qed.

Lemma write_event_linked d e : linked d → linked (write_event t subject src cur d e).
Proof.
  intros Hl id r. rewrite write_event_eq. simpl. rewrite about_id_snoc, fmap_app.
  destruct (build_seq t subject src (default zero_current (cur !! EKey e)) e (next_seq d)) as [Hs Hi].
  fold (built e) in Hs, Hi. rewrite Hi. fold (ev_id e).
  destruct (decide (ev_id e = id)) as [<-|Hne].
  - rewrite lookup_insert_eq. intros [= <-]. simpl. rewrite last_snoc. by rewrite Hs.
  - rewrite lookup_insert_ne by done. simpl. rewrite app_nil_r. apply Hl.
Qed.

Lemma StronglySorted_snoc (l : list Z) x :
  StronglySorted Z.lt l → Forall (λ y, y < x) l → StronglySorted Z.lt (l ++ [x]).
Proof.
  induction l as [|y l IH]; simpl; intros Hs Hf; [repeat constructor|].
  apply StronglySorted_inv in Hs as [Hs Hy]. apply Forall_cons in Hf as [Hx Hf].
  constructor; [by apply IH|]. apply Forall_app. split; [done|]. by repeat constructor.
Qed.

Lemma write_event_seqs d e : seqs_ok d → seqs_ok (write_event t subject src cur d e).
Proof.
  intros (Hs & Hpos & Hlt). rewrite write_event_eq. unfold seqs_ok. simpl.
  destruct (build_seq t subject src (default zero_current (cur !! EKey e)) e (next_seq d)) as [Hq _].
  fold (built e) in Hq. rewrite fmap_app. simpl. rewrite Hq. split.
  - apply StronglySorted_snoc; [done|]. apply Forall_fmap, Forall_forall. intros x Hx. apply Hlt, Hx.
  - split; [lia|]. intros e' [He'| ->%list_elem_of_singleton]%elem_of_app; [|lia]. specialize (Hlt _ He'). lia.
Qed.

Lemma foldl_inv {A B} (P : A → Prop) (f : A → B → A) l a :
  (∀ a b, P a → P (f a b)) → P a → P (foldl f a l).
Proof. intros Hf. revert a. induction l; simpl; auto. Qed.

(** The confirmation of the other rows. *)
Lemma confirm_rows_at keys d id :
  ∃ b : bool, current (confirm_rows t subject src keys d) !! id
              = (λ r, if b then confirm_row src r else r) <$> current d !! id.
Proof.
  unfold confirm_rows. simpl. rewrite map_lookup_imap.
  exists (String.eqb (rt_of id) (TName t) && String.eqb (subject_of id) subject
          && bool_decide (key_of id ∈ keys)).
  by destruct (current d !! id).
Qed.

Lemma confirm_rows_other keys d id :
  id.1 ≠ (TName t, subject) → current (confirm_rows t subject src keys d) !! id = current d !! id.
Proof.
  intros Hid. unfold confirm_rows. simpl. rewrite map_lookup_imap.
  destruct (current d !! id); [|done]. simpl. destruct (_ && _ && _) eqn:E; [|done].
  exfalso. bool_to_prop. apply Hid. destruct id as [[a b] k]. simpl in *.
  repeat match goal with H : (_ =? _)%string = true |- _ => apply String.eqb_eq in H end.
  unfold rt_of, subject_of in *. simpl in *. by subst.
Qed.
End plan.

(** ** A plan *)

Definition plan_events (i : Input) : list Event := Events (Diff i) ++ Removals (Diff i).

(** The fold of the events agrees with the current rows. *)
Definition consistent (d : db) : Prop :=
  ∀ id, replay_at rename (events d) id = cur_row <$> current d !! id.

Record good (d : db) : Prop := {
  good_rows : rows_ok d;
  good_linked : linked d;
  good_seqs : seqs_ok d;
  good_consistent : consistent d;
}.

Section write_plan.
Context (types : list Type_) (Hreg : NewRegistry types = Some reg).
Context (t : Type_) (subject : string) (src : eventSource) (d : db) (i : Input).
Context (cur : gmap string Current).
Context (Hi : plan_input t subject d i) (Hd : rows_ok d).
Context (Hcur : ∀ e, e ∈ plan_events i → cur !! EKey e = InCurrent i !! EKey e).

Let d1 := foldl (write_event t subject src cur) d (plan_events i).
Let d' := writePlan t subject src cur (Diff i) d.

Lemma plan_keys_NoDup : NoDup (EKey <$> plan_events i).
Proof. apply plan_keys_distinct. by eapply plan_input_ok. Qed.

Lemma built_prev e :
  e ∈ plan_events i → built t subject src cur e = buildEvent t subject src (prev_of i e) e.
Proof. intros He. unfold built, prev_of. by rewrite Hcur. Qed.

Lemma ev_ids k : (TName t, subject, k) ∈ ev_id t subject <$> plan_events i ↔ k ∈ EKey <$> plan_events i.
Proof.
  rewrite !list_elem_of_fmap. split.
  - intros (e & E & He). exists e. unfold ev_id in E. by injection E.
  - intros (e & -> & He). by exists e.
Qed.

Lemma write_events_observed k :
  cur_row <$> current d1 !! (TName t, subject, k) = observed i k.
Proof.
  destruct (decide (k ∈ EKey <$> plan_events i)) as [Hin|Hno].
  - apply list_elem_of_fmap in Hin as (e & -> & He).
    destruct (write_events_touched t subject src cur _ d e plan_keys_NoDup He) as (seq & first & E).
    unfold d1. unfold ev_id in E. rewrite E, built_prev by done. simpl.
    rewrite <- (build_observed t subject src); [done|by eapply plan_input_ok|done].
  - unfold d1. rewrite write_events_untouched by (by rewrite ev_ids).
    rewrite no_event_row; [|by eapply plan_input_ok|done].
    rewrite (pi_current _ _ _ _ Hi). by destruct (current d !! (TName t, subject, k)).
Qed.

Lemma writePlan_observed k : cur_row <$> current d' !! (TName t, subject, k) = observed i k.
Proof.
  rewrite <- write_events_observed. unfold d', JStore.writePlan.
  destruct (confirm_rows_at t subject src (Confirm (Diff i)) d1 (TName t, subject, k)) as [b E].
  unfold d1, plan_events in E |- *. rewrite E, <- option_fmap_compose. by destruct b.
Qed.

Lemma writePlan_other (id : Identity) : id.1 ≠ (TName t, subject) → current d' !! id = current d !! id.
Proof.
  intros Hid. unfold d', JStore.writePlan. rewrite confirm_rows_other by done.
  apply write_events_untouched. intros (e & -> & _)%list_elem_of_fmap. done.
Qed.

Lemma writePlan_tables :
  events d' = events d ++ built_rows t subject src cur (next_seq d) (plan_events i) ∧
  next_seq d' = next_seq d + Z.of_nat (length (plan_events i)) ∧ frame d d'.
Proof. apply (write_events_tables t subject src cur (plan_events i) d). Qed.

Lemma built_rows_stored n l :
  fold_event <$> built_rows t subject src cur n l
  = stored_event (TName t) subject (SchemaVersion t) <$> l.
Proof.
  revert n. induction l as [|e l IH]; intros n; [done|]. simpl. rewrite IH.
  unfold built. by rewrite fold_event_build.
Qed.

Lemma writePlan_rows_ok : rows_ok d'.
Proof.
  assert (H1 : rows_ok d1).
  { intros id r Hr. destruct (decide (id ∈ ev_id t subject <$> plan_events i)) as [Hin|Hno].
    - apply list_elem_of_fmap in Hin as (e & -> & He).
      destruct (write_events_touched t subject src cur _ d e plan_keys_NoDup He) as (seq & first & E).
      unfold d1 in Hr. rewrite E, built_prev in Hr by done. injection Hr as <-.
      by apply (build_row_ok _ _ _ d).
    - unfold d1 in Hr. rewrite write_events_untouched in Hr by done. by apply Hd. }
  intros id r Hr.
  destruct (confirm_rows_at t subject src (Confirm (Diff i)) d1 id) as [b E].
  unfold d', JStore.writePlan in Hr. unfold d1, plan_events in E. rewrite E in Hr.
  apply fmap_Some in Hr as (r' & Hr' & ->). destruct (H1 id r' Hr'). destruct b; by split.
Qed.

Lemma writePlan_linked : linked d → linked d'.
Proof.
  intros Hl. assert (H1 : linked d1).
  { apply (foldl_inv linked); [|done]. intros. by apply write_event_linked. }
  intros id r Hr. destruct (confirm_rows_at t subject src (Confirm (Diff i)) d1 id) as [b E].
  unfold d', JStore.writePlan in Hr. unfold d1, plan_events in E. rewrite E in Hr.
  apply fmap_Some in Hr as (r' & Hr' & ->). specialize (H1 id r' Hr'). by destruct b.
Qed.

Lemma writePlan_seqs : seqs_ok d → seqs_ok d'.
Proof.
  intros Hs. apply (foldl_inv seqs_ok (write_event t subject src cur)); [|done].
  intros. by apply write_event_seqs.
Qed.

Lemma replay_app l k id :
  replay_at rename (l ++ k) id
  = fold_opt rename (replay_at rename l id) (filter (λ e, FID e = id) (fold_event <$> k)).
Proof.
  unfold replay_at. rewrite about_id_app, fmap_app, filter_fold_event.
  unfold fold_opt. by rewrite foldl_app.
Qed.

Lemma writePlan_consistent : consistent d → consistent d'.
Proof.
  intros Hc. destruct writePlan_tables as (Hev & _ & _).
  intros id. rewrite Hev, replay_app, Hc, built_rows_stored, <- lookup_fmap, <- fold_at.
  destruct (diff_fold_rows rename (TName t) subject (SchemaVersion t)
    (λ k, active_renames_nothing types reg (TName t) t k Hreg (pi_active _ _ _ _ Hi))
    i (cur_row <$> current d) ltac:(by eapply plan_input_ok)) as [H1 H2].
  { intros k. rewrite lookup_fmap, (pi_current _ _ _ _ Hi).
    by destruct (current d !! (TName t, subject, k)). }
  destruct (decide (id.1 = (TName t, subject))) as [E|Hne].
  - destruct id as [p k]. simpl in E. subst p. rewrite (writePlan_observed k). apply H1.
  - rewrite writePlan_other by done. rewrite <- lookup_fmap. by apply H2.
Qed.

Lemma writePlan_good : good d → good d'.
Proof.
  intros [H1 H2 H3 H4]. split; [by apply writePlan_rows_ok|by apply writePlan_linked
    |by apply writePlan_seqs|by apply writePlan_consistent].
Qed.
End write_plan.

(** ** Erasing *)

(** [good] only looks at the rows and the events. *)
Definition same_history (d d' : db) : Prop :=
  current d' = current d ∧ events d' = events d ∧ next_seq d' = next_seq d.

Lemma good_same d d' : same_history d d' → good d → good d'.
Proof.
  unfold same_history. intros (E1 & E2 & E3) [H1 H2 H3 H4].
  unfold rows_ok, linked, seqs_ok, consistent in *.
  split; unfold rows_ok, linked, seqs_ok, consistent; by rewrite ?E1, ?E2, ?E3.
Qed.

Lemma sorted_filter {A} (f : A → Z) (p : A → bool) l :
  StronglySorted Z.lt (f <$> l) → StronglySorted Z.lt (f <$> List.filter p l).
Proof.
  induction l as [|x l IH]; simpl; intros Hs; [constructor|].
  apply StronglySorted_inv in Hs as [Hs Hx]. destruct (p x); [|by apply IH].
  simpl. constructor; [by apply IH|]. rewrite Forall_fmap, Forall_forall in *.
  intros y [Hy _]%elem_of_bool_filter. by apply Hx.
Qed.

Lemma delete_rows_good p d : good d → good (delete_rows p d).
Proof.
  intros [H1 H2 H3 H4]. unfold delete_rows. split.
  - intros id r. rewrite delete_current_at. destruct (p id); [done|]. apply H1.
  - intros id r. rewrite delete_current_at. destruct (p id) eqn:Hp; [done|]. intros Hr.
    simpl. rewrite about_id_delete, Hp. by apply H2.
  - destruct H3 as (Hs & Hpos & Hlt). split; [|split]; simpl.
    + by apply sorted_filter.
    + done.
    + intros e [He _]%elem_of_bool_filter. by apply Hlt.
  - intros id. rewrite delete_current_at. simpl. rewrite replay_delete. destruct (p id); [done|].
    apply H4.
Qed.

(** The identities the tables mention. *)
Definition occurs (d : db) (id : Identity) : Prop :=
  is_Some (current d !! id) ∨ id ∈ er_id <$> events d.

Lemma rewrite_current_at (from to : Identity) (s : string) (m : gmap Identity currentRow) (id : Identity) :
  from ≠ to → m !! to = None →
  rewrite_current from to s m !! id
  = if bool_decide (id = to) then set_scope s <$> m !! from
    else if bool_decide (id = from) then None else m !! id.
Proof.
  intros Hne Hto. unfold rewrite_current. destruct (m !! from) as [r|] eqn:Hf.
  - case_bool_decide as E1; [subst id; by rewrite lookup_insert_eq|].
    rewrite lookup_insert_ne by done. case_bool_decide as E2.
    + subst id. by rewrite lookup_delete_eq.
    + by rewrite lookup_delete_ne.
  - case_bool_decide as E1; [by subst id|]. case_bool_decide as E2; [by subst id|done].
Qed.

Lemma rewrite_event_seqs (from to : Identity) (s : string) (l : list event_row) : er_seq <$> (rewrite_event from to s <$> l) = er_seq <$> l.
Proof.
  rewrite <- list_fmap_compose. apply list_fmap_ext. intros i e _. simpl.
  unfold rewrite_event. by case_bool_decide.
Qed.

Lemma household_scope_set name subject : HouseholdScope name subject ≠ ""%string.
Proof. unfold HouseholdScope. destruct (String.eqb subject ""); intros E; vm_compute in E; discriminate. Qed.

Lemma keep_note_good subject to readers n d :
  (kn_type n, subject, kn_key n) ≠ (kn_type n, to, kn_key n) →
  ¬ occurs d (kn_type n, to, kn_key n) → (all (kn_type n, to, kn_key n) → all (kn_type n, subject, kn_key n)) →
  good d → good (keep_note subject to readers n d).
Proof.
  intros Hne Hno Hall [H1 H2 H3 H4]. unfold occurs in Hno.
  set (from := (kn_type n, subject, kn_key n)) in *. set (to_id := (kn_type n, to, kn_key n)) in *.
  assert (Hto : current d !! to_id = None) by (apply eq_None_not_Some; clear -Hno; tauto).
  assert (Hev : to_id ∉ er_id <$> events d) by (clear -Hno; tauto).
  set (s := HouseholdScope (kn_type n) ""). unfold keep_note. fold s.
  fold from to_id. split; unfold rows_ok, linked, seqs_ok, consistent; simpl.
  - intros id r. rewrite rewrite_current_at by done. case_bool_decide as E1.
    + subst id. intros (r' & Hr & ->)%fmap_Some. destruct (H1 _ _ Hr) as [R1 R2 R3 R4].
      split; simpl; [done|done|apply household_scope_set|].
      intros t Ht. eapply scanned_weaken; [exact Hall|by apply R4].
    + case_bool_decide; [done|]. apply H1.
  - intros id r. rewrite rewrite_current_at, about_id_rewrite by done. case_bool_decide as E1.
    + intros (r' & Hr & ->)%fmap_Some. rewrite rewrite_event_seqs. simpl. by apply (H2 from).
    + case_bool_decide; [done|]. apply H2.
  - destruct H3 as (Hs & Hpos & Hlt). rewrite rewrite_event_seqs. split_and!; [done..|].
    intros e (e' & -> & He)%list_elem_of_fmap. specialize (Hlt _ He).
    unfold rewrite_event. by case_bool_decide.
  - intros id. rewrite rewrite_current_at, replay_rewrite by done. case_bool_decide as E1.
    + rewrite H4. by destruct (current d !! from).
    + case_bool_decide; [done|]. apply H4.
Qed.

Definition note_id (subject : string) (n : keptNote) : Identity := (kn_type n, subject, kn_key n).

Lemma occurs_keep_note subject to readers n d id :
  occurs (keep_note subject to readers n d) id →
  (occurs d id ∧ id ≠ note_id subject n) ∨ (id = note_id to n ∧ occurs d (note_id subject n))
  ∨ note_id subject n = note_id to n.
Proof using Type.
  unfold occurs, keep_note. simpl. fold (note_id subject n) (note_id to n).
  destruct (decide (note_id subject n = note_id to n)) as [E|Hne]; [intros _; by right; right|].
  intros [[r Hr]|(e & -> & (e' & -> & He')%list_elem_of_fmap)%list_elem_of_fmap].
  - unfold rewrite_current in Hr. destruct (current d !! note_id subject n) eqn:Hf.
    + apply lookup_insert_Some in Hr as [[<- _]|[_ [Hn Hr]%lookup_delete_Some]].
      * right; left. split; [done|]. left. by eexists.
      * left. split; [|congruence]. left. by eexists.
    + left. split; [left; by eexists|congruence].
  - rewrite rewrite_event_id. case_bool_decide as E.
    + right; left. split; [done|]. right. rewrite <- E. by apply list_elem_of_fmap_2.
    + left. split; [|done]. right. by apply list_elem_of_fmap_2.
Qed.

Lemma marker_injective p j k : marker p j = marker p k → j = k.
Proof.
  unfold marker. intros E%(inj _)%(inj _). unfold itoa in E. apply (inj pretty) in E. lia.
Qed.

(** The pseudonym is one the tables do not use beyond the notes kept so far. *)
Definition fresh (p : string) (kept : nat) (d : db) : Prop :=
  ∀ j id, (kept < j)%nat → subject_of id = marker p j → ¬ occurs d id.

Section keep.
Context (ros : Roster) (subject pseudonym : string) (erased : list string).
Context (Hsub : ∀ j, subject ≠ marker pseudonym j).

Lemma note_marker_ne n j : note_id subject n ≠ note_id (marker pseudonym j) n.
Proof using Type Hsub. intros [=]. by eapply Hsub. Qed.

Lemma fresh_keep k readers n d :
  fresh pseudonym k d → fresh pseudonym (S k) (keep_note subject (marker pseudonym (S k)) readers n d).
Proof using Type Hsub.
  intros Hf j id Hj Hs [[Ho _]|[[-> _]|E]]%occurs_keep_note.
  - apply (Hf j id); [lia|done|done].
  - cbn in Hs. apply marker_injective in Hs. lia.
  - by eapply note_marker_ne.
Qed.

(** What every kept note preserves, the loop preserves. *)
Lemma keep_loop_inv (P : db → Prop) notes k d :
  (∀ k n d, n ∈ notes → fresh pseudonym k d → P d →
     P (keep_note subject (marker pseudonym (S k)) (frozenReaders ros subject erased n) n d)) →
  fresh pseudonym k d → P d → P (keep_loop ros subject pseudonym erased notes k d).2.
Proof using Type Hsub.
  intros HP. revert k d. induction notes as [|n notes IH]; intros k d Hf Hd; [done|]. simpl.
  assert (Hnext : P (keep_note subject (marker pseudonym (S k)) (frozenReaders ros subject erased n) n d))
    by (apply HP; [by left|done|done]).
  destruct (frozenReaders ros subject erased n) as [|r rs] eqn:Hr.
  - apply IH; [|done|done]. intros. apply HP; [by right|done|done].
  - apply IH; [intros; apply HP; [by right|done|done]|by apply fresh_keep|done].
Qed.

(** A kept note's new row is not one of those in [all], unless the note was. *)
Definition keeps_all (notes : list keptNote) : Prop :=
  ∀ n j, n ∈ notes → all (note_id (marker pseudonym j) n) → all (note_id subject n).

Lemma keep_loop_good notes k d :
  keeps_all notes → fresh pseudonym k d → good d → good (keep_loop ros subject pseudonym erased notes k d).2.
Proof.
  intros Ha. apply keep_loop_inv. intros j n d' Hn Hf Hg. apply keep_note_good; [apply note_marker_ne| |by apply Ha|done].
  apply (Hf (S j)); [lia|done].
Qed.
End keep.

Lemma erase_rule1_tables subject d :
  let d' := erase_rule1 subject d in
  erasures d' = erasures d ∧ household_types d' = household_types d ∧ snapshots d' = snapshots d.
Proof. done. Qed.

Lemma erase_rule1_good subject d : good d → good (erase_rule1 subject d).
Proof.
  intros Hg. unfold erase_rule1. cbv zeta.
  eapply good_same; [|apply delete_rows_good]; [by unfold same_history|].
  eapply good_same; [|by apply delete_rows_good]. by unfold same_history.
Qed.

Lemma occurs_delete p d id : occurs (delete_rows p d) id → occurs d id ∧ p id = false.
Proof.
  unfold occurs, delete_rows. intros [Hr|(e & -> & [He Hp]%elem_of_bool_filter)%list_elem_of_fmap].
  - rewrite delete_current_at in Hr. destruct (p id); [by destruct Hr|]. split; [by left|done].
  - apply negb_true_iff in Hp. split; [|done]. right. by apply list_elem_of_fmap_2.
Qed.

Lemma occurs_rule1 subject d id :
  occurs (erase_rule1 subject d) id → occurs d id ∧ authored d subject id = false.
Proof.
  intros Ho. unfold erase_rule1 in Ho. cbv zeta in Ho.
  apply (occurs_delete _ _ id) in Ho as [Ho _]. by apply (occurs_delete _ d id) in Ho.
Qed.

Lemma fresh_rule1 p subject k d : fresh p k d → fresh p k (erase_rule1 subject d).
Proof. intros Hf j id Hj Hs [Ho _]%occurs_rule1. by apply (Hf j id). Qed.

Lemma eraseLocked_good ros actor subject pseudonym now d :
  (∀ j, subject ≠ marker pseudonym j) → keeps_all subject pseudonym (notes_about (erase_rule1 subject d) subject) →
  fresh pseudonym 0 d → good d →
  good (eraseLocked ros actor subject pseudonym now d).2.
Proof.
  intros Hsub Ha Hf Hg. unfold eraseLocked, keepNotes.
  pose proof (keep_loop_good ros subject pseudonym (es_subject <$> erasures (erase_rule1 subject d)) Hsub
    (notes_about (erase_rule1 subject d) subject) 0 _ Ha (fresh_rule1 _ subject _ _ Hf) (erase_rule1_good subject d Hg)) as Hk.
  destruct (keep_loop _ _ _ _ _ _ _) as [kept d2]. simpl in Hk |- *.
  eapply good_same; [|apply (delete_rows_good (about subject) d2 Hk)]. by unfold same_history.
Qed.
End history.

(** ** A journal that had one scanner *)

Definition is_new (scanner_verdict : string → string) (v verdict : string) : Prop := verdict = scanNew scanner_verdict v.

Lemma right_is_new scanner_verdict v : is_new scanner_verdict v (scanNew scanner_verdict v).
Proof. done. Qed.

Lemma scanned_in_done scanner_version scanner_verdict (done : Prop) t f m :
  done → scanned_in scanner_version (is_new scanner_verdict) done t f m ↔ scanned scanner_version scanner_verdict t f m.
Proof.
  intros Hd. split.
  - intros [H1 H2] k. destruct (m !! k) as [e|] eqn:Hm.
    + destruct (H1 k e Hm) as (v & -> & -> & Hr). destruct Hr as [Hv Hs]; [by left|]. destruct e. simpl in *. by rewrite Hv, Hs.
    + destruct (IsText t k) eqn:Ht; [|done]. destruct (f !! k) as [v|] eqn:Hf; [|done].
      destruct (H2 Hd k v Hf Ht) as [e He]. congruence.
  - intros H. split.
    + intros k e Hm. rewrite H in Hm. destruct (IsText t k); [|done]. apply fmap_Some in Hm as (v & -> & ->). exists v.
      by repeat split.
    + intros _ k v Hf Ht. rewrite H, Ht, Hf. by eexists.
Qed.

Lemma row_scanned scanner_version scanner_verdict sha256 reg (all : Identity → Prop) id r :
  row_ok scanner_version sha256 reg (is_new scanner_verdict) all id r → all id →
  ∀ t, Active reg (rt_of id) = Some t → scanned scanner_version scanner_verdict t (cr_fields r) (cr_scan r).
Proof. intros H Hd t Ht. apply (scanned_in_done _ _ (all id)); [done|]. by apply (row_scanned_in _ _ _ _ _ _ _ H). Qed.
