(* ===== verification/JJournal.v ===== *)
(** The journal as a state machine: its operations are the steps, and what
    holds of every state they reach. *)
From S2P Require Import Prelude GoStrings StrOrder JRecord JDiff JRules JAccess JStore JErase.
From S2P Require Import JFold.
Local Open Scope Z_scope.

Section journal.
Context (scanner_version : string) (scanner_verdict : string → string).
Context (sha256 sha256_hex : string → string).
Context (rules : RuleSet) (guard : Guard).
Context (validate : string → Z → option (res Rejection Normalized)).

Local Abbreviation Apply := (Apply scanner_version scanner_verdict sha256 sha256_hex rules guard).
Local Abbreviation applyFromOrdering :=
  (applyFromOrdering scanner_version scanner_verdict sha256 sha256_hex rules guard).
Local Abbreviation ConfirmHeld :=
  (ConfirmHeld scanner_version scanner_verdict sha256 sha256_hex rules guard validate).
Local Abbreviation WriteNote := (WriteNote scanner_version scanner_verdict sha256 sha256_hex rules).
Local Abbreviation write_note := (write_note scanner_version scanner_verdict sha256 sha256_hex rules).
Local Abbreviation writePlan := (writePlan scanner_version scanner_verdict sha256 sha256_hex rules).

(** ** Steps *)

Inductive op :=
| OApply (writer : string) (n : Normalized) (payload : string)
| OConfirm (id : string) (mayWrite : WriteCheck)
| ODiscard (id : string)
| ONote (writer : string) (n : NormNote)
| OErase (actor subject pseudonym : string).

(** A call, with the roster in use and the time it runs at. *)
Record call := mkCall { c_roster : option Roster; c_now : Z; c_op : op }.

Definition step (d : db) (c : call) : db :=
  match c_op c with
  | OApply w n p => (Apply d (c_roster c) (c_now c) w n p).2
  | OConfirm id mw => (ConfirmHeld d (c_roster c) (c_now c) id mw).2
  | ODiscard id => (DiscardHeld d id).2
  | ONote w n => (WriteNote d (c_roster c) (c_now c) w n).2
  | OErase a s p => (Erase (c_roster c) a s p (c_now c) d).2
  end.

Definition is_erase (c : call) : bool := match c_op c with OErase _ _ _ => true | _ => false end.

Section registry.
Context (reg : Registry).

(** What validation establishes of a snapshot and of a note. *)
Record norm_ok (n : Normalized) : Prop := {
  nk_active : Active reg (TName (NType n)) = Some (NType n);
  nk_source : Household (NType n) = false;
  nk_scope : NScopeKey n ≠ ""%string;
  nk_keys : NoDup (NKey <$> NRecords n);
  nk_records : ∀ r, r ∈ NRecords n → record_ok sha256 r;
}.

Record note_ok (n : NormNote) : Prop := {
  ok_active : Active reg (TName (NoType n)) = Some (NoType n);
  ok_household : Household (NoType n) = true;
  ok_scope : NoScope n = HouseholdScope (TName (NoType n)) (NoSubject n);
  ok_key : ∃ date, no_char ":" date = true ∧ NoKey n = (date ++ ":" ++ NoOnBehalfOf n)%string;
  ok_fields : content_ok (NoFields n);
  ok_hash : NoHash n = Hash sha256 (NoFields n);
}.

(** A roster in use is one the loader produced. *)
Definition roster_loaded (r : option Roster) : Prop :=
  ∀ ros, r = Some ros → ∃ doc, parseV1 doc = Some ros.

Definition call_ok (d : db) (c : call) : Prop :=
  roster_loaded (c_roster c) ∧
  match c_op c with
  | OApply _ n _ => norm_ok n
  | ONote _ n => note_ok n
  | OErase _ _ p => IsErased p = true ∧ fresh p 0 d
  | OConfirm _ _ | ODiscard _ => True
  end.

(** The household types of the database are those of the registry. *)
Definition types_synced (d : db) : Prop :=
  ∀ t, Active reg (TName t) = Some t →
    existsb (String.eqb (TName t)) (household_types d) = Household t.

Definition empty_db (household : list string) : db := mkDb ∅ ∅ [] 1 [] ∅ [] household.

Inductive reachable : db → Prop :=
| reach_empty hs : types_synced (empty_db hs) → reachable (empty_db hs)
| reach_step d c : reachable d → call_ok d c → reachable (step d c).

(** ** Loading rows *)

Lemma loadCurrent_lookup d t s key k :
  key = ""%string ∨ k = key →
  loadCurrent d t s key !! k = current_of (TName t, s, k) <$> current d !! (TName t, s, k).
Proof.
  intros Hk. unfold loadCurrent.
  match goal with |- context [omap ?g _] => set (f := g) end.
  assert (Hf : ∀ k c, (k, c) ∈ omap f (map_to_list (current d)) →
    ∃ r, current d !! (TName t, s, k) = Some r ∧ c = current_of (TName t, s, k) r).
  { intros k' c (([[a b] k''], r) & Hin%elem_of_map_to_list & He)%list_elem_of_omap.
    unfold f, rt_of, subject_of, key_of in He. simpl in He.
    destruct (_ && _ && _) eqn:Hc; [|done]. injection He as <- <-.
    apply andb_true_iff in Hc as [[->%String.eqb_eq ->%String.eqb_eq]%andb_true_iff _]. by exists r. }
  apply option_eq. intros c. split.
  - intros (r & -> & ->)%elem_of_list_to_map_2%Hf. done.
  - intros (r & Hr & ->)%fmap_Some. apply elem_of_list_to_map_1'.
    + intros c' (r' & Hr' & ->)%Hf. by simplify_eq.
    + apply list_elem_of_omap. exists ((TName t, s, k), r). split; [by apply elem_of_map_to_list|].
      unfold f, rt_of, subject_of, key_of. simpl. rewrite !String.eqb_refl.
      destruct Hk as [-> | ->]; simpl; [done|by rewrite String.eqb_refl, orb_true_r].
Qed.

Lemma snapshot_plan_input d n :
  norm_ok n → plan_input sha256 reg (NType n) (NSubject n) d (snapshot_input d n).
Proof.
  intros [H1 H2 H3 H4 H5]. split; simpl; [done| |done..].
  intros k. apply loadCurrent_lookup. by left.
Qed.

(** A note is planned against its own row, which is all an incomplete input
    looks at. *)
Definition full_note_input (d : db) (now : Z) (n : NormNote) : Input :=
  mkInput (NoScope n) false None now (loadCurrent d (NoType n) (NoSubject n) "")
    [mkNormRecord (NoKey n) (NoSubject n) (NoAudience n) (NoFields n) (NoHash n)].

Lemma note_plan_input d now n :
  note_ok n → plan_input sha256 reg (NoType n) (NoSubject n) d (full_note_input d now n).
Proof.
  intros [H1 H2 H3 H4 H5 H6]. split; simpl; [done| | | |].
  - intros k. apply loadCurrent_lookup. by left.
  - apply NoDup_singleton.
  - intros r ->%list_elem_of_singleton. done.
  - rewrite H3. apply household_scope_set.
Qed.

Lemma note_input_row d now n :
  InCurrent (note_input d now n) !! NoKey n = InCurrent (full_note_input d now n) !! NoKey n.
Proof. simpl. rewrite !loadCurrent_lookup; [done|by left|by right]. Qed.

Lemma note_plan d now n : Diff (note_input d now n) = Diff (full_note_input d now n).
Proof.
  unfold Diff. simpl. unfold classify. simpl.
  pose proof (note_input_row d now n) as E. simpl in E. by rewrite E.
Qed.

Lemma note_plan_keys d now n e :
  e ∈ plan_events (full_note_input d now n) → EKey e = NoKey n.
Proof.
  intros [(r & Hr & Hc)%elem_of_events|[Hc _]%elem_of_removals]%elem_of_app; [|done].
  apply list_elem_of_singleton in Hr as ->. by apply classify_event in Hc as [? _].
Qed.

(** ** How a write changes the tables *)

(** The tables of an erase are left alone. *)
Definition same_erasures (d d' : db) : Prop :=
  erasures d' = erasures d ∧ erasure_kept d' = erasure_kept d ∧
  erasure_reader d' = erasure_reader d ∧ household_types d' = household_types d.

(** Events are appended, with new numbers, and only records in [Q] get any. *)
Record extends (Q : Identity → Prop) (d d' : db) : Prop := {
  ext_events : ∃ new, events d' = events d ++ new ∧
    Forall (λ e, Q (er_id e) ∧ next_seq d ≤ er_seq e) new;
  ext_seq : next_seq d ≤ next_seq d';
  ext_current : ∀ id, is_Some (current d' !! id) → is_Some (current d !! id) ∨ Q id;
  ext_kept : ∀ id, is_Some (current d !! id) → is_Some (current d' !! id);
  ext_same : same_erasures d d';
}.

Lemma extends_same Q d d' : same_history d d' → same_erasures d d' → extends Q d d'.
Proof.
  intros (E1 & E2 & E3) He. split; rewrite ?E1, ?E2, ?E3; auto; [|lia].
  exists []. by rewrite app_nil_r.
Qed.

Lemma extends_refl Q d : extends Q d d.
Proof. by apply extends_same. Qed.

Lemma extends_after Q d d1 d2 :
  extends Q d d1 → same_history d1 d2 → same_erasures d1 d2 → extends Q d d2.
Proof.
  intros [H1 H2 H3 H3' H4] (E1 & E2 & E3) He. split; rewrite ?E1, ?E2, ?E3; auto.
  unfold same_erasures in *. clear -H4 He. intuition congruence.
Qed.

Lemma built_rows_new t s src cur m l n :
  m ≤ n → Forall (λ e, er_id e ∈ ev_id t s <$> l ∧ m ≤ er_seq e)
            (built_rows scanner_version scanner_verdict sha256_hex rules t s src cur n l).
Proof.
  revert n. induction l as [|e l IH]; intros n Hn; [constructor|]. simpl. constructor.
  - unfold built. destruct (build_seq scanner_version scanner_verdict sha256_hex rules t s src
      (default zero_current (cur !! EKey e)) e n) as [-> ->]. split; [by left|lia].
  - eapply Forall_impl; [apply (IH (n + 1)); lia|]. intros x [Hx ?]. split; [by right|lia].
Qed.

Lemma writePlan_extends t s src cur i d :
  extends (λ id, id ∈ ev_id t s <$> plan_events i) d (writePlan t s src cur (Diff i) d).
Proof.
  destruct (writePlan_tables scanner_version scanner_verdict sha256 sha256_hex rules t s src d i cur)
    as (He & Hn & Hfr). split.
  - eexists. split; [exact He|]. by apply built_rows_new.
  - rewrite Hn. lia.
  - intros id. unfold JStore.writePlan.
    destruct (confirm_rows_at t s src (Confirm (Diff i))
      (foldl (JStore.write_event scanner_version scanner_verdict sha256 sha256_hex rules t s src cur) d
        (Events (Diff i) ++ Removals (Diff i))) id) as [b ->].
    rewrite fmap_is_Some.
    destruct (decide (id ∈ ev_id t s <$> plan_events i)) as [Hin|Hno]; [by right|].
    rewrite write_events_untouched by done. by left.
  - intros id. unfold JStore.writePlan.
    destruct (confirm_rows_at t s src (Confirm (Diff i))
      (foldl (JStore.write_event scanner_version scanner_verdict sha256 sha256_hex rules t s src cur) d
        (Events (Diff i) ++ Removals (Diff i))) id) as [b ->].
    rewrite fmap_is_Some. revert d Hn He Hfr. clear.
    intros d _ _ _. generalize (Events (Diff i) ++ Removals (Diff i)) as l. intros l. revert d.
    induction l as [|e l IH]; intros d Hc; [done|]. simpl. apply IH.
    rewrite write_event_eq. simpl. destruct (decide (ev_id t s e = id)) as [<-|Hne].
    + rewrite lookup_insert_eq. by eexists.
    + by rewrite lookup_insert_ne.
  - unfold frame in Hfr. unfold same_erasures. clear -Hfr. tauto.
Qed.

(** ** Applying a snapshot *)

Definition apply_plan (d : db) (n : Normalized) (writer : string) : db :=
  writePlan (NType n) (NSubject n) (snapshot_source n writer) (InCurrent (snapshot_input d n))
    (Diff (snapshot_input d n)) d.

Lemma ordering_cases d n writer payload now cid :
  let r := applyFromOrdering d n writer payload now cid in
  (r.1 = Done SApplied (Plan_Stats (Diff (snapshot_input d n))) ∧ later d n = false ∧
   same_history (apply_plan d n writer) r.2 ∧ same_erasures (apply_plan d n writer) r.2) ∨
  (∃ s st, r.1 = Done s st ∧ s ≠ SApplied ∧ s ≠ SDuplicate ∧ same_history d r.2 ∧ same_erasures d r.2).
Proof.
  unfold JStore.applyFromOrdering. destruct (later d n); cbv zeta.
  { right. exists SLate, zero_stats. by destruct cid. }
  destruct (_ && _).
  { right. by eexists SHeld, _. }
  left. by destruct cid.
Qed.

(** Every row of the snapshot table is an old row, with its subject, or is
    about the snapshot's subject. *)
Definition snapshot_subjects (subject : string) (d d' : db) : Prop :=
  ∀ i r, snapshots d' !! i = Some r →
    (∃ r0, snapshots d !! i = Some r0 ∧ ss_subject r = ss_subject r0) ∨ ss_subject r = subject.

Lemma store_subjects n writer payload now cid st stats d :
  snapshot_subjects (NSubject n) d (storeSnapshot n writer payload now cid st stats d).
Proof.
  intros i r. destruct cid as [id|]; simpl.
  - intros [[-> (r0 & Hr0 & ->)]|[_ Hr]]%lookup_alter_Some; left; eauto.
  - intros [[<- <-]|[_ Hr]]%lookup_insert_Some; [by right|left; eauto].
Qed.

Lemma ordering_subjects d n writer payload now cid :
  snapshot_subjects (NSubject n) d (applyFromOrdering d n writer payload now cid).2.
Proof.
  unfold JStore.applyFromOrdering. destruct (later d n); cbv zeta; [apply store_subjects|].
  destruct (_ && _); [apply store_subjects|]. intros i r. simpl.
  rewrite lookup_fmap. intros (r' & Hr' & ->)%fmap_Some.
  assert (Hp : snapshots (apply_plan d n writer) = snapshots d).
  { destruct (writePlan_tables scanner_version scanner_verdict sha256 sha256_hex rules (NType n)
      (NSubject n) (snapshot_source n writer) d (snapshot_input d n)
      (InCurrent (snapshot_input d n))) as (_ & _ & Hfr). apply Hfr. }
  assert (Hs : ∀ b : bool, ss_subject (if b then set_status Discarded (ss_stats r') r' else r') = ss_subject r')
    by (by intros []).
  rewrite Hs. apply (store_subjects n writer payload now cid Applied _ (apply_plan d n writer)) in Hr'.
  by rewrite Hp in Hr'.
Qed.

(** ** Every operation but an erase is one of four writes *)

Definition note_write (d : db) (now : Z) (writer : string) (n : NormNote) : db :=
  writePlan (NoType n) (NoSubject n) (note_source now writer n) (InCurrent (note_input d now n))
    (Diff (note_input d now n)) d.

Inductive write (ros : option Roster) (d : db) : db → Prop :=
| w_none : write ros d d
| w_discard id : write ros d (DiscardHeld d id).2
| w_snapshot n writer payload now cid :
    norm_ok n → banned d [NSubject n] = None → (cid = None → snapshots d !! NId n = None) →
    write ros d (applyFromOrdering d n writer payload now cid).2
| w_note n now writer :
    note_ok n → banned d [NoSubject n; NoOnBehalfOf n] = None → Has ros (NoOnBehalfOf n) = true →
    write ros d (note_write d now writer n).

(** A payload that validates yields a well-formed snapshot. *)
Definition validate_sound : Prop :=
  ∀ p received n, validate p received = Some (Ok n) → norm_ok n.

Lemma Grants_Has ros m gs : Grants ros m = Some gs → Has ros m = true.
Proof. destruct ros as [r|]; [|done]. simpl. intros H. apply declared_spec. by eexists. Qed.

Lemma lookup_none d id w t s : lookup_snapshot d id w t s = None → snapshots d !! id = None.
Proof. unfold lookup_snapshot. destruct (snapshots d !! id); [|done]. by destruct (negb _). Qed.

Lemma step_write d c :
  validate_sound → call_ok d c → is_erase c = false → write (c_roster c) d (step d c).
Proof.
  intros Hval [_ Hok] He. unfold step, is_erase in *.
  destruct (c_op c) as [w n p|id mw|id|w n|]; try done.
  - unfold JStore.Apply. destruct (lookup_snapshot _ _ _ _ _) eqn:Hl; [constructor|].
    destruct (banned _ _) eqn:Hb; [constructor|]. destruct (checkSubject _ _); [constructor|].
    constructor; [done|done|]. intros _. by apply lookup_none in Hl.
  - unfold JStore.ConfirmHeld. destruct (snapshots d !! id) as [r|]; [|constructor].
    destruct (negb _); [constructor|].
    destruct (validate _ _) as [[n|rej]|] eqn:Hv; [|constructor..].
    destruct (negb _); [constructor|]. destruct (mw _ _ _); [constructor|].
    destruct (banned _ _) eqn:Hb; [constructor|]. destruct (checkSubject _ _); [constructor|].
    pose proof (w_snapshot (c_roster c) d n (ss_writer r) (ss_payload r) (c_now c) (Some id)
      (Hval _ _ _ Hv) Hb ltac:(done)) as Hw.
    by destruct (applyFromOrdering _ _ _ _ _ _).
  - constructor.
  - unfold JStore.WriteNote. destruct (c_roster c) as [ros|]; [|constructor].
    destruct (banned _ _) eqn:Hb; [constructor|]. destruct (Grants _ _) as [gs|] eqn:Hg; [|constructor].
    destruct (_ && _); [constructor|]. destruct (negb _); [constructor|].
    unfold JStore.write_note. destruct (Stale _); [|destruct (_ && _ && _); constructor].
    destruct (Events _); [constructor|]. constructor; [done|done|]. by eapply Grants_Has.
Qed.

Lemma discard_same d id : same_history d (DiscardHeld d id).2 ∧ same_erasures d (DiscardHeld d id).2.
Proof. unfold DiscardHeld. destruct (snapshots d !! id); [|done]. by case_bool_decide. Qed.

Lemma IsErased_marker p j : IsErased p = true → IsErased (marker p j) = true.
Proof.
  unfold IsErased, marker. generalize ErasedPrefix as e. intros e. revert p.
  induction e as [|a e IH]; intros [|b p] H; try done. rewrite str_app_cons. simpl in *.
  apply andb_true_iff in H as [-> H]. by apply IH.
Qed.

Section good.
Context (types : list Type_) (Hreg : NewRegistry types = Some reg).
Context (sha256_injective : ∀ x y, sha256 x = sha256 y → x = y).

Context (right : string → string → Prop) (right_new : ∀ v, right v (scanNew scanner_verdict v)).
Context (all : Identity → Prop).

Local Abbreviation good := (good scanner_version sha256 reg right all).

Lemma apply_plan_good d n writer : norm_ok n → good d → good (apply_plan d n writer).
Proof.
  intros Hn Hg. eapply writePlan_good; [exact right_new|done|exact Hreg|by apply snapshot_plan_input|apply Hg|done|done].
Qed.

Lemma note_write_good d now writer n : note_ok n → good d → good (note_write d now writer n).
Proof.
  intros Hn Hg. unfold note_write. rewrite note_plan.
  eapply writePlan_good; [exact right_new|done|exact Hreg|by apply note_plan_input|apply Hg| |done].
  intros e He. rewrite (note_plan_keys _ _ _ _ He). apply note_input_row.
Qed.

Lemma write_good ros d d' : write ros d d' → good d → good d'.
Proof.
  intros Hw Hg. destruct Hw as [|id|n writer payload now cid Hn Hb _|n now writer Hn Hb Hm]; [done| | |].
  - eapply good_same; [apply discard_same|done].
  - destruct (ordering_cases d n writer payload now cid) as [(_ & _ & Hs & _)|(s & st & _ & _ & _ & Hs & _)].
    + eapply good_same; [exact Hs|]. by apply apply_plan_good.
    + by eapply good_same.
  - by apply note_write_good.
Qed.

Lemma erase_good ros actor subject p now d :
  IsErased p = true → keeps_all all subject p (notes_about (erase_rule1 subject d) subject) →
  fresh p 0 d → good d → good (Erase ros actor subject p now d).2.
Proof.
  intros Hp Ha Hf Hg. unfold Erase. destruct (ValidID subject) eqn:Hv; [|done]. simpl.
  destruct ros as [r|]; [|done].
  assert (H : good (eraseLocked r actor subject p now d).2).
  { apply (eraseLocked_good scanner_version sha256 reg right all); [|done..]. intros j ->. apply ValidID_not_erased in Hv.
    by rewrite IsErased_marker in Hv. }
  by destruct (eraseLocked r actor subject p now d).
Qed.

Lemma empty_good hs : good (empty_db hs).
Proof.
  split.
  - intros id r. simpl. by rewrite lookup_empty.
  - intros id r. simpl. by rewrite lookup_empty.
  - split; [constructor|split; [done|]]. intros e He. by apply elem_of_nil in He.
  - intros id. simpl. by rewrite lookup_empty.
Qed.

Definition spares_all (d : db) (c : call) : Prop :=
  match c_op c with
  | OErase _ s p => keeps_all all s p (notes_about (erase_rule1 s d) s)
  | _ => True
  end.

Lemma step_good d c : validate_sound → call_ok d c → spares_all d c → good d → good (step d c).
Proof.
  intros Hval Hok Ha Hg. unfold spares_all in Ha. destruct (is_erase c) eqn:He.
  - unfold step, is_erase in *. destruct Hok as [_ Hok]. destruct (c_op c); try done.
    destruct Hok. by apply erase_good.
  - eapply write_good; [by apply step_write|done].
Qed.

End good.

Lemma spares_every d c : spares_all (λ _, True) d c.
Proof. unfold spares_all. destruct (c_op c); [done..|]. by intros n j _ _. Qed.

(** Every text of every row carries the scanner's verdict on it. *)
Lemma reachable_good types d :
  NewRegistry types = Some reg → (∀ x y, sha256 x = sha256 y → x = y) → validate_sound → reachable d →
  good scanner_version sha256 reg (is_new scanner_verdict) (λ _, True) d.
Proof.
  intros Hreg Hsha Hval Hr. induction Hr; [apply empty_good|]. eapply step_good; try done; apply spares_every.
Qed.

(** ** Erased members *)

(** Nothing of the member is left, and the ban is in place. *)
Record no_trace (m : string) (d : db) : Prop := {
  nt_banned : m ∈ es_subject <$> erasures d;
  nt_rows : ∀ id, occurs d id → subject_of id ≠ m ∧ authored d m id = false;
  nt_snapshots : ∀ i r, snapshots d !! i = Some r → ss_subject r ≠ m;
  nt_reader : m ∉ rd_member <$> erasure_reader d;
}.

Lemma banned_none d members m :
  banned d members = None → m ∈ members → m ≠ ""%string → m ∉ es_subject <$> erasures d.
Proof.
  unfold banned. destruct (existsb _ members) eqn:E; [done|]. intros _ Hm Hne He.
  pose proof (proj1 (existsb_false _ _) E m Hm) as Hb. apply andb_false_iff in Hb as [Hb|Hb].
  - by apply negb_false_iff, String.eqb_eq in Hb.
  - apply list_elem_of_fmap in He as (e & -> & He).
    pose proof (proj1 (existsb_false _ _) Hb e He) as Hf. simpl in Hf. by rewrite String.eqb_refl in Hf.
Qed.

Lemma authored_false d m id :
  authored d m id = false ↔
  existsb (String.eqb (rt_of id)) (household_types d) = false ∨ split_part2 (key_of id) ≠ m.
Proof. unfold authored. by rewrite andb_false_iff, String.eqb_neq. Qed.

Lemma split_part2_note date m :
  no_char ":" date = true → no_char ":" m = true → split_part2 (date ++ ":" ++ m)%string = m.
Proof.
  intros Hd Hm. unfold split_part2.
  assert (split_on ":" (date ++ ":" ++ m)%string = [date; m]) as ->; [|done].
  assert ((":" ++ m)%string = String ":" m) as -> by done.
  rewrite (split_on_app ":" date) by done. by rewrite split_on_no_char.
Qed.

Lemma roster_member ros m : roster_loaded ros → Has ros m = true → ValidID m = true.
Proof.
  intros Hl Hm. destruct ros as [r|]; [|done]. destruct (Hl r eq_refl) as [doc Hdoc].
  simpl in Hm. apply declared_spec in Hm. by eapply parseV1_ids.
Qed.

Lemma ValidID_no_colon m : ValidID m = true → no_char ":" m = true ∧ m ≠ ""%string.
Proof.
  unfold ValidID. intros H. bool_to_prop. split.
  - rename select (all_chars _ _ = true) into Ha. revert Ha. clear. induction m as [|a m IH]; [done|].
    simpl. rewrite !andb_true_iff. intros [Ha Hm]. split; [|by apply IH].
    apply negb_true_iff, Ascii.eqb_neq. intros ->. done.
  - by intros ->.
Qed.

Lemma occurs_extends Q d d' id : extends Q d d' → occurs d' id → occurs d id ∨ Q id.
Proof.
  intros [(new & He & Hnew) _ Hc _ _] [Hr|Hev].
  - destruct (Hc id Hr); [left; by left|by right].
  - rewrite He, fmap_app in Hev. apply elem_of_app in Hev as [Hev|Hev]; [left; by right|].
    right. apply list_elem_of_fmap in Hev as (e & -> & Hin). rewrite Forall_forall in Hnew.
    by apply Hnew.
Qed.

Lemma no_trace_extends Q m d d' :
  no_trace m d → extends Q d d' → (∀ id, Q id → subject_of id ≠ m ∧ authored d m id = false) →
  (∀ i r, snapshots d' !! i = Some r → ss_subject r ≠ m) → no_trace m d'.
Proof.
  intros [H1 H2 H3 H4] Hext HQ Hs. destruct (ext_same _ _ _ Hext) as (E1 & E2 & E3 & E4).
  split; rewrite ?E1, ?E3; [done| |done|done].
  intros id Hid. unfold authored. rewrite E4.
  apply (occurs_extends Q d) in Hid as [Hid|Hid]; [by apply H2|by apply HQ|done].
Qed.

Lemma no_trace_same m d d' :
  no_trace m d → same_history d d' → same_erasures d d' →
  (∀ i r, snapshots d' !! i = Some r → ∃ i0 r0, snapshots d !! i0 = Some r0 ∧ ss_subject r = ss_subject r0) →
  no_trace m d'.
Proof.
  intros Hm Hs He Hss. apply (no_trace_extends (λ _, False) m d); [done|by apply extends_same|done|].
  intros i r (i0 & r0 & H0 & ->)%Hss. by eapply nt_snapshots.
Qed.

Lemma note_plan_events d now n :
  plan_events (note_input d now n) = plan_events (full_note_input d now n).
Proof. unfold plan_events. by rewrite note_plan. Qed.

(** A write never brings an erased member back. *)
Lemma write_no_trace ros d d' m :
  roster_loaded ros → types_synced d → m ≠ ""%string → write ros d d' → no_trace m d → no_trace m d'.
Proof.
  intros Hros Hsync Hne Hw Hm.
  destruct Hw as [|id|n writer payload now cid Hn Hb _|n now writer Hn Hb Hin]; [done| | |].
  - destruct (discard_same d id) as [Hs (E1 & E2 & E3 & E4)]. eapply no_trace_same; [exact Hm|exact Hs|done|].
    intros i r Hr. unfold DiscardHeld in Hr. destruct (snapshots d !! id) as [r0|] eqn:Hid; [|by eauto].
    case_bool_decide; [|by eauto]. simpl in Hr.
    apply lookup_insert_Some in Hr as [[<- <-]|[_ Hr]]; eauto.
  - assert (Hsub : NSubject n ≠ m).
    { intros E. eapply banned_none; [exact Hb|by left|by rewrite E|]. rewrite E. apply Hm. }
    assert (Hext : extends (λ id, id ∈ ev_id (NType n) (NSubject n) <$> plan_events (snapshot_input d n)) d
              (applyFromOrdering d n writer payload now cid).2).
    { destruct (ordering_cases d n writer payload now cid) as [(_ & _ & Hs & He)|(s & st & _ & _ & _ & Hs & He)].
      - eapply extends_after; [apply writePlan_extends|exact Hs|exact He].
      - by apply extends_same. }
    eapply no_trace_extends; [exact Hm|exact Hext| |].
    + intros id (e & -> & _)%list_elem_of_fmap. split; [done|]. apply authored_false. left.
      unfold ev_id, rt_of. simpl. rewrite Hsync by apply Hn. apply Hn.
    + intros i r Hr. apply ordering_subjects in Hr as [(r0 & H0 & ->)|E].
      * by eapply nt_snapshots.
      * by rewrite E.
  - assert (Hsub : NoSubject n ≠ m).
    { intros E. eapply banned_none; [exact Hb|by left|by rewrite E|]. rewrite E. apply Hm. }
    assert (Haut : NoOnBehalfOf n ≠ m).
    { intros E. eapply banned_none; [exact Hb|by right; left|by rewrite E|]. rewrite E. apply Hm. }
    eapply no_trace_extends; [exact Hm|apply writePlan_extends| |].
    + rewrite note_plan_events. intros id (e & -> & He)%list_elem_of_fmap. split; [done|].
      apply authored_false. right. unfold ev_id, key_of. simpl. rewrite (note_plan_keys _ _ _ _ He).
      destruct (ok_key n Hn) as (date & Hd & ->). rewrite split_part2_note; [done|done|].
      by apply ValidID_no_colon, (roster_member ros).
    + destruct (writePlan_tables scanner_version scanner_verdict sha256 sha256_hex rules (NoType n)
        (NoSubject n) (note_source now writer n) d (note_input d now n) (InCurrent (note_input d now n)))
        as (_ & _ & Hfr & _).
      unfold note_write. rewrite Hfr. apply Hm.
Qed.

(** Where the records that an erase leaves come from. *)
Definition survives (subject : string) (d d' : db) : Prop :=
  ∀ id, occurs d' id → ∃ id0, occurs d id0 ∧ authored d subject id0 = false ∧
    rt_of id = rt_of id0 ∧ key_of id = key_of id0 ∧ (id = id0 ∨ IsErased (subject_of id) = true).

Definition readers_from (subject : string) (d d' : db) : Prop :=
  ∀ r, r ∈ erasure_reader d' →
    rd_member r ≠ subject ∧
    (r ∈ erasure_reader d ∨ rd_member r ∉ es_subject <$> erasures d).

Lemma frozenReaders_spec ros subject erased n m :
  m ∈ frozenReaders ros subject erased n → m ≠ subject ∧ m ∉ erased.
Proof.
  unfold frozenReaders. rewrite elem_of_sorted_set, elem_of_app.
  intros [[_ Hc]%elem_of_bool_filter|Hm].
  - apply andb_true_iff in Hc as [[H1%negb_true_iff H2%negb_true_iff]%andb_true_iff _].
    split; [by apply String.eqb_neq|by eapply bool_decide_eq_false].
  - destruct (_ && _ && _) eqn:Hc; [|by apply elem_of_nil in Hm].
    apply list_elem_of_singleton in Hm as ->.
    apply andb_true_iff in Hc as [[H1%negb_true_iff H2%negb_true_iff]%andb_true_iff _].
    split; [by apply String.eqb_neq|by eapply bool_decide_eq_false].
Qed.

Record erase_left (subject : string) (d d' : db) : Prop := {
  el_survives : survives subject d d';
  el_readers : readers_from subject d d';
  el_erasures : erasures d' = erasures d;
  el_types : household_types d' = household_types d;
  el_snapshots : snapshots d' = snapshots d;
}.

Lemma rule1_left subject d : erase_left subject d (erase_rule1 subject d).
Proof.
  split; [| |done..].
  - intros id [Ho Ha]%occurs_rule1. exists id. split_and!; auto.
  - intros r Hr. unfold erase_rule1 in Hr. simpl in Hr.
    apply elem_of_bool_filter in Hr as [[Hr Hs]%elem_of_bool_filter _].
    split; [|by left]. by apply negb_true_iff, String.eqb_neq in Hs.
Qed.

Lemma keep_note_left d ros subject p k n d1 :
  IsErased p = true → IsErased subject = false →
  erase_left subject d d1 →
  erase_left subject d
    (keep_note subject (marker p (S k))
       (frozenReaders ros subject (es_subject <$> erasures (erase_rule1 subject d)) n) n d1).
Proof.
  intros Hp Hs [H1 H2 H3 H4 H5]. split; [| |done..].
  - intros id [[Ho _]|[[-> Ho]|E]]%occurs_keep_note; [by apply H1| |].
    + destruct (H1 _ Ho) as (id0 & H & Ha & Hrt & Hkey & _). exists id0. split_and!; [done..|].
      right. by apply IsErased_marker.
    + exfalso. injection E as E. rewrite E, IsErased_marker in Hs by done. done.
  - intros r [Hr|(m & -> & Hm)%list_elem_of_fmap]%elem_of_app; [by apply H2|]. simpl.
    apply frozenReaders_spec in Hm as [? ?]. split; [done|by right].
Qed.

Lemma eraseLocked_left ros actor subject p now d :
  IsErased p = true → ValidID subject = true → fresh p 0 d →
  let d' := (eraseLocked ros actor subject p now d).2 in
  survives subject d d' ∧ readers_from subject d d' ∧ (∀ id, occurs d' id → subject_of id ≠ subject) ∧
  erasures d' = erasures d ++ [mkErasure subject now actor] ∧ household_types d' = household_types d ∧
  (∀ i r, snapshots d' !! i = Some r → snapshots d !! i = Some r ∧ ss_subject r ≠ subject).
Proof.
  intros Hp Hv Hf. apply ValidID_not_erased in Hv.
  assert (Hsub : ∀ j, subject ≠ marker p j).
  { intros j ->. by rewrite IsErased_marker in Hv. }
  assert (H : erase_left subject d (keepNotes ros subject p (erase_rule1 subject d)).2).
  { unfold keepNotes. apply (keep_loop_inv _ _ _ _ Hsub (erase_left subject d)); [|by apply fresh_rule1|apply rule1_left].
    intros k n d1 _ _ Hl. by apply keep_note_left. }
  unfold eraseLocked. destruct (keepNotes _ _ _ _) as [kept d2]. simpl in H. destruct H as [H1 H2 H3 H4 H5].
  cbv zeta. simpl. split_and!.
  - intros id Ho. apply H1. by apply (occurs_delete (about subject) d2 id) in Ho as [? _].
  - done.
  - intros id Ho. apply (occurs_delete (about subject) d2 id) in Ho as [_ Ha].
    by apply String.eqb_neq in Ha.
  - by rewrite H3.
  - done.
  - intros i r [Hr Hs]%map_lookup_filter_Some. rewrite H5 in Hr. split; [done|].
    by apply String.eqb_neq in Hs.
Qed.

Lemma erase_left_authored subject d d' m id :
  survives subject d d' → household_types d' = household_types d → occurs d' id →
  (∀ id0, occurs d id0 → authored d m id0 = false) → authored d' m id = false.
Proof.
  intros Hs Ht Ho Ha. destruct (Hs id Ho) as (id0 & H0 & _ & Hrt & Hk & _).
  specialize (Ha id0 H0). unfold authored in *. by rewrite Ht, Hrt, Hk.
Qed.

(** An erase leaves nothing of the member. *)
Lemma erase_no_trace ros actor m p now d :
  IsErased p = true → ValidID m = true → fresh p 0 d →
  no_trace m (Erase (Some ros) actor m p now d).2.
Proof.
  intros Hp Hv Hf. destruct (eraseLocked_left ros actor m p now d Hp Hv Hf) as (H1 & H2 & H3 & H4 & H5 & H6).
  unfold Erase. rewrite Hv. simpl. destruct (eraseLocked ros actor m p now d) as [resp d']. simpl in *.
  split.
  - rewrite H4, fmap_app. apply elem_of_app. right. by left.
  - intros id Ho. split; [by apply H3|]. destruct (H1 id Ho) as (id0 & _ & Ha & Hrt & Hk & _).
    unfold authored in *. by rewrite H5, Hrt, Hk.
  - intros i r [_ Hr]%H6. done.
  - intros (r & E & Hr)%list_elem_of_fmap. destruct (H2 r Hr) as [Hne _]. congruence.
Qed.

(** Nor does the erase of another bring anything back. *)
Lemma erase_keeps_no_trace ros actor subject p now d m :
  IsErased p = true → ValidID m = true → fresh p 0 d → no_trace m d →
  no_trace m (Erase ros actor subject p now d).2.
Proof.
  intros Hp Hvm Hf Hm. unfold Erase. destruct (ValidID subject) eqn:Hv; [|done]. simpl.
  destruct ros as [ros|]; [|done].
  destruct (eraseLocked_left ros actor subject p now d Hp Hv Hf) as (H1 & H2 & _ & H4 & H5 & H6).
  destruct (eraseLocked ros actor subject p now d) as [resp d']. simpl in *.
  destruct Hm as [N1 N2 N3 N4]. split.
  - rewrite H4, fmap_app. apply elem_of_app. by left.
  - intros id Ho. split.
    + destruct (H1 id Ho) as (id0 & H0 & _ & _ & _ & [->|He]); [by apply N2|].
      intros <-. apply ValidID_not_erased in Hvm. congruence.
    + eapply erase_left_authored; [exact H1|exact H5|exact Ho|]. intros id0 H0. by apply N2.
  - intros i r [Hr _]%H6. by eapply N3.
  - intros (r & -> & Hr)%list_elem_of_fmap. destruct (H2 r Hr) as [_ [Hin|Hno]]; [|done].
    apply N4. by apply list_elem_of_fmap_2.
Qed.

(** ** Sequences of steps *)

Inductive steps : db → db → Prop :=
| steps_refl d : steps d d
| steps_more d c d' : call_ok d c → steps (step d c) d' → steps d d'.

Lemma write_same_types ros d d' : write ros d d' → same_erasures d d'.
Proof.
  intros Hw. destruct Hw as [|id|n writer payload now cid Hn Hb _|n now writer Hn Hb Hm]; [done| | |].
  - apply discard_same.
  - destruct (ordering_cases d n writer payload now cid) as [(_ & _ & _ & He)|(s & st & _ & _ & _ & _ & He)];
      [|done].
    pose proof (ext_same _ _ _ (writePlan_extends (NType n) (NSubject n) (snapshot_source n writer)
      (InCurrent (snapshot_input d n)) (snapshot_input d n) d)) as He'.
    unfold apply_plan in He. clear -He He'. unfold same_erasures in *. intuition congruence.
  - eapply ext_same, writePlan_extends.
Qed.

Lemma step_synced d c : validate_sound → call_ok d c → types_synced d → types_synced (step d c).
Proof.
  intros Hval Hok Hs. assert (household_types (step d c) = household_types d) as E.
  { destruct (is_erase c) eqn:He.
    - unfold step, is_erase in *. destruct Hok as [_ Hok]. destruct (c_op c) as [| | | |a m p]; try done.
      unfold Erase. destruct (ValidID m) eqn:Hv; [|done]. simpl. destruct (c_roster c) as [ros|]; [|done].
      destruct Hok as [Hp Hf]. destruct (eraseLocked_left ros a m p (c_now c) d Hp Hv Hf)
        as (_ & _ & _ & _ & E & _).
      by destruct (eraseLocked _ _ _ _ _ _).
    - pose proof (step_write d c Hval Hok He) as Hw. by apply write_same_types in Hw as (_ & _ & _ & ->). }
  intros t Ht. rewrite E. by apply Hs.
Qed.

Lemma reachable_synced d : validate_sound → reachable d → types_synced d.
Proof. intros Hval Hr. induction Hr; [done|]. by apply step_synced. Qed.

Lemma step_no_trace d c m :
  validate_sound → call_ok d c → types_synced d → ValidID m = true → no_trace m d →
  no_trace m (step d c).
Proof.
  intros Hval Hok Hs Hv Hm. destruct (is_erase c) eqn:He.
  - unfold step, is_erase in *. destruct Hok as [_ Hok]. destruct (c_op c); try done.
    destruct Hok. by apply erase_keeps_no_trace.
  - eapply write_no_trace; [apply Hok|done| |by apply step_write|done].
    by apply ValidID_no_colon in Hv as [_ ?].
Qed.

Lemma steps_no_trace d d' m :
  validate_sound → steps d d' → types_synced d → ValidID m = true → no_trace m d → no_trace m d'.
Proof.
  intros Hval Hst. induction Hst as [|d c d' Hok Hst IH]; [done|]. intros Hs Hv Hm.
  apply IH; [by apply step_synced|done|by apply step_no_trace].
Qed.

(** The steps that are not an erase. *)
Definition step_but_erase (d d' : db) : Prop :=
  ∃ c, call_ok d c ∧ is_erase c = false ∧ d' = step d c.

(** A stored snapshot keeps its identity. *)
Definition same_identity (r r' : snapshot_row) : Prop :=
  ss_writer r' = ss_writer r ∧ ss_type r' = ss_type r ∧ ss_scope r' = ss_scope r.

Definition keeps_snapshots (d d' : db) : Prop :=
  ∀ id r, snapshots d !! id = Some r → ∃ r', snapshots d' !! id = Some r' ∧ same_identity r r'.

Lemma store_keeps n writer payload now cid st stats d :
  (cid = None → snapshots d !! NId n = None) →
  keeps_snapshots d (storeSnapshot n writer payload now cid st stats d).
Proof.
  intros Hc id r Hr. destruct cid as [i|]; simpl.
  - destruct (decide (i = id)) as [->|Hne].
    + rewrite lookup_alter_eq, Hr. by eexists.
    + rewrite lookup_alter_ne by done. by exists r.
  - rewrite lookup_insert_ne; [by exists r|]. intros <-. rewrite Hc in Hr; done.
Qed.

Lemma keeps_discard n d d' : keeps_snapshots d d' → keeps_snapshots d (discard_older n d').
Proof.
  intros H id r (r' & Hr' & Hi)%H. simpl. rewrite lookup_fmap, Hr'. simpl. eexists. split; [done|].
  by destruct (_ && _ && _ && _).
Qed.

Lemma apply_plan_snapshots d n writer : snapshots (apply_plan d n writer) = snapshots d.
Proof.
  destruct (writePlan_tables scanner_version scanner_verdict sha256 sha256_hex rules (NType n)
    (NSubject n) (snapshot_source n writer) d (snapshot_input d n)
    (InCurrent (snapshot_input d n))) as (_ & _ & Hfr). apply Hfr.
Qed.

Lemma write_keeps_snapshots ros d d' : write ros d d' → keeps_snapshots d d'.
Proof.
  intros Hw. destruct Hw as [|id|n writer payload now cid Hn Hb Hc|n now writer Hn Hb Hm].
  - intros i r Hr. by exists r.
  - intros i r Hr. unfold DiscardHeld. destruct (snapshots d !! id) as [r0|] eqn:Hid; [|by exists r].
    case_bool_decide; [|by exists r]. simpl. destruct (decide (id = i)) as [->|Hne].
    + rewrite lookup_insert_eq. rewrite Hid in Hr. injection Hr as ->. by eexists.
    + rewrite lookup_insert_ne by done. by exists r.
  - unfold JStore.applyFromOrdering. destruct (later d n); cbv zeta; [by apply store_keeps|].
    destruct (_ && _) eqn:Hh.
    + apply store_keeps. intros _. apply Hc. apply andb_true_iff in Hh as [Hh _].
      by eapply bool_decide_eq_true.
    + apply keeps_discard. intros i r Hr.
      apply (store_keeps n writer payload now cid Applied _ (apply_plan d n writer));
        rewrite apply_plan_snapshots; done.
  - intros i r Hr. exists r. split; [|done]. unfold note_write.
    destruct (writePlan_tables scanner_version scanner_verdict sha256 sha256_hex rules (NoType n)
      (NoSubject n) (note_source now writer n) d (note_input d now n) (InCurrent (note_input d now n)))
      as (_ & _ & Hfr & _). by rewrite Hfr.
Qed.
Lemma extends_weaken (P Q : Identity → Prop) d d' :
  (∀ id, P id → Q id) → extends P d d' → extends Q d d'.
Proof.
  intros HPQ [(new & He & Hnew) H2 H3 H4 H5]. split; [|done| |done|done].
  - exists new. split; [done|]. eapply Forall_impl; [exact Hnew|]. intros e [? ?]. auto.
  - intros id Hid. destruct (H3 id Hid); auto.
Qed.

Lemma write_extends ros d d' : write ros d d' → extends (λ _, True) d d'.
Proof.
  intros Hw. destruct Hw as [|id|n writer payload now cid Hn Hb _|n now writer Hn Hb Hm].
  - apply extends_refl.
  - apply extends_same; apply discard_same.
  - destruct (ordering_cases d n writer payload now cid) as [(_ & _ & Hs & He)|(s & st & _ & _ & _ & Hs & He)].
    + eapply extends_after; [|exact Hs|exact He]. eapply extends_weaken; [|apply writePlan_extends]. done.
    + by apply extends_same.
  - eapply extends_weaken; [|apply writePlan_extends]. done.
Qed.

Lemma confirm_not_held d n w payload now id st :
  (applyFromOrdering d n w payload now (Some id)).1 ≠ Done SHeld st.
Proof. unfold JStore.applyFromOrdering. by destruct (later d n). Qed.

(** An accepted snapshot is stored under its id. *)
Lemma apply_stores d ros now w n payload s st d' :
  Apply d ros now w n payload = (Done s st, d') →
  ∃ r, snapshots d' !! NId n = Some r ∧ ss_writer r = w ∧ ss_type r = TName (NType n)
       ∧ ss_scope r = NScopeKey n.
Proof.
  unfold JStore.Apply, lookup_snapshot. destruct (snapshots d !! NId n) as [r|] eqn:Hr.
  - destruct (negb _) eqn:Hn; [done|]. intros [= _ _ <-]. apply negb_false_iff in Hn.
    apply andb_true_iff in Hn as [[H1%String.eqb_eq H2%String.eqb_eq]%andb_true_iff H3%String.eqb_eq].
    by exists r.
  - destruct (banned _ _); [done|]. destruct (checkSubject _ _); [done|].
    unfold JStore.applyFromOrdering. destruct (later d n).
    { intros [= _ _ <-]. simpl. rewrite lookup_insert_eq. by eexists. }
    destruct (_ && _); intros [= _ _ <-]; simpl.
    + rewrite lookup_insert_eq. by eexists.
    + rewrite lookup_fmap, lookup_insert_eq. simpl. eexists. split; [done|].
      by destruct (_ && _ && _ && _).
Qed.
End registry.
End journal.
