(* ===== verification/JValid.v ===== *)
(** What validation establishes (record/validate.go, fields.go): a validated
    snapshot or note is the sender's, field by field, and is what the
    journal's operations expect. *)
From S2P Require Import Prelude GoStrings GoTime StrOrder Utf8 JsonString JRecord JDiff JValue.
From S2P Require Import JRules JAccess JStore JErase JFold JJournal JValidate.
Local Open Scope Z_scope.

(** Takes the successful branch of the next match of a hypothesis that says
    the result is [Ok]. *)
Ltac ok_step H :=
  lazymatch type of H with
  | context [match ?x with _ => _ end] => destruct x eqn:?; try discriminate H
  end.

(** ** The versions of a type *)

Section registry.
Context (types : list Type_) (reg : Registry) (Hreg : NewRegistry types = Some reg).

Lemma versions_valid name t : t ∈ versions reg name → Validate t = true ∧ TName t = name.
Proof.
  revert Hreg. unfold NewRegistry. destruct (forallb Validate types) eqn:Hval; [|done].
  destruct (map_all _ _); [|done]. intros [= <-]. unfold versions.
  destruct (_ !! name) as [vs|] eqn:Hn; [|by intros ?%elem_of_nil]. cbn [default id].
  apply elem_of_list_to_map_2, list_elem_of_fmap in Hn as (nm & [= -> ->] & _).
  unfold versions_of. intros Ht. rewrite merge_sort_Permutation, list_elem_of_filter in Ht.
  destruct Ht as [Hname Ht].
  split; [|done]. by apply forallb_Forall, Forall_forall with (x := t) in Hval.
Qed.

Lemma active_member name t : Active reg name = Some t → t ∈ versions reg name.
Proof. apply last_Some_elem_of. Qed.

Lemma version_member name v t : Version_ reg name v = Some t → t ∈ versions reg name.
Proof. unfold Version_. destruct (v <? 1); [done|]. apply list_elem_of_lookup_2. Qed.

Lemma active_self name t : Active reg name = Some t → Active reg (TName t) = Some t.
Proof. intros Ht. by destruct (versions_valid name t (active_member _ _ Ht)) as [_ ->]. Qed.

Lemma chain_owner vs : ∀ n prev ever, chain_ok n prev ever vs = true → Forall (λ t, Owner t = Owner prev) vs.
Proof.
  induction vs as [|t vs IH]; intros n prev ever; [constructor|]. cbn [chain_ok].
  intros [[_ He]%andb_true_iff Hr]%andb_true_iff. unfold evolves in He. bool_to_prop.
  assert (Owner t = Owner prev) as E by (by apply String.eqb_eq). constructor; [done|].
  rewrite <- E. by eapply IH.
Qed.

Lemma same_owner name t t' : t ∈ versions reg name → t' ∈ versions reg name → Owner t = Owner t'.
Proof.
  destruct (NewRegistry_versions _ _ name Hreg) as [Hok _].
  destruct (versions reg name) as [|t0 vs]; [by intros ?%elem_of_nil|].
  cbn [versions_ok] in Hok. apply andb_true_iff in Hok as [_ Ho%chain_owner].
  assert (H : ∀ x, x ∈ t0 :: vs → Owner x = Owner t0).
  { intros x [->|Hx]%elem_of_cons; [done|]. rewrite Forall_forall in Ho. by apply Ho. }
  intros Ht Ht'. by rewrite (H t), (H t').
Qed.

Lemma name_chars_no_nul s : all_chars name_char s = true → no_nul s = true.
Proof.
  induction s as [|a s IH]; [done|]. cbn [all_chars]. intros [Ha Hs]%andb_true_iff.
  unfold no_nul in *. cbn [no_char]. rewrite IH by done. rewrite andb_true_r.
  apply negb_true_iff, Ascii.eqb_neq. intros ->. done.
Qed.

Lemma valid_name_no_nul s : ValidName s = true → no_nul s = true.
Proof.
  unfold ValidName. destruct s as [|a s]; [done|]. cbn [name_upto].
  intros [[Ha Hs]%andb_true_iff _]%andb_true_iff. apply name_chars_no_nul. cbn [all_chars].
  rewrite Hs. unfold name_char. by rewrite Ha.
Qed.

Lemma declared_name name t k : t ∈ versions reg name → is_Some (TFields t !! k) → no_nul k = true.
Proof.
  intros [Hv _]%versions_valid [d Hd]. unfold Validate in Hv. bool_to_prop.
  rename select (map_all _ (TFields t) = true) into Hf. rewrite map_all_spec in Hf.
  apply valid_name_no_nul. specialize (Hf k d Hd). by apply andb_true_iff in Hf as [? _].
Qed.

(** Forward carries each value of declared fields to its current name. *)
Lemma forward_lookup name v t f k c :
  Version_ reg name v = Some t → (∀ a, is_Some (f !! a) → is_Some (TFields t !! a)) →
  Forward reg name v f !! k = Some c ↔
  ∃ a, ForwardName reg name v a = k ∧ f !! a = Some c.
Proof.
  intros Hv Hf. unfold Forward. set (fwd := ForwardName reg name v).
  assert (Hinj : ∀ a b c c', f !! a = Some c → f !! b = Some c' → fwd a = fwd b → a = b).
  { intros a b x y Ha Hb. destruct (registry_chain _ _ _ _ _ Hreg Hv) as (ever & Hc & Hch).
    assert (He : ∀ a x, f !! a = Some x → is_Some (ever !! a)).
    { intros a' x' Hx. destruct (Hf a' ltac:(by eexists)) as [d Hd]. eexists. by apply Hc. }
    eapply forward_injective; [exact Hch|by eapply He..]. }
  set (moved := (λ p, (fwd p.1, p.2)) <$> filter (λ p, fwd p.1 ≠ p.1) (map_to_list f)).
  assert (Hm : ∀ k c, (k, c) ∈ moved ↔ ∃ a, fwd a = k ∧ a ≠ k ∧ f !! a = Some c).
  { intros k' c'. unfold moved. rewrite list_elem_of_fmap. split.
    - intros ([a x] & [= -> ->] & [Hne Hin%elem_of_map_to_list]%list_elem_of_filter). exists a.
      split_and!; [done| |done]. simpl in Hne. congruence.
    - intros (a & <- & Hne & Ha). exists (a, c'). split; [done|]. apply list_elem_of_filter.
      split; [simpl; congruence|by apply elem_of_map_to_list]. }
  assert (Hl : ∀ x y, list_to_map (M := Fields) moved !! x = Some y ↔ (x, y) ∈ moved).
  { intros x y. split; [apply elem_of_list_to_map_2|]. intros Hin. apply elem_of_list_to_map_1'; [|done].
    intros c2 Hc2. apply Hm in Hin as (a & <- & _ & Ha), Hc2 as (b & Eb & _ & Hb).
    rewrite (Hinj b a _ _ Hb Ha Eb) in Hb. congruence. }
  assert (Hn : list_to_map (M := Fields) moved !! k = None → ∀ a, fwd a = k → is_Some (f !! a) → a = k).
  { intros Hnone a Ha [x Hx]. destruct (decide (a = k)) as [->|Hne]; [done|].
    assert (Hin : (k, x) ∈ moved) by (apply Hm; by exists a). apply Hl in Hin. congruence. }
  rewrite lookup_union_Some_raw. split.
  - intros [Hk|[_ [Hk He]%map_lookup_filter_Some]].
    + apply Hl, Hm in Hk as (a & ? & _ & ?). by exists a.
    + by exists k.
  - intros (a & Ha & Hc). destruct (decide (a = k)) as [->|Hne].
    + right. split; [|by apply map_lookup_filter_Some].
      apply eq_None_not_Some. intros [x Hx]. apply Hl, Hm in Hx as (b & Eb & Hb & Hx).
      apply Hb. apply (Hinj b k _ _ Hx Hc). by rewrite Eb, Ha.
    + left. apply Hl, Hm. by exists a.
Qed.
End registry.

(** ** Fields *)

Section fields.
Context (float_text timestamp_text : string → option string).
Local Abbreviation NormalizeValue := (NormalizeValue float_text timestamp_text).
Local Abbreviation normalize_names := (normalize_names float_text timestamp_text).
Local Abbreviation NormalizeFields := (NormalizeFields float_text timestamp_text).

(** The value of a field, normalised by the type its version declares. *)
Definition normal_value (t : Type_) (inp : Fields) (k c : string) : Prop :=
  ∃ def raw, TFields t !! k = Some def ∧ inp !! k = Some raw ∧ NormalizeValue (FType def) raw = Ok (Some c).

Lemma normalize_names_spec t inp names : ∀ out o,
  NoDup names → (∀ k, k ∈ names → is_Some (inp !! k) ∧ out !! k = None) →
  normalize_names t inp names out = Ok o →
  (∀ k c, o !! k = Some c ↔ (k ∈ names ∧ normal_value t inp k c) ∨ out !! k = Some c) ∧
  ∀ k, k ∈ names → is_Some (TFields t !! k).
Proof.
  induction names as [|n names IH]; intros out o Hnd Hin; cbn [JValue.normalize_names].
  { intros [= <-]. split; [|by intros k ?%elem_of_nil]. intros k c. split; [by right|].
    intros [[Hk _]|Hk]; [by apply elem_of_nil in Hk|done]. }
  apply NoDup_cons in Hnd as [Hn Hnd]. destruct (TFields t !! n) as [def|] eqn:Hdef; [|done].
  destruct (Hin n ltac:(left)) as [[raw Hraw] Hout]. rewrite Hraw. cbn [default id].
  destruct (NormalizeValue (FType def) raw) as [v|] eqn:Hv; [|done]. intros H.
  assert (Hstep : ∃ out', normalize_names t inp names out' = Ok o ∧
    (∀ k c, out' !! k = Some c ↔ (k = n ∧ v = Some c) ∨ out !! k = Some c)).
  { destruct v as [v|]; eexists; (split; [exact H|]); intros k c.
    - rewrite lookup_insert_Some. split; [naive_solver|].
      intros [[-> [= ->]]|Hk]; [by left|]. destruct (decide (n = k)); [|by right]. naive_solver.
    - naive_solver. }
  destruct Hstep as (out' & Ho & Hout'). destruct (IH out' o Hnd) as [H1 H2]; [|done|].
  - intros k Hk. destruct (Hin k ltac:(by right)) as [? Hnone]. split; [done|].
    apply eq_None_not_Some. intros [c [[-> _]|?]%Hout']; [done|]. congruence.
  - split.
    + intros k c. rewrite H1, Hout', elem_of_cons.
      assert (Hnv : normal_value t inp n c ↔ v = Some c).
      { split; [intros (d & r & Hd & Hr & Hc); congruence|]. intros ->. by exists def, raw. }
      clear -Hnv. destruct (decide (k = n)) as [->|]; [rewrite Hnv|]; tauto.
    + intros k [->|Hk]%elem_of_cons; [by eexists|by apply H2].
Qed.

(** NormalizeFields keeps each field's normalised value, and nothing else;
    every name is declared and every required field has a value. *)
Lemma normalize_fields_spec t inp o :
  NormalizeFields t inp = Ok o →
  (∀ k c, o !! k = Some c ↔ normal_value t inp k c) ∧
  (∀ k, is_Some (inp !! k) → is_Some (TFields t !! k)) ∧
  ∀ k def, TFields t !! k = Some def → FRequired def = true → is_Some (o !! k).
Proof.
  unfold JValue.NormalizeFields.
  destruct (normalize_names t inp (sorted_keys inp) ∅) as [out|] eqn:Hn; [|done].
  destruct (map_all _ _) eqn:Hreq; [|done]. intros [= <-].
  apply normalize_names_spec in Hn as [H1 H2]; [|apply sorted_keys_NoDup|].
  - split_and!.
    + intros k c. rewrite H1, lookup_empty, elem_of_sorted_keys.
      split; [by intros [[_ ?]|?]|]. intros Hk. left. split; [|done]. destruct Hk as (? & raw & _ & Hraw & _). by exists raw.
    + intros k Hk. by apply H2, elem_of_sorted_keys.
    + intros k def Hk Hr. rewrite map_all_spec in Hreq. specialize (Hreq k def Hk).
      rewrite Hr in Hreq. by apply declared_spec.
  - intros k Hk%elem_of_sorted_keys. by rewrite lookup_empty.
Qed.
End fields.

(** ** Snapshots *)

Lemma NormalizeAudience_ok l a :
  NormalizeAudience l = Ok a →
  l ≠ [] ∧ (length l ≤ MaxAudienceTokens)%nat ∧ Forall (λ x, ValidToken x = true) l ∧ a = sorted_set l.
Proof.
  unfold NormalizeAudience. intros H. do 3 ok_step H. injection H as <-.
  rename select ((length l =? 0)%nat = false) into H0. rename select ((_ <? length l)%nat = false) into H1.
  apply Nat.ltb_ge in H1. apply Nat.eqb_neq in H0. split_and!; [by intros ->|done| |done].
  by apply forallb_Forall, negb_false_iff.
Qed.

Section snapshots.
Context (uuid_parse : string → option string) (float_text timestamp_text : string → option string).
Context (sha256 : string → string) (types : list Type_) (reg : Registry).
Context (Hreg : NewRegistry types = Some reg).

Local Abbreviation normal_value := (normal_value float_text timestamp_text).
Local Abbreviation validate_record := (validate_record float_text timestamp_text sha256 reg).
Local Abbreviation validate_records := (validate_records float_text timestamp_text sha256 reg).
Local Abbreviation ValidateSnapshot := (ValidateSnapshot uuid_parse float_text timestamp_text sha256 reg).
Local Abbreviation ValidateNote := (ValidateNote float_text timestamp_text sha256 reg).

(** The audience a record asks for: its own, else its type's default. *)
Definition asked (active : Type_) (w : SnapRecord) : list string :=
  if (length (RAudience w) =? 0)%nat then DefaultAudience active else RAudience w.

(** What a validated record keeps of the one sent in version [t]. *)
Record record_kept (t active : Type_) (subject : string) (w : SnapRecord) (r : NormRecord) : Prop := {
  rk_key : NKey r = RKey w;
  rk_subject : NDataSubject r = subject;
  rk_audience : NAudience r = sorted_set (asked active w) ∧ asked active w ≠ [];
  rk_tokens : Forall (λ x, ValidToken x = true) (NAudience r);
  rk_fields : ∀ k c, NFields r !! k = Some c ↔
    ∃ a, ForwardName reg (TName t) (SchemaVersion t) a = k ∧ normal_value t (RFields w) a c;
  rk_declared : ∀ k, is_Some (NFields r !! k) → is_Some (TFields active !! k);
  rk_hash : NHash r = Hash sha256 (NFields r);
}.

Definition default_audience (active : Type_) : option (list string) :=
  match NormalizeAudience (DefaultAudience active) with Ok a => Some a | Err _ => None end.

Lemma asked_audience active w a :
  (match default_audience active with
   | Some a => if (length (RAudience w) =? 0)%nat then Ok a else NormalizeAudience (RAudience w)
   | None => NormalizeAudience (RAudience w)
   end) = Ok a → NormalizeAudience (asked active w) = Ok a.
Proof.
  unfold default_audience, asked. destruct (length (RAudience w) =? 0)%nat eqn:E.
  - destruct (NormalizeAudience (DefaultAudience active)); [done|]. unfold NormalizeAudience at 1.
    by rewrite E.
  - by destruct (NormalizeAudience (DefaultAudience active)).
Qed.

Lemma version_schema name v t : Version_ reg name v = Some t → Version_ reg (TName t) (SchemaVersion t) = Some t.
Proof.
  intros Hv. pose proof (version_member _ _ _ _ Hv) as Hin.
  destruct (versions_valid _ _ Hreg _ _ Hin) as [_ ->].
  destruct (NewRegistry_versions _ _ name Hreg) as [Hok _]. unfold Version_ in *.
  destruct (Z.ltb_spec v 1); [done|].
  assert (Hn : SchemaVersion t = v); [|rewrite Hn; by destruct (Z.ltb_spec v 1); [lia|]].
  destruct (versions reg name) as [|t0 vs]; [done|]. cbn [versions_ok] in Hok.
  apply andb_true_iff in Hok as [H1%Z.eqb_eq Hc].
  assert (Hch : ∀ vs n prev ever i u, chain_ok n prev ever vs = true → vs !! i = Some u →
    SchemaVersion u = n + Z.of_nat i).
  { clear. induction vs as [|x vs IH]; intros n prev ever [|i] u; cbn [chain_ok]; [done..| |];
      intros [[Hx%Z.eqb_eq _]%andb_true_iff Hr]%andb_true_iff Hi.
    - injection Hi as <-. lia.
    - rewrite (IH _ _ _ _ _ Hr Hi). lia. }
  destruct (Z.to_nat (v - 1)) as [|i] eqn:Hi.
  - injection Hv as <-. lia.
  - rewrite (Hch _ _ _ _ _ _ Hc Hv). lia.
Qed.

Lemma validate_record_kept name v t active subject seen w r :
  Version_ reg name v = Some t →
  validate_record t active subject (default_audience active) seen w = Ok r →
  record_kept t active subject w r ∧ RKey w ∉ seen.
Proof.
  intros Hv. unfold JValidate.validate_record. destruct (_ || badText _); [done|].
  destruct (String.eqb_spec (RDataSubject w) subject) as [Hs|]; [|done]. cbn [negb].
  destruct (existsb _ seen) eqn:Hseen; [done|].
  match goal with |- match ?x with _ => _ end = _ → _ => destruct x as [aud|] eqn:Ha; [|done] end.
  apply asked_audience, NormalizeAudience_ok in Ha as (Hne & _ & Htok & ->).
  destruct (NormalizeFields _ _ t (RFields w)) as [f0|] eqn:Hf; [|done]. cbv zeta.
  destruct (negb (map_all _ _)) eqn:Hd; [done|]. intros [= <-].
  apply normalize_fields_spec in Hf as (Hf & Hdecl & _).
  apply negb_false_iff in Hd. rewrite map_all_spec in Hd. split.
  - split; cbn [NKey NDataSubject NAudience NFields NHash]; [done..| | | |done].
    + rewrite Forall_forall in Htok. apply Forall_forall. intros x Hx. by apply Htok, elem_of_sorted_set.
    + intros k c. rewrite (forward_lookup _ _ Hreg _ _ t) by
        (done || (intros a [x (d & raw & Hd' & _)%Hf]; by eexists) || by eapply version_schema).
      by setoid_rewrite Hf.
    + intros k [c Hk]. by apply declared_spec, (Hd k c).
  - intros Hin. rewrite existsb_false in Hseen. specialize (Hseen _ Hin). by rewrite String.eqb_refl in Hseen.
Qed.

Lemma validate_records_kept name v t active subject recs : ∀ seen l,
  Version_ reg name v = Some t →
  validate_records t active subject (default_audience active) seen recs = Ok l →
  Forall2 (record_kept t active subject) recs l ∧ NoDup (NKey <$> l) ∧
  ∀ r, r ∈ l → NKey r ∉ seen.
Proof.
  induction recs as [|w recs IH]; intros seen l Hv; cbn [JValidate.validate_records].
  { intros [= <-]. split_and!; [constructor|constructor|]. intros r Hr. by apply elem_of_nil in Hr. }
  destruct (validate_record _ _ _ _ _ _) as [r|] eqn:Hr; [|done].
  destruct (validate_records _ _ _ _ _ _) as [l'|] eqn:Hl; [|done]. intros [= <-].
  apply validate_record_kept with (name := name) (v := v) in Hr as [Hk Hns]; [|done].
  destruct (IH _ _ Hv Hl) as (H1 & H2 & H3). pose proof (rk_key _ _ _ _ _ Hk) as Hkey. split_and!.
  - by constructor.
  - rewrite fmap_cons. constructor; [|done]. intros (r' & E & Hin)%list_elem_of_fmap.
    apply (H3 r' Hin). rewrite <- E, Hkey. left.
  - intros r' [->|Hin]%elem_of_cons; [by rewrite Hkey|]. intros Hs. apply (H3 r' Hin). by right.
Qed.

(** What a validated snapshot keeps of the one sent. *)
Record snapshot_kept (s : Snapshot) (now : Z) (n : Normalized) : Prop := {
  sk_id : uuid_parse (SSnapshotID s) = Some (NId n);
  sk_type : Active reg (SRecordType s) = Some (NType n);
  sk_source : Owner (NType n) ≠ OwnerHousehold;
  sk_scope : ParseScope (SScope s) = Ok (NScope n) ∧ NScopeKey n = Canonical (NScope n)
             ∧ NSubject n = Subject (NScope n);
  sk_owner : Source (NScope n) = Owner (NType n);
  sk_about : NSubject n ≠ ""%string ∨ AllowNoSubject (NType n) = true;
  sk_complete : NComplete n = SComplete s ∧ NApproximate n = SApproximate s;
  sk_time : NObservedAt n = SObservedAt s ∧ SObservedAt s ≤ now + MaxFutureSkew
            ∧ year_0000 ≤ SObservedAt s < year_10000;
  sk_range : ∀ r, NRange n = Some r →
    SComplete s = true ∧ field_type (TFields (NType n)) (RField r) = Some TDate
    ∧ ValidDate (RFrom r) = true ∧ ValidDate (RTo r) = true ∧ String.leb (RFrom r) (RTo r) = true;
  sk_count : (length (SRecords s) ≤ MaxRecords)%nat;
  sk_records : ∃ t, Version_ reg (SRecordType s) (SSchemaVersion s) = Some t
    ∧ Forall2 (record_kept t (NType n) (NSubject n)) (SRecords s) (NRecords n);
  sk_keys : NoDup (NKey <$> NRecords n);
}.

Lemma validate_range_kept t active s o :
  validate_range reg t active s = Ok o → ∀ r, o = Some r →
    SComplete s = true ∧ field_type (TFields active) (RField r) = Some TDate
    ∧ ValidDate (RFrom r) = true ∧ ValidDate (RTo r) = true ∧ String.leb (RFrom r) (RTo r) = true.
Proof.
  unfold validate_range. intros H r ->. ok_step H. cbv zeta in H. do 5 ok_step H. injection H as <-.
  bool_to_prop. split_and!; try done. by eapply bool_decide_eq_true.
Qed.

Lemma validate_snapshot_kept s now n : ValidateSnapshot s now = Ok n → snapshot_kept s now n.
Proof.
  unfold JValidate.ValidateSnapshot. intros H. ok_step H. do 5 ok_step H.
  do 6 ok_step H. do 2 ok_step H. injection H as <-.
  rename select (Active _ _ = Some _) into Ha. rename select (Version_ _ _ _ = Some _) into Hv.
  rename select (validate_range _ _ _ _ = _) into Hr. rename select (validate_records _ _ _ _ _ _ = _) into Hl.
  apply validate_records_kept with (name := SRecordType s) (v := SSchemaVersion s) in Hl as (Hl & Hk & _);
    [|done].
  bool_to_prop.
  split; cbn [NId NType NScope NScopeKey NSubject NComplete NApproximate NObservedAt NRange NRecords]; try done.
  - pose proof (same_owner _ _ Hreg _ _ _ (version_member _ _ _ _ Hv) (active_member _ _ _ Ha)) as E.
    rename select (Household _ = false) into Hh. unfold Household in Hh. apply String.eqb_neq in Hh. congruence.
  - by apply String.eqb_eq.
  - rename select (_ && negb (AllowNoSubject _) = false) into Hs. apply andb_false_iff in Hs as [Hs|Hs].
    + left. by apply String.eqb_neq.
    + right. by apply negb_false_iff.
  - rename select (in_years _ = true) into Hy. unfold in_years in Hy. bool_to_prop.
    rename select (after _ _ = false) into Hf. unfold after in Hf. bool_to_prop. lia.
  - by eapply validate_range_kept.
  - by apply Nat.ltb_ge.
  - eexists. by split.
Qed.

(** ** The journal's inputs *)

Context (Hplain : texts_plain float_text timestamp_text).

Lemma normal_value_content t inp k c : normal_value t inp k c → c ≠ ""%string ∧ no_nul c = true.
Proof. intros (d & raw & _ & _ & Hc). by eapply normalize_value_content. Qed.

Lemma content_of t name f :
  t ∈ versions reg name → (∀ k, is_Some (f !! k) → is_Some (TFields t !! k)) →
  (∀ k c, f !! k = Some c → c ≠ ""%string ∧ no_nul c = true) → content_ok f.
Proof.
  intros Ht Hd Hf. split; intros k c Hk; destruct (Hf k c Hk) as [H1 H2]; [done|].
  split; [|done]. eapply declared_name; [exact Hreg|exact Ht|]. apply Hd. by eexists.
Qed.

Lemma canonical_set sc k : ParseScope sc = Ok k → Canonical k ≠ ""%string.
Proof.
  unfold ParseScope. destruct sc as [|p l]; [done|]. destruct (_ || _); [done|].
  destruct (scope_parts_ok _ _ _); [|done]. intros [= <-] E.
  unfold Canonical, canonical_part in E. rewrite fmap_cons in E. destruct p as [a b].
  destruct l as [|q l]; cbn in E; by destruct (EscapeScopeValue a).
Qed.

(** A validated snapshot is what the store expects. *)
Lemma validate_snapshot_norm s now n : ValidateSnapshot s now = Ok n → norm_ok sha256 reg n.
Proof.
  intros H%validate_snapshot_kept. pose proof (sk_scope _ _ _ H) as (Hsc & Hkey & _).
  pose proof (active_member _ _ _ (sk_type _ _ _ H)) as Hact.
  destruct (sk_records _ _ _ H) as (t & Ht & Hrs). split.
  - eapply active_self; [exact Hreg|apply (sk_type _ _ _ H)].
  - apply String.eqb_neq, (sk_source _ _ _ H).
  - rewrite Hkey. by eapply canonical_set.
  - apply (sk_keys _ _ _ H).
  - intros r Hr. apply list_elem_of_lookup in Hr as [i Hi].
    destruct (Forall2_lookup_r _ _ _ _ _ Hrs Hi) as (w & _ & Hw). split; [|apply Hw].
    eapply content_of; [exact Hact|apply Hw|]. intros k c Hc.
    apply (rk_fields _ _ _ _ _ Hw) in Hc as (a & _ & Ha). by eapply normal_value_content.
Qed.

Lemma digit_not_colon a v : digit a = Some v → Ascii.eqb a ":" = false.
Proof. intros H. apply Ascii.eqb_neq. intros ->. vm_compute in H. discriminate. Qed.

Lemma date_no_colon s : ValidDate s = true → no_char ":" s = true.
Proof.
  intros Hs. destruct (ValidDate_date s Hs) as [r Hr].
  destruct (date_of_text s r Hr) as (l & a & b & c & d & e & f & g & i & El & -> & Hl).
  rewrite <- (String.string_of_list_ascii_of_string s), El.
  assert (Hn : ∀ x, x ∈ [a; b; c; d; e; f; g; i] → Ascii.eqb x ":" = false).
  { intros x Hx. rewrite Forall_forall in Hl. destruct (Hl x Hx) as [v Hv]. by eapply digit_not_colon. }
  cbn [String.string_of_list_ascii no_char].
  rewrite (Hn a), (Hn b), (Hn c), (Hn d), (Hn e), (Hn f), (Hn g), (Hn i) by (repeat (left || right)). done.
Qed.

(** A validated note is what the store expects. *)
Lemma validate_note_ok inp n : ValidateNote inp = Ok n → note_ok sha256 reg n.
Proof.
  unfold JValidate.ValidateNote. intros H. do 10 ok_step H. injection H as <-. bool_to_prop.
  rename select (Active _ _ = Some _) into Ha. rename select (NormalizeFields _ _ _ _ = Ok _) into Hf.
  apply normalize_fields_spec in Hf as (Hf & _ & _).
  split; cbn [NoType NoScope NoSubject NoKey NoFields NoHash NoOnBehalfOf]; [|done|done| | |done].
  - by eapply active_self.
  - eexists. split; [|done]. by apply date_no_colon.
  - eapply content_of; [by eapply active_member| |].
    + intros k [c (d & raw & Hd & _)%Hf]. by eexists.
    + intros k c Hc%Hf. by eapply normal_value_content.
Qed.
End snapshots.

(** ** Refusals

    A refusal by validation is permanent: the sender's spool moves the file
    away on 413 and 422 and retries on nothing else validation answers. *)
Definition permanent (e : Rejection) : Prop := RStatus e = 413 ∨ RStatus e = 422.

Definition refuses {A} (r : res Rejection A) : Prop := ∀ e, r = Err e → permanent e.

Lemma refuses_ok {A} (a : A) : refuses (Ok a).
Proof. done. Qed.
Lemma refuses_schema {A} : refuses (A := A) (Err schemaErr).
Proof. intros e [= <-]. by right. Qed.
Lemma refuses_large {A} : refuses (A := A) (Err tooLarge).
Proof. intros e [= <-]. by left. Qed.
Lemma refuses_future {A} : refuses (A := A) (Err futureErr).
Proof. intros e [= <-]. by right. Qed.
Lemma refuses_duplicate {A} : refuses (A := A) (Err duplicateErr).
Proof. intros e [= <-]. by right. Qed.
Lemma refuses_pass {A B} (r : res Rejection A) e : refuses r → r = Err e → refuses (A := B) (Err e).
Proof. intros H -> e' [= <-]. by apply H. Qed.

Create HintDb refusals.
#[export] Hint Resolve refuses_ok refuses_schema refuses_large refuses_future refuses_duplicate : refusals.

(** Every branch of an operation refuses permanently. *)
Ltac refusals :=
  repeat (match goal with |- refuses (match ?x with _ => _ end) => destruct x eqn:? end);
  eauto using refuses_pass with refusals.

Lemma ParseScope_refuses l : refuses (ParseScope l).
Proof. unfold ParseScope. refusals. Qed.
Lemma NormalizeAudience_refuses l : refuses (NormalizeAudience l).
Proof. unfold NormalizeAudience. refusals. Qed.
Lemma checkString_refuses t s : refuses (checkString t s).
Proof. unfold checkString. cbv zeta. refusals. Qed.
#[export] Hint Resolve ParseScope_refuses NormalizeAudience_refuses checkString_refuses : refusals.
Lemma check_items_refuses l : refuses (check_items l).
Proof. induction l as [|[s|] l IH]; cbn [check_items]; refusals. Qed.
#[export] Hint Resolve check_items_refuses : refusals.
Lemma string_value_refuses t v : refuses (string_value t v).
Proof. unfold string_value. refusals. Qed.
Lemma list_value_refuses v : refuses (list_value v).
Proof. unfold list_value. refusals. Qed.
Lemma or_schema_refuses o : refuses (or_schema o).
Proof. unfold or_schema. refusals. Qed.
#[export] Hint Resolve string_value_refuses list_value_refuses or_schema_refuses : refusals.

Section refusals.
Context (uuid_parse : string → option string) (float_text timestamp_text : string → option string).
Context (sha256 : string → string) (types : list Type_) (reg : Registry).

Lemma NormalizeValue_refuses t raw : refuses (NormalizeValue float_text timestamp_text t raw).
Proof. unfold NormalizeValue. cbv zeta. refusals. Qed.

Lemma normalize_names_refuses t inp names : ∀ out,
  refuses (normalize_names float_text timestamp_text t inp names out).
Proof.
  pose proof NormalizeValue_refuses.
  induction names as [|n names IH]; intros out; cbn [normalize_names]; refusals.
Qed.

Lemma NormalizeFields_refuses t inp : refuses (NormalizeFields float_text timestamp_text t inp).
Proof. pose proof normalize_names_refuses. unfold NormalizeFields. refusals. Qed.

Lemma validate_range_refuses t active s : refuses (validate_range reg t active s).
Proof. unfold validate_range. cbv zeta. refusals. Qed.

Lemma validate_record_refuses t active subject aud seen w :
  refuses (validate_record float_text timestamp_text sha256 reg t active subject aud seen w).
Proof.
  pose proof NormalizeFields_refuses. unfold validate_record. cbv zeta.
  assert (refuses (match aud with
    | Some a => if (length (RAudience w) =? 0)%nat then Ok a else NormalizeAudience (RAudience w)
    | None => NormalizeAudience (RAudience w)
    end)) by refusals.
  refusals.
Qed.

Lemma validate_records_refuses t active subject aud recs : ∀ seen,
  refuses (validate_records float_text timestamp_text sha256 reg t active subject aud seen recs).
Proof.
  pose proof validate_record_refuses.
  induction recs as [|w recs IH]; intros seen; cbn [validate_records]; refusals.
Qed.

Lemma ValidateSnapshot_refuses s now :
  refuses (ValidateSnapshot uuid_parse float_text timestamp_text sha256 reg s now).
Proof.
  pose proof validate_records_refuses. pose proof validate_range_refuses.
  unfold ValidateSnapshot. cbv zeta. refusals.
Qed.
End refusals.

(** C39. A snapshot that validation accepts is stored as it was sent: its
    type is the active version of the type named, its scope the parts sent,
    written by the type's own source and never a household type, observed
    at most ten minutes ahead of the clock; its records are those sent, in
    order, with distinct keys, one subject and a sorted audience of valid
    tokens, and a record's field k holds c exactly when the sender's version
    declares a field that was renamed to k and whose normalised value is c,
    so renames neither lose, merge nor invent a value.  A range names a date
    field of the active version.  Every refusal is one the sender's spool
    treats as permanent. *)
Theorem validate_snapshot_exact uuid_parse float_text timestamp_text sha256 types reg s now :
  NewRegistry types = Some reg →
  match ValidateSnapshot uuid_parse float_text timestamp_text sha256 reg s now with
  | Ok n => snapshot_kept uuid_parse float_text timestamp_text sha256 reg s now n
  | Err e => permanent e
  end.
Proof.
  intros Hreg. destruct (ValidateSnapshot _ _ _ _ _ _ _) as [n|e] eqn:H.
  - by eapply validate_snapshot_kept.
  - by eapply ValidateSnapshot_refuses.
Qed.

(** ** Witness *)

Definition wire_grades : Snapshot :=
  mkSnapshot "s1" "grade" 1
    [("source"%string, "powerschool"%string); ("data_subject"%string, "child1"%string)]
    true None 10 false
    [mkSnapRecord "hw1" "child1" [] {[ "title"%string := encode_string "essay" ]}].

Lemma validate_snapshot_exact_witness :
  is_ok (ValidateSnapshot Some (λ _, None) (λ _, None) (λ s, s) grade_registry wire_grades 20) = true ∧
  match ValidateSnapshot Some (λ _, None) (λ _, None) (λ s, s) grade_registry wire_grades 20 with
  | Ok n => snapshot_kept Some (λ _, None) (λ _, None) (λ s, s) grade_registry wire_grades 20 n
  | Err e => permanent e
  end.
Proof.
  split; [vm_compute; reflexivity|].
  apply (validate_snapshot_exact Some (λ _, None) (λ _, None) (λ s, s) grade_types grade_registry).
  vm_compute. reflexivity.
Defined.
