(* ===== verification/JWire.v ===== *)
(** internal/journal/httpapi: the writing handlers, from an authenticated
    caller and the bytes of a request to the answer, and what they make of
    the journal's states. *)
From S2P Require Import Prelude GoStrings StrOrder Utf8 JsonString JRecord JDiff JValue.
From S2P Require Import JRules JAccess JStore JErase JFold JJournal JValidate JValid.
Local Open Scope Z_scope.

(** ** Caps on a body, from the registry *)

Record Limits := mkLimits { MaxObjectKeys : Z; MaxTotalKeys : Z }.

Definition maxSnapshotBytes : Z := Z.shiftl 8 20.
Definition keyMarginPerObject : Z := 16.
Definition keyMarginTotal : Z := 1024.
Definition noteKeyMargin : Z := 4.
Definition escapedBytes : Z := 6.
Definition noteEnvelopeBytes : Z := Z.shiftl 16 10.
Definition adminEnvelopeBytes : Z := 256.
Definition adminKeyMargin : Z := 2.

(** Registry.Types: every version of every type, by name then version. *)
Definition Types (reg : Registry) : list Type_ :=
  sorted_keys reg ≫= versions reg.

Definition field_count (t : Type_) : Z := Z.of_nat (size (TFields t)).

Definition snapshotKeyLimits (reg : Registry) : Limits :=
  let widest := foldl (λ w t, Z.max w (field_count t)) 9 (Types reg) in
  mkLimits (widest + keyMarginPerObject) (9 + 3 + Z.of_nat MaxRecords * (4 + widest) + keyMarginTotal).

Definition noteKeyLimits (reg : Registry) : Limits :=
  let widest := foldl (λ w t, if Household t then Z.max w (field_count t) else w) 0 (Types reg) in
  mkLimits (Z.max 5 widest + noteKeyMargin) (5 + widest + noteKeyMargin).

Definition fieldValueBytes (t : FieldType) : Z :=
  match t with
  | TString => escapedBytes * MaxStringBytes + 2
  | TText => escapedBytes * MaxTextBytes + 2
  | TStringList => MaxListItems * (escapedBytes * MaxStringBytes + 3) + 2
  | _ => 256
  end.

Definition note_width (t : Type_) : Z :=
  foldr (λ p n, n + (escapedBytes * Z.of_nat (String.length p.1) + 4 + fieldValueBytes (FType p.2)))
    0 (map_to_list (TFields t)).

Definition noteByteLimit (reg : Registry) : Z :=
  let widest := foldl (λ w t, if Household t then Z.max w (note_width t) else w) 0 (Types reg) in
  Z.min (widest + noteEnvelopeBytes) maxSnapshotBytes.

(** A struct of string and bool fields, by their JSON names. *)
Inductive admin_field := AString | ABool.

Definition adminBodyCap (fields : list (string * admin_field)) : Limits * Z :=
  let n := Z.of_nat (length fields) in
  (mkLimits (n + adminKeyMargin) (n + adminKeyMargin),
   foldl (λ s p, s + (escapedBytes * Z.of_nat (String.length p.1) + 4)
                 + match p.2 with
                   | AString => escapedBytes * Z.of_nat MaxScopeValueBytes + 2
                   | ABool => 5
                   end) adminEnvelopeBytes fields).

Definition heldCap : Limits * Z := adminBodyCap [].
Definition eraseCap : Limits * Z :=
  adminBodyCap [("data_subject"%string, AString); ("confirm"%string, AString)].

Example admin_caps : eraseCap.2 = 3454 ∧ heldCap.2 = 256.
Proof. done. Qed.

(** ** Requests and answers *)

(** What a strict decode of a body gives. *)
Inductive decoded (A : Type) := Decoded (a : A) | ErrTooManyKeys | BadBody.
Arguments Decoded {A} _.
Arguments ErrTooManyKeys {A}.
Arguments BadBody {A}.

(** A request as the handlers see it: whether its query string is empty,
    whether its content type is JSON, its body (None when reading fails). *)
Record http := mkHttp { q_no_query : bool; q_json : bool; q_body : option string }.

Record EraseRequest := mkEraseRequest { EDataSubject : string; EConfirm : string }.

Inductive answer :=
| ASnapshot (s : outcome_status) (stats : Stats)
| ADiscarded
| ANote (r : NoteResponse)
| AErased (r : EraseResponse)
| ARefused (r : Rejection).

Definition badRequest : Rejection := mkRejection 400 "bad_request".
Definition forbidden : Rejection := mkRejection 403 "forbidden".
Definition internal : Rejection := mkRejection 500 "internal".
Definition unavailable : Rejection := mkRejection 503 "unavailable".
Definition notFound : Rejection := mkRejection 404 "not_found".
Definition notHeld : Rejection := mkRejection 409 "conflict".

Inductive action := Confirm | Discard.

(** What a request asks for: the path's target is the text before and after
    the colon. *)
Inductive request :=
| PostRecords (h : http)
| PostNotes (h : http)
| PostHeld (id act : string) (h : http)
| PostErase (h : http).

Section wire.
Context (scanner_version : string) (scanner_verdict : string → string).
Context (sha256 sha256_hex : string → string).
Context (rules : RuleSet) (guard : Guard) (reg : Registry) (policy : Policy).
(** uuid.Parse and its canonical text; number and timestamp texts; the
    decoding of a body under key limits, and of a stored payload. *)
Context (uuid_parse float_text timestamp_text : string → option string).
Context (decode_snapshot : Limits → string → decoded Snapshot).
Context (decode_note : Limits → string → decoded Note).
Context (decode_erase : Limits → string → decoded EraseRequest).
Context (empty_object : Limits → string → decoded unit).
Context (unmarshal_snapshot : string → option Snapshot).

Local Abbreviation ValidateSnapshot := (ValidateSnapshot uuid_parse float_text timestamp_text sha256 reg).
Local Abbreviation ValidateNote := (ValidateNote float_text timestamp_text sha256 reg).

(** How a held snapshot is validated again. *)
Definition validate (payload : string) (received : Z) : option (res Rejection Normalized) :=
  (λ s, ValidateSnapshot s received) <$> unmarshal_snapshot payload.

Local Abbreviation Apply := (Apply scanner_version scanner_verdict sha256 sha256_hex rules guard).
Local Abbreviation ConfirmHeld :=
  (ConfirmHeld scanner_version scanner_verdict sha256 sha256_hex rules guard validate).
Local Abbreviation WriteNote := (WriteNote scanner_version scanner_verdict sha256 sha256_hex rules).

(** A call as the handlers see the world: the roster in use, the clock read
    for validation and the one read by the operation, the pseudonym an
    erase would draw. *)
Record env := mkEnv { e_roster : option Roster; e_now : Z; e_later : Z; e_pseudonym : string }.

(** ** The handlers *)

Definition resend (d : db) (caller : string) (s : Snapshot) : option Outcome :=
  match uuid_parse (SSnapshotID s) with
  | None => None
  | Some id =>
      match ParseScope (SScope s) with
      | Err _ => None
      | Ok sc => lookup_snapshot d id caller (SRecordType s) (Canonical sc)
      end
  end.

Definition of_outcome (o : Outcome) : answer :=
  match o with Rejected r => ARefused r | Done s st => ASnapshot s st end.

Definition handleRecords (caller : string) (svc : Service) (e : env) (h : http) (d : db) : answer * db :=
  if negb (WritesSnapshots svc reg) then (ARefused denied, d)
  else if negb (q_no_query h) then (ARefused badRequest, d)
  else if negb (q_json h) then (ARefused badRequest, d)
  else match q_body h with
  | None => (ARefused internal, d)
  | Some body =>
      if maxSnapshotBytes <? Z.of_nat (String.length body) then (ARefused tooLarge, d)
      else match decode_snapshot (snapshotKeyLimits reg) body with
      | ErrTooManyKeys => (ARefused tooLarge, d)
      | BadBody => (ARefused schemaErr, d)
      | Decoded snap =>
          match resend d caller snap with
          | Some o => (of_outcome o, d)
          | None =>
              match ValidateSnapshot snap (e_now e) with
              | Err rej => (ARefused rej, d)
              | Ok n =>
                  match MayWrite svc (NType n) (NScope n) with
                  | Some rej => (ARefused rej, d)
                  | None =>
                      let '(o, d') := Apply d (e_roster e) (e_later e) caller n body in
                      (of_outcome o, d')
                  end
              end
          end
      end
  end.

Definition handleNotes (caller : string) (svc : Service) (e : env) (h : http) (d : db) : answer * db :=
  if negb (WritesNotes svc reg) then (ARefused denied, d)
  else if negb (q_no_query h) then (ARefused badRequest, d)
  else if negb (q_json h) then (ARefused badRequest, d)
  else match q_body h with
  | None => (ARefused internal, d)
  | Some body =>
      if noteByteLimit reg <? Z.of_nat (String.length body) then (ARefused tooLarge, d)
      else match decode_note (noteKeyLimits reg) body with
      | ErrTooManyKeys => (ARefused tooLarge, d)
      | BadBody => (ARefused badRequest, d)
      | Decoded inp =>
          match ValidateNote inp with
          | Err rej => (ARefused rej, d)
          | Ok n =>
              match MayWriteNote svc (NoType n) (NoOnBehalfOf n) with
              | Some rej => (ARefused rej, d)
              | None =>
                  let '(r, d') := WriteNote d (e_roster e) (e_later e) caller n in
                  (match r with Ok resp => ANote resp | Err rej => ARefused rej end, d')
              end
          end
      end
  end.

(** adminBody: None when the body decodes (or may be absent), else the
    refusal. *)
Definition adminBody {A} (cap : Limits * Z) (decode : Limits → string → decoded A)
    (absent : option A) (h : http) : res Rejection A :=
  match q_body h with
  | None => Err internal
  | Some body =>
      if cap.2 <? Z.of_nat (String.length body) then Err tooLarge
      else if String.eqb (trim_space body) ""
      then match absent with Some a => Ok a | None => Err badRequest end
      else if negb (q_json h) then Err badRequest
      else match decode cap.1 body with
           | ErrTooManyKeys => Err tooLarge
           | BadBody => Err badRequest
           | Decoded a => Ok a
           end
  end.

Definition writerMayWrite : WriteCheck := λ writer t sc,
  match policy !! writer with
  | None => Some denied
  | Some svc => match MayWrite svc t sc with Some _ => Some denied | None => None end
  end.

Definition parse_action (act : string) : option action :=
  if String.eqb act "confirm" then Some Confirm
  else if String.eqb act "discard" then Some Discard else None.

Definition held_error (er : hold_error) : Rejection :=
  match er with ErrNotFound => notFound | ErrNotHeld => notHeld | ErrPayload => internal end.

Definition handleHeld (caller : string) (svc : Service) (e : env) (target act : string) (h : http) (d : db)
    : answer * db :=
  if negb (Admin svc) then (ARefused denied, d)
  else if negb (q_no_query h) then (ARefused badRequest, d)
  else match uuid_parse target, parse_action act with
  | Some id, Some a =>
      match adminBody heldCap empty_object (Some tt) h with
      | Err rej => (ARefused rej, d)
      | Ok _ =>
          match a with
          | Confirm =>
              let '(r, d') := ConfirmHeld d (e_roster e) (e_later e) id writerMayWrite in
              (match r with Ok o => of_outcome o | Err er => ARefused (held_error er) end, d')
          | Discard =>
              let '(r, d') := DiscardHeld d id in
              (match r with None => ADiscarded | Some er => ARefused (held_error er) end, d')
          end
      end
  | _, _ => (ARefused badRequest, d)
  end.

Definition eraseErr (er : erase_error) : Rejection :=
  match er with ErrNoSubject => badRequest | ErrNoRoster => unavailable end.

Definition handleErase (caller : string) (svc : Service) (e : env) (h : http) (d : db) : answer * db :=
  if negb (Admin svc) then (ARefused denied, d)
  else if negb (q_no_query h) then (ARefused badRequest, d)
  else match adminBody eraseCap decode_erase None h with
  | Err rej => (ARefused rej, d)
  | Ok req =>
      if negb (ValidID (EDataSubject req)) then (ARefused badRequest, d)
      else if negb (String.eqb (EConfirm req) (EDataSubject req)) then (ARefused badRequest, d)
      else
        let '(r, d') := Erase (e_roster e) caller (EDataSubject req) (e_pseudonym e) (e_later e) d in
        (match r with Ok resp => AErased resp | Err er => ARefused (eraseErr er) end, d')
  end.

(** An authenticated caller's request, under its policy. *)
Definition serve (caller : string) (e : env) (q : request) (d : db) : answer * db :=
  match policy !! caller with
  | None => (ARefused forbidden, d)
  | Some svc =>
      match q with
      | PostRecords h => handleRecords caller svc e h d
      | PostNotes h => handleNotes caller svc e h d
      | PostHeld id act h => handleHeld caller svc e id act h d
      | PostErase h => handleErase caller svc e h d
      end
  end.

(** ** Requests are calls of the store *)

Local Abbreviation step := (step scanner_version scanner_verdict sha256 sha256_hex rules guard validate).
Local Abbreviation reachable :=
  (reachable scanner_version scanner_verdict sha256 sha256_hex rules guard validate reg).

(** What a caller must be allowed for its request to reach the store, and
    the call it then is. *)
Inductive authorised (svc : Service) (caller : string) (e : env) : op → Prop :=
| auth_records n body :
    norm_ok sha256 reg n → WritesSnapshots svc reg = true → MayWrite svc (NType n) (NScope n) = None →
    authorised svc caller e (OApply caller n body)
| auth_note n :
    note_ok sha256 reg n → WritesNotes svc reg = true → MayWriteNote svc (NoType n) (NoOnBehalfOf n) = None →
    authorised svc caller e (ONote caller n)
| auth_confirm id : Admin svc = true → authorised svc caller e (OConfirm id writerMayWrite)
| auth_discard id : Admin svc = true → authorised svc caller e (ODiscard id)
| auth_erase m :
    Admin svc = true → ValidID m = true → authorised svc caller e (OErase caller m (e_pseudonym e)).

(** A request leaves the tables as they are, or is one authorised call. *)
Definition serves (caller : string) (svc : Service) (e : env) (d d' : db) : Prop :=
  d' = d ∨ ∃ o, authorised svc caller e o ∧ d' = step d (mkCall (e_roster e) (e_later e) o).

Lemma serves_none caller svc e d : serves caller svc e d d.
Proof. by left. Qed.

Lemma serves_call caller svc e d d' o :
  authorised svc caller e o → step d (mkCall (e_roster e) (e_later e) o) = d' → serves caller svc e d d'.
Proof. intros Ho <-. right. by exists o. Qed.

(** Follows a handler's branches: a refusal changes nothing. *)
Ltac handler :=
  repeat (match goal with
          | |- serves _ _ _ _ (match ?x with _ => _ end).2 => destruct x eqn:?
          end; cbn [snd]; [try apply serves_none..]);
  try apply serves_none.

Section calls.
Context (types : list Type_) (Hreg : NewRegistry types = Some reg).
Context (Hplain : texts_plain float_text timestamp_text).

Lemma validate_sound_wire : validate_sound sha256 validate reg.
Proof.
  intros p received n. unfold validate. intros (s & _ & Hs)%fmap_Some.
  eapply validate_snapshot_norm; [exact Hreg|exact Hplain|by symmetry in Hs].
Qed.

Lemma records_serves caller svc e h d : serves caller svc e d (handleRecords caller svc e h d).2.
Proof.
  unfold handleRecords. handler. eapply serves_call.
  - apply auth_records; [|by apply negb_false_iff|done].
    eapply validate_snapshot_norm; [exact Hreg|exact Hplain|eassumption].
  - cbn. by erewrite (f_equal snd) by eassumption.
Qed.

Lemma notes_serves caller svc e h d : serves caller svc e d (handleNotes caller svc e h d).2.
Proof.
  unfold handleNotes. handler. all: eapply serves_call; [apply auth_note|];
    [eapply validate_note_ok; [exact Hreg|exact Hplain|eassumption]|by apply negb_false_iff|done
    |cbn; by erewrite (f_equal snd) by eassumption].
Qed.

Lemma held_serves caller svc e id act h d : serves caller svc e d (handleHeld caller svc e id act h d).2.
Proof.
  unfold handleHeld. handler. all: eapply serves_call; [constructor; by apply negb_false_iff|];
    cbn; by erewrite (f_equal snd) by eassumption.
Qed.

Lemma erase_serves caller svc e h d : serves caller svc e d (handleErase caller svc e h d).2.
Proof.
  unfold handleErase. handler.
  all: eapply serves_call; [apply auth_erase; by apply negb_false_iff|];
    cbn; by erewrite (f_equal snd) by eassumption.
Qed.

Lemma serve_serves caller e q d :
  (serve caller e q d).2 = d ∨
  ∃ svc, policy !! caller = Some svc ∧ serves caller svc e d (serve caller e q d).2.
Proof.
  unfold serve. destruct (policy !! caller) as [svc|]; [right|by left]. exists svc. split; [done|].
  destruct q; [apply records_serves|apply notes_serves|apply held_serves|apply erase_serves].
Qed.

(** The world a request meets: a roster the loader produced, a pseudonym
    that is new. *)
Definition env_ok (e : env) (d : db) : Prop :=
  roster_loaded (e_roster e) ∧ IsErased (e_pseudonym e) = true ∧ fresh (e_pseudonym e) 0 d.

Inductive wire_reachable : db → Prop :=
| wire_empty hs : types_synced reg (empty_db hs) → wire_reachable (empty_db hs)
| wire_serve d caller e q :
    wire_reachable d → env_ok e d → wire_reachable (serve caller e q d).2.

Lemma authorised_call_ok caller svc e d o :
  env_ok e d → authorised svc caller e o → call_ok sha256 reg d (mkCall (e_roster e) (e_later e) o).
Proof. intros (H1 & H2 & H3) Ha. split; [done|]. destruct Ha; done. Qed.

(** C14. The handlers refine the journal.  Every state that requests reach,
    whatever their bodies, paths and callers and in any order, is a state
    of the journal's own operations, called with validated snapshots and
    notes only; and a payload read back from the store validates to such a
    snapshot.  So every guarantee about reachable states holds of the
    service. *)
Theorem wire_refines_journal d :
  wire_reachable d → validate_sound sha256 validate reg ∧ reachable d.
Proof.
  intros Hd. split; [by apply validate_sound_wire|].
  induction Hd as [hs Hs|d caller e q Hd IH He]; [by constructor|].
  destruct (serve_serves caller e q d) as [->|(svc & _ & [->|(o & Ho & ->)])]; [done..|].
  constructor; [done|by eapply authorised_call_ok].
Qed.

(** C25. Only an authorised request writes.  When a request changes the
    tables at all, its caller has a policy, and the change is one journal
    operation that policy allows: a validated snapshot of a type and scope
    the service may write, a validated note it may write for the author
    named, or, for an operator service only, a confirmation (which checks
    the stored writer's policy as it is now), a discard or an erase of a
    member id. *)
Theorem wire_write_authorised caller e q d :
  (serve caller e q d).2 = d ∨
  ∃ svc o, policy !! caller = Some svc ∧ authorised svc caller e o ∧
    (serve caller e q d).2 = step d (mkCall (e_roster e) (e_later e) o).
Proof.
  destruct (serve_serves caller e q d) as [E|(svc & Hs & [E|(o & Ho & E)])]; [by left..|].
  right. by exists svc, o.
Qed.
End calls.

(** ** Refusals *)

Lemma applyFromOrdering_done d n w p now cid r d' :
  applyFromOrdering scanner_version scanner_verdict sha256 sha256_hex rules guard d n w p now cid
  ≠ (Rejected r, d').
Proof. unfold applyFromOrdering. by repeat case_match. Qed.

Lemma Apply_rejected d ros now w n p r d' : Apply d ros now w n p = (Rejected r, d') → d' = d.
Proof.
  unfold JStore.Apply. destruct (lookup_snapshot _ _ _ _ _); [by intros [= _ ->]|].
  destruct (banned _ _); [by intros [= _ ->]|]. destruct (checkSubject _ _); [by intros [= _ ->]|].
  intros H. by apply applyFromOrdering_done in H.
Qed.

Lemma ConfirmHeld_refused d ros now id mw r d' :
  ConfirmHeld d ros now id mw = (r, d') →
  (∀ s st, r ≠ Ok (Done s st)) → d' = d.
Proof.
  unfold JStore.ConfirmHeld. destruct (snapshots d !! id) as [x|]; [|by intros [= _ ->]].
  destruct (negb _); [by intros [= _ ->]|].
  destruct (validate _ _) as [[n|]|]; [|by intros [= _ ->]..].
  destruct (negb _); [by intros [= _ ->]|]. destruct (mw _ _ _); [by intros [= _ ->]|].
  destruct (banned _ _); [by intros [= _ ->]|]. destruct (checkSubject _ _); [by intros [= _ ->]|].
  destruct (applyFromOrdering _ _ _ _ _ _ _ _ _ _ _ _) as [[s st|rej] d1] eqn:Ha.
  - intros [= <- <-] Hr. by destruct (Hr s st).
  - by apply applyFromOrdering_done in Ha.
Qed.

Lemma DiscardHeld_refused d id er d' : DiscardHeld d id = (Some er, d') → d' = d.
Proof. unfold DiscardHeld. destruct (snapshots d !! id); [|by intros [= _ ->]]. case_bool_decide; by intros [= ? ->]. Qed.

Lemma WriteNote_refused d ros now w n rej d' : WriteNote d ros now w n = (Err rej, d') → d' = d.
Proof.
  unfold JStore.WriteNote, write_note. intros H. revert H. repeat case_match; by intros [= ? ->].
Qed.

Lemma Erase_refused ros a m p now d er d' : Erase ros a m p now d = (Err er, d') → d' = d.
Proof.
  unfold Erase. destruct (negb _); [by intros [= _ ->]|]. destruct ros; [|by intros [= _ ->]].
  by destruct (eraseLocked _ _ _ _ _ _).
Qed.

(** Every refusal of a handler leaves the tables alone. *)
Ltac refused H :=
  repeat (match type of H with
          | (match ?x with _ => _ end) = _ => destruct x eqn:?
          end; [try (injection H as _ <-; done)..]);
  try (injection H as _ <-; done).

Lemma of_outcome_refused o r : of_outcome o = ARefused r → o = Rejected r.
Proof. destruct o; [done|]. by intros [= ->]. Qed.

(** A refusal changes nothing.  Whatever request a caller sends, an
    answer that refuses it (no policy, a bad body, a validation error, a
    policy or grant it lacks, a ban, an unknown subject, a held snapshot
    that is gone) leaves every table as it was. *)
Theorem wire_refusal_changes_nothing caller e q d r d' :
  serve caller e q d = (ARefused r, d') → d' = d.
Proof.
  unfold serve. destruct (policy !! caller) as [svc|]; [|by intros [= _ ->]].
  destruct q as [h|h|id act h|h]; intros H.
  - unfold handleRecords in H. refused H. injection H as H <-. apply of_outcome_refused in H as ->.
    by eapply Apply_rejected.
  - unfold handleNotes in H. refused H. injection H as H <-. destruct r0; [done|].
    by eapply WriteNote_refused.
  - unfold handleHeld in H. refused H; injection H as H <-.
    + eapply ConfirmHeld_refused; [eassumption|]. by intros s0 st ->.
    + destruct o; [|done]. by eapply DiscardHeld_refused.
  - unfold handleErase in H. refused H. injection H as H <-. destruct r0; [done|].
    by eapply Erase_refused.
Qed.
End wire.
