(* ===== verification/JGuarantees.v ===== *)
(** What the journal guarantees: the theorems about every state its
    operations reach. *)
From S2P Require Import Prelude GoStrings StrOrder JsonString JRecord JDiff JRules JAccess.
From S2P Require Import JStore JErase JFold JJournal.
Local Open Scope Z_scope.

Section guarantees.
Context (scanner_version : string) (scanner_verdict : string → string).
Context (sha256 sha256_hex : string → string).
Context (rules : RuleSet) (guard : Guard).
Context (validate : string → Z → option (res Rejection Normalized)).
Context (types : list Type_) (reg : Registry).

Local Abbreviation Apply := (Apply scanner_version scanner_verdict sha256 sha256_hex rules guard).
Local Abbreviation WriteNote := (WriteNote scanner_version scanner_verdict sha256 sha256_hex rules).
Local Abbreviation step :=
  (step scanner_version scanner_verdict sha256 sha256_hex rules guard validate).
Local Abbreviation steps :=
  (steps scanner_version scanner_verdict sha256 sha256_hex rules guard validate reg).
Local Abbreviation step_but_erase :=
  (step_but_erase scanner_version scanner_verdict sha256 sha256_hex rules guard validate reg).
Local Abbreviation reachable :=
  (reachable scanner_version scanner_verdict sha256 sha256_hex rules guard validate reg).
Local Abbreviation norm_ok := (norm_ok sha256 reg).
Local Abbreviation call_ok := (call_ok sha256 reg).

(** What the configuration provides: a registry NewRegistry accepts, a hash
    without collisions, payloads that validate as they did. *)
Record config_ok : Prop := {
  cfg_registry : NewRegistry types = Some reg;
  cfg_sha256 : ∀ x y, sha256 x = sha256 y → x = y;
  cfg_validate : validate_sound sha256 validate reg;
}.

Lemma good_reachable d : config_ok → reachable d → good scanner_version sha256 reg (is_new scanner_verdict) (λ _, True) d.
Proof. intros [H1 H2 H3] Hd. by eapply (reachable_good scanner_version scanner_verdict sha256 sha256_hex rules guard validate reg types). Qed.

(** C5. The journal's invariant: in every state the operations reach,
    whatever their order (snapshots applied, late, held, confirmed and
    discarded, notes, erasures), folding the stored events from the
    beginning gives exactly the current rows: the same records, and for
    each the same scope, audience, fields and removed flag; and each row
    points at the last event of its record. *)
Theorem events_replay_to_current d :
  config_ok → reachable d →
  Fold (ForwardName reg) (fold_event <$> events d) = cur_row <$> current d ∧
  ∀ id r, current d !! id = Some r →
    last (er_seq <$> filter (λ e, er_id e = id) (events d)) = Some (cr_last_event_seq r).
Proof.
  intros Hc Hd. destruct (good_reachable d Hc Hd) as [_ Hl _ Hcons]. split; [|exact Hl].
  apply map_eq. intros id. rewrite Fold_replay, lookup_fmap. apply Hcons.
Qed.

(** C22. An erase is a ban.  Once a member is erased, then after any later
    operations, erasures of others included, no row, event or snapshot is
    about the member, no household note was written by them, they read no
    kept note, every snapshot about them is refused with 410 (an id that is
    stored answers for itself) and every note about or by them too, and
    those refusals change nothing. *)
Theorem erased_stays_erased ros actor m pseudonym now d d' :
  config_ok → reachable d → ValidID m = true → IsErased pseudonym = true → fresh pseudonym 0 d →
  steps (Erase (Some ros) actor m pseudonym now d).2 d' →
  (∀ id, occurs d' id → subject_of id ≠ m ∧ authored d' m id = false) ∧
  (∀ i r, snapshots d' !! i = Some r → ss_subject r ≠ m) ∧
  (∀ r, r ∈ erasure_reader d' → rd_member r ≠ m) ∧
  (∀ roster at_ w n payload, NSubject n = m →
     (Apply d' roster at_ w n payload).2 = d' ∧
     (snapshots d' !! NId n = None → (Apply d' roster at_ w n payload).1 = Rejected erasedRejection)) ∧
  (∀ roster at_ w n, NoSubject n = m ∨ NoOnBehalfOf n = m →
     WriteNote d' (Some roster) at_ w n = (Err erasedRejection, d')).
Proof.
  intros Hc Hd Hv Hp Hf Hst. destruct Hc as [Hreg Hsha Hval].
  assert (Hnt : no_trace m d').
  { eapply steps_no_trace; [exact Hval|exact Hst| |done|by apply erase_no_trace].
    apply (reachable_synced scanner_version scanner_verdict sha256 sha256_hex rules guard validate reg)
      in Hd; [|done].
    destruct (eraseLocked_left ros actor m pseudonym now d Hp Hv Hf) as (_ & _ & _ & _ & E & _).
    unfold Erase. rewrite Hv. simpl. destruct (eraseLocked _ _ _ _ _ _). simpl in *.
    intros t Ht. rewrite E. by apply Hd. }
  apply ValidID_no_colon in Hv as [_ Hne].
  assert (Hban : ∀ l, m ∈ l → banned d' l = Some erasedRejection).
  { intros l Hm. destruct (banned d' l) eqn:Hb.
    - unfold banned in Hb. destruct (existsb _ l); [|done]. by injection Hb as <-.
    - exfalso. eapply banned_none; [exact Hb|exact Hm|done|apply Hnt]. }
  split_and!; [apply Hnt|apply Hnt| | |].
  - intros r Hr E. apply (nt_reader m d' Hnt). rewrite <- E. by apply list_elem_of_fmap_2.
  - intros roster at_ w n payload E. unfold JStore.Apply, lookup_snapshot.
    rewrite (Hban [NSubject n]) by (rewrite E; by left).
    destruct (snapshots d' !! NId n); [|done]. by destruct (negb _).
  - intros roster at_ w n E. unfold JStore.WriteNote. rewrite Hban; [done|].
    destruct E as [<- | <-]; [by left|by right; left].
Qed.

(** Resending a snapshot is harmless.  Once a snapshot was accepted
    (applied, late or held), after any later operations other than an
    erase, sending its id again with the same writer, type and scope
    answers duplicate or held, whatever the body, and changes nothing; with
    another writer, type or scope it is refused as a reused id. *)
Theorem resend_changes_nothing d roster now w n payload s st d' d2 :
  config_ok → Apply d roster now w n payload = (Done s st, d') → rtc step_but_erase d' d2 →
  ∀ roster' now' w' n' payload', NId n' = NId n →
  if bool_decide (w' = w ∧ TName (NType n') = TName (NType n) ∧ NScopeKey n' = NScopeKey n)
  then ∃ s' st', Apply d2 roster' now' w' n' payload' = (Done s' st', d2) ∧ (s' = SDuplicate ∨ s' = SHeld)
  else Apply d2 roster' now' w' n' payload' = (Rejected reusedRejection, d2).
Proof.
  intros [_ _ Hval] Happ Hst roster' now' w' n' payload' Hid.
  assert (Hrow : ∃ r, snapshots d' !! NId n = Some r ∧ ss_writer r = w ∧
            ss_type r = TName (NType n) ∧ ss_scope r = NScopeKey n) by (by eapply apply_stores).
  assert (Hrow2 : ∃ r, snapshots d2 !! NId n = Some r ∧ ss_writer r = w ∧
            ss_type r = TName (NType n) ∧ ss_scope r = NScopeKey n).
  { clear Happ. induction Hst as [|x y z (c & Hok & He & ->) _ IH]; [done|]. apply IH.
    destruct Hrow as (r & Hr & E1 & E2 & E3).
    pose proof (step_write scanner_version scanner_verdict sha256 sha256_hex rules guard validate reg
      x c Hval Hok He) as Hw.
    destruct (write_keeps_snapshots _ _ _ _ _ _ _ _ _ _ Hw _ _ Hr) as (r' & Hr' & I1 & I2 & I3).
    exists r'. by rewrite I1, I2, I3. }
  destruct Hrow2 as (r & Hr & <- & E2 & E3). unfold JStore.Apply, lookup_snapshot. rewrite Hid, Hr.
  rewrite <- E2, <- E3. case_bool_decide as Hsame.
  - destruct Hsame as (<- & -> & ->). rewrite !String.eqb_refl. simpl.
    eexists _, _. split; [done|]. case_bool_decide; auto.
  - destruct (String.eqb_spec (ss_writer r) w') as [Ew|]; [|done].
    destruct (String.eqb_spec (ss_type r) (TName (NType n'))) as [Et|]; [|done].
    destruct (String.eqb_spec (ss_scope r) (NScopeKey n')) as [Es|]; [|done].
    exfalso. apply Hsame. by rewrite Ew, Et, Es.
Qed.

(** C32. What a snapshot does.  Applied, it makes every record of its
    subject and type exactly what the observation shows (present records
    as observed, records missing from a complete snapshot removed, records
    confirmed later left alone) and touches no other; with any other
    answer, a late or held snapshot included, no row, no event and no
    sequence number changes. *)
Theorem apply_shows_observation d roster now w n payload :
  config_ok → reachable d → norm_ok n →
  let r := Apply d roster now w n payload in
  match r.1 with
  | Done SApplied _ =>
      (∀ k, cur_row <$> current r.2 !! (TName (NType n), NSubject n, k)
            = observed (snapshot_input d n) k) ∧
      (∀ id, id.1 ≠ (TName (NType n), NSubject n) → current r.2 !! id = current d !! id)
  | _ => current r.2 = current d ∧ events r.2 = events d ∧ next_seq r.2 = next_seq d
  end.
Proof.
  intros Hc Hd Hn. cbv zeta. pose proof (good_reachable d Hc Hd) as Hg. destruct Hc as [Hreg Hsha _].
  unfold JStore.Apply. destruct (lookup_snapshot _ _ _ _ _) as [o|] eqn:Hl.
  { unfold lookup_snapshot in Hl. destruct (snapshots d !! NId n); [|done].
    destruct (negb _); injection Hl as <-; [done|]. simpl. by case_bool_decide. }
  destruct (banned _ _); [done|]. destruct (checkSubject _ _); [done|].
  destruct (ordering_cases scanner_version scanner_verdict sha256 sha256_hex rules guard d n w payload
    now None) as [(E & _ & (Ecur & _ & _) & _)|(s & st & E & Hs1 & _ & Hh & _)]; rewrite E.
  - rewrite Ecur. unfold apply_plan. split.
    + intros k. eapply writePlan_observed; [exact Hsha|by apply snapshot_plan_input|apply Hg|done].
    + intros id Hid. by apply writePlan_other.
  - by destruct s.
Qed.

(** History is append-only.  Every operation except an erase keeps the
    events written so far, in place, and only adds events numbered after
    all of them. *)
Theorem events_append_only d c :
  config_ok → reachable d → call_ok d c → is_erase c = false →
  ∃ new, events (step d c) = events d ++ new ∧
    (∀ e e', e ∈ events d → e' ∈ new → er_seq e < er_seq e') ∧
    StronglySorted Z.lt (er_seq <$> events (step d c)).
Proof.
  intros Hc Hd Hok He. pose proof (good_reachable d Hc Hd) as Hg.
  assert (Hg' : good scanner_version sha256 reg (is_new scanner_verdict) (λ _, True) (step d c)).
  { apply good_reachable; [done|]. by apply reach_step. }
  destruct Hc as [Hreg Hsha Hval].
  pose proof (step_write scanner_version scanner_verdict sha256 sha256_hex rules guard validate reg
    d c Hval Hok He) as Hw.
  apply write_extends in Hw as [(new & Hev & Hnew) _ _ _ _]. exists new. split_and!; [done| |apply Hg'].
  intros e e' Hin Hin'. rewrite Forall_forall in Hnew. destruct (Hnew e' Hin') as [_ Hge].
  destruct (good_seqs _ _ _ _ _ _ Hg) as (_ & _ & Hlt). specialize (Hlt e Hin). lia.
Qed.

(** No text is shown unscanned.  In every reachable state, every text
    value of a current row carries the verdict the scanner gives on that
    very text, with the scanner's version, also after updates that leave
    the value unchanged, removals and restorations; so a text the scanner
    does not pass is never recorded as passed. *)
Theorem stored_text_is_scanned d id r t field v :
  config_ok → reachable d → current d !! id = Some r → Active reg (rt_of id) = Some t →
  IsText t field = true → cr_fields r !! field = Some v →
  cr_scan r !! field
  = Some (mkScanEntry (scanner_verdict (default "" (unmarshal_string v))%string) scanner_version).
Proof.
  intros Hc Hd Hr Ht Htext Hv. destruct (good_reachable d Hc Hd) as [Hrows _ _ _].
  by rewrite (row_scanned _ _ _ _ _ _ _ (Hrows id r Hr) I t Ht), Htext, Hv.
Qed.

(** Order of arrival does not matter to order of observation: a
    snapshot is applied only if no applied snapshot of its type and scope
    was observed later, and then no older snapshot of the scope is left
    held, to be confirmed over it. *)
Theorem applied_is_newest d roster now w n payload st d' :
  snapshots d !! NId n = None → Apply d roster now w n payload = (Done SApplied st, d') →
  (∀ i r, snapshots d !! i = Some r → ss_type r = TName (NType n) → ss_scope r = NScopeKey n →
     ss_status r = Applied → ss_observed_at r ≤ NObservedAt n) ∧
  (∀ i r, snapshots d' !! i = Some r → ss_type r = TName (NType n) → ss_scope r = NScopeKey n →
     ss_status r = Held → NObservedAt n ≤ ss_observed_at r).
Proof.
  intros Hnew. unfold JStore.Apply, lookup_snapshot. rewrite Hnew.
  destruct (banned _ _); [done|]. destruct (checkSubject _ _); [done|].
  unfold JStore.applyFromOrdering. destruct (later d n) eqn:Hl; [done|].
  destruct (_ && _); [done|]. intros [= _ <-]. split.
  - intros i r Hr Ht Hs Hst. unfold later in Hl.
    pose proof (proj1 (existsb_false _ _) Hl (i, r) ltac:(by apply elem_of_map_to_list)) as Hf.
    simpl in Hf.
    rewrite Ht, Hs, !String.eqb_refl, bool_decide_eq_true_2 in Hf by done. simpl in Hf. lia.
  - intros i r Hr Ht Hs Hst. simpl in Hr. rewrite lookup_fmap in Hr.
    apply fmap_Some in Hr as (r0 & _ & ->).
    destruct (_ && _ && _ && _) eqn:Hc; [done|].
    rewrite Ht, Hs, !String.eqb_refl, bool_decide_eq_true_2 in Hc by done. simpl in Hc. lia.
Qed.

(** A note needs its author's right.  A note is written, or confirmed
    as unchanged, only for a member of the loaded roster who holds a grant
    on its subject for one of the type's audience, about the household or a
    member, neither of them erased; a refused note changes nothing. *)
Theorem note_needs_authority d roster now w n :
  match WriteNote d roster now w n with
  | (Ok resp, _) =>
      NRKey resp = NoKey n ∧
      (∃ ros grants g, roster = Some ros ∧ Grants roster (NoOnBehalfOf n) = Some grants ∧ g ∈ grants ∧
         GSubject g = NoSubject n ∧ GToken g ∈ NoAudience n) ∧
      (NoSubject n = ""%string ∨ Has roster (NoSubject n) = true) ∧
      (NoSubject n ≠ ""%string → NoSubject n ∉ es_subject <$> erasures d) ∧
      (NoOnBehalfOf n ≠ ""%string → NoOnBehalfOf n ∉ es_subject <$> erasures d)
  | (Err _, d') => d' = d
  end.
Proof.
  unfold JStore.WriteNote. destruct roster as [ros|]; [|done].
  destruct (banned _ _) eqn:Hb; [done|]. destruct (Grants _ _) as [grants|] eqn:Hg; [|done].
  destruct (_ && _) eqn:Hsub; [done|].
  destruct (coversAudience _ _ _) eqn:Hcov; [|done].
  assert (Hauth : (∃ g, g ∈ grants ∧ GSubject g = NoSubject n ∧ GToken g ∈ NoAudience n)).
  { apply existsb_Exists, Exists_exists in Hcov as (g & Hin & Hc).
    apply andb_true_iff in Hc as [Hs Ha]. exists g. split_and!; [done|by apply String.eqb_eq|].
    by apply existsb_eqb. }
  assert (Hrest : (NoSubject n = ""%string ∨ Has (Some ros) (NoSubject n) = true) ∧
    (NoSubject n ≠ ""%string → NoSubject n ∉ es_subject <$> erasures d) ∧
    (NoOnBehalfOf n ≠ ""%string → NoOnBehalfOf n ∉ es_subject <$> erasures d)).
  { split_and!.
    - apply andb_false_iff in Hsub as [Hs|Hs]; apply negb_false_iff in Hs; [left|by right].
      by apply String.eqb_eq.
    - intros Hne. eapply banned_none; [exact Hb|by left|done].
    - intros Hne. eapply banned_none; [exact Hb|by right; left|done]. }
  destruct Hauth as (g & Hin & Hs & Ha), Hrest as (H1 & H2 & H3). unfold JStore.write_note.
  destruct (Stale _); [destruct (Events _)|destruct (_ && _ && _)]; simpl;
    try done; split_and!; eauto 10.
Qed.

(** An operator's confirmation is checked again.  Confirming applies a
    snapshot only if it is held, its payload still validates to the stored
    id, type and scope, its writer may still write it today, and its
    subject is in the roster and not erased; with any other answer no row
    or event changes. *)
Theorem confirm_is_rechecked d roster now id mayWrite :
  let r := ConfirmHeld scanner_version scanner_verdict sha256 sha256_hex rules guard validate
             d roster now id mayWrite in
  (∀ s st, r.1 = Ok (Done s st) →
     s ≠ SHeld ∧
     ∃ row n, snapshots d !! id = Some row ∧ ss_status row = Held ∧
       validate (ss_payload row) (ss_received_at row) = Some (Ok n) ∧
       NId n = id ∧ TName (NType n) = ss_type row ∧ NScopeKey n = ss_scope row ∧
       mayWrite (ss_writer row) (NType n) (NScope n) = None ∧
       (NSubject n = ""%string ∨ (Has roster (NSubject n) = true ∧ NSubject n ∉ es_subject <$> erasures d))) ∧
  ((∀ st, r.1 ≠ Ok (Done SApplied st)) → same_history d r.2).
Proof.
  cbv zeta. unfold JStore.ConfirmHeld. destruct (snapshots d !! id) as [row|] eqn:Hrow; [|done].
  destruct (negb _) eqn:Hheld; [done|]. apply negb_false_iff, bool_decide_eq_true in Hheld.
  destruct (validate _ _) as [[n|rej]|] eqn:Hv; [|done..].
  destruct (negb _) eqn:Hm; [done|]. apply negb_false_iff in Hm.
  apply andb_true_iff in Hm as [[H1%String.eqb_eq H2%String.eqb_eq]%andb_true_iff H3%String.eqb_eq].
  destruct (mayWrite _ _ _) eqn:Hw; [done|]. destruct (banned _ _) eqn:Hb; [done|].
  destruct (checkSubject _ _) eqn:Hcs; [done|].
  assert (Hsub : NSubject n = ""%string ∨
    (Has roster (NSubject n) = true ∧ NSubject n ∉ es_subject <$> erasures d)).
  { unfold checkSubject in Hcs. destruct (String.eqb_spec (NSubject n) "") as [|Hne]; [by left|right].
    destruct (Has _ _); [|done]. split; [done|]. by eapply banned_none; [exact Hb|left|]. }
  destruct (ordering_cases scanner_version scanner_verdict sha256 sha256_hex rules guard d n (ss_writer row)
    (ss_payload row) now (Some id)) as [(E & _ & _ & _)|(s & st & E & Hs1 & _ & Hh & _)];
    pose proof (confirm_not_held scanner_version scanner_verdict sha256 sha256_hex rules guard d n
      (ss_writer row) (ss_payload row) now id) as Hnh;
    destruct (applyFromOrdering _ _ _ _ _ _ _ _ _ _ _ _) as [o d']; simpl in *; subst o.
  - split; [|intros H; by destruct (H _ eq_refl)]. intros s st [= <- <-]. split; [done|].
    exists row, n. by split_and!.
  - split; [|done]. intros s' st' [= -> ->]. split; [by intros ->; eapply Hnh|]. exists row, n. by split_and!.
Qed.
End guarantees.

(** ** The guard in the store *)

(** Mass removals wait for a person.  With the default guard, an
    arriving snapshot of a scope of up to two hundred live records is
    applied without an operator only if at most three records are live or
    at most three tenths of them go. *)
Theorem mass_removal_is_held scanner_version scanner_verdict sha256 sha256_hex rules d roster now w n payload st d' :
  snapshots d !! NId n = None →
  Apply scanner_version scanner_verdict sha256 sha256_hex rules DefaultGuard d roster now w n payload
    = (Done SApplied st, d') →
  Z.of_nat (LiveInRange (Diff (snapshot_input d n))) ≤ 200 →
  Z.of_nat (LiveInRange (Diff (snapshot_input d n))) ≤ 3 ∨
  10 * Z.of_nat (length (Removals (Diff (snapshot_input d n))))
    ≤ 3 * Z.of_nat (LiveInRange (Diff (snapshot_input d n))).
Proof.
  intros Hnew. unfold Apply, lookup_snapshot. rewrite Hnew.
  destruct (banned _ _); [done|]. destruct (checkSubject _ _); [done|].
  unfold applyFromOrdering. destruct (later d n); [done|]. simpl.
  destruct (Hold _ _ _) eqn:Hh; [done|]. intros _ Hlive.
  apply not_true_iff_false in Hh. rewrite guard_exact in Hh; [lia| |done].
  split; [lia|]. apply inj_le. apply removals_live.
Qed.
