(* ===== verification/JRead.v ===== *)
(** internal/journal/read.go: what a reader gets of the tables.

    A read is one function of the tables, of the roster in use and of the
    query.  The columns of a row are decoded already (JStore.v): what the code
    refuses while it decodes them is what such a row cannot hold.  [text_le]
    is the order of the database on text, in ORDER BY. *)
From S2P Require Import Prelude GoStrings StrOrder JsonString JRecord JDiff JRules JAccess JStore JErase.
Local Open Scope Z_scope.

Inductive read_error := ErrUnknownReader | ErrNoRoster | ErrBadQuery | ErrRow (seq : Z) (why : string).

(** Byte order is one such order. *)
#[export] Instance str_le_rel_dec : RelDecision str_le := str_le_dec.

Definition MaxEventsLimit : Z := 10000.

(** ** Queries and answers *)

Record StateQuery := mkStateQuery {
  SQReader : string; SQSubject : option string; SQType : string; SQScope : string; SQIncludeRemoved : bool;
}.

(** A JSON value on the wire: None is null. *)
Abbreviation wire := (option string).

Record StateRow := mkStateRow {
  SId : Identity;                        (* record_type, data_subject, key *)
  SScope : string;
  SAudience : list string;
  SFields : gmap string wire;
  SRemoved : bool;
  SFirstSeenAt : Z;
  SLastSeenAt : Z;
  SConfirmedAt : Z;
  SInLatestSnapshot : option bool;
  SApproximate : bool;
}.

Record EventsQuery := mkEventsQuery {
  EQReader : string; EQAfter : Z; EQSubject : option string; EQType : string; EQMinImportance : string; EQLimit : Z;
}.

Record WireChange := mkWireChange { WOld : wire; WNew : wire }.

Record WireEvent := mkWireEvent {
  WSeq : Z;
  WId : Identity;
  WKind : Kind;
  WVersion : Z;
  WScope : string;
  WPrevScope : string;
  WAudience : list string;
  WFields : gmap string wire;
  WChanged : gmap string WireChange;
  WLastFields : gmap string wire;
  WObservedAt : Z;
  WPrevObservedAt : option Z;
  WApproximate : bool;
  WActor : string;
  WImportance : string;
  WRule : string;
  WGroupKey : string;
  WNotify : list Notice;
}.

Record Count := mkCount { CSubject : string; CType : string; CLive : nat; CEvents : gmap string nat }.

(** ** Who may see a row *)

(** access.Pairs *)
Definition Pairs (gs : list Grant) : list string * list string := (GSubject <$> gs, GToken <$> gs).

(** visibleSQL: the database's half of the rule, with the grants as two
    arrays. *)
Definition visibleSQL (subs toks : list string) (subject : string) (audience : list string) : bool :=
  let g := zip subs toks in
  if has_prefix ErasedPrefix subject then
    existsb (λ x, String.eqb x.1 subject
                  && (String.eqb x.2 ErasedAuthor || String.eqb x.2 (ErasedReaderPrefix ++ join "," audience)%string)) g
  else
    existsb (λ a, existsb (String.eqb a) (toks ++ [Public])) audience
    && (existsb (String.eqb Public) audience
        || existsb (λ x, String.eqb x.1 subject && existsb (String.eqb x.2) audience) g).

Definition eq_or_all (q x : string) : bool := String.eqb q "" || String.eqb x q.
Definition subject_is (q : option string) (x : string) : bool :=
  match q with None => true | Some s => String.eqb x s end.

Section read.
(** ORDER BY on text. *)
Context (text_le : relation string) `{!RelDecision text_le}.
Context (reg : Registry) (roster_sha : Roster → string).

(** *** grantsOf *)

Definition frozen_grant (kept : gmap string (list string)) (r : reader_row) : option Grant :=
  match kept !! rd_pseudonym r with
  | None => None
  | Some frozen => Some (mkGrant (rd_pseudonym r) (if rd_author r then ErasedAuthor else ReaderToken frozen))
  end.

Definition by_pseudonym (a b : reader_row) : Prop := text_le (rd_pseudonym a) (rd_pseudonym b).
#[export] Instance by_pseudonym_dec a b : Decision (by_pseudonym a b).
Proof. unfold by_pseudonym. apply _. Defined.

Definition grantsOf (d : db) (ros : option Roster) (reader : string) : res read_error (list Grant * string) :=
  match ros with
  | None => Err ErrNoRoster
  | Some r =>
      match Grants ros reader with
      | None => Err ErrUnknownReader
      | Some g =>
          if is_erased d reader then Err ErrUnknownReader
          else Ok (g ++ omap (frozen_grant (erasure_kept d))
                          (merge_sort by_pseudonym (List.filter (λ x, String.eqb (rd_member x) reader) (erasure_reader d))),
                   roster_sha r)
      end
  end.

(** rowVisible: the code's half, on every row the database returned. *)
Definition rowVisible (gs : list Grant) (subject : string) (audience : list string) : bool := Visible gs subject audience.

(** kindsOf(...).isText *)
Definition kind_is_text (recordType field : string) : bool :=
  match Active reg recordType with None => true | Some t => IsText t field end.

(** *** State *)

(** The newest applied snapshot of a scope: ORDER BY observed_at DESC,
    received_at DESC LIMIT 1. *)
Definition newer_snapshot (a b : string * snapshot_row) : Prop :=
  ss_observed_at b.2 < ss_observed_at a.2
  ∨ (ss_observed_at b.2 = ss_observed_at a.2 ∧ ss_received_at b.2 ≤ ss_received_at a.2).
#[export] Instance newer_snapshot_dec a b : Decision (newer_snapshot a b).
Proof. unfold newer_snapshot. apply _. Defined.

Definition newest_applied (d : db) (recordType scope : string) : option string :=
  fst <$> head (merge_sort newer_snapshot (List.filter (λ p, String.eqb (ss_type p.2) recordType && String.eqb (ss_scope p.2) scope
                                                    && bool_decide (ss_status p.2 = Applied)) (map_to_list (snapshots d)))).

(** NULL in SQL is None here. *)
Definition in_latest (d : db) (id : Identity) (r : currentRow) : option bool :=
  match cr_confirmed_snapshot r with
  | None => None
  | Some s =>
      if cr_removed r then Some false
      else match newest_applied d (rt_of id) (cr_scope r) with None => None | Some n => Some (String.eqb s n) end
  end.

Definition approximate_of (d : db) (r : currentRow) : bool :=
  match List.find (λ e, er_seq e =? cr_last_event_seq r) (events d) with Some e => er_approximate e | None => false end.

Definition state_where (subs toks : list string) (q : StateQuery) (p : Identity * currentRow) : bool :=
  visibleSQL subs toks (subject_of p.1) (cr_audience p.2)
  && subject_is (SQSubject q) (subject_of p.1) && eq_or_all (SQType q) (rt_of p.1)
  && eq_or_all (SQScope q) (cr_scope p.2) && (SQIncludeRemoved q || negb (cr_removed p.2)).

(** ORDER BY record_type, data_subject, key *)
Definition id_le (a b : Identity) : Prop :=
  if String.eqb (rt_of a) (rt_of b) then
    if String.eqb (subject_of a) (subject_of b) then text_le (key_of a) (key_of b) else text_le (subject_of a) (subject_of b)
  else text_le (rt_of a) (rt_of b).
#[export] Instance id_le_dec a b : Decision (id_le a b).
Proof. unfold id_le. repeat destruct (String.eqb _ _); apply _. Defined.
Definition row_le (a b : Identity * currentRow) : Prop := id_le a.1 b.1.
#[export] Instance row_le_dec a b : Decision (row_le a b).
Proof. unfold row_le. apply _. Defined.

(** A value as its verdict lets it through. *)
Definition mask_field (recordType : string) (sm : ScanMap) (name v : string) : wire :=
  if bool_decide (is_Some (sm !! name)) || kind_is_text recordType name
  then Text_ (Some v) (match sm !! name with Some e => Verdict e | None => "" end) else Some v.

Definition state_row (d : db) (id : Identity) (r : currentRow) : StateRow :=
  mkStateRow id (cr_scope r) (cr_audience r) (map_imap (λ name v, Some (mask_field (rt_of id) (cr_scan r) name v)) (cr_fields r))
    (cr_removed r) (cr_first_seen_at r) (cr_last_seen_at r) (cr_confirmed_at r) (in_latest d id r) (approximate_of d r).

Definition StateWithRoster (d : db) (ros : option Roster) (q : StateQuery) : res read_error (list StateRow * string) :=
  match grantsOf d ros (SQReader q) with
  | Err e => Err e
  | Ok (gs, sha) =>
      let '(subs, toks) := Pairs gs in
      let rows := merge_sort row_le (List.filter (state_where subs toks q) (map_to_list (current d))) in
      Ok (omap (λ p, if rowVisible gs (subject_of p.1) (cr_audience p.2) then Some (state_row d p.1 p.2) else None) rows, sha)
  end.

Definition State (d : db) (ros : option Roster) (q : StateQuery) : res read_error (list StateRow) :=
  match StateWithRoster d ros q with Ok (rows, _) => Ok rows | Err e => Err e end.

(** *** Events *)

Definition nilIfNull (v : wire) : wire :=
  match v with Some s => if String.eqb s "null" then None else v | None => None end.

(** The maps of an event, under the names of the active version. *)
Definition renamed {A B} (name : string → string) (f : string → A → B) (m : gmap string A) : gmap string B :=
  list_to_map ((λ p, (name p.1, f (name p.1) p.2)) <$> map_to_list m).

(** mask, and whether it withholds a text. *)
Definition mask_value (recordType : string) (verdicts : gmap string EventScan) (f : string) (v : wire) (verdict : string) : wire :=
  if bool_decide (is_Some (verdicts !! f)) || kind_is_text recordType f then Text_ v verdict else v.
Definition mask_withholds (recordType : string) (verdicts : gmap string EventScan) (f : string) (v : wire) (verdict : string) : bool :=
  (bool_decide (is_Some (verdicts !! f)) || kind_is_text recordType f)
  && bool_decide (is_Some v) && negb (String.eqb verdict VerdictPass).

Definition new_verdict (verdicts : gmap string EventScan) (f : string) : string :=
  match verdicts !! f with Some s => ENew s | None => "" end.
Definition old_verdict (verdicts : gmap string EventScan) (f : string) : string :=
  match verdicts !! f with Some s => EOld s | None => "" end.

Definition map_any {A} (f : string → A → bool) (m : gmap string A) : bool := existsb (λ p, f p.1 p.2) (map_to_list m).

(** fillEventValues: the fields, changes and last fields, and whether a
    text was withheld. *)
Definition fillEventValues (gs : list Grant) (e : event_row)
    : option (gmap string wire * gmap string WireChange * gmap string wire * bool) :=
  let rt := rt_of (er_id e) in
  let name := ForwardName reg rt (er_version e) in
  let verdicts := renamed name (λ _ s, s) (er_scan e) in
  let prev := default [] (er_prev_audience e) in
  let audienceChanged := bool_decide (is_Some (er_prev_audience e)) in
  match er_kind e with
  | Created | Restored =>
      match er_fields e with
      | None => None
      | Some f =>
          Some (renamed name (λ n v, mask_value rt verdicts n (Some v) (new_verdict verdicts n)) f, ∅, ∅,
                map_any (λ k v, mask_withholds rt verdicts (name k) (Some v) (new_verdict verdicts (name k))) f)
      end
  | Updated =>
      match er_changed e with
      | ChangedFields m =>
          let change n (c : Change) :=
            mkWireChange
              (OldValue gs (subject_of (er_id e)) prev audienceChanged
                 (mask_value rt verdicts n (nilIfNull (Old c)) (old_verdict verdicts n)))
              (mask_value rt verdicts n (nilIfNull (NewV c)) (new_verdict verdicts n)) in
          Some (∅, renamed name change m, ∅,
                map_any (λ k c, mask_withholds rt verdicts (name k) (nilIfNull (Old c)) (old_verdict verdicts (name k))
                                || mask_withholds rt verdicts (name k) (nilIfNull (NewV c)) (new_verdict verdicts (name k))) m)
      | _ => None
      end
  | Removed =>
      match er_changed e with
      | RemovedFields f =>
          Some (∅, ∅, renamed name (λ n v, mask_value rt verdicts n (Some v) (old_verdict verdicts n)) f,
                map_any (λ k v, mask_withholds rt verdicts (name k) (Some v) (old_verdict verdicts (name k))) f)
      | _ => None
      end
  end.

(** An event row as its reader gets it. *)
Definition wire_event (gs : list Grant) (e : event_row) : res read_error WireEvent :=
  match fillEventValues gs e with
  | None => Err (ErrRow (er_seq e) "values")
  | Some (fields, changed, last, withheldText) =>
      let hidden := bool_decide (is_Some (er_prev_audience e))
                    && negb (Visible gs (subject_of (er_id e)) (default [] (er_prev_audience e))) in
      Ok (mkWireEvent (er_seq e) (er_id e) (er_kind e) (er_version e) (er_scope e)
            (if hidden then "" else default "" (er_prev_scope e)) (er_audience e) fields changed last
            (er_observed_at e) (if hidden then None else er_prev_observed_at e) (er_approximate e) (er_actor e)
            (er_importance e) (default "" (er_rule e)) (if withheldText then "" else default "" (er_group_key e))
            (Notices gs (subject_of (er_id e)) (er_notify e)))
  end.

Definition events_where (subs toks : list string) (q : EventsQuery) (min : string) (e : event_row) : bool :=
  (EQAfter q <? er_seq e) && visibleSQL subs toks (subject_of (er_id e)) (er_audience e)
  && subject_is (EQSubject q) (subject_of (er_id e)) && eq_or_all (EQType q) (rt_of (er_id e))
  && existsb (String.eqb (er_importance e)) (AtLeast min).

(** ORDER BY seq *)
Definition seq_le (a b : event_row) : Prop := er_seq a ≤ er_seq b.
#[export] Instance seq_le_dec a b : Decision (seq_le a b).
Proof. unfold seq_le. apply _. Defined.

Fixpoint events_loop (gs : list Grant) (rows : list event_row) : res read_error (list WireEvent) :=
  match rows with
  | [] => Ok []
  | e :: rest =>
      if negb (rowVisible gs (subject_of (er_id e)) (er_audience e)) then events_loop gs rest
      else match wire_event gs e with
      | Err x => Err x
      | Ok w => match events_loop gs rest with Ok out => Ok (w :: out) | Err x => Err x end
      end
  end.

Definition Events_ (d : db) (ros : option Roster) (q : EventsQuery) : res read_error (list WireEvent) :=
  match grantsOf d ros (EQReader q) with
  | Err e => Err e
  | Ok (gs, _) =>
      let min := if String.eqb (EQMinImportance q) "" then Low else EQMinImportance q in
      if (EQLimit q <? 1) || (MaxEventsLimit <? EQLimit q) || (EQAfter q <? 0) || (ImportanceRank min =? 0) then Err ErrBadQuery
      else
        let '(subs, toks) := Pairs gs in
        events_loop gs (take (Z.to_nat (EQLimit q)) (merge_sort seq_le (List.filter (events_where subs toks q min) (events d))))
  end.

(** *** Counts *)

(** GROUP BY: the groups of some rows, with the number of rows of each. *)
Definition group_by {A K} `{Countable K} (key : A → K) (l : list A) : gmap K nat :=
  foldr (λ a m, <[key a := S (default 0%nat (m !! key a))]> m) ∅ l.

Definition count_at (acc : gmap (string * string) Count) (s t : string) : Count := default (mkCount s t 0 ∅) (acc !! (s, t)).

Definition add_live (gs : list Grant) (acc : gmap (string * string) Count) (g : (string * string * list string) * nat)
    : gmap (string * string) Count :=
  let '((s, t, audience), n) := g in
  if negb (rowVisible gs s audience) then acc
  else let c := count_at acc s t in <[(s, t) := mkCount s t (CLive c + n) (CEvents c)]> acc.

Definition add_events (gs : list Grant) (acc : gmap (string * string) Count)
    (g : (string * string * list string * string) * nat) : gmap (string * string) Count :=
  let '((s, t, audience, imp), n) := g in
  if negb (rowVisible gs s audience) then acc
  else let c := count_at acc s t in
       <[(s, t) := mkCount s t (CLive c) (<[imp := (default 0 (CEvents c !! imp) + n)%nat]> (CEvents c))]> acc.

Definition live_where (subs toks : list string) (subject : option string) (p : Identity * currentRow) : bool :=
  negb (cr_removed p.2) && visibleSQL subs toks (subject_of p.1) (cr_audience p.2) && subject_is subject (subject_of p.1).
Definition since_where (subs toks : list string) (subject : option string) (since : Z) (e : event_row) : bool :=
  (since <=? er_observed_at e) && visibleSQL subs toks (subject_of (er_id e)) (er_audience e)
  && subject_is subject (subject_of (er_id e)).

(** sort.Slice by data_subject, record_type *)
Definition count_le (a b : Count) : Prop :=
  if String.eqb (CSubject a) (CSubject b) then str_le (CType a) (CType b) else str_le (CSubject a) (CSubject b).
#[export] Instance count_le_dec a b : Decision (count_le a b).
Proof. unfold count_le. destruct (String.eqb _ _); apply _. Defined.

Definition live_key (p : Identity * currentRow) : string * string * list string := (subject_of p.1, rt_of p.1, cr_audience p.2).
Definition event_key (e : event_row) : string * string * list string * string :=
  (subject_of (er_id e), rt_of (er_id e), er_audience e, er_importance e).

Definition Counts_ (d : db) (ros : option Roster) (reader : string) (subject : option string) (since : Z)
    : res read_error (list Count) :=
  match grantsOf d ros reader with
  | Err e => Err e
  | Ok (gs, _) =>
      let '(subs, toks) := Pairs gs in
      let live := group_by live_key (List.filter (live_where subs toks subject) (map_to_list (current d))) in
      let evs := group_by event_key (List.filter (since_where subs toks subject since) (events d)) in
      let acc := foldl (add_live gs) ∅ (map_to_list live) in
      let acc := foldl (add_events gs) acc (map_to_list evs) in
      Ok (merge_sort count_le (map_to_list acc).*2)
  end.
End read.

#[global] Typeclasses Opaque by_pseudonym newer_snapshot id_le row_le seq_le count_le.

(** ** The reading handlers (httpapi/read.go, httpapi/auth.go) *)

Definition defaultEventLimit : Z := 200.
Definition maxEventLimit : Z := 1000.
Definition defaultCountsDays : Z := 7.

Definition nextCursor (after : Z) (events : list WireEvent) : Z := match last events with None => after | Some w => WSeq w end.

(** url.ParseQuery of a query string: the values of each name. *)
Abbreviation values := (gmap string (list string)).

Definition Get (v : values) (name : string) : string := match v !! name with Some (x :: _) => x | _ => "" end.
Definition optional (v : values) (name : string) : option string :=
  match v !! name with Some (x :: _) => Some x | _ => None end.

Inductive read_answer :=
| AState (rows : list StateRow) (sha : string)
| AEvents (events : list WireEvent) (next : Z)
| ACounts (since : Z) (counts : list Count)
| ADenied (r : Rejection).

Definition bad_request : Rejection := mkRejection 400 "bad_request".

Definition queryParams (q : option values) (allowed : list string) : option values :=
  match q with
  | None => None
  | Some q => if forallb (λ p, existsb (String.eqb p.1) allowed && (length p.2 =? 1)%nat) (map_to_list q) then Some q else None
  end.

Definition readerOK (reader : string) (allowed : bool) : option Rejection :=
  if String.eqb reader "" then Some bad_request else if negb allowed then Some denied else None.

Definition readErr (e : read_error) : read_answer :=
  ADenied match e with
  | ErrUnknownReader => mkRejection 403 ReasonPolicy
  | ErrNoRoster => mkRejection 503 "unavailable"
  | ErrBadQuery => bad_request
  | ErrRow _ _ => mkRejection 500 "internal"
  end.

Section handlers.
Context (text_le : relation string) `{!RelDecision text_le}.
Context (reg : Registry) (roster_sha : Roster → string).
(** strconv.ParseBool; time.Parse with RFC 3339. *)
Context (ParseBool : string → option bool) (ParseTime : string → option Z).

Definition handleState (d : db) (ros : option Roster) (svc : Service) (query : option values) : read_answer :=
  match queryParams query ["reader"; "subject"; "type"; "scope"; "include_removed"] with
  | None => ADenied bad_request
  | Some q =>
      match readerOK (Get q "reader") (MayRead svc (Get q "reader")) with
      | Some rej => ADenied rej
      | None =>
          let sq b := mkStateQuery (Get q "reader") (optional q "subject") (Get q "type") (Get q "scope") b in
          match (match optional q "include_removed" with None => Some false | Some v => ParseBool v end) with
          | None => ADenied bad_request
          | Some b =>
              match StateWithRoster text_le reg roster_sha d ros (sq b) with
              | Err e => readErr e
              | Ok (rows, sha) => AState rows sha
              end
          end
      end
  end.

Definition parse_after (q : values) : option Z :=
  match optional q "after" with
  | None => Some 0
  | Some v => match atoi v with Some n => if n <? 0 then None else Some n | None => None end
  end.
Definition parse_importance (q : values) : option string :=
  match optional q "min_importance" with
  | None => Some Low
  | Some v => if ImportanceRank v =? 0 then None else Some v
  end.
Definition parse_limit (q : values) : option Z :=
  match optional q "limit" with
  | None => Some defaultEventLimit
  | Some v => match atoi v with Some n => if (n <? 1) || (maxEventLimit <? n) then None else Some n | None => None end
  end.

Definition handleEvents (d : db) (ros : option Roster) (svc : Service) (query : option values) : read_answer :=
  match queryParams query ["reader"; "after"; "subject"; "type"; "min_importance"; "limit"] with
  | None => ADenied bad_request
  | Some q =>
      match readerOK (Get q "reader") (MayRead svc (Get q "reader")) with
      | Some rej => ADenied rej
      | None =>
          match parse_after q, parse_importance q, parse_limit q with
          | Some after, Some imp, Some limit =>
              match Events_ text_le reg roster_sha d ros (mkEventsQuery (Get q "reader") after (optional q "subject") (Get q "type") imp limit) with
              | Err e => readErr e
              | Ok events => AEvents events (nextCursor after events)
              end
          | _, _, _ => ADenied bad_request
          end
      end
  end.

Definition handleCounts (d : db) (ros : option Roster) (svc : Service) (now : Z) (query : option values) : read_answer :=
  match queryParams query ["reader"; "subject"; "since"] with
  | None => ADenied bad_request
  | Some q =>
      match readerOK (Get q "reader") (MayCount svc (Get q "reader")) with
      | Some rej => ADenied rej
      | None =>
          match (match optional q "since" with
                 | None => Some (now - defaultCountsDays * 24 * 3600 * 1000000000) | Some v => ParseTime v end) with
          | None => ADenied bad_request
          | Some since =>
              match Counts_ text_le roster_sha d ros (Get q "reader") (optional q "subject") since with
              | Err e => readErr e
              | Ok counts => ACounts since counts
              end
          end
      end
  end.
End handlers.

(** ** Who may call at all (httpapi/auth.go, satoken's parser) *)

Definition maxBearerBytes : nat := 8192.

Definition token68_char (a : ascii) : bool :=
  let z := byte_of a in
  (65 <=? z) && (z <=? 90) || (97 <=? z) && (z <=? 122) || (48 <=? z) && (z <=? 57) || existsb (Ascii.eqb a) ["."; "_"; "~"; "+"; "/"; "-"]%char.

Fixpoint all_padding (s : string) : bool := match s with EmptyString => true | String a r => Ascii.eqb a "=" && all_padding r end.

(** ^[A-Za-z0-9._~+/-]+=*$ *)
Fixpoint token68_tail (s : string) : bool :=
  match s with EmptyString => true | String a r => if token68_char a then token68_tail r else all_padding s end.
Definition token68 (s : string) : bool :=
  match s with EmptyString => false | String a r => token68_char a && token68_tail r end.

(** strings.Cut at the first space. *)
Fixpoint cut_space (s : string) : option (string * string) :=
  match s with
  | EmptyString => None
  | String a r => if Ascii.eqb a " " then Some (""%string, r) else match cut_space r with Some (x, y) => Some (String a x, y) | None => None end
  end.

Inductive auth_error := ErrUnauthenticated | ErrForbidden | ErrAuthUnavailable.

Section auth.
Context (EqualFold : string → string → bool).

(** satoken.BearerToken *)
Definition satoken_BearerToken (header : string) : option string :=
  match cut_space (trim_space header) with
  | None => None
  | Some (scheme, token) =>
      if negb (EqualFold scheme "Bearer") then None
      else
        let token := trim_space token in
        if String.eqb token "" || (maxBearerBytes <? String.length token)%nat || negb (no_char " " token) || negb (no_char "009" token)
        then None else Some token
  end.

(** The values of the header Authorization. *)
Definition bearerToken (vals : list string) : option string :=
  match vals with
  | [h] =>
      if (String.length h <=? 7)%nat || negb (EqualFold (String.substring 0 7 h) "Bearer ") then None
      else
        let tok := String.substring 7 (String.length h - 7) h in
        if (maxBearerBytes <? String.length tok)%nat || negb (token68 tok) then None
        else match satoken_BearerToken h with
        | Some t => if String.eqb t tok then Some tok else None
        | None => None
        end
  | _ => None
  end.

(** A request as route sees it, and what it answers. *)
Definition route {A} (refuse : Rejection → A) (ready : bool) (vals : list string) (slot : bool)
    (Authenticate : string → res auth_error string) (policy : Policy) (h : string → Service → A) : A :=
  if negb ready then refuse (mkRejection 503 "unavailable")
  else match bearerToken vals with
  | None => refuse (mkRejection 401 "unauthenticated")
  | Some token =>
      if negb slot then refuse (mkRejection 503 "unavailable")
      else match Authenticate token with
      | Err ErrUnauthenticated => refuse (mkRejection 401 "unauthenticated")
      | Err ErrForbidden => refuse (mkRejection 403 "forbidden")
      | Err ErrAuthUnavailable => refuse (mkRejection 503 "auth_unavailable")
      | Ok caller =>
          match policy !! caller with
          | None => refuse (mkRejection 403 "forbidden")
          | Some svc => h caller svc
          end
      end
  end.

Inductive read_path := PathState | PathEvents | PathCounts.

Section serve.
Context (text_le : relation string) `{!RelDecision text_le}.
Context (reg : Registry) (roster_sha : Roster → string).
Context (ParseBool : string → option bool) (ParseTime : string → option Z).

(** GET of one of the three reads. *)
Definition serve_read (ready : bool) (vals : list string) (slot : bool) (Authenticate : string → res auth_error string) (policy : Policy)
    (path : read_path) (query : option values) (now : Z) (d : db) (ros : option Roster) : read_answer :=
  route ADenied ready vals slot Authenticate policy (λ _ svc,
    match path with
    | PathState => handleState text_le reg roster_sha ParseBool d ros svc query
    | PathEvents => handleEvents text_le reg roster_sha d ros svc query
    | PathCounts => handleCounts text_le roster_sha ParseTime d ros svc now query
    end).
End serve.
End auth.
