(* ===== verification/JReadFacts.v ===== *)
(** What a read shows: the rows its reader is entitled to, all of them, and
    of their texts those that the scanner passed. *)
From S2P Require Import Prelude GoStrings StrOrder JsonString JRecord JDiff JRules JAccess JStore JErase JFold JJournal JGuarantees JRead.
Local Open Scope Z_scope.

(** ** The two halves of the visibility rule *)

Lemma zip_grants (gs : list Grant) : zip (GSubject <$> gs) (GToken <$> gs) = (λ g, (GSubject g, GToken g)) <$> gs.
Proof. induction gs as [|g gs IH]; [done|]. exact (f_equal (cons (GSubject g, GToken g)) IH). Qed.

Lemma existsb_fmap {A B} (f : A → B) (p : B → bool) l : existsb p (f <$> l) = existsb (λ x, p (f x)) l.
Proof. induction l as [|x l IH]; [done|]. cbn. f_equal. exact IH. Qed.

Lemma existsb_eqb_Exists x l : existsb (String.eqb x) l = true ↔ x ∈ l.
Proof. apply existsb_eqb. Qed.

(** The database and the code agree on every row: no row is dropped by the
    second check. *)
Theorem sql_agrees_with_go gs subject audience :
  visibleSQL (Pairs gs).1 (Pairs gs).2 subject audience = rowVisible gs subject audience.
Proof.
  unfold visibleSQL, rowVisible, Visible, Pairs, IsErased. cbv zeta. simpl fst. simpl snd. rewrite zip_grants, !existsb_fmap. simpl fst. simpl snd.
  destruct (has_prefix ErasedPrefix subject); [done|].
  apply eq_true_iff_eq. rewrite andb_true_iff. split; [by intros [_ H]|]. intros H. split; [|done].
  apply existsb_Exists, Exists_exists. apply orb_true_iff in H as [H|H].
  - apply existsb_eqb_Exists in H. exists Public. split; [done|]. apply existsb_eqb_Exists, elem_of_app. right. left.
  - apply existsb_Exists, Exists_exists in H as (g & Hg & [_ H%existsb_eqb_Exists]%andb_true_iff). exists (GToken g). split; [done|].
    apply existsb_eqb_Exists, elem_of_app. left. by apply list_elem_of_fmap_2.
Qed.

(** ** The events an erase leaves *)

Section erase_events.
Context (P : event_row → Prop).
Context (HP : ∀ rt s s' k scope e, P e → P (rewrite_event (rt, s, k) (rt, s', k) scope e)).

Lemma delete_events_inv p d : Forall P (events d) → Forall P (events (delete_rows p d)).
Proof using Type.
  intros H. unfold delete_rows. simpl. apply Forall_forall. intros e [He _]%elem_of_bool_filter. by eapply Forall_forall in H.
Qed.

Lemma keep_loop_events ros subject p erased notes k d :
  Forall P (events d) → Forall P (events (keep_loop ros subject p erased notes k d).2).
Proof using HP.
  revert k d. induction notes as [|n notes IH]; intros k d H; [done|]. simpl. destruct (frozenReaders _ _ _ _); [by apply IH|].
  apply IH. unfold keep_note. simpl. apply Forall_fmap. eapply Forall_impl; [exact H|]. intros e. apply HP.
Qed.

(** They are events of before, some under a pseudonym. *)
Lemma erase_events ros actor subject p now d : Forall P (events d) → Forall P (events (Erase ros actor subject p now d).2).
Proof using HP.
  intros H. unfold Erase. destruct (negb _); [done|]. destruct ros as [r|]; [|done]. unfold eraseLocked, keepNotes.
  pose proof (keep_loop_events r subject p (es_subject <$> erasures (erase_rule1 subject d)) (notes_about (erase_rule1 subject d) subject) 0
    (erase_rule1 subject d)) as Hk.
  destruct (keep_loop _ _ _ _ _ _ _) as [kept d2]. simpl in Hk |- *.
  apply (delete_events_inv (about subject) (delete_snapshots subject d2)). apply Hk. unfold erase_rule1.
  change (Forall P (events (delete_rows (orphaned (drop_reader subject (delete_rows (authored d subject) d))) (drop_reader subject (delete_rows (authored d subject) d))))).
  apply delete_events_inv. change (Forall P (events (delete_rows (authored d subject) d))). by apply delete_events_inv.
Qed.
End erase_events.

Lemma keep_loop_seq ros subject p erased notes k d : next_seq (keep_loop ros subject p erased notes k d).2 = next_seq d.
Proof.
  revert k d. induction notes as [|n notes IH]; intros k d; [done|]. simpl. destruct (frozenReaders _ _ _ _); [done|]. by rewrite IH.
Qed.

Lemma erase_seq ros actor subject p now d : next_seq (Erase ros actor subject p now d).2 = next_seq d.
Proof.
  unfold Erase. destruct (negb _); [done|]. destruct ros as [r|]; [|done]. unfold eraseLocked, keepNotes.
  pose proof (keep_loop_seq r subject p (es_subject <$> erasures (erase_rule1 subject d)) (notes_about (erase_rule1 subject d) subject) 0
    (erase_rule1 subject d)) as Hk.
  by destruct (keep_loop _ _ _ _ _ _ _) as [kept d2].
Qed.

(** ** What the events hold of the scanner's verdicts *)

Section scanned.
Context (scanner_version : string) (scanner_verdict : string → string).
Context (sha256 sha256_hex : string → string).
Context (rules : RuleSet) (guard : Guard).
Context (validate : string → Z → option (res Rejection Normalized)).
Context (types : list Type_) (reg : Registry).

Local Abbreviation scanNew := (scanNew scanner_verdict).
Local Abbreviation new_entry := (new_entry scanner_version scanner_verdict).
Local Abbreviation buildEvent := (buildEvent scanner_version scanner_verdict sha256_hex rules).
Local Abbreviation built := (built scanner_version scanner_verdict sha256_hex rules).
Local Abbreviation built_rows := (built_rows scanner_version scanner_verdict sha256_hex rules).
Local Abbreviation reachable := (reachable scanner_version scanner_verdict sha256 sha256_hex rules guard validate reg).
Local Abbreviation write := (write scanner_version scanner_verdict sha256 sha256_hex rules guard reg).

(** The rows, and the events by number, whose texts all carry verdicts of
    this scanner: every row and event of a journal that had one scanner. *)
Context (right : string → string → Prop) (right_new : ∀ v, right v (scanNew v)).
Context (all : Identity → Prop) (all_events : Z → Prop).
Local Abbreviation good := (good scanner_version sha256 reg right all).

(** A verdict that was given on that very text. *)
Definition judged (side : EventScan → string) (scan : gmap string EventScan) (k v : string) : Prop :=
  ∃ s, scan !! k = Some s ∧ right v (side s) ∧ EScannerVersion s = scanner_version.

(** What carries this scanner's version is its verdict on that text. *)
Definition verdict_on (seq : Z) (side : EventScan → string) (scan : gmap string EventScan) (k v : string) : Prop :=
  (all_events seq → judged side scan k v) ∧
  ∀ s, scan !! k = Some s → EScannerVersion s = scanner_version → right v (side s).

Lemma verdict_intro seq side scan k v s :
  scan !! k = Some s → (all_events seq ∨ EScannerVersion s = scanner_version → right v (side s)) →
  (all_events seq → EScannerVersion s = scanner_version) → verdict_on seq side scan k v.
Proof using Type. intros Hs H Hver. split; [intros Ha; exists s; auto|]. intros s' Hs' Hv. simplify_eq. auto. Qed.

(** An event whose texts have verdicts, in the sense of [V], and nothing
    else has. *)
Definition event_shape (V : (EventScan → string) → gmap string EventScan → string → string → Prop) (e : event_row) : Prop :=
  ∃ t, Active reg (rt_of (er_id e)) = Some t ∧ er_version e = SchemaVersion t ∧
  (∀ k, IsText t k = false → er_scan e !! k = None) ∧
  match er_kind e with
  | Created | Restored =>
      ∃ f, er_fields e = Some f ∧ content_ok f ∧ ∀ k v, f !! k = Some v → IsText t k = true → V ENew (er_scan e) k v
  | Updated =>
      ∃ m, er_changed e = ChangedFields m ∧ ∀ k c, m !! k = Some c → IsText t k = true →
        (∀ v, nilIfNull (Old c) = Some v → V EOld (er_scan e) k v) ∧ (∀ v, nilIfNull (NewV c) = Some v → V ENew (er_scan e) k v)
  | Removed =>
      ∃ f, er_changed e = RemovedFields f ∧ content_ok f ∧ ∀ k v, f !! k = Some v → IsText t k = true → V EOld (er_scan e) k v
  end.

Lemma event_shape_mono (V W : (EventScan → string) → gmap string EventScan → string → string → Prop) e :
  (∀ side scan k v, V side scan k v → W side scan k v) → event_shape V e → event_shape W e.
Proof using Type.
  intros HVW (t & Ht & Hv & Hn & H). exists t. split_and!; [done..|]. destruct (er_kind e).
  all: first [destruct H as (f & Hf & Hc & H); exists f; split_and!; auto|idtac].
  destruct H as (m & Hm & H). exists m. split; [done|]. intros k c Hk Hx. destruct (H k c Hk Hx). auto.
Qed.

Definition event_scanned (e : event_row) : Prop := event_shape (verdict_on (er_seq e)) e.

Definition events_scanned (d : db) : Prop := Forall event_scanned (events d).

Lemma nilIfNull_some o v : nilIfNull o = Some v → o = Some v.
Proof using Type. destruct o as [s|]; simpl; [by destruct (String.eqb s "null")|done]. Qed.

Lemma change_old b a c v : change b a = Some c → Old c = Some v → b = Some v.
Proof.
  destruct b as [w|], a as [x|]; simpl; [destruct (String.eqb _ _)..| |]; intros; by simplify_eq/=.
Qed.

(** Either every row is one of [all], or no event needs be. *)
Context (Hall : (∀ id, all id) ∨ (scanner_version ≠ ""%string ∧ ∀ seq, ¬ all_events seq)).

Lemma entry_verdict id seq t f prev k v ver :
  scanned_in scanner_version right (all id) t f (CScan prev) → f !! k = Some v → IsText t k = true →
  (ver = scanner_version → ver ≠ ""%string → ScannerVersion (prev_entry prev k) = scanner_version) →
  all_events seq ∨ ver = scanner_version → right v (Verdict (prev_entry prev k)).
Proof using Hall.
  intros Hs Hf Ht Hver Hw. unfold prev_entry in *. destruct Hall as [Ha|[Hne Hno]].
  - destruct Hs as [H1 H2]. destruct (H2 (Ha id) k v Hf Ht) as [e He]. rewrite He. simpl.
    destruct (H1 k e He) as (v' & Hf' & _ & Hr). simplify_eq. apply Hr. by left.
  - destruct Hw as [Hw|Hw]; [by apply Hno in Hw|]. assert (Hv : ScannerVersion (default (mkScanEntry "" "") (CScan prev !! k)) = scanner_version)
      by (apply Hver; congruence).
    destruct (CScan prev !! k) as [e|] eqn:He; simpl in Hv; [|by subst].
    destruct Hs as [H1 _]. destruct (H1 k e He) as (v' & Hf' & _ & Hn). simplify_eq. simpl. apply Hn. by right.
Qed.

Lemma entry_version id seq t f prev k v :
  scanned_in scanner_version right (all id) t f (CScan prev) → f !! k = Some v → IsText t k = true →
  all_events seq → ScannerVersion (prev_entry prev k) = scanner_version.
Proof using Hall.
  intros Hs Hf Ht Hw. unfold prev_entry. destruct Hall as [Ha|[_ Hno]]; [|by apply Hno in Hw].
  destruct Hs as [H1 H2]. destruct (H2 (Ha id) k v Hf Ht) as [e He]. rewrite He. simpl.
  destruct (H1 k e He) as (v' & _ & _ & Hr). apply Hr. by left.
Qed.

Lemma updated_verdicts id seq t prev e after :
  EAfter e = Some after → EChanged e = changes (CFields prev) after → values_ok (CFields prev) →
  scanned_in scanner_version right (all id) t (CFields prev) (CScan prev) →
  ∀ k c, EChanged e !! k = Some c → IsText t k = true →
  let scan := text_fields t (updated_side scanner_version scanner_verdict prev) (EChanged e) in
  (∀ v, nilIfNull (Old c) = Some v → verdict_on seq EOld scan k v) ∧ (∀ v, nilIfNull (NewV c) = Some v → verdict_on seq ENew scan k v).
Proof using Hall right_new.
  intros Haf Hch Hv Hsc k c Hc Ht. cbv zeta.
  assert (Hs : text_fields t (updated_side scanner_version scanner_verdict prev) (EChanged e) !! k
               = Some (updated_side scanner_version scanner_verdict prev k c)).
  { rewrite text_fields_lookup, Ht, Hc. done. }
  assert (Hold : ∀ v, Old c = Some v → CFields prev !! k = Some v).
  { intros v E. rewrite Hch, changes_lookup in Hc. by eapply change_old. }
  assert (Hver : all_events seq → EScannerVersion (updated_side scanner_version scanner_verdict prev k c) = scanner_version).
  { intros Hw. unfold updated_side. destruct (Old c) as [v|] eqn:E; [|done]. simpl.
    rewrite (entry_version id seq t (CFields prev) prev k v) by auto. by rewrite String.eqb_refl. }
  split; intros v E%nilIfNull_some; (eapply verdict_intro; [exact Hs| |exact Hver]).
  - unfold updated_side. rewrite E. simpl. apply (entry_verdict id _ t (CFields prev)); [by auto..|].
    destruct (String.eqb_spec (ScannerVersion (prev_entry prev k)) scanner_version); [done|]. by intros _ [].
  - intros _. unfold updated_side. rewrite E. destruct (Old c); apply right_new.
Qed.

Section one.
Context (t : Type_) (subject : string) (src : eventSource) (d : db) (i : Input).
Context (Hi : plan_input sha256 reg t subject d i) (Hd : rows_ok scanner_version sha256 reg right all d).
Context (Hsha : ∀ x y, sha256 x = sha256 y → x = y).

Lemma build_scanned e seq :
  e ∈ plan_events i → event_scanned ((buildEvent t subject src (prev_of i e) e).1 seq).
Proof using Type Hall right_new Hi Hd Hsha.
  intros He. pose proof (plan_input_ok _ _ _ _ _ Hsha _ _ _ _ Hi Hd) as Hok.
  pose proof (pi_active _ _ _ _ _ _ Hi) as Hact. exists t.
  assert (Hfresh : ∀ f k v, f !! k = Some v → IsText t k = true →
    verdict_on seq ENew (text_fields t (λ _ v, mkEventScan "" (scanNew v) scanner_version) f) k v).
  { intros f k v Hk Ht. eapply verdict_intro; [by rewrite text_fields_lookup, Ht, Hk|done|done]. }
  assert (Hnone : ∀ {A B} (g : string → A → B) f k, IsText t k = false → text_fields t g f !! k = None).
  { intros A B g f k Hk. by rewrite text_fields_lookup, Hk. }
  assert (Hid : ∀ x, rt_of (er_id ((buildEvent t subject src x e).1 seq)) = TName t).
  { intros x. destruct (build_seq scanner_version scanner_verdict sha256_hex rules t subject src x e seq) as [_ ->]. done. }
  rewrite Hid. split; [done|]. unfold prev_of.
  apply elem_of_app in He as [(r & Hr & Hc)%elem_of_events|[Hcomp [k Hk]]%elem_of_removals].
  - pose proof (classify_event _ _ _ Hc) as (Ek & Es & Ea & Hnr & Hcase).
    pose proof (pi_records _ _ _ _ _ _ Hi r Hr) as [Hcont _]. rewrite Ek.
    destruct (InCurrent i !! NKey r) as [c|] eqn:Hcur; simpl.
    + destruct (plan_input_current _ _ _ _ _ _ _ _ _ _ _ Hi Hd Hcur) as (row & _ & Ec & Hrow).
      destruct Hcase as [_ [(Hk & _ & Haf)|(Hk & _ & Haf & Hch)]]; unfold JStore.buildEvent; rewrite Hk, Haf; simpl; (split_and!; [done|apply Hnone|]).
      * exists (NFields r). split_and!; [done|done|]. apply Hfresh.
      * exists (EChanged e). split; [done|]. eapply (updated_verdicts (TName t, subject, NKey r)); [exact Haf|exact Hch|..]; subst c; simpl.
        -- apply (row_content _ _ _ _ _ _ _ Hrow).
        -- by apply (row_scanned_in _ _ _ _ _ _ _ Hrow).
    + destruct Hcase as [Hk Haf]. unfold JStore.buildEvent. rewrite Hk, Haf. simpl. split_and!; [done|apply Hnone|].
      exists (NFields r). split_and!; [done|done|]. apply Hfresh.
  - apply removal_spec in Hk as (c & Hcur & Hno & Hlive & Hnew & Ek & Hkind & Es & Ea & Ebe & _).
    destruct (plan_input_current _ _ _ _ _ _ _ _ _ _ _ Hi Hd Hcur) as (row & _ & Ec & Hrow).
    rewrite Ek, Hcur. unfold JStore.buildEvent. rewrite Hkind, Ebe. simpl. split_and!; [done|apply Hnone|]. subst c. simpl.
    exists (cr_fields row). split_and!; [done|apply (row_content _ _ _ _ _ _ _ Hrow)|]. intros f v Hf Ht.
    eapply verdict_intro; [by rewrite text_fields_lookup, Ht, Hf|..].
    all: pose proof (row_scanned_in _ _ _ _ _ _ _ Hrow t Hact) as Hsc; simpl.
    + by eapply entry_verdict.
    + by eapply entry_version.
Qed.

Lemma built_rows_scanned cur n l :
  (∀ e, e ∈ plan_events i → cur !! EKey e = InCurrent i !! EKey e) → (∀ e, e ∈ l → e ∈ plan_events i) →
  Forall event_scanned (built_rows t subject src cur n l).
Proof using Type Hall right_new Hi Hd Hsha.
  intros Hcur. revert n. induction l as [|e l IH]; intros n Hl; [constructor|]. simpl. constructor.
  - unfold JFold.built. rewrite (Hcur e) by (apply Hl; left). apply build_scanned. apply Hl. left.
  - apply IH. intros x Hx. apply Hl. by right.
Qed.

Lemma writePlan_scanned cur :
  (∀ e, e ∈ plan_events i → cur !! EKey e = InCurrent i !! EKey e) → events_scanned d →
  events_scanned (writePlan scanner_version scanner_verdict sha256 sha256_hex rules t subject src cur (Diff i) d).
Proof using Type Hall right_new Hi Hd Hsha.
  intros Hcur He. unfold events_scanned.
  destruct (writePlan_tables scanner_version scanner_verdict sha256 sha256_hex rules t subject src d i cur) as (-> & _).
  apply Forall_app. split; [done|]. by apply built_rows_scanned.
Qed.
End one.

Lemma write_scanned ros d d' :
  (∀ x y, sha256 x = sha256 y → x = y) → write ros d d' → good d → events_scanned d → events_scanned d'.
Proof.
  intros Hsha Hw Hg He. destruct Hw as [|id|n writer payload now cid Hn Hb _|n now writer Hn Hb Hm]; [done| | |].
  - destruct (discard_same d id) as [(_ & E & _) _]. unfold events_scanned. by rewrite E.
  - destruct (ordering_cases scanner_version scanner_verdict sha256 sha256_hex rules guard d n writer payload now cid)
      as [(_ & _ & (_ & E & _) & _)|(s & st & _ & _ & _ & (_ & E & _) & _)]; unfold events_scanned; rewrite E; [|done].
    eapply writePlan_scanned; [by apply snapshot_plan_input|apply Hg|done|done|done].
  - unfold note_write. rewrite note_plan.
    eapply writePlan_scanned; [by apply note_plan_input|apply Hg|done| |done].
    intros e Hin. rewrite (note_plan_keys _ _ _ _ Hin). apply note_input_row.
Qed.

(** An erase drops events or moves them to a pseudonym. *)
Lemma rewrite_scanned rt s s' k k' scope e : event_scanned e → event_scanned (rewrite_event (rt, s, k) (rt, s', k') scope e).
Proof.
  intros (t & Ht & Hv & H). unfold rewrite_event. case_bool_decide as E; [|by exists t].
  exists t. rewrite E in Ht. done.
Qed.

Lemma erase_scanned ros actor subject p now d : events_scanned d → events_scanned (Erase ros actor subject p now d).2.
Proof. apply erase_events. intros. by apply rewrite_scanned. Qed.

End scanned.

Lemma reachable_scanned scanner_version scanner_verdict sha256 sha256_hex rules guard validate types reg d :
  config_ok sha256 validate types reg →
  reachable scanner_version scanner_verdict sha256 sha256_hex rules guard validate reg d →
  events_scanned scanner_version reg (is_new scanner_verdict) (λ _, True) d.
Proof.
  intros Hc Hd. induction Hd as [hs Hs|d c Hd IH Hok]; [constructor|].
  pose proof (good_reachable scanner_version scanner_verdict sha256 sha256_hex rules guard validate types reg d Hc Hd) as Hg.
  destruct Hc as [_ Hsha Hval]. destruct (is_erase c) eqn:He.
  - unfold step, is_erase in *. destruct (c_op c); try done. by apply erase_scanned.
  - eapply (write_scanned scanner_version scanner_verdict sha256 sha256_hex rules guard reg (is_new scanner_verdict) (right_is_new _) (λ _, True)); [by left|done| |exact Hg|done].
    by apply (step_write scanner_version scanner_verdict sha256 sha256_hex rules guard validate).
Qed.

(** Every text of every event carries the scanner's verdict on it. *)
Lemma reachable_judged scanner_version scanner_verdict sha256 sha256_hex rules guard validate types reg d :
  config_ok sha256 validate types reg →
  reachable scanner_version scanner_verdict sha256 sha256_hex rules guard validate reg d →
  Forall (event_shape reg (judged scanner_version (is_new scanner_verdict))) (events d).
Proof.
  intros Hc Hd. eapply Forall_impl; [by eapply reachable_scanned|]. intros e. apply event_shape_mono.
  intros side scan k v [H _]. by apply H.
Qed.

(** ** What a reader is answered *)

Section reads.
Context (scanner_version : string) (scanner_verdict : string → string).
Context (sha256 sha256_hex : string → string).
Context (rules : RuleSet) (guard : Guard).
Context (validate : string → Z → option (res Rejection Normalized)).
Context (types : list Type_) (reg : Registry).
Context (text_le : relation string) `{!RelDecision text_le, !Total text_le, !Transitive text_le, !AntiSymm eq text_le}.
Context (roster_sha : Roster → string).

Local Abbreviation reachable := (reachable scanner_version scanner_verdict sha256 sha256_hex rules guard validate reg).
Local Abbreviation config_ok := (config_ok sha256 validate types reg).
Local Abbreviation event_scanned := (event_shape reg (judged scanner_version (is_new scanner_verdict))).
Local Abbreviation grantsOf := (grantsOf text_le roster_sha).
Local Abbreviation StateWithRoster := (StateWithRoster text_le reg roster_sha).
Local Abbreviation Events_ := (Events_ text_le reg roster_sha).
Local Abbreviation Counts_ := (Counts_ text_le roster_sha).
Local Abbreviation wire_event := (wire_event reg).

(** A member's grants: those of the roster, and one for each kept note that
    was frozen for the member. *)
Inductive reader_grant (d : db) (r : Roster) (reader : string) : Grant → Prop :=
| roster_grant gs g : r !! reader = Some gs → g ∈ gs → reader_grant d r reader g
| author_grant rd frozen :
    rd ∈ erasure_reader d → rd_member rd = reader → erasure_kept d !! rd_pseudonym rd = Some frozen → rd_author rd = true →
    reader_grant d r reader (mkGrant (rd_pseudonym rd) ErasedAuthor)
| frozen_reader_grant rd frozen :
    rd ∈ erasure_reader d → rd_member rd = reader → erasure_kept d !! rd_pseudonym rd = Some frozen → rd_author rd = false →
    reader_grant d r reader (mkGrant (rd_pseudonym rd) (ReaderToken frozen)).

(** A reader who is let in, with the grants the answer is filtered by. *)
Definition admitted (d : db) (ros : option Roster) (reader : string) (gs : list Grant) : Prop :=
  ∃ r, ros = Some r ∧ is_Some (r !! reader) ∧ (reader ∉ es_subject <$> erasures d) ∧
       ∀ g, g ∈ gs ↔ reader_grant d r reader g.

Lemma is_erased_spec d m : is_erased d m = true ↔ m ∈ es_subject <$> erasures d.
Proof using Type.
  unfold is_erased. rewrite <- existsb_eqb, existsb_fmap.
  induction (erasures d) as [|e l IH]; [done|]. simpl. rewrite !orb_true_iff, IH, String.eqb_sym. done.
Qed.

Lemma grantsOf_ok d ros reader gs sha :
  grantsOf d ros reader = Ok (gs, sha) → admitted d ros reader gs ∧ roster_sha <$> ros = Some sha.
Proof using Type.
  unfold JRead.grantsOf. destruct ros as [r|]; [|done]. simpl. destruct (r !! reader) as [rg|] eqn:Hr; [|done].
  destruct (is_erased d reader) eqn:He; [done|]. intros [= <- <-]. split; [|done]. exists r. split_and!; [done|by rewrite Hr| |].
  { rewrite <- is_erased_spec. by rewrite He. }
  intros g. rewrite elem_of_app, list_elem_of_omap. setoid_rewrite (merge_sort_Permutation (by_pseudonym text_le)).
  setoid_rewrite elem_of_bool_list_filter. setoid_rewrite String.eqb_eq. unfold frozen_grant. split.
  - intros [H|(rd & [H1 H2] & H3)]; [by eapply roster_grant|].
    destruct (erasure_kept d !! rd_pseudonym rd) as [frozen|] eqn:Hk; [|done]. injection H3 as <-.
    destruct (rd_author rd) eqn:Ha; [by eapply author_grant|by eapply frozen_reader_grant].
  - intros [gs g' H1 H2|rd frozen H1 H2 H3 H4|rd frozen H1 H2 H3 H4]; [left; congruence|right..]; exists rd; by rewrite H3, H4.
Qed.

(** *** Current rows *)

(** A value as the scanner lets it through. *)
Definition passes (v : string) : bool := String.eqb (scanner_verdict (default "" (unmarshal_string v))%string) VerdictPass.
Definition shown (t : Type_) (k v : string) : string := if IsText t k && negb (passes v) then encode_string WithheldScan else v.

Definition state_sees (gs : list Grant) (q : StateQuery) (p : Identity * currentRow) : bool :=
  Visible gs (subject_of p.1) (cr_audience p.2)
  && subject_is (SQSubject q) (subject_of p.1) && eq_or_all (SQType q) (rt_of p.1)
  && eq_or_all (SQScope q) (cr_scope p.2) && (SQIncludeRemoved q || negb (cr_removed p.2)).

Definition visible_rows (gs : list Grant) (q : StateQuery) (d : db) : list (Identity * currentRow) :=
  merge_sort (row_le text_le) (List.filter (state_sees gs q) (map_to_list (current d))).

Lemma omap_all {A B} (f : A → option B) (g : A → B) (l : list A) : (∀ x, x ∈ l → f x = Some (g x)) → omap f l = g <$> l.
Proof using Type.
  induction l as [|x l IH]; intros H; [done|]. simpl. rewrite H by left. f_equal. apply IH. intros y Hy. apply H. by right.
Qed.

Lemma filter_ext_bool {A} (f g : A → bool) l : (∀ x, f x = g x) → List.filter f l = List.filter g l.
Proof using Type. intros H. apply filter_ext. exact H. Qed.

Lemma StateWithRoster_eq d ros q gs sha :
  grantsOf d ros (SQReader q) = Ok (gs, sha) →
  StateWithRoster d ros q = Ok ((λ p, state_row reg d p.1 p.2) <$> visible_rows gs q d, sha).
Proof using Type.
  intros H. unfold JRead.StateWithRoster. rewrite H. destruct (Pairs gs) as [subs toks] eqn:Hp. f_equal. f_equal.
  assert (E : List.filter (state_where subs toks q) (map_to_list (current d)) = List.filter (state_sees gs q) (map_to_list (current d))).
  { apply filter_ext_bool. intros p. unfold state_where, state_sees. pose proof (sql_agrees_with_go gs (subject_of p.1) (cr_audience p.2)) as Hs.
    rewrite Hp in Hs. simpl in Hs. by rewrite Hs. }
  rewrite E. apply omap_all. intros p. unfold visible_rows. rewrite (merge_sort_Permutation (row_le text_le)), elem_of_bool_list_filter.
  intros [_ Hs]. unfold rowVisible. unfold state_sees in Hs. by destruct (Visible _ _ _).
Qed.

Lemma id_le_total : Total (id_le text_le).
Proof using Type*.
  intros a b. unfold id_le. rewrite (String.eqb_sym (rt_of b)), (String.eqb_sym (subject_of b)).
  repeat destruct (String.eqb _ _); apply (total text_le).
Qed.

Lemma id_le_trans : Transitive (id_le text_le).
Proof using Type*.
  intros [[a1 a2] a3] [[b1 b2] b3] [[c1 c2] c3]. unfold id_le, rt_of, subject_of, key_of. simpl.
  destruct (String.eqb_spec a1 b1) as [->|H1], (String.eqb_spec b1 c1) as [->|H2]; rewrite ?String.eqb_refl.
  - destruct (String.eqb_spec a2 b2) as [->|H3], (String.eqb_spec b2 c2) as [->|H4]; rewrite ?String.eqb_refl.
    + by intros; etrans.
    + destruct (String.eqb_spec b2 c2); done.
    + destruct (String.eqb_spec a2 c2); done.
    + intros Hab Hbc. destruct (String.eqb_spec a2 c2) as [->|]; [|by etrans]. exfalso. apply H3. by apply (anti_symm text_le).
  - destruct (String.eqb_spec b1 c1); done.
  - destruct (String.eqb_spec a1 c1); done.
  - intros Hab Hbc. destruct (String.eqb_spec a1 c1) as [->|]; [|by etrans]. exfalso. apply H1. by apply (anti_symm text_le).
Qed.

Lemma visible_rows_spec gs q d id c :
  (id, c) ∈ visible_rows gs q d ↔ current d !! id = Some c ∧ state_sees gs q (id, c) = true.
Proof using Type.
  unfold visible_rows. by rewrite (merge_sort_Permutation (row_le text_le)), elem_of_bool_list_filter, elem_of_map_to_list.
Qed.

Lemma visible_rows_sorted gs q d : StronglySorted (id_le text_le) (visible_rows gs q d).*1 ∧ NoDup (visible_rows gs q d).*1.
Proof using Type*.
  split.
  - assert (H : StronglySorted (row_le text_le) (visible_rows gs q d)).
    { assert (Total (row_le text_le)) by (intros a b; apply id_le_total).
      assert (Transitive (row_le text_le)) by (intros a b c; apply id_le_trans). apply StronglySorted_merge_sort; apply _. }
    induction H as [|x l Hs IH Hx]; [constructor|]. simpl. constructor; [done|]. by apply Forall_fmap.
  - unfold visible_rows. rewrite (merge_sort_Permutation (row_le text_le)). pose proof (NoDup_fst_map_to_list (current d)) as H.
    induction (map_to_list (current d)) as [|x l IH]; [constructor|]. simpl in H |- *. apply NoDup_cons in H as [Hx H].
    destruct (state_sees gs q x); [|by apply IH]. simpl. constructor; [|by apply IH].
    intros (y & E & [Hy _]%elem_of_bool_list_filter)%list_elem_of_fmap. apply Hx. rewrite E. by apply list_elem_of_fmap_2.
Qed.

Definition selected (q : StateQuery) (id : Identity) (c : currentRow) : Prop :=
  (∀ s, SQSubject q = Some s → subject_of id = s) ∧ (SQType q = ""%string ∨ rt_of id = SQType q) ∧
  (SQScope q = ""%string ∨ cr_scope c = SQScope q) ∧ (cr_removed c = true → SQIncludeRemoved q = true).

Lemma subject_is_spec q x : subject_is q x = true ↔ ∀ s, q = Some s → x = s.
Proof using Type. destruct q as [s|]; simpl; [rewrite String.eqb_eq|done]. split; [by intros -> ? [= <-]|]. intros H. by apply H. Qed.
Lemma eq_or_all_spec q x : eq_or_all q x = true ↔ q = ""%string ∨ x = q.
Proof using Type. unfold eq_or_all. by rewrite orb_true_iff, !String.eqb_eq. Qed.

Lemma state_sees_spec gs q id c :
  state_sees gs q (id, c) = true ↔ Visible gs (subject_of id) (cr_audience c) = true ∧ selected q id c.
Proof using Type.
  unfold state_sees, selected. simpl. rewrite !andb_true_iff, subject_is_spec, !eq_or_all_spec, orb_true_iff, negb_true_iff.
  destruct (cr_removed c), (SQIncludeRemoved q); clear; intuition done.
Qed.

(** The rows of a reachable state are of active types. *)
Lemma reachable_active d id c :
  config_ok → reachable d → current d !! id = Some c → ∃ t, Active reg (rt_of id) = Some t.
Proof using Type.
  intros Hc Hd Hr. pose proof (good_reachable _ _ _ _ _ _ _ _ _ d Hc Hd) as Hg. pose proof (good_linked _ _ _ _ _ _ Hg id c Hr) as Hl.
  pose proof (reachable_judged _ _ _ _ _ _ _ _ _ d Hc Hd) as Hs. apply last_Some_elem_of in Hl.
  apply list_elem_of_fmap in Hl as (e & _ & [He Hin]%list_elem_of_filter).
  eapply Forall_forall in Hs; [|exact Hin]. destruct Hs as (t & Ht & _). exists t. by rewrite <- He.
Qed.

Lemma state_fields d id c t k :
  config_ok → reachable d → current d !! id = Some c → Active reg (rt_of id) = Some t →
  SFields (state_row reg d id c) !! k = (λ v, Some (shown t k v)) <$> cr_fields c !! k.
Proof using Type.
  intros Hc Hd Hr Ht. pose proof (good_reachable _ _ _ _ _ _ _ _ _ d Hc Hd) as Hg.
  pose proof (row_scanned _ _ _ _ _ _ _ (good_rows _ _ _ _ _ _ Hg id c Hr) I t Ht k) as Hs.
  simpl. rewrite map_lookup_imap. destruct (cr_fields c !! k) as [v|] eqn:Hv; [|done]. simpl. f_equal.
  unfold mask_field, shown, kind_is_text. rewrite Ht, Hs. destruct (IsText t k); simpl; [|done].
  unfold JStore.scanNew, passes. by destruct (String.eqb _ VerdictPass).
Qed.

(** C7. The state a reader gets.  In every reachable state, a read that is
    answered is a read of a roster member who was not erased; the rows are
    exactly the current rows that the member's grants make visible and the
    query selects, in order and each once; and each value is the stored one,
    a text only if the scanner passes that very text, the marker otherwise. *)
Theorem state_shows_exactly d ros q rows sha :
  config_ok → reachable d → StateWithRoster d ros q = Ok (rows, sha) →
  ∃ gs, admitted d ros (SQReader q) gs ∧ roster_sha <$> ros = Some sha ∧
    (∀ id, id ∈ SId <$> rows ↔
       ∃ c, current d !! id = Some c ∧ Visible gs (subject_of id) (cr_audience c) = true ∧ selected q id c) ∧
    StronglySorted (id_le text_le) (SId <$> rows) ∧ NoDup (SId <$> rows) ∧
    ∀ w, w ∈ rows → ∃ c t, current d !! SId w = Some c ∧ Active reg (rt_of (SId w)) = Some t ∧
      SScope w = cr_scope c ∧ SAudience w = cr_audience c ∧ SRemoved w = cr_removed c ∧ SConfirmedAt w = cr_confirmed_at c ∧
      ∀ k, SFields w !! k = (λ v, Some (shown t k v)) <$> cr_fields c !! k.
Proof using Type*.
  intros Hc Hd H. destruct (grantsOf d ros (SQReader q)) as [[gs sha']|e] eqn:Hg;
    [|unfold JRead.StateWithRoster in H; by rewrite Hg in H].
  rewrite (StateWithRoster_eq d ros q gs sha' Hg) in H. injection H as <- <-. destruct (grantsOf_ok _ _ _ _ _ Hg) as [Ha Hsha].
  exists gs. assert (Hids : SId <$> ((λ p, state_row reg d p.1 p.2) <$> visible_rows gs q d) = (visible_rows gs q d).*1)
    by (rewrite <- list_fmap_compose; by apply list_fmap_ext).
  rewrite Hids. destruct (visible_rows_sorted gs q d) as [Hs Hn]. split_and!; [done..| |done|done|].
  - intros id. rewrite list_elem_of_fmap. split.
    + intros ([id' c] & -> & [H1 H2%state_sees_spec]%visible_rows_spec). by exists c.
    + intros (c & H1 & H2). exists (id, c). split; [done|]. by apply visible_rows_spec, conj, state_sees_spec.
  - intros w ([id c] & -> & [H1 _]%visible_rows_spec)%list_elem_of_fmap. destruct (reachable_active d id c Hc Hd H1) as [t Ht].
    exists c, t. split_and!; try done. intros k. by apply state_fields.
Qed.

(** *** Events *)

Definition min_of (q : EventsQuery) : string := if String.eqb (EQMinImportance q) "" then Low else EQMinImportance q.
Definition bad_query (q : EventsQuery) : bool :=
  (EQLimit q <? 1) || (MaxEventsLimit <? EQLimit q) || (EQAfter q <? 0) || (ImportanceRank (min_of q) =? 0).

Definition events_see (gs : list Grant) (q : EventsQuery) (e : event_row) : bool :=
  (EQAfter q <? er_seq e) && Visible gs (subject_of (er_id e)) (er_audience e)
  && subject_is (EQSubject q) (subject_of (er_id e)) && eq_or_all (EQType q) (rt_of (er_id e))
  && existsb (String.eqb (er_importance e)) (AtLeast (min_of q)).

Definition may_see_old (gs : list Grant) (e : event_row) : bool :=
  match er_prev_audience e with None => true | Some prev => Visible gs (subject_of (er_id e)) prev end.
Definition wire_new (t : Type_) (k : string) (v : wire) : wire := shown t k <$> nilIfNull v.
Definition wire_old (gs : list Grant) (e : event_row) (t : Type_) (k : string) (v : wire) : wire :=
  if may_see_old gs e then shown t k <$> nilIfNull v else Some (encode_string WithheldAudience).

(** The texts of an event. *)
Inductive text_in (t : Type_) (e : event_row) (k v : string) : Prop :=
| text_field f : (er_kind e = Created ∨ er_kind e = Restored) → er_fields e = Some f → f !! k = Some v → IsText t k = true → text_in t e k v
| text_changed m c : er_kind e = Updated → er_changed e = ChangedFields m → m !! k = Some c →
    nilIfNull (Old c) = Some v ∨ nilIfNull (NewV c) = Some v → IsText t k = true → text_in t e k v
| text_removed f : er_kind e = Removed → er_changed e = RemovedFields f → f !! k = Some v → IsText t k = true → text_in t e k v.

(** What an event shows. *)
Record shows (gs : list Grant) (t : Type_) (e : event_row) (w : WireEvent) : Prop := {
  sh_same : WSeq w = er_seq e ∧ WId w = er_id e ∧ WKind w = er_kind e ∧ WScope w = er_scope e ∧ WAudience w = er_audience e
            ∧ WImportance w = er_importance e;
  sh_fields k : WFields w !! k = match er_kind e with
    | Created | Restored => (λ v, Some (shown t k v)) <$> default ∅ (er_fields e) !! k | _ => None end;
  sh_changed k : WChanged w !! k = match er_kind e, er_changed e with
    | Updated, ChangedFields m => (λ c, mkWireChange (wire_old gs e t k (Old c)) (wire_new t k (NewV c))) <$> m !! k | _, _ => None end;
  sh_last k : WLastFields w !! k = match er_kind e, er_changed e with
    | Removed, RemovedFields f => (λ v, Some (shown t k v)) <$> f !! k | _, _ => None end;
  sh_prev : may_see_old gs e = false → WPrevScope w = ""%string ∧ WPrevObservedAt w = None;
  sh_group : WGroupKey w ≠ ""%string → er_group_key e = Some (WGroupKey w) ∧ ∀ k v, text_in t e k v → passes v = true;
  sh_notify : WNotify w = Notices gs (subject_of (er_id e)) (er_notify e);
}.

Lemma renamed_lookup {A B} (name : string → string) (f : string → A → B) (m : gmap string A) k :
  (∀ x, name x = x) → renamed name f m !! k = f k <$> m !! k.
Proof using Type.
  intros Hn. unfold renamed.
  apply option_eq. intros b. rewrite <- elem_of_list_to_map.
  - rewrite list_elem_of_fmap, fmap_Some. split.
    + intros ([x a] & [= -> ->] & H%elem_of_map_to_list). rewrite !Hn. by exists a.
    + intros (a & H & ->). exists (k, a). simpl. rewrite !Hn. split; [done|]. by apply elem_of_map_to_list.
  - rewrite <- list_fmap_compose. rewrite (list_fmap_ext _ fst); [apply NoDup_fst_map_to_list|]. intros i x _. apply Hn.
Qed.

Lemma map_any_false {A} (f : string → A → bool) (m : gmap string A) k a : map_any f m = false → m !! k = Some a → f k a = false.
Proof using Type.
  intros H Hk. unfold map_any in H. pose proof (proj1 (existsb_false _ _) H (k, a)) as Hf. apply Hf. by apply elem_of_map_to_list.
Qed.

Section one_event.
Context (gs : list Grant) (t : Type_) (e : event_row).
Context (Ht : Active reg (rt_of (er_id e)) = Some t) (Hnone : ∀ k, IsText t k = false → er_scan e !! k = None).

Local Abbreviation rt := (rt_of (er_id e)).

(** A text under a verdict given on it. *)
Lemma mask_shown side k v :
  (IsText t k = true → judged scanner_version (is_new scanner_verdict) side (er_scan e) k v) →
  mask_value reg rt (er_scan e) k (Some v) (match er_scan e !! k with Some s => side s | None => "" end) = Some (shown t k v)
  ∧ mask_withholds reg rt (er_scan e) k (Some v) (match er_scan e !! k with Some s => side s | None => "" end)
    = IsText t k && negb (passes v).
Proof using Ht Hnone.
  intros Hv. unfold mask_value, mask_withholds, kind_is_text, shown. rewrite Ht. destruct (IsText t k) eqn:Hk.
  - destruct (Hv eq_refl) as (s & Hs & Hside & _). rewrite Hs. unfold is_new in Hside. rewrite Hside. rewrite orb_true_r. simpl. unfold JStore.scanNew, passes.
    by destruct (String.eqb _ VerdictPass).
  - by rewrite (Hnone k Hk).
Qed.

Lemma mask_null k verdict : mask_value reg rt (er_scan e) k None verdict = None ∧ mask_withholds reg rt (er_scan e) k None verdict = false.
Proof using Type.
  unfold mask_value, mask_withholds. simpl. destruct (bool_decide (is_Some (er_scan e !! k)) || kind_is_text reg rt k); by rewrite ?andb_false_r.
Qed.

Lemma mask_shown_opt side k (o : wire) :
  (∀ v, o = Some v → IsText t k = true → judged scanner_version (is_new scanner_verdict) side (er_scan e) k v) →
  mask_value reg rt (er_scan e) k o (match er_scan e !! k with Some s => side s | None => "" end) = shown t k <$> o
  ∧ (mask_withholds reg rt (er_scan e) k o (match er_scan e !! k with Some s => side s | None => "" end) = false →
     ∀ v, o = Some v → IsText t k = true → passes v = true).
Proof using Ht Hnone.
  intros Ho. destruct o as [v|]; [|split; [apply mask_null|done]].
  destruct (mask_shown side k v (Ho v eq_refl)) as [E1 E2]. split; [exact E1|]. rewrite E2. intros H v' [= <-] Hk. rewrite Hk in H.
  by destruct (passes v).
Qed.
End one_event.


Lemma old_value gs e t k o :
  OldValue gs (subject_of (er_id e)) (default [] (er_prev_audience e)) (bool_decide (is_Some (er_prev_audience e))) (shown t k <$> nilIfNull o)
  = wire_old gs e t k o.
Proof using Type.
  unfold OldValue, wire_old, may_see_old. destruct (er_prev_audience e) as [prev|]; simpl; [|done]. by destruct (Visible _ _ _).
Qed.

Section fill.
Context (gs : list Grant) (t : Type_) (e : event_row).
Context (Ht : Active reg (rt_of (er_id e)) = Some t) (Hnone : ∀ k, IsText t k = false → er_scan e !! k = None).
Context (name : string → string) (Hname : ∀ x, name x = x).

Local Abbreviation rt := (rt_of (er_id e)).
Local Abbreviation verdict_of side k := (match er_scan e !! k with Some s => side s | None => "" end)%string.

Lemma masked_map (side : EventScan → string) (f : Fields) :
  (∀ k v, f !! k = Some v → IsText t k = true → judged scanner_version (is_new scanner_verdict) side (er_scan e) k v) →
  (∀ k, renamed name (λ n v, mask_value reg rt (er_scan e) n (Some v) (verdict_of side n)) f !! k = (λ v, Some (shown t k v)) <$> f !! k) ∧
  (map_any (λ k v, mask_withholds reg rt (er_scan e) (name k) (Some v) (verdict_of side (name k))) f = false →
   ∀ k v, f !! k = Some v → IsText t k = true → passes v = true).
Proof using Ht Hnone Hname.
  intros Hsc. split.
  - intros k. rewrite renamed_lookup by done. destruct (f !! k) as [v|] eqn:Hkv; [|done]. simpl.
    by rewrite (proj1 (mask_shown t e Ht Hnone side k v (Hsc k v Hkv))).
  - intros Hany k v Hkv Hk. pose proof (map_any_false _ _ k v Hany Hkv) as Hf. simpl in Hf.
    rewrite (Hname k), (proj2 (mask_shown t e Ht Hnone side k v (Hsc k v Hkv))), Hk in Hf. by destruct (passes v).
Qed.

Lemma masked_changes (m : gmap string Change) :
  (∀ k c, m !! k = Some c → IsText t k = true →
     (∀ v, nilIfNull (Old c) = Some v → judged scanner_version (is_new scanner_verdict) EOld (er_scan e) k v) ∧ (∀ v, nilIfNull (NewV c) = Some v → judged scanner_version (is_new scanner_verdict) ENew (er_scan e) k v)) →
  (∀ k, renamed name (λ n (c : Change),
     mkWireChange
       (OldValue gs (subject_of (er_id e)) (default [] (er_prev_audience e)) (bool_decide (is_Some (er_prev_audience e)))
          (mask_value reg rt (er_scan e) n (nilIfNull (Old c)) (verdict_of EOld n)))
       (mask_value reg rt (er_scan e) n (nilIfNull (NewV c)) (verdict_of ENew n))) m !! k
   = (λ c, mkWireChange (wire_old gs e t k (Old c)) (wire_new t k (NewV c))) <$> m !! k) ∧
  (map_any (λ k c, mask_withholds reg rt (er_scan e) (name k) (nilIfNull (Old c)) (verdict_of EOld (name k))
                   || mask_withholds reg rt (er_scan e) (name k) (nilIfNull (NewV c)) (verdict_of ENew (name k))) m = false →
   ∀ k c v, m !! k = Some c → nilIfNull (Old c) = Some v ∨ nilIfNull (NewV c) = Some v → IsText t k = true → passes v = true).
Proof using Ht Hnone Hname.
  intros Hsc.
  assert (Ho : ∀ k c, m !! k = Some c → ∀ v, nilIfNull (Old c) = Some v → IsText t k = true → judged scanner_version (is_new scanner_verdict) EOld (er_scan e) k v).
  { intros k c Hkc v Hv Hk. by apply (proj1 (Hsc k c Hkc Hk)). }
  assert (Hn : ∀ k c, m !! k = Some c → ∀ v, nilIfNull (NewV c) = Some v → IsText t k = true → judged scanner_version (is_new scanner_verdict) ENew (er_scan e) k v).
  { intros k c Hkc v Hv Hk. by apply (proj2 (Hsc k c Hkc Hk)). }
  split.
  - intros k. rewrite renamed_lookup by done. destruct (m !! k) as [c|] eqn:Hkc; [|done]. simpl.
    rewrite (proj1 (mask_shown_opt t e Ht Hnone EOld k _ (Ho k c Hkc))), (proj1 (mask_shown_opt t e Ht Hnone ENew k _ (Hn k c Hkc))).
    by rewrite old_value.
  - intros Hany k c v Hkc Hv Hk. pose proof (map_any_false _ _ k c Hany Hkc) as Hf. simpl in Hf. rewrite (Hname k) in Hf.
    apply orb_false_iff in Hf as [Hf1 Hf2]. destruct Hv as [Hv|Hv].
    + by eapply (proj2 (mask_shown_opt t e Ht Hnone EOld k _ (Ho k c Hkc))).
    + by eapply (proj2 (mask_shown_opt t e Ht Hnone ENew k _ (Hn k c Hkc))).
Qed.
End fill.

(** What the values of an event are filled with. *)
Record filled (gs : list Grant) (t : Type_) (e : event_row) (fields : gmap string wire) (changed : gmap string WireChange)
    (last : gmap string wire) (withheld : bool) : Prop := {
  fd_fields k : fields !! k = match er_kind e with Created | Restored => (λ v, Some (shown t k v)) <$> default ∅ (er_fields e) !! k | _ => None end;
  fd_changed k : changed !! k = match er_kind e, er_changed e with
    | Updated, ChangedFields m => (λ c, mkWireChange (wire_old gs e t k (Old c)) (wire_new t k (NewV c))) <$> m !! k | _, _ => None end;
  fd_last k : last !! k = match er_kind e, er_changed e with Removed, RemovedFields f => (λ v, Some (shown t k v)) <$> f !! k | _, _ => None end;
  fd_pass : withheld = false → ∀ k v, text_in t e k v → passes v = true;
}.

Ltac solve_text :=
  match goal with Hin : text_in _ _ _ _ |- _ => destruct Hin as [? Hor| |]; [destruct Hor| |]; simplify_eq; try congruence end;
  try match goal with H1 : er_changed ?e = _, H2 : er_changed ?e = _ |- _ => rewrite H1 in H2; simplify_eq end.

Lemma fill_spec gs e :
  NewRegistry types = Some reg → event_scanned e →
  ∃ t fields changed last withheld, Active reg (rt_of (er_id e)) = Some t ∧
    fillEventValues reg gs e = Some (fields, changed, last, withheld) ∧ filled gs t e fields changed last withheld.
Proof using Type.
  intros Hreg (t & Ht & Hv & Hnone & Hk). exists t. set (name := ForwardName reg (rt_of (er_id e)) (er_version e)).
  assert (Hname : ∀ x, name x = x) by (intros x; unfold name; rewrite Hv; by eapply active_renames_nothing).
  assert (Hverd : renamed name (λ _ s, s) (er_scan e) = er_scan e).
  { apply map_eq. intros k. rewrite renamed_lookup by done. by destruct (er_scan e !! k). }
  unfold fillEventValues. fold name. cbv zeta. rewrite Hverd.
  destruct (er_kind e) eqn:Hkind.
  - destruct Hk as (f & Hf & _ & Hsc). destruct (masked_map t e Ht Hnone name Hname ENew f Hsc) as [H1 H2].
    rewrite Hf. do 4 eexists. split_and!; [done|reflexivity|].
    split; [intros k|intros k|intros k|intros Hw k v Hin]; rewrite ?Hkind, ?Hf; try apply lookup_empty; [apply H1|]. solve_text; eapply (H2 Hw); eauto.
  - destruct Hk as (m & Hm & Hsc). destruct (masked_changes gs t e Ht Hnone name Hname m Hsc) as [H1 H2].
    rewrite Hm. do 4 eexists. split_and!; [done|reflexivity|].
    split; [intros k|intros k|intros k|intros Hw k v Hin]; rewrite ?Hkind, ?Hm; try apply lookup_empty; [apply H1|]. solve_text; eapply (H2 Hw); eauto.
  - destruct Hk as (f & Hf & _ & Hsc). destruct (masked_map t e Ht Hnone name Hname EOld f Hsc) as [H1 H2].
    rewrite Hf. do 4 eexists. split_and!; [done|reflexivity|].
    split; [intros k|intros k|intros k|intros Hw k v Hin]; rewrite ?Hkind, ?Hf; try apply lookup_empty; [apply H1|]. solve_text; eapply (H2 Hw); eauto.
  - destruct Hk as (f & Hf & _ & Hsc). destruct (masked_map t e Ht Hnone name Hname ENew f Hsc) as [H1 H2].
    rewrite Hf. do 4 eexists. split_and!; [done|reflexivity|].
    split; [intros k|intros k|intros k|intros Hw k v Hin]; rewrite ?Hkind, ?Hf; try apply lookup_empty; [apply H1|]. solve_text; eapply (H2 Hw); eauto.
Qed.

Lemma wire_shows gs e :
  NewRegistry types = Some reg → event_scanned e →
  ∃ t w, Active reg (rt_of (er_id e)) = Some t ∧ wire_event gs e = Ok w ∧ shows gs t e w.
Proof using Type.
  intros Hreg Hs. destruct (fill_spec gs e Hreg Hs) as (t & fields & changed & last & withheld & Ht & Hf & [F1 F2 F3 F4]).
  exists t. unfold JRead.wire_event. rewrite Hf. eexists. split_and!; [done|reflexivity|].
  split; simpl; try done.
  - unfold may_see_old. destruct (er_prev_audience e); [|done]. simpl. intros Hm. by rewrite Hm.
  - destruct withheld; [done|]. intros Hg. destruct (er_group_key e); [|done]. split; [done|by apply F4].
Qed.

(** The page of a query: the events it selects, in sequence order. *)
Definition visible_events (gs : list Grant) (q : EventsQuery) (d : db) : list event_row := List.filter (events_see gs q) (events d).

Lemma merge_sort_seq (l : list event_row) : StronglySorted Z.lt (er_seq <$> l) → merge_sort seq_le l = l.
Proof using Type.
  intros Hs. assert (Ht : Total seq_le) by (intros a b; unfold seq_le; lia).
  assert (Htr : Transitive seq_le) by (intros a b c; unfold seq_le; lia).
  apply (StronglySorted_unique_strong seq_le).
  - intros x y Hx%(elem_of_Permutation_proper _ _ _ (merge_sort_Permutation seq_le l)) Hy H1 H2. assert (E : er_seq x = er_seq y) by (unfold seq_le in *; lia).
    clear H1 H2. induction l as [|z l IH]; [by apply elem_of_nil in Hx|]. simpl in Hs. apply StronglySorted_inv in Hs as [Hs Hz].
    rewrite Forall_fmap, Forall_forall in Hz.
    apply elem_of_cons in Hx, Hy. destruct Hx as [Ex|Hx], Hy as [Ey|Hy]; [congruence|subst z..|by apply IH].
    + specialize (Hz _ Hy). simpl in Hz. lia.
    + specialize (Hz _ Hx). simpl in Hz. lia.
  - by apply StronglySorted_merge_sort.
  - clear -Hs. induction l as [|z l IH]; [constructor|]. simpl in Hs. apply StronglySorted_inv in Hs as [Hs Hz]. constructor; [by apply IH|].
    rewrite Forall_fmap in Hz. eapply Forall_impl; [exact Hz|]. intros x Hx. unfold seq_le. simpl in Hx. lia.
  - apply merge_sort_Permutation.
Qed.

Lemma events_loop_all gs l :
  NewRegistry types = Some reg → Forall event_scanned l → (∀ e, e ∈ l → Visible gs (subject_of (er_id e)) (er_audience e) = true) →
  ∃ ws, events_loop reg gs l = Ok ws ∧ Forall2 (λ e w, wire_event gs e = Ok w) l ws.
Proof using Type.
  intros Hreg. induction l as [|e l IH]; intros Hs Hv; [by exists []|]. apply Forall_cons in Hs as [He Hs]. simpl.
  unfold rowVisible. rewrite (Hv e) by left. simpl. destruct (wire_shows gs e Hreg He) as (t & w & _ & Hw & _). rewrite Hw.
  destruct (IH Hs) as (ws & Hws & H2). { intros e' He'. apply Hv. by right. }
  rewrite Hws. exists (w :: ws). by split; [|constructor].
Qed.

Lemma Events_eq d ros q gs sha :
  config_ok → reachable d → grantsOf d ros (EQReader q) = Ok (gs, sha) →
  if bad_query q then Events_ d ros q = Err ErrBadQuery
  else ∃ ws, Events_ d ros q = Ok ws ∧
       Forall2 (λ e w, wire_event gs e = Ok w) (take (Z.to_nat (EQLimit q)) (visible_events gs q d)) ws.
Proof using Type.
  intros Hc Hd Hg. unfold JRead.Events_. rewrite Hg. cbv zeta. fold (min_of q).
  change ((EQLimit q <? 1) || (MaxEventsLimit <? EQLimit q) || (EQAfter q <? 0) || (ImportanceRank (min_of q) =? 0)) with (bad_query q).
  destruct (bad_query q); [done|]. destruct (Pairs gs) as [subs toks] eqn:Hp.
  assert (E : List.filter (events_where subs toks q (min_of q)) (events d) = visible_events gs q d).
  { apply filter_ext_bool. intros e. unfold events_where, events_see. pose proof (sql_agrees_with_go gs (subject_of (er_id e)) (er_audience e)) as Hs.
    rewrite Hp in Hs. simpl in Hs. by rewrite Hs. }
  rewrite E. pose proof (good_reachable _ _ _ _ _ _ _ _ _ d Hc Hd) as Hgood.
  rewrite merge_sort_seq by (apply sorted_filter, Hgood).
  pose proof (reachable_judged _ _ _ _ _ _ _ _ _ d Hc Hd) as Hs.
  apply events_loop_all; [apply Hc| |].
  - apply Forall_take. apply Forall_forall. intros e [He _]%elem_of_bool_list_filter. by eapply Forall_forall in Hs.
  - intros e He%elem_of_take. destruct He as (i & He & _). apply list_elem_of_lookup_2 in He.
    apply elem_of_bool_list_filter in He as [_ He]. unfold events_see in He. by destruct (Visible _ _ _), (EQAfter q <? er_seq e).
Qed.

(** The events a query selects. *)
Definition picks (gs : list Grant) (q : EventsQuery) (e : event_row) : Prop :=
  EQAfter q < er_seq e ∧ Visible gs (subject_of (er_id e)) (er_audience e) = true ∧
  (∀ s, EQSubject q = Some s → subject_of (er_id e) = s) ∧ (EQType q = ""%string ∨ rt_of (er_id e) = EQType q) ∧
  er_importance e ∈ AtLeast (min_of q).

Lemma events_see_spec gs q e : events_see gs q e = true ↔ picks gs q e.
Proof using Type.
  unfold events_see, picks. rewrite !andb_true_iff, Z.ltb_lt, subject_is_spec, eq_or_all_spec, existsb_eqb. clear. tauto.
Qed.

(** C6. The events a reader gets.  In every reachable state, a page of
    events is given to a roster member who was not erased, and never fails on
    a row; it is the first events, up to the limit, after the cursor that the
    member's grants make visible and the query selects, in sequence order.
    What such an event shows ([shows]): each text only if the scanner passed that
    very text; old values, and the previous scope and time, only to those who
    may see the old audience; a group key only if no text is withheld. *)
Theorem events_show_exactly d ros q :
  config_ok → reachable d →
  match Events_ d ros q with
  | Ok ws =>
      ∃ gs, admitted d ros (EQReader q) gs ∧
        Forall2 (λ e w, ∃ t, Active reg (rt_of (er_id e)) = Some t ∧ shows gs t e w)
          (take (Z.to_nat (EQLimit q)) (visible_events gs q d)) ws ∧
        (∀ e, e ∈ visible_events gs q d ↔ e ∈ events d ∧ picks gs q e) ∧
        StronglySorted Z.lt (er_seq <$> visible_events gs q d)
  | Err (ErrRow _ _) => False
  | Err ErrNoRoster => ros = None
  | Err ErrUnknownReader => ∃ r, ros = Some r ∧ (r !! EQReader q = None ∨ EQReader q ∈ es_subject <$> erasures d)
  | Err ErrBadQuery => bad_query q = true
  end.
Proof using Type.
  intros Hc Hd. destruct (grantsOf d ros (EQReader q)) as [[gs sha]|e] eqn:Hg.
  - pose proof (Events_eq d ros q gs sha Hc Hd Hg) as H. destruct (bad_query q) eqn:Hb; [by rewrite H|].
    destruct H as (ws & -> & Hws). exists gs. destruct (grantsOf_ok _ _ _ _ _ Hg) as [Ha _]. split_and!; [done| | |].
    + pose proof (reachable_judged _ _ _ _ _ _ _ _ _ d Hc Hd) as Hs.
      assert (Hsub : ∀ e, e ∈ take (Z.to_nat (EQLimit q)) (visible_events gs q d) → event_scanned e).
      { intros e He%elem_of_take. destruct He as (i & He & _). apply list_elem_of_lookup_2, elem_of_bool_list_filter in He as [He _].
        by eapply Forall_forall in Hs. }
      clear -Hws Hsub Hc. induction Hws as [|e w l ws Hw _ IH]; constructor.
      * destruct (wire_shows gs e (cfg_registry _ _ _ _ Hc) (Hsub e ltac:(left))) as (t & w' & Ht & Hw' & Hsh).
        exists t. split; [done|]. rewrite Hw in Hw'. by injection Hw' as <-.
      * apply IH. intros e' He'. apply Hsub. by right.
    + intros e. unfold visible_events. by rewrite elem_of_bool_list_filter, events_see_spec.
    + apply sorted_filter. apply (good_seqs _ _ _ _ _ _ (good_reachable _ _ _ _ _ _ _ _ _ d Hc Hd)).
  - unfold JRead.Events_. rewrite Hg. unfold JRead.grantsOf in Hg. destruct ros as [r|]; [|by injection Hg as <-]. simpl in Hg.
    destruct (r !! EQReader q) as [g|] eqn:Hr; [|injection Hg as <-; exists r; auto].
    destruct (is_erased d (EQReader q)) eqn:He; [|done]. injection Hg as <-. exists r. split; [done|]. right. by apply is_erased_spec.
Qed.

(** *** Following the events *)

Definition set_after (a : Z) (q : EventsQuery) : EventsQuery :=
  mkEventsQuery (EQReader q) a (EQSubject q) (EQType q) (EQMinImportance q) (EQLimit q).

(** A reader who asks again and again, from the cursor each answer gives:
    the pages, and the last cursor. *)
Fixpoint poll (ros : option Roster) (ds : list db) (q : EventsQuery) : option (list (list WireEvent) * Z) :=
  match ds with
  | [] => Some ([], EQAfter q)
  | d :: rest =>
      match Events_ d ros q with
      | Err _ => None
      | Ok ws =>
          match poll ros rest (set_after (nextCursor (EQAfter q) ws) q) with
          | Some (pages, cursor) => Some (ws :: pages, cursor)
          | None => None
          end
      end
  end.

Local Abbreviation step_but_erase := (step_but_erase scanner_version scanner_verdict sha256 sha256_hex rules guard validate reg).

(** The states it asks: the journal goes on in between. *)
Fixpoint chain (d : db) (ds : list db) : Prop :=
  match ds with [] => True | d' :: rest => rtc step_but_erase d d' ∧ chain d' rest end.

Record later_state (d d' : db) : Prop := {
  lt_reachable : reachable d';
  lt_events : ∃ new, events d' = events d ++ new ∧ ∀ e e', e ∈ events d → e' ∈ new → er_seq e < er_seq e';
  lt_erasures : erasures d' = erasures d ∧ erasure_kept d' = erasure_kept d ∧ erasure_reader d' = erasure_reader d;
}.

Lemma later_refl d : reachable d → later_state d d.
Proof using Type. intros H. split; [done| |done]. exists []. rewrite app_nil_r. split; [done|]. intros e e' _ He. by apply elem_of_nil in He. Qed.

Lemma later_trans d1 d2 d3 : later_state d1 d2 → later_state d2 d3 → later_state d1 d3.
Proof using Type.
  intros [_ (n1 & E1 & H1) (A1 & A2 & A3)] [Hr (n2 & E2 & H2) (B1 & B2 & B3)]. split; [done| |by rewrite B1, B2, B3].
  exists (n1 ++ n2). rewrite E2, E1, <- app_assoc. split; [done|]. intros e e' He [He'|He']%elem_of_app; [by apply H1|].
  apply H2; [|done]. rewrite E1. apply elem_of_app. by left.
Qed.

Lemma later_step d d' : config_ok → reachable d → step_but_erase d d' → later_state d d'.
Proof using Type.
  intros Hc Hd (c & Hok & He & ->). pose proof (good_reachable _ _ _ _ _ _ _ _ _ d Hc Hd) as Hg. split.
  - by apply reach_step.
  - destruct Hc as [Hreg Hsha Hval].
    pose proof (step_write scanner_version scanner_verdict sha256 sha256_hex rules guard validate reg d c Hval Hok He) as Hw.
    apply write_extends in Hw as [(new & Hev & Hnew) _ _ _ _]. exists new. split; [done|]. intros e e' Hin Hin'.
    rewrite Forall_forall in Hnew. destruct (Hnew e' Hin') as [_ Hge]. destruct (good_seqs _ _ _ _ _ _ Hg) as (_ & _ & Hlt).
    specialize (Hlt e Hin). lia.
  - destruct Hc as [Hreg Hsha Hval].
    pose proof (step_write scanner_version scanner_verdict sha256 sha256_hex rules guard validate reg d c Hval Hok He) as Hw.
    apply write_extends in Hw as [_ _ _ _ (E1 & E2 & E3 & _)]. done.
Qed.

Lemma later_steps d d' : config_ok → reachable d → rtc step_but_erase d d' → later_state d d'.
Proof using Type.
  intros Hc Hd Hs. induction Hs as [d|d1 d2 d3 H12 H23 IH]; [by apply later_refl|].
  pose proof (later_step d1 d2 Hc Hd H12) as H. eapply later_trans; [exact H|]. apply IH, H.
Qed.

Lemma later_grants d d' ros reader : later_state d d' → grantsOf d' ros reader = grantsOf d ros reader.
Proof using Type. intros [_ _ (E1 & E2 & E3)]. unfold JRead.grantsOf, is_erased. by rewrite E1, E2, E3. Qed.

(** A sorted list cut at a number. *)
Definition upto (c : Z) (l : list event_row) : list event_row := List.filter (λ e, er_seq e <=? c) l.
Definition beyond (c : Z) (l : list event_row) : list event_row := List.filter (λ e, c <? er_seq e) l.

Lemma upto_all c l : (∀ e, e ∈ l → er_seq e ≤ c) → upto c l = l.
Proof using Type.
  induction l as [|e l IH]; intros H; [done|]. simpl. rewrite (proj2 (Z.leb_le _ _)) by (apply H; left). f_equal. apply IH.
  intros x Hx. apply H. by right.
Qed.
Lemma upto_none c l : (∀ e, e ∈ l → c < er_seq e) → upto c l = [].
Proof using Type.
  induction l as [|e l IH]; intros H; [done|]. simpl. rewrite (proj2 (Z.leb_gt _ _)) by (apply H; left). apply IH.
  intros x Hx. apply H. by right.
Qed.
Lemma upto_app c l k : upto c (l ++ k) = upto c l ++ upto c k.
Proof using Type. apply List.filter_app. Qed.

Lemma upto_split a c l : StronglySorted Z.lt (er_seq <$> l) → a ≤ c → upto c l = upto a l ++ upto c (beyond a l).
Proof using Type.
  intros Hs Hac. induction l as [|e l IH]; [done|]. simpl in Hs. apply StronglySorted_inv in Hs as [Hs Hx]. simpl.
  destruct (Z.leb_spec (er_seq e) a), (Z.ltb_spec a (er_seq e)); try lia.
  - rewrite (proj2 (Z.leb_le _ _)) by lia. simpl. f_equal. by apply IH.
  - assert (Hn : upto a l = []). { apply upto_none. intros x Hin. rewrite Forall_fmap, Forall_forall in Hx. specialize (Hx x Hin). simpl in Hx. lia. }
    rewrite Hn. simpl. rewrite IH, Hn by done. by destruct (er_seq e <=? c).
Qed.

Lemma upto_beyond c l : StronglySorted Z.lt (er_seq <$> l) → upto c l ++ beyond c l = l.
Proof using Type.
  intros Hs. induction l as [|e l IH]; [done|]. simpl in Hs. apply StronglySorted_inv in Hs as [Hs Hx]. simpl.
  destruct (Z.leb_spec (er_seq e) c), (Z.ltb_spec c (er_seq e)); try lia; [simpl; f_equal; by apply IH|].
  assert (Hn : upto c l = []). { apply upto_none. intros x Hin. rewrite Forall_fmap, Forall_forall in Hx. specialize (Hx x Hin). simpl in Hx. lia. }
  specialize (IH Hs). rewrite Hn in IH |- *. simpl in IH |- *. by rewrite IH.
Qed.

Lemma beyond_sees gs q a l : EQAfter q ≤ a → List.filter (events_see gs (set_after a q)) l = beyond a (List.filter (events_see gs q) l).
Proof using Type.
  intros Ha. unfold beyond. induction l as [|e l IH]; [done|]. simpl. rewrite IH.
  assert (E : events_see gs (set_after a q) e = (a <? er_seq e) && events_see gs q e).
  { unfold events_see. simpl. change (min_of (set_after a q)) with (min_of q).
    destruct (Z.ltb_spec a (er_seq e)), (Z.ltb_spec (EQAfter q) (er_seq e)); try lia; done. }
  rewrite E. destruct (events_see gs q e); simpl; by destruct (a <? er_seq e).
Qed.

(** One page: it is what lies between the cursor and the next one, also
    among the events of a later state. *)
Lemma page_upto gs q d d' ws :
  config_ok → reachable d → later_state d d' → bad_query q = false →
  Forall2 (λ e w, wire_event gs e = Ok w) (take (Z.to_nat (EQLimit q)) (visible_events gs q d)) ws →
  let c := nextCursor (EQAfter q) ws in
  EQAfter q ≤ c ∧ take (Z.to_nat (EQLimit q)) (visible_events gs q d) = upto c (visible_events gs q d') ∧
  (Z.of_nat (length ws) < EQLimit q → upto c (visible_events gs q d) = visible_events gs q d).
Proof using Type.
  intros Hc Hd [_ (new & E & Hnew) _] Hq Hws. cbv zeta.
  assert (Hlim : 1 ≤ EQLimit q). { unfold bad_query in Hq. repeat (apply orb_false_iff in Hq as [Hq ?]). lia. }
  pose proof (good_seqs _ _ _ _ _ _ (good_reachable _ _ _ _ _ _ _ _ _ d Hc Hd)) as [Hs _].
  assert (Hv : visible_events gs q d' = visible_events gs q d ++ List.filter (events_see gs q) new)
    by (unfold visible_events; by rewrite E, List.filter_app).
  assert (Hss : StronglySorted Z.lt (er_seq <$> visible_events gs q d)) by (by apply sorted_filter).
  assert (Hin : ∀ e, e ∈ visible_events gs q d → e ∈ events d ∧ EQAfter q < er_seq e).
  { intros e [H1 H2%events_see_spec]%elem_of_bool_list_filter. split; [done|apply H2]. }
  assert (Hnew' : ∀ e, e ∈ List.filter (events_see gs q) new → e ∈ new ∧ EQAfter q < er_seq e).
  { intros e [H1 H2%events_see_spec]%elem_of_bool_list_filter. split; [done|apply H2]. }
  rewrite Hv, upto_app. clear Hv E. revert Hss Hin Hws Hlim. generalize (visible_events gs q d) as V. intros V Hss Hin Hws Hlim.
  set (page := take (Z.to_nat (EQLimit q)) V) in *.
  assert (Hseqs : WSeq <$> ws = er_seq <$> page).
  { clear -Hws. induction Hws as [|e w l k Hw _ IH]; [done|]. cbn. f_equal; [|exact IH]. unfold JRead.wire_event in Hw.
    destruct (fillEventValues _ _ _) as [[[[? ?] ?] ?]|]; [|done]. by injection Hw as <-. }
  assert (Hcur : nextCursor (EQAfter q) ws = match last (er_seq <$> page) with Some s => s | None => EQAfter q end).
  { unfold nextCursor. rewrite <- Hseqs, fmap_last. by destruct (last ws). }
  rewrite Hcur. assert (Hlen : length ws = length page) by (by rewrite <- (length_fmap WSeq), Hseqs, length_fmap).
  pose proof (take_drop (Z.to_nat (EQLimit q)) V) as Hsplit. fold page in Hsplit. rewrite fmap_last.
  destruct (last page) as [e|] eqn:Hl; simpl.
  - apply last_Some in Hl as [front Hfront]. assert (Hein : e ∈ V).
    { rewrite <- Hsplit, Hfront. apply elem_of_app. left. apply elem_of_app. right. left. }
    destruct (Hin e Hein) as [Hed Hea].
    rewrite <- Hsplit in Hss. rewrite fmap_app in Hss. apply StronglySorted_app in Hss as (Hcross & Hs1 & Hs2).
    assert (Hle : ∀ x, x ∈ page → er_seq x ≤ er_seq e).
    { intros x Hx. rewrite Hfront in Hx, Hs1. rewrite fmap_app in Hs1. apply StronglySorted_app in Hs1 as (Hc1 & _ & _).
      apply elem_of_app in Hx as [Hx| ->%list_elem_of_singleton]; [|lia].
      assert (er_seq x < er_seq e); [|lia]. apply Hc1; [by apply list_elem_of_fmap_2|]. simpl. left. }
    assert (Hgt : ∀ x, x ∈ drop (Z.to_nat (EQLimit q)) V → er_seq e < er_seq x).
    { intros x Hx. apply Hcross; [|by apply list_elem_of_fmap_2]. rewrite Hfront, fmap_app. apply elem_of_app. right. left. }
    split_and!; [lia| |].
    + rewrite <- Hsplit at 1. rewrite upto_app, (upto_all _ page), (upto_none _ (drop _ _)) by done.
      rewrite (upto_none _ (List.filter _ _)); [by rewrite !app_nil_r|]. intros x [Hx _]%Hnew'. by apply Hnew.
    + intros Hshort. apply upto_all. intros x Hx. apply Hle. unfold page. rewrite take_ge; [done|].
      assert (length page < Z.to_nat (EQLimit q))%nat as Hlp by lia. unfold page in Hlp. rewrite length_take in Hlp. lia.
  - apply last_None in Hl. split_and!; [lia| |].
    + rewrite Hl, (upto_none _ V), (upto_none _ (List.filter _ _)); [done|..]; intros x Hx; [by apply Hnew'|by apply Hin].
    + intros _. assert (V = []) as ->; [|done]. unfold page in Hl. destruct V as [|x V]; [done|].
      by destruct (Z.to_nat (EQLimit q)) eqn:El; [lia|].
Qed.

Lemma poll_length ros ds q pages c : poll ros ds q = Some (pages, c) → length pages = length ds.
Proof using Type.
  revert q pages. induction ds as [|d ds IH]; simpl; intros q pages H; [by injection H as <- _|].
  destruct (Events_ d ros q) as [ws|]; [|done]. destruct (poll _ _ _) as [[ps c']|] eqn:Hp; [|done]. injection H as <- <-. simpl. f_equal. by eapply IH.
Qed.

Lemma poll_spec ros ds q d0 gs sha :
  config_ok → reachable d0 → chain d0 ds → grantsOf d0 ros (EQReader q) = Ok (gs, sha) → bad_query q = false →
  ∃ pages cursor, poll ros ds q = Some (pages, cursor) ∧ EQAfter q ≤ cursor ∧
    let d := default d0 (last ds) in
    later_state d0 d ∧
    Forall2 (λ e w, wire_event gs e = Ok w) (upto cursor (visible_events gs q d)) (concat pages) ∧
    (∀ page, last pages = Some page → Z.of_nat (length page) < EQLimit q → upto cursor (visible_events gs q d) = visible_events gs q d).
Proof using Type.
  intros Hc. revert q d0. induction ds as [|d1 ds IH]; intros q d0 Hd0 Hch Hg Hq.
  - exists [], (EQAfter q). cbn. split_and!; [done|lia|by apply later_refl| |done].
    rewrite upto_none; [constructor|]. intros e [_ He%events_see_spec]%elem_of_bool_list_filter. apply He.
  - destruct Hch as [Hstep Hch]. pose proof (later_steps d0 d1 Hc Hd0 Hstep) as H01. pose proof (lt_reachable _ _ H01) as Hd1.
    pose proof (later_grants d0 d1 ros (EQReader q) H01) as Hg1. rewrite Hg in Hg1.
    pose proof (Events_eq d1 ros q gs sha Hc Hd1 Hg1) as He. rewrite Hq in He. destruct He as (ws & He & Hws).
    set (c := nextCursor (EQAfter q) ws). set (q' := set_after c q).
    destruct (page_upto gs q d1 d1 ws Hc Hd1 (later_refl d1 Hd1) Hq Hws) as (Hc1 & _ & Hshort1). fold c in Hc1, Hshort1.
    assert (Hq' : bad_query q' = false).
    { unfold bad_query in Hq |- *. change (min_of q') with (min_of q). simpl in Hq |- *.
      repeat (apply orb_false_iff in Hq as [Hq ?]). repeat (apply orb_false_iff; split); try done.
      apply Z.ltb_ge. apply Z.ltb_ge in H0. etrans; [exact H0|exact Hc1]. }
    destruct (IH q' d1 Hd1 Hch Hg1 Hq') as (pages & cursor & Hp & Hcc & Hl & Hf & Hlast). simpl in Hcc.
    exists (ws :: pages), cursor. simpl. rewrite He. fold c. fold q'. rewrite Hp.
    assert (Hd : default d0 (last (d1 :: ds)) = default d1 (last ds)) by (destruct ds as [|d2 ds]; [done|]; change (last (d1 :: d2 :: ds)) with (last (d2 :: ds)); destruct (last (d2 :: ds)) eqn:El; [done|by apply last_None in El]).
    change (match ds with [] => Some d1 | _ :: _ => last ds end) with (last (d1 :: ds)). rewrite Hd.
    set (d := default d1 (last ds)) in *.
    destruct (page_upto gs q d1 d ws Hc Hd1 Hl Hq Hws) as (_ & Hpage & _). fold c in Hpage.
    pose proof (lt_reachable _ _ Hl) as Hdr. pose proof (good_seqs _ _ _ _ _ _ (good_reachable _ _ _ _ _ _ _ _ _ d Hc Hdr)) as [Hs _].
    assert (Hrest : visible_events gs q' d = beyond c (visible_events gs q d)) by (by apply beyond_sees).
    assert (Hsplit : upto cursor (visible_events gs q d) = upto c (visible_events gs q d) ++ upto cursor (visible_events gs q' d)).
    { rewrite Hrest. apply upto_split; [by apply sorted_filter|done]. }
    split_and!; [done|lia|by eapply later_trans| |].
    + rewrite Hsplit. apply Forall2_app; [by rewrite <- Hpage|done].
    + intros page Hpl Hlen. destruct pages as [|p pages].
      * simpl in Hpl. injection Hpl as <-. apply poll_length in Hp as Hlen'. destruct ds as [|d2 ds]; [|done].
        simpl in Hp. injection Hp as <-. by apply Hshort1.
      * assert (last (p :: pages) = Some page) as Hpl' by done. specialize (Hlast page Hpl' Hlen).
        rewrite Hsplit, Hlast, Hrest. by apply upto_beyond, sorted_filter.
Qed.

(** C8. Following the events delivers each once.  A reader who is let in
    asks again and again from the cursor of the last answer, while the
    journal takes snapshots, notes and decisions in between: every request is
    answered, and the pages together are exactly the events of the last state,
    visible and selected, between the first cursor and the last, in sequence
    order, none twice and none left out, each shown as [shows] says; and when the last page is
    shorter than the limit, no selected event lies beyond the last cursor. *)
Theorem polling_delivers_each_once ros ds q d0 gs sha :
  config_ok → reachable d0 → chain d0 ds → grantsOf d0 ros (EQReader q) = Ok (gs, sha) → bad_query q = false →
  ∃ pages cursor, poll ros ds q = Some (pages, cursor) ∧
    let d := default d0 (last ds) in
    Forall2 (λ e w, ∃ t, Active reg (rt_of (er_id e)) = Some t ∧ shows gs t e w)
      (List.filter (λ e, events_see gs q e && (er_seq e <=? cursor)) (events d)) (concat pages) ∧
    (∀ e, e ∈ events d → events_see gs q e = true ↔ picks gs q e) ∧
    (∀ page, last pages = Some page → Z.of_nat (length page) < EQLimit q →
       ∀ e, e ∈ events d → picks gs q e → er_seq e ≤ cursor).
Proof using Type.
  intros Hc Hd0 Hch Hg Hq. destruct (poll_spec ros ds q d0 gs sha Hc Hd0 Hch Hg Hq) as (pages & cursor & Hp & _ & Hl & Hf & Hlast).
  exists pages, cursor. split; [done|]. cbv zeta in *. set (d := default d0 (last ds)) in *. pose proof (lt_reachable _ _ Hl) as Hd.
  assert (E : List.filter (λ e, events_see gs q e && (er_seq e <=? cursor)) (events d) = upto cursor (visible_events gs q d)).
  { unfold upto, visible_events. generalize (events d) as l. intros l. induction l as [|e l IH]; [done|]. simpl.
    destruct (events_see gs q e); simpl; [|done]. destruct (er_seq e <=? cursor); by rewrite IH. }
  rewrite E. split_and!.
  - pose proof (reachable_judged _ _ _ _ _ _ _ _ _ d Hc Hd) as Hs.
    assert (Hsub : ∀ e, e ∈ upto cursor (visible_events gs q d) → event_scanned e).
    { intros e [[He _]%elem_of_bool_list_filter _]%elem_of_bool_list_filter. by eapply Forall_forall in Hs. }
    clear -Hf Hsub Hc. induction Hf as [|e w l ws Hw _ IH]; constructor.
    + destruct (wire_shows gs e (cfg_registry _ _ _ _ Hc) (Hsub e ltac:(left))) as (t & w' & Ht & Hw' & Hsh).
      exists t. split; [done|]. rewrite Hw in Hw'. by injection Hw' as <-.
    + apply IH. intros e' He'. apply Hsub. by right.
  - intros e _. apply events_see_spec.
  - intros page Hpl Hlen e He Hpick. specialize (Hlast page Hpl Hlen).
    assert (Hin : e ∈ upto cursor (visible_events gs q d)).
    { rewrite Hlast. apply elem_of_bool_list_filter. split; [done|]. by apply events_see_spec. }
    apply elem_of_bool_list_filter in Hin as [_ Hle]. by apply Z.leb_le in Hle.
Qed.

(** *** Counts *)

(** The number of rows of the groups that [p] takes. *)
Definition group_total {K} `{Countable K} (p : K → bool) (m : gmap K nat) : nat :=
  map_fold (λ k n s, if p k then (n + s)%nat else s) 0%nat m.

Lemma total_insert {K} `{Countable K} (p : K → bool) (m : gmap K nat) k :
  group_total p (<[k := S (default 0%nat (m !! k))]> m) = ((if p k then 1 else 0) + group_total p m)%nat.
Proof using Type.
  unfold group_total. destruct (m !! k) as [n|] eqn:Hk; simpl.
  - rewrite <- (insert_id m k n Hk) at 2. rewrite <- insert_delete_eq. rewrite <- (insert_delete_eq m k n).
    rewrite !map_fold_insert_L; try (by apply lookup_delete_eq); try (intros; repeat case_match; lia).
  - rewrite map_fold_insert_L; [by destruct (p k)| |done]. intros; repeat case_match; lia.
Qed.

Lemma total_group {A K} `{Countable K} (key : A → K) (p : K → bool) (l : list A) :
  group_total p (group_by key l) = length (List.filter (λ a, p (key a)) l).
Proof using Type. induction l as [|a l IH]; [done|]. simpl. rewrite total_insert, IH. by destruct (p (key a)). Qed.

Definition sum_list {K} (p : K → bool) (l : list (K * nat)) : nat := foldr (λ g s, if p g.1 then (g.2 + s)%nat else s) 0%nat l.
Lemma total_sum {K} `{Countable K} (p : K → bool) (m : gmap K nat) : group_total p m = sum_list p (map_to_list m).
Proof using Type. unfold group_total, sum_list. rewrite map_fold_foldr. apply foldr_ext; [|done..]. by intros [k n] s. Qed.

Definition live_group (gs : list Grant) (s t : string) (k : string * string * list string) : bool :=
  let '(s', t', audience) := k in String.eqb s' s && String.eqb t' t && Visible gs s' audience.
Definition event_group (gs : list Grant) (s t : string) (k : string * string * list string * string) : bool :=
  let '(s', t', audience, _) := k in String.eqb s' s && String.eqb t' t && Visible gs s' audience.
Definition importance_group (gs : list Grant) (s t imp : string) (k : string * string * list string * string) : bool :=
  event_group gs s t k && String.eqb k.2 imp.

(** Every entry of the totals is under its own subject and type. *)
Definition keyed (acc : gmap (string * string) Count) : Prop := ∀ s t c, acc !! (s, t) = Some c → CSubject c = s ∧ CType c = t.

Lemma add_live_all gs l acc :
  keyed acc →
  let acc' := foldl (add_live gs) acc l in
  keyed acc' ∧ ∀ s t,
    CLive (count_at acc' s t) = (CLive (count_at acc s t) + sum_list (live_group gs s t) l)%nat ∧
    CEvents (count_at acc' s t) = CEvents (count_at acc s t) ∧
    (is_Some (acc' !! (s, t)) ↔ is_Some (acc !! (s, t)) ∨ existsb (λ g, live_group gs s t g.1) l = true).
Proof using Type.
  revert acc. induction l as [|[[[s0 t0] a] n] l IH]; intros acc Hk; cbv zeta.
  { split; [done|]. intros s t. simpl. split_and!; [lia|done|]. clear. intuition done. }
  simpl foldl. unfold rowVisible. destruct (Visible gs s0 a) eqn:Hv; simpl.
  2:{ destruct (IH acc Hk) as [H1 H2]. split; [done|]. intros s t. destruct (H2 s t) as (E1 & E2 & E3). rewrite Hv, andb_false_r. done. }
  set (acc1 := <[(s0, t0) := _]> acc).
  assert (Hk1 : keyed acc1).
  { intros s t c. unfold acc1. destruct (decide ((s0, t0) = (s, t))) as [[= -> ->]|Hne].
    - rewrite lookup_insert_eq. by intros [= <-].
    - rewrite lookup_insert_ne by done. apply Hk. }
  destruct (IH acc1 Hk1) as [H1 H2]. split; [done|]. intros s t. destruct (H2 s t) as (E1 & E2 & E3). rewrite Hv, andb_true_r.
  assert (Hat : count_at acc1 s t = if String.eqb s0 s && String.eqb t0 t
    then mkCount s t (CLive (count_at acc s t) + n) (CEvents (count_at acc s t)) else count_at acc s t).
  { unfold count_at, acc1. destruct (String.eqb_spec s0 s) as [->|Hs]; [destruct (String.eqb_spec t0 t) as [->|Ht]|]; simpl.
    - by rewrite lookup_insert_eq.
    - rewrite lookup_insert_ne by congruence. done.
    - rewrite lookup_insert_ne by congruence. done. }
  rewrite E1, E2, E3, Hat. destruct (String.eqb_spec s0 s) as [->|Hs]; [destruct (String.eqb_spec t0 t) as [->|Ht]|]; simpl.
  - split_and!; [lia|done|]. unfold acc1. rewrite lookup_insert_eq. clear. split; [by right|]. intros _. left. by eexists.
  - split_and!; [lia|done|]. unfold acc1. by rewrite lookup_insert_ne by congruence.
  - split_and!; [lia|done|]. unfold acc1. by rewrite lookup_insert_ne by congruence.
Qed.

Lemma add_events_all gs l acc :
  keyed acc →
  let acc' := foldl (add_events gs) acc l in
  keyed acc' ∧ ∀ s t,
    CLive (count_at acc' s t) = CLive (count_at acc s t) ∧
    (∀ imp, default 0%nat (CEvents (count_at acc' s t) !! imp)
            = (default 0%nat (CEvents (count_at acc s t) !! imp) + sum_list (importance_group gs s t imp) l)%nat) ∧
    (is_Some (acc' !! (s, t)) ↔ is_Some (acc !! (s, t)) ∨ existsb (λ g, event_group gs s t g.1) l = true).
Proof using Type.
  revert acc. induction l as [|[[[[s0 t0] a] i] n] l IH]; intros acc Hk; cbv zeta.
  { split; [done|]. intros s t. simpl. split_and!; [done|intros; lia|]. clear. intuition done. }
  simpl foldl. unfold rowVisible. destruct (Visible gs s0 a) eqn:Hv; simpl negb; cbv iota.
  2:{ destruct (IH acc Hk) as [H1 H2]. split; [done|]. intros s t. destruct (H2 s t) as (E1 & E2 & E3). split_and!; [done| |].
      - intros imp. rewrite E2. unfold importance_group. simpl. by rewrite Hv, andb_false_r.
      - rewrite E3. simpl. by rewrite Hv, andb_false_r. }
  set (acc1 := <[(s0, t0) := _]> acc).
  assert (Hk1 : keyed acc1).
  { intros s t c. unfold acc1. destruct (decide ((s0, t0) = (s, t))) as [[= -> ->]|Hne].
    - rewrite lookup_insert_eq. by intros [= <-].
    - rewrite lookup_insert_ne by done. apply Hk. }
  destruct (IH acc1 Hk1) as [H1 H2]. split; [done|]. intros s t. destruct (H2 s t) as (E1 & E2 & E3).
  assert (Hat : count_at acc1 s t = if String.eqb s0 s && String.eqb t0 t
    then mkCount s t (CLive (count_at acc s t)) (<[i := (default 0 (CEvents (count_at acc s t) !! i) + n)%nat]> (CEvents (count_at acc s t)))
    else count_at acc s t).
  { unfold count_at, acc1. destruct (String.eqb_spec s0 s) as [->|Hs]; [destruct (String.eqb_spec t0 t) as [->|Ht]|]; simpl.
    - by rewrite lookup_insert_eq.
    - rewrite lookup_insert_ne by congruence. done.
    - rewrite lookup_insert_ne by congruence. done. }
  rewrite E1, E3, Hat. simpl. rewrite Hv, andb_true_r.
  destruct (String.eqb_spec s0 s) as [->|Hs]; [destruct (String.eqb_spec t0 t) as [->|Ht]|]; simpl in Hat |- *.
  - split_and!; [done| |].
    + intros imp. rewrite E2, Hat. simpl. unfold importance_group at 2. simpl. rewrite !String.eqb_refl, Hv. simpl.
      destruct (String.eqb_spec i imp) as [->|Hi]; [rewrite lookup_insert_eq; simpl; lia|by rewrite lookup_insert_ne].
    + unfold acc1. rewrite lookup_insert_eq. clear. split; [by right|]. intros _. left. by eexists.
  - split_and!; [done| |unfold acc1; by rewrite lookup_insert_ne by congruence]. intros imp. rewrite E2, Hat. unfold importance_group at 2. simpl.
    by rewrite (proj2 (String.eqb_neq t0 t)), andb_false_r.
  - split_and!; [done| |unfold acc1; by rewrite lookup_insert_ne by congruence]. intros imp. rewrite E2, Hat. unfold importance_group at 2. simpl.
    by rewrite (proj2 (String.eqb_neq s0 s)).
Qed.

(** What is counted: the live rows and the events since an instant that a
    reader's grants make visible. *)
Definition counts_live (gs : list Grant) (subject : option string) (s t : string) (p : Identity * currentRow) : bool :=
  negb (cr_removed p.2) && Visible gs (subject_of p.1) (cr_audience p.2) && subject_is subject (subject_of p.1)
  && String.eqb (subject_of p.1) s && String.eqb (rt_of p.1) t.
Definition counts_event (gs : list Grant) (subject : option string) (since : Z) (s t : string) (e : event_row) : bool :=
  (since <=? er_observed_at e) && Visible gs (subject_of (er_id e)) (er_audience e) && subject_is subject (subject_of (er_id e))
  && String.eqb (subject_of (er_id e)) s && String.eqb (rt_of (er_id e)) t.

Lemma filter_filter_bool {A} (f g h : A → bool) (l : list A) :
  (∀ x, f x && g x = h x) → List.filter g (List.filter f l) = List.filter h l.
Proof using Type.
  intros H. induction l as [|x l IH]; [done|]. simpl. rewrite <- (H x). destruct (f x); simpl; [|done]. destruct (g x); by rewrite IH.
Qed.

Lemma existsb_group {A K} `{Countable K} (key : A → K) (p : K → bool) (l : list A) :
  existsb (λ g, p g.1) (map_to_list (group_by key l)) = true ↔ ∃ a, a ∈ l ∧ p (key a) = true.
Proof using Type.
  rewrite existsb_Exists, Exists_exists. assert (Hk : ∀ k, is_Some (group_by key l !! k) ↔ ∃ a, a ∈ l ∧ key a = k).
  { intros k. induction l as [|a l IH]; simpl.
    - rewrite lookup_empty. split; [by intros [? ?]|]. intros (a & Ha & _). by apply elem_of_nil in Ha.
    - destruct (decide (key a = k)) as [<-|Hne].
      + rewrite lookup_insert_eq. split; [|by eexists]. intros _. exists a. split; [left|done].
      + rewrite lookup_insert_ne, IH by done. split; intros (b & Hb & E); exists b; (split; [|done]); [by right|].
        apply elem_of_cons in Hb as [->|Hb]; [done|done]. }
  split.
  - intros ([k n] & Hin%elem_of_map_to_list & Hp). destruct (proj1 (Hk k) ltac:(by eexists)) as (a & Ha & <-). by exists a.
  - intros (a & Ha & Hp). destruct (proj2 (Hk (key a)) ltac:(by exists a)) as [n Hn]. exists (key a, n). split; [|done]. by apply elem_of_map_to_list.
Qed.

(** The counts a reader gets.  A count that is answered goes to a
    roster member who was not erased; there is one entry for each subject and
    type of which the member sees a live row or an event since the instant,
    in order, and its numbers are the numbers of those rows and, by
    importance, of those events: nothing that is hidden is counted. *)
Theorem counts_exact d ros reader subject since out :
  Counts_ d ros reader subject since = Ok out →
  ∃ gs, admitted d ros reader gs ∧
    (∀ c, c ∈ out →
       CLive c = length (List.filter (counts_live gs subject (CSubject c) (CType c)) (map_to_list (current d))) ∧
       ∀ imp, default 0%nat (CEvents c !! imp)
              = length (List.filter (λ e, counts_event gs subject since (CSubject c) (CType c) e && String.eqb (er_importance e) imp) (events d))) ∧
    (∀ s t, (s, t) ∈ ((λ c, (CSubject c, CType c)) <$> out) ↔
       (∃ id c, current d !! id = Some c ∧ counts_live gs subject s t (id, c) = true)
       ∨ (∃ e, e ∈ events d ∧ counts_event gs subject since s t e = true)) ∧
    StronglySorted count_le out.
Proof using Type.
  unfold JRead.Counts_. destruct (grantsOf d ros reader) as [[gs sha]|] eqn:Hg; [|done]. destruct (Pairs gs) as [subs toks] eqn:Hp.
  assert (Hsql : ∀ s a, visibleSQL subs toks s a = Visible gs s a).
  { intros s a. pose proof (sql_agrees_with_go gs s a) as H. by rewrite Hp in H. }
  set (live := List.filter _ (map_to_list (current d))). set (evs := List.filter _ (events d)).
  destruct (add_live_all gs (map_to_list (group_by live_key live)) ∅ ltac:(by intros s t c)) as [Hk1 H1].
  set (acc1 := foldl (add_live gs) _ _) in *.
  destruct (add_events_all gs (map_to_list (group_by event_key evs)) acc1 Hk1) as [Hk2 H2]. set (acc2 := foldl (add_events gs) _ _) in *.
  cbv zeta in H1, H2. intros [= <-]. destruct (grantsOf_ok _ _ _ _ _ Hg) as [Ha _]. exists gs. split; [done|].
  assert (Hlive : ∀ s t, CLive (count_at acc2 s t) = length (List.filter (counts_live gs subject s t) (map_to_list (current d)))).
  { intros s t. destruct (H2 s t) as (-> & _ & _). destruct (H1 s t) as (-> & _ & _). rewrite <- total_sum, total_group.
    unfold count_at. rewrite lookup_empty. simpl. f_equal.
    apply filter_filter_bool. intros [id c]. unfold live_where, counts_live, live_group, live_key. cbn [fst snd]. rewrite Hsql.
    destruct (negb _), (Visible _ _ _), (subject_is _ _), (String.eqb _ s), (String.eqb _ t); done. }
  assert (Hevs : ∀ s t imp, default 0%nat (CEvents (count_at acc2 s t) !! imp)
            = length (List.filter (λ e, counts_event gs subject since s t e && String.eqb (er_importance e) imp) (events d))).
  { intros s t imp. destruct (H2 s t) as (_ & -> & _). destruct (H1 s t) as (_ & E & _).
    rewrite E, <- total_sum, total_group. unfold count_at. rewrite lookup_empty. simpl. rewrite lookup_empty. simpl. f_equal.
    apply filter_filter_bool. intros e. unfold since_where, counts_event, importance_group, event_group, event_key. simpl. rewrite Hsql.
    destruct (since <=? _), (Visible _ _ _), (subject_is _ _), (String.eqb _ s), (String.eqb _ t), (String.eqb _ imp); done. }
  assert (Hout : ∀ c, c ∈ merge_sort count_le (map_to_list acc2).*2 ↔ acc2 !! (CSubject c, CType c) = Some c).
  { intros c. rewrite (merge_sort_Permutation count_le), list_elem_of_fmap. split.
    - intros ([[s t] c'] & -> & H%elem_of_map_to_list). simpl in *. by destruct (Hk2 _ _ _ H) as [-> ->].
    - intros H. eexists. split; [|by apply elem_of_map_to_list]. done. }
  split_and!.
  - intros c Hc%Hout. assert (E : count_at acc2 (CSubject c) (CType c) = c) by (unfold count_at; by rewrite Hc).
    rewrite <- (Hlive (CSubject c) (CType c)), E. split; [done|]. intros imp. by rewrite <- (Hevs (CSubject c) (CType c)), E.
  - intros s t. destruct (H2 s t) as (_ & _ & E2). destruct (H1 s t) as (_ & _ & E1). rewrite list_elem_of_fmap.
    assert (Hpres : (∃ c, (s, t) = (CSubject c, CType c) ∧ c ∈ merge_sort count_le (map_to_list acc2).*2) ↔ is_Some (acc2 !! (s, t))).
    { split.
      - intros (c & [= -> ->] & Hc%Hout). by eexists.
      - intros [c Hc]. exists c. destruct (Hk2 _ _ _ Hc) as [<- <-]. split; [done|]. by apply Hout. }
    rewrite Hpres, E2, E1, lookup_empty, !existsb_group.
    assert (Hl : (∃ a, a ∈ live ∧ live_group gs s t (live_key a) = true) ↔ ∃ id c, current d !! id = Some c ∧ counts_live gs subject s t (id, c) = true).
    { unfold live. split.
      - intros ([id c] & [Hin%elem_of_map_to_list Hw]%elem_of_bool_list_filter & Hgr). exists id, c. split; [done|].
        unfold live_where, live_group, live_key, counts_live in *. cbn [fst snd] in *. rewrite Hsql in Hw.
        destruct (negb _), (Visible _ _ _), (subject_is _ _), (String.eqb _ s), (String.eqb _ t); done.
      - intros (id & c & Hin & Hw). exists (id, c). rewrite elem_of_bool_list_filter, elem_of_map_to_list.
        unfold live_where, live_group, live_key, counts_live in *. cbn [fst snd] in *. rewrite Hsql.
        destruct (negb _), (Visible _ _ _), (subject_is _ _), (String.eqb _ s), (String.eqb _ t); done. }
    assert (He : (∃ a, a ∈ evs ∧ event_group gs s t (event_key a) = true) ↔ ∃ e, e ∈ events d ∧ counts_event gs subject since s t e = true).
    { unfold evs. f_equiv. intros e. rewrite elem_of_bool_list_filter. unfold since_where, event_group, event_key, counts_event. simpl. rewrite Hsql.
      destruct (since <=? _), (Visible _ _ _), (subject_is _ _), (String.eqb _ s), (String.eqb _ t); clear; simpl; intuition done. }
    rewrite Hl, He. split; [intros [[[? ?]|?]|?]; [done|by left|by right]|intros [?|?]; [by left; right|by right]].
  - assert (Ht : Total count_le) by (intros a b; unfold count_le; rewrite (String.eqb_sym (CSubject b)); destruct (String.eqb _ _); apply (total str_le)).
    assert (Htr : Transitive count_le).
    { intros a b c. unfold count_le. destruct (String.eqb_spec (CSubject a) (CSubject b)) as [E1|N1], (String.eqb_spec (CSubject b) (CSubject c)) as [E2|N2].
      - rewrite E1, E2, String.eqb_refl. by intros; etrans.
      - rewrite E1. by destruct (String.eqb_spec (CSubject b) (CSubject c)).
      - rewrite <- E2. by destruct (String.eqb_spec (CSubject a) (CSubject b)).
      - intros Hab Hbc. destruct (String.eqb_spec (CSubject a) (CSubject c)) as [E|]; [|by etrans]. exfalso. apply N1.
        apply (anti_symm str_le); [done|by rewrite E]. }
    by apply StronglySorted_merge_sort.
Qed.
End reads.

(** ** A served read *)

Section served.
Context (text_le : relation string) `{!RelDecision text_le, !Total text_le, !Transitive text_le, !AntiSymm eq text_le}.
Context (reg : Registry) (roster_sha : Roster → string).
Context (EqualFold : string → string → bool) (ParseBool : string → option bool) (ParseTime : string → option Z).

Local Abbreviation serve_read := (serve_read EqualFold text_le reg roster_sha ParseBool ParseTime).

(** The caller of an answered read, what its policy allows it, and for whom
    it reads. *)
Record read_allowed (ready : bool) (vals : list string) (Authenticate : string → res auth_error string) (policy : Policy) (path : read_path)
    (d : db) (ros : option Roster) (reader : string) (gs : list Grant) : Prop := {
  ra_ready : ready = true;
  ra_caller : ∃ token caller svc, bearerToken EqualFold vals = Some token ∧ Authenticate token = Ok caller ∧ policy !! caller = Some svc ∧
    (match path with PathCounts => Counts svc | _ => Read svc end) = true ∧ Allows (SReaders svc) reader = true;
  ra_reader : reader ≠ ""%string ∧ admitted d ros reader gs;
}.

Lemma readerOK_none reader b : readerOK reader b = None → reader ≠ ""%string ∧ b = true.
Proof using Type. unfold readerOK. destruct (String.eqb_spec reader ""); [done|]. destruct b; [by intros _|done]. Qed.

Lemma queryParams_some query names q : queryParams query names = Some q → query = Some q.
Proof using Type. unfold queryParams. destruct query as [q'|]; [|done]. by destruct (forallb _ _). Qed.

Lemma events_loop_visible gs l ws w :
  events_loop reg gs l = Ok ws → w ∈ ws → Visible gs (subject_of (WId w)) (WAudience w) = true.
Proof using Type.
  revert ws. induction l as [|e l IH]; simpl; intros ws H Hw; [injection H as <-; by apply elem_of_nil in Hw|].
  unfold rowVisible in H. destruct (Visible gs (subject_of (er_id e)) (er_audience e)) eqn:Hv; simpl in H; [|exact (IH ws H Hw)].
  destruct (wire_event reg gs e) as [w'|] eqn:He; [|done]. destruct (events_loop reg gs l) as [ws'|]; [|done]. injection H as <-.
  apply elem_of_cons in Hw as [->|Hw]; [|by eapply IH]. unfold wire_event in He.
  destruct (fillEventValues _ _ _) as [[[[? ?] ?] ?]|]; [|done]. by injection He as <-.
Qed.

Lemma events_loop_short gs l ws : events_loop reg gs l = Ok ws → (length ws ≤ length l)%nat.
Proof using Type.
  revert ws. induction l as [|e l IH]; simpl; intros ws H; [by injection H as <-|]. destruct (negb _).
  { specialize (IH ws H). lia. }
  destruct (wire_event reg gs e) as [w'|]; [|done]. destruct (events_loop reg gs l) as [ws'|]; [|done]. injection H as <-. simpl.
  specialize (IH ws' eq_refl). lia.
Qed.

(** C26. Who gets an answer, and to what.  A read is answered only while
    the journal is ready, to a caller whose one bearer token authenticates as
    a caller of the policy, whose service may read (or count) and may act for
    the reader it names, and only if that reader is a roster member who was not
    erased; every row and event in it is visible under the reader's own
    grants, and a page has at most a thousand events. *)
Theorem served_read_is_allowed ready vals slot Authenticate policy path query now d ros a :
  serve_read ready vals slot Authenticate policy path query now d ros = a → (∀ r, a ≠ ADenied r) →
  ∃ q gs, query = Some q ∧ read_allowed ready vals Authenticate policy path d ros (Get q "reader") gs ∧
    match a with
    | AState rows _ => ∀ w, w ∈ rows → Visible gs (subject_of (SId w)) (SAudience w) = true
    | AEvents ws next => (∀ w, w ∈ ws → Visible gs (subject_of (WId w)) (WAudience w) = true) ∧ (length ws ≤ 1000)%nat
                         ∧ (ws ≠ [] → next ∈ WSeq <$> ws)
    | _ => True
    end.
Proof using Type.
  unfold JRead.serve_read, route. destruct ready; simpl; [|by intros <- H; destruct (H _ eq_refl)].
  destruct (bearerToken EqualFold vals) as [token|] eqn:Ht; [|by intros <- H; destruct (H _ eq_refl)].
  destruct slot; simpl; [|by intros <- H; destruct (H _ eq_refl)].
  destruct (Authenticate token) as [caller|[]] eqn:Ha; [|by intros <- H; destruct (H _ eq_refl)..].
  destruct (policy !! caller) as [svc|] eqn:Hp; [|by intros <- H; destruct (H _ eq_refl)].
  intros <- Hok. destruct path.
  - unfold handleState in *. destruct (queryParams query _) as [q|] eqn:Hq; [|by destruct (Hok _ eq_refl)].
    destruct (readerOK _ _) eqn:Hr; [by destruct (Hok _ eq_refl)|]. apply readerOK_none in Hr as [Hne [Hread Hall]%andb_true_iff].
    cbv zeta in *. destruct (match optional q "include_removed" with None => _ | Some v => _ end) as [b|]; [|by destruct (Hok _ eq_refl)].
    destruct (StateWithRoster _ _ _ _ _ _) as [[rows sha]|e] eqn:Hs; [|by destruct (Hok _ eq_refl)].
    apply queryParams_some in Hq.
    destruct (grantsOf text_le roster_sha d ros (Get q "reader")) as [[gs sha']|] eqn:Hg; [|unfold StateWithRoster in Hs; simpl in Hs; by rewrite Hg in Hs].
    destruct (grantsOf_ok _ _ _ _ _ _ _ Hg) as [Hadm _]. exists q, gs. split; [done|]. split; [split; eauto 10|].
    pose proof (StateWithRoster_eq reg text_le roster_sha d ros
      (mkStateQuery (Get q "reader") (optional q "subject") (Get q "type") (Get q "scope") b) gs sha' Hg) as E.
    rewrite Hs in E. injection E as -> _.
    intros w ([id c] & -> & [_ H]%visible_rows_spec)%list_elem_of_fmap. by apply state_sees_spec in H as [H _].
  - unfold handleEvents in *. destruct (queryParams query _) as [q|] eqn:Hq; [|by destruct (Hok _ eq_refl)].
    destruct (readerOK _ _) eqn:Hr; [by destruct (Hok _ eq_refl)|]. apply readerOK_none in Hr as [Hne [Hread Hall]%andb_true_iff].
    destruct (parse_after q) as [after|]; [|by destruct (Hok _ eq_refl)]. destruct (parse_importance q) as [imp|]; [|by destruct (Hok _ eq_refl)].
    destruct (parse_limit q) as [limit|] eqn:Hlim; [|by destruct (Hok _ eq_refl)].
    destruct (Events_ _ _ _ _ _ _) as [ws|e] eqn:Hs; [|by destruct (Hok _ eq_refl)].
    apply queryParams_some in Hq.
    unfold Events_ in Hs. simpl in Hs. destruct (grantsOf text_le roster_sha d ros (Get q "reader")) as [[gs sha']|] eqn:Hg; [|done].
    destruct (grantsOf_ok _ _ _ _ _ _ _ Hg) as [Hadm _]. exists q, gs. split; [done|]. split; [split; eauto 10|].
    destruct (_ || _); [done|]. destruct (Pairs gs) as [subs toks]. split_and!.
    + intros w Hw. by eapply events_loop_visible.
    + apply events_loop_short in Hs. rewrite length_take in Hs. assert (limit ≤ 1000); [|lia].
      unfold parse_limit in Hlim. destruct (optional q "limit") as [v|]; [|by injection Hlim as <-].
      destruct (atoi v) as [n|]; [|done]. destruct ((n <? 1) || (maxEventLimit <? n)) eqn:Hn; [done|]. injection Hlim as <-.
      apply orb_false_iff in Hn as [_ Hn]. apply Z.ltb_ge in Hn. exact Hn.
    + intros Hne'. unfold nextCursor. destruct (last ws) as [w|] eqn:Hl; [|by apply last_None in Hl].
      apply list_elem_of_fmap_2. by apply last_Some_elem_of.
  - unfold handleCounts in *. destruct (queryParams query _) as [q|] eqn:Hq; [|by destruct (Hok _ eq_refl)].
    destruct (readerOK _ _) eqn:Hr; [by destruct (Hok _ eq_refl)|]. apply readerOK_none in Hr as [Hne [Hread Hall]%andb_true_iff].
    destruct (match optional q "since" with None => _ | Some v => _ end) as [since|]; [|by destruct (Hok _ eq_refl)].
    destruct (Counts_ _ _ _ _ _ _ _) as [out|e] eqn:Hs; [|by destruct (Hok _ eq_refl)].
    apply queryParams_some in Hq.
    unfold Counts_ in Hs. destruct (grantsOf text_le roster_sha d ros (Get q "reader")) as [[gs sha']|] eqn:Hg; [|done].
    destruct (grantsOf_ok _ _ _ _ _ _ _ Hg) as [Hadm _]. exists q, gs. split; [done|]. split; [split; eauto 10|done].
Qed.
End served.
