(* ===== verification/JRescan.v ===== *)
(** internal/journal/rescan.go: judging the stored texts again, after the
    scanner or its rules changed, while the journal is in use. *)
From S2P Require Import Prelude GoStrings StrOrder JsonString Effects JRecord JDiff JRules JAccess JStore JErase JRead.
Local Open Scope Z_scope.
Local Open Scope prog_scope.

Definition rescanBatch : nat := 100.
Definition rescanRetries : nat := 5.

Record RescanResult := mkResult { CurrentRows : nat; EventRows : nat; Released : nat; Withheld : nat }.
Definition zero_result : RescanResult := mkResult 0 0 0 0.

Definition addResult (r b : RescanResult) : RescanResult :=
  mkResult (CurrentRows r + CurrentRows b) (EventRows r + EventRows b) (Released r + Released b) (Withheld r + Withheld b).

Inductive rescan_error := ErrNeedsScanner | ErrContext | ErrDatabase | ErrEventValues (seq : Z) | ErrKeptChanging (rows : nat).

(** A row's new verdicts and what it must still look like when it is
    locked. *)
Record rescanUpdate (K S : Type) := mkUpdate {
  u_pk : K; u_seq : Z; u_hash : string; u_was : S; u_scan : S; u_counts : RescanResult;
}.
Arguments mkUpdate {K S} _ _ _ _ _ _.
Arguments u_pk {K S} _.
Arguments u_seq {K S} _.
Arguments u_hash {K S} _.
Arguments u_was {K S} _.
Arguments u_scan {K S} _.
Arguments u_counts {K S} _.

(** The columns a rescan reads. *)
Record curRead := mkCurRead { q_pk : Identity; q_fields : Fields; q_scan : ScanMap; q_hash : string; q_seq : Z }.
Record evRead := mkEvRead {
  v_seq : Z; v_rt : string; v_version : Z; v_kind : Kind; v_fields : option Fields; v_changed : changed_column;
  v_scan : gmap string EventScan;
}.

Definition row_update : Type := rescanUpdate Identity ScanMap.
Definition event_update : Type := rescanUpdate Z (gmap string EventScan).

(** *** The database, as a rescan uses it *)

Inductive rescan_op :=
| ContextErr
| ReadCurrentPage (after : Identity)
| ReadCurrentKeys (pks : list Identity)
| UpdateCurrent (us : list row_update)
| ReadEventPage (after : Z)
| ReadEventSeqs (seqs : list Z)
| UpdateEvents (us : list event_update).

(** A query or a transaction may fail ([None]). *)
#[export] Instance rescan_sig : Sig := {
  op := rescan_op;
  ans o := match o with
           | ContextErr => bool
           | ReadCurrentPage _ | ReadCurrentKeys _ => option (list curRead)
           | UpdateCurrent _ => option (RescanResult * list Identity)
           | ReadEventPage _ | ReadEventSeqs _ => option (list evRead)
           | UpdateEvents _ => option (RescanResult * list Z)
           end
}.

Definition cur_read (p : Identity * currentRow) : curRead :=
  mkCurRead p.1 (cr_fields p.2) (cr_scan p.2) (cr_hash p.2) (cr_last_event_seq p.2).
Definition ev_read (e : event_row) : evRead :=
  mkEvRead (er_seq e) (rt_of (er_id e)) (er_version e) (er_kind e) (er_fields e) (er_changed e) (er_scan e).

Section queries.
Context (text_le : relation string) `{!RelDecision text_le}.

(** (record_type, data_subject, key) > ($1, $2, $3) *)
Definition id_after (after id : Identity) : bool := bool_decide (id_le text_le after id) && negb (bool_decide (id = after)).

Definition read_page (d : db) (after : Identity) : list curRead :=
  take rescanBatch (cur_read <$> merge_sort (row_le text_le) (List.filter (λ p, id_after after p.1) (map_to_list (current d)))).
Definition read_keys (d : db) (pks : list Identity) : list curRead :=
  cur_read <$> merge_sort (row_le text_le) (List.filter (λ p, bool_decide (p.1 ∈ pks)) (map_to_list (current d))).
Definition read_event_page (d : db) (after : Z) : list evRead :=
  take rescanBatch (ev_read <$> merge_sort seq_le (List.filter (λ e, after <? er_seq e) (events d))).
Definition read_event_seqs (d : db) (seqs : list Z) : list evRead :=
  ev_read <$> merge_sort seq_le (List.filter (λ e, bool_decide (er_seq e ∈ seqs)) (events d)).
End queries.

Definition set_scan (scan : ScanMap) (r : currentRow) : currentRow :=
  mkCurrentRow (cr_scope r) (cr_audience r) (cr_fields r) (cr_removed r) (cr_first_seen_at r) (cr_last_seen_at r)
    (cr_confirmed_snapshot r) (cr_confirmed_at r) (cr_hash r) (cr_last_event_seq r) scan.
Definition set_event_scan (scan : gmap string EventScan) (e : event_row) : event_row :=
  mkEventRow (er_seq e) (er_id e) (er_kind e) (er_version e) (er_scope e) (er_prev_scope e) (er_audience e)
    (er_prev_audience e) (er_fields e) (er_changed e) scan (er_observed_at e) (er_prev_observed_at e) (er_approximate e)
    (er_snapshot e) (er_actor e) (er_importance e) (er_rule e) (er_notify e) (er_group_key e).

(** The transaction of judgeCurrent, on the rows it has locked: a row that is
    gone is skipped, one that changed is stale, the others are written. *)
Definition update_row (now : gmap Identity currentRow) (acc : RescanResult * list Identity * db) (u : row_update)
    : RescanResult * list Identity * db :=
  let '(batch, stale, d) := acc in
  match now !! u_pk u with
  | None => acc
  | Some r =>
      if (cr_last_event_seq r =? u_seq u) && String.eqb (cr_hash r) (u_hash u) && bool_decide (cr_scan r = u_was u)
      then (addResult batch (mkResult 1 0 (Released (u_counts u)) (Withheld (u_counts u))), stale,
            set_current (alter (set_scan (u_scan u)) (u_pk u) (current d)) d)
      else (batch, stale ++ [u_pk u], d)
  end.
Definition update_rows (us : list row_update) (d : db) : RescanResult * list Identity * db :=
  foldl (update_row (current d)) (zero_result, [], d) us.

Definition event_at (l : list event_row) (seq : Z) : option event_row := List.find (λ e, er_seq e =? seq) l.

(** The transaction of judgeEvents. *)
Definition update_event (now : list event_row) (acc : RescanResult * list Z * db) (u : event_update)
    : RescanResult * list Z * db :=
  let '(batch, stale, d) := acc in
  match event_at now (u_pk u) with
  | None => acc
  | Some e =>
      if bool_decide (er_scan e = u_was u)
      then (addResult batch (mkResult 0 1 (Released (u_counts u)) (Withheld (u_counts u))), stale,
            set_events ((λ e, if er_seq e =? u_pk u then set_event_scan (u_scan u) e else e) <$> events d) (next_seq d) d)
      else (batch, stale ++ [u_pk u], d)
  end.
Definition update_events (us : list event_update) (d : db) : RescanResult * list Z * db :=
  foldl (update_event (events d)) (zero_result, [], d) us.

(** tally counts a release or a withholding. *)
Definition tally (t : RescanResult) (before after : string) : RescanResult :=
  if negb (String.eqb before VerdictPass) && String.eqb after VerdictPass
  then mkResult (CurrentRows t) (EventRows t) (S (Released t)) (Withheld t)
  else if String.eqb before VerdictPass && negb (String.eqb after VerdictPass)
  then mkResult (CurrentRows t) (EventRows t) (Released t) (S (Withheld t))
  else t.

Section judge.
(** The scanner: its version, and its verdict on a text unless it panics. *)
Context (scanner_version : string) (scanner : string → option string).
Context (reg : Registry) (all : bool).

(** textVerdict: only an explicit pass of the scanner is a pass. *)
Definition textVerdict (v : string) : string :=
  match unmarshal_string v with
  | None => VerdictError
  | Some s =>
      match scanner s with
      | None => VerdictError
      | Some verdict => if String.eqb verdict "" then VerdictError else verdict
      end
  end.

(** Whether a field is judged: it is a text, or was scanned, and its verdict
    is not this scanner's already. *)
Definition to_judge (text scanned : bool) (version : string) : bool :=
  (text || scanned) && (all || negb (String.eqb version scanner_version)).

Definition judge_field (r : curRead) (acc : ScanMap * RescanResult * bool) (f : string) : ScanMap * RescanResult * bool :=
  let '(next, counts, changed) := acc in
  let cur := default (mkScanEntry "" "") (q_scan r !! f) in
  if to_judge (kind_is_text reg (rt_of (q_pk r)) f) (bool_decide (is_Some (q_scan r !! f))) (ScannerVersion cur)
  then let v := textVerdict (default ""%string (q_fields r !! f)) in
       (<[f := mkScanEntry v scanner_version]> next, tally counts (Verdict cur) v, true)
  else acc.

(** The body of judgeCurrent's first loop. *)
Definition judge_row (r : curRead) : res rescan_error (option row_update) :=
  let '(next, counts, changed) := foldl (judge_field r) (q_scan r, zero_result, false) (sorted_keys (q_fields r)) in
  Ok (if changed then Some (mkUpdate (q_pk r) (q_seq r) (q_hash r) (q_scan r) next counts) else None).

(** Old and new value of every field the event carries; None is absent. *)
Definition event_values (r : evRead) : option (gmap string (option string * option string)) :=
  match v_kind r with
  | Created | Restored => (λ m : Fields, fmap (M := gmap string) (λ v, (None, Some v)) m) <$> v_fields r
  | Updated =>
      match v_changed r with
      | ChangedFields m => Some (fmap (M := gmap string) (λ c, (nilIfNull (Old c), nilIfNull (NewV c))) m)
      | _ => None
      end
  | Removed => match v_changed r with RemovedFields m => Some (fmap (M := gmap string) (λ v, (Some v, None)) m) | _ => None end
  end.

Definition judge_side (o : option string) (before : string) (counts : RescanResult) : string * RescanResult :=
  match o with
  | Some v => (textVerdict v, tally counts before (textVerdict v))
  | None => (before, counts)
  end.

Definition judge_event_field (r : evRead) (values : gmap string (option string * option string))
    (acc : gmap string EventScan * RescanResult * bool) (f : string) : gmap string EventScan * RescanResult * bool :=
  let '(next, counts, changed) := acc in
  let es := default (mkEventScan "" "" "") (v_scan r !! f) in
  if to_judge (kind_is_text reg (v_rt r) (ForwardName reg (v_rt r) (v_version r) f))
       (bool_decide (is_Some (v_scan r !! f))) (EScannerVersion es)
  then let '(old, new) := default (None, None) (values !! f) in
       let '(eold, counts1) := judge_side old (EOld es) counts in
       let '(enew, counts2) := judge_side new (ENew es) counts1 in
       (<[f := mkEventScan eold enew scanner_version]> next, counts2, true)
  else acc.

(** The body of judgeEvents' first loop. *)
Definition judge_event (r : evRead) : res rescan_error (option event_update) :=
  match event_values r with
  | None => Err (ErrEventValues (v_seq r))
  | Some values =>
      let '(next, counts, changed) :=
        foldl (judge_event_field r values) (v_scan r, zero_result, false) (sorted_keys values) in
      Ok (if changed then Some (mkUpdate (v_seq r) (v_seq r) "" (v_scan r) next counts) else None)
  end.
End judge.

(** *** The batches of one table

    The code has these functions once for record_current and once for
    record_event, alike but for the columns. *)
Section pass.
Context {K Row Update : Type}.
Context (key : Row → K) (judge : Row → res rescan_error (option Update)).
Context (page : K → prog (option (list Row))) (keys : list K → prog (option (list Row)))
  (commit : list Update → prog (option (RescanResult * list K))).

Fixpoint judge_rows (rows : list Row) : prog (res rescan_error (list Update)) :=
  match rows with
  | [] => Ret (Ok [])
  | r :: rest =>
      let! cancelled := call ContextErr in
      if (cancelled : bool) then Ret (Err ErrContext) else
      match judge r with
      | Err e => Ret (Err e)
      | Ok u => let! us := judge_rows rest in Ret (us' <~ us ;; Ok (option_list u ++ us'))%gb
      end
  end.

(** judgeCurrent, judgeEvents: the stale rows, and the counts so far. *)
Definition judge_batch (rows : list Row) (total : RescanResult) : prog (RescanResult * res rescan_error (list K)) :=
  let! us := judge_rows rows in
  match us with
  | Err e => Ret (total, Err e)
  | Ok [] => Ret (total, Ok [])
  | Ok us =>
      let! r := commit us in
      match r with
      | None => Ret (total, Err ErrDatabase)
      | Some (batch, stale) => Ret (addResult total batch, Ok stale)
      end
  end.

(** The attempts of rescanCurrent and rescanEvents, [retries] still allowed. *)
Fixpoint attempts (retries : nat) (rows : list Row) (total : RescanResult) : prog (RescanResult * option rescan_error) :=
  match rows with
  | [] => Ret (total, None)
  | _ =>
      let! r := judge_batch rows total in
      match r with
      | (total, Err e) => Ret (total, Some e)
      | (total, Ok []) => Ret (total, None)
      | (total, Ok stale) =>
          match retries with
          | O => Ret (total, Some (ErrKeptChanging (length stale)))
          | S n =>
              let! rows := keys stale in
              match rows with
              | None => Ret (total, Some ErrDatabase)
              | Some rows => attempts n rows total
              end
          end
      end
  end.

(** rescanCurrent, rescanEvents: how many rows the batch had, and its last
    key. *)
Definition rescan_batch (after : K) (total : RescanResult) : prog (RescanResult * res rescan_error (nat * K)) :=
  let! rows := page after in
  match rows with
  | None => Ret (total, Err ErrDatabase)
  | Some rows =>
      let! r := attempts rescanRetries rows total in
      match r with
      | (total, Some e) => Ret (total, Err e)
      | (total, None) => Ret (total, Ok (length rows, match last rows with Some r => key r | None => after end))
      end
  end.

(** Rescan's loop over one table.  It has no bound of its own: [None] when
    the fuel runs out. *)
Fixpoint rescan_table (fuel : nat) (after : K) (total : RescanResult) : prog (option (RescanResult * option rescan_error)) :=
  match fuel with
  | O => Ret None
  | S fuel =>
      let! cancelled := call ContextErr in
      if (cancelled : bool) then Ret (Some (total, Some ErrContext)) else
      let! r := rescan_batch after total in
      match r with
      | (total, Err e) => Ret (Some (total, Some e))
      | (total, Ok (n, last)) => if (n <? rescanBatch)%nat then Ret (Some (total, None)) else rescan_table fuel last total
      end
  end.
End pass.

Section rescan.
Context (scanner_version : string) (scanner : string → option string) (reg : Registry).

Definition judgeCurrent (all : bool) : list curRead → RescanResult → prog (RescanResult * res rescan_error (list Identity)) :=
  judge_batch (judge_row scanner_version scanner reg all) (λ us, call (UpdateCurrent us)).
Definition judgeEvents (all : bool) : list evRead → RescanResult → prog (RescanResult * res rescan_error (list Z)) :=
  judge_batch (judge_event scanner_version scanner reg all) (λ us, call (UpdateEvents us)).

Definition rescanCurrent (all : bool) :=
  rescan_table q_pk (judge_row scanner_version scanner reg all)
    (λ after, call (ReadCurrentPage after)) (λ pks, call (ReadCurrentKeys pks)) (λ us, call (UpdateCurrent us)).
Definition rescanEvents (all : bool) :=
  rescan_table v_seq (judge_event scanner_version scanner reg all)
    (λ after, call (ReadEventPage after)) (λ seqs, call (ReadEventSeqs seqs)) (λ us, call (UpdateEvents us)).

(** Rescan, of a journal that has a scanner. *)
Definition Rescan (fuel : nat) (all : bool) : prog (option (RescanResult * option rescan_error)) :=
  let! r := rescanCurrent all fuel ("", "", "")%string zero_result in
  match r with
  | Some (total, None) => rescanEvents all fuel 0 total
  | _ => Ret r
  end.
End rescan.

(** *** While the journal is in use *)

Section concurrent.
Context (text_le : relation string) `{!RelDecision text_le}.
(** What others do to the tables, between any two calls. *)
Context (others : db → db → Prop).

(** A transaction that fails has not happened; one whose commit is not
    acknowledged may have. *)
Inductive transaction {A} (f : db → A * db) (d : db) : option A → db → Prop :=
| tx_committed : transaction f d (Some (f d).1) (f d).2
| tx_failed : transaction f d None d
| tx_unacknowledged : transaction f d None (f d).2.

Definition answers (d : db) (o : rescan_op) : ans o → db → Prop :=
  match o with
  | ContextErr => λ _ d', d' = d
  | ReadCurrentPage after => λ r d', d' = d ∧ (r = None ∨ r = Some (read_page text_le d after))
  | ReadCurrentKeys pks => λ r d', d' = d ∧ (r = None ∨ r = Some (read_keys text_le d pks))
  | UpdateCurrent us => transaction (update_rows us) d
  | ReadEventPage after => λ r d', d' = d ∧ (r = None ∨ r = Some (read_event_page d after))
  | ReadEventSeqs seqs => λ r d', d' = d ∧ (r = None ∨ r = Some (read_event_seqs d seqs))
  | UpdateEvents us => transaction (update_events us) d
  end.

(** Each call happens after any number of steps of others. *)
Definition rescan_step (d : db) (o : rescan_op) (r : ans o) (d' : db) : Prop := ∃ d1, rtc others d d1 ∧ answers d1 o r d'.
End concurrent.
