(* ===== verification/JRescanFacts.v ===== *)
(** What a rescan achieves: every stored text carries the verdict of the
    scanner in use, whatever else happens to the journal meanwhile. *)
From S2P Require Import Prelude GoStrings StrOrder JsonString JRecord JDiff JRules JAccess JStore JErase JFold JJournal JValid JGuarantees JRead JReadFacts Effects JRescan.
Local Open Scope Z_scope.
Local Open Scope prog_scope.

(** ** What a verdict may be *)

Section right.
Context (scanner_verdict : string → string) (scanner : string → option string).

(** The verdict a write gives on a value, or the one a rescan gives: they
    differ only where the scanner fails to judge. *)
Definition right (v verdict : string) : Prop := verdict = scanNew scanner_verdict v ∨ verdict = textVerdict scanner v.

Lemma right_new v : right v (scanNew scanner_verdict v).
Proof. by left. Qed.
Lemma right_text v : right v (textVerdict scanner v).
Proof. by right. Qed.

(** Neither passes a value that the scanner does not pass. *)
Lemma right_pass v verdict :
  (∀ s x, scanner s = Some x → x = scanner_verdict s) → right v verdict → verdict = VerdictPass →
  scanNew scanner_verdict v = VerdictPass.
Proof.
  intros Hs [-> | ->]; [done|]. unfold textVerdict, scanNew. destruct (unmarshal_string v) as [s|]; [|done].
  destruct (scanner s) as [x|] eqn:Hx; [|done]. simpl. rewrite <- (Hs _ _ Hx). by destruct (String.eqb x "").
Qed.
End right.

(** ** Judging one row *)

Section judge.
Context (scanner_version : string) (scanner_verdict : string → string) (scanner : string → option string).
Context (reg : Registry) (all : bool) (Hsv : scanner_version ≠ ""%string).

Local Abbreviation right := (right scanner_verdict scanner).
Local Abbreviation textVerdict := (textVerdict scanner).
Local Abbreviation judge_row := (judge_row scanner_version scanner reg all).
Local Abbreviation judge_field := (judge_field scanner_version scanner reg all).
Local Abbreviation scanned_in := (scanned_in scanner_version right).
Local Abbreviation to_judge := (to_judge scanner_version all).

Definition row_todo (r : curRead) (f : string) : bool :=
  to_judge (kind_is_text reg (rt_of (q_pk r)) f) (bool_decide (is_Some (q_scan r !! f)))
    (ScannerVersion (default (mkScanEntry "" "") (q_scan r !! f))).

Lemma judge_fields_spec r l next counts changed :
  let '(n, _, ch) := foldl (judge_field r) (next, counts, changed) l in
  (∀ k, n !! k = if bool_decide (k ∈ l) && row_todo r k
                 then Some (mkScanEntry (textVerdict (default "" (q_fields r !! k))%string) scanner_version) else next !! k)
  ∧ ch = changed || existsb (row_todo r) l.
Proof.
  revert next counts changed. induction l as [|f l IH]; intros next counts changed; [split; [done|by rewrite orb_false_r]|].
  cbn [foldl]. unfold JRescan.judge_field at 2. fold (row_todo r f). destruct (row_todo r f) eqn:Ht.
  - match goal with |- context [foldl _ (?n, ?c, true) l] => specialize (IH n c true) end.
    destruct (foldl _ _ l) as [[n c] ch]. destruct IH as [IH1 IH2]. split.
    + intros k. rewrite IH1. destruct (decide (k = f)) as [->|Hne].
      * rewrite (bool_decide_eq_true_2 (f ∈ f :: l)) by left. rewrite Ht, lookup_insert_eq. simpl. by destruct (bool_decide _).
      * rewrite lookup_insert_ne by done. by rewrite (bool_decide_ext (k ∈ f :: l) (k ∈ l)) by (rewrite elem_of_cons; clear -Hne; naive_solver).
    + rewrite IH2. simpl. by rewrite Ht, !orb_true_r.
  - specialize (IH next counts changed). destruct (foldl _ _ l) as [[n c] ch]. destruct IH as [IH1 IH2]. split.
    + intros k. rewrite IH1. destruct (decide (k = f)) as [->|Hne]; [by rewrite Ht, !andb_false_r|].
      by rewrite (bool_decide_ext (k ∈ f :: l) (k ∈ l)) by (rewrite elem_of_cons; clear -Hne; naive_solver).
    + rewrite IH2. simpl. by rewrite Ht.
Qed.

Lemma not_todo r f : row_todo r f = false → kind_is_text reg (rt_of (q_pk r)) f = true →
  ∃ e, q_scan r !! f = Some e ∧ ScannerVersion e = scanner_version.
Proof.
  unfold row_todo, JRescan.to_judge. intros H Ht. rewrite Ht in H. simpl in H. apply orb_false_iff in H as [_ H].
  apply negb_false_iff, String.eqb_eq in H. destruct (q_scan r !! f) as [e|]; [by exists e|]. simpl in H. congruence.
Qed.

Lemma kind_is_text_active rt t f : Active reg rt = Some t → kind_is_text reg rt f = IsText t f.
Proof using Type. unfold kind_is_text. by intros ->. Qed.

(** A row that needs no update, and the update of one that does. *)
Lemma judge_row_exact r P t o :
  Active reg (rt_of (q_pk r)) = Some t → scanned_in P t (q_fields r) (q_scan r) → judge_row r = Ok o →
  scanned_in True t (q_fields r) (match o with Some u => u_scan u | None => q_scan r end).
Proof.
  intros Ht [H1 H2] Hj. unfold JRescan.judge_row in Hj.
  pose proof (judge_fields_spec r (sorted_keys (q_fields r)) (q_scan r) zero_result false) as Hs.
  destruct (foldl _ _ _) as [[n c] ch]. destruct Hs as [Hn Hch]. simpl in Hch. injection Hj as <-.
  match goal with |- JFold.scanned_in _ _ _ _ _ ?x => set (m := x) end.
  assert (Hin : ∀ k v, q_fields r !! k = Some v → bool_decide (k ∈ sorted_keys (q_fields r)) = true).
  { intros k v Hk. apply bool_decide_eq_true_2, elem_of_sorted_keys. by eexists. }
  assert (Hm : ∀ k v, q_fields r !! k = Some v →
    m !! k = if row_todo r k then Some (mkScanEntry (textVerdict v) scanner_version) else q_scan r !! k).
  { intros k v Hk. unfold m. destruct ch; simpl.
    - rewrite Hn, (Hin k v Hk), Hk. done.
    - symmetry in Hch. rewrite (proj1 (existsb_false _ _) Hch k); [done|]. apply elem_of_sorted_keys. by eexists. }
  split.
  - intros k e He. assert (Hk : ∃ v, q_fields r !! k = Some v ∧ IsText t k = true).
    { unfold m in He. destruct ch; simpl in He; [|destruct (H1 k e He) as (v & ? & ? & _); by exists v].
      rewrite Hn in He. destruct (bool_decide (k ∈ sorted_keys (q_fields r))) eqn:Hb; simpl in He;
        [|destruct (H1 k e He) as (v & ? & ? & _); by exists v].
      apply bool_decide_eq_true in Hb. apply elem_of_sorted_keys in Hb as [v Hv]. exists v. split; [done|].
      destruct (row_todo r k) eqn:Hto; [|destruct (H1 k e He) as (v' & ? & ? & _); done].
      unfold row_todo, JRescan.to_judge in Hto. apply andb_true_iff in Hto as [Hto _].
      rewrite (kind_is_text_active _ t k Ht) in Hto. apply orb_true_iff in Hto as [Hto|Hto]; [done|].
      apply bool_decide_eq_true in Hto as [e' He']. by destruct (H1 k e' He') as (? & _ & ? & _). }
    destruct Hk as (v & Hv & Htx). exists v. split_and!; [done..|]. intros _. rewrite (Hm k v Hv) in He.
    destruct (row_todo r k) eqn:Hto; [injection He as <-; split; [apply right_text|done]|].
    destruct (not_todo r k Hto) as (e' & He' & Hver); [by rewrite (kind_is_text_active _ t k Ht)|].
    simplify_eq. destruct (H1 k e He) as (v' & Hv' & _ & Hr). simplify_eq. apply Hr. by right.
  - intros _ k v Hv Htx. rewrite (Hm k v Hv). destruct (row_todo r k) eqn:Hto; [by eexists|].
    destruct (not_todo r k Hto) as (e' & He' & _); [by rewrite (kind_is_text_active _ t k Ht)|]. by eexists.
Qed.

Lemma judge_row_fields r u : judge_row r = Ok (Some u) →
  u_pk u = q_pk r ∧ u_seq u = q_seq r ∧ u_hash u = q_hash r ∧ u_was u = q_scan r.
Proof.
  unfold JRescan.judge_row. destruct (foldl _ _ _) as [[n c] ch]. destruct ch; [|done]. by intros [= <-].
Qed.
End judge.

(** ** Judging one event *)

Section judge_event.
Context (scanner_version : string) (scanner_verdict : string → string) (scanner : string → option string).
Context (types : list Type_) (reg : Registry) (Hreg : NewRegistry types = Some reg).
Context (all : bool) (Hsv : scanner_version ≠ ""%string).

Local Abbreviation right := (right scanner_verdict scanner).
Local Abbreviation textVerdict := (textVerdict scanner).
Local Abbreviation judge_event := (judge_event scanner_version scanner reg all).
Local Abbreviation judge_event_field := (judge_event_field scanner_version scanner reg all).
Local Abbreviation verdict_on := (verdict_on scanner_version right).
Local Abbreviation judged := (judged scanner_version right).
Local Abbreviation to_judge := (to_judge scanner_version all).

Definition event_todo (r : evRead) (f : string) : bool :=
  to_judge (kind_is_text reg (v_rt r) (ForwardName reg (v_rt r) (v_version r) f)) (bool_decide (is_Some (v_scan r !! f)))
    (EScannerVersion (default (mkEventScan "" "" "") (v_scan r !! f))).

Definition judged_side (o : option string) (before : string) : string := match o with Some v => textVerdict v | None => before end.

Definition judged_scan (r : evRead) (values : gmap string (option string * option string)) (f : string) : EventScan :=
  let es := default (mkEventScan "" "" "") (v_scan r !! f) in
  let o := default (None, None) (values !! f) in
  mkEventScan (judged_side o.1 (EOld es)) (judged_side o.2 (ENew es)) scanner_version.

Lemma judge_side_fst o before counts : (judge_side scanner o before counts).1 = judged_side o before.
Proof. by destruct o. Qed.

Lemma judge_event_field_eq r values next counts changed f :
  ∃ counts', judge_event_field r values (next, counts, changed) f
  = if event_todo r f then (<[f := judged_scan r values f]> next, counts', true) else (next, counts, changed).
Proof.
  unfold JRescan.judge_event_field. fold (event_todo r f). destruct (event_todo r f); [|by exists counts].
  unfold judged_scan. destruct (default (None, None) (values !! f)) as [o n]. simpl.
  pose proof (judge_side_fst o (EOld (default (mkEventScan "" "" "") (v_scan r !! f))) counts) as E1.
  destruct (judge_side scanner o _ counts) as [x c1].
  pose proof (judge_side_fst n (ENew (default (mkEventScan "" "" "") (v_scan r !! f))) c1) as E2.
  destruct (judge_side scanner n _ c1) as [y c2]. simpl in E1, E2. subst. by exists c2.
Qed.

Lemma judge_event_fields_spec r values l next counts changed :
  let '(n, _, ch) := foldl (judge_event_field r values) (next, counts, changed) l in
  (∀ k, n !! k = if bool_decide (k ∈ l) && event_todo r k then Some (judged_scan r values k) else next !! k)
  ∧ ch = changed || existsb (event_todo r) l.
Proof.
  revert next counts changed. induction l as [|f l IH]; intros next counts changed; [split; [done|by rewrite orb_false_r]|].
  cbn [foldl]. destruct (judge_event_field_eq r values next counts changed f) as [c1 ->]. destruct (event_todo r f) eqn:Ht.
  - match goal with |- context [foldl _ (?n, ?c, true) l] => specialize (IH n c true) end.
    destruct (foldl _ _ l) as [[n c] ch]. destruct IH as [IH1 IH2]. split.
    + intros k. rewrite IH1. destruct (decide (k = f)) as [->|Hne].
      * rewrite (bool_decide_eq_true_2 (f ∈ f :: l)) by left. rewrite Ht, lookup_insert_eq. simpl. by destruct (bool_decide _).
      * rewrite lookup_insert_ne by done. by rewrite (bool_decide_ext (k ∈ f :: l) (k ∈ l)) by (rewrite elem_of_cons; clear -Hne; naive_solver).
    + rewrite IH2. simpl. by rewrite Ht, !orb_true_r.
  - specialize (IH next counts changed). destruct (foldl _ _ l) as [[n c] ch]. destruct IH as [IH1 IH2]. split.
    + intros k. rewrite IH1. destruct (decide (k = f)) as [->|Hne]; [by rewrite Ht, !andb_false_r|].
      by rewrite (bool_decide_ext (k ∈ f :: l) (k ∈ l)) by (rewrite elem_of_cons; clear -Hne; naive_solver).
    + rewrite IH2. simpl. by rewrite Ht.
Qed.

Lemma judge_event_scan r o : judge_event r = Ok o →
  ∃ values, event_values r = Some values ∧
    ∀ k, (match o with Some u => u_scan u | None => v_scan r end) !! k
         = if bool_decide (is_Some (values !! k)) && event_todo r k then Some (judged_scan r values k) else v_scan r !! k.
Proof.
  unfold JRescan.judge_event. destruct (event_values r) as [values|]; [|done]. intros Hj. exists values. split; [done|]. intros k.
  pose proof (judge_event_fields_spec r values (sorted_keys values) (v_scan r) zero_result false) as Hs.
  destruct (foldl _ _ _) as [[n c] ch]. destruct Hs as [Hn Hch]. simpl in Hch. injection Hj as <-.
  rewrite (bool_decide_ext (is_Some (values !! k)) (k ∈ sorted_keys values)) by (symmetry; apply elem_of_sorted_keys).
  destruct ch; simpl; [apply Hn|]. case_bool_decide as Hk; [|done]. symmetry in Hch. by rewrite (proj1 (existsb_false _ _) Hch k Hk).
Qed.

Lemma event_not_todo r f : event_todo r f = false → kind_is_text reg (v_rt r) (ForwardName reg (v_rt r) (v_version r) f) = true →
  ∃ s, v_scan r !! f = Some s ∧ EScannerVersion s = scanner_version.
Proof.
  unfold event_todo, JRescan.to_judge. intros H Ht. rewrite Ht in H. simpl in H. apply orb_false_iff in H as [_ H].
  apply negb_false_iff, String.eqb_eq in H. destruct (v_scan r !! f) as [e|]; [by exists e|]. simpl in H. congruence.
Qed.

(** Both sides of a text, after. *)
Lemma judged_after r o values D seq k t old new :
  judge_event r = Ok o → event_values r = Some values → values !! k = Some (old, new) →
  Active reg (v_rt r) = Some t → v_version r = SchemaVersion t → IsText t k = true →
  (∀ v, old = Some v → verdict_on D seq EOld (v_scan r) k v) → (∀ v, new = Some v → verdict_on D seq ENew (v_scan r) k v) →
  let m := match o with Some u => u_scan u | None => v_scan r end in
  (∀ v, old = Some v → judged EOld m k v) ∧ (∀ v, new = Some v → judged ENew m k v).
Proof.
  intros Hj Hval Hk Ht Hv Htx Ho Hn. cbv zeta. destruct (judge_event_scan r o Hj) as (values' & Hval' & Hm). simplify_eq.
  assert (Hkt : kind_is_text reg (v_rt r) (ForwardName reg (v_rt r) (v_version r) k) = true).
  { rewrite Hv, (active_renames_nothing _ _ _ _ _ Hreg Ht). unfold kind_is_text. by rewrite Ht. }
  specialize (Hm k). rewrite (bool_decide_eq_true_2 (is_Some (values !! k))) in Hm by (rewrite Hk; by eexists). simpl in Hm.
  destruct (event_todo r k) eqn:Hto.
  - split; intros v ->; (eexists; split; [exact Hm|]); unfold judged_scan; rewrite Hk; (split; [apply right_text|done]).
  - destruct (event_not_todo r k Hto Hkt) as (s & Hs & Hver). rewrite Hs in Hm.
    split; intros v E; exists s; (split_and!; [done| |done]).
    + by apply (Ho v E).
    + by apply (Hn v E).
Qed.

(** An event that needs no update, and the update of one that does. *)
Lemma judge_event_exact e D seq o :
  event_shape reg (verdict_on D seq) e → judge_event (ev_read e) = Ok o →
  event_shape reg judged (set_event_scan (match o with Some u => u_scan u | None => er_scan e end) e).
Proof.
  intros (t & Ht & Hv & Hnone & H) Hj. pose proof Hj as Hj'. destruct (judge_event_scan _ o Hj') as (values & Hval & Hm).
  pose proof (judged_after (ev_read e) o values D seq) as Ha. exists t. split_and!; [done..| |].
  - intros k Hk. simpl in Hm |- *. rewrite Hm. destruct (bool_decide _ && _) eqn:Hb; [|by apply Hnone]. exfalso.
    apply andb_true_iff in Hb as [_ Hb]. unfold event_todo, JRescan.to_judge in Hb. apply andb_true_iff in Hb as [Hb _].
    simpl in Hb. rewrite (Hnone k Hk), Hv, (active_renames_nothing _ _ _ _ _ Hreg Ht) in Hb. unfold kind_is_text in Hb.
    rewrite Ht, Hk in Hb. done.
  - pose proof Hval as Hval'. unfold event_values in Hval. simpl in Hval |- *. destruct (er_kind e) eqn:Hkind.
    + destruct H as (f & Hf & Hc & H). exists f. split_and!; [done..|]. rewrite Hf in Hval. injection Hval as <-. intros k v Hk Htx.
      destruct (Ha k t None (Some v)) as [_ Hb]; try done; [| |by apply Hb].
      * by rewrite lookup_fmap, Hk.
      * intros v' [= <-]. by apply H.
    + destruct H as (m & Hmm & H). exists m. split; [done|]. rewrite Hmm in Hval. injection Hval as <-. intros k c Hk Htx.
      destruct (H k c Hk Htx) as [H1 H2]. apply (Ha k t (nilIfNull (Old c)) (nilIfNull (NewV c))); try done.
      by rewrite lookup_fmap, Hk.
    + destruct H as (f & Hf & Hc & H). exists f. split_and!; [done..|]. rewrite Hf in Hval. injection Hval as <-. intros k v Hk Htx.
      destruct (Ha k t (Some v) None) as [Hb _]; try done; [| |by apply Hb].
      * by rewrite lookup_fmap, Hk.
      * intros v' [= <-]. by apply H.
    + destruct H as (f & Hf & Hc & H). exists f. split_and!; [done..|]. rewrite Hf in Hval. injection Hval as <-. intros k v Hk Htx.
      destruct (Ha k t None (Some v)) as [_ Hb]; try done; [| |by apply Hb].
      * by rewrite lookup_fmap, Hk.
      * intros v' [= <-]. by apply H.
Qed.

(** The values of an event the store wrote can be read. *)
Lemma judge_event_ok V e : event_shape reg V e → ∃ o, judge_event (ev_read e) = Ok o.
Proof.
  intros (t & _ & _ & _ & H). unfold JRescan.judge_event, event_values. simpl.
  destruct (er_kind e).
  all: first [destruct H as (f & -> & _)|destruct H as (f & -> & _ & _)]; simpl; destruct (foldl _ _ _) as [[n c] ch]; eauto.
Qed.

Lemma judge_event_fields r u : judge_event r = Ok (Some u) → u_pk u = v_seq r ∧ u_was u = v_scan r.
Proof.
  unfold JRescan.judge_event. destruct (event_values r); [|done]. destruct (foldl _ _ _) as [[n c] ch]. destruct ch; [|done]. by intros [= <-].
Qed.
End judge_event.

(** ** The batches of one table

    [Inv rows P d]: in [d] the keys in [P] are done, and [rows] are rows as
    they were read.  What a batch needs of reading and writing gives what the
    loop achieves. *)

Section pass.
Context {K Row Update : Type} `{!EqDecision K}.
Context (key : Row → K) (judge : Row → res rescan_error (option Update)) (ukey : Update → K).
Context (page : K → prog (option (list Row))) (keys : list K → prog (option (list Row)))
  (commit : list Update → prog (option (RescanResult * list K))).
Context (step : db → ∀ o, ans o → db → Prop) (Inv : list Row → (K → Prop) → db → Prop) (before : K → K → Prop).

Definition pending (rows : list Row) (k : K) : Prop := ∃ q u, q ∈ rows ∧ key q = k ∧ judge q = Ok (Some u).

Context (judge_key : ∀ q u, judge q = Ok (Some u) → ukey u = key q).
Context (Inv_mono : ∀ rows P Q d, (∀ k, Q k → P k) → Inv rows P d → Inv rows Q d).
Context (ctx_spec : ∀ rows P d, Inv rows P d → under step (call ContextErr) d (λ d' _, Inv rows P d')).
Context (page_spec : ∀ after d, Inv [] (before after) d → under step (page after) d (λ d' o, ∀ rows, o = Some rows →
  if (length rows <? rescanBatch)%nat then Inv rows (λ k, ¬ pending rows k) d'
  else Inv rows (λ k, before (match last rows with Some r => key r | None => after end) k ∧ ¬ pending rows k) d')).
Context (keys_spec : ∀ G stale rows d, Inv rows (λ k, G k ∧ k ∉ stale) d → under step (keys stale) d (λ d' o,
  ∀ rows, o = Some rows → Inv rows (λ k, G k ∧ ¬ pending rows k) d')).
Context (commit_spec : ∀ P rows us d, (∀ u, u ∈ us → ∃ q, q ∈ rows ∧ judge q = Ok (Some u)) → Inv rows P d →
  under step (commit us) d (λ d' o, ∀ batch stale, o = Some (batch, stale) →
    Inv rows (λ k, P k ∨ (k ∈ ukey <$> us ∧ k ∉ stale)) d')).

Lemma judge_rows_spec P all rows d :
  Inv all P d → under step (judge_rows judge rows) d (λ d' r, Inv all P d' ∧ ∀ us, r = Ok us →
    (∀ u, u ∈ us → ∃ q, q ∈ rows ∧ judge q = Ok (Some u)) ∧ ∀ q u, q ∈ rows → judge q = Ok (Some u) → u ∈ us).
Proof.
  revert d. induction rows as [|q rows IH]; intros d Hi.
  { split; [done|]. intros us [= <-]. split; [by intros u ?%elem_of_nil|by intros q u ?%elem_of_nil]. }
  cbn [judge_rows]. apply under_bind. eapply under_mono; [|by apply ctx_spec]. intros d1 c Hi1. simpl in c. destruct c; [by split|].
  destruct (judge q) as [o|e] eqn:Hj; [|by split]. apply under_bind. eapply under_mono; [|by apply IH].
  intros d2 [us|e] [Hi2 H]; simpl; (split; [done|]); [|done]. intros us' [= <-]. destruct (H us eq_refl) as [H1 H2]. split.
  - intros u [Hu|Hu]%elem_of_app.
    + exists q. split; [by left|]. destruct o as [u'|]; simpl in Hu; [|by apply elem_of_nil in Hu].
      apply list_elem_of_singleton in Hu as ->. done.
    + destruct (H1 u Hu) as (q' & Hq & Hj'). exists q'. split; [by right|done].
  - intros q' u Hq Hju. apply elem_of_app. apply elem_of_cons in Hq as [->|Hq].
    + left. rewrite Hj in Hju. injection Hju as ->. simpl. left.
    + right. by eapply H2.
Qed.

Lemma judge_batch_spec G rows total d :
  Inv rows (λ k, G k ∧ ¬ pending rows k) d →
  under step (judge_batch judge commit rows total) d (λ d' r, ∀ stale, r.2 = Ok stale → Inv rows (λ k, G k ∧ k ∉ stale) d').
Proof.
  intros Hi. unfold judge_batch. apply under_bind. eapply under_mono; [|by apply judge_rows_spec].
  intros d1 [us|e] [Hi1 H]; [|done]. destruct (H us eq_refl) as [H1 H2]. destruct us as [|u us].
  { simpl. intros stale [= <-]. eapply Inv_mono; [|exact Hi1]. intros k [Hk _]. split; [done|].
    intros (q & u & Hq & _ & Hj). by apply H2, elem_of_nil in Hj. }
  apply under_bind. eapply under_mono; [|eapply (commit_spec _ rows (u :: us)); [exact H1|exact Hi1]].
  intros d2 [[batch stale]|] Hc; [|done]. simpl. intros stale' [= <-].
  eapply Inv_mono; [|by apply (Hc batch stale)]. intros k [Hk Hns]. simpl.
  destruct (decide (k ∈ ukey <$> u :: us)) as [Hin|Hno]; [by right|]. left. split; [done|].
  intros (q & u' & Hq & <- & Hj). apply Hno. rewrite <- (judge_key _ _ Hj). apply list_elem_of_fmap_2. by eapply H2.
Qed.

Lemma attempts_spec G n rows total d :
  Inv rows (λ k, G k ∧ ¬ pending rows k) d →
  under step (attempts judge keys commit n rows total) d (λ d' r, r.2 = None → ∃ rows', Inv rows' G d').
Proof.
  revert rows total d. induction n as [|n IH]; intros rows total d Hi.
  all: assert (Hnil : rows = [] → Inv rows G d) by (intros ->; eapply Inv_mono; [|exact Hi]; intros k Hk; split; [done|];
    intros (q & u & Hq & _); by apply elem_of_nil in Hq).
  all: destruct rows as [|q0 rows0]; [intros _; exists []; by apply Hnil|]; clear Hnil; cbn [attempts].
  all: apply under_bind; (eapply under_mono; [|by eapply judge_batch_spec]); intros d1 [total1 [stale|e]] H; [|done].
  all: specialize (H stale eq_refl); destruct stale as [|k0 stale].
  1, 3: intros _; exists (q0 :: rows0); eapply Inv_mono; [|exact H]; intros k Hk; split; [done|]; by intros ?%elem_of_nil.
  - done.
  - apply under_bind. eapply under_mono; [|eapply (keys_spec G (k0 :: stale) (q0 :: rows0)); exact H].
    intros d2 [rows'|] Hk; [|done]. apply IH. by apply Hk.
Qed.

Lemma rescan_table_spec fuel after total d :
  Inv [] (before after) d → (∀ rows P d, Inv rows P d → Inv [] P d) →
  under step (rescan_table key judge page keys commit fuel after total) d
    (λ d' r, ∀ t, r = Some (t, None) → ∃ rows, Inv rows (λ _, True) d').
Proof.
  intros Hi Hforget. revert after total d Hi. induction fuel as [|fuel IH]; intros after total d Hi; [done|].
  cbn [rescan_table]. apply under_bind. eapply under_mono; [|by apply ctx_spec]. intros d1 c Hi1. simpl in c. destruct c; [done|].
  apply under_bind. unfold rescan_batch. apply under_bind. eapply under_mono; [|by apply page_spec].
  intros d2 [rows|] Hp; [|done]. specialize (Hp rows eq_refl).
  set (G := λ k, (length rows <? rescanBatch)%nat = true ∨ before (match last rows with Some r => key r | None => after end) k).
  apply under_bind. eapply under_mono; [|apply (attempts_spec G)].
  - intros d3 [t [e|]] H; [done|]. destruct (H eq_refl) as [rows' H']. cbn beta iota. simpl.
    change (Init.Nat.ltb (length rows) rescanBatch) with (length rows <? rescanBatch)%nat.
    destruct (length rows <? rescanBatch)%nat eqn:Hn.
    + intros t' _. exists rows'. eapply Inv_mono; [|exact H']. intros k _. by left.
    + apply IH. eapply Hforget, Inv_mono; [|exact H']. intros k Hk. by right.
  - destruct (length rows <? rescanBatch)%nat.
    + eapply Inv_mono; [|exact Hp]. by intros k [_ Hk].
    + eapply Inv_mono; [|exact Hp]. by intros k [[?|Hk] Hq].
Qed.
End pass.

(** ** What a transaction on the rows does *)

Definition matches (u : row_update) (r : currentRow) : bool :=
  (cr_last_event_seq r =? u_seq u) && String.eqb (cr_hash r) (u_hash u) && bool_decide (cr_scan r = u_was u).

Lemma set_scan_twice s s' r : set_scan s (set_scan s' r) = set_scan s r.
Proof. done. Qed.

Lemma update_rows_spec us d :
  let '(batch, stale, d') := update_rows us d in
  d' = set_current (current d') d ∧
  ∀ id, (current d' !! id = current d !! id ∧ (id ∈ u_pk <$> us → id ∉ stale → current d !! id = None)) ∨
        ∃ u r, u ∈ us ∧ u_pk u = id ∧ current d !! id = Some r ∧ matches u r = true ∧ current d' !! id = Some (set_scan (u_scan u) r).
Proof.
  unfold update_rows. induction us as [|u us IH] using rev_ind.
  { split; [by destruct d|]. intros id. left. split; [done|]. by intros ?%elem_of_nil. }
  rewrite foldl_snoc. destruct (foldl _ _ us) as [[batch stale] d1]. destruct IH as [Hd IH].
  assert (Hold : ∀ id, (current d !! u_pk u = None ∨ u_pk u ≠ id ∨ id ∈ stale ++ [u_pk u]) → ∀ st, stale ⊆ st → (id ∈ stale ++ [u_pk u] → u_pk u ≠ id ∨ id ∈ st ∨ current d !! u_pk u = None) →
    (current d1 !! id = current d !! id ∧ (id ∈ u_pk <$> us ++ [u] → id ∉ st → current d !! id = None)) ∨
    ∃ u' r, u' ∈ us ++ [u] ∧ u_pk u' = id ∧ current d !! id = Some r ∧ matches u' r = true ∧ current d1 !! id = Some (set_scan (u_scan u') r)).
  { intros id Hc st Hst Hin. destruct (IH id) as [[H1 H2]|(u' & r & Hu & H)].
    - left. split; [done|]. rewrite fmap_app, elem_of_app. intros [Hi|Hi] Hn; [apply H2; [done|by intros ?%Hst]|].
      apply list_elem_of_singleton in Hi. subst id. destruct (Hin ltac:(apply elem_of_app; right; left)) as [?|[?|?]]; done.
    - right. exists u', r. split; [apply elem_of_app; by left|done]. }
  cbn [update_row]. destruct (current d !! u_pk u) as [r|] eqn:Hr.
  - fold (matches u r). destruct (matches u r) eqn:Hm.
    + split; [rewrite Hd; by destruct d|]. intros id. simpl. destruct (decide (u_pk u = id)) as [<-|Hne].
      * right. exists u, r. split_and!; [apply elem_of_app; right; left|done..|]. rewrite lookup_alter_eq.
        destruct (IH (u_pk u)) as [[-> _]|(u' & r' & _ & _ & Hr' & _ & ->)]; [by rewrite Hr|]. simplify_eq. done.
      * rewrite lookup_alter_ne by done. apply Hold; [right; by left|done|]. intros _. by left.
    + split; [done|]. intros id. apply Hold.
      * destruct (decide (u_pk u = id)) as [<-|]; [|right; by left]. right. right. apply elem_of_app. right. left.
      * intros x Hx. apply elem_of_app. by left.
      * intros Hi. right. by left.
  - split; [done|]. intros id. apply Hold; [by left|done|]. intros _. right. by right.
Qed.

(** ** What a rescan leaves alone *)

(** The tables without the verdicts. *)
Definition without_verdicts (d : db) : db :=
  set_current (set_scan ∅ <$> current d) (set_events (set_event_scan ∅ <$> events d) (next_seq d) d).

Lemma update_rows_verdicts us d : without_verdicts (update_rows us d).2 = without_verdicts d.
Proof.
  unfold update_rows. induction us as [|u us IH] using rev_ind; [done|]. rewrite foldl_snoc.
  destruct (foldl _ _ us) as [[b st] d1]. simpl in IH |- *. rewrite <- IH. clear IH. destruct (current d !! u_pk u) as [r|]; [|done].
  destruct (_ && _); [|done]. unfold without_verdicts, set_current, set_events. simpl. f_equal. apply map_eq. intros id.
  rewrite !lookup_fmap. destruct (decide (u_pk u = id)) as [<-|Hne]; [|by rewrite lookup_alter_ne].
  rewrite lookup_alter_eq. by destruct (current d1 !! u_pk u).
Qed.

Lemma update_events_verdicts us d : without_verdicts (update_events us d).2 = without_verdicts d.
Proof.
  unfold update_events. induction us as [|u us IH] using rev_ind; [done|]. rewrite foldl_snoc.
  destruct (foldl _ _ us) as [[b st] d1]. simpl in IH |- *. rewrite <- IH. clear IH. destruct (event_at (events d) (u_pk u)) as [r|]; [|done].
  case_bool_decide; [|done]. unfold without_verdicts, set_current, set_events. simpl. f_equal.
  rewrite <- list_fmap_compose. apply list_fmap_ext. intros i e _. simpl. by destruct (er_seq e =? u_pk u).
Qed.

Lemma answers_verdicts (text_le : relation string) `{!RelDecision text_le} d o r d' :
  answers text_le d o r d' → without_verdicts d' = without_verdicts d.
Proof.
  destruct o; simpl; [by intros ->|by intros [-> _]|by intros [-> _]| |by intros [-> _]|by intros [-> _]|].
  - intros []; [apply update_rows_verdicts|done|apply update_rows_verdicts].
  - intros []; [apply update_events_verdicts|done|apply update_events_verdicts].
Qed.

(** ** When nothing interferes *)

Section quiet.
Context (text_le : relation string) `{!RelDecision text_le}.

(** Every query succeeds and nobody else writes. *)
Definition healthy_answer (d : db) (o : rescan_op) : ans o * db :=
  match o return ans o * db with
  | ContextErr => (false, d)
  | ReadCurrentPage after => (Some (read_page text_le d after), d)
  | ReadCurrentKeys pks => (Some (read_keys text_le d pks), d)
  | UpdateCurrent us => (Some (update_rows us d).1, (update_rows us d).2)
  | ReadEventPage after => (Some (read_event_page d after), d)
  | ReadEventSeqs seqs => (Some (read_event_seqs d seqs), d)
  | UpdateEvents us => (Some (update_events us d).1, (update_events us d).2)
  end.

Fixpoint quiet {A} (p : prog A) (d : db) : db * A :=
  match p with
  | Ret a => (d, a)
  | Do o k => let '(r, d') := healthy_answer d o in quiet (k r) d'
  end.

Lemma quiet_bind {A B} (p : prog A) (f : A → prog B) d : quiet (bind p f) d = let '(d', a) := quiet p d in quiet (f a) d'.
Proof. revert d. induction p as [a|o k IH]; intros d; [done|]. simpl. destruct (healthy_answer d o). apply IH. Qed.

Lemma healthy_answers d o : answers text_le d o (healthy_answer d o).1 (healthy_answer d o).2.
Proof. destruct o; simpl; [done|by split; [|right]|by split; [|right]|constructor|by split; [|right]|by split; [|right]|constructor]. Qed.

(** It is one of the runs. *)
Lemma quiet_exec (others : db → db → Prop) {A} (p : prog A) d : exec (rescan_step text_le others) p d (quiet p d).1 (quiet p d).2.
Proof.
  revert d. induction p as [a|o k IH]; intros d; [constructor|]. simpl. pose proof (healthy_answers d o) as Ho.
  destruct (healthy_answer d o) as [r d']. simpl in Ho. econstructor; [|apply IH]. exists d. by split.
Qed.

Lemma quiet_verdicts {A} (p : prog A) d : without_verdicts (quiet p d).1 = without_verdicts d.
Proof.
  revert d. induction p as [a|o k IH]; intros d; [done|]. simpl. pose proof (answers_verdicts _ _ _ _ _ (healthy_answers d o)) as Ho.
  destruct (healthy_answer d o) as [r d']. simpl in Ho. by rewrite IH.
Qed.

Section table.
Context {K Row Update : Type} `{Countable K}.
Context (key : Row → K) (judge : Row → res rescan_error (option Update)).
Context (page : K → prog (option (list Row))) (keys : list K → prog (option (list Row)))
  (commit : list Update → prog (option (RescanResult * list K))).
Context (J : db → Prop) (valid : db → Row → Prop) (keyset : db → gset K) (aft : K → K → bool).

Definition left_after (k : K) (d : db) : nat := size (filter (λ x, aft k x = true) (keyset d)).

Context (aft_trans : ∀ a b c, aft a b = true → aft b c = true → aft a c = true).
Context (page_quiet : ∀ after d, J d → ∃ rows, quiet (page after) d = (d, Some rows) ∧ Forall (valid d) rows ∧
  NoDup (key <$> rows) ∧ (∀ k, k ∈ key <$> rows → k ∈ keyset d ∧ aft after k = true) ∧
  ∀ l k, last (key <$> rows) = Some l → k ∈ key <$> rows → aft l k = false).
Context (judge_quiet : ∀ d q, J d → valid d q → ∃ o, judge q = Ok o).
Context (commit_quiet : ∀ d rows us, J d → Forall (valid d) rows → (∀ u, u ∈ us → ∃ q, q ∈ rows ∧ judge q = Ok (Some u)) →
  ∃ batch d', quiet (commit us) d = (d', Some (batch, [])) ∧ J d' ∧ keyset d' = keyset d).

Lemma judge_rows_quiet d rows : J d → Forall (valid d) rows →
  ∃ us, quiet (judge_rows judge rows) d = (d, Ok us) ∧ ∀ u, u ∈ us → ∃ q, q ∈ rows ∧ judge q = Ok (Some u).
Proof using judge_quiet.
  intros HJ. induction 1 as [|q rows Hq _ IH]; [exists []; split; [done|by intros u ?%elem_of_nil]|].
  destruct IH as (us & E & Hus). destruct (judge_quiet d q HJ Hq) as [o Ho]. exists (option_list o ++ us). split.
  - cbn [judge_rows]. rewrite quiet_bind. cbn [quiet call healthy_answer]. rewrite Ho, quiet_bind, E. done.
  - intros u [Hu|Hu]%elem_of_app.
    + destruct o as [u'|]; [|by apply elem_of_nil in Hu]. apply list_elem_of_singleton in Hu as ->. exists q. split; [left|done].
    + destruct (Hus u Hu) as (q' & Hq' & Hj). exists q'. split; [by right|done].
Qed.

Lemma judge_batch_quiet d rows total : J d → Forall (valid d) rows →
  ∃ total' d', quiet (judge_batch judge commit rows total) d = (d', (total', Ok [])) ∧ J d' ∧ keyset d' = keyset d.
Proof using judge_quiet commit_quiet.
  intros HJ Hv. destruct (judge_rows_quiet d rows HJ Hv) as (us & E & Hus). unfold judge_batch. rewrite quiet_bind, E.
  destruct us as [|u us]; [by exists total, d|]. rewrite quiet_bind.
  destruct (commit_quiet d rows (u :: us) HJ Hv Hus) as (batch & d' & Ec & HJ' & Hk). rewrite Ec. by exists (addResult total batch), d'.
Qed.

Lemma attempts_quiet n d rows total : J d → Forall (valid d) rows →
  ∃ total' d', quiet (attempts judge keys commit n rows total) d = (d', (total', None)) ∧ J d' ∧ keyset d' = keyset d.
Proof using judge_quiet commit_quiet.
  intros HJ Hv. destruct (judge_batch_quiet d rows total HJ Hv) as (total' & d' & E & HJ' & Hk).
  destruct rows as [|q rows]; [destruct n; by exists total, d|]. exists total', d'. split; [|done].
  destruct n; cbn [attempts]; by rewrite quiet_bind, E.
Qed.

Lemma rescan_table_quiet fuel after total d : J d → (left_after after d < fuel * rescanBatch)%nat →
  ∃ total' d', quiet (rescan_table key judge page keys commit fuel after total) d = (d', Some (total', None)) ∧ J d'.
Proof using judge_quiet commit_quiet page_quiet aft_trans.
  revert after total d. induction fuel as [|fuel IH]; intros after total d HJ Hf; [lia|].
  cbn [rescan_table]. rewrite quiet_bind. cbn [quiet call healthy_answer]. rewrite quiet_bind. unfold rescan_batch.
  rewrite quiet_bind. destruct (page_quiet after d HJ) as (rows & -> & Hv & Hnd & Hin & Hlast). rewrite quiet_bind.
  destruct (attempts_quiet rescanRetries d rows total HJ Hv) as (total' & d' & -> & HJ' & Hk). cbn [quiet].
  destruct (length rows <? rescanBatch)%nat eqn:Hn; cbn [quiet]; [by exists total', d'|]. apply IH; [done|].
  apply Nat.ltb_ge in Hn. destruct (last rows) as [q|] eqn:Hq; [|apply last_None in Hq; subst; simpl in Hn; unfold rescanBatch in Hn; lia].
  assert (Hl : last (key <$> rows) = Some (key q)) by by rewrite fmap_last, Hq.
  assert (Hqin : key q ∈ key <$> rows) by by apply last_Some_elem_of.
  assert (Hsub : filter (λ x, aft (key q) x = true) (keyset d) ∪ list_to_set (key <$> rows) ⊆ filter (λ x, aft after x = true) (keyset d)).
  { intros x. rewrite elem_of_union, !elem_of_filter, elem_of_list_to_set. intros [[H1 H2]|Hx]; [|by destruct (Hin x Hx)].
    split; [|done]. eapply aft_trans; [|exact H1]. by apply Hin. }
  apply subseteq_size in Hsub. rewrite size_union in Hsub.
  - rewrite size_list_to_set, length_fmap in Hsub by done. unfold left_after in *. rewrite Hk. lia.
  - intros x [H1 _]%elem_of_filter Hx%elem_of_list_to_set. by rewrite (Hlast _ x Hl Hx) in H1.
Qed.
End table.
End quiet.

(** ** Rescanning the rows *)

Section rescan.
Context (scanner_version : string) (scanner_verdict : string → string) (scanner : string → option string).
Context (sha256 sha256_hex : string → string).
Context (rules : RuleSet) (guard : Guard).
Context (validate : string → Z → option (res Rejection Normalized)).
Context (types : list Type_) (reg : Registry) (Hcfg : config_ok sha256 validate types reg).
Context (text_le : relation string) `{!RelDecision text_le, !Total text_le, !Transitive text_le, !AntiSymm eq text_le}.
Context (Hsv : scanner_version ≠ ""%string).
Context (all : bool).

Local Abbreviation right := (right scanner_verdict scanner).
Local Abbreviation call_ok := (call_ok sha256 reg).
Local Abbreviation step := (step scanner_version scanner_verdict sha256 sha256_hex rules guard validate).
Local Abbreviation judge_row := (judge_row scanner_version scanner reg all).
Local Abbreviation judge_event := (judge_event scanner_version scanner reg all).
Local Abbreviation good := (good scanner_version sha256 reg right).
Local Abbreviation events_scanned := (events_scanned scanner_version reg right).
Local Abbreviation scanned_in := (scanned_in scanner_version right).
Local Abbreviation verdict_on := (verdict_on scanner_version right).
Local Abbreviation judged := (judged scanner_version right).

(** An erase that moves no note to a pseudonym. *)
Definition keeps_no_note (d : db) (c : JJournal.call) : Prop :=
  match c_op c with OErase _ s _ => notes_about (erase_rule1 s d) s = [] | _ => True end.

Local Lemma Hreg' : NewRegistry types = Some reg.
Proof. apply Hcfg. Qed.

(** What the journal does meanwhile: any calls, by the same scanner. *)
Definition journal_step (d d' : db) : Prop := ∃ c, call_ok d c ∧ keeps_no_note d c ∧ d' = step d c.

Local Abbreviation rescan_step := (rescan_step text_le journal_step).

Lemma keeps_no_note_spares d c P : keeps_no_note d c → spares_all P d c.
Proof. unfold keeps_no_note, spares_all. destruct (c_op c); [done..|]. intros -> n j Hn. by apply elem_of_nil in Hn. Qed.

Lemma journal_step_good P d d' : journal_step d d' → good P d → good P d'.
Proof.
  intros (c & Hok & Hk & ->) Hg. destruct Hcfg as [Hreg Hsha Hval].
  eapply step_good; [exact Hreg|done|intros; apply right_new|done|done|by apply keeps_no_note_spares|done].
Qed.

Lemma journal_step_scanned P D d d' :
  (∀ id, P id) ∨ (∀ seq, ¬ D seq) → journal_step d d' → good P d → events_scanned D d → events_scanned D d'.
Proof.
  intros HPD (c & Hok & Hk & ->) Hg He. destruct Hcfg as [Hreg Hsha Hval]. destruct (is_erase c) eqn:Hc.
  - unfold JJournal.step, is_erase in *. destruct (c_op c); try done. by apply erase_scanned.
  - eapply (write_scanned scanner_version scanner_verdict sha256 sha256_hex rules guard reg right (right_new _ _) P);
      [destruct HPD; [by left|by right]|done| |exact Hg|done].
    by apply (step_write scanner_version scanner_verdict sha256 sha256_hex rules guard validate).
Qed.

Lemma others_inv (I : db → Prop) d d' : (∀ d d', journal_step d d' → I d → I d') → rtc journal_step d d' → I d → I d'.
Proof. intros H Hr. induction Hr; [done|]. eauto. Qed.

(** Which rows are done does not matter to the rest of the invariant. *)
Lemma good_done P Q d :
  (∀ id r, current d !! id = Some r → Q id → P id ∨
     ∀ t, Active reg (rt_of id) = Some t → scanned_in True t (cr_fields r) (cr_scan r)) →
  good P d → good Q d.
Proof.
  intros H [H1 H2 H3 H4]. split; [|done..]. intros id r Hr. destruct (H1 id r Hr) as [R1 R2 R3 R4]. split; [done..|].
  intros t Ht. split.
  - intros k e He. destruct (R4 t Ht) as [R5 _]. destruct (R5 k e He) as (v & Hv & Htx & Hn). exists v. split_and!; [done..|].
    intros [Hq|Hs]; [|apply Hn; by right]. destruct (H id r Hr Hq) as [Hp|Hx]; [apply Hn; by left|].
    destruct (Hx t Ht) as [Hx1 _]. destruct (Hx1 k e He) as (v' & Hv' & _ & Hn'). simplify_eq. apply Hn'. by left.
  - intros Hq. destruct (H id r Hr Hq) as [Hp|Hx]; [by apply (R4 t Ht)|]. destruct (Hx t Ht) as [_ Hx2]. by apply Hx2.
Qed.

(** A row as it was read: its hash, and verdicts as the invariant has them. *)
Definition valid_row (q : curRead) : Prop :=
  q_hash q = Hash sha256 (q_fields q) ∧ content_ok (q_fields q) ∧
  ∀ t, Active reg (rt_of (q_pk q)) = Some t → scanned_in False t (q_fields q) (q_scan q).

Definition rows_inv (rows : list curRead) (P : Identity → Prop) (d : db) : Prop :=
  good P d ∧ events_scanned (λ _, False) d ∧ Forall valid_row rows.

Lemma rows_mono rows P Q d : (∀ id, Q id → P id) → rows_inv rows P d → rows_inv rows Q d.
Proof. intros H (Hg & He & Hr). split_and!; [|done..]. eapply good_done; [|exact Hg]. intros id r _ Hq. left. auto. Qed.

Lemma rows_others rows P d d' : rtc journal_step d d' → rows_inv rows P d → rows_inv rows P d'.
Proof.
  apply others_inv. clear d d'. intros d d' Hs (Hg & He & Hr). split_and!; [by eapply journal_step_good| |done].
  eapply (journal_step_scanned P); [right; by intros ? []|done|done|done].
Qed.

Lemma rows_ctx rows P d : rows_inv rows P d → under rescan_step (call ContextErr) d (λ d' _, rows_inv rows P d').
Proof. intros Hi r d' (d1 & Hs & ->). simpl. by eapply rows_others. Qed.

Lemma cur_read_valid P d id r : good P d → current d !! id = Some r → valid_row (cur_read (id, r)).
Proof.
  intros Hg Hr. destruct (good_rows _ _ _ _ _ _ Hg id r Hr) as [R1 R2 R3 R4]. split_and!; [done..|].
  intros t Ht. eapply scanned_weaken; [|by apply R4]. done.
Qed.

Local Abbreviation rows_pending := (pending q_pk judge_row).

(** A row that is read and needs no update is done. *)
Lemma read_rows_done (G P : Identity → Prop) rows0 rows d :
  rows_inv rows0 P d →
  (∀ q, q ∈ rows → ∃ id r, current d !! id = Some r ∧ q = cur_read (id, r)) →
  (∀ id r, current d !! id = Some r → G id → P id ∨ cur_read (id, r) ∈ rows) →
  rows_inv rows (λ id, G id ∧ ¬ rows_pending rows id) d.
Proof.
  intros (Hg & He & _) Hrows Hin. split_and!; [|done|].
  - eapply good_done; [|exact Hg]. intros id r Hr [HG Hnp]. destruct (Hin id r Hr HG) as [Hp|Hq]; [by left|]. right.
    intros t Ht. destruct (judge_row (cur_read (id, r))) as [[u|]|e] eqn:Hj.
    + exfalso. apply Hnp. by exists (cur_read (id, r)), u.
    + destruct (cur_read_valid _ _ _ _ Hg Hr) as (_ & _ & Hs).
      by apply (judge_row_exact scanner_version scanner_verdict scanner reg all Hsv (cur_read (id, r)) False t None Ht (Hs t Ht)).
    + unfold JRescan.judge_row in Hj. by destruct (foldl _ _ _) as [[? ?] ?].
  - apply Forall_forall. intros q Hq. destruct (Hrows q Hq) as (id & r & Hr & ->). by eapply cur_read_valid.
Qed.

Lemma id_le_refl id : id_le text_le id id.
Proof. destruct (id_le_total text_le id id); done. Qed.

Lemma id_le_antisym a b : id_le text_le a b → id_le text_le b a → a = b.
Proof.
  destruct a as [[a1 a2] a3], b as [[b1 b2] b3]. unfold id_le, rt_of, subject_of, key_of. simpl.
  rewrite (String.eqb_sym b1), (String.eqb_sym b2). destruct (String.eqb_spec a1 b1) as [->|].
  - destruct (String.eqb_spec a2 b2) as [->|Hne].
    + intros H1 H2. by rewrite (anti_symm text_le _ _ H1 H2).
    + intros H1 H2. by destruct Hne; apply (anti_symm text_le).
  - intros H1 H2. by destruct n; apply (anti_symm text_le).
Qed.

Lemma sorted_rows (f : Identity * currentRow → bool) d :
  let l := merge_sort (row_le text_le) (List.filter f (map_to_list (current d))) in
  StronglySorted (row_le text_le) l ∧ NoDup l.*1 ∧ ∀ id r, (id, r) ∈ l ↔ current d !! id = Some r ∧ f (id, r) = true.
Proof.
  cbv zeta. assert (Ht : Total (row_le text_le)) by (intros a b; apply (id_le_total text_le)).
  assert (Htr : Transitive (row_le text_le)) by (intros a b c; apply (id_le_trans text_le)). split_and!.
  - by apply StronglySorted_merge_sort.
  - rewrite (merge_sort_Permutation (row_le text_le)). pose proof (NoDup_fst_map_to_list (current d)) as H.
    induction (map_to_list (current d)) as [|x l IH]; [constructor|]. simpl in H |- *. apply NoDup_cons in H as [Hx H].
    destruct (f x); [|by apply IH]. simpl. constructor; [|by apply IH].
    intros (y & E & [Hy _]%elem_of_bool_list_filter)%list_elem_of_fmap. apply Hx. rewrite E. by apply list_elem_of_fmap_2.
  - intros id r. by rewrite (merge_sort_Permutation (row_le text_le)), elem_of_bool_list_filter, elem_of_map_to_list.
Qed.

Definition not_after (after id : Identity) : Prop := id_after text_le after id = false.

(** A sorted list past its first elements. *)
Lemma StronglySorted_app_le {A} (R : relation A) l k x y : StronglySorted R (l ++ k) → x ∈ l → y ∈ k → R x y.
Proof.
  induction l as [|z l IH]; intros Hs Hx Hy; [by apply elem_of_nil in Hx|].
  apply StronglySorted_inv in Hs as [Hs Hz]. apply elem_of_cons in Hx as [->|Hx]; [|by apply IH].
  rewrite Forall_forall in Hz. apply Hz, elem_of_app. by right.
Qed.

Lemma rows_page after d :
  rows_inv [] (not_after after) d →
  under rescan_step (call (ReadCurrentPage after)) d (λ d' o, ∀ rows, o = Some rows →
    if (length rows <? rescanBatch)%nat then rows_inv rows (λ id, ¬ rows_pending rows id) d'
    else rows_inv rows (λ id, not_after (match last rows with Some r => q_pk r | None => after end) id ∧ ¬ rows_pending rows id) d').
Proof.
  intros Hi o d' (d1 & Hs & -> & Ho). simpl in Ho |- *. intros rows ->. destruct Ho as [?|[= ->]]; [done|].
  apply (rows_others _ _ _ _ Hs) in Hi. clear d Hs. unfold read_page.
  destruct (sorted_rows (λ p, id_after text_le after p.1) d1) as (Hsort & Hnd & Hl).
  set (L := merge_sort _ _) in *. set (rows := take rescanBatch (cur_read <$> L)).
  assert (Hrows : ∀ q, q ∈ rows → ∃ id r, current d1 !! id = Some r ∧ q = cur_read (id, r)).
  { intros q Hq. unfold rows in Hq. rewrite <- fmap_take in Hq. apply list_elem_of_fmap in Hq as ([id r] & -> & Hq).
    exists id, r. split; [|done]. apply (Hl id r). by eapply (subseteq_take rescanBatch). }
  assert (Hcase : ∀ id r, current d1 !! id = Some r → not_after after id ∨ cur_read (id, r) ∈ rows
    ∨ (id, r) ∈ drop rescanBatch L).
  { intros id r Hr. unfold not_after. destruct (id_after text_le after id) eqn:Ha; [|by left]. right.
    assert (Hin : (id, r) ∈ L) by by apply Hl. rewrite <- (take_drop rescanBatch L), elem_of_app in Hin.
    destruct Hin as [Hin|Hin]; [left|by right]. unfold rows. rewrite <- fmap_take. by apply list_elem_of_fmap_2. }
  destruct (length rows <? rescanBatch)%nat eqn:Hn.
  - eapply (rows_mono _ (λ id, True ∧ ¬ rows_pending rows id)); [by split|]. eapply read_rows_done; [exact Hi|done|].
    intros id r Hr _. destruct (Hcase id r Hr) as [?|[?|Hd]]; [by left|by right|]. exfalso.
    apply Nat.ltb_lt in Hn. unfold rows in Hn. rewrite length_take, length_fmap in Hn.
    rewrite drop_ge in Hd by lia. by apply elem_of_nil in Hd.
  - apply (read_rows_done (not_after _) (not_after after) []); [done|done|].
    intros id r Hr Hlast. destruct (Hcase id r Hr) as [?|[?|Hd]]; [by left|by right|]. exfalso. clear Hcase.
    destruct (last rows) as [q|] eqn:Hq.
    2: { apply last_None in Hq. rewrite Hq in Hn. done. }
    unfold rows in Hq. rewrite <- fmap_take, fmap_last in Hq. apply fmap_Some in Hq as ([id' r'] & Hq & ->). simpl in Hlast.
    assert (Hin : (id', r') ∈ take rescanBatch L) by by apply last_Some_elem_of.
    pose proof Hsort as Hsort'. rewrite <- (take_drop rescanBatch L) in Hsort', Hnd.
    pose proof (StronglySorted_app_le _ _ _ _ _ Hsort' Hin Hd) as Hle. unfold not_after, id_after in Hlast.
    rewrite bool_decide_eq_true_2 in Hlast by exact Hle. simpl in Hlast. apply negb_false_iff, bool_decide_eq_true in Hlast. subst id'.
    rewrite fmap_app in Hnd. apply NoDup_app in Hnd as (_ & Hnd & _). apply (Hnd id).
    + apply list_elem_of_fmap. by exists (id, r').
    + apply list_elem_of_fmap. by exists (id, r).
Qed.

Lemma rows_keys G stale rows d :
  rows_inv rows (λ id, G id ∧ id ∉ stale) d →
  under rescan_step (call (ReadCurrentKeys stale)) d (λ d' o, ∀ rows', o = Some rows' →
    rows_inv rows' (λ id, G id ∧ ¬ rows_pending rows' id) d').
Proof.
  intros Hi o d' (d1 & Hs & -> & Ho). simpl in Ho |- *. intros rows' ->. destruct Ho as [?|[= ->]]; [done|].
  apply (rows_others _ _ _ _ Hs) in Hi. clear d Hs. unfold read_keys.
  destruct (sorted_rows (λ p, bool_decide (p.1 ∈ stale)) d1) as (_ & _ & Hl). set (L := merge_sort _ _) in *.
  eapply read_rows_done; [exact Hi| |].
  - intros q ([id r] & -> & Hq)%list_elem_of_fmap. exists id, r. split; [|done]. by apply Hl.
  - intros id r Hr HG. destruct (decide (id ∈ stale)) as [Hst|Hst]; [right|by left].
    apply list_elem_of_fmap_2, Hl. split; [done|]. by apply bool_decide_eq_true_2.
Qed.

(** Other verdicts leave the history as it is. *)
Lemma set_scans_good P Q d m :
  good P d →
  (∀ id, current d !! id = m !! id ∧ (∀ r, m !! id = Some r → Q id → P id) ∨ ∃ r s, current d !! id = Some r ∧ m !! id = Some (set_scan s r) ∧
     ∀ t, Active reg (rt_of id) = Some t → scanned_in True t (cr_fields r) s) →
  good Q (set_current m d).
Proof.
  intros [H1 H2 H3 H4] Hm.
  assert (Hold : ∀ id r', m !! id = Some r' → ∃ r, current d !! id = Some r ∧ (r' = r ∨ ∃ s, r' = set_scan s r)).
  { intros id r' Hr. destruct (Hm id) as [[E _]|(r & s & Hd & E & _)]; [exists r'; split; [congruence|by left]|].
    exists r. split; [done|]. right. exists s. congruence. }
  split.
  - intros id r' Hr. destruct (Hm id) as [[E HQ]|(r & s & Hd & E & Hs)].
    + assert (Hd : current d !! id = Some r') by (rewrite E; exact Hr). destruct (H1 id r' Hd) as [R1 R2 R3 R4]. split; [done..|].
      intros t Ht. eapply scanned_weaken; [by apply (HQ r')|by apply R4].
    + simpl in Hr. rewrite E in Hr. injection Hr as <-. destruct (H1 id r Hd) as [R1 R2 R3 R4]. split; [done..|].
      intros t Ht. eapply scanned_weaken; [|by apply Hs]. done.
  - intros id r' Hr. destruct (Hold id r' Hr) as (r & Hd & [->|[s ->]]); simpl; by apply H2.
  - done.
  - intros id. rewrite H4. simpl. destruct (Hm id) as [[-> _]|(r & s & -> & -> & _)]; done.
Qed.

Lemma rows_commit P rows us d :
  (∀ u, u ∈ us → ∃ q, q ∈ rows ∧ judge_row q = Ok (Some u)) → rows_inv rows P d →
  under rescan_step (call (UpdateCurrent us)) d (λ d' o, ∀ batch stale, o = Some (batch, stale) →
    rows_inv rows (λ id, P id ∨ (id ∈ u_pk <$> us ∧ id ∉ stale)) d').
Proof.
  intros Hus Hi o d' (d1 & Hs & Ho). simpl in Ho |- *. intros batch stale ->.
  apply (rows_others _ _ _ _ Hs) in Hi. clear d Hs. inversion Ho as [E1 E2| |]; subst; clear Ho.
  pose proof (update_rows_spec us d1) as Hspec. destruct (update_rows us d1) as [[b st] d']. simpl in E1 |- *. injection E1 as -> ->.
  destruct Hspec as [Hd' Hspec]. destruct Hi as (Hg & He & Hv). split_and!; [|by rewrite Hd'|done]. rewrite Hd'.
  apply (set_scans_good P); [done|]. intros id. destruct (Hspec id) as [[E Hn]|(u & r & Hu & <- & Hr & Hm & E)].
  - left. split; [done|]. intros r Hr [Hp|[Hin Hst]]; [done|]. rewrite E, (Hn Hin Hst) in Hr. done.
  - right. exists r, (u_scan u). split_and!; [done..|]. intros t Ht. destruct (Hus u Hu) as (q & Hq & Hj).
    destruct (judge_row_fields _ _ _ _ _ _ Hj) as (Epk & _ & Eh & _). rewrite Forall_forall in Hv. destruct (Hv q Hq) as (Vh & Vc & Vs).
    assert (Ef : cr_fields r = q_fields q).
    { unfold matches in Hm. apply andb_true_iff in Hm as [Hm _]. apply andb_true_iff in Hm as [_ Hm%String.eqb_eq].
      destruct (good_rows _ _ _ _ _ _ Hg _ _ Hr) as [R1 R2 _ _]. rewrite Eh, Vh, R1 in Hm. apply (cfg_sha256 _ _ _ _ Hcfg) in Hm.
      apply hash_input_fields; [apply R2|apply Vc|done]. }
    rewrite Ef. rewrite Epk in Ht.
    apply (judge_row_exact scanner_version scanner_verdict scanner reg all Hsv q False t (Some u) Ht (Vs t Ht) Hj).
Qed.

Lemma rescan_rows_spec fuel after total d :
  rows_inv [] (not_after after) d →
  under rescan_step (rescanCurrent scanner_version scanner reg all fuel after total) d
    (λ d' r, ∀ t, r = Some (t, None) → rows_inv [] (λ _, True) d').
Proof.
  intros Hi. eapply under_mono; [|eapply (rescan_table_spec _ _ u_pk _ _ _ _ rows_inv not_after)]; [| |exact rows_mono|exact rows_ctx|exact rows_page|exact rows_keys|exact rows_commit|done|].
  - intros d' r H t Hr. destruct (H t Hr) as [rows (H1 & H2 & _)]. by split_and!.
  - intros q u Hj. by apply judge_row_fields in Hj as [-> _].
  - intros rows P d1 (H1 & H2 & _). by split_and!.
Qed.
(** *** Rescanning the events *)

(** An event as it was read, and as it will be found again: only its
    verdicts can have changed. *)
Definition valid_event (d : db) (q : evRead) : Prop :=
  v_seq q < next_seq d ∧ (∃ e, event_shape reg (verdict_on (λ _, False) (v_seq q)) e ∧ q = ev_read e) ∧
  ∀ e, e ∈ events d → er_seq e = v_seq q → ev_read (set_event_scan (v_scan q) e) = q.

Definition events_inv (rows : list evRead) (P : Z → Prop) (d : db) : Prop :=
  good (λ _, True) d ∧ events_scanned P d ∧ Forall (valid_event d) rows.

(** Shapes combine: the event and its type determine the fields. *)
Lemma event_shape_and (V W : (EventScan → string) → gmap string EventScan → string → string → Prop) (Q : Prop) e :
  event_shape reg V e → (Q → event_shape reg W e) →
  event_shape reg (λ side scan k v, V side scan k v ∧ (Q → W side scan k v)) e.
Proof.
  intros (t & Ht & Hv & Hn & H) HW. exists t. split_and!; [done..|].
  assert (HW' : ∀ t', Active reg (rt_of (er_id e)) = Some t' → t' = t) by (intros; congruence).
  unfold event_shape in HW. destruct (er_kind e).
  all: first
    [destruct H as (m & Hm & H); exists m; split; [exact Hm|]; intros k c Hk Htx; destruct (H k c Hk Htx) as [Ho Hnew];
     split; intros v Hval; (split; [auto|]); intros Hq; destruct (HW Hq) as (t' & Ht' & _ & _ & m' & Hm' & Hw);
     apply HW' in Ht'; subst t'; rewrite Hm in Hm'; injection Hm' as <-; destruct (Hw k c Hk Htx); auto
    |destruct H as (f & Hf & Hc & H); exists f; split_and!; [exact Hf|exact Hc|]; intros k v Hk Htx;
     (split; [auto|]); intros Hq; destruct (HW Hq) as (t' & Ht' & _ & _ & f' & Hf' & _ & Hw);
     apply HW' in Ht'; subst t'; rewrite Hf in Hf'; injection Hf' as <-; auto].
Qed.

Lemma events_done P Q d :
  (∀ e, e ∈ events d → Q (er_seq e) → P (er_seq e) ∨ event_shape reg judged e) → events_scanned P d → events_scanned Q d.
Proof.
  unfold JReadFacts.events_scanned. rewrite !Forall_forall. intros H Hs e He.
  assert (HW : Q (er_seq e) → event_shape reg judged e).
  { intros Hq. destruct (H e He Hq) as [Hp|Hj]; [|done]. specialize (Hs e He). eapply event_shape_mono; [|exact Hs].
    intros side scan k v [Hv _]. by apply Hv. }
  eapply event_shape_mono; [|exact (event_shape_and _ _ _ e (Hs e He) HW)].
  intros side scan k v [[_ Hv] Hj]. by split.
Qed.

Lemma events_mono rows P Q d : (∀ k, Q k → P k) → events_inv rows P d → events_inv rows Q d.
Proof. intros H (Hg & He & Hr). split_and!; [done| |done]. eapply events_done; [|exact He]. intros e _ Hq. left. auto. Qed.

(** An event of before is found again, or the event is new. *)
Lemma step_events d d' e : journal_step d d' → e ∈ events d' →
  (∃ e0, e0 ∈ events d ∧ ev_read e0 = ev_read e) ∨ next_seq d ≤ er_seq e.
Proof.
  intros (c & Hok & _ & ->) He. destruct Hcfg as [Hreg Hsha Hval]. destruct (is_erase c) eqn:Hc.
  - left. revert e He. apply Forall_forall. unfold JJournal.step, is_erase in *. destruct (c_op c) as [| | | |a s p]; try done.
    apply erase_events.
    + intros rt s1 s2 k scope e (e0 & H0 & E). exists e0. split; [done|]. rewrite E. unfold rewrite_event. case_bool_decide as Eid; [|done].
      unfold ev_read. simpl. by rewrite Eid.
    + apply Forall_forall. intros e He. by exists e.
  - pose proof (step_write scanner_version scanner_verdict sha256 sha256_hex rules guard validate reg d c Hval Hok Hc) as Hw.
    apply write_extends in Hw as [(new & Hev & Hnew) _ _ _ _]. rewrite Hev in He. apply elem_of_app in He as [He|He]; [left; by exists e|].
    right. rewrite Forall_forall in Hnew. by apply Hnew.
Qed.

Lemma step_seq d d' : journal_step d d' → next_seq d ≤ next_seq d'.
Proof.
  intros (c & Hok & _ & ->). destruct Hcfg as [Hreg Hsha Hval]. destruct (is_erase c) eqn:Hc.
  - unfold JJournal.step, is_erase in *. destruct (c_op c) as [| | | |a s p]; try done. rewrite erase_seq. lia.
  - pose proof (step_write scanner_version scanner_verdict sha256 sha256_hex rules guard validate reg d c Hval Hok Hc) as Hw.
    by apply write_extends in Hw as [_ ? _ _ _].
Qed.

Lemma valid_event_step d d' q : journal_step d d' → valid_event d q → valid_event d' q.
Proof.
  intros Hs (Hlt & Hq & Hf). pose proof (step_seq _ _ Hs). split_and!; [lia|done|]. intros e He Hseq.
  destruct (step_events d d' e Hs He) as [(e0 & H0 & E)|Hge]; [|lia]. unfold ev_read in E. injection E as E1 E2 E3 E4 E5 E6 E7.
  rewrite <- (Hf e0 H0) by congruence. unfold ev_read. simpl. congruence.
Qed.

Lemma events_others rows P d d' : rtc journal_step d d' → events_inv rows P d → events_inv rows P d'.
Proof.
  apply others_inv. clear d d'. intros d d' Hs (Hg & He & Hr). split_and!; [by eapply journal_step_good| |].
  - eapply (journal_step_scanned (λ _, True)); [by left|done|done|done].
  - eapply Forall_impl; [exact Hr|]. intros q. by apply valid_event_step.
Qed.

Lemma events_ctx rows P d : events_inv rows P d → under rescan_step (call ContextErr) d (λ d' _, events_inv rows P d').
Proof. intros Hi r d' (d1 & Hs & ->). simpl. by eapply events_others. Qed.

Lemma seq_unique d e e' : seqs_ok d → e ∈ events d → e' ∈ events d → er_seq e = er_seq e' → e = e'.
Proof.
  intros (Hs & _ & _). revert Hs. induction (events d) as [|x l IH]; intros Hs H1 H2 E; [by apply elem_of_nil in H1|].
  apply StronglySorted_inv in Hs as [Hs Hx]. rewrite Forall_forall in Hx. apply elem_of_cons in H1 as [->|H1], H2 as [->|H2].
  - done.
  - specialize (Hx (er_seq e') ltac:(by apply list_elem_of_fmap_2)). lia.
  - specialize (Hx (er_seq e) ltac:(by apply list_elem_of_fmap_2)). lia.
  - by apply IH.
Qed.

Lemma ev_read_valid P d e : good (λ _, True) d → events_scanned P d → e ∈ events d → valid_event d (ev_read e).
Proof.
  intros Hg He Hin. destruct (good_seqs _ _ _ _ _ _ Hg) as (Hs & Hpos & Hlt). split_and!.
  - simpl. specialize (Hlt e Hin). lia.
  - exists e. split; [|done]. unfold JReadFacts.events_scanned in He. rewrite Forall_forall in He. eapply event_shape_mono; [|by apply He].
    intros side scan k v [_ H]. by split.
  - intros e' Hin' E. simpl in E. rewrite (seq_unique d e' e (good_seqs _ _ _ _ _ _ Hg)) by done. done.
Qed.

Local Abbreviation events_pending := (pending v_seq judge_event).

Lemma read_events_done (G P : Z → Prop) rows0 rows d :
  events_inv rows0 P d →
  (∀ q, q ∈ rows → ∃ e, e ∈ events d ∧ q = ev_read e) →
  (∀ e, e ∈ events d → G (er_seq e) → P (er_seq e) ∨ ev_read e ∈ rows) →
  events_inv rows (λ k, G k ∧ ¬ events_pending rows k) d.
Proof.
  intros (Hg & He & _) Hrows Hin. split_and!; [done| |].
  - eapply events_done; [|exact He]. intros e Hev [HG Hnp]. destruct (Hin e Hev HG) as [Hp|Hq]; [by left|]. right.
    unfold JReadFacts.events_scanned in He. rewrite Forall_forall in He. specialize (He e Hev).
    destruct (judge_event_ok scanner_version scanner reg all _ e He) as [o Hj]. destruct o as [u|].
    + exfalso. apply Hnp. by exists (ev_read e), u.
    + pose proof (judge_event_exact scanner_version scanner_verdict scanner types reg Hreg' all Hsv e P (er_seq e) None He Hj) as Hx.
      by destruct e.
  - apply Forall_forall. intros q Hq. destruct (Hrows q Hq) as (e & Hev & ->). by eapply ev_read_valid.
Qed.

Lemma sorted_events (f : event_row → bool) d :
  seqs_ok d → merge_sort seq_le (List.filter f (events d)) = List.filter f (events d).
Proof. intros (Hs & _). apply merge_sort_seq. by apply sorted_filter. Qed.

Lemma events_page after d :
  events_inv [] (λ k, k ≤ after) d →
  under rescan_step (call (ReadEventPage after)) d (λ d' o, ∀ rows, o = Some rows →
    if (length rows <? rescanBatch)%nat then events_inv rows (λ k, ¬ events_pending rows k) d'
    else events_inv rows (λ k, k ≤ (match last rows with Some r => v_seq r | None => after end) ∧ ¬ events_pending rows k) d').
Proof.
  intros Hi o d' (d1 & Hs & -> & Ho). simpl in Ho |- *. intros rows ->. destruct Ho as [?|[= ->]]; [done|].
  apply (events_others _ _ _ _ Hs) in Hi. clear d Hs. pose proof Hi as (Hg & _ & _).
  destruct (good_seqs _ _ _ _ _ _ Hg) as (Hsort & Hpos & Hlt).
  unfold read_event_page. rewrite (sorted_events _ _ (good_seqs _ _ _ _ _ _ Hg)).
  set (L := List.filter _ _). set (rows := take rescanBatch (ev_read <$> L)).
  assert (HL : ∀ e, e ∈ L ↔ e ∈ events d1 ∧ after < er_seq e).
  { intros e. unfold L. by rewrite elem_of_bool_list_filter, Z.ltb_lt. }
  assert (HsL : StronglySorted Z.lt (er_seq <$> L)) by by apply sorted_filter.
  assert (Hrows : ∀ q, q ∈ rows → ∃ e, e ∈ events d1 ∧ q = ev_read e).
  { intros q Hq. unfold rows in Hq. rewrite <- fmap_take in Hq. apply list_elem_of_fmap in Hq as (e & -> & Hq).
    exists e. split; [|done]. apply HL. by eapply (subseteq_take rescanBatch). }
  assert (Hcase : ∀ e, e ∈ events d1 → er_seq e ≤ after ∨ ev_read e ∈ rows ∨ e ∈ drop rescanBatch L).
  { intros e He. destruct (decide (after < er_seq e)) as [Ha|Ha]; [right|left; lia].
    assert (Hin : e ∈ L) by by apply HL. rewrite <- (take_drop rescanBatch L), elem_of_app in Hin.
    destruct Hin as [Hin|Hin]; [left|by right]. unfold rows. rewrite <- fmap_take. by apply list_elem_of_fmap_2. }
  destruct (length rows <? rescanBatch)%nat eqn:Hn.
  - eapply (events_mono _ (λ k, True ∧ ¬ events_pending rows k)); [by split|]. eapply read_events_done; [exact Hi|done|].
    intros e He _. destruct (Hcase e He) as [?|[?|Hd]]; [by left|by right|]. exfalso.
    apply Nat.ltb_lt in Hn. unfold rows in Hn. rewrite length_take, length_fmap in Hn.
    rewrite drop_ge in Hd by lia. by apply elem_of_nil in Hd.
  - apply (read_events_done (λ k, k ≤ _) (λ k, k ≤ after) []); [done|done|].
    intros e He Hlast. destruct (Hcase e He) as [?|[?|Hd]]; [by left|by right|]. exfalso. clear Hcase.
    destruct (last rows) as [q|] eqn:Hq.
    2: { apply last_None in Hq. rewrite Hq in Hn. done. }
    unfold rows in Hq. rewrite <- fmap_take, fmap_last in Hq. apply fmap_Some in Hq as (e' & Hq & ->). simpl in Hlast.
    assert (Hin : e' ∈ take rescanBatch L) by by apply last_Some_elem_of.
    rewrite <- (take_drop rescanBatch L), fmap_app in HsL.
    pose proof (StronglySorted_app_le Z.lt _ _ (er_seq e') (er_seq e) HsL) as Hle.
    specialize (Hle ltac:(by apply list_elem_of_fmap_2) ltac:(by apply list_elem_of_fmap_2)). lia.
Qed.

Lemma events_keys G stale rows d :
  events_inv rows (λ k, G k ∧ k ∉ stale) d →
  under rescan_step (call (ReadEventSeqs stale)) d (λ d' o, ∀ rows', o = Some rows' →
    events_inv rows' (λ k, G k ∧ ¬ events_pending rows' k) d').
Proof.
  intros Hi o d' (d1 & Hs & -> & Ho). simpl in Ho |- *. intros rows' ->. destruct Ho as [?|[= ->]]; [done|].
  apply (events_others _ _ _ _ Hs) in Hi. clear d Hs. pose proof Hi as (Hg & _ & _).
  unfold read_event_seqs. rewrite (sorted_events _ _ (good_seqs _ _ _ _ _ _ Hg)). eapply read_events_done; [exact Hi| |].
  - intros q (e & -> & [Hq _]%elem_of_bool_list_filter)%list_elem_of_fmap. by exists e.
  - intros e He HG. destruct (decide (er_seq e ∈ stale)) as [Hst|Hst]; [right|by left].
    apply list_elem_of_fmap_2, elem_of_bool_list_filter. split; [done|]. by apply bool_decide_eq_true_2.
Qed.
(** What a transaction on the events does. *)
Lemma update_events_spec us d : seqs_ok d →
  let '(batch, stale, d') := update_events us d in
  ∃ g, d' = set_events (g <$> events d) (next_seq d) d ∧ ∀ e, e ∈ events d →
    (g e = e ∧ (er_seq e ∈ u_pk <$> us → er_seq e ∈ stale)) ∨
    ∃ u, u ∈ us ∧ u_pk u = er_seq e ∧ er_scan e = u_was u ∧ g e = set_event_scan (u_scan u) e.
Proof.
  intros Hseq. unfold update_events. induction us as [|u us IH] using rev_ind.
  { exists id. split; [destruct d; unfold set_events; simpl; by rewrite list_fmap_id|]. intros e He. left. split; [done|].
    by intros ?%elem_of_nil. }
  rewrite foldl_snoc. destruct (foldl _ _ us) as [[batch stale] d1]. destruct IH as (g & Hd & IH).
  assert (Hkeep : ∀ e st, e ∈ events d → u_pk u ≠ er_seq e ∨ er_seq e ∈ st → stale ⊆ st →
    (g e = e ∧ (er_seq e ∈ u_pk <$> us ++ [u] → er_seq e ∈ st)) ∨
    ∃ u', u' ∈ us ++ [u] ∧ u_pk u' = er_seq e ∧ er_scan e = u_was u' ∧ g e = set_event_scan (u_scan u') e).
  { intros e st He Hc Hst. destruct (IH e He) as [[H1 H2]|(u' & Hu & H)].
    - left. split; [done|]. rewrite fmap_app, elem_of_app. intros [Hi|Hi%list_elem_of_singleton]; [by apply Hst, H2|].
      destruct Hc as [Hc|Hc]; [congruence|done].
    - right. exists u'. split; [apply elem_of_app; by left|done]. }
  cbn [update_event]. destruct (event_at (events d) (u_pk u)) as [e0|] eqn:Hat.
  - apply List.find_some in Hat as [Hin0%list_elem_of_In Hs0%Z.eqb_eq]. case_bool_decide as Hm.
    + exists (λ e, if er_seq (g e) =? u_pk u then set_event_scan (u_scan u) (g e) else g e). split.
      { rewrite Hd. unfold set_events. simpl. by rewrite <- list_fmap_compose. }
      intros e He. assert (Hg : er_seq (g e) = er_seq e).
      { destruct (IH e He) as [[-> _]|(u' & _ & _ & _ & ->)]; done. }
      rewrite Hg. destruct (Z.eqb_spec (er_seq e) (u_pk u)) as [E|Hne].
      * assert (e = e0) as -> by (apply (seq_unique d); [done..|congruence]). right. exists u.
        split_and!; [apply elem_of_app; right; left|done|done|]. destruct (IH e0 He) as [[-> _]|(u' & _ & _ & _ & ->)]; done.
      * apply Hkeep; [done|left; congruence|done].
    + exists g. split; [done|]. intros e He. apply Hkeep; [done| |].
      * destruct (decide (u_pk u = er_seq e)) as [E|]; [|by left]. right. apply elem_of_app. right. rewrite E. left.
      * intros x Hx. apply elem_of_app. by left.
  - exists g. split; [done|]. intros e He. apply Hkeep; [done| |done]. left. intros E.
    pose proof (List.find_none _ _ Hat e ltac:(by apply list_elem_of_In)) as Hf. simpl in Hf. apply Z.eqb_neq in Hf. congruence.
Qed.

Lemma set_event_scans_good P d (g : event_row → event_row) :
  (∀ e, e ∈ events d → ∃ s, g e = set_event_scan s e) → good P d → good P (set_events (g <$> events d) (next_seq d) d).
Proof.
  intros Hg [H1 H2 H3 H4].
  assert (Hid : ∀ e, e ∈ events d → er_id (g e) = er_id e ∧ er_seq (g e) = er_seq e ∧ fold_event (g e) = fold_event e).
  { intros e He. destruct (Hg e He) as [s ->]. done. }
  assert (Hab : ∀ id, about_id id (g <$> events d) = g <$> about_id id (events d)).
  { intros id. unfold about_id. clear -Hid. induction (events d) as [|e l IH]; [done|]. rewrite fmap_cons, !filter_cons.
    destruct (Hid e) as [-> _]; [by left|]. rewrite IH by (intros x Hx; apply Hid; by right). by destruct (decide _). }
  assert (Hmap : ∀ {A} (f : event_row → A) l, l ⊆ events d → (∀ e, e ∈ events d → f (g e) = f e) → f <$> (g <$> l) = f <$> l).
  { intros A f l Hl Hf. rewrite <- list_fmap_compose. apply list_fmap_ext. intros i e He. simpl. apply Hf, Hl. by apply list_elem_of_lookup_2 in He. }
  assert (Habs : ∀ id, about_id id (events d) ⊆ events d) by (intros id e; unfold about_id; rewrite list_elem_of_filter; by intros [_ ?]).
  split; [done|..].
  - intros id r Hr. simpl. rewrite Hab, Hmap; [by apply H2|done|]. intros e He. by apply Hid.
  - destruct H3 as (Hs & Hpos & Hlt). unfold seqs_ok. simpl. rewrite Hmap; [|done|intros e He; by apply Hid]. split_and!; [done..|].
    intros e (e0 & -> & He)%list_elem_of_fmap. destruct (Hid e0 He) as (_ & -> & _). by apply Hlt.
  - intros id. unfold replay_at. simpl. rewrite Hab, Hmap; [by apply H4|done|]. intros e He. by apply Hid.
Qed.

Lemma set_event_scan_same e : set_event_scan (er_scan e) e = e.
Proof. by destruct e. Qed.

Lemma events_commit P rows us d :
  (∀ u, u ∈ us → ∃ q, q ∈ rows ∧ judge_event q = Ok (Some u)) → events_inv rows P d →
  under rescan_step (call (UpdateEvents us)) d (λ d' o, ∀ batch stale, o = Some (batch, stale) →
    events_inv rows (λ k, P k ∨ (k ∈ u_pk <$> us ∧ k ∉ stale)) d').
Proof.
  intros Hus Hi o d' (d1 & Hs & Ho). simpl in Ho |- *. intros batch stale ->.
  apply (events_others _ _ _ _ Hs) in Hi. clear d Hs. inversion Ho as [E1 E2| |]; subst; clear Ho.
  destruct Hi as (Hg & He & Hv). pose proof (update_events_spec us d1 (good_seqs _ _ _ _ _ _ Hg)) as Hspec.
  destruct (update_events us d1) as [[b st] d']. simpl in E1 |- *. injection E1 as -> ->.
  destruct Hspec as (g & -> & Hspec).
  assert (Hg1 : ∀ e, e ∈ events d1 → ∃ s, g e = set_event_scan s e).
  { intros e Hev. destruct (Hspec e Hev) as [[-> _]|(u & _ & _ & _ & ->)]; [|by eexists]. exists (er_scan e). by rewrite set_event_scan_same. }
  split_and!; [by apply set_event_scans_good| |].
  - unfold JReadFacts.events_scanned in *. simpl. apply Forall_fmap, Forall_forall. intros e Hev. simpl. rewrite Forall_forall in He.
    specialize (He e Hev). destruct (Hspec e Hev) as [[Eg Hst]|(u & Hu & Epk & Esc & Eg)]; rewrite Eg.
    + eapply event_shape_mono; [|exact He]. intros side scan k v [Hj Ht]. split; [|done]. intros [Hp|[Hin Hns]]; [by apply Hj|].
      destruct Hns. by apply Hst.
    + destruct (Hus u Hu) as (q & Hq & Hju). destruct (judge_event_fields _ _ _ _ _ _ Hju) as [Eq Ew].
      rewrite Forall_forall in Hv. destruct (Hv q Hq) as (_ & _ & Hsame).
      assert (Eread : ev_read e = q).
      { rewrite <- (Hsame e Hev) by congruence. by rewrite <- Ew, <- Esc, set_event_scan_same. }
      rewrite <- Eread in Hju.
      pose proof (judge_event_exact scanner_version scanner_verdict scanner types reg Hreg' all Hsv e P (er_seq e) (Some u) He Hju) as Hx.
      eapply event_shape_mono; [|exact Hx]. intros side scan k v (s & Hs & Hr & Hver). split; [intros _; by exists s|].
      intros s' Hs' _. congruence.
  - eapply Forall_impl; [exact Hv|]. intros q (Hlt & Hq & Hsame). split_and!; [done..|]. simpl.
    intros e' (e & -> & Hev)%list_elem_of_fmap. destruct (Hg1 e Hev) as [s ->]. apply (Hsame e Hev).
Qed.

Lemma rescan_events_spec fuel after total d :
  events_inv [] (λ k, k ≤ after) d →
  under rescan_step (rescanEvents scanner_version scanner reg all fuel after total) d
    (λ d' r, ∀ t, r = Some (t, None) → events_inv [] (λ _, True) d').
Proof.
  intros Hi. eapply under_mono; [|eapply (rescan_table_spec _ _ u_pk _ _ _ _ events_inv (λ a k, k ≤ a))]; [| |exact events_mono|exact events_ctx|exact events_page|exact events_keys|exact events_commit|done|].
  - intros d' r H t Hr. destruct (H t Hr) as [rows (H1 & H2 & _)]. by split_and!.
  - intros q u Hj. by apply judge_event_fields in Hj as [-> _].
  - intros rows P d1 (H1 & H2 & _). by split_and!.
Qed.
(** ** A rescan as a whole *)

(** What carries the scanner's version is its verdict: what holds of a
    journal whose scanner was upgraded, whatever older scanners wrote. *)
Definition truthful (d : db) : Prop := good (λ _, False) d ∧ events_scanned (λ _, False) d.

(** Every text, of a row or of an event, carries a verdict of this scanner. *)
Definition all_judged (d : db) : Prop :=
  (∀ id r t k v, current d !! id = Some r → Active reg (rt_of id) = Some t → IsText t k = true → cr_fields r !! k = Some v →
     ∃ verdict, cr_scan r !! k = Some (mkScanEntry verdict scanner_version) ∧ right v verdict) ∧
  Forall (event_shape reg judged) (events d).

Lemma no_empty_type : Active reg "" = None.
Proof.
  destruct (Active reg "") as [t|] eqn:Ht; [|done]. exfalso. apply active_member in Ht.
  destruct (versions_valid types reg Hreg' _ _ Ht) as [Hv Hn]. unfold Validate in Hv. bool_to_prop. by rewrite Hn in *.
Qed.

Lemma truthful_rows d : (∀ s, text_le "" s) → truthful d → rows_inv [] (not_after ("", "", "")%string) d.
Proof.
  intros Hmin [Hg He]. split_and!; [|done|done]. eapply good_done; [|exact Hg]. intros id r Hr Hz. exfalso.
  assert (id = ("", "", "")%string) as ->.
  { unfold not_after, id_after in Hz. rewrite bool_decide_eq_true_2 in Hz.
    - simpl in Hz. by apply negb_false_iff, bool_decide_eq_true in Hz.
    - destruct id as [[a b] c]. destruct a, b; apply Hmin. }
  pose proof (good_linked _ _ _ _ _ _ Hg _ _ Hr) as Hl. apply last_Some_elem_of, list_elem_of_fmap in Hl as (e & _ & [Hid Hin]%list_elem_of_filter).
  unfold JReadFacts.events_scanned in He. rewrite Forall_forall in He. destruct (He e Hin) as (t & Ht & _). rewrite Hid in Ht.
  change (rt_of ("", "", "")%string) with ""%string in Ht. by rewrite no_empty_type in Ht.
Qed.

Lemma rescan_judges fuel d d' total :
  (∀ s, text_le "" s) → truthful d →
  exec rescan_step (Rescan scanner_version scanner reg fuel all) d d' (Some (total, None)) →
  truthful d' ∧ all_judged d'.
Proof.
  intros Hmin Ht He. assert (H : events_inv [] (λ _, True) d').
  { revert He. generalize (eq_refl (Some (total, @None rescan_error))). generalize (Some (total, @None rescan_error)) at 1 3.
    intros r Er He. revert total Er. eapply (proj1 (under_exec _ _ _ (λ d' r, ∀ total, r = Some (total, None) → events_inv [] (λ _, True) d'))); [|exact He].
    unfold Rescan. apply under_bind. eapply under_mono; [|by apply rescan_rows_spec, truthful_rows].
    intros d1 r1 H1. destruct r1 as [[total1 [e|]]|]; [done| |done]. specialize (H1 total1 eq_refl). destruct H1 as (Hg & Hs & _).
    eapply under_mono; [|apply rescan_events_spec].
    - intros d2 r2 H2 t2 E2. by eapply H2.
    - split_and!; [done| |done]. eapply events_done; [|exact Hs]. intros e Hin Hle.
      destruct (good_seqs _ _ _ _ _ _ Hg) as (_ & _ & Hlt). specialize (Hlt e Hin). lia. }
  destruct H as (Hg & Hs & _). split.
  - split; [|eapply events_done; [|exact Hs]; done]. eapply good_done; [|exact Hg]. by intros id r _ [].
  - split.
    + intros id r t k v Hr Ha Htx Hv. destruct (good_rows _ _ _ _ _ _ Hg id r Hr) as [_ _ _ R4]. destruct (R4 t Ha) as [S1 S2].
      destruct (S2 I k v Hv Htx) as [e Hk]. destruct (S1 k e Hk) as (v' & Hv' & _ & Hright). simplify_eq.
      destruct Hright as [Hr1 Hr2]; [by left|]. exists (Verdict e). split; [|done]. rewrite Hk. destruct e. simpl in *. congruence.
    + eapply Forall_impl; [exact Hs|]. intros e. apply event_shape_mono. intros side scan k v [H _]. by apply H.
Qed.

(** A journal that had another scanner so far. *)
Lemma upgraded_truthful version verdict rules' guard' d :
  version ≠ scanner_version →
  reachable version verdict sha256 sha256_hex rules' guard' validate reg d → truthful d.
Proof.
  intros Hne Hd. split.
  - pose proof (good_reachable _ _ _ _ _ _ _ _ _ d Hcfg Hd) as [H1 H2 H3 H4]. split; [|done..].
    intros id r Hr. destruct (H1 id r Hr) as [R1 R2 R3 R4]. split; [done..|]. intros t Ht. destruct (R4 t Ht) as [S1 _]. split; [|done].
    intros k e Hk. destruct (S1 k e Hk) as (v & Hv & Htx & Hr'). exists v. split_and!; [done..|].
    intros [[]|Hs]. destruct Hr' as [_ Hver]; [by left|]. congruence.
  - pose proof (reachable_judged _ _ _ _ _ _ _ _ _ d Hcfg Hd) as Hs. eapply Forall_impl; [exact Hs|]. intros e. apply event_shape_mono.
    intros side scan k v (s & Hk & _ & Hver). split; [done|]. intros s' Hk' Hv'. congruence.
Qed.

(** *** Nothing in the way *)

Lemma sorted_last {A} (R : relation A) l x y : (∀ a, R a a) → StronglySorted R l → x ∈ l → last l = Some y → R x y.
Proof.
  intros Hr Hs Hx Hl. apply last_Some in Hl as [l' ->]. apply elem_of_app in Hx as [Hx|Hx%list_elem_of_singleton]; [|subst; apply Hr].
  eapply StronglySorted_app_le; [exact Hs|done|left].
Qed.

Lemma sorted_take {A} (R : relation A) n l : StronglySorted R l → StronglySorted R (take n l).
Proof.
  revert n. induction l as [|x l IH]; intros [|n] Hs; [constructor..|]. apply StronglySorted_inv in Hs as [Hs Hx]. simpl.
  constructor; [by apply IH|]. by apply Forall_take.
Qed.

Lemma id_after_trans a b c : id_after text_le a b = true → id_after text_le b c = true → id_after text_le a c = true.
Proof.
  unfold id_after. rewrite !andb_true_iff, !bool_decide_eq_true, !negb_true_iff, !bool_decide_eq_false.
  intros [H1 N1] [H2 N2]. split; [by eapply (id_le_trans text_le)|]. intros ->. apply N1. by apply id_le_antisym.
Qed.

Lemma update_rows_fresh us d :
  (∀ u, u ∈ us → ∃ r, current d !! u_pk u = Some r ∧ matches u r = true) → (update_rows us d).1.2 = [].
Proof.
  unfold update_rows. induction us as [|u us IH] using rev_ind; intros H; [done|]. rewrite foldl_snoc.
  specialize (IH ltac:(intros x Hx; apply H, elem_of_app; by left)). destruct (foldl _ _ us) as [[b st] d1]. simpl in IH |- *.
  destruct (H u) as (r & Hr & Hm); [apply elem_of_app; right; left|]. rewrite Hr. unfold matches in Hm. by rewrite Hm.
Qed.

Lemma update_events_fresh us d :
  (∀ u, u ∈ us → ∃ e, event_at (events d) (u_pk u) = Some e ∧ er_scan e = u_was u) → (update_events us d).1.2 = [].
Proof.
  unfold update_events. induction us as [|u us IH] using rev_ind; intros H; [done|]. rewrite foldl_snoc.
  specialize (IH ltac:(intros x Hx; apply H, elem_of_app; by left)). destruct (foldl _ _ us) as [[b st] d1]. simpl in IH |- *.
  destruct (H u) as (e & He & Hm); [apply elem_of_app; right; left|]. rewrite He. by rewrite bool_decide_eq_true_2.
Qed.

Lemma verdicts_dom d d' : without_verdicts d' = without_verdicts d → dom (current d') = dom (current d).
Proof.
  intros E. assert (E' : set_scan ∅ <$> current d' = set_scan ∅ <$> current d) by (by injection E).
  by rewrite <- (dom_fmap_L (set_scan ∅) (current d')), E', dom_fmap_L.
Qed.

Lemma verdicts_seqs d d' : without_verdicts d' = without_verdicts d → er_seq <$> events d' = er_seq <$> events d.
Proof.
  intros E. assert (E' : set_event_scan ∅ <$> events d' = set_event_scan ∅ <$> events d) by (by injection E).
  transitivity (er_seq <$> (set_event_scan ∅ <$> events d')); [by rewrite <- list_fmap_compose|]. rewrite E'. by rewrite <- list_fmap_compose.
Qed.

Lemma rows_quiet fuel after total d :
  truthful d → (size (current d) < fuel * rescanBatch)%nat →
  ∃ total' d', quiet text_le (rescanCurrent scanner_version scanner reg all fuel after total) d = (d', Some (total', None)) ∧ truthful d'.
Proof.
  intros Ht Hf.
  apply (rescan_table_quiet text_le q_pk _ _ _ _ truthful
    (λ d q, ∃ id r, current d !! id = Some r ∧ q = cur_read (id, r)) (λ d, dom (current d)) (id_after text_le));
    [exact id_after_trans| | | |done|].
  - clear d Ht Hf. intros a d Ht. exists (read_page text_le d a). cbn [quiet call healthy_answer]. split; [done|]. unfold read_page.
    destruct (sorted_rows (λ p, id_after text_le a p.1) d) as (Hsort & Hnd & Hl). set (L := merge_sort _ _) in *.
    assert (Ek : q_pk <$> take rescanBatch (cur_read <$> L) = take rescanBatch L.*1).
    { rewrite <- fmap_take, <- list_fmap_compose, fmap_take. done. }
    rewrite Ek. split_and!.
    + apply Forall_forall. intros q Hq. rewrite <- fmap_take in Hq. apply list_elem_of_fmap in Hq as ([id r] & -> & Hq).
      exists id, r. split; [|done]. apply (Hl id r). by eapply (subseteq_take rescanBatch).
    + eapply sublist_NoDup; [exact Hnd|]. apply sublist_take.
    + intros k Hk. apply (subseteq_take rescanBatch) in Hk. apply list_elem_of_fmap in Hk as ([id r] & -> & Hk). apply Hl in Hk as [Hr Ha].
      split; [by apply elem_of_dom_2 in Hr|done].
    + intros l k Hlast Hk. assert (Hs : StronglySorted (id_le text_le) (take rescanBatch L.*1)).
      { apply sorted_take. clear -Hsort. induction Hsort as [|x l Hs IH Hx]; [constructor|]. simpl. constructor; [done|]. by apply Forall_fmap. }
      pose proof (sorted_last _ _ _ _ id_le_refl Hs Hk Hlast) as Hle. unfold id_after.
      destruct (bool_decide (id_le text_le l k)) eqn:Hb; [|done]. apply bool_decide_eq_true in Hb. simpl.
      rewrite (id_le_antisym _ _ Hle Hb). by rewrite bool_decide_eq_true_2.
  - intros d' q _ (id & r & Hr & ->). unfold JRescan.judge_row. destruct (foldl _ _ _) as [[n c] ch]. eauto.
  - clear d Ht Hf. intros d rows us [Hg He] Hv Hus. exists (update_rows us d).1.1, (update_rows us d).2.
    assert (Hstale : (update_rows us d).1.2 = []).
    { apply update_rows_fresh. intros u Hu. destruct (Hus u Hu) as (q & Hq & Hj). rewrite Forall_forall in Hv.
      destruct (Hv q Hq) as (id & r & Hr & ->). apply judge_row_fields in Hj as (E1 & E2 & E3 & E4). exists r. rewrite E1. split; [done|].
      unfold matches. rewrite E2, E3, E4. simpl. by rewrite Z.eqb_refl, String.eqb_refl, bool_decide_eq_true_2. }
    cbn [quiet call healthy_answer]. split; [by destruct (update_rows us d) as [[b st] d']; simpl in Hstale |- *; subst|]. split.
    + assert (Hi : rows_inv rows (λ _, False) d).
      { split_and!; [done..|]. eapply Forall_impl; [exact Hv|]. intros q (id & r & Hr & ->). by eapply cur_read_valid. }
      pose proof (rows_commit (λ _, False) rows us d Hus Hi (Some (update_rows us d).1) (update_rows us d).2) as Hc.
      destruct Hc with (batch := (update_rows us d).1.1) (stale := (update_rows us d).1.2) as (H1 & H2 & _).
      * exists d. split; [done|]. apply tx_committed.
      * by destruct (update_rows us d) as [[b st] d'].
      * split; [|done]. eapply good_done; [|exact H1]. by intros ? ? _ [].
    + apply verdicts_dom, update_rows_verdicts.
  - unfold left_after. eapply Nat.le_lt_trans; [|exact Hf]. rewrite <- (size_dom (current d)). apply subseteq_size. intros x [_ Hx]%elem_of_filter. done.
Qed.
Lemma events_quiet fuel after total d :
  events_inv [] (λ _, False) d → (length (events d) < fuel * rescanBatch)%nat →
  ∃ total' d', quiet text_le (rescanEvents scanner_version scanner reg all fuel after total) d = (d', Some (total', None)).
Proof.
  intros Ht Hf.
  destruct (rescan_table_quiet text_le v_seq judge_event (λ after, call (Σ := rescan_sig) (ReadEventPage after))
    (λ seqs, call (Σ := rescan_sig) (ReadEventSeqs seqs)) (λ us, call (Σ := rescan_sig) (UpdateEvents us)) (events_inv [] (λ _, False))
    (λ d q, ∃ e, e ∈ events d ∧ q = ev_read e) (λ d, list_to_set (er_seq <$> events d)) Z.ltb) with (fuel := fuel) (after := after) (total := total) (d := d)
    as (total' & d' & E & _); [| | | |done| |by exists total', d'].
  - intros a b c. rewrite !Z.ltb_lt. lia.
  - clear d Ht Hf. intros a d (Hg & _). exists (read_event_page d a). cbn [quiet call healthy_answer]. split; [done|]. unfold read_event_page.
    rewrite (sorted_events _ _ (good_seqs _ _ _ _ _ _ Hg)). destruct (good_seqs _ _ _ _ _ _ Hg) as (Hs & _ & _).
    set (L := List.filter _ _). assert (HsL : StronglySorted Z.lt (er_seq <$> L)) by by apply sorted_filter.
    assert (Ek : v_seq <$> take rescanBatch (ev_read <$> L) = take rescanBatch (er_seq <$> L)).
    { by rewrite <- fmap_take, <- list_fmap_compose, fmap_take. }
    rewrite Ek. split_and!.
    + apply Forall_forall. intros q Hq. rewrite <- fmap_take in Hq. apply list_elem_of_fmap in Hq as (e & -> & Hq). exists e. split; [|done].
      apply (subseteq_take rescanBatch) in Hq. by apply elem_of_bool_list_filter in Hq as [? _].
    + eapply sublist_NoDup; [|apply sublist_take]. clear -HsL. induction HsL as [|x l Hs IH Hx]; constructor; [|done].
      intros Hin. rewrite Forall_forall in Hx. specialize (Hx x Hin). lia.
    + intros k Hk. apply (subseteq_take rescanBatch) in Hk. apply list_elem_of_fmap in Hk as (e & -> & [Hk Ha]%elem_of_bool_list_filter).
      split; [|done]. apply elem_of_list_to_set. by apply list_elem_of_fmap_2.
    + intros l k Hlast Hk. apply Z.ltb_ge.
      assert (Hle : StronglySorted Z.le (take rescanBatch (er_seq <$> L))).
      { apply sorted_take. clear -HsL. induction HsL as [|x l Hs IH Hx]; [constructor|]. constructor; [done|]. eapply Forall_impl; [exact Hx|]. simpl. lia. }
      apply (sorted_last _ _ _ _ Z.le_refl Hle Hk Hlast).
  - intros d' q (_ & He & _) (e & Hin & ->). unfold JReadFacts.events_scanned in He. rewrite Forall_forall in He.
    exact (judge_event_ok scanner_version scanner reg all _ e (He e Hin)).
  - clear d Ht Hf. intros d rows us (Hg & He & _) Hv Hus. exists (update_events us d).1.1, (update_events us d).2.
    assert (Hstale : (update_events us d).1.2 = []).
    { apply update_events_fresh. intros u Hu. destruct (Hus u Hu) as (q & Hq & Hj). rewrite Forall_forall in Hv.
      destruct (Hv q Hq) as (e & Hin & ->). apply judge_event_fields in Hj as (E1 & E2). exists e. rewrite E1, E2. split; [|done].
      unfold event_at. destruct (List.find _ (events d)) as [e'|] eqn:Hfind.
      - apply List.find_some in Hfind as [Hin'%list_elem_of_In Hs%Z.eqb_eq]. f_equal. by apply (seq_unique d); [apply Hg|..].
      - pose proof (List.find_none _ _ Hfind e ltac:(by apply list_elem_of_In)) as Hno. simpl in Hno. by rewrite Z.eqb_refl in Hno. }
    cbn [quiet call healthy_answer]. split; [by destruct (update_events us d) as [[b st] d']; simpl in Hstale |- *; subst|]. split.
    + assert (Hi : events_inv rows (λ _, False) d).
      { split_and!; [done..|]. eapply Forall_impl; [exact Hv|]. intros q (e & Hin & ->). by eapply ev_read_valid. }
      pose proof (events_commit (λ _, False) rows us d Hus Hi (Some (update_events us d).1) (update_events us d).2) as Hc.
      destruct Hc with (batch := (update_events us d).1.1) (stale := (update_events us d).1.2) as (H1 & H2 & _).
      * exists d. split; [done|]. apply tx_committed.
      * by destruct (update_events us d) as [[b st] d'].
      * split_and!; [done| |done]. eapply events_done; [|exact H2]. by intros ? ? [].
    + by rewrite (verdicts_seqs _ _ (update_events_verdicts us d)).
  - unfold left_after. eapply Nat.le_lt_trans; [|exact Hf]. rewrite <- (length_fmap er_seq).
    transitivity (size (list_to_set (C := gset Z) (er_seq <$> events d))).
    + apply subseteq_size. intros x [_ Hx]%elem_of_filter. done.
    + clear. generalize (er_seq <$> events d). intros l. induction l as [|x l IH]; [by rewrite list_to_set_nil, size_empty|]. rewrite list_to_set_cons. cbn [length].
      rewrite (size_union_alt {[x]}). rewrite size_singleton.
      pose proof (subseteq_size (list_to_set (C := gset Z) l ∖ {[x]}) (list_to_set l) ltac:(set_solver)). lia.
Qed.

(** C9. A rescan that reports success has judged everything.  It runs while
    the journal is in use: between any two of its queries others apply
    snapshots, confirm and discard held ones, write notes and erase members
    (without keeping a note of someone else's), and any query or commit may
    fail or lose its acknowledgement.  If it returns no error, then every
    text of every row and every event carries a verdict of the scanner in
    use on that very text, whatever older scanners had written; so it never
    returns success while a row it could not judge remains. *)
Theorem rescan_judges_everything fuel d d' total :
  (∀ s, text_le "" s) → truthful d →
  exec rescan_step (Rescan scanner_version scanner reg fuel all) d d' (Some (total, None)) →
  truthful d' ∧ all_judged d'.
Proof. intros Hmin Ht He. by eapply rescan_judges. Qed.

(** C10. A rescan terminates.  When nothing interferes, no query fails and the
    pages hold all rows ([fuel] pages of a hundred are more than there are
    rows and events), it reports success, every text carries the scanner's
    verdict, and the tables differ from before in verdicts only. *)
Theorem rescan_completes fuel d :
  (∀ s, text_le "" s) → truthful d →
  (size (current d) < fuel * rescanBatch)%nat → (length (events d) < fuel * rescanBatch)%nat →
  ∃ total d', quiet text_le (Rescan scanner_version scanner reg fuel all) d = (d', Some (total, None)) ∧
    all_judged d' ∧ without_verdicts d' = without_verdicts d.
Proof.
  intros Hmin Ht Hrows Hevents.
  assert (H : ∃ total d', quiet text_le (Rescan scanner_version scanner reg fuel all) d = (d', Some (total, None))).
  { unfold Rescan. rewrite quiet_bind. destruct (rows_quiet fuel ("", "", "")%string zero_result d Ht Hrows) as (t1 & d1 & E & _).
    pose proof (quiet_exec text_le journal_step (rescanCurrent scanner_version scanner reg all fuel ("", "", "")%string zero_result) d) as Hx.
    pose proof (quiet_verdicts text_le (rescanCurrent scanner_version scanner reg all fuel ("", "", "")%string zero_result) d) as Hv.
    rewrite E in Hx, Hv |- *. simpl in Hx, Hv. apply events_quiet.
    - pose proof (rescan_rows_spec fuel ("", "", "")%string zero_result d (truthful_rows d Hmin Ht)) as Hs.
      destruct (proj1 (under_exec _ _ _ _) Hs _ _ Hx t1 eq_refl) as (H1 & H2 & _). split_and!; [done| |done].
      eapply events_done; [|exact H2]. by intros ? ? [].
    - apply verdicts_seqs in Hv. rewrite <- (length_fmap er_seq), Hv, length_fmap. done. }
  destruct H as (total & d' & E). exists total, d'. split; [done|].
  pose proof (quiet_exec text_le journal_step (Rescan scanner_version scanner reg fuel all) d) as Hx.
  pose proof (quiet_verdicts text_le (Rescan scanner_version scanner reg fuel all) d) as Hv. rewrite E in Hx, Hv. simpl in Hx, Hv.
  split; [|done]. by eapply rescan_judges.
Qed.
End rescan.

(** Nothing else changes: whatever a rescan asks of the database, and
    whether that succeeds, fails or is not acknowledged, all tables stay as
    they are but for verdicts. *)
Theorem rescan_changes_only_verdicts (text_le : relation string) `{!RelDecision text_le} d o r d' :
  answers text_le d o r d' → without_verdicts d' = without_verdicts d.
Proof. apply answers_verdicts. Qed.
