(* ===== verification/EMatch.v ===== *)
(** internal/engine/matcher.go: where a pattern occurs in the content. *)
From S2P Require Import Prelude GoStrings Utf8.
Local Open Scope nat_scope.

(** ** bytes.Index *)

Fixpoint is_prefix (needle hay : bytes) : bool :=
  match needle, hay with
  | [], _ => true
  | a :: n, b :: h => (a =? b)%Z && is_prefix n h
  | _ :: _, [] => false
  end.

Fixpoint index (hay needle : bytes) : option nat :=
  if is_prefix needle hay then Some 0
  else match hay with
       | [] => None
       | _ :: r => S <$> index r needle
       end.

(** ** findAllOffsets

    The loop, with the number of its iterations bounded by the fuel; None
    when it still runs. *)
Fixpoint offsets_loop (fuel : nat) (haystack needle : bytes) (offset : nat) : option (list nat) :=
  match fuel with
  | O => None
  | S n =>
      match index (drop offset haystack) needle with
      | None => Some []
      | Some idx =>
          (λ l, (offset + idx) :: l) <$> offsets_loop n haystack needle (offset + idx + length needle)
      end
  end.

(** A haystack of n bytes is done after n+1 iterations. *)
Definition findAllOffsets (haystack needle : bytes) : option (list nat) :=
  offsets_loop (S (length haystack)) haystack needle 0.

(** ** Matchers *)

Record MatchResult := mkMatch { MPattern : string; MPosition : nat }.

Definition at_offsets (p : string) (l : list nat) : list MatchResult := mkMatch p <$> l.

(** The loop over the patterns of a matcher that looks for each of them. *)
Fixpoint match_patterns (find : string → option (list nat)) (patterns : list string)
    : option (list MatchResult) :=
  match patterns with
  | [] => Some []
  | p :: ps =>
      match find p with
      | None => None
      | Some l => (λ r, at_offsets p l ++ r) <$> match_patterns find ps
      end
  end.

Definition SubstringMatch (content : bytes) (patterns : list string) : option (list MatchResult) :=
  match_patterns (λ p, findAllOffsets content (bytes_of_string p)) patterns.

Section case_insensitive.
(** bytes.ToLower, which strings.ToLower is on the bytes of a string. *)
Context (to_lower : bytes → bytes).

Definition CaseInsensitiveMatch (content : bytes) (patterns : list string) : option (list MatchResult) :=
  let lower := to_lower content in
  match_patterns (λ p, findAllOffsets lower (to_lower (bytes_of_string p))) patterns.
End case_insensitive.

Section regex.
(** regexp.FindAllIndex: the starts of a pattern's matches. *)
Context (find_all_index : string → bytes → list nat).

Definition RegexMatch (compiled : list string) (content : bytes) : list MatchResult :=
  compiled ≫= λ re, at_offsets re (find_all_index re content).
End regex.

(** ** Occurrences *)

(** The needle occurs at offset [i]. *)
Definition occurs_at (hay needle : bytes) (i : nat) : Prop :=
  i ≤ length hay ∧ is_prefix needle (drop i hay) = true.

Lemma is_prefix_spec n h : is_prefix n h = true ↔ ∃ r, h = n ++ r.
Proof.
  revert h. induction n as [|a n IH]; intros h; simpl; [split; [by exists h|done]|].
  destruct h as [|b h]; [split; [done|by intros [r [=]]]|].
  rewrite andb_true_iff, Z.eqb_eq, IH. split.
  - intros [-> [r ->]]. by exists r.
  - intros [r [= -> ->]]. split; [done|]. by exists r.
Qed.

Lemma is_prefix_length n h : is_prefix n h = true → length n ≤ length h.
Proof. intros [r ->]%is_prefix_spec. rewrite length_app. lia. Qed.

Lemma index_some h n i :
  index h n = Some i ↔ occurs_at h n i ∧ ∀ j, j < i → is_prefix n (drop j h) = false.
Proof.
  revert i. induction h as [|b h IH]; intros i; cbn [index]; unfold occurs_at.
  - destruct (is_prefix n []) eqn:Hp.
    + split.
      * intros [= <-]. split; [by rewrite drop_nil|lia].
      * intros [[Hi _] _]. simpl in Hi. f_equal. lia.
    + split; [done|]. intros [[Hi H] _]. rewrite drop_nil in H. congruence.
  - destruct (is_prefix n (b :: h)) eqn:Hp.
    + split.
      * intros [= <-]. split; [|lia]. split; [lia|done].
      * intros [_ Hf]. destruct i as [|i]; [done|]. specialize (Hf 0 ltac:(lia)). simpl in Hf. congruence.
    + rewrite fmap_Some. split.
      * intros (i' & [[Hi Ho] Hf]%IH & ->). split; [split; [simpl; lia|done]|].
        intros [|j] Hj; [done|]. apply Hf. lia.
      * intros [[Hi Ho] Hf]. destruct i as [|i]; [simpl in Ho; congruence|]. exists i. split; [|done].
        apply IH. split; [split; [simpl in Hi; lia|done]|]. intros j Hj. apply (Hf (S j)). lia.
Qed.

Lemma index_none h n : index h n = None ↔ ∀ i, i ≤ length h → is_prefix n (drop i h) = false.
Proof.
  induction h as [|b h IH]; cbn [index].
  - destruct (is_prefix n []) eqn:Hp; split; [done| |intros _ i _; by rewrite drop_nil|done].
    intros H. specialize (H 0 ltac:(lia)). simpl in H. congruence.
  - destruct (is_prefix n (b :: h)) eqn:Hp.
    + split; [done|]. intros H. specialize (H 0 ltac:(lia)). simpl in H. congruence.
    + rewrite fmap_None, IH. split.
      * intros H [|i] Hi; [done|]. apply H. simpl in Hi. lia.
      * intros H i Hi. apply (H (S i)). simpl. lia.
Qed.

(** ** The reference: one pass, left to right

    After an occurrence its remaining bytes are skipped. *)
Fixpoint greedy (skip pos : nat) (hay needle : bytes) : list nat :=
  match hay with
  | [] => []
  | _ :: r =>
      match skip with
      | S k => greedy k (S pos) r needle
      | O =>
          if is_prefix needle hay then pos :: greedy (pred (length needle)) (S pos) r needle
          else greedy 0 (S pos) r needle
      end
  end.

Lemma greedy_skip k : ∀ pos h n, k ≤ length h → greedy k pos h n = greedy 0 (pos + k) (drop k h) n.
Proof.
  induction k as [|k IH]; intros pos h n Hk.
  - by rewrite Nat.add_0_r, drop_0.
  - destruct h as [|b h]; [simpl in Hk; lia|]. cbn [greedy drop]. rewrite IH by (simpl in Hk; lia).
    f_equal. lia.
Qed.

Lemma greedy_index h n : n ≠ [] → ∀ pos,
  greedy 0 pos h n
  = match index h n with
    | None => []
    | Some i => (pos + i) :: greedy 0 (pos + i + length n) (drop (i + length n) h) n
    end.
Proof.
  intros Hn. induction h as [|b h IH]; intros pos; cbn [greedy index].
  - destruct n; [done|]. done.
  - destruct (is_prefix n (b :: h)) eqn:Hp.
    + apply is_prefix_length in Hp. rewrite greedy_skip by (simpl in Hp; lia).
      rewrite Nat.add_0_r. f_equal. destruct n as [|a n]; [done|]. cbn [length pred Nat.add drop].
      by rewrite <- Nat.add_succ_comm.
    + rewrite IH. destruct (index h n) as [i|]; [|done]. cbn [fmap option_fmap option_map].
      cbn [Nat.add drop]. by rewrite !Nat.add_succ_r.
Qed.

Lemma index_bound h n i : index h n = Some i → i + length n ≤ length h.
Proof.
  intros [[Hi Hp%is_prefix_length] _]%index_some. rewrite length_drop in Hp. lia.
Qed.

Lemma offsets_greedy fuel : ∀ h n offset,
  n ≠ [] → length h - offset < fuel → offset ≤ length h →
  offsets_loop fuel h n offset = Some (greedy 0 offset (drop offset h) n).
Proof.
  induction fuel as [|fuel IH]; intros h n offset Hn Hf Ho; [lia|]. cbn [offsets_loop].
  rewrite greedy_index by done. destruct (index (drop offset h) n) as [i|] eqn:Hi; [|done].
  apply index_bound in Hi. rewrite length_drop in Hi.
  assert (length n ≠ 0) by (by destruct n). rewrite IH by (done || lia). rewrite drop_drop.
  by rewrite Nat.add_assoc.
Qed.

Lemma occurs_shift h n k i : k ≤ length h → occurs_at (drop k h) n i ↔ occurs_at h n (k + i).
Proof. intros Hk. unfold occurs_at. rewrite length_drop, drop_drop. split; intros [? ?]; (split; [lia|done]). Qed.

(** What the positions are: occurrences, apart from each other, and every
    occurrence overlaps one of them. *)
Record found (h n : bytes) (pos : nat) (l : list nat) : Prop := {
  found_sound : ∀ p, p ∈ l → ∃ i, p = pos + i ∧ occurs_at h n i;
  found_apart : StronglySorted (λ p q, p + length n ≤ q) l;
  found_all : ∀ i, occurs_at h n i → ∃ q, q ∈ l ∧ q ≤ pos + i < q + length n;
}.

Lemma greedy_found n : n ≠ [] → ∀ m h pos, length h ≤ m → found h n pos (greedy 0 pos h n).
Proof.
  intros Hn. assert (length n ≠ 0) by (by destruct n).
  induction m as [|m IH]; intros h pos Hm; rewrite greedy_index by done;
    (destruct (index h n) as [i|] eqn:Hi;
      [|split; [intros p Hp; by apply elem_of_nil in Hp|constructor|];
        intros i [Hl Ho]; rewrite index_none in Hi; specialize (Hi i Hl); congruence]);
    pose proof (index_bound _ _ _ Hi) as Hb; apply index_some in Hi as [Ho Hfirst]; [lia|].
  destruct (IH (drop (i + length n) h) (pos + i + length n)) as [H1 H2 H3]; [rewrite length_drop; lia|].
  split.
  - intros p [->|(j & -> & Hj)%H1]%elem_of_cons; [by exists i|].
    exists (i + length n + j). split; [lia|]. by apply occurs_shift.
  - constructor; [done|]. apply Forall_forall. intros p (j & -> & _)%H1. lia.
  - intros j Hj. destruct (decide (j < i)) as [Hlt|Hge].
    { specialize (Hfirst j Hlt). destruct Hj. congruence. }
    destruct (decide (j < i + length n)) as [Hin|Hout].
    { exists (pos + i). split; [left|lia]. }
    destruct (H3 (j - (i + length n))) as (q & Hq & Hl).
    { apply occurs_shift; [done|]. by replace (i + length n + (j - (i + length n))) with j by lia. }
    exists q. split; [by right|lia].
Qed.

Lemma find_all_greedy h n : n ≠ [] → findAllOffsets h n = Some (greedy 0 0 h n).
Proof. intros Hn. unfold findAllOffsets. rewrite offsets_greedy by (done || lia). by rewrite drop_0. Qed.

(** The search for a pattern ends and misses nothing.  For a pattern
    that is not empty the loop is done within one iteration more than the
    content has bytes and is the one-pass left-to-right search; it reports
    only occurrences, no two overlapping, and every occurrence overlaps a
    reported one, so the pattern is reported exactly when it occurs. *)
Theorem find_all_offsets_exact h n fuel :
  n ≠ [] → length h < fuel →
  offsets_loop fuel h n 0 = Some (greedy 0 0 h n) ∧ found h n 0 (greedy 0 0 h n) ∧
  (greedy 0 0 h n = [] ↔ ∀ i, ¬ occurs_at h n i).
Proof.
  intros Hn Hf. pose proof (greedy_found n Hn (length h) h 0 ltac:(lia)) as Hg. split_and!; [|done|].
  - rewrite offsets_greedy by (done || lia). by rewrite drop_0.
  - destruct Hg as [H1 _ H3]. split.
    + intros E i (q & Hq & _)%H3. rewrite E in Hq. by apply elem_of_nil in Hq.
    + intros H. destruct (greedy 0 0 h n) as [|p l]; [done|].
      destruct (H1 p ltac:(left)) as (i & _ & Hi). by destruct (H i).
Qed.

(** An empty pattern, which validateRuleConfig accepts, is never done: it is
    found again at every position without moving on. *)
Theorem empty_pattern_diverges h fuel : offsets_loop fuel h [] 0 = None.
Proof.
  enough (H : ∀ o, o ≤ length h → offsets_loop fuel h [] o = None) by (apply H; lia).
  induction fuel as [|fuel IH]; intros o Ho; [done|]. cbn [offsets_loop].
  assert (E : index (drop o h) [] = Some 0) by (by destruct (drop o h)).
  rewrite E. cbn [length]. by rewrite !Nat.add_0_r, IH.
Qed.

(** ** Whole matchers *)

Lemma match_patterns_some find patterns :
  (∀ p, p ∈ patterns → is_Some (find p)) →
  ∃ r, match_patterns find patterns = Some r ∧
    ∀ m, m ∈ r ↔ MPattern m ∈ patterns ∧ ∃ l, find (MPattern m) = Some l ∧ MPosition m ∈ l.
Proof.
  induction patterns as [|p ps IH]; intros H; cbn [match_patterns].
  { exists []. split; [done|]. intros m. split; [intros Hm; by apply elem_of_nil in Hm|].
    intros [Hm _]. by apply elem_of_nil in Hm. }
  destruct (H p ltac:(left)) as [l Hl]. rewrite Hl.
  destruct IH as (r & -> & Hr); [intros q Hq; apply H; by right|].
  eexists. split; [done|]. intros m. rewrite elem_of_app, Hr, elem_of_cons. unfold at_offsets.
  rewrite list_elem_of_fmap. split.
  - intros [(i & -> & Hi)|(Hp & Hm)]; [|by auto]. split; [by left|]. by exists l.
  - intros [[E|Hp] Hm]; [|by right]. left. destruct Hm as (l' & Hl' & Hin). destruct m as [q i].
    simpl in *. subst q. rewrite Hl in Hl'. injection Hl' as <-. by exists i.
Qed.

(** Patterns a matcher can be given: none is empty. *)
Definition patterns_ok (patterns : list string) : Prop := ∀ p, p ∈ patterns → bytes_of_string p ≠ [].

Lemma substring_match_spec content patterns :
  patterns_ok patterns →
  ∃ r, SubstringMatch content patterns = Some r ∧
    (r = [] ↔ ∀ p i, p ∈ patterns → ¬ occurs_at content (bytes_of_string p) i).
Proof.
  intros Hok. destruct (match_patterns_some (λ p, findAllOffsets content (bytes_of_string p)) patterns)
    as (r & Hr & Hin).
  { intros p Hp. rewrite find_all_greedy by (by apply Hok). by eexists. }
  exists r. split; [done|].
  assert (Hg : ∀ p, p ∈ patterns → found content (bytes_of_string p) 0
    (greedy 0 0 content (bytes_of_string p))).
  { intros p Hp. eapply greedy_found; [by apply Hok|done]. }
  split.
  - intros -> p i Hp Ho. destruct (found_all _ _ _ _ (Hg p Hp) i Ho) as (q & Hq & _).
    assert (Hm : mkMatch p q ∈ []); [|by apply elem_of_nil in Hm]. apply Hin. split; [done|].
    eexists. split; [by apply find_all_greedy, Hok|done].
  - intros H. destruct r as [|m r]; [done|]. exfalso.
    destruct (proj1 (Hin m) ltac:(left)) as (Hp & l & Hl & Hm). cbv beta in Hl.
    rewrite find_all_greedy in Hl by (by apply Hok). injection Hl as <-.
    destruct (found_sound _ _ _ _ (Hg _ Hp) _ Hm) as (i & _ & Hi). by eapply H.
Qed.

Lemma find_all_offsets_exact_witness :
  offsets_loop 6 [97; 97; 97; 98; 97]%Z [97; 97]%Z 0 = Some [0].
Proof.
  destruct (find_all_offsets_exact [97; 97; 97; 98; 97]%Z [97; 97]%Z 6) as [-> _];
    [discriminate|vm_compute; lia|]. vm_compute. reflexivity.
Defined.
