(* ===== verification/EInvisible.v ===== *)
(** internal/engine/invisible.go: characters that render as nothing, and
    text hidden in them. *)
From S2P Require Import Prelude GoStrings Utf8.
Local Open Scope Z_scope.

(** ** unicode.RangeTable *)

Record Range16 := mkRange16 { Lo : Z; Hi : Z; Stride : Z }.
Record RangeTable := mkTable { R16 : list Range16; R32 : list Range16; LatinOffset : nat }.

(** unicode.Is on sorted ranges: the first that does not end before the
    rune decides. *)
Fixpoint is_in (ranges : list Range16) (r : Z) : bool :=
  match ranges with
  | [] => false
  | g :: rest =>
      if r <? Lo g then false
      else if r <=? Hi g then (Stride g =? 1) || ((r - Lo g) mod Stride g =? 0)
      else is_in rest r
  end.

Definition last_hi (ranges : list Range16) : option Z := Hi <$> last ranges.
Definition first_lo (ranges : list Range16) : option Z := Lo <$> head ranges.

Definition Is (t : RangeTable) (r : Z) : bool :=
  match last_hi (R16 t) with
  | Some h =>
      if r <=? h then is_in (R16 t) r
      else match first_lo (R32 t) with Some l => if l <=? r then is_in (R32 t) r else false | None => false end
  | None =>
      match first_lo (R32 t) with Some l => if l <=? r then is_in (R32 t) r else false | None => false end
  end.

(** ** The Tags block and bidi controls *)

Definition tagRangeLo : Z := 917504.
Definition tagRangeHi : Z := 917631.

Definition IsTagChar (r : Z) : bool := (tagRangeLo <=? r) && (r <=? tagRangeHi).

Definition IsBidiControl (r : Z) : bool := within 8234 8238 r || within 8294 8297 r.

(** ** Building tables *)

(** The runes of one range. *)
Fixpoint range_from (n : nat) (r hi stride : Z) : list Z :=
  match n with
  | O => []
  | S k => if r <=? hi then r :: range_from k (r + stride) hi stride else []
  end.

Definition range_runes (g : Range16) : list Z :=
  range_from (Z.to_nat (Hi g - Lo g + 1)) (Lo g) (Hi g) (Stride g).

Definition appendTable (runes : list Z) (tab : RangeTable) : list Z :=
  runes ++ (R16 tab ≫= range_runes) ++ (R32 tab ≫= range_runes).

#[export] Instance Zle_dec' : RelDecision Z.le := Z.le_dec.

(** slices.Sort and slices.Compact. *)
Fixpoint compact (l : list Z) : list Z :=
  match l with
  | x :: (y :: _) as r => if x =? y then compact r else x :: compact r
  | _ => l
  end.

Definition sorted_runes (l : list Z) : list Z := compact (merge_sort Z.le l).

(** The closure add. *)
Definition add_range (lo hi : Z) (t : RangeTable) : RangeTable :=
  if hi <=? 65535 then
    mkTable (R16 t ++ [mkRange16 lo hi 1]) (R32 t)
      (if hi <=? 255 then S (LatinOffset t) else LatinOffset t)
  else if lo <=? 65535 then
    mkTable (R16 t ++ [mkRange16 lo 65535 1]) (R32 t ++ [mkRange16 65536 hi 1]) (LatinOffset t)
  else mkTable (R16 t) (R32 t ++ [mkRange16 lo hi 1]) (LatinOffset t).

(** The loop: the range being built, if one has started. *)
Fixpoint build_loop (keep : Z → bool) (open_ : option (Z * Z)) (runes : list Z) (t : RangeTable) : RangeTable :=
  match runes with
  | [] => match open_ with Some (lo, hi) => add_range lo hi t | None => t end
  | r :: rest =>
      if negb (keep r) then build_loop keep open_ rest t
      else match open_ with
           | None => build_loop keep (Some (r, r)) rest t
           | Some (lo, hi) =>
               if r =? hi + 1 then build_loop keep (Some (lo, r)) rest t
               else build_loop keep (Some (r, r)) rest (add_range lo hi t)
           end
  end.

Definition empty_table : RangeTable := mkTable [] [] 0.

Definition tableFromRunes (runes : list Z) (keep : Z → bool) : RangeTable :=
  build_loop keep None (sorted_runes runes) empty_table.

Section tables.
(** The tables of the unicode package. *)
Context (Other_Default_Ignorable Cf Variation_Selector White_Space Prepended : RangeTable).

Definition keep_ignorable (r : Z) : bool :=
  if Is White_Space r then false
  else if within 65529 65531 r then false
  else if within 78896 78912 r then false
  else if Is Prepended r then false
  else true.

Definition DefaultIgnorable : RangeTable :=
  tableFromRunes
    (appendTable (appendTable (appendTable [] Other_Default_Ignorable) Cf) Variation_Selector)
    keep_ignorable.

Definition ZeroWidth : RangeTable :=
  tableFromRunes (appendTable [] DefaultIgnorable) (λ r, negb (Is Variation_Selector r)).

Definition IsDefaultIgnorable (r : Z) : bool := Is DefaultIgnorable r.
Definition IsZeroWidth (r : Z) : bool := Is ZeroWidth r.

Definition IsSuspiciousInvisible (r : Z) : bool :=
  negb (r =? 173) && negb (IsTagChar r) && Is ZeroWidth r.

Definition IsInvisible (r : Z) : bool :=
  if r <? 128 then false else Is DefaultIgnorable r || Is Cf r.

(** ** The views *)

(** strings.Map keeps the runes that stay; an invalid byte becomes U+FFFD. *)
Definition StripInvisible (data : bytes) : bytes * bool :=
  (encode (filter (λ r, IsInvisible r = false) (runes data)), existsb IsInvisible (runes data)).
End tables.

Definition tag_text (r : Z) : bytes :=
  if negb (IsTagChar r) then []
  else if (917536 <=? r) && (r <=? 917630) then encode_rune (r - 917504) else [].

Definition DecodeTagChars (content : bytes) : option bytes :=
  let buf := runes content ≫= tag_text in
  if (length buf =? 0)%nat then None else Some buf.

(** CountInvisible: the tags and the bidi controls. *)
Definition CountInvisible (content : bytes) : nat * nat :=
  foldl (λ '(tags, bidi) r,
    if IsTagChar r then (S tags, bidi) else if IsBidiControl r then (tags, S bidi) else (tags, bidi))
    (0%nat, 0%nat) (runes content).

(** ** Sorted runes *)

Lemma compact_cons x y r : compact (x :: y :: r) = if x =? y then compact (y :: r) else x :: compact (y :: r).
Proof. done. Qed.

Lemma elem_of_compact l x : x ∈ compact l ↔ x ∈ l.
Proof.
  induction l as [|a [|b l] IH]; [done..|]. rewrite compact_cons.
  destruct (Z.eqb_spec a b) as [->|_].
  - rewrite IH, !elem_of_cons. tauto.
  - rewrite elem_of_cons, IH. by rewrite !elem_of_cons.
Qed.

Lemma compact_sorted l : StronglySorted Z.le l → StronglySorted Z.lt (compact l).
Proof.
  induction l as [|a [|b l] IH]; intros H; [constructor|by repeat constructor|].
  inversion H as [|? ? Hs Hle]; subst. rewrite compact_cons.
  destruct (Z.eqb_spec a b) as [->|Hne]; [by apply IH|]. constructor; [by apply IH|].
  apply Forall_forall. intros x Hx. rewrite elem_of_compact in Hx.
  assert (a ≤ b) by (by apply Forall_cons in Hle as [? _]).
  inversion Hs as [|? ? _ Hb]; subst. rewrite Forall_forall in Hb.
  apply elem_of_cons in Hx as [->|Hx]; [lia|]. specialize (Hb x Hx). lia.
Qed.

#[local] Instance Zle_total : Total Z.le.
Proof. intros x y. lia. Qed.
#[local] Instance Zle_trans : Transitive Z.le.
Proof. intros x y z. lia. Qed.

Lemma sorted_runes_sorted l : StronglySorted Z.lt (sorted_runes l).
Proof. apply compact_sorted, Sorted_StronglySorted; [apply _|]. apply Sorted_merge_sort, _. Qed.

Lemma elem_of_sorted_runes l x : x ∈ sorted_runes l ↔ x ∈ l.
Proof. unfold sorted_runes. rewrite elem_of_compact. by rewrite merge_sort_Permutation. Qed.

Lemma filter_strongly_sorted (keep : Z → bool) l :
  StronglySorted Z.lt l → StronglySorted Z.lt (filter (λ r, keep r = true) l).
Proof.
  induction 1 as [|x l Hs IH Hx]; [constructor|]. rewrite filter_cons.
  destruct (decide (keep x = true)); [|done]. constructor; [done|]. apply Forall_forall.
  intros y [_ Hy]%list_elem_of_filter. rewrite Forall_forall in Hx. by apply Hx.
Qed.

(** ** The runs of the runes that are kept *)

Fixpoint runs (lo hi : Z) (l : list Z) : list (Z * Z) :=
  match l with
  | [] => [(lo, hi)]
  | r :: rest => if r =? hi + 1 then runs lo r rest else (lo, hi) :: runs r r rest
  end.

Definition add_all (t : RangeTable) (l : list (Z * Z)) : RangeTable :=
  foldl (λ t p, add_range p.1 p.2 t) t l.

Lemma build_loop_open keep l : ∀ lo hi t,
  build_loop keep (Some (lo, hi)) l t = add_all t (runs lo hi (filter (λ r, keep r = true) l)).
Proof.
  induction l as [|r l IH]; intros lo hi t; [done|]. cbn [build_loop]. rewrite filter_cons.
  destruct (keep r) eqn:Hk; cbn [negb]; [rewrite decide_True by done|rewrite decide_False by done; apply IH].
  cbn [runs]. by destruct (r =? hi + 1); rewrite IH.
Qed.

Lemma build_loop_start keep l t :
  build_loop keep None l t
  = match filter (λ r, keep r = true) l with [] => t | r :: rest => add_all t (runs r r rest) end.
Proof.
  induction l as [|r l IH]; [done|]. cbn [build_loop]. rewrite filter_cons.
  destruct (keep r) eqn:Hk; cbn [negb]; [rewrite decide_True by done|rewrite decide_False by done; apply IH].
  apply build_loop_open.
Qed.

(** Ranges in order, with a gap between any two. *)
Definition apart (p q : Z * Z) : Prop := p.2 + 1 < q.1.
Definition separated (l : list (Z * Z)) : Prop :=
  StronglySorted apart l ∧ Forall (λ p, p.1 ≤ p.2) l.

Definition in_runs (l : list (Z * Z)) (r : Z) : Prop := ∃ p, p ∈ l ∧ p.1 ≤ r ≤ p.2.

Lemma in_runs_cons p l r : in_runs (p :: l) r ↔ p.1 ≤ r ≤ p.2 ∨ in_runs l r.
Proof.
  unfold in_runs. split.
  - intros (q & [->|Hq]%elem_of_cons & Hr); [by left|right; eauto].
  - intros [Hr|(q & Hq & Hr)]; [exists p|exists q]; split; auto; [left|by right].
Qed.

Lemma runs_spec l : ∀ lo hi,
  lo ≤ hi → StronglySorted Z.lt l → Forall (λ r, hi < r) l →
  separated (runs lo hi l) ∧ Forall (λ p, lo ≤ p.1) (runs lo hi l) ∧
  ∀ r, in_runs (runs lo hi l) r ↔ lo ≤ r ≤ hi ∨ r ∈ l.
Proof.
  induction l as [|x l IH]; intros lo hi Hle Hs Hlt; cbn [runs].
  { split_and!; [split; repeat constructor; done|by repeat constructor|]. intros r.
    rewrite in_runs_cons. simpl. split; [|intros [?|?%elem_of_nil]; [by left|done]].
    intros [?|(p & Hp & _)]; [by left|by apply elem_of_nil in Hp]. }
  apply StronglySorted_inv in Hs as [Hs Hx]. apply Forall_cons in Hlt as [Hhx Hl].
  assert (Hxl : Forall (λ r, x < r) l) by done.
  destruct (Z.eqb_spec x (hi + 1)) as [->|Hne].
  - destruct (IH lo (hi + 1) ltac:(lia) Hs Hxl) as (H1 & H2 & H3). split_and!; [done|done|].
    intros r. rewrite H3, elem_of_cons. split; [intros [?|?]|intros [?|[->|?]]]; try tauto; lia.
  - destruct (IH x x ltac:(lia) Hs Hxl) as ([H1 H1'] & H2 & H3). split_and!.
    + split; [|by constructor]. constructor; [done|]. eapply Forall_impl; [exact H2|].
      intros [a b] Ha. unfold apart. simpl in *. lia.
    + constructor; [simpl; lia|]. eapply Forall_impl; [exact H2|]. intros p Hp. simpl in *. lia.
    + intros r. rewrite in_runs_cons, H3, elem_of_cons. simpl. split; [intros [?|[?|?]]|intros [?|[->|?]]];
        try tauto; lia.
Qed.

(** ** What a table denotes *)

Definition low_part (p : Z * Z) : option Range16 :=
  if p.1 <=? 65535 then Some (mkRange16 p.1 (Z.min p.2 65535) 1) else None.
Definition high_part (p : Z * Z) : option Range16 :=
  if 65535 <? p.2 then Some (mkRange16 (Z.max p.1 65536) p.2 1) else None.

Lemma add_range_parts t p :
  p.1 ≤ p.2 →
  R16 (add_range p.1 p.2 t) = R16 t ++ omap low_part [p] ∧
  R32 (add_range p.1 p.2 t) = R32 t ++ omap high_part [p].
Proof.
  intros Hp. unfold add_range, low_part, high_part. cbn [omap list_omap].
  destruct (Z.leb_spec p.2 65535), (Z.leb_spec p.1 65535); try lia; cbn [R16 R32];
    destruct (Z.ltb_spec 65535 p.2); try lia; rewrite ?app_nil_r;
    rewrite ?Z.min_l, ?Z.min_r, ?Z.max_l, ?Z.max_r by lia; done.
Qed.

Lemma add_all_parts l : ∀ t,
  Forall (λ p, p.1 ≤ p.2) l →
  R16 (add_all t l) = R16 t ++ omap low_part l ∧ R32 (add_all t l) = R32 t ++ omap high_part l.
Proof.
  induction l as [|p l IH]; intros t Hl; cbn [add_all foldl]; [by rewrite !app_nil_r|].
  apply Forall_cons in Hl as [Hp Hl]. destruct (IH (add_range p.1 p.2 t) Hl) as [E1 E2].
  destruct (add_range_parts t p Hp) as [F1 F2]. unfold add_all in *. rewrite E1, E2, F1, F2.
  cbn [omap list_omap]. rewrite <- !app_assoc. by destruct (low_part p), (high_part p).
Qed.

(** Ranges of stride one, in order and apart. *)
Definition range_apart (g h : Range16) : Prop := Hi g + 1 < Lo h.
Record ranges_ok (l : list Range16) : Prop := {
  ok_sorted : StronglySorted range_apart l;
  ok_each : Forall (λ g, Lo g ≤ Hi g ∧ Stride g = 1) l;
}.

Lemma is_in_spec l r : ranges_ok l → is_in l r = true ↔ ∃ g, g ∈ l ∧ Lo g ≤ r ≤ Hi g.
Proof.
  intros [Hs He]. induction l as [|g l IH].
  { split; [done|]. intros (g & Hg & _). by apply elem_of_nil in Hg. }
  apply StronglySorted_inv in Hs as [Hs Hg]. apply Forall_cons in He as [[Hle Hst] He].
  specialize (IH Hs He). cbn [is_in]. rewrite Hst. cbn [Z.eqb Pos.eqb orb].
  assert (Hafter : ∀ h, h ∈ l → Hi g + 1 < Lo h) by (by apply Forall_forall).
  destruct (Z.ltb_spec r (Lo g)); [|destruct (Z.leb_spec r (Hi g))].
  - split; [done|]. intros (h & [->|Hh]%elem_of_cons & Hr); [lia|]. specialize (Hafter h Hh). lia.
  - split; [|done]. intros _. exists g. split; [left|done].
  - rewrite IH. split; intros (h & Hh & Hr); exists h; (split; [|done]); [by right|].
    apply elem_of_cons in Hh as [->|Hh]; [lia|done].
Qed.

Lemma omap_sorted (f : Z * Z → option Range16) l :
  (∀ p q g h, apart p q → f p = Some g → f q = Some h → range_apart g h) →
  StronglySorted apart l → StronglySorted range_apart (omap f l).
Proof.
  intros Hf. induction 1 as [|p l Hs IH Hp]; [constructor|]. cbn [omap list_omap].
  destruct (f p) as [g|] eqn:Hg; [|done]. constructor; [done|]. apply Forall_forall.
  intros h (q & Hq & Hh)%list_elem_of_omap. rewrite Forall_forall in Hp. by eapply Hf; [apply Hp| |].
Qed.

Lemma omap_each (f : Z * Z → option Range16) (P : Range16 → Prop) l :
  (∀ p g, p.1 ≤ p.2 → f p = Some g → P g) → Forall (λ p, p.1 ≤ p.2) l → Forall P (omap f l).
Proof.
  intros Hf Hl. apply Forall_forall. intros g (p & Hp & Hg)%list_elem_of_omap.
  rewrite Forall_forall in Hl. by eapply Hf; [apply Hl|].
Qed.

Lemma low_ok l : separated l → ranges_ok (omap low_part l).
Proof.
  intros [Hs He]. split.
  - eapply omap_sorted; [|exact Hs]. intros [a b] [c d] g h. unfold apart, low_part, range_apart. simpl.
    destruct (Z.leb_spec a 65535), (Z.leb_spec c 65535); intros ? [= <-] [= <-]. simpl. lia.
  - eapply omap_each; [|exact He]. intros [a b] g. unfold low_part. simpl.
    destruct (Z.leb_spec a 65535); intros ? [= <-]. simpl. lia.
Qed.

Lemma high_ok l : separated l → ranges_ok (omap high_part l).
Proof.
  intros [Hs He]. split.
  - eapply omap_sorted; [|exact Hs]. intros [a b] [c d] g h. unfold apart, high_part, range_apart. simpl.
    destruct (Z.ltb_spec 65535 b), (Z.ltb_spec 65535 d); intros ? [= <-] [= <-]. simpl. lia.
  - eapply omap_each; [|exact He]. intros [a b] g. unfold high_part. simpl.
    destruct (Z.ltb_spec 65535 b); intros ? [= <-]. simpl. lia.
Qed.

Lemma ranges_last l h : ranges_ok l → last_hi l = Some h → ∀ g, g ∈ l → Hi g ≤ h.
Proof.
  intros [Hs He] Hl g Hg. unfold last_hi in Hl. apply fmap_Some in Hl as (z & Hz & ->).
  apply last_Some in Hz as [k ->]. apply elem_of_app in Hg as [Hg|Hg].
  - apply StronglySorted_app in Hs as (Hx & _ & _).
    assert (range_apart g z) as Ha by (apply Hx; [done|by left]).
    apply Forall_app in He as [_ He]. apply Forall_cons in He as [[Hle _] _]. unfold range_apart in Ha. lia.
  - apply list_elem_of_singleton in Hg as ->. lia.
Qed.

Lemma ranges_first l a r : ranges_ok l → first_lo l = Some a → is_in l r = true → a ≤ r.
Proof.
  intros _ Hl Hi. destruct l as [|g l]; [done|]. injection Hl as <-. cbn [is_in] in Hi.
  destruct (Z.ltb_spec r (Lo g)); [done|lia].
Qed.

Lemma low_in (l : list (Z * Z)) r : Forall (λ p, p.1 ≤ p.2) l → r ≤ 65535 →
  (∃ g, g ∈ omap low_part l ∧ Lo g ≤ r ≤ Hi g) ↔ in_runs l r.
Proof.
  intros Hl Hr. unfold in_runs. setoid_rewrite list_elem_of_omap. split.
  - intros (g & ([a b] & Hp & Hg) & Hin). exists (a, b). split; [done|]. unfold low_part in Hg. simpl in *.
    destruct (Z.leb_spec a 65535); [|done]. injection Hg as <-. simpl in Hin. lia.
  - intros ([a b] & Hp & Hin). simpl in Hin. exists (mkRange16 a (Z.min b 65535) 1). split; [|simpl; lia].
    exists (a, b). split; [done|]. unfold low_part. simpl. by destruct (Z.leb_spec a 65535); [|lia].
Qed.

Lemma high_in (l : list (Z * Z)) r : Forall (λ p, p.1 ≤ p.2) l → 65535 < r →
  (∃ g, g ∈ omap high_part l ∧ Lo g ≤ r ≤ Hi g) ↔ in_runs l r.
Proof.
  intros Hl Hr. unfold in_runs. setoid_rewrite list_elem_of_omap. split.
  - intros (g & ([a b] & Hp & Hg) & Hin). exists (a, b). split; [done|]. unfold high_part in Hg. simpl in *.
    destruct (Z.ltb_spec 65535 b); [|done]. injection Hg as <-. simpl in Hin. lia.
  - intros ([a b] & Hp & Hin). simpl in Hin. exists (mkRange16 (Z.max a 65536) b 1). split; [|simpl; lia].
    exists (a, b). split; [done|]. unfold high_part. simpl. by destruct (Z.ltb_spec 65535 b); [|lia].
Qed.

Lemma low_bound (l : list (Z * Z)) g : g ∈ omap low_part l → Hi g ≤ 65535.
Proof.
  intros ([a b] & _ & Hg)%list_elem_of_omap. unfold low_part in Hg. simpl in Hg.
  destruct (Z.leb_spec a 65535); [|done]. injection Hg as <-. simpl. lia.
Qed.

Lemma high_bound (l : list (Z * Z)) g : g ∈ omap high_part l → 65535 < Lo g.
Proof.
  intros ([a b] & _ & Hg)%list_elem_of_omap. unfold high_part in Hg. simpl in Hg.
  destruct (Z.ltb_spec 65535 b); [|done]. injection Hg as <-. simpl. lia.
Qed.

Lemma Is_runs l t r :
  separated l → R16 t = omap low_part l → R32 t = omap high_part l → Is t r = true ↔ in_runs l r.
Proof.
  intros Hsep E1 E2. pose proof (low_ok l Hsep) as H16. pose proof (high_ok l Hsep) as H32.
  destruct Hsep as [_ He]. rewrite <- E1 in H16. rewrite <- E2 in H32.
  assert (Hbig : (match first_lo (R32 t) with Some a => if a <=? r then is_in (R32 t) r else false | None => false end) = true
                 ↔ ∃ g, g ∈ R32 t ∧ Lo g ≤ r ≤ Hi g).
  { rewrite <- is_in_spec by done. destruct (first_lo (R32 t)) as [a|] eqn:Ha.
    - destruct (Z.leb_spec a r); [done|]. split; [done|]. intros Hi.
      apply (ranges_first _ _ _ H32 Ha) in Hi. lia.
    - destruct (R32 t); done. }
  assert (Hgt : (∀ g, g ∈ R16 t → Hi g < r) → (∃ g, g ∈ R32 t ∧ Lo g ≤ r ≤ Hi g) ↔ in_runs l r).
  { intros Hg. rewrite E2. destruct (decide (65535 < r)); [by apply high_in|].
    rewrite <- low_in by (done || lia). rewrite <- E1. split; intros (g & Hin & Hr); exfalso.
    - apply high_bound in Hin. lia.
    - specialize (Hg g Hin). lia. }
  unfold Is. destruct (last_hi (R16 t)) as [h|] eqn:Hh.
  - destruct (Z.leb_spec r h).
    + rewrite is_in_spec by done. rewrite E1. apply low_in; [done|].
      unfold last_hi in Hh. apply fmap_Some in Hh as (z & Hz & ->). apply last_Some_elem_of in Hz.
      rewrite E1 in Hz. apply low_bound in Hz. lia.
    + rewrite Hbig. apply Hgt. intros g Hg. pose proof (ranges_last _ _ H16 Hh g Hg). lia.
  - rewrite Hbig. apply Hgt. unfold last_hi in Hh. apply fmap_None, last_None in Hh as ->.
    intros g Hg. by apply elem_of_nil in Hg.
Qed.

(** A built table is exactly the set asked for.  Whatever runes are
    given, in any order and repeated, looking a rune up in the table that
    tableFromRunes builds finds it exactly when it was given and the
    condition keeps it; the table's ranges are in order, apart from one
    another and on their own side of U+FFFF, as the lookup requires. *)
Theorem table_from_runes_exact runes keep r :
  let t := tableFromRunes runes keep in
  (Is t r = true ↔ r ∈ runes ∧ keep r = true) ∧
  ranges_ok (R16 t) ∧ ranges_ok (R32 t) ∧
  (∀ g, g ∈ R16 t → Hi g ≤ 65535) ∧ (∀ g, g ∈ R32 t → 65535 < Lo g).
Proof.
  cbv zeta. unfold tableFromRunes. rewrite build_loop_start.
  pose proof (sorted_runes_sorted runes) as Hs.
  assert (Hin : ∀ x, x ∈ filter (λ r, keep r = true) (sorted_runes runes) ↔ x ∈ runes ∧ keep x = true).
  { intros x. rewrite list_elem_of_filter, elem_of_sorted_runes. tauto. }
  assert (Hf : StronglySorted Z.lt (filter (λ r, keep r = true) (sorted_runes runes))).
  { by apply filter_strongly_sorted. }
  destruct (filter _ _) as [|x l].
  - split_and!; [|split; constructor|split; constructor|intros g Hg; by apply elem_of_nil in Hg..].
    rewrite <- Hin. split; [done|]. intros H. by apply elem_of_nil in H.
  - apply StronglySorted_inv in Hf as [Hl Hx].
    destruct (runs_spec l x x ltac:(lia) Hl Hx) as (Hsep & _ & Hr).
    destruct (add_all_parts (runs x x l) empty_table (proj2 Hsep)) as [E1 E2]. cbn [R16 R32 empty_table app] in E1, E2.
    split_and!.
    + rewrite (Is_runs _ _ _ Hsep E1 E2), Hr, <- Hin, elem_of_cons. split; intros [?|?]; auto; left; lia.
    + rewrite E1. by apply low_ok.
    + rewrite E2. by apply high_ok.
    + rewrite E1. apply low_bound.
    + rewrite E2. apply high_bound.
Qed.

(** ** Stripping *)

Section strip.
Context (Other_Default_Ignorable Cf Variation_Selector White_Space Prepended : RangeTable).
#[local] Abbreviation invisible :=
  (IsInvisible Other_Default_Ignorable Cf Variation_Selector White_Space Prepended).
#[local] Abbreviation strip :=
  (StripInvisible Other_Default_Ignorable Cf Variation_Selector White_Space Prepended).

Lemma existsb_filter (f : Z → bool) l : existsb f (filter (λ r, f r = false) l) = false.
Proof.
  induction l as [|r l IH]; [done|]. rewrite filter_cons. destruct (f r) eqn:Hr; [done|].
  rewrite decide_True by done. cbn [existsb]. by rewrite Hr.
Qed.

Lemma filter_all (f : Z → bool) l : existsb f l = false → filter (λ r, f r = false) l = l.
Proof.
  induction l as [|r l IH]; [done|]. cbn [existsb]. intros [Hr Hl]%orb_false_iff.
  rewrite filter_cons, decide_True by done. f_equal. by apply IH.
Qed.

Lemma map_norm_scalar l : Forall (λ r, scalar r = true) l → norm_rune <$> l = l.
Proof.
  induction 1 as [|r l Hr Hl IH]; [done|]. rewrite fmap_cons, IH. by rewrite norm_scalar.
Qed.

Lemma runes_strip data :
  Forall is_byte data → runes (strip data).1 = filter (λ r, invisible r = false) (runes data).
Proof.
  intros Hb. unfold StripInvisible. cbn [fst]. rewrite runes_encode. apply map_norm_scalar.
  apply Forall_forall. intros r [_ Hr]%list_elem_of_filter.
  pose proof (runes_scalar data Hb) as Hs. rewrite Forall_forall in Hs. by apply Hs.
Qed.

(** A payload interleaved with invisible characters is read as one
    piece.  Whatever invisible runes are put between the runes of a text,
    and wherever, what StripInvisible returns is the text itself, and it
    reports that something was removed exactly when something was; the
    result is well-formed, holds no invisible rune, and stripping again
    changes nothing. *)
Theorem strip_reads_through (text : list Z) (data : bytes) :
  Forall is_byte data →
  filter (λ r, invisible r = false) (runes data) = text →
  strip data = (encode text, negb (bool_decide (runes data = text))) ∧
  valid (encode text) = true ∧
  existsb invisible (runes (encode text)) = false ∧
  strip (encode text) = (encode text, false).
Proof.
  intros Hb <-. pose proof (runes_strip data Hb) as Hr. unfold StripInvisible in Hr. cbn [fst] in Hr.
  assert (Hclean : existsb invisible (runes (encode (filter (λ r, invisible r = false) (runes data)))) = false)
    by (rewrite Hr; apply existsb_filter).
  split_and!; [|apply valid_encode|done|].
  - unfold StripInvisible. f_equal. destruct (existsb invisible (runes data)) eqn:He.
    + rewrite bool_decide_eq_false_2; [done|]. intros Heq. rewrite Heq, existsb_filter in He. done.
    + rewrite filter_all by done. by rewrite bool_decide_eq_true_2.
  - unfold StripInvisible. rewrite Hclean. rewrite filter_all by done. by rewrite Hr.
Qed.
End strip.

(** ** Text hidden in the Tags block *)

Definition is_printable (b : Z) : bool := within 32 126 b.
Definition hidden (b : Z) : Z := tagRangeLo + b.

Lemma tag_text_visible r : IsTagChar r = false → tag_text r = [].
Proof. unfold tag_text. by intros ->. Qed.

Lemma tag_text_hidden b : is_printable b = true → tag_text (hidden b) = [b].
Proof.
  intros Hb%within_spec. unfold tag_text, IsTagChar, hidden, tagRangeLo, tagRangeHi.
  rewrite !(proj2 (Z.leb_le _ _)) by lia. cbn [negb andb].
  replace (917504 + b - 917504) with b by lia. unfold encode_rune, scalar.
  rewrite (proj2 (within_spec 0 55295 b)) by lia. cbn [orb].
  by rewrite (proj2 (Z.ltb_lt b 128)) by lia.
Qed.

Lemma bind_tag_text rs : rs ≫= tag_text = filter (λ r, IsTagChar r = true) rs ≫= tag_text.
Proof.
  induction rs as [|r rs IH]; [done|]. rewrite filter_cons, bind_cons.
  destruct (IsTagChar r) eqn:Hr.
  - by rewrite decide_True, bind_cons, IH by done.
  - by rewrite decide_False, tag_text_visible by done.
Qed.

Lemma bind_hidden s : forallb is_printable s = true → (hidden <$> s) ≫= tag_text = s.
Proof.
  induction s as [|b s IH]; [done|]. cbn [forallb]. intros [Hb Hs]%andb_true_iff.
  rewrite fmap_cons, bind_cons, tag_text_hidden, IH by done. done.
Qed.

Lemma tags_read content s :
  forallb is_printable s = true → s ≠ [] →
  filter (λ r, IsTagChar r = true) (runes content) = hidden <$> s → DecodeTagChars content = Some s.
Proof.
  intros Hs Hne Hf. unfold DecodeTagChars. rewrite bind_tag_text, Hf, bind_hidden by done. by destruct s.
Qed.

(** Text smuggled in tag characters is read back word for word.
    Whatever visible text surrounds or separates them, if the tag
    characters of the content spell a printable ASCII message then
    DecodeTagChars returns that message; and content that returns nothing
    spells no message at all. *)
Theorem smuggled_text_read content :
  (∀ s, forallb is_printable s = true → s ≠ [] →
     filter (λ r, IsTagChar r = true) (runes content) = hidden <$> s → DecodeTagChars content = Some s) ∧
  (DecodeTagChars content = None →
     ∀ b, is_printable b = true → hidden b ∉ runes content).
Proof.
  split; [apply tags_read|].
  - unfold DecodeTagChars. intros Hn b Hb Hin. destruct (runes content ≫= tag_text) as [|x l] eqn:He; [|done].
    assert (b ∈ runes content ≫= tag_text) as Hel; [|rewrite He in Hel; by apply elem_of_nil in Hel].
    apply list_elem_of_bind. exists (hidden b). split; [|done]. rewrite tag_text_hidden by done. by left.
Qed.

(** ** Witnesses *)

(** "ig", a zero-width space, "nore". *)
Lemma strip_reads_through_witness :
  let cf := tableFromRunes [8203; 8204; 8205; 173] (λ _, true) in
  let e := empty_table in
  let text := [105; 103; 110; 111; 114; 101] in
  StripInvisible e cf e e e (encode [105; 103; 8203; 110; 111; 173; 114; 101]) = (text, true).
Proof.
  cbv zeta.
  destruct (strip_reads_through empty_table (tableFromRunes [8203; 8204; 8205; 173] (λ _, true))
    empty_table empty_table empty_table [105; 103; 110; 111; 114; 101]
    (encode [105; 103; 8203; 110; 111; 173; 114; 101])) as (H & _ & _ & _).
  - unfold is_byte. apply (bool_decide_unpack _). vm_compute. done.
  - vm_compute. reflexivity.
  - rewrite H. vm_compute. reflexivity.
Defined.

(** "a", the message "hi" with a space in tag characters, "b". *)
Lemma smuggled_text_read_witness :
  DecodeTagChars (encode [97; hidden 104; 98; hidden 105]) = Some [104; 105].
Proof.
  apply (proj1 (smuggled_text_read (encode [97; hidden 104; 98; hidden 105]))); vm_compute; done.
Defined.
