(* ===== verification/EBidi.v ===== *)
(** internal/engine/bidi.go: the text as a reader sees it, after the
    explicit bidirectional controls.

    [control] and [assign] are the loop of reorderParagraph that assigns a
    level to every rune, [reverse_runs] and [l2_loop] its reversal loop.
    The stack is kept top first.  [uax_control] is the rule the Unicode
    annex states for a paragraph of level zero, with the overflow counts the
    code leaves out and with the first strong character found as the annex
    says: the bidirectional classes are a parameter of it. *)
From S2P Require Import Prelude GoStrings Utf8 EMatch EInvisible.
Local Open Scope Z_scope.

Definition runeLRE : Z := 8234.
Definition runeRLE : Z := 8235.
Definition runePDF : Z := 8236.
Definition runeLRO : Z := 8237.
Definition runeRLO : Z := 8238.
Definition runeLRI : Z := 8294.
Definition runeRLI : Z := 8295.
Definition runeFSI : Z := 8296.
Definition runePDI : Z := 8297.

Definition maxBidiDepth : Z := 125.

Record bidiFrame := mkFrame { level : Z; isolate : bool }.

(** The local variables level and stack. *)
Record bidi := mkBidi { current : Z; stack : list bidiFrame }.

Definition start : bidi := mkBidi 0 [mkFrame 0 false].

(** The closure push. *)
Definition push (newLevel : Z) (iso : bool) (b : bidi) : bidi :=
  if (maxBidiDepth <? newLevel) || (maxBidiDepth <=? Z.of_nat (length (stack b))) then b
  else mkBidi newLevel (mkFrame newLevel iso :: stack b).

Definition nextOdd (l : Z) : Z := if l mod 2 =? 0 then l + 1 else l + 2.
Definition nextEven (l : Z) : Z := if l mod 2 =? 0 then l + 2 else l + 1.

Definition hasIsolate (st : list bidiFrame) : bool := existsb isolate st.

(** stack[len(stack)-1].level *)
Definition top_level (st : list bidiFrame) : Z :=
  match st with f :: _ => level f | [] => 0 end.

(** The loop of PDI: pop while more than one frame is left, and stop after
    an isolate. *)
Fixpoint pop_isolate (st : list bidiFrame) : list bidiFrame :=
  match st with
  | f :: (_ :: _) as rest => if isolate f then rest else pop_isolate rest
  | _ => st
  end.

Section scripts.
(** The right-to-left scripts of the unicode package, and its letters. *)
Context (rtl_scripts : list RangeTable) (IsLetter : Z → bool).

Fixpoint strong_loop (depth : Z) (rest : list Z) : bool :=
  match rest with
  | [] => false
  | r :: l =>
      if (r =? runeLRI) || (r =? runeRLI) || (r =? runeFSI) then strong_loop (depth + 1) l
      else if r =? runePDI then
        if depth =? 0 then false else strong_loop (depth - 1) l
      else if 0 <? depth then strong_loop depth l
      else if existsb (λ t, Is t r) rtl_scripts then true
      else if IsLetter r then false
      else strong_loop depth l
  end.

Definition firstStrongIsRTL (rest : list Z) : bool := strong_loop 0 rest.

(** What a control does, when [r] is one; [rest] is the source after it. *)
Definition control (rest : list Z) (r : Z) (b : bidi) : option bidi :=
  if (r =? runeRLE) || (r =? runeRLO) then Some (push (nextOdd (current b)) false b)
  else if (r =? runeLRE) || (r =? runeLRO) then Some (push (nextEven (current b)) false b)
  else if r =? runeRLI then Some (push (nextOdd (current b)) true b)
  else if r =? runeLRI then Some (push (nextEven (current b)) true b)
  else if r =? runeFSI then
    Some (if firstStrongIsRTL rest then push (nextOdd (current b)) true b
          else push (nextEven (current b)) true b)
  else if r =? runePDF then
    Some match stack b with
         | f :: (_ :: _) as st => if isolate f then b else mkBidi (top_level st) st
         | _ => b
         end
  else if r =? runePDI then
    Some (if hasIsolate (stack b)
          then let st := pop_isolate (stack b) in mkBidi (top_level st) st
          else b)
  else None.

(** Every other rune, with its level. *)
Fixpoint assign (b : bidi) (src : list Z) : list (Z * Z) :=
  match src with
  | [] => []
  | r :: rest =>
      match control rest r b with
      | Some b' => assign b' rest
      | None => (r, current b) :: assign b rest
      end
  end.

(** maxLevel and minOdd. *)
Definition bound_step (p : Z * Z) (l : Z) : Z * Z :=
  (if p.1 <? l then l else p.1, if (l mod 2 =? 1) && (l <? p.2) then l else p.2).

Definition level_bounds (levels : list Z) : Z * Z := foldl bound_step (0, maxBidiDepth + 2) levels.

(** One pass of the reversal: every maximal run at [lvl] or above is
    reversed; [acc] is the run being read, reversed. *)
Fixpoint reverse_runs (lvl : Z) (acc : list Z) (levels rs : list Z) : list Z :=
  match levels, rs with
  | l :: ls, r :: rest =>
      if l <? lvl then acc ++ r :: reverse_runs lvl [] ls rest
      else reverse_runs lvl (r :: acc) ls rest
  | _, _ => acc
  end.

(** The levels [lvl + n - 1] down to [lvl]. *)
Fixpoint l2_loop (n : nat) (lvl : Z) (levels rs : list Z) : list Z :=
  match n with
  | O => rs
  | S k => l2_loop k lvl levels (reverse_runs (lvl + Z.of_nat k) [] levels rs)
  end.

(** The paragraph after its runes are read; None is the result false. *)
Definition reorder_runes (src : list Z) : option (list Z) :=
  let a := assign start src in
  let levels := a.*2 in
  let '(maxLevel, minOdd) := level_bounds levels in
  if (maxLevel =? 0) || (maxLevel <? minOdd) then None
  else Some (l2_loop (Z.to_nat (maxLevel - minOdd + 1)) minOdd levels a.*1).

Definition reorderParagraph (para : bytes) : option bytes :=
  encode <$> reorder_runes (runes para).

(** strings.Split and strings.Join on a newline. *)
Fixpoint split_lines (s : bytes) : list bytes :=
  match s with
  | [] => [[]]
  | b :: r =>
      let rest := split_lines r in
      if b =? 10 then [] :: rest
      else match rest with l :: ls => (b :: l) :: ls | [] => [[b]] end
  end.

Fixpoint join_lines (l : list bytes) : bytes :=
  match l with
  | [] => []
  | [x] => x
  | x :: r => x ++ 10 :: join_lines r
  end.

(** bytes.ContainsRune *)
Definition containsRune (s : bytes) (r : Z) : bool :=
  match index s (encode_rune r) with Some _ => true | None => false end.

Definition openers : list Z := [runeRLE; runeLRE; runeRLO; runeLRO; runeRLI; runeLRI; runeFSI].

Definition ReorderBidi (content : bytes) : option bytes :=
  if negb (existsb (containsRune content) openers) then None
  else
    let lines := split_lines content in
    let outs := (λ line, (line, reorderParagraph line)) <$> lines in
    if existsb (λ p : bytes * option bytes, match p.2 with Some _ => true | None => false end) outs
    then Some (join_lines ((λ p : bytes * option bytes, default p.1 p.2) <$> outs))
    else None.

(** ** The rule of the annex

    UAX #9, X1 to X8: embeddings and isolates past the depth are counted,
    so that the terminators that belong to them end nothing else. *)
Record uax := mkUax { u_stack : list bidiFrame; over_isolate : nat; over_embed : nat; valid_isolate : nat }.

Definition u_start : uax := mkUax [mkFrame 0 false] 0 0 0.
Definition u_level (u : uax) : Z := top_level (u_stack u).

Definition u_fits (new : Z) (u : uax) : bool :=
  (new <=? maxBidiDepth) && (over_isolate u =? 0)%nat && (over_embed u =? 0)%nat.

Definition u_embed (new : Z) (u : uax) : uax :=
  if u_fits new u then
    mkUax (mkFrame new false :: u_stack u) (over_isolate u) (over_embed u) (valid_isolate u)
  else if (over_isolate u =? 0)%nat then
    mkUax (u_stack u) (over_isolate u) (S (over_embed u)) (valid_isolate u)
  else u.

Definition u_isolate (new : Z) (u : uax) : uax :=
  if u_fits new u then
    mkUax (mkFrame new true :: u_stack u) (over_isolate u) (over_embed u) (S (valid_isolate u))
  else mkUax (u_stack u) (S (over_isolate u)) (over_embed u) (valid_isolate u).

(** X6a. *)
Definition u_pdi (u : uax) : uax :=
  if (0 <? over_isolate u)%nat then mkUax (u_stack u) (pred (over_isolate u)) (over_embed u) (valid_isolate u)
  else if (valid_isolate u =? 0)%nat then u
  else mkUax (pop_isolate (u_stack u)) (over_isolate u) 0 (pred (valid_isolate u)).

(** X7. *)
Definition u_pdf (u : uax) : uax :=
  if (0 <? over_isolate u)%nat then u
  else if (0 <? over_embed u)%nat then mkUax (u_stack u) (over_isolate u) (pred (over_embed u)) (valid_isolate u)
  else match u_stack u with
       | f :: (_ :: _) as st =>
           if isolate f then u else mkUax st (over_isolate u) (over_embed u) (valid_isolate u)
       | _ => u
       end.

(** *** The first strong character *)

(** BD9: from an isolate initiator on, [counter] starts at one, goes up at
    every isolate initiator and down at every PDI; the matching PDI is where
    it gets to zero. *)
Definition initiates (r : Z) : bool := (r =? runeLRI) || (r =? runeRLI) || (r =? runeFSI).

Fixpoint matching_pdi (counter : nat) (text : list Z) : option nat :=
  match text with
  | [] => None
  | r :: rest =>
      if initiates r then S <$> matching_pdi (S counter) rest
      else if r =? runePDI then
        if (counter =? 1)%nat then Some 0%nat else S <$> matching_pdi (pred counter) rest
      else S <$> matching_pdi counter rest
  end.

(** What is between an isolate initiator and its matching PDI, or the end of
    the paragraph; and what is after it. *)
Definition isolated (text : list Z) : list Z :=
  match matching_pdi 1 text with Some i => take i text | None => text end.
Definition past_isolate (text : list Z) : list Z :=
  match matching_pdi 1 text with Some i => drop (S i) text | None => [] end.

(** The strong bidirectional class of a character: L is left to right, R and
    AL are right to left. *)
Inductive direction := LeftToRight | RightToLeft.
Context (strong : Z → option direction).

(** P2, with fuel for the length of the text: the first strong character,
    over isolates. *)
Fixpoint first_strong (fuel : nat) (text : list Z) : option direction :=
  match fuel, text with
  | S n, r :: rest =>
      if initiates r then first_strong n (past_isolate rest)
      else match strong r with Some d => Some d | None => first_strong n rest end
  | _, _ => None
  end.

(** X5c with P3: an FSI is an RLI if the first strong character of what it
    isolates is right to left. *)
Definition fsi_is_rtl (rest : list Z) : bool :=
  match first_strong (length rest) (isolated rest) with Some RightToLeft => true | _ => false end.

Definition uax_control (rest : list Z) (r : Z) (u : uax) : option uax :=
  if (r =? runeRLE) || (r =? runeRLO) then Some (u_embed (nextOdd (u_level u)) u)
  else if (r =? runeLRE) || (r =? runeLRO) then Some (u_embed (nextEven (u_level u)) u)
  else if r =? runeRLI then Some (u_isolate (nextOdd (u_level u)) u)
  else if r =? runeLRI then Some (u_isolate (nextEven (u_level u)) u)
  else if r =? runeFSI then
    Some (u_isolate (if fsi_is_rtl rest then nextOdd (u_level u) else nextEven (u_level u)) u)
  else if r =? runePDF then Some (u_pdf u)
  else if r =? runePDI then Some (u_pdi u)
  else None.

Fixpoint uax_assign (u : uax) (src : list Z) : list (Z * Z) :=
  match src with
  | [] => []
  | r :: rest =>
      match uax_control rest r u with
      | Some u' => uax_assign u' rest
      | None => (r, u_level u) :: uax_assign u rest
      end
  end.

(** What the code takes for strong: the letters, and the characters of seven
    scripts as right to left. *)
Definition strong_in_code (r : Z) : option direction :=
  if existsb (λ t, Is t r) rtl_scripts then Some RightToLeft
  else if IsLetter r then Some LeftToRight else None.

(** In a text, that is the class of every character. *)
Definition classified (text : list Z) : Prop :=
  ∀ r, r ∈ text → initiates r = false → r ≠ runePDI → strong r = strong_in_code r.

(** *** The code finds the same one *)

(** Inside an isolate, the loop looks for its end. *)
Lemma strong_loop_inside text : ∀ d, d ≠ 0%nat →
  strong_loop (Z.of_nat d) text = match matching_pdi d text with Some i => strong_loop 0 (drop (S i) text) | None => false end.
Proof using Type.
  induction text as [|r rest IH]; intros d Hd; [done|]. cbn [strong_loop matching_pdi].
  fold (initiates r). destruct (initiates r).
  { replace (Z.of_nat d + 1) with (Z.of_nat (S d)) by lia. rewrite IH by done. by destruct (matching_pdi (S d) rest). }
  destruct (r =? runePDI).
  { rewrite (proj2 (Z.eqb_neq (Z.of_nat d) 0)) by lia. destruct (Nat.eqb_spec d 1) as [->|].
    - by rewrite Z.sub_diag.
    - replace (Z.of_nat d - 1) with (Z.of_nat (pred d)) by lia. rewrite IH by lia. by destruct (matching_pdi (pred d) rest). }
  rewrite (proj2 (Z.ltb_lt 0 (Z.of_nat d))) by lia. rewrite IH by done. by destruct (matching_pdi d rest).
Qed.

(** One level further out. *)
Lemma matching_out text : ∀ d, d ≠ 0%nat →
  matching_pdi (S d) text = match matching_pdi d text with Some j => (λ k, S j + k)%nat <$> matching_pdi 1 (drop (S j) text) | None => None end.
Proof using Type.
  induction text as [|r rest IH]; intros d Hd; [done|]. cbn [matching_pdi].
  destruct (initiates r).
  { rewrite IH by done. destruct (matching_pdi (S d) rest) as [j|]; [|done]. cbn [fmap option_fmap option_map].
    change (drop (S (S j)) (r :: rest)) with (drop (S j) rest). by destruct (matching_pdi 1 _). }
  destruct (r =? runePDI).
  { change (S d =? 1)%nat with (d =? 0)%nat. rewrite (proj2 (Nat.eqb_neq d 0)) by done. cbn [pred].
    destruct (Nat.eqb_spec d 1) as [->|]; [by destruct rest|]. destruct d as [|d]; [done|]. cbn [pred]. rewrite IH by lia.
    destruct (matching_pdi d rest) as [j|]; [|done]. cbn [fmap option_fmap option_map].
    change (drop (S (S j)) (r :: rest)) with (drop (S j) rest). by destruct (matching_pdi 1 _). }
  rewrite IH by done. destruct (matching_pdi d rest) as [j|]; [|done]. cbn [fmap option_fmap option_map].
  change (drop (S (S j)) (r :: rest)) with (drop (S j) rest). by destruct (matching_pdi 1 _).
Qed.

(** A PDI that is found is found in every text that holds it. *)
Lemma matching_take text : ∀ d j n, matching_pdi d text = Some j → (j < n)%nat → matching_pdi d (take n text) = Some j.
Proof using Type.
  induction text as [|r rest IH]; intros d j [|n] Hj Hn; [done|done|lia|]. cbn [take matching_pdi] in *.
  assert (Hin : ∀ d', S <$> matching_pdi d' rest = Some j → S <$> matching_pdi d' (take n rest) = Some j).
  { intros d' (i & Hi & ->)%fmap_Some. by rewrite (IH d' i n Hi ltac:(lia)). }
  destruct (initiates r); [by apply Hin|]. destruct (r =? runePDI); [|by apply Hin].
  destruct (d =? 1)%nat; [done|by apply Hin].
Qed.

Lemma matching_bound text : ∀ d j, matching_pdi d text = Some j → (j < length text)%nat.
Proof using Type.
  induction text as [|r rest IH]; intros d j; cbn [matching_pdi length]; [done|].
  assert (Hin : ∀ d', S <$> matching_pdi d' rest = Some j → (j < S (length rest))%nat).
  { intros d' (i & Hi%IH & ->)%fmap_Some. lia. }
  destruct (initiates r); [by apply Hin|]. destruct (r =? runePDI); [|by apply Hin].
  destruct (d =? 1)%nat; [intros [= <-]; lia|by apply Hin].
Qed.

Lemma past_short text : (length (past_isolate text) ≤ length text)%nat.
Proof using Type. unfold past_isolate. destruct (matching_pdi 1 text); [rewrite length_drop; lia|cbn; lia]. Qed.

Lemma past_in text r : r ∈ past_isolate text → r ∈ text.
Proof using Type.
  unfold past_isolate. destruct (matching_pdi 1 text) as [i|]; [|by intros ?%elem_of_nil].
  intros Hr. rewrite <- (take_drop (S i) text). apply elem_of_app. by right.
Qed.

(** Skipping an isolate inside what is isolated. *)
Lemma isolated_initiator r rest :
  initiates r = true → ∃ inner, isolated (r :: rest) = r :: inner ∧ past_isolate inner = isolated (past_isolate rest).
Proof using Type.
  intros Hr. unfold isolated at 1. cbn [matching_pdi]. rewrite Hr, matching_out by done.
  unfold past_isolate at 2. destruct (matching_pdi 1 rest) as [j|] eqn:Hj.
  2: { exists rest. split; [done|]. unfold past_isolate. by rewrite Hj. }
  unfold isolated. destruct (matching_pdi 1 (drop (S j) rest)) as [k|] eqn:Hk; cbn [fmap option_fmap option_map].
  - exists (take (S j + k) rest). split; [done|]. unfold past_isolate. rewrite (matching_take _ _ j) by (done || lia).
    rewrite skipn_firstn_comm. f_equal. lia.
  - exists rest. split; [done|]. unfold past_isolate. by rewrite Hj.
Qed.

Lemma first_strong_loop n : ∀ text, (length text ≤ n)%nat → classified text →
  match first_strong n (isolated text) with Some RightToLeft => true | _ => false end = strong_loop 0 text.
Proof using Type.
  induction n as [|n IH]; intros text Hl Hc; [by destruct text; [|cbn in Hl; lia]|].
  destruct text as [|r rest]; [done|]. cbn [length] in Hl. cbn [strong_loop]. fold (initiates r).
  destruct (initiates r) eqn:Hr.
  { destruct (isolated_initiator r rest Hr) as (inner & -> & Hp). cbn [first_strong]. rewrite Hr, Hp.
    change (0 + 1) with (Z.of_nat 1). rewrite strong_loop_inside by done. pose proof (past_short rest).
    rewrite IH; [|lia|intros x Hx; apply Hc; right; by apply past_in].
    unfold past_isolate. by destruct (matching_pdi 1 rest). }
  destruct (Z.eqb_spec r runePDI) as [->|Hn]; [done|].
  assert (isolated (r :: rest) = r :: isolated rest) as ->.
  { unfold isolated. cbn [matching_pdi]. rewrite Hr, (proj2 (Z.eqb_neq r runePDI)) by done.
    by destruct (matching_pdi 1 rest). }
  cbn [first_strong]. rewrite Hr, (Hc r) by (done || left). change (0 <? 0) with false. cbn iota.
  unfold strong_in_code. destruct (existsb _ rtl_scripts); [done|]. destruct (IsLetter r); [done|].
  apply IH; [lia|]. intros x Hx. apply Hc. by right.
Qed.

Lemma fsi_direction rest : classified rest → fsi_is_rtl rest = firstStrongIsRTL rest.
Proof using Type. intros Hc. unfold fsi_is_rtl, firstStrongIsRTL. by apply first_strong_loop. Qed.

(** ** Controls *)

Definition is_opener (r : Z) : bool := existsb (Z.eqb r) openers.
Definition is_control (r : Z) : bool := is_opener r || (r =? runePDF) || (r =? runePDI).
Definition count_openers (src : list Z) : nat := length (filter (λ r, is_opener r = true) src).

(** The kinds of a rune. *)
Inductive kind : Type := KEmbed (rtl : bool) | KIsolate (rtl : bool) | KPDF | KPDI | KText.

Definition kind_of (rest : list Z) (r : Z) : kind :=
  if (r =? runeRLE) || (r =? runeRLO) then KEmbed true
  else if (r =? runeLRE) || (r =? runeLRO) then KEmbed false
  else if r =? runeRLI then KIsolate true
  else if r =? runeLRI then KIsolate false
  else if r =? runeFSI then KIsolate (firstStrongIsRTL rest)
  else if r =? runePDF then KPDF
  else if r =? runePDI then KPDI
  else KText.

Definition next_level (rtl : bool) (l : Z) : Z := if rtl then nextOdd l else nextEven l.

Definition end_embed (b : bidi) : bidi :=
  match stack b with
  | f :: (_ :: _) as st => if isolate f then b else mkBidi (top_level st) st
  | _ => b
  end.

Definition end_isolate (b : bidi) : bidi :=
  if hasIsolate (stack b) then mkBidi (top_level (pop_isolate (stack b))) (pop_isolate (stack b)) else b.

(** What each kind of control does, in the code and in the annex. *)
Definition by_kind (k : kind) (b : bidi) : option bidi :=
  match k with
  | KEmbed rtl => Some (push (next_level rtl (current b)) false b)
  | KIsolate rtl => Some (push (next_level rtl (current b)) true b)
  | KPDF => Some (end_embed b)
  | KPDI => Some (end_isolate b)
  | KText => None
  end.

Definition u_by_kind (k : kind) (u : uax) : option uax :=
  match k with
  | KEmbed rtl => Some (u_embed (next_level rtl (u_level u)) u)
  | KIsolate rtl => Some (u_isolate (next_level rtl (u_level u)) u)
  | KPDF => Some (u_pdf u)
  | KPDI => Some (u_pdi u)
  | KText => None
  end.

Lemma control_kind rest r b : control rest r b = by_kind (kind_of rest r) b.
Proof using Type.
  unfold control, kind_of.
  destruct ((r =? runeRLE) || _); [done|]. destruct ((r =? runeLRE) || _); [done|].
  destruct (r =? runeRLI); [done|]. destruct (r =? runeLRI); [done|].
  destruct (r =? runeFSI); [by destruct (firstStrongIsRTL rest)|].
  destruct (r =? runePDF); [done|]. by destruct (r =? runePDI).
Qed.

Lemma uax_control_kind rest r u : r ≠ runeFSI ∨ classified rest → uax_control rest r u = u_by_kind (kind_of rest r) u.
Proof using Type.
  intros Hc. unfold uax_control, kind_of.
  destruct ((r =? runeRLE) || _); [done|]. destruct ((r =? runeLRE) || _); [done|].
  destruct (r =? runeRLI); [done|]. destruct (r =? runeLRI); [done|].
  destruct (Z.eqb_spec r runeFSI) as [->|].
  { destruct Hc as [?|Hc]; [done|]. rewrite fsi_direction by done. by destruct (firstStrongIsRTL rest). }
  destruct (r =? runePDF); [done|]. by destruct (r =? runePDI).
Qed.

Lemma kind_text rest r : is_control r = match kind_of rest r with KText => false | _ => true end.
Proof using Type.
  unfold is_control, is_opener, kind_of, openers. cbn [existsb].
  destruct (r =? runeRLE), (r =? runeRLO), (r =? runeLRE), (r =? runeLRO), (r =? runeRLI), (r =? runeLRI),
    (r =? runeFSI), (r =? runePDF), (r =? runePDI); done.
Qed.

Lemma opener_kind rest r :
  is_opener r = match kind_of rest r with KEmbed _ | KIsolate _ => true | _ => false end.
Proof using Type.
  unfold is_opener, kind_of, openers. cbn [existsb].
  destruct (r =? runeRLE) eqn:E1; [done|]. destruct (r =? runeLRE) eqn:E2; [apply Z.eqb_eq in E2 as ->; done|].
  destruct (r =? runeRLO) eqn:E3; [done|]. destruct (r =? runeLRO) eqn:E4; [done|].
  destruct (r =? runeRLI), (r =? runeLRI), (r =? runeFSI), (r =? runePDF), (r =? runePDI); done.
Qed.

(** ** The code keeps the annex's levels *)

(** Levels grow by at most two with every frame. *)
Fixpoint shallow (st : list bidiFrame) : Prop :=
  match st with
  | [] => False
  | [f] => f = mkFrame 0 false
  | f :: rest => 0 ≤ level f ≤ 2 * Z.of_nat (length rest) ∧ shallow rest
  end.

(** The number of isolates that are open. *)
Definition isolates (st : list bidiFrame) : nat := length (filter (λ f, isolate f = true) st).

Record alike (b : bidi) (u : uax) : Prop := {
  alike_stack : u_stack u = stack b;
  alike_level : current b = top_level (stack b);
  alike_shallow : shallow (stack b);
  alike_isolate : over_isolate u = 0%nat;
  alike_embed : over_embed u = 0%nat;
  alike_valid : valid_isolate u = isolates (stack b);
}.

Lemma shallow_cons f st :
  shallow st → 0 ≤ level f ≤ 2 * Z.of_nat (length st) → shallow (f :: st).
Proof using Type. intros Hs Hf. by destruct st. Qed.

Lemma shallow_tail f g st : shallow (f :: g :: st) → shallow (g :: st).
Proof using Type. by intros [_ H]. Qed.

Lemma shallow_top st : shallow st → 0 ≤ top_level st ≤ 2 * (Z.of_nat (length st) - 1).
Proof using Type.
  destruct st as [|f [|g st]]; [done|intros ->; simpl; lia|]. intros [Hf _]. cbn [top_level length] in *. lia.
Qed.

Lemma next_level_bound rtl l : l + 1 ≤ next_level rtl l ≤ l + 2.
Proof using Type. unfold next_level, nextOdd, nextEven. destruct rtl, (l mod 2 =? 0); lia. Qed.

Lemma isolates_cons f st : isolates (f :: st) = ((if isolate f then 1 else 0) + isolates st)%nat.
Proof using Type. unfold isolates. rewrite filter_cons. by destruct (isolate f) eqn:E; [rewrite decide_True|rewrite decide_False]. Qed.

Lemma hasIsolate_isolates st : hasIsolate st = negb (isolates st =? 0)%nat.
Proof using Type.
  induction st as [|f st IH]; [done|]. unfold hasIsolate in *. cbn [existsb]. rewrite isolates_cons, IH.
  by destruct (isolate f).
Qed.

Lemma pop_isolate_spec st :
  shallow st → isolates st ≠ 0%nat →
  shallow (pop_isolate st) ∧ S (isolates (pop_isolate st)) = isolates st ∧
  (length (pop_isolate st) < length st)%nat.
Proof using Type.
  induction st as [|f [|g st] IH]; [done|intros -> ?; done|]. intros Hs. rewrite isolates_cons.
  change (pop_isolate (f :: g :: st)) with (if isolate f then g :: st else pop_isolate (g :: st)).
  apply shallow_tail in Hs. destruct (isolate f).
  - intros _. cbn [length]. split_and!; [done|lia|lia].
  - intros Hi. destruct (IH Hs Hi) as (H1 & H2 & H3). cbn [length] in *. split_and!; [done|lia|lia].
Qed.

(** How many frames a control adds. *)
Definition opens (k : kind) : nat := match k with KEmbed _ | KIsolate _ => 1 | _ => 0 end.

(** One control, while the depth is not reached. *)
Lemma alike_step k b u :
  alike b u → (length (stack b) + opens k ≤ 63)%nat →
  match by_kind k b, u_by_kind k u with
  | Some b', Some u' => alike b' u' ∧ (length (stack b') ≤ length (stack b) + opens k)%nat
  | None, None => True
  | _, _ => False
  end.
Proof using Type.
  intros [Hst Hl Hsh Hi He Hv] Hlen. pose proof (shallow_top _ Hsh) as Htop. rewrite <- Hl in Htop.
  assert (Hu : u_level u = current b) by (unfold u_level; congruence).
  assert (Hpush : ∀ rtl iso, (length (stack b) ≤ 62)%nat → push (next_level rtl (current b)) iso b =
     mkBidi (next_level rtl (current b)) (mkFrame (next_level rtl (current b)) iso :: stack b)).
  { intros rtl iso ?. pose proof (next_level_bound rtl (current b)). unfold push, maxBidiDepth.
    rewrite (proj2 (Z.ltb_ge 125 (next_level rtl (current b)))) by lia.
    by rewrite (proj2 (Z.leb_gt 125 _)) by lia. }
  assert (Hfit : ∀ rtl, (length (stack b) ≤ 62)%nat → u_fits (next_level rtl (current b)) u = true).
  { intros rtl ?. pose proof (next_level_bound rtl (current b)). unfold u_fits, maxBidiDepth.
    rewrite Hi, He. by rewrite (proj2 (Z.leb_le (next_level rtl (current b)) 125)) by lia. }
  assert (Hcons : ∀ rtl iso, shallow (mkFrame (next_level rtl (current b)) iso :: stack b)).
  { intros rtl iso. apply shallow_cons; [done|]. cbn [level]. pose proof (next_level_bound rtl (current b)). lia. }
  destruct k as [rtl|rtl| | |]; cbn [by_kind u_by_kind opens] in *; rewrite ?Hu; [..|done].
  - unfold u_embed. rewrite Hpush, Hfit by lia. split; [|cbn [stack length]; lia].
    split; cbn; [congruence|done|apply Hcons|done|done|]. by rewrite Hv.
  - unfold u_isolate. rewrite Hpush, Hfit by lia. split; [|cbn [stack length]; lia].
    split; cbn; [congruence|done|apply Hcons|done|done|]. by rewrite Hv.
  - unfold u_pdf, end_embed. rewrite Hi, He. cbn [Nat.ltb Nat.leb]. rewrite Hst.
    assert (Hsame : alike b u) by by split.
    destruct (stack b) as [|f [|g st]] eqn:Hb; [split; [done|rewrite Hb; simpl; lia]..|].
    destruct (isolate f) eqn:Hf; [split; [done|rewrite Hb; simpl; lia]|].
    split; [|cbn [stack length]; lia]. apply shallow_tail in Hsh.
    split; cbn [stack u_stack over_isolate over_embed valid_isolate current]; try done.
    rewrite Hv, isolates_cons. by rewrite Hf.
  - unfold u_pdi, end_isolate. rewrite Hi. cbn [Nat.ltb Nat.leb]. rewrite hasIsolate_isolates, Hv, Hst.
    destruct (Nat.eqb_spec (isolates (stack b)) 0) as [H0|H0]; cbn [negb].
    + split; [by split|lia].
    + destruct (pop_isolate_spec _ Hsh H0) as (H1 & H2 & H3). cbn [stack].
      split; [|lia]. split; cbn; try done. rewrite <- H2. done.
Qed.

Lemma assign_alike src : ∀ b u,
  alike b u → (length (stack b) + count_openers src ≤ 63)%nat → classified src →
  assign b src = uax_assign u src.
Proof using Type.
  induction src as [|r rest IH]; intros b u Ha Hn Hcl; [done|]. cbn [assign uax_assign].
  assert (Hcr : classified rest) by (intros x Hx; apply Hcl; by right).
  rewrite control_kind, uax_control_kind by by right.
  assert (Hc : count_openers (r :: rest) = (opens (kind_of rest r) + count_openers rest)%nat).
  { unfold count_openers. rewrite filter_cons. pose proof (opener_kind rest r) as Ho.
    destruct (kind_of rest r); rewrite Ho; first [by rewrite decide_True by done|by rewrite decide_False by done]. }
  rewrite Hc in Hn. pose proof (alike_step (kind_of rest r) b u Ha ltac:(lia)) as Hs.
  destruct (by_kind _ b) as [b'|], (u_by_kind _ u) as [u'|]; try done.
  - destruct Hs as [Ha' Hlen]. apply IH; [done|lia|done].
  - assert (current b = u_level u) as -> by (unfold u_level; rewrite (alike_stack _ _ Ha); apply Ha).
    f_equal. apply IH; [done|lia|done].
Qed.

(** C34. The scanner lays text out as the Unicode rule says, for the
    characters it knows the direction of.  Take a paragraph with at most 62
    embeddings, overrides and isolates, whatever their nesting and however
    they are terminated, in which a character is strongly right to left
    exactly when it is of one of the code's seven scripts, and strongly left
    to right exactly when it is another letter.  The level the code gives to
    each rune is the level that rules X1 to X8 of UAX #9 give it in a
    paragraph of level zero, the annex's overflow and isolate counts
    included, with a first-strong isolate resolved by BD9, P2 and P3. *)
Theorem levels_are_the_annex src :
  (count_openers src ≤ 62)%nat → classified src → assign start src = uax_assign u_start src.
Proof using Type. intros Hn Hc. apply assign_alike; [by repeat split|cbn [start stack length]; lia|done]. Qed.

(** ** What is laid out *)

Definition plain (s : list Z) : Prop := Forall (λ r, is_control r = false) s.

Lemma control_text rest r b : is_control r = false → control rest r b = None.
Proof using Type. rewrite control_kind, (kind_text rest). by destruct (kind_of rest r). Qed.

Lemma assign_runes src : ∀ b, (assign b src).*1 = filter (λ r, is_control r = false) src.
Proof using Type.
  induction src as [|r rest IH]; intros b; [done|]. cbn [assign]. rewrite filter_cons.
  pose proof (kind_text rest r) as Hk. rewrite control_kind.
  destruct (kind_of rest r); cbn [by_kind]; rewrite Hk;
    first [rewrite decide_False by done; apply IH|rewrite decide_True by done; by rewrite fmap_cons, IH].
Qed.

Lemma assign_plain s : ∀ b rest, plain s → assign b (s ++ rest) = ((., current b) <$> s) ++ assign b rest.
Proof using Type.
  induction s as [|r s IH]; intros b rest Hs; [done|]. apply Forall_cons in Hs as [Hr Hs].
  cbn [app assign]. rewrite control_text by done. by rewrite IH.
Qed.

Lemma reverse_runs_perm lvl levels : ∀ acc rs,
  length levels = length rs → reverse_runs lvl acc levels rs ≡ₚ acc ++ rs.
Proof using Type.
  induction levels as [|l ls IH]; intros acc [|r rs] Hl; try done; cbn [reverse_runs]; [by rewrite app_nil_r|].
  injection Hl as Hl. destruct (l <? lvl); rewrite IH by done; [done|].
  cbn [app]. by rewrite Permutation_middle.
Qed.

Lemma l2_perm levels n lvl : ∀ rs, length levels = length rs → l2_loop n lvl levels rs ≡ₚ rs.
Proof using Type.
  induction n as [|n IH]; intros rs Hl; [done|]. cbn [l2_loop].
  assert (reverse_runs (lvl + Z.of_nat n) [] levels rs ≡ₚ rs) as Hp by by rewrite reverse_runs_perm.
  rewrite IH; [done|]. by rewrite Hp.
Qed.

Lemma reorder_perm src out :
  reorder_runes src = Some out → out ≡ₚ filter (λ r, is_control r = false) src.
Proof using Type.
  unfold reorder_runes. destruct (level_bounds _) as [hi odd]. case_match; intros [= <-].
  rewrite l2_perm by (by rewrite !length_fmap). by rewrite assign_runes.
Qed.

(** Runs at and below a level. *)
Lemma reverse_runs_low lvl ls1 : ∀ rs1 ls rs,
  length ls1 = length rs1 → Forall (λ l, l < lvl) ls1 →
  reverse_runs lvl [] (ls1 ++ ls) (rs1 ++ rs) = rs1 ++ reverse_runs lvl [] ls rs.
Proof using Type.
  induction ls1 as [|l ls1 IH]; intros [|r rs1] ls rs Hl Hf; try done. injection Hl as Hl.
  apply Forall_cons in Hf as [Hlt Hf]. cbn [app reverse_runs]. rewrite (proj2 (Z.ltb_lt l lvl)) by done.
  by rewrite IH.
Qed.

Lemma reverse_runs_high lvl ls1 : ∀ acc rs1 ls rs,
  length ls1 = length rs1 → Forall (λ l, lvl ≤ l) ls1 →
  reverse_runs lvl acc (ls1 ++ ls) (rs1 ++ rs) = reverse_runs lvl (rev rs1 ++ acc) ls rs.
Proof using Type.
  induction ls1 as [|l ls1 IH]; intros acc [|r rs1] ls rs Hl Hf; try done. injection Hl as Hl.
  apply Forall_cons in Hf as [Hle Hf]. cbn [app reverse_runs rev]. rewrite (proj2 (Z.ltb_ge l lvl)) by done.
  rewrite IH by done. by rewrite <- app_assoc.
Qed.

Lemma reverse_runs_end lvl acc ls rs :
  length ls = length rs → Forall (λ l, l < lvl) ls →
  reverse_runs lvl acc ls rs = acc ++ rs.
Proof using Type.
  destruct ls as [|l ls], rs as [|r rs]; intros Hl Hf; try done; [by rewrite app_nil_r|].
  injection Hl as Hl. apply Forall_cons in Hf as [Hlt Hf]. cbn [reverse_runs].
  rewrite (proj2 (Z.ltb_lt l lvl)) by done. do 2 f_equal.
  pose proof (reverse_runs_low lvl ls rs [] [] Hl Hf) as H. rewrite !app_nil_r in H. exact H.
Qed.

(** One run at level one. *)
Lemma reverse_one a s b :
  reverse_runs 1 [] (((λ _, 0) <$> a) ++ ((λ _, 1) <$> s) ++ ((λ _, 0) <$> b)) (a ++ s ++ b) = a ++ rev s ++ b.
Proof using Type.
  assert (Hz : ∀ l : list Z, Forall (λ x, x < 1) ((λ _, 0) <$> l)) by (intros; apply Forall_fmap, Forall_true; done).
  rewrite reverse_runs_low; [|by rewrite length_fmap|done].
  rewrite reverse_runs_high; [|by rewrite length_fmap|by apply Forall_fmap, Forall_true].
  rewrite reverse_runs_end; [|by rewrite length_fmap|done]. by rewrite app_nil_r.
Qed.

Lemma bound_step_idem p c : bound_step (bound_step p c) c = bound_step p c.
Proof using Type.
  destruct p as [hi odd]. unfold bound_step. cbn [fst snd]. f_equal.
  - destruct (Z.ltb_spec hi c); [by rewrite Z.ltb_irrefl|]. by rewrite (proj2 (Z.ltb_ge hi c)) by lia.
  - destruct (c mod 2 =? 1); cbn [andb]; [|done].
    destruct (Z.ltb_spec c odd); [by rewrite Z.ltb_irrefl|]. by rewrite (proj2 (Z.ltb_ge c odd)) by lia.
Qed.

Lemma bounds_const {A} c (l : list A) p :
  foldl bound_step p ((λ _, c) <$> l) = match l with [] => p | _ => bound_step p c end.
Proof using Type.
  destruct l as [|x l]; [done|]. rewrite fmap_cons. cbn [foldl]. generalize (bound_step_idem p c).
  generalize (bound_step p c). induction l as [|y l IH]; intros q Hq; [done|].
  rewrite fmap_cons. cbn [foldl]. rewrite Hq. by apply IH.
Qed.

(** An opener and the terminator that belongs to it. *)
Definition wraps (o c : Z) (inner after : list Z) : Prop :=
  (kind_of (inner ++ c :: after) o = KEmbed true ∧ c = runePDF) ∨
  (kind_of (inner ++ c :: after) o = KIsolate true ∧ c = runePDI).

Lemma assign_wrapped o c before s after :
  plain before → plain s → plain after → wraps o c s after →
  assign start (before ++ o :: s ++ c :: after)
  = ((., 0) <$> before) ++ ((., 1) <$> s) ++ ((., 0) <$> after).
Proof using Type.
  intros Hb Hs Ha Hw. rewrite assign_plain by done. cbn [start current]. f_equal.
  cbn [assign]. rewrite control_kind.
  assert (Hin : ∀ b', current b' = 1 →
     match control after c b' with Some b'' => current b'' = 0 | None => False end →
     assign b' (s ++ c :: after) = ((., 1) <$> s) ++ ((., 0) <$> after)).
  { intros b' Hb' Hc. rewrite assign_plain, Hb' by done. f_equal. cbn [assign].
    destruct (control after c b') as [b''|]; [|done]. rewrite <- (app_nil_r after) at 1.
    rewrite assign_plain, Hc by done. by rewrite app_nil_r. }
  destruct Hw as [[Hk ->]|[Hk ->]]; rewrite Hk; cbn [by_kind]; by apply Hin.
Qed.

Lemma plain_rev s : plain s → plain (rev s).
Proof using Type. unfold plain. intros Hs. by rewrite <- Permutation_rev. Qed.

Lemma reorder_wrapped o c before s after :
  plain before → plain s → plain after → s ≠ [] → wraps o c (rev s) after →
  reorder_runes (before ++ o :: rev s ++ c :: after) = Some (before ++ s ++ after).
Proof using Type.
  intros Hb Hs Ha Hne Hw. unfold reorder_runes.
  rewrite (assign_wrapped o c before (rev s) after) by (done || by apply plain_rev).
  assert (H1 : ∀ (l : list Z) (k : Z), ((., k) <$> l).*1 = l)
    by (intros l k; rewrite <- list_fmap_compose; apply list_fmap_id).
  assert (H2 : ∀ (l : list Z) (k : Z), ((., k) <$> l).*2 = (λ _, k) <$> l)
    by (intros l k; by rewrite <- list_fmap_compose).
  rewrite !fmap_app, !H1, !H2. unfold level_bounds. rewrite !foldl_app, !bounds_const.
  destruct (rev s) as [|x rs] eqn:Hrev.
  { apply (f_equal (@rev Z)) in Hrev. rewrite rev_involutive in Hrev. done. }
  rewrite <- Hrev.
  assert (Hbd : match after with [] => bound_step (match before with [] => (0, maxBidiDepth + 2) | _ => bound_step (0, maxBidiDepth + 2) 0 end) 1
     | _ => bound_step (bound_step (match before with [] => (0, maxBidiDepth + 2) | _ => bound_step (0, maxBidiDepth + 2) 0 end) 1) 0 end = (1, 1))
    by by destruct before, after.
  rewrite Hbd. change (Z.to_nat (1 - 1 + 1)) with 1%nat. cbn -[reverse_runs rev].
  rewrite reverse_one, rev_involutive. done.
Qed.

(** ** Bounds *)

(** The state after a prefix of the paragraph has been read. *)
Fixpoint run (b : bidi) (src : list Z) : bidi :=
  match src with
  | [] => b
  | r :: rest => run (default b (control rest r b)) rest
  end.

(** The invariant of the stack, with a property of the levels. *)
Record bounded (P : Z → Prop) (b : bidi) : Prop := {
  bounded_depth : 1 ≤ Z.of_nat (length (stack b)) ≤ maxBidiDepth;
  bounded_levels : Forall (λ f, 0 ≤ level f ≤ maxBidiDepth ∧ P (level f)) (stack b);
  bounded_current : current b = top_level (stack b);
}.

Lemma pop_isolate_suffix st : ∃ l, st = l ++ pop_isolate st.
Proof using Type.
  induction st as [|f [|g st] [l IH]]; [by exists []|by exists []|].
  change (pop_isolate (f :: g :: st)) with (if isolate f then g :: st else pop_isolate (g :: st)).
  destruct (isolate f); [by exists [f]|exists (f :: l)]. cbn [app]. by rewrite <- IH.
Qed.

Lemma pop_isolate_nonempty st : st ≠ [] → pop_isolate st ≠ [].
Proof using Type.
  induction st as [|f [|g st] IH]; [done|done|]. intros _.
  change (pop_isolate (f :: g :: st)) with (if isolate f then g :: st else pop_isolate (g :: st)).
  destruct (isolate f); [done|by apply IH].
Qed.

Lemma bounded_pop P b st :
  bounded P b → (∃ l, stack b = l ++ st) → st ≠ [] → bounded P (mkBidi (top_level st) st).
Proof using Type.
  intros [Hd Hl _] [l E] Hne. rewrite E, length_app in Hd. rewrite E in Hl.
  apply Forall_app in Hl as [_ Hl]. split; cbn [stack current]; [|done..]. destruct st; [done|]. cbn [length] in *. lia.
Qed.

Lemma bounded_push P b new iso :
  bounded P b → P new → 0 ≤ new → bounded P (push new iso b).
Proof using Type.
  intros Hb Hp Hn. unfold push. destruct ((maxBidiDepth <? new) || _) eqn:E; [done|].
  apply orb_false_iff in E as [E1%Z.ltb_ge E2%Z.leb_gt]. destruct Hb as [Hd Hl Hc].
  split; cbn [stack current length]; [lia| |done]. by constructor.
Qed.

(** The directions of the controls, in a property of levels they keep. *)
Definition keeps (P : Z → Prop) (rtl : bool) : Prop := ∀ l, 0 ≤ l → P l → P (next_level rtl l).

Lemma bounded_control P rest r b b' :
  bounded P b → control rest r b = Some b' →
  (∀ rtl, kind_of rest r = KEmbed rtl ∨ kind_of rest r = KIsolate rtl → keeps P rtl) →
  bounded P b'.
Proof using Type.
  intros Hb Hc Hk. rewrite control_kind in Hc.
  assert (Hcur : 0 ≤ current b ∧ P (current b)).
  { destruct Hb as [Hd Hl ->]. destruct (stack b) as [|f st]; [simpl in Hd; lia|].
    by apply Forall_cons in Hl as [[[? _] ?] _]. }
  pose proof (λ rtl, next_level_bound rtl (current b)) as Hnext.
  destruct (kind_of rest r) as [rtl|rtl| | |]; cbn [by_kind] in Hc; [..|done]; injection Hc as <-; unfold end_embed, end_isolate.
  1,2: apply bounded_push; [done|apply Hk; [first [by left|by right]|apply Hcur|apply Hcur]|specialize (Hnext rtl); lia].
  - destruct (stack b) as [|f [|g st]] eqn:Hs; [done..|]. destruct (isolate f); [done|].
    apply (bounded_pop P b); [done|rewrite Hs; by exists [f]|done].
  - destruct (hasIsolate (stack b)); [|done]. apply (bounded_pop P b); [done|apply pop_isolate_suffix|].
    apply pop_isolate_nonempty. destruct Hb as [Hd _ _]. intros E. rewrite E in Hd. simpl in Hd. lia.
Qed.

Lemma keeps_true rtl : keeps (λ _, True) rtl.
Proof using Type. done. Qed.

Lemma bounded_start (P : Z → Prop) : P 0 → bounded P start.
Proof using Type. intros. split; [by split|by repeat constructor|done]. Qed.

Lemma run_bounded src : ∀ b, bounded (λ _, True) b → bounded (λ _, True) (run b src).
Proof using Type.
  induction src as [|r rest IH]; intros b Hb; [done|]. cbn [run]. apply IH.
  destruct (control rest r b) as [b'|] eqn:Hc; [|done]. cbn [default id].
  eapply bounded_control; [exact Hb|exact Hc|]. intros. apply keeps_true.
Qed.

(** Every opener goes left to right. *)
Fixpoint no_rtl (src : list Z) : Prop :=
  match src with
  | [] => True
  | r :: rest => kind_of rest r ≠ KEmbed true ∧ kind_of rest r ≠ KIsolate true ∧ no_rtl rest
  end.

Definition even (l : Z) : Prop := l mod 2 = 0.

Lemma keeps_even : keeps even false.
Proof using Type.
  intros l Hl He. unfold next_level, nextEven, even in *. rewrite He. cbn [Z.eqb].
  rewrite Z.add_mod, He by lia. done.
Qed.

Lemma assign_bounded (P : Z → Prop) src : ∀ b,
  bounded P b → (no_rtl src ∧ keeps P false ∨ keeps P true ∧ keeps P false) →
  Forall (λ p, 0 ≤ p.2 ≤ maxBidiDepth ∧ P p.2) (assign b src).
Proof using Type.
  induction src as [|r rest IH]; intros b Hb Hk; [constructor|]. cbn [assign].
  assert (Hrest : no_rtl rest ∧ keeps P false ∨ keeps P true ∧ keeps P false).
  { destruct Hk as [[[_ [_ ?]] ?]|?]; [by left|by right]. }
  destruct (control rest r b) as [b'|] eqn:Hc.
  - apply IH; [|done]. eapply bounded_control; [exact Hb|exact Hc|].
    intros [|] Hr; [|by destruct Hk as [[_ ?]|[_ ?]]].
    destruct Hk as [[(H1 & H2 & _) _]|[? _]]; [|done]. by destruct Hr.
  - constructor; [|by apply IH]. destruct Hb as [Hd Hl Hcur]. cbn [snd]. rewrite Hcur.
    destruct (stack b) as [|f st]; [simpl in Hd; lia|]. by apply Forall_cons in Hl as [? _].
Qed.

(** ** Lines *)

Lemma split_lines_app x s : 10 ∉ x → split_lines (x ++ 10 :: s) = x :: split_lines s.
Proof using Type.
  induction x as [|b x IH]; intros Hn; [done|]. apply not_elem_of_cons in Hn as [Hb Hn].
  cbn [app split_lines]. rewrite (proj2 (Z.eqb_neq b 10)) by done. by rewrite IH.
Qed.

Lemma split_lines_one x : 10 ∉ x → split_lines x = [x].
Proof using Type.
  induction x as [|b x IH]; intros Hn; [done|]. apply not_elem_of_cons in Hn as [Hb Hn].
  cbn [split_lines]. rewrite (proj2 (Z.eqb_neq b 10)) by done. by rewrite IH.
Qed.

Lemma split_join ls : ls ≠ [] → Forall (λ l, 10 ∉ l) ls → split_lines (join_lines ls) = ls.
Proof using Type.
  induction ls as [|x [|y ls] IH]; intros Hne Hn; [done|..]; apply Forall_cons in Hn as [Hx Hn].
  - by apply split_lines_one.
  - change (join_lines (x :: y :: ls)) with (x ++ 10 :: join_lines (y :: ls)).
    rewrite split_lines_app, IH by done. done.
Qed.

Lemma encode_rune_newline r : 10 ∈ encode_rune r → r = 10.
Proof using Type.
  unfold encode_rune. destruct (scalar r) eqn:Hs.
  - destruct (Z.ltb_spec r 128) as [|H1]; [by intros <-%list_elem_of_singleton|].
    assert (0 ≤ r) by lia.
    destruct (r <? 2048), (r <? 65536); rewrite !elem_of_cons; intros Hin; exfalso;
      pose proof (Z.mod_pos_bound r 64); pose proof (Z.mod_pos_bound (r / 64) 64);
      pose proof (Z.mod_pos_bound (r / 4096) 64); pose proof (Z.div_pos r 64);
      pose proof (Z.div_pos r 4096); pose proof (Z.div_pos r 262144);
      repeat (destruct Hin as [Hin|Hin]; [lia|]); by apply elem_of_nil in Hin.
  - intros Hin. apply (bool_decide_pack _) in Hin. vm_compute in Hin. done.
Qed.

Lemma encode_newline rs : 10 ∉ rs → 10 ∉ encode rs.
Proof using Type.
  intros Hn Hin. unfold encode in Hin. apply list_elem_of_bind in Hin as (r & Hr & Hin).
  apply encode_rune_newline in Hr as ->. done.
Qed.

Lemma containsRune_at x r y : containsRune (x ++ encode_rune r ++ y) r = true.
Proof using Type.
  unfold containsRune. destruct (index _ _) eqn:Hi; [done|].
  rewrite index_none in Hi. specialize (Hi (length x)). rewrite length_app, drop_app_length in Hi.
  specialize (Hi ltac:(lia)).
  assert (is_prefix (encode_rune r) (encode_rune r ++ y) = true) by (apply is_prefix_spec; by exists y).
  congruence.
Qed.

Lemma runes_encode_scalar rs : Forall (λ r, scalar r = true) rs → runes (encode rs) = rs.
Proof using Type. intros Hs. by rewrite runes_encode, map_norm_scalar. Qed.

Lemma join_lines_around pre l post : ∃ x y, join_lines (pre ++ l :: post) = x ++ l ++ y.
Proof using Type.
  induction pre as [|p pre (x & y & IH)].
  - exists []. destruct post as [|q post]; [exists []; by rewrite app_nil_r|by eexists].
  - exists (p ++ 10 :: x), y. cbn [app].
    change (join_lines (p :: pre ++ l :: post)) with
      (match pre ++ l :: post with [] => p | _ => p ++ 10 :: join_lines (pre ++ l :: post) end).
    rewrite IH. destruct (pre ++ l :: post) eqn:E; [by destruct pre|]. by rewrite <- app_assoc.
Qed.

(** The view of a content by its lines. *)
Definition laid_out (l : bytes) : bytes := default l (reorderParagraph l).

Lemma reorder_lines ls o l out :
  Forall (λ l, 10 ∉ l) ls → o ∈ openers → l ∈ ls → reorderParagraph l = Some out →
  containsRune (join_lines ls) o = true →
  ReorderBidi (join_lines ls) = Some (join_lines (laid_out <$> ls)).
Proof using Type.
  intros Hnl Ho Hl Hout Hc. unfold ReorderBidi.
  assert (existsb (containsRune (join_lines ls)) openers = true) as ->.
  { apply existsb_exists. exists o. split; [by apply list_elem_of_In|done]. }
  cbn [negb]. rewrite split_join; [|by destruct ls; [apply elem_of_nil in Hl|]|done].
  assert (existsb (λ p : bytes * option bytes, match p.2 with Some _ => true | None => false end)
    ((λ line, (line, reorderParagraph line)) <$> ls) = true) as ->.
  { apply existsb_exists. exists (l, Some out). split; [|done]. apply list_elem_of_In, list_elem_of_fmap.
    exists l. by rewrite Hout. }
  by rewrite <- list_fmap_compose.
Qed.

Lemma laid_out_same ls : Forall (λ l, reorderParagraph l = None) ls → laid_out <$> ls = ls.
Proof using Type.
  induction 1 as [|l ls Hl Hls IH]; [done|]. rewrite fmap_cons, IH. unfold laid_out. by rewrite Hl.
Qed.

(** ** Claims *)

(** Laying a paragraph out moves text and nothing else, in bounded
    space.  What reorderParagraph returns is well-formed UTF-8 with exactly
    the runes of the paragraph that are not controls, each as often as it
    was; and after any prefix of any paragraph the stack holds between one
    and 125 frames and no level is past 125. *)
Theorem layout_only_moves para out :
  Forall is_byte para → reorderParagraph para = Some out →
  valid out = true ∧
  runes out ≡ₚ filter (λ r, is_control r = false) (runes para) ∧
  ∀ read unread, runes para = read ++ unread →
    (1 ≤ length (stack (run start read)) ≤ 125)%nat ∧
    Forall (λ f, 0 ≤ level f ≤ 125) (stack (run start read)).
Proof using Type.
  intros Hb Ho. unfold reorderParagraph in Ho. apply fmap_Some in Ho as (rs & Hrs & ->).
  apply reorder_perm in Hrs. pose proof (runes_scalar para Hb) as Hs.
  assert (Forall (λ r, scalar r = true) rs) as Hsc.
  { rewrite Hrs. apply Forall_forall. intros x [_ Hx]%list_elem_of_filter.
    rewrite Forall_forall in Hs. by apply Hs. }
  split_and!; [apply valid_encode|by rewrite runes_encode_scalar|].
  intros read unread _. destruct (run_bounded read start (bounded_start _ I)) as [Hd Hl _].
  unfold maxBidiDepth in *. split; [lia|]. eapply Forall_impl; [exact Hl|]. by intros f [? _].
Qed.

(** A line in which a reversed text is wrapped in a right-to-left control
    and its terminator. *)
Definition disguised (o c : Z) (before s after : list Z) : bytes :=
  encode (before ++ o :: rev s ++ c :: after).

(** A payload stored backwards is read forwards.  In any content, put a
    line in which some text stands reversed between a right-to-left
    embedding, override or isolate (a first-strong isolate included, when
    it resolves to right-to-left) and its terminator: in the view
    ReorderBidi builds that line holds the text in reading order, in place,
    and the lines that need no reordering are as they were. *)
Theorem reversed_text_is_read pre post o c before s after :
  Forall (λ l, 10 ∉ l) (pre ++ post) →
  Forall (λ l, reorderParagraph l = None) (pre ++ post) →
  plain before → plain s → plain after → s ≠ [] →
  Forall (λ r, scalar r = true ∧ r ≠ 10) (before ++ s ++ after) →
  wraps o c (rev s) after →
  ReorderBidi (join_lines (pre ++ disguised o c before s after :: post))
  = Some (join_lines (pre ++ encode (before ++ s ++ after) :: post)).
Proof using Type.
  intros Hnl Hsame Hb Hs Ha Hne Hsc Hw.
  assert (Hoc : is_opener o = true ∧ (c = runePDF ∨ c = runePDI)).
  { rewrite (opener_kind (rev s ++ c :: after)). destruct Hw as [[-> ?]|[-> ?]]; auto. }
  destruct Hoc as [Ho Hc].
  assert (Hos : scalar o = true ∧ o ≠ 10 ∧ o ∈ openers).
  { unfold is_opener in Ho. apply existsb_exists in Ho as (x & Hx & ->%Z.eqb_eq).
    apply list_elem_of_In in Hx. split_and!; [..|done]; unfold openers in Hx;
      repeat (apply elem_of_cons in Hx as [->|Hx]; [done|]); by apply elem_of_nil in Hx. }
  destruct Hos as (Hos & Ho10 & Hoin).
  assert (Hcs : scalar c = true ∧ c ≠ 10) by (by destruct Hc as [->| ->]).
  assert (Hline : Forall (λ r, scalar r = true ∧ r ≠ 10) (before ++ o :: rev s ++ c :: after)).
  { rewrite !Forall_app in *. rewrite !Forall_cons, Forall_app, Forall_cons.
    destruct Hsc as (? & Hss & ?). rewrite <- (Permutation_rev s). clear strong. tauto. }
  assert (Hlr : reorderParagraph (disguised o c before s after) = Some (encode (before ++ s ++ after))).
  { unfold reorderParagraph, disguised. rewrite runes_encode_scalar.
    - by rewrite (reorder_wrapped o c before s after).
    - eapply Forall_impl; [exact Hline|]. by intros r [? _]. }
  assert (Hln : 10 ∉ disguised o c before s after).
  { apply encode_newline. intros Hin. rewrite Forall_forall in Hline. by destruct (Hline 10 Hin). }
  apply Forall_app in Hnl as [Hn1 Hn2]. apply Forall_app in Hsame as [Hs1 Hs2].
  erewrite reorder_lines; [|apply Forall_app; split; [done|by constructor]|exact Hoin| |exact Hlr|].
  - rewrite fmap_app, fmap_cons, !laid_out_same by done. unfold laid_out. by rewrite Hlr.
  - apply elem_of_app. right. by left.
  - destruct (join_lines_around pre (disguised o c before s after) post) as (x & y & ->).
    unfold disguised, encode. rewrite bind_app, bind_cons.
    rewrite <- !app_assoc, (app_assoc x). apply containsRune_at.
Qed.

(** Text that runs left to right is left alone.  A paragraph whose
    embeddings, overrides and isolates all go left to right, whatever their
    nesting and depth, and a paragraph with no control at all, is never
    reordered, so that ordinary content costs no further pass. *)
Theorem left_to_right_untouched para :
  no_rtl (runes para) → reorderParagraph para = None.
Proof using Type.
  intros Hn. unfold reorderParagraph, reorder_runes.
  pose proof (assign_bounded even (runes para) start (bounded_start even eq_refl)
    (or_introl (conj Hn keeps_even))) as Hb.
  assert (Hodd : ∀ l p, Forall (λ q : Z * Z, 0 ≤ q.2 ≤ maxBidiDepth ∧ even q.2) l → p.2 = 127 → p.1 ≤ 125 →
    (foldl bound_step p l.*2).2 = 127 ∧ (foldl bound_step p l.*2).1 ≤ 125).
  { induction l as [|q l IH]; intros p Hl Hp Hp1; [done|]. apply Forall_cons in Hl as [[Hr He] Hl].
    rewrite fmap_cons. cbn [foldl]. unfold even, maxBidiDepth in *. apply IH; unfold bound_step; rewrite ?He; [done|done|].
    cbn [fst]. case_match; lia. }
  destruct (Hodd _ (0, maxBidiDepth + 2) Hb eq_refl ltac:(done)) as [H1 H2].
  unfold level_bounds. destruct (foldl _ _ _) as [hi odd]. cbn [fst snd] in H1, H2. subst odd.
  by rewrite (proj2 (Z.ltb_lt hi 127)), orb_true_r by lia.
Qed.

(** Where the code leaves the annex.  An override past the depth is not
    pushed, and not counted either, so that the terminator that belongs to
    it ends another one: after 64 overrides and 63 terminators the annex
    still has one override open and lays the text out backwards, while the
    code has none and reports a paragraph that needs no reordering. *)
Definition overflowed (s : list Z) : list Z :=
  replicate 64 runeRLO ++ replicate 63 runePDF ++ s.

Lemma uax_plain s u : plain s → (uax_assign u s).*2 = ((λ _, u_level u) <$> s).
Proof.
  induction s as [|r s IH]; intros Hs; [done|]. apply Forall_cons in Hs as [Hr Hs].
  cbn [uax_assign]. rewrite uax_control_kind by (left; by intros ->). rewrite (kind_text s) in Hr.
  destruct (kind_of s r); try done. cbn [u_by_kind]. by rewrite !fmap_cons, IH.
Qed.

Lemma plain_levels s b : plain s → (assign b s).*2 = ((λ _, current b) <$> s).
Proof using Type.
  intros Hs. rewrite <- (app_nil_r s) at 1. rewrite assign_plain, app_nil_r by done.
  by rewrite <- list_fmap_compose.
Qed.

Theorem overflow_hides_reversal s :
  plain s →
  (uax_assign u_start (overflowed s)).*2 = ((λ _, 1) <$> s) ∧
  (assign start (overflowed s)).*2 = ((λ _, 0) <$> s) ∧
  reorder_runes (overflowed s) = None.
Proof.
  intros Hs.
  assert (Hu : uax_assign u_start (overflowed s) = uax_assign (mkUax [mkFrame 1 false; mkFrame 0 false] 0 0 0) s)
    by reflexivity.
  assert (Ha : assign start (overflowed s) = assign start s) by reflexivity.
  rewrite Hu, uax_plain, Ha, plain_levels by done. split_and!; [done|done|].
  unfold reorder_runes. rewrite Ha, plain_levels by done. unfold level_bounds. rewrite bounds_const.
  by destruct s.
Qed.

(** A mark of direction is strong, and no letter: an isolate that begins
    with a right-to-left mark (U+200F, class R) is right to left in the
    annex and left to right in the code, when a letter follows. *)
Lemma text_initiates r : is_control r = false → initiates r = false ∧ r ≠ runePDI.
Proof.
  unfold is_control, is_opener, openers, initiates. cbn [existsb]. rewrite !orb_false_iff, <- Z.eqb_neq. tauto.
Qed.

Definition runeRLM : Z := 8207.
Definition marked (l : Z) (s : list Z) : list Z := runeFSI :: runeRLM :: l :: s.

Theorem mark_is_not_seen l s :
  strong runeRLM = Some RightToLeft → strong_in_code runeRLM = None → strong_in_code l = Some LeftToRight →
  is_control l = false → plain s →
  (uax_assign u_start (marked l s)).*2 = ((λ _, 1) <$> runeRLM :: l :: s) ∧
  (assign start (marked l s)).*2 = ((λ _, 2) <$> runeRLM :: l :: s).
Proof.
  intros Hm Hc Hl Hctl Hs.
  assert (Hp : plain (runeRLM :: l :: s)) by by repeat constructor.
  assert (Hpdi : matching_pdi 1 (runeRLM :: l :: s) = None).
  { assert (Hgen : ∀ t, plain t → matching_pdi 1 t = None); [|by apply Hgen].
    induction t as [|r t IH]; intros Ht; [done|]. apply Forall_cons in Ht as [[Hr Hn%Z.eqb_neq]%text_initiates Ht].
    cbn [matching_pdi]. by rewrite Hr, Hn, IH. }
  assert (Hu : fsi_is_rtl (runeRLM :: l :: s) = true).
  { unfold fsi_is_rtl, isolated. rewrite Hpdi. cbn [length first_strong]. change (initiates runeRLM) with false. cbn iota. by rewrite Hm. }
  assert (Hi : initiates l = false ∧ l ≠ runePDI).
  { by apply text_initiates. }
  assert (Hcode : firstStrongIsRTL (runeRLM :: l :: s) = false).
  { unfold firstStrongIsRTL. cbn [strong_loop]. change ((runeRLM =? runeLRI) || _ || _) with false. change (runeRLM =? runePDI) with false.
    change (0 <? 0) with false. cbn iota. unfold strong_in_code in Hc, Hl.
    destruct (existsb _ rtl_scripts); [done|]. destruct (IsLetter runeRLM); [done|]. fold (initiates l).
    destruct Hi as [-> Hn]. rewrite (proj2 (Z.eqb_neq _ _) Hn).
    destruct (existsb (λ t, Is t l) rtl_scripts); [done|]. by destruct (IsLetter l). }
  split.
  - change (uax_assign u_start (marked l s)) with
      (uax_assign (u_isolate (if fsi_is_rtl (runeRLM :: l :: s) then 1 else 2) u_start) (runeRLM :: l :: s)).
    by rewrite Hu, uax_plain.
  - change (assign start (marked l s)) with
      (assign (if firstStrongIsRTL (runeRLM :: l :: s) then push 1 true start else push 2 true start) (runeRLM :: l :: s)).
    by rewrite Hcode, plain_levels.
Qed.
End scripts.

(** ** Witnesses *)

Lemma layout_only_moves_witness :
  valid (encode [97; 98]) = true ∧ runes (encode [97; 98]) ≡ₚ [98; 97].
Proof.
  destruct (layout_only_moves [] (λ _, false) (encode [runeRLO; 98; 97; runePDF]) (encode [97; 98]))
    as (H1 & H2 & _); [|vm_compute; done|].
  - unfold is_byte. apply (bool_decide_unpack _). vm_compute. done.
  - split; [exact H1|]. rewrite H2. vm_compute. done.
Defined.

(** "a", then "erongi" in an override, between two other lines. *)
Lemma reversed_text_is_read_witness :
  ReorderBidi [] (λ _, false)
    (join_lines ([[104; 105]] ++ disguised runeRLO runePDF [97] [105; 103; 110; 111; 114; 101] [] :: [[]]))
  = Some (join_lines ([[104; 105]] ++ encode ([97] ++ [105; 103; 110; 111; 114; 101] ++ []) :: [[]])).
Proof.
  apply reversed_text_is_read.
  - apply (bool_decide_unpack _). vm_compute. done.
  - repeat constructor.
  - repeat constructor.
  - repeat constructor.
  - constructor.
  - done.
  - apply (bool_decide_unpack _). vm_compute. done.
  - left. split; reflexivity.
Defined.

Lemma left_to_right_untouched_witness :
  reorderParagraph [] (λ _, false) (encode [runeLRO; 97; runeLRI; 98; runePDI]) = None.
Proof. apply left_to_right_untouched. vm_compute. split_and!; done. Defined.

(** An isolate whose direction its first strong letter decides, over a nested
    isolate; 1488 is a letter of a right-to-left script. *)
Definition ex_letters : Z → bool := λ r, (97 <=? r) && (r <=? 122).
Definition ex_hebrew : list RangeTable := [mkTable [mkRange16 1488 1514 1] [] 0].
Definition ex_strong (r : Z) : option direction :=
  if (1488 <=? r) && (r <=? 1514) then Some RightToLeft else if ex_letters r then Some LeftToRight else None.

Lemma levels_are_the_annex_witness :
  let src := [runeFSI; runeLRI; 97; runePDI; 1488; runeLRE; 98; runePDI; 99] in
  assign ex_hebrew ex_letters start src = uax_assign ex_strong u_start src ∧
  (assign ex_hebrew ex_letters start src).*2 = [2; 1; 2; 0].
Proof.
  cbv zeta. split; [|vm_compute; reflexivity]. apply levels_are_the_annex; [vm_compute; lia|].
  intros r Hr _ _. repeat (apply elem_of_cons in Hr as [->|Hr]; [vm_compute; reflexivity|]). by apply elem_of_nil in Hr.
Defined.
