(* ===== verification/EFold.v ===== *)
(** internal/engine/confusables.go: letters that impersonate ASCII ones.

    norm.NFD and the table unicode.Mn are parameters. *)
From S2P Require Import Prelude GoStrings Utf8 EInvisible.
Local Open Scope Z_scope.

(** The entries of the table, in the order of the source. *)
Definition confusable_entries : list (Z * Z) :=
  [(1040, 65); (1042, 66); (1045, 69); (1050, 75); (1052, 77); (1053, 72);
   (1054, 79); (1056, 80); (1057, 67); (1058, 84); (1059, 89); (1061, 88);
   (1030, 73); (1032, 74); (1029, 83); (1072, 97); (1077, 101); (1086, 111);
   (1088, 112); (1089, 99); (1091, 121); (1093, 120); (1084, 109); (1090, 116);
   (1110, 105); (1112, 106); (1109, 115); (1211, 104); (1231, 108); (1281, 100);
   (1307, 113); (1309, 119); (1085, 104); (1074, 98); (913, 65); (914, 66);
   (917, 69); (918, 90); (919, 72); (921, 73); (922, 75); (924, 77);
   (925, 78); (927, 79); (929, 80); (932, 84); (933, 89); (935, 88);
   (945, 97); (949, 101); (953, 105); (954, 107); (959, 111); (961, 112);
   (964, 116); (957, 118); (947, 121); (965, 117); (1413, 111); (1400, 110);
   (1405, 115); (1379, 113); (5034, 65); (5035, 66); (5039, 67); (5024, 68);
   (5036, 69); (5043, 87); (5051, 71); (5056, 86); (305, 105); (593, 97);
   (609, 103); (618, 73); (448, 108); (11365, 97); (592, 97); (8260, 47);
   (8725, 47)].

Definition confusables : gmap Z Z := list_to_map confusable_entries.

Definition isASCII (content : bytes) : bool := forallb (λ b, b <? 128) content.

Section fold.
Context (NFD : bytes → bytes) (Mn : RangeTable).

(** The loop: what is written to the buffer, and changed. *)
Fixpoint fold_loop (rs : list Z) : bytes * bool :=
  match rs with
  | [] => ([], false)
  | r :: rest =>
      let '(buf, changed) := fold_loop rest in
      if Is Mn r then (buf, true)
      else match confusables !! r with
           | Some folded => (encode_rune folded ++ buf, true)
           | None => (encode_rune r ++ buf, changed)
           end
  end.

Definition FoldConfusables (content : bytes) : option bytes :=
  if isASCII content then None
  else
    let '(buf, changed) := fold_loop (runes (NFD content)) in
    if negb changed && bool_decide (buf = content) then None else Some buf.

(** ** Lemmas *)

(** The runes that are written. *)
Definition folded_rune (r : Z) : list Z :=
  if Is Mn r then [] else [default r (confusables !! r)].

Definition disguise (r : Z) : bool := Is Mn r || bool_decide (is_Some (confusables !! r)).

Lemma fold_loop_spec rs :
  fold_loop rs = (encode (rs ≫= folded_rune), existsb disguise rs).
Proof.
  induction rs as [|r rs IH]; [done|]. cbn [fold_loop existsb]. rewrite IH, bind_cons.
  unfold encode. rewrite bind_app. unfold disguise.
  change (folded_rune r) with (if Is Mn r then [] else [default r (confusables !! r)]).
  destruct (Is Mn r); [done|].
  destruct (confusables !! r) as [c|] eqn:Hc; cbn [default id].
  - rewrite bind_singleton, bool_decide_eq_true_2; [done|by eexists].
  - rewrite bind_singleton, bool_decide_eq_false_2; [done|by intros [? ?]].
Qed.

Definition entry_ok (p : Z * Z) : bool :=
  (128 <=? p.1) && within 33 126 p.2 && bool_decide (confusables !! p.1 = Some p.2).

Lemma entries_ok : forallb entry_ok confusable_entries = true.
Proof. vm_compute. reflexivity. Qed.

Lemma entry_spec r c :
  confusables !! r = Some c → 128 ≤ r ∧ 33 ≤ c ≤ 126.
Proof.
  intros Hc. apply elem_of_list_to_map_2 in Hc. pose proof entries_ok as H. rewrite forallb_forall in H.
  apply list_elem_of_In in Hc. specialize (H _ Hc). unfold entry_ok in H. cbn [fst snd] in H.
  apply andb_true_iff in H as [[H1 H2%within_spec]%andb_true_iff _]. apply Z.leb_le in H1. done.
Qed.

Lemma ascii_not_confusable r : r < 128 → confusables !! r = None.
Proof. intros Hr. destruct (confusables !! r) eqn:E; [apply entry_spec in E; lia|done]. Qed.

Lemma encode_ascii_list t : Forall (λ c, 0 ≤ c < 128) t → encode t = t.
Proof.
  unfold encode. induction 1 as [|c t Hc Ht IH]; [done|]. rewrite bind_cons, IH. unfold encode_rune, scalar.
  rewrite (proj2 (within_spec 0 55295 c)) by lia. cbn [orb]. by rewrite (proj2 (Z.ltb_lt c 128)) by lia.
Qed.

(** ** What a reader reads *)

(** The runes [rs] spell the text [t]: each letter as itself or as a letter
    that impersonates it, with combining marks anywhere. *)
Inductive spells : list Z → list Z → Prop :=
| spells_nil : spells [] []
| spells_mark r rs t : Is Mn r = true → spells rs t → spells (r :: rs) t
| spells_self c rs t : 0 ≤ c < 128 → Is Mn c = false → spells rs t → spells (c :: rs) (c :: t)
| spells_lookalike r c rs t :
    (r, c) ∈ confusable_entries → Is Mn r = false → spells rs t → spells (r :: rs) (c :: t).

Lemma entry_lookup r c : (r, c) ∈ confusable_entries → confusables !! r = Some c.
Proof.
  intros Hin. pose proof entries_ok as H. rewrite forallb_forall in H. apply list_elem_of_In in Hin.
  specialize (H _ Hin). unfold entry_ok in H. apply andb_true_iff in H as [_ H]. by apply bool_decide_eq_true_1 in H.
Qed.

Lemma spells_folded rs t :
  spells rs t → rs ≫= folded_rune = t ∧ Forall (λ c, 0 ≤ c < 128) t.
Proof.
  induction 1 as [|r rs t Hm _ [IH ?]|c rs t Hc Hm _ [IH ?]|r c rs t He Hm _ [IH ?]]; [done|..];
    rewrite bind_cons, IH; unfold folded_rune; rewrite Hm.
  - done.
  - rewrite ascii_not_confusable by lia. split; [done|by constructor].
  - pose proof (entry_lookup _ _ He) as Hl. rewrite Hl. split; [done|].
    apply entry_spec in Hl as [_ ?]. constructor; [lia|done].
Qed.

Lemma lookalikes_read content t :
  isASCII content = false → spells (runes (NFD content)) t → FoldConfusables content = Some t.
Proof.
  intros Hna Hs. unfold FoldConfusables. rewrite fold_loop_spec, Hna. apply spells_folded in Hs as [-> Ht].
  rewrite (encode_ascii_list _ Ht).
  destruct (negb _ && _) eqn:Hn; [|done]. apply andb_true_iff in Hn as [_ Hn%bool_decide_eq_true_1].
  exfalso. subst t. rewrite <- not_true_iff_false in Hna. apply Hna. apply forallb_forall.
  intros b Hb%list_elem_of_In. rewrite Forall_forall in Ht. apply Z.ltb_lt. by apply Ht.
Qed.

(** Look-alike letters do not hide a text.  When the decomposed content
    spells an ASCII text, each letter written as itself or as any letter
    the table says impersonates it, with combining marks stacked anywhere,
    the folded view is that text; and when there is no folded view, the
    content is plain ASCII or holds no mark and no look-alike at all. *)
Theorem disguise_is_read content :
  (∀ t, isASCII content = false → spells (runes (NFD content)) t → FoldConfusables content = Some t) ∧
  (FoldConfusables content = None →
     isASCII content = true ∨ existsb disguise (runes (NFD content)) = false).
Proof.
  split; [apply lookalikes_read|]. unfold FoldConfusables. rewrite fold_loop_spec.
  destruct (isASCII content); [by left|]. destruct (existsb _ _); [done|by right].
Qed.
End fold.

(** "ignore" with a Cyrillic o and e, and a mark on the n. *)
Lemma disguise_is_read_witness :
  let mark := tableFromRunes [775] (λ _, true) in
  FoldConfusables id mark (encode [105; 103; 110; 775; 1086; 114; 1077]) = Some [105; 103; 110; 111; 114; 101].
Proof.
  cbv zeta. apply disguise_is_read; [reflexivity|].
  change (runes _) with [105; 103; 110; 775; 1086; 114; 1077].
  apply spells_self; [lia|reflexivity|]. apply spells_self; [lia|reflexivity|].
  apply spells_self; [lia|reflexivity|]. apply spells_mark; [reflexivity|].
  apply spells_lookalike; [apply (bool_decide_unpack _); vm_compute; done|reflexivity|].
  apply spells_self; [lia|reflexivity|].
  apply spells_lookalike; [apply (bool_decide_unpack _); vm_compute; done|reflexivity|].
  constructor.
Defined.
