(* ===== verification/EDecode.v ===== *)
(** internal/engine/decode.go: text recovered from encoded payloads.

    The four regular expressions are modelled by the runs they match, and
    base64 and hex decoding by the standard library's decoders on such runs
    (which hold no line break).  NFKC, StripInvisible on the unicode tables
    and unicode.IsPrint are parameters. *)
From S2P Require Import Prelude GoStrings GoFloat Utf8 EMatch EUnescape.
Local Open Scope Z_scope.

Definition maxDecodedBytes : Z := 1048576.
Definition maxDecodeDepth : nat := 2.
Definition minDecodedLen : nat := 8.
Definition printableRatio : spec_float := fquot 8 10.

(** ** The runs the regular expressions match *)

Definition alnum (b : Z) : bool := within 48 57 b || within 65 90 b || within 97 122 b.
Definition std_symbol (b : Z) : bool := alnum b || (b =? 43) || (b =? 47).
Definition url_symbol (b : Z) : bool := alnum b || (b =? 45) || (b =? 95).
Definition hex_symbol (b : Z) : bool := match hexNibble b with Some _ => true | None => false end.

(** The padding after a run: at most [n] equals signs. *)
Fixpoint padding (n : nat) (s : bytes) : bytes :=
  match n, s with
  | S k, b :: r => if b =? 61 then b :: padding k r else []
  | _, _ => []
  end.

(** [alpha]{min,}={0,2}; [acc] is the run being read, reversed. *)
Definition emit_run (min : nat) (acc s : bytes) : list bytes :=
  if (min <=? length acc)%nat then [rev acc ++ padding 2 s] else [].

Fixpoint symbol_runs (alpha : Z → bool) (min : nat) (acc s : bytes) : list bytes :=
  match s with
  | [] => emit_run min acc []
  | b :: r =>
      if alpha b then symbol_runs alpha min (b :: acc) r
      else emit_run min acc s ++ symbol_runs alpha min [] r
  end.

Definition base64Run : bytes → list bytes := symbol_runs std_symbol 16 [].
Definition base64URL : bytes → list bytes := symbol_runs url_symbol 16 [].

(** Pairs of digits, sixteen or more. *)
Definition emit_pairs (acc : bytes) : list bytes :=
  let n := (length acc / 2)%nat in
  if (16 <=? n)%nat then [take (2 * n) (rev acc)] else [].

Fixpoint hex_runs (acc s : bytes) : list bytes :=
  match s with
  | [] => emit_pairs acc
  | b :: r => if hex_symbol b then hex_runs (b :: acc) r else emit_pairs acc ++ hex_runs [] r
  end.

Definition hexRun : bytes → list bytes := hex_runs [].

(** One escape or more; [skip] bytes of an escape are still to be read. *)
Definition emit_escapes (acc : bytes) : list bytes :=
  match acc with [] => [] | _ => [rev acc] end.

Fixpoint percent_runs (skip : nat) (acc s : bytes) : list bytes :=
  match s with
  | [] => emit_escapes acc
  | b :: r =>
      match skip with
      | S n => percent_runs n (b :: acc) r
      | O =>
          match percent_at s with
          | Some _ => percent_runs 2 (b :: acc) r
          | None => emit_escapes acc ++ percent_runs 0 [] r
          end
      end
  end.

Definition percentRun : bytes → list bytes := percent_runs 0 [].

(** ** Decoding *)

(** The value of a symbol in the standard and in the URL alphabet. *)
Definition sextet (c62 c63 : Z) (b : Z) : option Z :=
  if within 65 90 b then Some (b - 65)
  else if within 97 122 b then Some (b - 97 + 26)
  else if within 48 57 b then Some (b - 48 + 52)
  else if b =? c62 then Some 62
  else if b =? c63 then Some 63
  else None.

Definition std_value : Z → option Z := sextet 43 47.
Definition url_value : Z → option Z := sextet 45 95.

Definition byte1 (a b : Z) : Z := Z.lor (Z.shiftl a 2) (Z.shiftr b 4).
Definition byte2 (b c : Z) : Z := Z.lor (Z.land (Z.shiftl b 4) 255) (Z.shiftr c 2).
Definition byte3 (c d : Z) : Z := Z.lor (Z.land (Z.shiftl c 6) 255) d.

(** Encoding.Decode, not strict, with [padded] for a padding character. *)
Fixpoint decode64 (value : Z → option Z) (padded : bool) (s : bytes) : option bytes :=
  match s with
  | [] => Some []
  | x :: y :: r =>
      match value x, value y with
      | Some a, Some b =>
          match r with
          | [] => if padded then None else Some [byte1 a b]
          | z :: r' =>
              match value z with
              | None =>
                  if padded && (z =? 61) && bool_decide (r' = [61]) then Some [byte1 a b] else None
              | Some c =>
                  match r' with
                  | [] => if padded then None else Some [byte1 a b; byte2 b c]
                  | w :: r'' =>
                      match value w with
                      | None =>
                          if padded && (w =? 61) && bool_decide (r'' = []) then Some [byte1 a b; byte2 b c] else None
                      | Some d => (λ rest, byte1 a b :: byte2 b c :: byte3 c d :: rest) <$> decode64 value padded r''
                      end
                  end
              end
          end
      | _, _ => None
      end
  | _ => None
  end.

(** hex.Decode. *)
Fixpoint decode_hex (s : bytes) : option bytes :=
  match s with
  | [] => Some []
  | h :: l :: r =>
      match hexNibble h, hexNibble l with
      | Some a, Some b => (Z.lor (Z.shiftl a 4) b ::.) <$> decode_hex r
      | _, _ => None
      end
  | [_] => None
  end.

Section decode.
Context (NFKC : bytes → bytes) (strip : bytes → bytes) (IsPrint : Z → bool).

Definition is_shown (r : Z) : bool := (r =? 10) || (r =? 13) || (r =? 9) || IsPrint r.

Definition isLikelyText (data : bytes) : bool :=
  if (length data <? minDecodedLen)%nat then false
  else if negb (valid data) then false
  else
    let rs := runes data in
    let total := Z.of_nat (length rs) in
    let printable := Z.of_nat (length (filter (λ r, is_shown r = true) rs)) in
    if total =? 0 then false else fge (fquot printable total) printableRatio.

(** Whichever of the encodings decodes the run to text. *)
Fixpoint tryBase64 (value : Z → option Z) (run : bytes) (encs : list bool) : option bytes :=
  match encs with
  | [] => None
  | padded :: rest =>
      match decode64 value padded run with
      | Some d => if isLikelyText d then Some d else tryBase64 value run rest
      | None => tryBase64 value run rest
      end
  end.

(** The bytes of the escapes of a run. *)
Fixpoint escaped_bytes (run : bytes) : option bytes :=
  match run with
  | _ :: h :: l :: r =>
      match hexNibble h, hexNibble l with
      | Some a, Some b => (Z.lor (Z.shiftl a 4) b ::.) <$> escaped_bytes r
      | _, _ => None
      end
  | _ => Some []
  end.

Definition tryPercent (run : bytes) : option bytes :=
  match escaped_bytes run with
  | Some d => if isLikelyText d then Some d else None
  | None => None
  end.

Definition try_hex (run : bytes) : option bytes :=
  match decode_hex run with
  | Some d => if isLikelyText d then Some d else None
  | None => None
  end.

Definition decodeCandidates (content : bytes) : list bytes :=
  omap (λ m, tryBase64 std_value m [true; false]) (base64Run content) ++
  omap (λ m, if existsb (λ b, (b =? 45) || (b =? 95)) m
             then tryBase64 url_value m [true; false] else None) (base64URL content) ++
  omap try_hex (hexRun content) ++
  omap tryPercent (percentRun content).

(** A decoded run as it is scanned. *)
Definition cleaned (decoded : bytes) : bytes := strip (NFKC decoded).

(** The loop over the candidates; [again] is the call one level deeper. *)
Fixpoint extract_loop (again : bytes → bytes → bytes) (found : list bytes) (out : bytes) : bytes :=
  match found with
  | [] => out
  | f :: rest =>
      let decoded := cleaned f in
      if (length decoded =? 0)%nat then extract_loop again rest out
      else
        let remaining := maxDecodedBytes - Z.of_nat (length out) in
        if remaining <=? 0 then out
        else
          let decoded := if remaining <? Z.of_nat (length decoded)
                         then take (Z.to_nat remaining) decoded else decoded in
          extract_loop again rest (again (out ++ decoded ++ [10]) decoded)
  end.

(** [levels] is maxDecodeDepth - depth. *)
Fixpoint extractInto (levels : nat) (out content : bytes) : bytes :=
  match levels with
  | O => out
  | S k =>
      if maxDecodedBytes <=? Z.of_nat (length out) then out
      else extract_loop (extractInto k) (decodeCandidates content) out
  end.

Definition ExtractDecoded (content : bytes) : option bytes :=
  let out := extractInto maxDecodeDepth [] content in
  if (length out =? 0)%nat then None else Some out.
End decode.

(** ** Base64 written by an encoder *)

Definition symbol (v : Z) : Z :=
  if v <? 26 then 65 + v else if v <? 52 then 97 + (v - 26) else if v <? 62 then 48 + (v - 52)
  else if v =? 62 then 43 else 47.

Fixpoint encode64 (p : bytes) : bytes :=
  match p with
  | [] => []
  | [a] => [symbol (a / 4); symbol (a mod 4 * 16); 61; 61]
  | [a; b] => [symbol (a / 4); symbol (a mod 4 * 16 + b / 16); symbol (b mod 16 * 4); 61]
  | a :: b :: c :: r =>
      symbol (a / 4) :: symbol (a mod 4 * 16 + b / 16) :: symbol (b mod 16 * 4 + c / 64)
        :: symbol (c mod 64) :: encode64 r
  end.

Lemma bytes_ind3 (P : bytes → Prop) :
  P [] → (∀ a, P [a]) → (∀ a b, P [a; b]) → (∀ a b c r, P r → P (a :: b :: c :: r)) → ∀ p, P p.
Proof.
  intros H0 H1 H2 H3 p. cut (P p ∧ (∀ a, P (a :: p)) ∧ (∀ a b, P (a :: b :: p))); [tauto|].
  induction p as [|x p (IH0 & IH1 & IH2)]; split_and!; auto.
Qed.

Lemma symbol_check :
  forallb (λ v, bool_decide (std_value (symbol (Z.of_nat v)) = Some (Z.of_nat v))
    && std_symbol (symbol (Z.of_nat v))) (seq 0 64) = true.
Proof. vm_compute. reflexivity. Qed.

Lemma symbol_value v : 0 ≤ v < 64 → std_value (symbol v) = Some v ∧ std_symbol (symbol v) = true.
Proof.
  intros Hv. pose proof (check_below_Z (λ v, bool_decide (std_value (symbol v) = Some v) && std_symbol (symbol v))
    64 symbol_check v ltac:(lia)) as H.
  apply andb_true_iff in H as [H%bool_decide_eq_true_1 ?]. done.
Qed.

(** Bits of a byte split and put together. *)
Definition join13_ok (a b : Z) : bool :=
  (byte1 (a / 4) (a mod 4 * 16 + b / 16) =? a) && (byte3 (a mod 16 * 4 + b / 64) (b mod 64) =? b).
Definition join2_ok (b k : Z) : bool := byte2 (k / 4 * 16 + b / 16) (b mod 16 * 4 + k mod 4) =? b.

Definition check2 (f : Z → Z → bool) (n m : nat) : bool :=
  forallb (λ i, forallb (λ j, f (Z.of_nat i) (Z.of_nat j)) (seq 0 m)) (seq 0 n).

Lemma check2_at f n m a b :
  check2 f n m = true → 0 ≤ a < Z.of_nat n → 0 ≤ b < Z.of_nat m → f a b = true.
Proof.
  unfold check2. intros H Ha Hb. rewrite forallb_forall in H.
  specialize (H (Z.to_nat a) ltac:(apply in_seq; lia)). rewrite forallb_forall in H.
  specialize (H (Z.to_nat b) ltac:(apply in_seq; lia)). by rewrite !Z2Nat.id in H by lia.
Qed.

Lemma join13_checked : check2 join13_ok 256 256 = true.
Proof. vm_compute. reflexivity. Qed.

Lemma join2_checked : check2 join2_ok 256 16 = true.
Proof. vm_compute. reflexivity. Qed.

Lemma join13 a b : is_byte a → is_byte b →
  byte1 (a / 4) (a mod 4 * 16 + b / 16) = a ∧ byte3 (a mod 16 * 4 + b / 64) (b mod 64) = b.
Proof.
  intros Ha Hb. pose proof (check2_at _ _ _ a b join13_checked Ha Hb) as H.
  by apply andb_true_iff in H as [?%Z.eqb_eq ?%Z.eqb_eq].
Qed.

Lemma join2 a b c : is_byte b → 0 ≤ a < 4 → 0 ≤ c < 4 → byte2 (a * 16 + b / 16) (b mod 16 * 4 + c) = b.
Proof.
  intros Hb Ha Hc. pose proof (check2_at _ _ _ b (a * 4 + c) join2_checked Hb ltac:(lia)) as H.
  apply Z.eqb_eq in H. rewrite Z.div_add_l, (Z.div_small c), Z.add_0_r in H by lia.
  by rewrite (Z.add_comm (a * 4)), Z.mod_add, (Z.mod_small c) in H by lia.
Qed.

(** The sextets of bytes. *)
Lemma sextet_ranges a b : is_byte a → is_byte b →
  0 ≤ a / 4 < 64 ∧ 0 ≤ a mod 4 * 16 + b / 16 < 64 ∧ 0 ≤ a mod 16 * 4 + b / 64 < 64 ∧
  0 ≤ a mod 4 < 4 ∧ 0 ≤ b / 64 < 4 ∧ 0 ≤ b mod 64 < 64.
Proof.
  unfold is_byte. intros Ha Hb.
  assert (0 ≤ a / 4 < 64) by (split; [apply Z.div_pos|apply Z.div_lt_upper_bound]; lia).
  assert (0 ≤ b / 16 < 16) by (split; [apply Z.div_pos|apply Z.div_lt_upper_bound]; lia).
  assert (0 ≤ b / 64 < 4) by (split; [apply Z.div_pos|apply Z.div_lt_upper_bound]; lia).
  pose proof (Z.mod_pos_bound a 4). pose proof (Z.mod_pos_bound a 16). pose proof (Z.mod_pos_bound b 64). lia.
Qed.

Lemma decode64_encode p : Forall is_byte p → decode64 std_value true (encode64 p) = Some p.
Proof.
  induction p as [|a|a b|a b c r IH] using bytes_ind3; intros Hp; [done|..];
    repeat match goal with H : Forall is_byte (_ :: _) |- _ => apply Forall_cons in H as [? H] end;
    assert (Hz : is_byte 0) by (unfold is_byte; lia).
  - destruct (sextet_ranges a 0) as (R1 & R2 & _); [done..|]. change (0 / 16) with 0 in R2. rewrite Z.add_0_r in R2.
    destruct (join13 a 0) as [J _]; [done..|]. change (0 / 16) with 0 in J. rewrite Z.add_0_r in J.
    cbn [encode64 decode64]. rewrite (proj1 (symbol_value _ R1)), (proj1 (symbol_value _ R2)).
    cbn. by rewrite J.
  - destruct (sextet_ranges a b) as (R1 & R2 & _ & R4 & _); [done..|].
    destruct (sextet_ranges b 0) as (_ & _ & R3 & _); [done..|]. change (0 / 64) with 0 in R3.
    destruct (join13 a b) as [J _]; [done..|]. pose proof (join2 (a mod 4) b 0 ltac:(done) R4 ltac:(lia)) as J2.
    rewrite Z.add_0_r in R3, J2.
    cbn [encode64 decode64]. rewrite (proj1 (symbol_value _ R1)), (proj1 (symbol_value _ R2)), (proj1 (symbol_value _ R3)).
    cbn. by rewrite J, J2.
  - destruct (sextet_ranges a b) as (R1 & R2 & _ & R4 & _); [done..|].
    destruct (sextet_ranges b c) as (_ & _ & R3 & _ & R5 & R6); [done..|].
    destruct (join13 a b) as [J1 _]; [done..|]. destruct (join13 b c) as [_ J3]; [done..|].
    pose proof (join2 (a mod 4) b (c / 64) ltac:(done) R4 R5) as J2.
    cbn [encode64 decode64]. rewrite (proj1 (symbol_value _ R1)), (proj1 (symbol_value _ R2)), (proj1 (symbol_value _ R3)),
      (proj1 (symbol_value _ R6)), IH by done. cbn. by rewrite J1, J2, J3.
Qed.

Lemma encode64_shape p :
  Forall is_byte p →
  ∃ w pad, encode64 p = w ++ pad ∧ Forall (λ b, std_symbol b = true) w ∧
    pad ∈ [[]; [61]; [61; 61]] ∧ (4 * length p ≤ 3 * length w)%nat.
Proof.
  assert (Hz : is_byte 0) by (unfold is_byte; lia).
  induction p as [|a|a b|a b c r IH] using bytes_ind3; intros Hp;
    repeat match goal with H : Forall is_byte (_ :: _) |- _ => apply Forall_cons in H as [? H] end.
  - exists [], []. split_and!; [done|constructor|by left|done].
  - destruct (sextet_ranges a 0) as (R1 & R2 & _); [done..|]. change (0 / 16) with 0 in R2. rewrite Z.add_0_r in R2.
    exists [symbol (a / 4); symbol (a mod 4 * 16)], [61; 61].
    split_and!; [done| |by right; right; left|simpl; lia].
    repeat (constructor; [by apply symbol_value|]). constructor.
  - destruct (sextet_ranges a b) as (R1 & R2 & _); [done..|].
    destruct (sextet_ranges b 0) as (_ & _ & R3 & _); [done..|]. change (0 / 64) with 0 in R3. rewrite Z.add_0_r in R3.
    exists [symbol (a / 4); symbol (a mod 4 * 16 + b / 16); symbol (b mod 16 * 4)], [61].
    split_and!; [done| |by right; left|simpl; lia].
    repeat (constructor; [by apply symbol_value|]). constructor.
  - destruct (sextet_ranges a b) as (R1 & R2 & _); [done..|].
    destruct (sextet_ranges b c) as (_ & _ & R3 & _ & _ & R6); [done..|].
    destruct IH as (w & pad & E & Hw & Hpad & Hl); [done|].
    exists (symbol (a / 4) :: symbol (a mod 4 * 16 + b / 16) :: symbol (b mod 16 * 4 + c / 64) :: symbol (c mod 64) :: w), pad.
    split_and!; [cbn [encode64 app]; by rewrite E| |done|cbn [length]; lia].
    repeat (constructor; [by apply symbol_value|]). done.
Qed.

(** ** Runs between other text *)

Lemma symbol_runs_word alpha min w : ∀ acc s,
  Forall (λ b, alpha b = true) w → symbol_runs alpha min acc (w ++ s) = symbol_runs alpha min (rev w ++ acc) s.
Proof.
  induction w as [|b w IH]; intros acc s Hw; [done|]. apply Forall_cons in Hw as [Hb Hw].
  cbn [app symbol_runs rev]. rewrite Hb, IH by done. by rewrite <- app_assoc.
Qed.

Lemma symbol_runs_edge alpha min pre x s : ∀ acc,
  alpha x = false → ∃ l, symbol_runs alpha min acc (pre ++ x :: s) = l ++ symbol_runs alpha min [] s.
Proof.
  induction pre as [|b pre IH]; intros acc Hx; cbn [app symbol_runs]; [rewrite Hx; by eexists|].
  destruct (alpha b); [by apply IH|]. destruct (IH [] Hx) as [l ->]. eexists. by rewrite app_assoc.
Qed.

(** Nothing of the text before belongs to the run, and nothing after it. *)
Definition edge_before (alpha : Z → bool) (pre : bytes) : Prop :=
  pre = [] ∨ ∃ q x, pre = q ++ [x] ∧ alpha x = false.
Definition edge_after (alpha : Z → bool) (post : bytes) : Prop :=
  match post with [] => True | x :: _ => alpha x = false ∧ x ≠ 61 end.

Lemma symbol_runs_found alpha min pre w pad post :
  alpha 61 = false → edge_before alpha pre → edge_after alpha post →
  Forall (λ b, alpha b = true) w → pad ∈ [[]; [61]; [61; 61]] → (min ≤ length w)%nat →
  w ++ pad ∈ symbol_runs alpha min [] (pre ++ (w ++ pad) ++ post).
Proof.
  intros Heq Hpre Hpost Hw Hpad Hlen.
  assert (Hin : w ++ pad ∈ symbol_runs alpha min [] ((w ++ pad) ++ post)).
  { rewrite <- app_assoc, symbol_runs_word, app_nil_r by done.
    assert (Hemit : ∀ s, padding 2 s = pad → w ++ pad ∈ emit_run min (rev w) s).
    { intros s Hs. unfold emit_run. rewrite length_rev, (proj2 (Nat.leb_le _ _)), rev_involutive, Hs by done. by left. }
    assert (Hp : padding 2 (pad ++ post) = pad).
    { unfold edge_after in Hpost. destruct post as [|x post];
        [|destruct Hpost as [_ Hx%Z.eqb_neq]];
        repeat (apply elem_of_cons in Hpad as [->|Hpad]; [cbn; rewrite ?Hx; done|]); by apply elem_of_nil in Hpad. }
    destruct (pad ++ post) as [|x s] eqn:E; [by apply Hemit|]. cbn [symbol_runs].
    assert (alpha x = false) as ->; [|apply elem_of_app; left; by apply Hemit].
    destruct pad as [|y pad]; cbn [app] in E; [subst post; apply Hpost|]. injection E as -> _.
    apply elem_of_cons in Hpad as [?|Hpad]; [done|].
    apply elem_of_cons in Hpad as [[= -> ->]|Hpad]; [done|].
    apply elem_of_cons in Hpad as [[= -> ->]|Hpad]; [done|]. by apply elem_of_nil in Hpad. }
  destruct Hpre as [->|(q & x & -> & Hx)]; [done|]. rewrite <- app_assoc. cbn [app].
  destruct (symbol_runs_edge alpha min q x ((w ++ pad) ++ post) [] Hx) as [l ->]. apply elem_of_app. by right.
Qed.

Section claims.
Context (NFKC : bytes → bytes) (strip : bytes → bytes) (IsPrint : Z → bool).
#[local] Abbreviation extract := (extractInto NFKC strip IsPrint).
#[local] Abbreviation candidates := (decodeCandidates IsPrint).
#[local] Abbreviation clean := (cleaned NFKC strip).

Lemma base64_candidate pre p post :
  Forall is_byte p → (12 ≤ length p)%nat → isLikelyText IsPrint p = true →
  edge_before std_symbol pre → edge_after std_symbol post →
  p ∈ candidates (pre ++ encode64 p ++ post).
Proof.
  intros Hp Hlen Ht Hpre Hpost. destruct (encode64_shape p Hp) as (w & pad & E & Hw & Hpad & Hl).
  unfold decodeCandidates. apply elem_of_app. left. apply list_elem_of_omap. exists (encode64 p). split.
  - rewrite E. apply symbol_runs_found; [done..|lia].
  - cbn [tryBase64]. by rewrite decode64_encode, Ht by done.
Qed.

(** ** The buffer *)

Definition grows (again : bytes → bytes → bytes) : Prop := ∀ out c, ∃ y, again out c = out ++ y.

Lemma extract_loop_grows again found : grows again → ∀ out, ∃ y, extract_loop NFKC strip again found out = out ++ y.
Proof.
  intros Hg. induction found as [|f found IH]; intros out; cbn [extract_loop]; [exists []; by rewrite app_nil_r|].
  destruct (_ =? 0)%nat; [apply IH|]. destruct (_ <=? 0); [exists []; by rewrite app_nil_r|].
  match goal with |- context [again (out ++ ?d ++ [10]) ?d] =>
    destruct (Hg (out ++ d ++ [10]) d) as [y1 ->]; destruct (IH ((out ++ d ++ [10]) ++ y1)) as [y2 ->] end.
  eexists. by rewrite <- !app_assoc.
Qed.

Lemma extract_grows k : grows (extract k).
Proof.
  induction k as [|k IH]; intros out c; cbn [extractInto]; [exists []; by rewrite app_nil_r|].
  destruct (_ <=? _); [exists []; by rewrite app_nil_r|]. by apply extract_loop_grows.
Qed.

Definition full (out : bytes) : Prop := maxDecodedBytes ≤ Z.of_nat (length out).

Lemma full_app out y : full out → full (out ++ y).
Proof. unfold full. rewrite length_app. lia. Qed.

(** A candidate is written and looked into, or the buffer is full. *)
Lemma extract_loop_reads again found f : grows again → f ∈ found → clean f ≠ [] → ∀ out,
  full (extract_loop NFKC strip again found out) ∨
  ∃ before after, extract_loop NFKC strip again found out = again (before ++ clean f ++ [10]) (clean f) ++ after.
Proof.
  intros Hg Hin Hne. induction found as [|g found IH]; [by apply elem_of_nil in Hin|]. intros out. cbn [extract_loop].
  destruct (Nat.eqb_spec (length (clean g)) 0) as [H0|H0].
  - apply elem_of_cons in Hin as [<-|Hin]; [by apply nil_length_inv in H0|]. by apply IH.
  - destruct (Z.leb_spec (maxDecodedBytes - Z.of_nat (length out)) 0); [left; unfold full; lia|].
    apply elem_of_cons in Hin as [<-|Hin]; [|by apply IH].
    destruct (Z.ltb_spec (maxDecodedBytes - Z.of_nat (length out)) (Z.of_nat (length (clean f)))).
    + left. set (d := take _ _).
      destruct (Hg (out ++ d ++ [10]) d) as [y ->]. destruct (extract_loop_grows again found Hg ((out ++ d ++ [10]) ++ y)) as [y' ->].
      apply full_app, full_app. unfold full, d. rewrite !length_app, length_take. simpl. lia.
    + right. destruct (extract_loop_grows again found Hg (again (out ++ clean f ++ [10]) (clean f))) as [y ->].
      by exists out, y.
Qed.

Lemma extract_reads k c f out : f ∈ candidates c → clean f ≠ [] →
  full (extract (S k) out c) ∨
  ∃ before after, extract (S k) out c = extract k (before ++ clean f ++ [10]) (clean f) ++ after.
Proof.
  intros Hf Hne. cbn [extractInto]. destruct (Z.leb_spec maxDecodedBytes (Z.of_nat (length out))); [by left|].
  by apply extract_loop_reads; [apply extract_grows|..].
Qed.

Lemma extract_loop_bound again found :
  (∀ out c, Z.of_nat (length out) ≤ maxDecodedBytes + 1 → Z.of_nat (length (again out c)) ≤ maxDecodedBytes + 1) →
  ∀ out, Z.of_nat (length out) ≤ maxDecodedBytes + 1 →
  Z.of_nat (length (extract_loop NFKC strip again found out)) ≤ maxDecodedBytes + 1.
Proof.
  intros Ha. induction found as [|f found IH]; intros out Ho; cbn [extract_loop]; [done|].
  destruct (_ =? 0)%nat; [by apply IH|]. destruct (Z.leb_spec (maxDecodedBytes - Z.of_nat (length out)) 0); [done|].
  apply IH, Ha. rewrite !length_app. cbn [length].
  destruct (Z.ltb_spec (maxDecodedBytes - Z.of_nat (length out)) (Z.of_nat (length (clean f)))); rewrite ?length_take; lia.
Qed.

Lemma extract_bound k : ∀ out c, Z.of_nat (length out) ≤ maxDecodedBytes + 1 →
  Z.of_nat (length (extract k out c)) ≤ maxDecodedBytes + 1.
Proof.
  induction k as [|k IH]; intros out c Ho; cbn [extractInto]; [done|]. destruct (_ <=? _); [done|].
  by apply extract_loop_bound.
Qed.

(** What the scanner reads of a content's encoded payloads. *)
Definition decoded_view (content : bytes) : bytes := default [] (ExtractDecoded NFKC strip IsPrint content).

Lemma decoded_view_extract content : decoded_view content = extract maxDecodeDepth [] content.
Proof.
  unfold decoded_view, ExtractDecoded. destruct (Nat.eqb_spec (length (extract maxDecodeDepth [] content)) 0) as [H|H]; [|done].
  by apply nil_length_inv in H.
Qed.

(** A text is a line of the view. *)
Definition read_in (t view : bytes) : Prop := ∃ before after, view = before ++ t ++ 10 :: after.

Definition hides (p content : bytes) : Prop :=
  ∃ pre post, content = pre ++ encode64 p ++ post ∧ edge_before std_symbol pre ∧ edge_after std_symbol post ∧
    Forall is_byte p ∧ (12 ≤ length p)%nat ∧ isLikelyText IsPrint p = true ∧ clean p ≠ [].

Lemma hides_candidate p content : hides p content → p ∈ candidates content ∧ clean p ≠ [].
Proof. intros (pre & post & -> & ? & ? & ? & ? & ? & ?). split; [by apply base64_candidate|done]. Qed.

Lemma payload_read p content :
  hides p content → full (decoded_view content) ∨ read_in (clean p) (decoded_view content).
Proof.
  rewrite decoded_view_extract. unfold maxDecodeDepth. intros [Hc Hne]%hides_candidate.
  destruct (extract_reads 1 content p [] Hc Hne) as [?|(b & a & ->)]; [by left|right].
  destruct (extract_grows 1 (b ++ clean p ++ [10]) (clean p)) as [y ->]. exists b, (y ++ a).
  by rewrite <- !app_assoc.
Qed.

(** C35. A base64 payload is read, at two depths.  Put the base64 form of a
    text of at least twelve bytes anywhere in a content, set off by a
    character outside the alphabet: the decoded view holds the normalised
    text as one of its lines; and so it does when what was encoded is
    itself a content in which the text stands encoded.  The only exception
    is a view already full, and no content makes the view longer than its
    cap and one newline. *)
Theorem encoded_payload_read p content :
  (hides p content → full (decoded_view content) ∨ read_in (clean p) (decoded_view content)) ∧
  (∀ q, hides q content → hides p (clean q) →
     full (decoded_view content) ∨ read_in (clean p) (decoded_view content)) ∧
  Z.of_nat (length (decoded_view content)) ≤ maxDecodedBytes + 1.
Proof.
  split; [apply payload_read|]. rewrite decoded_view_extract. unfold maxDecodeDepth.
  split; [|by apply extract_bound; simpl].
  - intros q [Hq Hqne]%hides_candidate [Hp Hpne]%hides_candidate.
    destruct (extract_reads 1 content q [] Hq Hqne) as [?|(b & a & ->)]; [by left|].
    destruct (extract_reads 0 (clean q) p (b ++ clean q ++ [10]) Hp Hpne) as [?|(b' & a' & ->)]; [left; by apply full_app|right].
    exists b', (a' ++ a). cbn [extractInto]. by rewrite <- !app_assoc.
Qed.
End claims.

(** "ignore all previous" encoded in a sentence. *)
Lemma encoded_payload_read_witness :
  let shown := λ r, within 32 126 r in
  let text := [105; 103; 110; 111; 114; 101; 32; 97; 108; 108; 32; 112; 114; 101; 118; 105; 111; 117; 115] in
  read_in text (decoded_view id id shown ([115; 101; 101; 32] ++ encode64 text ++ [32])).
Proof.
  cbv zeta.
  destruct (proj1 (encoded_payload_read id id (λ r, within 32 126 r)
    [105; 103; 110; 111; 114; 101; 32; 97; 108; 108; 32; 112; 114; 101; 118; 105; 111; 117; 115]
    ([115; 101; 101; 32] ++ encode64 [105; 103; 110; 111; 114; 101; 32; 97; 108; 108; 32; 112; 114; 101; 118; 105; 111; 117; 115] ++ [32])))
    as [Hf|Hr]; [| |exact Hr].
  - eexists _, _. split; [reflexivity|]. split_and!.
    + right. exists [115; 101; 101], 32. done.
    + done.
    + unfold is_byte. apply (bool_decide_unpack _). vm_compute. done.
    + simpl. lia.
    + vm_compute. done.
    + done.
  - exfalso. revert Hf. vm_compute. intros Hf. by apply Hf.
Defined.
