(* ===== verification/EViews.v ===== *)
(** internal/engine/preprocess.go: the views of an item that are scanned.

    What the code takes from other libraries (Unicode normalisation, the
    HTML tokenizer and html.UnescapeString, the tables and predicates of the
    unicode package) is the class [TextLib]. *)
From S2P Require Import Prelude GoStrings Utf8 EMatch EUnescape EInvisible EBidi EFold EDecode.
Local Open Scope Z_scope.

Class TextLib := {
  NFKC : bytes → bytes;
  NFD : bytes → bytes;
  (** the text tokens of a document, one after the other *)
  html_text : bytes → bytes;
  html_unescape : bytes → bytes;
  Other_Default_Ignorable : RangeTable;
  Cf : RangeTable;
  Variation_Selector : RangeTable;
  White_Space : RangeTable;
  Prepended_Concatenation_Mark : RangeTable;
  Mn : RangeTable;
  rtl_scripts : list RangeTable;
  IsLetter : Z → bool;
  IsPrint : Z → bool;
}.

Section views.
Context {text_lib : TextLib}.

Definition strip_invisible : bytes → bytes * bool :=
  StripInvisible Other_Default_Ignorable Cf Variation_Selector White_Space Prepended_Concatenation_Mark.
Definition fold_confusables : bytes → option bytes := FoldConfusables NFD Mn.
Definition unescape_in_place : bytes → option bytes := UnescapeInPlace html_unescape.
Definition reorder_bidi : bytes → option bytes := ReorderBidi rtl_scripts IsLetter.
Definition extract_decoded : bytes → option bytes :=
  ExtractDecoded NFKC (λ b, (strip_invisible b).1) IsPrint.

(** stripHTML; the slice of a buffer nothing was written to is nil. *)
Definition stripHTML (data : bytes) : bytes := html_text data.
Definition nil_if_empty (b : bytes) : option bytes := match b with [] => None | _ => Some b end.

Definition derivedView (view : bytes) : bytes :=
  let view := (strip_invisible (NFKC view)).1 in
  match fold_confusables view with Some folded => folded | None => view end.

(** PreprocessedContent; None is nil. *)
Record Preprocessed := mkPre {
  Original : bytes;
  Normalized : bytes;
  RawHTML : option bytes;
  PreScrub : option bytes;
  Folded : option bytes;
  Decoded : option bytes;
  Unescaped : option bytes;
  UnescapedHTML : option bytes;
  Reordered : option bytes;
}.

Definition is_html (contentType : string) : bool := has_prefix "text/html" contentType.

Definition Preprocess (content : bytes) (contentType : string) : Preprocessed :=
  let nfkc := NFKC content in
  let tagPayload := DecodeTagChars nfkc in
  let '(scrubbed, removed) := strip_invisible nfkc in
  let html := is_html contentType in
  let '(normalized, htmlRemoved) := if html then strip_invisible (stripHTML scrubbed) else (scrubbed, false) in
  let preScrub := if html then nil_if_empty (stripHTML nfkc) else Some nfkc in
  let rawHTML := if html then Some scrubbed else None in
  let decoded := extract_decoded normalized in
  {| Original := content;
     Normalized := normalized;
     RawHTML := rawHTML;
     PreScrub := if removed || htmlRemoved then preScrub else None;
     Folded := fold_confusables normalized;
     Decoded :=
       match tagPayload with
       | Some p => Some (p ++ [10] ++ default [] decoded)
       | None => decoded
       end;
     Unescaped := derivedView <$> unescape_in_place normalized;
     UnescapedHTML :=
       match rawHTML with
       | Some raw => derivedView <$> unescape_in_place raw
       | None => None
       end;
     Reordered :=
       match reorder_bidi (default [] preScrub) with
       | Some reordered =>
           let clean := (strip_invisible reordered).1 in
           if bool_decide (clean = normalized) then None else Some (derivedView clean)
       | None => None
       end |}.
End views.
