(* ===== verification/EScore.v ===== *)
(** internal/engine/rules.go, scoring.go and the score ceiling of
    provenance.go: what a ruleset may be, and how signals add up to a
    verdict.  regexp.Compile is a parameter; JSON decoding is not
    modelled. *)
From S2P Require Import Prelude GoStrings GoFloat.
Local Open Scope Z_scope.

(** ** rules.go *)

Definition MatchSubstring : string := "substring".
Definition MatchSubstringCaseInsensitive : string := "substring_case_insensitive".
Definition MatchRegex : string := "regex".
Definition MatchCustomDetector : string := "custom_detector".

Record Rule := mkRule {
  RName : string; RPatterns : list string; RWeight : spec_float; RMatchType : string;
  RDetector : string; RBehavior : string; RBoostFactor : spec_float;
}.

Record RuleConfig := mkRuleConfig { Rules : list Rule; QuarantineThreshold : spec_float }.

Definition zero_config : RuleConfig := mkRuleConfig [] fzero.

Definition validMatchTypes : list string :=
  [MatchSubstring; MatchSubstringCaseInsensitive; MatchRegex; MatchCustomDetector].

Inductive RuleError :=
| RulesEmpty
| BadThreshold (t : spec_float)
| BadWeight (i : nat) (w : spec_float)
| UnknownMatchType (i : nat) (t : string)
| NoDetector (i : nat)
| BadRegex (i : nat) (p : string)
| BadBoost (i : nat) (b : spec_float).

Definition is_booster (r : Rule) : bool := String.eqb (RBehavior r) "weight_booster".

(** a < lo || a > hi *)
Definition outside (lo hi a : spec_float) : bool := flt a lo || flt hi a.

Section rules.
Context (compiles : string → bool).

Definition validate_rule (i : nat) (r : Rule) : res RuleError unit :=
  if outside fzero fone (RWeight r) then Err (BadWeight i (RWeight r))
  else if negb (existsb (String.eqb (RMatchType r)) validMatchTypes) then Err (UnknownMatchType i (RMatchType r))
  else if String.eqb (RMatchType r) MatchCustomDetector && String.eqb (RDetector r) "" then Err (NoDetector i)
  else match (if String.eqb (RMatchType r) MatchRegex
              then List.find (λ p, negb (compiles p)) (RPatterns r) else None) with
       | Some p => Err (BadRegex i p)
       | None =>
           if is_booster r && outside fone (float64 3) (RBoostFactor r)
           then Err (BadBoost i (RBoostFactor r)) else Ok ()
       end.

Fixpoint validate_rules (i : nat) (rules : list Rule) : res RuleError unit :=
  match rules with
  | [] => Ok ()
  | r :: rest => match validate_rule i r with Ok _ => validate_rules (S i) rest | Err e => Err e end
  end.

Definition validateRuleConfig (rc : RuleConfig) : res RuleError unit :=
  match Rules rc with
  | [] => Err RulesEmpty
  | rules =>
      if fle (QuarantineThreshold rc) fzero || flt (float64 2) (QuarantineThreshold rc)
      then Err (BadThreshold (QuarantineThreshold rc)) else validate_rules 0 rules
  end.

(** ** scoring.go *)

Record Signal := mkSignal { SName : string; SWeight : spec_float; SMatched : string }.
Record BoostRule := mkBoost { BName : string; BoostFactor : spec_float }.

Inductive Verdict := VerdictPass | VerdictQuarantine | VerdictReject.

Record ScanResult := mkScanResult { Signals : list Signal; TotalScore : spec_float; RVerdict : Verdict }.

Definition ScoreSignals (signals : list Signal) (boostRules : list BoostRule) (threshold : spec_float) : ScanResult :=
  let boostMultiplier := foldl (λ m br, fmul m (BoostFactor br)) fone boostRules in
  let total := foldl (λ t sig, fadd t (fmul (SWeight sig) boostMultiplier)) fzero signals in
  mkScanResult signals total (if fge total threshold then VerdictQuarantine else VerdictPass).

(** ** The ceiling of provenance.go *)

Definition ceiling_step (p : spec_float * spec_float) (r : Rule) : spec_float * spec_float :=
  let '(total, boost) := p in
  if is_booster r then (total, if flt fzero (RBoostFactor r) then fmul boost (RBoostFactor r) else boost)
  else (fadd total (RWeight r), boost).

Definition MaxAchievableScore (rc : RuleConfig) : spec_float :=
  let '(total, boost) := foldl ceiling_step (fzero, fone) (Rules rc) in fmul total boost.

(** ** What validation establishes *)

(** Numbers read from JSON are float64 values and not NaN. *)
Definition number (x : spec_float) : Prop := valid_binary 53 1024 x = true ∧ x ≠ S754_nan.

Lemma number_ok x : number x → flt x fzero = false → ok x.
Proof.
  intros [Hv Hn]. destruct x as [s|[|]| |[|] m e]; cbn; try done. intros _.
  cbn in Hv. apply andb_true_iff in Hv as [H1%Z.eqb_eq H2%Z.leb_le]. by split.
Qed.

Lemma compare_flip m n : Pos.compare_cont Eq m n ≠ Lt → Pos.compare_cont Eq n m ≠ Gt.
Proof.
  change (Pos.compare m n ≠ Lt → Pos.compare n m ≠ Gt). rewrite (Pos.compare_antisym n m).
  by destruct (Pos.compare n m).
Qed.

(** Not below a positive number, and not NaN: at least that number. *)
Lemma not_flt_fle x m0 e0 :
  number x → flt x (S754_finite false m0 e0) = false → ok x ∧ fle (S754_finite false m0 e0) x = true.
Proof.
  intros Hx. destruct x as [s|[|]| |[|] m e]; try (by intros H; cbv in H);
    try (by intros; split).
  - by destruct Hx as [_ ?].
  - unfold flt, fle, SFltb, SFleb. cbn [SFcompare]. intros H. split; [apply number_ok; [done|reflexivity]|].
    rewrite (Z.compare_antisym e e0). destruct (e ?= e0); cbn [CompOpp]; [|done|done].
    pose proof (compare_flip m m0) as Hf. destruct (Pos.compare_cont Eq m m0), (Pos.compare_cont Eq m0 m); try done;
      exfalso; by apply Hf.
Qed.

Lemma number_factor x : number x → flt x fone = false → factor x.
Proof. change fone with (S754_finite false 4503599627370496 (-52)). apply not_flt_fle. Qed.

(** One rule as validation wants it. *)
Record rule_ok (r : Rule) : Prop := {
  ok_weight : outside fzero fone (RWeight r) = false;
  ok_type : RMatchType r ∈ validMatchTypes;
  ok_detector : RMatchType r = MatchCustomDetector → RDetector r ≠ ""%string;
  ok_regex : RMatchType r = MatchRegex → ∀ p, p ∈ RPatterns r → compiles p = true;
  ok_boost : is_booster r = true → outside fone (float64 3) (RBoostFactor r) = false;
}.

Lemma match_type_spec t : existsb (String.eqb t) validMatchTypes = true ↔ t ∈ validMatchTypes.
Proof.
  rewrite existsb_exists. split.
  - intros (x & Hx & ->%String.eqb_eq). by apply list_elem_of_In.
  - intros Hx. exists t. split; [by apply list_elem_of_In|apply String.eqb_refl].
Qed.

Lemma validate_rule_ok i r : validate_rule i r = Ok () ↔ rule_ok r.
Proof.
  unfold validate_rule. destruct (outside fzero fone (RWeight r)) eqn:Hw.
  { split; [done|]. intros [H _ _ _ _]. congruence. }
  pose proof (match_type_spec (RMatchType r)) as Ht.
  destruct (existsb (String.eqb (RMatchType r)) validMatchTypes); cbn [negb].
  2: { split; [done|]. intros [_ H _ _ _]. apply Ht in H. done. }
  assert (RMatchType r ∈ validMatchTypes) as Hty by by apply Ht.
  destruct (String.eqb_spec (RMatchType r) MatchCustomDetector) as [Hd|Hd]; cbn [andb].
  - destruct (String.eqb_spec (RDetector r) "") as [He|He].
    { split; [done|]. intros [_ _ H _ _]. by apply H in Hd. }
    rewrite Hd. cbn [String.eqb]. change (String.eqb MatchCustomDetector MatchRegex) with false. cbn iota.
    destruct (is_booster r && outside fone (float64 3) (RBoostFactor r)) eqn:Hb.
    + split; [done|]. intros [_ _ _ _ H]. apply andb_true_iff in Hb as [Hb1 Hb2]. rewrite H in Hb2; done.
    + split; [|done]. intros _. split; [done|done|done|by rewrite Hd|]. intros Hb1. by rewrite Hb1 in Hb.
  - destruct (String.eqb_spec (RMatchType r) MatchRegex) as [Hr|Hr].
    + destruct (List.find (λ p, negb (compiles p)) (RPatterns r)) as [p|] eqn:Hf.
      { split; [done|]. intros [_ _ _ H _]. apply find_some in Hf as [Hp Hc%negb_true_iff].
        apply list_elem_of_In in Hp. rewrite (H Hr p Hp) in Hc. done. }
      destruct (is_booster r && outside fone (float64 3) (RBoostFactor r)) eqn:Hb.
      * split; [done|]. intros [_ _ _ _ H]. apply andb_true_iff in Hb as [Hb1 Hb2]. rewrite H in Hb2; done.
      * split; [|done]. intros _. split; [done|done|done| |]; [|intros Hb1; by rewrite Hb1 in Hb].
        intros _ p Hp. apply list_elem_of_In in Hp. pose proof (find_none _ _ Hf p Hp) as Hc. by apply negb_false_iff in Hc.
    + destruct (is_booster r && outside fone (float64 3) (RBoostFactor r)) eqn:Hb.
      * split; [done|]. intros [_ _ _ _ H]. apply andb_true_iff in Hb as [Hb1 Hb2]. rewrite H in Hb2; done.
      * split; [|done]. intros _. split; [done|done|done|done|]. intros Hb1. by rewrite Hb1 in Hb.
Qed.

Lemma validate_rules_ok rules : ∀ i, validate_rules i rules = Ok () ↔ Forall rule_ok rules.
Proof.
  induction rules as [|r rules IH]; intros i; cbn [validate_rules]; [by split|].
  rewrite Forall_cons. pose proof (validate_rule_ok i r) as Hr.
  destruct (validate_rule i r) as [[]|e]; [rewrite IH; tauto|].
  split; [done|]. intros [H _]. by apply Hr in H.
Qed.

(** A ruleset is accepted exactly when it is well-formed: it has a
    rule, its threshold is above zero and at most two, and every rule has a
    weight between zero and one, a known match type, a detector when it
    asks for one, patterns that compile when they are regular expressions,
    and a factor between one and three when it is a booster. *)
Theorem ruleset_accepted_exactly rc :
  validateRuleConfig rc = Ok () ↔
  Rules rc ≠ [] ∧ fle (QuarantineThreshold rc) fzero = false ∧
  flt (float64 2) (QuarantineThreshold rc) = false ∧ Forall rule_ok (Rules rc).
Proof.
  unfold validateRuleConfig. destruct (Rules rc) as [|r rules]; [split; [done|by intros [? _]]|].
  destruct (fle (QuarantineThreshold rc) fzero); [split; [done|by intros (_ & ? & _)]|].
  destruct (flt (float64 2) (QuarantineThreshold rc)); [split; [done|by intros (_ & _ & ? & _)]|].
  cbn [orb]. rewrite validate_rules_ok. split; [by intros|by intros (_ & _ & _ & ?)].
Qed.

(** ** Scores *)

Definition multiplier (boosts : list BoostRule) : spec_float := fprod fone (BoostFactor <$> boosts).

Lemma multiplier_fold boosts : foldl (λ m br, fmul m (BoostFactor br)) fone boosts = multiplier boosts.
Proof.
  unfold multiplier, fprod. generalize fone. induction boosts as [|b boosts IH]; intros m; [done|].
  cbn [foldl]. by rewrite IH.
Qed.

Definition contributions (boosts : list BoostRule) (signals : list Signal) : list spec_float :=
  (λ sig, fmul (SWeight sig) (multiplier boosts)) <$> signals.

Lemma total_fold signals boosts threshold :
  TotalScore (ScoreSignals signals boosts threshold) = fsum fzero (contributions boosts signals).
Proof.
  unfold ScoreSignals. cbn [TotalScore]. rewrite multiplier_fold. unfold fsum, contributions. generalize fzero.
  induction signals as [|s signals IH]; intros t; [done|]. cbn [foldl]. by rewrite IH.
Qed.

Lemma verdict_quarantine signals boosts threshold :
  RVerdict (ScoreSignals signals boosts threshold) = VerdictQuarantine ↔
  fle threshold (TotalScore (ScoreSignals signals boosts threshold)) = true.
Proof. unfold ScoreSignals. cbn [RVerdict TotalScore]. unfold fge, fle. by destruct (SFleb _ _). Qed.

(** A number that weighs something keeps its order under every factor, even
    one that overflowed. *)
Lemma fmul_positive x b :
  ok x → flt fzero x = true → factor b → ok (fmul x b) ∧ fle x (fmul x b) = true.
Proof.
  intros Hx Hp [Hb H1]. destruct (finite b) eqn:Hf; [by apply fmul_ge|].
  destruct b as [|[|]| |[|] m e]; try done. by destruct x as [[|]|[|]| |[|] mx ex].
Qed.

(** Weights that are not negative, and boosters of at least one; either
    their product does not overflow, or no weight is zero. *)
Record scorable (signals : list Signal) (boosts : list BoostRule) : Prop := {
  weights_ok : Forall (λ s, ok (SWeight s)) signals;
  boosts_ok : Forall factor (BoostFactor <$> boosts);
  multiplier_finite : finite (multiplier boosts) = true ∨ Forall (λ s, flt fzero (SWeight s) = true) signals;
}.

Lemma contribution_ge signals boosts s :
  scorable signals boosts → s ∈ signals →
  ok (fmul (SWeight s) (multiplier boosts)) ∧ fle (SWeight s) (fmul (SWeight s) (multiplier boosts)) = true.
Proof.
  intros [Hw Hb Hf] Hs. rewrite Forall_forall in Hw. pose proof (fprod_factor _ fone factor_one Hb) as Hm.
  destruct Hf as [Hf|Hp]; [destruct Hm; by apply fmul_ge; [apply Hw| | |]|].
  rewrite Forall_forall in Hp. by apply fmul_positive; [apply Hw|apply Hp|].
Qed.

Lemma contributions_ok signals boosts : scorable signals boosts → Forall ok (contributions boosts signals).
Proof.
  intros Hs. apply Forall_forall. intros x (s & -> & Hin)%list_elem_of_fmap.
  by apply (contribution_ge signals boosts s Hs).
Qed.

Lemma score_facts signals boosts threshold :
  scorable signals boosts →
  ok (TotalScore (ScoreSignals signals boosts threshold)) ∧
  ∀ s, s ∈ signals → fle (SWeight s) (TotalScore (ScoreSignals signals boosts threshold)) = true.
Proof.
  intros Hs. rewrite total_fold.
  destruct (fsum_ge (contributions boosts signals) fzero I (contributions_ok _ _ Hs)) as (Ho & _ & Hx).
  split; [done|]. intros s Hin. destruct (contribution_ge _ _ _ Hs Hin) as [Hc Hle].
  pose proof (weights_ok _ _ Hs) as Hw. rewrite Forall_forall in Hw.
  eapply fle_trans; [by apply Hw|exact Hc|exact Ho|exact Hle|].
  apply Hx. apply list_elem_of_fmap. by exists s.
Qed.

Lemma strong_signal signals boosts threshold s :
  scorable signals boosts → ok threshold → s ∈ signals → fle threshold (SWeight s) = true →
  RVerdict (ScoreSignals signals boosts threshold) = VerdictQuarantine.
Proof.
  intros Hs Ht Hin Hle. apply verdict_quarantine. destruct (score_facts signals boosts threshold Hs) as [Ho Hx].
  pose proof (weights_ok _ _ Hs) as Hw. rewrite Forall_forall in Hw.
  eapply fle_trans; [exact Ht|by apply Hw|exact Ho|exact Hle|by apply Hx].
Qed.

Lemma more_signals signals more boosts threshold :
  scorable (signals ++ more) boosts →
  fle (TotalScore (ScoreSignals signals boosts threshold))
      (TotalScore (ScoreSignals (signals ++ more) boosts threshold)) = true.
Proof.
  intros [Hw Hb Hf]. apply Forall_app in Hw as [Hw1 Hw2]. rewrite Forall_app in Hf.
  assert (H1 : scorable signals boosts) by (split; naive_solver). assert (H2 : scorable more boosts) by (split; naive_solver).
  rewrite !total_fold. unfold contributions at 2. rewrite fmap_app. unfold fsum at 2. rewrite foldl_app.
  destruct (fsum_ge (contributions boosts signals) fzero I (contributions_ok _ _ H1)) as (Ho & _ & _).
  by destruct (fsum_ge (contributions boosts more) (fsum fzero (contributions boosts signals)) Ho
    (contributions_ok _ _ H2)) as (_ & ? & _).
Qed.

(** Rounding never lowers a score.  In binary floating point, with
    weights that are not negative and boosters of at least one (and, should
    the boosters' product overflow, no weight of zero), the total
    is at least the weight of every signal, so that one signal whose weight
    reaches the threshold quarantines whatever the others are; further
    signals never lower the total, and never turn a quarantine into a
    pass. *)
Theorem score_only_rises signals more boosts threshold :
  scorable (signals ++ more) boosts → ok threshold →
  (∀ s, s ∈ signals → fle threshold (SWeight s) = true →
     RVerdict (ScoreSignals signals boosts threshold) = VerdictQuarantine) ∧
  fle (TotalScore (ScoreSignals signals boosts threshold))
      (TotalScore (ScoreSignals (signals ++ more) boosts threshold)) = true ∧
  (RVerdict (ScoreSignals signals boosts threshold) = VerdictQuarantine →
   RVerdict (ScoreSignals (signals ++ more) boosts threshold) = VerdictQuarantine).
Proof.
  intros Hs Ht. pose proof Hs as [Hw Hb Hf]. apply Forall_app in Hw as [Hw1 _]. rewrite Forall_app in Hf.
  assert (H1 : scorable signals boosts) by (split; naive_solver).
  pose proof (more_signals signals more boosts threshold Hs) as Hm. split_and!; [|done|].
  - intros s. by apply strong_signal.
  - rewrite !verdict_quarantine. intros Hq.
    eapply fle_trans; [exact Ht|by apply score_facts|by apply score_facts|exact Hq|exact Hm].
Qed.
End rules.

(** ** Witnesses *)

(** The weights 0.7 and 0.6 with the threshold 0.8. *)
Lemma score_only_rises_witness :
  fle (TotalScore (ScoreSignals [mkSignal "suspicious_encoding" (fquot 7 10) ""] [] (fquot 8 10)))
      (TotalScore (ScoreSignals ([mkSignal "suspicious_encoding" (fquot 7 10) ""] ++
         [mkSignal "prompt_template_structure" (fquot 6 10) ""]) [] (fquot 8 10))) = true.
Proof.
  apply (score_only_rises [mkSignal "suspicious_encoding" (fquot 7 10) ""]
    [mkSignal "prompt_template_structure" (fquot 6 10) ""] [] (fquot 8 10)).
  - split; [repeat constructor; vm_compute; done|constructor|by left].
  - vm_compute. done.
Defined.
