(* ===== verification/ESign.v ===== *)
(** internal/engine/signature.go and provenance.go: which ruleset a process
    enforces, and who signed it.

    SHA-256, Ed25519, PEM, PKIX and JSON are parameters, and so is the file
    system; base64 is decoded as in EDecode (the decoder passes over line
    breaks).  Errors are values of [SigError] instead of texts. *)
From S2P Require Import Prelude GoStrings GoFloat Utf8 EUnescape EDecode EScore.
Local Open Scope Z_scope.

(** ** Texts *)

Definition hex_digit (d : Z) : Z := if d <? 10 then 48 + d else 97 + (d - 10).
Definition hex_encode (b : bytes) : bytes := b ≫= λ x, [hex_digit (x / 16); hex_digit (x mod 16)].

Definition lower_byte (b : Z) : Z := if within 65 90 b then b + 32 else b.
Definition to_lower_ascii (s : bytes) : bytes := lower_byte <$> s.

(** strings.EqualFold, when one of the texts is hexadecimal. *)
Definition equal_fold (a b : bytes) : bool := bool_decide (to_lower_ascii a = to_lower_ascii b).

Definition DecodeString (s : bytes) : option bytes :=
  decode64 std_value true (filter (λ b, b ≠ 10 ∧ b ≠ 13) s).

Definition SigModeDisabled : string := "disabled".
Definition SigModePermissive : string := "permissive".
Definition SigModeRequired : string := "required".
Definition sigAlgorithm : string := "ed25519".
Definition sigDomain : string := "glovebox-ruleset-v1".

Definition PublicKeySize : nat := 32.
Definition SignatureSize : nat := 64.
Definition PrivateKeySize : nat := 64.

Definition SigningMessage (digestHex : bytes) : bytes :=
  bytes_of_string sigDomain ++ [10] ++ to_lower_ascii digestHex ++ [10].

Record SignatureEnvelope := mkEnvelope { EAlgorithm : string; EKeyID : string; ESHA256 : bytes; ESignature : bytes }.
Record TrustedKey := mkTrusted { Fingerprint : bytes; TKey : bytes }.

Inductive SigError :=
| ReadRules | ParseRules | RulesInvalid (e : RuleError)
| NoKeyFile | ReadKeys | PEMType (t : string) | PEMParse | PEMNotEd25519
| KeyLineBase64 (line : nat) | KeyLineSize (line : nat) | NoKeys
| ReadSignature | ParseSignature | Algorithm (a : string) | SHA256Length (n : nat) | SHA256NotHex
| DigestMismatch | SignatureBase64 | SignatureLength (n : nat) | NoTrustedKeys | NotVerified
| SigningKeySize (n : nat).

(** What reading a file gives. *)
Inductive FileRead := Content (b : bytes) | NotExist | ReadFails.

(** A decoded PEM block, what follows it, and what the bytes of a PKIX key
    are: nothing, a key of another kind, or an Ed25519 key. *)
Record PEMBlock := mkPEM { PType : string; PBytes : bytes; PRest : bytes }.
Inductive PKIX := NotPKIX | OtherKey | Ed25519Key (pub : bytes).

(** ** provenance.go: the records *)

Record RulesSignature := mkSignature {
  SMode : string; Verified : bool; SKeyFingerprint : bytes; SSignatureFile : string;
  SPublicKeyFile : string; TrustedKeys : nat; Warning : string; SError : option SigError;
}.
Record RulesProvenance := mkProvenance {
  PSHA256 : bytes; RuleCount : nat; PQuarantineThreshold : spec_float; PMaxAchievableScore : spec_float;
  ThresholdReachable : bool; PSignature : RulesSignature;
}.
Definition zero_signature : RulesSignature := mkSignature "" false [] "" "" 0 "" None.
Definition zero_provenance : RulesProvenance := mkProvenance [] 0 fzero fzero false zero_signature.

Record SignaturePolicy := mkPolicy { PMode : string; PublicKeyFile : string; SignatureFile : string }.
Definition no_policy : SignaturePolicy := mkPolicy "" "" "".

Definition Active (p : SignaturePolicy) : bool :=
  String.eqb (PMode p) SigModePermissive || String.eqb (PMode p) SigModeRequired.
Definition EffectiveSignatureFile (p : SignaturePolicy) (rulesFile : string) : string :=
  if String.eqb (SignatureFile p) "" then (rulesFile ++ ".sig")%string else SignatureFile p.
Definition effectiveSigMode (mode : string) : string :=
  if String.eqb mode "" then SigModeDisabled else mode.

Section sign.
Context (sha256 : bytes → bytes).
Context (ed_verify : bytes → bytes → bytes → bool) (ed_sign : bytes → bytes → bytes) (ed_public : bytes → bytes).
Context (pem_decode : bytes → option PEMBlock) (parse_pkix : bytes → PKIX).
Context (decode_envelope : bytes → option SignatureEnvelope) (decode_rules : bytes → option RuleConfig).
Context (compiles : string → bool) (read_file : string → FileRead).

Definition RulesDigest (raw : bytes) : bytes := hex_encode (sha256 raw).
Definition KeyFingerprint (pub : bytes) : bytes := take 16 (hex_encode (sha256 pub)).

(** The closure add of ParsePublicKeys. *)
Definition add_key (keys : list TrustedKey) (pub : bytes) : list TrustedKey :=
  let fp := KeyFingerprint pub in
  if bool_decide (fp ∈ Fingerprint <$> keys) then keys else keys ++ [mkTrusted fp pub].

(** The PEM blocks; every block takes at least a byte, so that as many
    rounds as the file has bytes are enough. *)
Fixpoint pem_loop (fuel : nat) (rest : bytes) (keys : list TrustedKey) : res SigError (bytes * list TrustedKey) :=
  match fuel with
  | O => Ok (rest, keys)
  | S n =>
      match pem_decode rest with
      | None => Ok (rest, keys)
      | Some b =>
          if negb (String.eqb (PType b) "PUBLIC KEY") then Err (PEMType (PType b))
          else match parse_pkix (PBytes b) with
               | NotPKIX => Err PEMParse
               | OtherKey => Err PEMNotEd25519
               | Ed25519Key pub => pem_loop n (PRest b) (add_key keys pub)
               end
      end
  end.

(** The lines that are left. *)
Fixpoint line_loop (i : nat) (lines : list string) (keys : list TrustedKey) : res SigError (list TrustedKey) :=
  match lines with
  | [] => Ok keys
  | l :: rest =>
      let line := trim_space l in
      if String.eqb line "" || has_prefix "#" line then line_loop (S i) rest keys
      else match DecodeString (bytes_of_string line) with
           | None => Err (KeyLineBase64 (S i))
           | Some decoded =>
               if negb (length decoded =? PublicKeySize)%nat then Err (KeyLineSize (S i))
               else line_loop (S i) rest (add_key keys decoded)
           end
  end.

Definition ParsePublicKeys (raw : bytes) : res SigError (list TrustedKey) :=
  match pem_loop (S (length raw)) raw [] with
  | Err e => Err e
  | Ok (rest, keys) =>
      match line_loop 0 (split_on (ascii_of_nat 10) (string_of_bytes rest)) keys with
      | Err e => Err e
      | Ok [] => Err NoKeys
      | Ok keys => Ok keys
      end
  end.

Definition LoadPublicKeys (path : string) : res SigError (list TrustedKey) :=
  match read_file path with Content raw => ParsePublicKeys raw | _ => Err ReadKeys end.

Definition ParseSignatureEnvelope (raw : bytes) : res SigError SignatureEnvelope :=
  match decode_envelope raw with
  | None => Err ParseSignature
  | Some env =>
      if negb (String.eqb (EAlgorithm env) sigAlgorithm) then Err (Algorithm (EAlgorithm env))
      else if negb (length (ESHA256 env) =? 64)%nat then Err (SHA256Length (length (ESHA256 env)))
      else match decode_hex (ESHA256 env) with None => Err SHA256NotHex | Some _ => Ok env end
  end.

Definition VerifyRuleset (raw : bytes) (sig : SignatureEnvelope) (keys : list TrustedKey) : res SigError bytes :=
  let actual := RulesDigest raw in
  if negb (equal_fold actual (ESHA256 sig)) then Err DigestMismatch
  else match DecodeString (ESignature sig) with
       | None => Err SignatureBase64
       | Some sigBytes =>
           if negb (length sigBytes =? SignatureSize)%nat then Err (SignatureLength (length sigBytes))
           else match keys with
                | [] => Err NoTrustedKeys
                | _ =>
                    match List.find (λ k, ed_verify (TKey k) (SigningMessage actual) sigBytes) keys with
                    | Some k => Ok (Fingerprint k)
                    | None => Err NotVerified
                    end
                end
       end.

Definition SignRuleset (raw priv : bytes) : res SigError SignatureEnvelope :=
  if negb (length priv =? PrivateKeySize)%nat then Err (SigningKeySize (length priv))
  else
    let digest := RulesDigest raw in
    Ok (mkEnvelope sigAlgorithm (string_of_bytes (KeyFingerprint (ed_public priv))) digest
          (encode64 (ed_sign priv (SigningMessage digest)))).

(** LoadRulesBytes. *)
Definition LoadRulesBytes (raw : bytes) : res SigError RuleConfig :=
  match decode_rules raw with
  | None => Err ParseRules
  | Some rc => match validateRuleConfig compiles rc with Err e => Err (RulesInvalid e) | Ok _ => Ok rc end
  end.

Definition unverified_warning (sigFile : string) : string :=
  ("no ruleset signature at " ++ sigFile ++ ": the ruleset is UNVERIFIED")%string.

Definition verifyRulesSignature (raw : bytes) (rulesFile : string) (policy : SignaturePolicy)
    : RulesSignature * option SigError :=
  let sigFile := EffectiveSignatureFile policy rulesFile in
  let status := mkSignature (PMode policy) false [] sigFile (PublicKeyFile policy) 0 "" None in
  let failed n e := (mkSignature (PMode policy) false [] sigFile (PublicKeyFile policy) n "" (Some e), Some e) in
  if String.eqb (PublicKeyFile policy) "" then failed 0%nat NoKeyFile
  else match LoadPublicKeys (PublicKeyFile policy) with
       | Err e => failed 0%nat e
       | Ok keys =>
           let n := length keys in
           match read_file sigFile with
           | NotExist =>
               if String.eqb (PMode policy) SigModePermissive
               then (mkSignature (PMode policy) false [] sigFile (PublicKeyFile policy) n (unverified_warning sigFile) None, None)
               else failed n ReadSignature
           | ReadFails => failed n ReadSignature
           | Content sigRaw =>
               match ParseSignatureEnvelope sigRaw with
               | Err e => failed n e
               | Ok env =>
                   match VerifyRuleset raw env keys with
                   | Err e => failed n e
                   | Ok fp => (mkSignature (PMode policy) true fp sigFile (PublicKeyFile policy) n "" None, None)
                   end
               end
           end
       end.

Definition LoadRulesFileWithPolicy (path : string) (policy : SignaturePolicy)
    : RuleConfig * RulesProvenance * option SigError :=
  match read_file path with
  | Content raw =>
      match LoadRulesBytes raw with
      | Err e => (zero_config, zero_provenance, Some e)
      | Ok rc =>
          let max := MaxAchievableScore rc in
          let prov sig := mkProvenance (RulesDigest raw) (length (Rules rc)) (QuarantineThreshold rc) max
                            (fge max (QuarantineThreshold rc)) sig in
          if negb (Active policy) then
            (rc, prov (mkSignature (effectiveSigMode (PMode policy)) false [] "" "" 0 "" None), None)
          else
            match verifyRulesSignature raw path policy with
            | (status, Some e) => (zero_config, prov status, Some e)
            | (status, None) => (rc, prov status, None)
            end
      end
  | _ => (zero_config, zero_provenance, Some ReadRules)
  end.

Definition LoadRulesFile (path : string) : RuleConfig * RulesProvenance * option SigError :=
  LoadRulesFileWithPolicy path no_policy.

(** ** Trusted keys *)

Record keyring (keys : list TrustedKey) : Prop := {
  keys_distinct : NoDup (Fingerprint <$> keys);
  keys_named : Forall (λ k, Fingerprint k = KeyFingerprint (TKey k)) keys;
}.

Lemma keyring_nil : keyring [].
Proof. split; constructor. Qed.

Lemma add_key_ring keys pub : keyring keys → keyring (add_key keys pub).
Proof.
  intros [Hd Hn]. unfold add_key. destruct (bool_decide (KeyFingerprint pub ∈ Fingerprint <$> keys)) eqn:Hb; [done|].
  apply bool_decide_eq_false_1 in Hb. split.
  - rewrite fmap_app. apply NoDup_app. split_and!; [done| |by apply NoDup_singleton].
    intros x Hx ->%list_elem_of_singleton. done.
  - apply Forall_app. split; [done|]. by repeat constructor.
Qed.

Lemma pem_loop_ring fuel : ∀ rest keys rest' keys',
  keyring keys → pem_loop fuel rest keys = Ok (rest', keys') → keyring keys'.
Proof.
  induction fuel as [|n IH]; intros rest keys rest' keys' Hk; cbn [pem_loop]; [by intros [= _ <-]|].
  destruct (pem_decode rest) as [b|]; [|by intros [= _ <-]].
  destruct (negb _); [done|]. destruct (parse_pkix (PBytes b)) as [| |pub]; [done|done|].
  by apply IH, add_key_ring.
Qed.

Lemma line_loop_ring lines : ∀ i keys keys', keyring keys → line_loop i lines keys = Ok keys' → keyring keys'.
Proof.
  induction lines as [|l lines IH]; intros i keys keys' Hk; cbn [line_loop]; [by intros [= <-]|].
  destruct (_ || _); [by apply IH|]. destruct (DecodeString _) as [d|]; [|done].
  destruct (negb _); [done|]. by apply IH, add_key_ring.
Qed.

Lemma parse_keys_ring raw keys : ParsePublicKeys raw = Ok keys → keyring keys ∧ keys ≠ [].
Proof.
  unfold ParsePublicKeys. destruct (pem_loop _ raw []) as [[rest ks]|] eqn:Hp; [|done].
  destruct (line_loop 0 _ ks) as [ks'|] eqn:Hl; [|done].
  destruct ks' as [|k ks']; [done|]. intros [= <-]. split; [|done].
  eapply line_loop_ring; [|exact Hl]. eapply pem_loop_ring; [exact keyring_nil|exact Hp].
Qed.

(** ** What verification establishes *)

(** A trusted key of the file [keyFile] verifies the signature in [sigFile]
    over the digest of the bytes. *)
Definition signed_by (raw : bytes) (keyFile sigFile : string) (k : TrustedKey) : Prop :=
  ∃ keysRaw keys sigRaw env sig,
    read_file keyFile = Content keysRaw ∧ ParsePublicKeys keysRaw = Ok keys ∧ k ∈ keys ∧
    read_file sigFile = Content sigRaw ∧ ParseSignatureEnvelope sigRaw = Ok env ∧
    equal_fold (RulesDigest raw) (ESHA256 env) = true ∧
    DecodeString (ESignature env) = Some sig ∧ length sig = SignatureSize ∧
    ed_verify (TKey k) (SigningMessage (RulesDigest raw)) sig = true.

Lemma verify_ok raw env keys fp :
  VerifyRuleset raw env keys = Ok fp →
  ∃ k sig, k ∈ keys ∧ fp = Fingerprint k ∧ equal_fold (RulesDigest raw) (ESHA256 env) = true ∧
    DecodeString (ESignature env) = Some sig ∧ length sig = SignatureSize ∧
    ed_verify (TKey k) (SigningMessage (RulesDigest raw)) sig = true.
Proof.
  unfold VerifyRuleset. destruct (equal_fold _ _) eqn:He; [|done]. cbn [negb].
  destruct (DecodeString (ESignature env)) as [sig|] eqn:Hs; [|done].
  destruct (Nat.eqb_spec (length sig) SignatureSize) as [Hl|]; [|done]. cbn [negb].
  destruct (List.find _ keys) as [k|] eqn:Hf; [|by destruct keys].
  intros H. assert (fp = Fingerprint k) as -> by (destruct keys; [done|]; by injection H as <-).
  apply find_some in Hf as [Hk%list_elem_of_In Hv]. by exists k, sig.
Qed.

Lemma verify_signature_ok raw path policy status :
  verifyRulesSignature raw path policy = (status, None) →
  SError status = None ∧ SMode status = PMode policy ∧
  ((Verified status = true ∧
      ∃ k, signed_by raw (PublicKeyFile policy) (EffectiveSignatureFile policy path) k ∧
           SKeyFingerprint status = Fingerprint k) ∨
   (Verified status = false ∧ PMode policy = SigModePermissive ∧
      read_file (EffectiveSignatureFile policy path) = NotExist ∧
      Warning status = unverified_warning (EffectiveSignatureFile policy path))).
Proof.
  unfold verifyRulesSignature. destruct (String.eqb (PublicKeyFile policy) ""); [done|].
  unfold LoadPublicKeys. destruct (read_file (PublicKeyFile policy)) as [keysRaw| |] eqn:Hk; [|done|done].
  destruct (ParsePublicKeys keysRaw) as [keys|] eqn:Hp; [|done].
  destruct (read_file (EffectiveSignatureFile policy path)) as [sigRaw| |] eqn:Hs; [| |done].
  - destruct (ParseSignatureEnvelope sigRaw) as [env|] eqn:He; [|done].
    destruct (VerifyRuleset raw env keys) as [fp|] eqn:Hv; [|done].
    intros [= <-]. cbn. split_and!; [done|done|]. left. split; [done|].
    apply verify_ok in Hv as (k & sig & ? & -> & ? & ? & ? & ?). exists k. split; [|done].
    by exists keysRaw, keys, sigRaw, env, sig.
  - destruct (String.eqb_spec (PMode policy) SigModePermissive) as [Hm|]; [|done].
    intros [= <-]. cbn. split_and!; [done|done|]. by right.
Qed.

Lemma load_ok path policy rc prov :
  LoadRulesFileWithPolicy path policy = (rc, prov, None) →
  ∃ raw, read_file path = Content raw ∧ decode_rules raw = Some rc ∧ validateRuleConfig compiles rc = Ok () ∧
    PSHA256 prov = RulesDigest raw ∧
    (Active policy = false ∧ Verified (PSignature prov) = false ∨
     Active policy = true ∧ verifyRulesSignature raw path policy = (PSignature prov, None)).
Proof.
  unfold LoadRulesFileWithPolicy. destruct (read_file path) as [raw| |] eqn:Hr; [|done|done].
  unfold LoadRulesBytes. destruct (decode_rules raw) as [rc'|] eqn:Hd; [|done].
  destruct (validateRuleConfig compiles rc') as [[]|] eqn:Hv; [|done].
  destruct (Active policy); cbn [negb].
  - destruct (verifyRulesSignature raw path policy) as [status [e|]] eqn:Hs; [done|]. intros [= <- <-].
    exists raw. cbn. split_and!; try done. by right.
  - intros [= <- <-]. exists raw. cbn. split_and!; try done. by left.
Qed.

(** C29. Nothing unsigned is enforced under the required mode.  When a
    ruleset is loaded without an error, it is the decoded, accepted content
    of the file whose digest is recorded.  In required mode a key of the
    trusted file verified the signature over exactly that digest, and the
    record names it; in permissive mode so it is, or the signature file does
    not exist and the record says the ruleset is unverified, with a
    warning; and a record that says verified is never wrong about it. *)
Theorem enforced_ruleset_is_signed path policy rc prov :
  LoadRulesFileWithPolicy path policy = (rc, prov, None) →
  ∃ raw, read_file path = Content raw ∧ decode_rules raw = Some rc ∧ validateRuleConfig compiles rc = Ok () ∧
    PSHA256 prov = RulesDigest raw ∧
    (Verified (PSignature prov) = true →
       ∃ k, signed_by raw (PublicKeyFile policy) (EffectiveSignatureFile policy path) k ∧
            SKeyFingerprint (PSignature prov) = Fingerprint k) ∧
    (PMode policy = SigModeRequired → Verified (PSignature prov) = true) ∧
    (PMode policy = SigModePermissive → Verified (PSignature prov) = false →
       read_file (EffectiveSignatureFile policy path) = NotExist ∧
       Warning (PSignature prov) = unverified_warning (EffectiveSignatureFile policy path)).
Proof.
  intros (raw & Hr & Hd & Hv & Hp & Hs)%load_ok. exists raw. split_and!; try done.
  - intros Ht. destruct Hs as [[_ Hf]|[_ (_ & _ & [[_ ?]|[Hf _]])%verify_signature_ok]]; [congruence|done|congruence].
  - intros Hm. destruct Hs as [[Ha _]|[_ (_ & _ & [[? _]|(_ & Hp' & _)])%verify_signature_ok]]; [|done|].
    + unfold Active in Ha. rewrite Hm in Ha. done.
    + rewrite Hm in Hp'. done.
  - intros Hm Hf. destruct Hs as [[Ha _]|[_ (_ & _ & [[? _]|(_ & _ & ? & ?)])%verify_signature_ok]]; [|congruence|done].
    unfold Active in Ha. rewrite Hm in Ha. done.
Qed.

(** A refused ruleset is not enforced, and its refusal is on record.
    Whenever loading fails the configuration returned is empty, which
    validation never accepts; and when the file itself was readable and
    well-formed, the record holds its digest, says it is not verified and
    why. *)
Theorem refused_ruleset_is_recorded path policy rc prov e :
  LoadRulesFileWithPolicy path policy = (rc, prov, Some e) →
  rc = zero_config ∧ validateRuleConfig compiles rc = Err RulesEmpty ∧
  Verified (PSignature prov) = false ∧
  ∀ raw rc', read_file path = Content raw → LoadRulesBytes raw = Ok rc' →
    PSHA256 prov = RulesDigest raw ∧ RuleCount prov = length (Rules rc') ∧ SError (PSignature prov) = Some e.
Proof.
  unfold LoadRulesFileWithPolicy. destruct (read_file path) as [raw| |] eqn:Hr.
  2,3: intros [= <- <- <-]; split_and!; done.
  destruct (LoadRulesBytes raw) as [rc'|e'] eqn:Hl.
  2: { intros [= <- <- <-]. split_and!; [done..|]. intros raw' rc' [= ->] Hl'. congruence. }
  destruct (Active policy); cbn [negb]; [|done].
  destruct (verifyRulesSignature raw path policy) as [status [e'|]] eqn:Hs; [|done]. intros [= <- <- <-].
  assert (Hst : Verified status = false ∧ SError status = Some e').
  { unfold verifyRulesSignature in Hs. repeat (case_match; try done); by injection Hs as <- <-. }
  destruct Hst as [H1 H2]. cbn. split_and!; [done..|]. intros raw' rc'' [= ->] Hl'.
  split_and!; [done|congruence|done].
Qed.

(** ** Signing *)

Lemma hex_pair_check :
  forallb (λ x, let x := Z.of_nat x in
    bool_decide (decode_hex [hex_digit (x / 16); hex_digit (x mod 16)] = Some [x]) &&
    bool_decide (to_lower_ascii [hex_digit (x / 16); hex_digit (x mod 16)] = [hex_digit (x / 16); hex_digit (x mod 16)]))
    (seq 0 256) = true.
Proof. vm_compute. reflexivity. Qed.

Lemma hex_pair x : is_byte x →
  decode_hex [hex_digit (x / 16); hex_digit (x mod 16)] = Some [x] ∧
  to_lower_ascii [hex_digit (x / 16); hex_digit (x mod 16)] = [hex_digit (x / 16); hex_digit (x mod 16)].
Proof.
  unfold is_byte. intros Hx. pose proof (check_below_Z (λ x,
    bool_decide (decode_hex [hex_digit (x / 16); hex_digit (x mod 16)] = Some [x]) &&
    bool_decide (to_lower_ascii [hex_digit (x / 16); hex_digit (x mod 16)] = [hex_digit (x / 16); hex_digit (x mod 16)]))
    256 hex_pair_check x Hx) as H.
  by apply andb_true_iff in H as [?%bool_decide_eq_true_1 ?%bool_decide_eq_true_1].
Qed.

Lemma hex_encode_spec b :
  Forall is_byte b → decode_hex (hex_encode b) = Some b ∧ to_lower_ascii (hex_encode b) = hex_encode b ∧
  length (hex_encode b) = (2 * length b)%nat.
Proof.
  induction 1 as [|x b Hx Hb (IH1 & IH2 & IH3)]; [done|]. unfold hex_encode. rewrite bind_cons. fold (hex_encode b).
  destruct (hex_pair x Hx) as [H1 H2]. cbn [app]. split_and!.
  - cbn [decode_hex] in *. destruct (hexNibble _); [|done]. destruct (hexNibble _); [|done].
    rewrite IH1. cbn in H1 |- *. congruence.
  - unfold to_lower_ascii in *. cbn [fmap list_fmap] in *. rewrite IH2. by injection H2 as -> ->.
  - cbn [length]. rewrite IH3. lia.
Qed.

Lemma hex_digit_no_slash : ∀ n, (0 ≤ n < 16)%Z → negb (Ascii.eqb (ascii_of_N (Z.to_N (hex_digit n))) "/"%char) = true.
Proof. apply (check_below_Z (λ n, negb (Ascii.eqb (ascii_of_N (Z.to_N (hex_digit n))) "/"%char)) 16). by vm_compute. Qed.

Lemma hex_no_slash (b : bytes) : Forall is_byte b → no_char "/"%char (string_of_bytes (hex_encode b)) = true.
Proof.
  induction 1 as [|x b Hx Hb IH]; [done|]. unfold hex_encode. rewrite bind_cons. fold (hex_encode b).
  cbn [app]. rewrite !string_of_bytes_cons. cbn [no_char]. rewrite IH, !andb_true_r. unfold is_byte in Hx.
  rewrite !hex_digit_no_slash; [done|by apply Z.mod_pos_bound|].
  split; [apply Z.div_pos; lia|apply Z.div_lt_upper_bound; lia].
Qed.

(** No line break in base64. *)
Lemma encode64_no_break p : Forall is_byte p → filter (λ b, b ≠ 10 ∧ b ≠ 13) (encode64 p) = encode64 p.
Proof.
  intros Hp. destruct (encode64_shape p Hp) as (w & pad & -> & Hw & Hpad & _).
  assert (Hall : Forall (λ b, b ≠ 10 ∧ b ≠ 13) (w ++ pad)).
  { apply Forall_app. split.
    - eapply Forall_impl; [exact Hw|]. cbv beta. intros b Hb. by split; intros ->.
    - repeat (apply elem_of_cons in Hpad as [->|Hpad]; [by repeat constructor|]). by apply elem_of_nil in Hpad. }
  clear - Hall. induction Hall as [|b l Hb Hl IH]; [done|]. by rewrite filter_cons, decide_True, IH by done.
Qed.

(** What the code relies on: signatures of 64 bytes that the public key
    verifies, and digests of 32 bytes. *)
Class CryptoOk : Prop := {
  verify_sign : ∀ priv m, length priv = PrivateKeySize → ed_verify (ed_public priv) m (ed_sign priv m) = true;
  sign_length : ∀ priv m, length (ed_sign priv m) = SignatureSize ∧ Forall is_byte (ed_sign priv m);
  sha256_length : ∀ b, length (sha256 b) = 32%nat ∧ Forall is_byte (sha256 b);
}.

(** What the signing tool writes is accepted, for those bytes alone.
    The envelope made for a ruleset passes the envelope checks and
    verifies against every keyring that holds the signer's key; and with
    whatever keys, it is never accepted for a ruleset with another SHA-256
    digest. *)
Theorem signature_round_trip {crypto : CryptoOk} raw priv :
  length priv = PrivateKeySize →
  ∃ env, SignRuleset raw priv = Ok env ∧
    (∀ sigRaw, decode_envelope sigRaw = Some env → ParseSignatureEnvelope sigRaw = Ok env) ∧
    (∀ keys, ed_public priv ∈ TKey <$> keys →
       ∃ k, k ∈ keys ∧ VerifyRuleset raw env keys = Ok (Fingerprint k)) ∧
    (∀ raw' keys fp, VerifyRuleset raw' env keys = Ok fp → sha256 raw' = sha256 raw).
Proof.
  intros Hpriv. destruct crypto as [Hvs Hsl Hsha].
  unfold SignRuleset. rewrite Hpriv, Nat.eqb_refl. cbn [negb]. eexists. split; [done|].
  destruct (Hsha raw) as [Hlen Hbytes]. destruct (hex_encode_spec _ Hbytes) as (Hdec & Hlow & Hhl).
  split_and!.
  - intros sigRaw Hd. unfold ParseSignatureEnvelope. rewrite Hd. cbn [EAlgorithm ESHA256].
    unfold RulesDigest. rewrite String.eqb_refl, Hhl, Hlen, Hdec. done.
  - intros keys Hk. unfold VerifyRuleset. cbn [ESHA256 ESignature].
    unfold equal_fold. rewrite bool_decide_eq_true_2 by done. cbn [negb].
    destruct (Hsl priv (SigningMessage (RulesDigest raw))) as [Hs64 Hsb].
    unfold DecodeString. rewrite encode64_no_break, decode64_encode by done. rewrite Hs64. cbn [negb Nat.eqb SignatureSize].
    destruct (List.find _ keys) as [k|] eqn:Hf.
    + apply find_some in Hf as [Hin%list_elem_of_In _]. exists k. split; [done|]. by destruct keys; [apply elem_of_nil in Hin|].
    + exfalso. apply list_elem_of_fmap in Hk as (k & Ek & Hin). apply list_elem_of_In in Hin.
      pose proof (find_none _ _ Hf k Hin) as Hn. cbv beta in Hn. rewrite <- Ek, Hvs in Hn by done. done.
  - intros raw' keys fp (k & sig & _ & _ & He & _)%verify_ok. cbn [ESHA256] in He.
    apply bool_decide_eq_true_1 in He. destruct (Hsha raw') as [Hlen' Hbytes'].
    destruct (hex_encode_spec _ Hbytes') as (Hdec' & Hlow' & _). unfold RulesDigest in He.
    rewrite Hlow, Hlow' in He. congruence.
Qed.

(** A keyring names its keys.  What ParsePublicKeys accepts holds a
    key, its fingerprints are those of its keys, derived and not chosen,
    and no two are alike, however often and in whichever form a key is
    listed. *)
Theorem keyring_well_formed raw keys :
  ParsePublicKeys raw = Ok keys →
  keys ≠ [] ∧ NoDup (Fingerprint <$> keys) ∧ Forall (λ k, Fingerprint k = KeyFingerprint (TKey k)) keys.
Proof. intros [[? ?] ?]%parse_keys_ring. done. Qed.
End sign.

(** ** Witnesses: a toy scheme *)

Definition toy_sha (b : bytes) : bytes := replicate 31 0 ++ [foldr Z.add 0 b mod 256].
Definition toy_sign (priv m : bytes) : bytes := replicate 64 7.
Definition toy_verify (pub m sig : bytes) : bool := bool_decide (sig = replicate 64 7).
Definition toy_public (priv : bytes) : bytes := take 32 priv.
Definition toy_rule : Rule := mkRule "any" ["exec:"%string] fone MatchSubstring "" "" fzero.
Definition toy_rules : RuleConfig := mkRuleConfig [toy_rule] fone.
Definition toy_envelope : SignatureEnvelope :=
  mkEnvelope sigAlgorithm "" (RulesDigest toy_sha [1]) (encode64 (replicate 64 7)).
Definition toy_keys : bytes := encode64 (replicate 32 9).
Definition toy_files (path : string) : FileRead :=
  if String.eqb path "rules" then Content [1]
  else if String.eqb path "rules.sig" then Content [2]
  else if String.eqb path "keys" then Content toy_keys else NotExist.
Definition toy_load : string → SignaturePolicy → RuleConfig * RulesProvenance * option SigError :=
  LoadRulesFileWithPolicy toy_sha toy_verify (λ _, None) (λ _, NotPKIX) (λ _, Some toy_envelope)
    (λ _, Some toy_rules) (λ _, true) toy_files.
Definition toy_policy : SignaturePolicy := mkPolicy SigModeRequired "keys" "".

Lemma enforced_ruleset_is_signed_witness :
  Verified (PSignature (toy_load "rules" toy_policy).1.2) = true.
Proof.
  destruct (enforced_ruleset_is_signed toy_sha toy_verify (λ _, None) (λ _, NotPKIX) (λ _, Some toy_envelope)
    (λ _, Some toy_rules) (λ _, true) toy_files "rules" toy_policy toy_rules (toy_load "rules" toy_policy).1.2)
    as (raw & _ & _ & _ & _ & _ & H & _); [vm_compute; reflexivity|]. apply H. reflexivity.
Defined.

(** No file holds the keys. *)
Lemma refused_ruleset_is_recorded_witness :
  (toy_load "rules" (mkPolicy SigModePermissive "other" "")).1.1 = zero_config.
Proof.
  destruct (refused_ruleset_is_recorded toy_sha toy_verify (λ _, None) (λ _, NotPKIX) (λ _, Some toy_envelope)
    (λ _, Some toy_rules) (λ _, true) toy_files "rules" (mkPolicy SigModePermissive "other" "") zero_config
    (toy_load "rules" (mkPolicy SigModePermissive "other" "")).1.2 ReadKeys) as (H & _); [vm_compute; reflexivity|].
  vm_compute. reflexivity.
Defined.

Lemma toy_crypto : CryptoOk toy_sha toy_verify toy_sign toy_public.
Proof.
  split; [done|intros; split; [done|apply (bool_decide_unpack _); unfold is_byte; vm_compute; done]|].
  intros b. unfold toy_sha. split; [done|]. apply Forall_app. split.
  - apply (bool_decide_unpack _). unfold is_byte. vm_compute. done.
  - constructor; [|constructor]. unfold is_byte. apply Z.mod_pos_bound. lia.
Qed.

Lemma signature_round_trip_witness :
  ∃ env, SignRuleset toy_sha toy_sign toy_public [1] (replicate 64 9) = Ok env ∧
    ∃ k, k ∈ [mkTrusted [] (replicate 32 9)] ∧
      VerifyRuleset toy_sha toy_verify [1] env [mkTrusted [] (replicate 32 9)] = Ok (Fingerprint k).
Proof.
  destruct (@signature_round_trip toy_sha toy_verify toy_sign toy_public (λ _, None) toy_crypto [1] (replicate 64 9) eq_refl)
    as (env & H1 & _ & H2 & _). exists env. split; [exact H1|]. apply H2. by left.
Defined.

Lemma keyring_well_formed_witness :
  ∃ keys, ParsePublicKeys toy_sha (λ _, None) (λ _, NotPKIX) toy_keys = Ok keys ∧ keys ≠ [].
Proof.
  eexists. split; [vm_compute; reflexivity|].
  apply (keyring_well_formed toy_sha (λ _, None) (λ _, NotPKIX) toy_keys). vm_compute. reflexivity.
Defined.
