(* ===== verification/EScan.v ===== *)
(** internal/scan/scan.go with engine/stream.go: the scan of an item.

    A scan is [None] when it does not return, and otherwise a result or an
    error.  Detectors are values of the interface [Detector]; regexp,
    bytes.ToLower and the text libraries are parameters. *)
From S2P Require Import Prelude GoStrings GoFloat Utf8 EMatch EViews EScore.
Local Open Scope Z_scope.

(** ** Computations that may fail or not return *)

Definition run (A : Type) : Type := option (res string A).
Definition ret {A} (a : A) : run A := Some (Ok a).
Definition fail {A} (e : string) : run A := Some (Err e).
Definition rbind {A B} (m : run A) (f : A → run B) : run B :=
  match m with
  | Some (Ok a) => f a
  | Some (Err e) => Some (Err e)
  | None => None
  end.
Notation "x <~~ m ;; k" := (rbind m (λ x, k)) (at level 100, m at next level, right associativity) : glovebox_scope.
Local Open Scope glovebox_scope.

(** fmt.Errorf with a stage before the cause. *)
Definition at_stage {A} (stage : string) (m : run A) : run A :=
  match m with Some (Err e) => Some (Err (stage ++ ": " ++ e)%string) | _ => m end.

(** ** stream.go *)

Definition DefaultSampleSize : nat := Z.to_nat 65536.
Definition ScanFunc : Type := bytes → run (list Signal).

Fixpoint run_all (scans : list ScanFunc) (content : bytes) (allSignals : list Signal) : run (list Signal) :=
  match scans with
  | [] => ret allSignals
  | scan :: rest => signals <~~ scan content;; run_all rest content (allSignals ++ signals)
  end.

Definition ScanContent (content : bytes) (matchers detectors : list ScanFunc) : run (list Signal) :=
  allSignals <~~ run_all matchers content [];;
  run_all detectors content allSignals.

Definition SampleContent (content : bytes) (sampleSize : nat) : bytes :=
  if (length content <=? sampleSize * 2)%nat then content
  else take sampleSize content ++ drop (length content - sampleSize) content.

(** ** Detectors (detector/registry.go) *)

Record Detector := mkDetector {
  Detect : bytes → res string (list Signal);
  AllowSampling : bool;
}.
Definition Registry : Type := gmap string Detector.

(** ** scan.go *)

Record Scanner := mkScanner {
  matchers : list ScanFunc;
  detectors : list ScanFunc;
  boostConfig : gmap string spec_float;
  threshold : spec_float;
}.

Definition Matcher : Type := bytes → list string → option (list MatchResult).

Definition matched_text (r : MatchResult) : string :=
  (MPattern r ++ " at " ++ itoa (Z.of_nat (MPosition r)))%string.

Definition makeMatcherScanFunc (m : Matcher) (rule : Rule) : ScanFunc := λ content,
  match m content (RPatterns rule) with
  | None => None
  | Some [] => ret []
  | Some results => ret [mkSignal (RName rule) (RWeight rule) (join "; " (matched_text <$> results))]
  end.

Definition detector_func (d : Detector) (rule : Rule) : ScanFunc := λ content,
  let content := if AllowSampling d then SampleContent content DefaultSampleSize else content in
  match Detect d content with
  | Err e => fail e
  | Ok signals => ret ((λ s, mkSignal (RName rule) (RWeight rule) (SMatched s)) <$> signals)
  end.

Section scan.
Context {text_lib : TextLib}.
Context (to_lower : bytes → bytes) (compiles : string → bool) (find_all_index : string → bytes → list nat).

(** NewRegexMatcher and its Match, which takes the compiled patterns. *)
Definition NewRegexMatcher (patterns : list string) : res string Matcher :=
  match List.find (λ p, negb (compiles p)) patterns with
  | Some p => Err ("compile pattern " ++ p)%string
  | None => Ok (λ content _, Some (RegexMatch find_all_index patterns content))
  end.

Fixpoint buildScanFuncs (rules : list Rule) (registry : Registry) : res string (list ScanFunc * list ScanFunc) :=
  match rules with
  | [] => Ok ([], [])
  | rule :: rest =>
      if String.eqb (RMatchType rule) MatchSubstring then
        match buildScanFuncs rest registry with
        | Ok (ms, ds) => Ok (makeMatcherScanFunc SubstringMatch rule :: ms, ds)
        | Err e => Err e
        end
      else if String.eqb (RMatchType rule) MatchSubstringCaseInsensitive then
        match buildScanFuncs rest registry with
        | Ok (ms, ds) => Ok (makeMatcherScanFunc (CaseInsensitiveMatch to_lower) rule :: ms, ds)
        | Err e => Err e
        end
      else if String.eqb (RMatchType rule) MatchRegex then
        match NewRegexMatcher (RPatterns rule) with
        | Err e => Err ("compile regex for rule " ++ RName rule ++ ": " ++ e)%string
        | Ok m =>
            match buildScanFuncs rest registry with
            | Ok (ms, ds) => Ok (makeMatcherScanFunc m rule :: ms, ds)
            | Err e => Err e
            end
        end
      else if String.eqb (RMatchType rule) MatchCustomDetector then
        match registry !! RDetector rule with
        | None => Err ("unknown detector " ++ RDetector rule ++ " for rule " ++ RName rule)%string
        | Some d =>
            match buildScanFuncs rest registry with
            | Ok (ms, ds) => Ok (ms, detector_func d rule :: ds)
            | Err e => Err e
            end
        end
      else buildScanFuncs rest registry
  end.

Definition boost_config (rules : list Rule) : gmap string spec_float :=
  foldl (λ m r, if is_booster r then <[RName r := RBoostFactor r]> m else m) ∅ rules.

Definition New (rules : RuleConfig) (registry : Registry) : res string Scanner :=
  match buildScanFuncs (Rules rules) registry with
  | Err e => Err e
  | Ok (ms, ds) => Ok (mkScanner ms ds (boost_config (Rules rules)) (QuarantineThreshold rules))
  end.

Definition names (l : list Signal) : list string := SName <$> l.

Definition appendDeduped (dst src : list Signal) : list Signal :=
  dst ++ filter (λ s, SName s ∉ names dst) src.

(** One more view, when it is not nil. *)
Definition scan_view (s : Scanner) (stage : string) (view : option bytes) (ds : list ScanFunc)
    (signals : list Signal) : run (list Signal) :=
  match view with
  | None => ret signals
  | Some content =>
      extra <~~ at_stage ("scan " ++ stage) (ScanContent content (matchers s) ds);;
      ret (appendDeduped signals extra)
  end.

Fixpoint scan_views (s : Scanner) (views : list (string * option bytes * list ScanFunc)) (signals : list Signal)
    : run (list Signal) :=
  match views with
  | [] => ret signals
  | (stage, view, ds) :: rest => signals <~~ scan_view s stage view ds signals;; scan_views s rest signals
  end.

(** The views after the normalized one, in the order they are scanned. *)
Definition extra_views (s : Scanner) (pp : Preprocessed) : list (string * option bytes * list ScanFunc) :=
  [("raw html", RawHTML pp, []); ("folded", Folded pp, []); ("decoded", Decoded pp, []);
   ("unescaped", Unescaped pp, []); ("unescaped-html", UnescapedHTML pp, []);
   ("reordered", Reordered pp, []); ("pre-scrub", PreScrub pp, detectors s)]%string.

Definition present_fields (fields : list string) : list string :=
  filter (λ f, String.eqb (trim_space f) "" = false) fields.

Definition newline : string := String (ascii_of_nat 10) EmptyString.

Definition metadata_views (pp : Preprocessed) : list (string * option bytes * list ScanFunc) :=
  [("metadata", Some (Normalized pp), []); ("metadata", Folded pp, []); ("metadata", Decoded pp, []);
   ("metadata", Unescaped pp, []); ("metadata", Reordered pp, [])]%string.

Definition metadata_content (fields : list string) : bytes :=
  bytes_of_string (join newline (present_fields fields)).

Definition scanMetadata (s : Scanner) (fields : list string) : run (list Signal) :=
  match present_fields fields with
  | [] => ret []
  | _ => scan_views s (metadata_views (Preprocess (metadata_content fields) "text/plain")) []
  end.

(** The signals that are scored, and the boosters that fired. *)
Definition scored (s : Scanner) (signals : list Signal) : list Signal :=
  filter (λ sig, boostConfig s !! SName sig = None) signals.
Definition boosts (s : Scanner) (signals : list Signal) : list BoostRule :=
  omap (λ sig, mkBoost (SName sig) <$> boostConfig s !! SName sig) signals.

Definition ScanWithMetadata (s : Scanner) (content : bytes) (contentType : string) (metadata : list string)
    : run ScanResult :=
  let pp := Preprocess content contentType in
  signals <~~ at_stage "scan normalized" (ScanContent (Normalized pp) (matchers s) (detectors s));;
  signals <~~ scan_views s (extra_views s pp) signals;;
  metaSignals <~~ scanMetadata s metadata;;
  let signals := appendDeduped signals metaSignals in
  let result := ScoreSignals (scored s signals) (boosts s signals) (threshold s) in
  ret (mkScanResult signals (TotalScore result) (RVerdict result)).

Definition Scan (s : Scanner) (content : bytes) (contentType : string) : run ScanResult :=
  ScanWithMetadata s content contentType [].
End scan.
