(* ===== verification/EScanFacts.v ===== *)
(** What a scan reports: every rule against every view, and the verdict. *)
From S2P Require Import Prelude GoStrings GoFloat Utf8 EMatch EInvisible EFold EDecode EViews EScore EScan.
Local Open Scope Z_scope.
Local Open Scope glovebox_scope.

Lemma rbind_ok {A B} (m : run A) (f : A → run B) b :
  rbind m f = Some (Ok b) ↔ ∃ a, m = Some (Ok a) ∧ f a = Some (Ok b).
Proof.
  destruct m as [[a|e]|]; cbn [rbind]; [|split; [done|by intros (? & ? & _)]..].
  split; [by exists a|by intros (a' & [= <-] & ?)].
Qed.

Lemma at_stage_ok {A} stage (m : run A) a : at_stage stage m = Some (Ok a) ↔ m = Some (Ok a).
Proof. by destruct m as [[|]|]. Qed.

Lemma ret_ok {A} (a b : A) : ret a = Some (Ok b) ↔ a = b.
Proof. unfold ret. split; congruence. Qed.

(** ** One content *)

(** The function of a rule ran on a content, and this is what it found. *)
Definition found_by (f : ScanFunc) (content : bytes) (sigs : list Signal) : Prop := f content = Some (Ok sigs).

Lemma run_all_ok scans content : ∀ acc l,
  run_all scans content acc = Some (Ok l) →
  (∀ sig, sig ∈ l ↔ sig ∈ acc ∨ ∃ f sigs, f ∈ scans ∧ found_by f content sigs ∧ sig ∈ sigs) ∧
  (∀ f, f ∈ scans → ∃ sigs, found_by f content sigs).
Proof.
  induction scans as [|f scans IH]; intros acc l; cbn [run_all].
  { intros <-%ret_ok. split; [|intros f Hf; by apply elem_of_nil in Hf]. intros sig. split; [by left|].
    intros [?|(f & sigs & Hf & _)]; [done|by apply elem_of_nil in Hf]. }
  intros (sigs & Hf & Hl)%rbind_ok. destruct (IH _ _ Hl) as [H1 H2]. split.
  - intros sig. rewrite H1, elem_of_app. split.
    + intros [[?|?]|(g & sg & Hg & ?)]; [by left|right; exists f, sigs; by split; [left|]|].
      right. exists g, sg. by split; [right|].
    + intros [?|(g & sg & [->|Hg]%elem_of_cons & Hr & ?)]; [by left; left| |].
      * left. right. unfold found_by in Hr. rewrite Hf in Hr. by injection Hr as ->.
      * right. by exists g, sg.
  - intros g [->|Hg]%elem_of_cons; [by exists sigs|by apply H2].
Qed.

Lemma ScanContent_ok content ms ds l :
  ScanContent content ms ds = Some (Ok l) →
  (∀ sig, sig ∈ l ↔ ∃ f sigs, f ∈ ms ++ ds ∧ found_by f content sigs ∧ sig ∈ sigs) ∧
  (∀ f, f ∈ ms ++ ds → ∃ sigs, found_by f content sigs).
Proof.
  unfold ScanContent. intros (a & Ha & Hl)%rbind_ok.
  destruct (run_all_ok _ _ _ _ Ha) as [A1 A2]. destruct (run_all_ok _ _ _ _ Hl) as [L1 L2]. split.
  - intros sig. rewrite L1, A1. setoid_rewrite elem_of_app. split.
    + intros [[H|(f & sg & ? & ?)]|(f & sg & ? & ?)]; [by apply elem_of_nil in H|exists f, sg; tauto|exists f, sg; tauto].
    + intros (f & sg & [?|?] & ?); [left; right; by exists f, sg|right; by exists f, sg].
  - intros f [?|?]%elem_of_app; [by apply A2|by apply L2].
Qed.

(** ** Views *)

Lemma elem_of_deduped dst src sig :
  sig ∈ appendDeduped dst src ↔ sig ∈ dst ∨ sig ∈ src ∧ SName sig ∉ names dst.
Proof. unfold appendDeduped. rewrite elem_of_app, list_elem_of_filter. tauto. Qed.

Lemma names_deduped dst src n : n ∈ names (appendDeduped dst src) ↔ n ∈ names dst ∨ n ∈ names src.
Proof.
  unfold names. rewrite !list_elem_of_fmap. setoid_rewrite elem_of_deduped. split.
  - intros (s & -> & [?|[? _]]); [left|right]; by exists s.
  - intros [(s & -> & ?)|(s & -> & ?)]; [exists s; auto|].
    destruct (decide (SName s ∈ names dst)) as [Hin|]; [|exists s; auto].
    apply list_elem_of_fmap in Hin as (s' & E & ?). exists s'. rewrite E. auto.
Qed.

(** Signals reported for the views [vs], starting from those of [base]. *)
Record reported (s : Scanner) (vs : list (bytes * list ScanFunc)) (base l : list Signal) : Prop := {
  reported_all : ∀ v ds f, (v, ds) ∈ vs → f ∈ matchers s ++ ds →
    ∃ sigs, found_by f v sigs ∧ ∀ sig, sig ∈ sigs → SName sig ∈ names l;
  reported_base : ∀ n, n ∈ names base → n ∈ names l;
  reported_only : ∀ sig, sig ∈ l → sig ∈ base ∨
    ∃ v ds f sigs, (v, ds) ∈ vs ∧ f ∈ matchers s ++ ds ∧ found_by f v sigs ∧ sig ∈ sigs;
}.

Definition scanned (views : list (string * option bytes * list ScanFunc)) : list (bytes * list ScanFunc) :=
  omap (λ p, (., p.2) <$> p.1.2) views.

Lemma reported_trans s vs1 vs2 base l1 l2 :
  reported s vs1 base l1 → reported s vs2 l1 l2 → reported s (vs1 ++ vs2) base l2.
Proof.
  intros [A1 B1 C1] [A2 B2 C2]. split.
  - intros v ds f [Hv|Hv]%elem_of_app Hf; [|by eapply A2].
    destruct (A1 v ds f Hv Hf) as (sigs & ? & Hn). exists sigs. auto.
  - auto.
  - intros sig Hs. destruct (C2 sig Hs) as [H|(v & ds & f & sigs & Hv & ?)].
    + destruct (C1 sig H) as [?|(v & ds & f & sigs & Hv & ?)]; [by left|].
      right. exists v, ds, f, sigs. rewrite elem_of_app. tauto.
    + right. exists v, ds, f, sigs. rewrite elem_of_app. tauto.
Qed.

Lemma reported_nil s l : reported s [] l l.
Proof. split; [intros v ds f H; by apply elem_of_nil in H|done|by left]. Qed.

(** What one content adds, deduplicated. *)
Lemma reported_content s v ds base extra :
  ScanContent v (matchers s) ds = Some (Ok extra) → reported s [(v, ds)] base (appendDeduped base extra).
Proof.
  intros (H1 & H2)%ScanContent_ok. split.
  - intros v' ds' f [= -> ->]%list_elem_of_singleton Hf. destruct (H2 f Hf) as [sigs Hs].
    exists sigs. split; [done|]. intros sig Hin. apply names_deduped. right.
    apply list_elem_of_fmap. exists sig. split; [done|]. apply H1. by exists f, sigs.
  - intros n Hn. apply names_deduped. by left.
  - intros sig [?|[Hin _]]%elem_of_deduped; [by left|]. right.
    apply H1 in Hin as (f & sigs & ? & ? & ?). exists v, ds, f, sigs. split; [by left|done].
Qed.

Lemma scan_views_reported s views : ∀ base l,
  scan_views s views base = Some (Ok l) → reported s (scanned views) base l.
Proof.
  induction views as [|[[stage view] ds] views IH]; intros base l; cbn [scan_views].
  { intros <-%ret_ok. apply reported_nil. }
  intros (l1 & H1 & H2)%rbind_ok. specialize (IH _ _ H2). unfold scan_view in H1. cbn [scanned omap list_omap fst snd].
  destruct view as [v|]; cbn [fmap option_fmap option_map].
  - apply rbind_ok in H1 as (extra & He%at_stage_ok & <-%ret_ok).
    by apply (reported_trans s [(v, ds)] (scanned views) base _ l (reported_content _ _ _ _ _ He)).
  - by apply ret_ok in H1 as <-.
Qed.

(** A second list of signals, deduplicated into the first. *)
Lemma reported_merge s vs base l :
  reported s vs [] l → reported s vs base (appendDeduped base l).
Proof.
  intros [A B C]. split.
  - intros v ds f Hv Hf. destruct (A v ds f Hv Hf) as (sigs & ? & Hn). exists sigs. split; [done|].
    intros sig Hin. apply names_deduped. right. by apply Hn.
  - intros n Hn. apply names_deduped. by left.
  - intros sig [?|[Hin _]]%elem_of_deduped; [by left|]. right.
    destruct (C sig Hin) as [H|?]; [by apply elem_of_nil in H|done].
Qed.

Section facts.
Context {text_lib : TextLib}.
Context (to_lower : bytes → bytes) (compiles : string → bool) (find_all_index : string → bytes → list nat).

(** Every text the scan looks at, with the detectors it runs there besides
    the matchers. *)
Definition views_of (s : Scanner) (content : bytes) (contentType : string) (metadata : list string)
    : list (bytes * list ScanFunc) :=
  let pp := Preprocess content contentType in
  [(Normalized pp, detectors s)] ++ scanned (extra_views s pp) ++
  match present_fields metadata with
  | [] => []
  | _ => scanned (metadata_views (Preprocess (metadata_content metadata) "text/plain"))
  end.

Lemma scan_metadata_reported s metadata l :
  scanMetadata s metadata = Some (Ok l) →
  reported s (match present_fields metadata with
              | [] => []
              | _ => scanned (metadata_views (Preprocess (metadata_content metadata) "text/plain"))
              end) [] l.
Proof.
  unfold scanMetadata. destruct (present_fields metadata); [intros <-%ret_ok; apply reported_nil|].
  apply scan_views_reported.
Qed.

Lemma scan_ok s content contentType metadata R :
  ScanWithMetadata s content contentType metadata = Some (Ok R) →
  reported s (views_of s content contentType metadata) [] (Signals R) ∧
  R = let r := ScoreSignals (scored s (Signals R)) (boosts s (Signals R)) (threshold s) in
      mkScanResult (Signals R) (TotalScore r) (RVerdict r).
Proof.
  unfold ScanWithMetadata.
  intros (l1 & H1%at_stage_ok & (l2 & H2 & (l3 & H3 & <-%ret_ok)%rbind_ok)%rbind_ok)%rbind_ok.
  cbn [Signals]. split; [|done]. unfold views_of.
  eapply reported_trans; [|eapply reported_trans].
  - pose proof (reported_content s _ _ [] l1 H1) as Hr. unfold appendDeduped in Hr. cbn [app names fmap list_fmap] in Hr.
    assert (filter (λ s0, SName s0 ∉ []) l1 = l1) as E; [|rewrite E in Hr; exact Hr].
    clear. induction l1 as [|a l IH]; [done|]. rewrite filter_cons, decide_True by (by intros ?%elem_of_nil). by rewrite IH.
  - by apply scan_views_reported.
  - by apply reported_merge, scan_metadata_reported.
Qed.

(** ** The functions of a ruleset *)

(** The function compiled from a rule: one of the matchers, or of the
    detectors. *)
Definition matcher_of (r : Rule) : option ScanFunc :=
  if String.eqb (RMatchType r) MatchSubstring then Some (makeMatcherScanFunc SubstringMatch r)
  else if String.eqb (RMatchType r) MatchSubstringCaseInsensitive then
    Some (makeMatcherScanFunc (CaseInsensitiveMatch to_lower) r)
  else if String.eqb (RMatchType r) MatchRegex then
    Some (makeMatcherScanFunc (λ content _, Some (RegexMatch find_all_index (RPatterns r) content)) r)
  else None.

Definition detector_of (registry : Registry) (r : Rule) : option ScanFunc :=
  if String.eqb (RMatchType r) MatchCustomDetector
  then (λ d, detector_func d r) <$> registry !! RDetector r else None.

Lemma regex_compiled patterns m :
  NewRegexMatcher compiles find_all_index patterns = Ok m →
  m = λ content _, Some (RegexMatch find_all_index patterns content).
Proof. unfold NewRegexMatcher. destruct (List.find _ _); [done|]. by intros [= <-]. Qed.

Lemma build_spec registry rules : ∀ ms ds,
  buildScanFuncs to_lower compiles find_all_index rules registry = Ok (ms, ds) →
  ms = omap matcher_of rules ∧ ds = omap (detector_of registry) rules.
Proof.
  induction rules as [|r rules IH]; intros ms ds; cbn [buildScanFuncs]; [by intros [= <- <-]|].
  cbn [omap list_omap]. unfold matcher_of at 1, detector_of at 1.
  destruct (buildScanFuncs to_lower compiles find_all_index rules registry) as [[ms' ds']|e].
  2: { repeat case_match; done. }
  destruct (IH _ _ eq_refl) as [E1 E2]. unfold omap in E1, E2.
  destruct (String.eqb_spec (RMatchType r) MatchSubstring) as [->|].
  { intros [= <- <-]. cbn [String.eqb]. by rewrite E1, E2. }
  destruct (String.eqb_spec (RMatchType r) MatchSubstringCaseInsensitive) as [->|].
  { intros [= <- <-]. by rewrite E1, E2. }
  destruct (String.eqb_spec (RMatchType r) MatchRegex) as [->|].
  { destruct (NewRegexMatcher _ _ _) as [m|] eqn:Hm; [|done]. apply regex_compiled in Hm as ->.
    intros [= <- <-]. by rewrite E1, E2. }
  destruct (String.eqb (RMatchType r) MatchCustomDetector).
  - destruct (registry !! RDetector r); [|done]. intros [= <- <-]. by rewrite E1, E2.
  - intros [= <- <-]. by rewrite E1, E2.
Qed.

(** A function of a rule reports under the rule's name and weight. *)
Definition reports_as (r : Rule) (f : ScanFunc) : Prop :=
  ∀ v sigs sig, found_by f v sigs → sig ∈ sigs → SName sig = RName r ∧ SWeight sig = RWeight r.

Lemma matcher_reports_as m r : reports_as r (makeMatcherScanFunc m r).
Proof.
  intros v sigs sig. unfold found_by, makeMatcherScanFunc. destruct (m v (RPatterns r)) as [[|x l]|]; [..|done].
  - intros <-%ret_ok Hs. by apply elem_of_nil in Hs.
  - intros <-%ret_ok ->%list_elem_of_singleton. done.
Qed.

Lemma detector_reports_as d r : reports_as r (detector_func d r).
Proof.
  intros v sigs sig. unfold found_by, detector_func. destruct (Detect d _); [|done].
  intros <-%ret_ok (s & -> & _)%list_elem_of_fmap. done.
Qed.

Lemma compiled_reports_as registry r f :
  matcher_of r = Some f ∨ detector_of registry r = Some f → reports_as r f.
Proof.
  unfold matcher_of, detector_of. intros [Hc|Hc].
  - destruct (String.eqb (RMatchType r) MatchSubstring); [injection Hc as <-; apply matcher_reports_as|].
    destruct (String.eqb (RMatchType r) MatchSubstringCaseInsensitive); [injection Hc as <-; apply matcher_reports_as|].
    destruct (String.eqb (RMatchType r) MatchRegex); [injection Hc as <-; apply matcher_reports_as|done].
  - destruct (String.eqb (RMatchType r) MatchCustomDetector); [|done].
    destruct (registry !! RDetector r); [|done]. injection Hc as <-. apply detector_reports_as.
Qed.

(** The names and weights of the functions' signals. *)
Lemma signal_rule registry rules ms ds v ds' f sigs sig :
  buildScanFuncs to_lower compiles find_all_index rules registry = Ok (ms, ds) →
  f ∈ ms ++ ds' → ds' ⊆ ds → found_by f v sigs → sig ∈ sigs →
  ∃ r, r ∈ rules ∧ SName sig = RName r ∧ SWeight sig = RWeight r.
Proof.
  intros [-> ->]%build_spec Hf Hsub Hr Hs.
  assert (∃ r, r ∈ rules ∧ (matcher_of r = Some f ∨ detector_of registry r = Some f)) as (r & Hin & Hc).
  { apply elem_of_app in Hf as [(r & ? & ?)%list_elem_of_omap|Hf]; [by exists r; auto|].
    apply Hsub, list_elem_of_omap in Hf as (r & ? & ?). by exists r; auto. }
  exists r. split; [done|]. by eapply compiled_reports_as.
Qed.

(** ** Hits *)

(** The rule's patterns are in the text. *)
Definition hits (r : Rule) (v : bytes) : Prop :=
  (RMatchType r = MatchSubstring ∧ ∃ p i, p ∈ RPatterns r ∧ occurs_at v (bytes_of_string p) i) ∨
  (RMatchType r = MatchSubstringCaseInsensitive ∧
     ∃ p i, p ∈ RPatterns r ∧ occurs_at (to_lower v) (to_lower (bytes_of_string p)) i) ∨
  (RMatchType r = MatchRegex ∧ ∃ p, p ∈ RPatterns r ∧ find_all_index p v ≠ []).

(** No pattern to look for is empty. *)
Definition searchable (r : Rule) : Prop :=
  (RMatchType r = MatchSubstring → ∀ p, p ∈ RPatterns r → bytes_of_string p ≠ []) ∧
  (RMatchType r = MatchSubstringCaseInsensitive → ∀ p, p ∈ RPatterns r → to_lower (bytes_of_string p) ≠ []).

Lemma match_finds hay (g : string → bytes) ps :
  (∀ p, p ∈ ps → g p ≠ []) →
  ∃ l, match_patterns (λ p, findAllOffsets hay (g p)) ps = Some l ∧
    ∀ p i, p ∈ ps → occurs_at hay (g p) i → l ≠ [].
Proof.
  intros Hne.
  destruct (match_patterns_some (λ p, findAllOffsets hay (g p)) ps) as (l & Hl & Hin).
  { intros p Hp. rewrite find_all_greedy by (by apply Hne). by eexists. }
  exists l. split; [done|]. intros p i Hp Ho ->.
  destruct (found_all _ _ _ _ (greedy_found (g p) (Hne p Hp) (length hay) hay 0 ltac:(lia)) i Ho) as (q & Hq & _).
  assert (Hm : mkMatch p q ∈ []); [|by apply elem_of_nil in Hm]. apply Hin. split; [done|].
  eexists. split; [by apply find_all_greedy, Hne|done].
Qed.

Lemma regex_finds ps v p : p ∈ ps → find_all_index p v ≠ [] → RegexMatch find_all_index ps v ≠ [].
Proof.
  intros Hp Hne E. destruct (find_all_index p v) as [|i l] eqn:Hf; [done|].
  assert (mkMatch p i ∈ RegexMatch find_all_index ps v) as Hin; [|rewrite E in Hin; by apply elem_of_nil in Hin].
  unfold RegexMatch. apply list_elem_of_bind. exists p. split; [|done]. rewrite Hf. by left.
Qed.

Lemma matcher_total m r v : is_Some (m v (RPatterns r)) → ∃ sigs, found_by (makeMatcherScanFunc m r) v sigs.
Proof. intros [l Hl]. unfold found_by, makeMatcherScanFunc. rewrite Hl. destruct l; by eexists. Qed.

Lemma matcher_hit m r v l :
  m v (RPatterns r) = Some l → l ≠ [] →
  ∃ sig, found_by (makeMatcherScanFunc m r) v [sig] ∧ SName sig = RName r.
Proof. intros Hl Hne. unfold found_by, makeMatcherScanFunc. rewrite Hl. destruct l; [done|]. by eexists. Qed.

Lemma hit_found r v :
  searchable r → hits r v →
  ∃ f, matcher_of r = Some f ∧ ∃ sig, found_by f v [sig] ∧ SName sig = RName r.
Proof.
  intros [Hs1 Hs2]. unfold matcher_of. intros [[Ht (p & i & Hp & Ho)]|[[Ht (p & i & Hp & Ho)]|[Ht (p & Hp & Ho)]]]; rewrite Ht.
  - cbn. eexists. split; [done|].
    destruct (match_finds v bytes_of_string (RPatterns r) (Hs1 Ht)) as (l & Hl & Hne).
    apply (matcher_hit SubstringMatch r v l); [done|by eapply Hne].
  - cbn. eexists. split; [done|].
    destruct (match_finds (to_lower v) (λ p, to_lower (bytes_of_string p)) (RPatterns r) (Hs2 Ht)) as (l & Hl & Hne).
    apply (matcher_hit (CaseInsensitiveMatch to_lower) r v l); [done|by eapply Hne].
  - cbn. eexists. split; [done|]. eapply matcher_hit; [reflexivity|]. by eapply regex_finds.
Qed.

(** ** Boosters *)

Lemma boost_config_spec rules n b :
  boost_config rules !! n = Some b →
  ∃ r, r ∈ rules ∧ is_booster r = true ∧ RName r = n ∧ RBoostFactor r = b.
Proof.
  unfold boost_config.
  assert (Hgen : ∀ m : gmap string spec_float,
    foldl (λ m r, if is_booster r then <[RName r:=RBoostFactor r]> m else m) m rules !! n = Some b →
    m !! n = Some b ∨ ∃ r, r ∈ rules ∧ is_booster r = true ∧ RName r = n ∧ RBoostFactor r = b).
  { induction rules as [|r rules IH]; intros m Hm; [by left|]. cbn [foldl] in Hm.
    destruct (IH _ Hm) as [Hb|(r' & Hr & ?)]; [|right; exists r'; split; [by right|done]].
    destruct (is_booster r) eqn:Hbo; [|by left].
    apply lookup_insert_Some in Hb as [[? ?]|[_ ?]]; [|by left]. right. exists r. split; [left|done]. }
  intros Hb. destruct (Hgen ∅ Hb) as [He|?]; [by rewrite lookup_empty in He|done].
Qed.

(** The factor of every booster is on record under its name. *)
Lemma boost_config_some rules r :
  r ∈ rules → is_booster r = true → is_Some (boost_config rules !! RName r).
Proof.
  unfold boost_config. intros Hr Hb.
  assert (Hgen : ∀ l (m : gmap string spec_float), r ∈ l ∨ is_Some (m !! RName r) →
    is_Some (foldl (λ m r, if is_booster r then <[RName r:=RBoostFactor r]> m else m) m l !! RName r)).
  { induction l as [|a l IH]; intros m H; cbn [foldl]; [by destruct H as [H%elem_of_nil|H]|].
    apply IH. destruct H as [[->|H]%elem_of_cons|[x Hx]]; [|by left|]; right.
    - rewrite Hb, lookup_insert_eq. by eexists.
    - destruct (is_booster a); [|by exists x].
      destruct (decide (RName a = RName r)) as [->|]; [rewrite lookup_insert_eq; by eexists|].
      rewrite lookup_insert_ne by done. by exists x. }
  apply Hgen. by left.
Qed.

(** ** Rulesets and the scanners made from them *)

(** An accepted ruleset, with the numbers JSON can hold. *)
Record ruleset (rc : RuleConfig) : Prop := {
  accepted : validateRuleConfig compiles rc = Ok ();
  numeric : number (QuarantineThreshold rc) ∧ Forall (λ r, number (RWeight r) ∧ number (RBoostFactor r)) (Rules rc);
}.

(** No other rule of the ruleset has the rule's name.  Validation does not
    ask for it, and signals are told apart by the names of their rules
    ([namesake_hides_rule]). *)
Definition own_name (rc : RuleConfig) (r : Rule) : Prop :=
  ∀ r', r' ∈ Rules rc → RName r' = RName r → r' = r.

Lemma not_boosted rc r :
  own_name rc r → is_booster r = false → boost_config (Rules rc) !! RName r = None.
Proof.
  intros Hown Hb. destruct (boost_config (Rules rc) !! RName r) as [b|] eqn:E; [|done].
  apply boost_config_spec in E as (r' & Hr' & Hb' & En & _). rewrite (Hown r' Hr' En) in Hb'. congruence.
Qed.

(** The score is a number: no rule but a booster weighs nothing, which can
    be read off the ruleset, or the product of the boosters that fired did
    not overflow ([boosters_overflow]). *)
Definition countable (rc : RuleConfig) (s : Scanner) (R : ScanResult) : Prop :=
  (∀ r, r ∈ Rules rc → is_booster r = false → flt fzero (RWeight r) = true) ∨
  finite (multiplier (boosts s (Signals R))) = true.

#[local] Abbreviation make := (New to_lower compiles find_all_index).

Lemma New_spec rc registry s :
  make rc registry = Ok s →
  buildScanFuncs to_lower compiles find_all_index (Rules rc) registry = Ok (matchers s, detectors s) ∧
  boostConfig s = boost_config (Rules rc) ∧ threshold s = QuarantineThreshold rc.
Proof. unfold New. destruct (buildScanFuncs _ _ _ _ _) as [[ms ds]|]; [|done]. by intros [= <-]. Qed.

Lemma scanned_detectors (s : Scanner) views v ds :
  Forall (λ p : string * option bytes * list ScanFunc, p.2 ⊆ detectors s) views →
  (v, ds) ∈ scanned views → ds ⊆ detectors s.
Proof.
  intros Hf ([[stage view] ds'] & Hp & Hv)%list_elem_of_omap. rewrite Forall_forall in Hf. specialize (Hf _ Hp).
  destruct view; [|done]. cbn in Hv. by injection Hv as -> ->.
Qed.

Lemma views_of_detectors s content contentType metadata v ds :
  (v, ds) ∈ views_of s content contentType metadata → ds ⊆ detectors s.
Proof.
  unfold views_of. intros [[= -> ->]%list_elem_of_singleton|[Hv|Hv]%elem_of_app]%elem_of_app; [done| |].
  - eapply scanned_detectors; [|exact Hv]. unfold extra_views. repeat constructor; try done; apply list_subseteq_nil.
  - destruct (present_fields metadata); [by apply elem_of_nil in Hv|].
    eapply scanned_detectors; [|exact Hv]. unfold metadata_views. repeat constructor; apply list_subseteq_nil.
Qed.

Lemma weight_ok rc r : ruleset rc → r ∈ Rules rc → ok (RWeight r).
Proof.
  intros [Ha [_ Hn]] Hr. apply ruleset_accepted_exactly in Ha as (_ & _ & _ & Hok).
  rewrite Forall_forall in Hn. rewrite Forall_forall in Hok. destruct (Hn r Hr) as [Hw _].
  apply number_ok; [done|]. pose proof (ok_weight _ _ (Hok r Hr)) as Hin.
  by apply orb_false_iff in Hin as [? _].
Qed.

Lemma boost_factor_ok rc r : ruleset rc → r ∈ Rules rc → is_booster r = true → factor (RBoostFactor r).
Proof.
  intros [Ha [_ Hn]] Hr Hb. apply ruleset_accepted_exactly in Ha as (_ & _ & _ & Hok).
  rewrite Forall_forall in Hn. rewrite Forall_forall in Hok. destruct (Hn r Hr) as [_ Hw].
  apply number_factor; [done|]. pose proof (ok_boost _ _ (Hok r Hr) Hb) as Hin.
  by apply orb_false_iff in Hin as [? _].
Qed.

Lemma threshold_ok rc : ruleset rc → ok (QuarantineThreshold rc).
Proof.
  intros [Ha [Hn _]]. apply ruleset_accepted_exactly in Ha as (_ & Ht & _ & _). apply number_ok; [done|].
  revert Ht. unfold fle, flt, SFleb, SFltb. by destruct (SFcompare (QuarantineThreshold rc) fzero) as [[]|].
Qed.

Section one_scan.
Context (rc : RuleConfig) (registry : Registry) (s : Scanner).
Context (content : bytes) (contentType : string) (metadata : list string) (R : ScanResult).
Hypothesis Hrules : ruleset rc.
Hypothesis Hnew : make rc registry = Ok s.
Hypothesis Hscan : ScanWithMetadata s content contentType metadata = Some (Ok R).

Lemma signals_from_rules sig :
  sig ∈ Signals R → ∃ r, r ∈ Rules rc ∧ SName sig = RName r ∧ SWeight sig = RWeight r.
Proof.
  intros Hs. destruct (scan_ok _ _ _ _ _ Hscan) as [[_ _ Honly] _].
  destruct (New_spec _ _ _ Hnew) as (Hb & _ & _).
  destruct (Honly sig Hs) as [H|(v & ds & f & sigs & Hv & Hf & Hr & Hin)]; [by apply elem_of_nil in H|].
  eapply signal_rule; [exact Hb|exact Hf|by eapply views_of_detectors|exact Hr|exact Hin].
Qed.

Lemma scan_scorable :
  countable rc s R → scorable (scored s (Signals R)) (boosts s (Signals R)).
Proof.
  intros Hfin. destruct (New_spec _ _ _ Hnew) as (_ & Hbc & _). split.
  - apply Forall_forall. intros sig [_ Hs]%list_elem_of_filter.
    destruct (signals_from_rules sig Hs) as (r & Hr & _ & ->). by eapply weight_ok.
  - apply Forall_forall. intros b (br & -> & Hbr)%list_elem_of_fmap.
    apply list_elem_of_omap in Hbr as (sig & Hs & Hb). apply fmap_Some in Hb as (b & Hb & ->).
    rewrite Hbc in Hb. apply boost_config_spec in Hb as (r & Hr & Hbo & _ & <-). by eapply boost_factor_ok.
  - destruct Hfin as [Hpos|Hfin]; [right|by left].
    apply Forall_forall. intros sig [Hnone Hs]%list_elem_of_filter.
    destruct (signals_from_rules sig Hs) as (r & Hr & En & ->). apply Hpos; [done|].
    destruct (is_booster r) eqn:Hb; [|done]. rewrite Hbc, En in Hnone.
    destruct (boost_config_some _ r Hr Hb) as [x Hx]. congruence.
Qed.

Lemma hit_reported r v ds :
  r ∈ Rules rc → (v, ds) ∈ views_of s content contentType metadata → searchable r → hits r v →
  RName r ∈ names (Signals R).
Proof.
  intros Hr Hv Hs Hh. destruct (scan_ok _ _ _ _ _ Hscan) as [[Hall _ _] _].
  destruct (New_spec _ _ _ Hnew) as (Hb & _ & _). apply build_spec in Hb as [Hms _].
  destruct (hit_found r v Hs Hh) as (f & Hf & sig & Hsig & <-).
  destruct (Hall v ds f Hv) as (sigs & Hfound & Hnames).
  - apply elem_of_app. left. rewrite Hms. apply list_elem_of_omap. by exists r.
  - apply Hnames. unfold found_by in *. rewrite Hsig in Hfound. injection Hfound as <-. by left.
Qed.

Lemma hit_quarantines r v ds :
  r ∈ Rules rc → own_name rc r → is_booster r = false → (v, ds) ∈ views_of s content contentType metadata →
  searchable r → hits r v → fle (QuarantineThreshold rc) (RWeight r) = true →
  countable rc s R →
  RVerdict R = VerdictQuarantine.
Proof.
  intros Hr Hown Hnb Hv Hs Hh Hw Hfin. pose proof (hit_reported r v ds Hr Hv Hs Hh) as Hn.
  apply list_elem_of_fmap in Hn as (sig & En & Hsig).
  destruct (scan_ok _ _ _ _ _ Hscan) as [_ ->]. cbn [RVerdict].
  destruct (New_spec _ _ _ Hnew) as (_ & Hbc & Ht).
  destruct (signals_from_rules sig Hsig) as (r' & Hr' & En' & Ew).
  assert (r' = r) as -> by (apply Hown; congruence).
  apply (strong_signal _ _ _ sig); [by apply scan_scorable|rewrite Ht; by apply threshold_ok| |by rewrite Ht, Ew].
  apply list_elem_of_filter. split; [|done]. rewrite Hbc, En'. by apply not_boosted.
Qed.
End one_scan.

(** C16. An instruction hidden in an item is quarantined.  Take any accepted
    ruleset and any rule of it that is not a booster, whose weight reaches
    the threshold, whose name no other rule of the ruleset has, and none of
    whose substring patterns is empty.  Let either every rule that is not a
    booster weigh something, or the product of the boosters that fired not
    overflow.  When one of its patterns occurs in any view of
    the item (the normalised text, the unstripped HTML, the folded, decoded,
    unescaped and reordered texts, the text before invisibles were removed,
    and the same of the metadata fields), and the scan gives a result, the
    rule is among the signals and the verdict is quarantine, whatever else
    the item holds. *)
Theorem hidden_instruction_quarantined rc registry s content contentType metadata R r v ds :
  ruleset rc → make rc registry = Ok s →
  ScanWithMetadata s content contentType metadata = Some (Ok R) →
  r ∈ Rules rc → own_name rc r → is_booster r = false → fle (QuarantineThreshold rc) (RWeight r) = true →
  searchable r → (v, ds) ∈ views_of s content contentType metadata → hits r v →
  countable rc s R →
  RName r ∈ names (Signals R) ∧ RVerdict R = VerdictQuarantine.
Proof.
  intros Hrules Hnew Hscan Hr Hown Hnb Hw Hs Hv Hh Hfin. split; [by eapply hit_reported|by eapply hit_quarantines].
Qed.

(** A scan reports what the rules find, and nothing else.  When it
    gives a result, every function the scan runs on a view (each matcher on
    every view, the detectors on the normalised text and on the text before
    invisibles were removed) ran there, and all it found is reported by
    name; every signal reported was found in one of the views by one of the
    functions and carries the name and weight of a rule; and the total and
    the verdict are those of the signals that are not boosters, with the
    boosters that fired. *)
Theorem scan_reports_findings rc registry s content contentType metadata R :
  make rc registry = Ok s →
  ScanWithMetadata s content contentType metadata = Some (Ok R) →
  (∀ v ds f, (v, ds) ∈ views_of s content contentType metadata → f ∈ matchers s ++ ds →
     ∃ sigs, found_by f v sigs ∧ ∀ sig, sig ∈ sigs → SName sig ∈ names (Signals R)) ∧
  (∀ sig, sig ∈ Signals R →
     (∃ v ds f sigs, (v, ds) ∈ views_of s content contentType metadata ∧ f ∈ matchers s ++ ds ∧
        found_by f v sigs ∧ sig ∈ sigs) ∧
     ∃ r, r ∈ Rules rc ∧ SName sig = RName r ∧ SWeight sig = RWeight r) ∧
  TotalScore R = TotalScore (ScoreSignals (scored s (Signals R)) (boosts s (Signals R)) (QuarantineThreshold rc)) ∧
  RVerdict R = RVerdict (ScoreSignals (scored s (Signals R)) (boosts s (Signals R)) (QuarantineThreshold rc)).
Proof.
  intros Hnew Hscan. destruct (scan_ok _ _ _ _ _ Hscan) as [[Hall _ Honly] Hres].
  destruct (New_spec _ _ _ Hnew) as (Hb & _ & <-). split_and!; [exact Hall| |by rewrite Hres|by rewrite Hres].
  intros sig Hs. destruct (Honly sig Hs) as [Hn|(v & ds & f & sigs & Hv & Hf & Hr & Hin)]; [by apply elem_of_nil in Hn|].
  split; [by exists v, ds, f, sigs|].
  eapply signal_rule; [exact Hb|exact Hf|by eapply views_of_detectors|exact Hr|exact Hin].
Qed.

(** ** Scans return *)

Definition returns (f : ScanFunc) : Prop := ∀ v, ∃ sigs, found_by f v sigs.

Lemma run_all_returns scans content : Forall returns scans → ∀ acc, ∃ l, run_all scans content acc = Some (Ok l).
Proof.
  induction 1 as [|f scans Hf Hs IH]; intros acc; [by eexists|]. cbn [run_all].
  destruct (Hf content) as [sigs ->]. cbn [rbind]. apply IH.
Qed.

Lemma ScanContent_returns content ms ds :
  Forall returns ms → Forall returns ds → ∃ l, ScanContent content ms ds = Some (Ok l).
Proof.
  intros Hm Hd. unfold ScanContent. destruct (run_all_returns ms content Hm []) as [l ->]. cbn [rbind].
  by apply run_all_returns.
Qed.

Lemma scan_views_returns s views :
  Forall returns (matchers s) → Forall (λ p : string * option bytes * list ScanFunc, Forall returns p.2) views →
  ∀ base, ∃ l, scan_views s views base = Some (Ok l).
Proof.
  intros Hm. induction 1 as [|[[stage view] ds] views Hd Hv IH]; intros base; [by eexists|]. cbn [scan_views].
  unfold scan_view. destruct view as [v|]; [|by apply IH].
  destruct (ScanContent_returns v (matchers s) ds Hm Hd) as [l ->]. cbn [at_stage rbind ret]. apply IH.
Qed.

(** Detectors of a registry that give signals for every content. *)
Definition never_fails (registry : Registry) : Prop :=
  ∀ n d, registry !! n = Some d → ∀ v, ∃ l, Detect d v = Ok l.

Lemma matcher_of_returns r f : searchable r → matcher_of r = Some f → returns f.
Proof.
  intros [H1 H2] Hm v. unfold matcher_of in Hm.
  destruct (String.eqb_spec (RMatchType r) MatchSubstring) as [Ht|].
  { injection Hm as <-. apply matcher_total.
    destruct (match_finds v bytes_of_string (RPatterns r) (H1 Ht)) as (l & Hl & _). by exists l. }
  destruct (String.eqb_spec (RMatchType r) MatchSubstringCaseInsensitive) as [Ht|].
  { injection Hm as <-. apply matcher_total.
    destruct (match_finds (to_lower v) (λ p, to_lower (bytes_of_string p)) (RPatterns r) (H2 Ht)) as (l & Hl & _). by exists l. }
  destruct (String.eqb (RMatchType r) MatchRegex); [|done]. injection Hm as <-. apply matcher_total. by eexists.
Qed.

Lemma detector_of_returns registry r f : never_fails registry → detector_of registry r = Some f → returns f.
Proof.
  intros Hd Hf v. unfold detector_of in Hf. destruct (String.eqb _ _); [|done].
  destruct (registry !! RDetector r) as [d|] eqn:E; [|done]. injection Hf as <-.
  unfold found_by, detector_func. destruct (Hd _ _ E (if AllowSampling d then SampleContent v DefaultSampleSize else v)) as [l ->].
  by eexists.
Qed.

(** C38. A scan always returns.  With a ruleset none of whose substring
    patterns is empty and detectors that do not fail, the scan of every
    content, under every content type and with any metadata, gives a
    result. *)
Theorem scan_returns rc registry s content contentType metadata :
  make rc registry = Ok s → Forall searchable (Rules rc) → never_fails registry →
  ∃ R, ScanWithMetadata s content contentType metadata = Some (Ok R).
Proof.
  intros Hnew Hs Hd. destruct (New_spec _ _ _ Hnew) as ([Hms Hds]%build_spec & _ & _). rewrite Forall_forall in Hs.
  assert (Hm : Forall returns (matchers s)).
  { rewrite Hms. apply Forall_forall. intros f (r & Hr & Hf)%list_elem_of_omap.
    eapply matcher_of_returns; [by apply Hs|exact Hf]. }
  assert (Hdet : Forall returns (detectors s)).
  { rewrite Hds. apply Forall_forall. intros f (r & Hr & Hf)%list_elem_of_omap. by eapply detector_of_returns. }
  unfold ScanWithMetadata. destruct (ScanContent_returns (Normalized (Preprocess content contentType)) _ _ Hm Hdet) as [l1 ->].
  cbn [at_stage rbind].
  destruct (scan_views_returns s (extra_views s (Preprocess content contentType)) Hm) with (base := l1) as [l2 ->].
  { unfold extra_views. repeat constructor; done. }
  cbn [rbind].
  assert (∃ l3, scanMetadata s metadata = Some (Ok l3)) as [l3 ->]; [|by eexists].
  unfold scanMetadata. destruct (present_fields metadata); [by eexists|].
  apply scan_views_returns; [done|]. unfold metadata_views. repeat constructor.
Qed.

(** ** Smuggled instructions *)

#[local] Abbreviation clean_text := (λ b, (strip_invisible b).1).









(** An accepted ruleset on which no scan returns: validation lets an empty
    substring pattern through, and the matcher looks for it forever. *)
Definition empty_pattern_rule : Rule :=
  mkRule "any" [""%string] fone MatchSubstring "" "" fzero.

Theorem accepted_ruleset_hangs registry s content contentType metadata :
  validateRuleConfig compiles (mkRuleConfig [empty_pattern_rule] fone) = Ok () ∧
  (make (mkRuleConfig [empty_pattern_rule] fone) registry = Ok s →
   ScanWithMetadata s content contentType metadata = None).
Proof.
  split; [reflexivity|]. cbn. intros [= <-]. unfold ScanWithMetadata. cbn [matchers detectors].
  unfold ScanContent. cbn [run_all]. unfold makeMatcherScanFunc, SubstringMatch. cbn [RPatterns empty_pattern_rule match_patterns].
  unfold findAllOffsets. change (bytes_of_string "") with (@nil Z). by rewrite empty_pattern_diverges.
Qed.
End facts.

(** ** Witnesses *)

(** The text libraries on text that is already normalised. *)
Definition plain_lib : TextLib := {|
  NFKC := id; NFD := id; html_text := id; html_unescape := id;
  Other_Default_Ignorable := empty_table; Cf := empty_table; Variation_Selector := empty_table;
  White_Space := empty_table; Prepended_Concatenation_Mark := empty_table; Mn := empty_table;
  rtl_scripts := []; IsLetter := λ _, false; IsPrint := λ r, within 32 126 r;
|}.

(** A rule of the default configuration, and a Cyrillic letter in its
    pattern. *)
Definition tool_rule : Rule := mkRule "tool_invocation_syntax" ["exec:"%string] (fquot 8 10) MatchSubstring "" "" fzero.
Definition tool_rules : RuleConfig := mkRuleConfig [tool_rule] (fquot 8 10).
Definition disguised_exec : bytes := encode [114; 117; 110; 32; 1077; 120; 101; 99; 58].

Definition scanner_of (r : res string Scanner) : Scanner :=
  match r with Ok s => s | Err _ => mkScanner [] [] ∅ fzero end.
Definition result_of (r : run ScanResult) : ScanResult :=
  match r with Some (Ok x) => x | _ => mkScanResult [] fzero VerdictReject end.
Definition tool_scanner : Scanner := scanner_of (New id (λ _, true) (λ _ _, []) tool_rules ∅).
Definition tool_result : ScanResult := result_of (@ScanWithMetadata plain_lib tool_scanner disguised_exec "text/plain" []).

Lemma tool_searchable : searchable id tool_rule.
Proof. split; [|done]. intros _ p ->%list_elem_of_singleton. done. Qed.

Lemma tool_ruleset : ruleset (λ _, true) tool_rules.
Proof.
  split; [vm_compute; reflexivity|split; [split; [vm_compute; reflexivity|discriminate]|]].
  constructor; [|constructor]. split; (split; [vm_compute; reflexivity|discriminate]).
Qed.

(** It is alone, and weighs something. *)
Lemma tool_own : own_name tool_rules tool_rule.
Proof. by intros r ->%list_elem_of_singleton _. Qed.

Lemma tool_weighs r : r ∈ Rules tool_rules → is_booster r = false → flt fzero (RWeight r) = true.
Proof. by intros ->%list_elem_of_singleton _. Qed.

Lemma hidden_instruction_quarantined_witness : RVerdict tool_result = VerdictQuarantine.
Proof.
  apply (@hidden_instruction_quarantined plain_lib id (λ _, true) (λ _ _, []) tool_rules ∅ tool_scanner
    disguised_exec "text/plain" [] tool_result tool_rule
    (encode [114; 117; 110; 32; 101; 120; 101; 99; 58]) []).
  - apply tool_ruleset.
  - reflexivity.
  - vm_compute. reflexivity.
  - by left.
  - apply tool_own.
  - reflexivity.
  - vm_compute. reflexivity.
  - apply tool_searchable.
  - vm_compute. right. left.
  - left. split; [reflexivity|]. exists "exec:"%string, 4%nat. split; [by left|vm_compute; split; [lia|reflexivity]].
  - left. apply tool_weighs.
Defined.

Lemma scan_reports_findings_witness :
  RVerdict tool_result = RVerdict (ScoreSignals (scored tool_scanner (Signals tool_result))
    (boosts tool_scanner (Signals tool_result)) (fquot 8 10)).
Proof.
  apply (@scan_reports_findings plain_lib id (λ _, true) (λ _ _, []) tool_rules ∅ tool_scanner
    disguised_exec "text/plain" [] tool_result); [reflexivity|vm_compute; reflexivity].
Defined.

Lemma scan_returns_witness :
  ∃ R, @ScanWithMetadata plain_lib tool_scanner disguised_exec "text/plain" [] = Some (Ok R).
Proof.
  apply (@scan_returns plain_lib id (λ _, true) (λ _ _, []) tool_rules ∅); [reflexivity| |].
  - constructor; [apply tool_searchable|constructor].
  - intros n d Hn. change ((∅ : gmap string Detector) !! n = Some d) in Hn. rewrite lookup_empty in Hn. discriminate.
Defined.



(** ** Accepted rulesets with which a strong rule does not count *)

(** A second rule under the name of [tool_rule], which finds a harmless word
    and weighs little. *)
Definition namesake : Rule := mkRule "tool_invocation_syntax" ["run"%string] (fquot 1 10) MatchSubstring "" "" fzero.
Definition namesake_rules : RuleConfig := mkRuleConfig [tool_rule; namesake] (fquot 8 10).
Definition scan_with (rc : RuleConfig) (content : bytes) : ScanResult :=
  result_of (@ScanWithMetadata plain_lib (scanner_of (New id (λ _, true) (λ _ _, []) rc ∅)) content "text/plain" []).

(** The disguised instruction is quarantined by [tool_rules] alone.  With
    the namesake, whose word is in the plain text, the strong rule's signal
    from the folded view is taken for a duplicate, and the item passes. *)
Theorem namesake_hides_rule :
  validateRuleConfig (λ _, true) namesake_rules = Ok () ∧
  RVerdict (scan_with tool_rules disguised_exec) = VerdictQuarantine ∧
  RVerdict (scan_with namesake_rules disguised_exec) = VerdictPass.
Proof. split_and!; vm_compute; reflexivity. Qed.

(** The strong rule, one that weighs nothing, and 647 boosters of three,
    each an accepted rule that finds the same word. *)
Definition booster (n : nat) : Rule :=
  mkRule ("b" ++ itoa (Z.of_nat n)) ["run"%string] fzero MatchSubstring "" "weight_booster" (float64 3).
Definition weightless : Rule := mkRule "noted" ["run"%string] fzero MatchSubstring "" "" fzero.
Definition boosted_rules : RuleConfig := mkRuleConfig ([tool_rule; weightless] ++ (booster <$> seq 0 647)) (fquot 8 10).

(** The product of the boosters is infinite, nothing times it is not a
    number, and neither is the score then: the item passes. *)
Theorem boosters_overflow :
  validateRuleConfig (λ _, true) boosted_rules = Ok () ∧
  RVerdict (scan_with tool_rules (bytes_of_string "run exec:")) = VerdictQuarantine ∧
  RVerdict (scan_with boosted_rules (bytes_of_string "run exec:")) = VerdictPass.
Proof. split_and!; vm_compute; reflexivity. Qed.
