(* ===== verification/DSanitize.v ===== *)
(** internal/routing/sanitize.go: quarantined text shown as inert text. *)
From S2P Require Import Prelude GoStrings Utf8 JsonString.
Local Open Scope Z_scope.

Definition maxSanitizedChars : nat := Z.to_nat 4096.
Definition maxSanitizedFieldChars : nat := Z.to_nat 256.

Definition newline_byte : bytes := [10].
Definition sanitizeHeader : bytes :=
  bytes_of_string "--- UNTRUSTED QUARANTINED CONTENT (first 4096 chars) ---" ++ newline_byte.
Definition sanitizeFooter : bytes :=
  newline_byte ++ bytes_of_string "--- END UNTRUSTED CONTENT ---" ++ newline_byte.

(** fmt's %0nx of a number below 16^n: its n hexadecimal digits. *)
Fixpoint hex (n : nat) (r : Z) : bytes :=
  match n with
  | O => []
  | S k => hex k (r / 16) ++ [hex_digit (r mod 16)]
  end.

(** \x, \u and \U before two, four and eight digits. *)
Definition escape_byte (b : Z) : bytes := [92; 120] ++ hex 2 b.
Definition escape_u4 (r : Z) : bytes := [92; 117] ++ hex 4 r.
Definition escape_u8 (r : Z) : bytes := [92; 85] ++ hex 8 r.

(** The cases of SanitizeContent for a rune that was decoded. *)
Definition content_rune (r : Z) : bytes :=
  if (r <? 32) && negb (r =? 10) && negb (r =? 13) && negb (r =? 9) then escape_u4 r
  else if 126 <? r then if 65535 <? r then escape_u8 r else escape_u4 r
  else encode_rune r.

(** One character of the content: what is written and the bytes it takes. *)
Definition content_char (content : bytes) : bytes * nat :=
  let '(r, size) := decode_rune content in
  if (r =? RuneError) && (size <=? 1)%nat then (escape_byte (hd 0 content), 1%nat)
  else (content_rune r, size).

Fixpoint content_loop (chars : nat) (content : bytes) : bytes :=
  match chars, content with
  | O, _ | _, [] => []
  | S n, _ :: _ =>
      let '(out, size) := content_char content in
      out ++ content_loop n (drop size content)
  end.

Definition SanitizeContent (content : bytes) : bytes :=
  sanitizeHeader ++ content_loop maxSanitizedChars content ++ sanitizeFooter.

(** The cases of SanitizeField. *)
Definition field_rune (r : Z) : bytes :=
  if (r =? 10) || (r =? 13) || (r =? 9) then [32]
  else if r <? 32 then escape_u4 r
  else if 126 <? r then if 65535 <? r then escape_u8 r else escape_u4 r
  else encode_rune r.

(** [room] is maxSanitizedFieldChars - count. *)
Fixpoint field_loop (room : nat) (rs : list Z) {struct rs} : bytes :=
  match rs with
  | [] => []
  | r :: rest =>
      match room with
      | O => bytes_of_string "..."
      | S n => field_rune r ++ field_loop n rest
      end
  end.

Definition SanitizeField (value : bytes) : bytes :=
  field_loop maxSanitizedFieldChars (runes value).

(** ** Inert text *)

(** Printable ASCII, and the three controls that lay text out. *)
Definition printable (b : Z) : bool := within 32 126 b.
Definition inert (b : Z) : bool := printable b || (b =? 10) || (b =? 13) || (b =? 9).

Lemma printable_inert b : printable b = true → inert b = true.
Proof. unfold inert. by intros ->. Qed.

Lemma hex_digit_printable n : 0 ≤ n < 16 → printable (hex_digit n) = true.
Proof. revert n. apply (check_below_Z (λ n, printable (hex_digit n)) 16). by vm_compute. Qed.

Lemma hex_printable n r : Forall (λ b, printable b = true) (hex n r).
Proof.
  revert r. induction n as [|n IH]; intros r; cbn [hex]; [constructor|]. apply Forall_app_2; [apply IH|].
  constructor; [|constructor]. apply hex_digit_printable, Z.mod_pos_bound. lia.
Qed.

Lemma length_hex n r : length (hex n r) = n.
Proof. revert r. induction n as [|n IH]; intros r; cbn [hex]; [done|]. rewrite length_app, IH. cbn. lia. Qed.

Lemma escapes_printable r :
  Forall (λ b, printable b = true) (escape_byte r) ∧
  Forall (λ b, printable b = true) (escape_u4 r) ∧
  Forall (λ b, printable b = true) (escape_u8 r).
Proof.
  split_and!; (apply Forall_app_2; [repeat (constructor; [done|]); constructor|apply hex_printable]).
Qed.

Lemma length_escapes r :
  length (escape_byte r) = 4%nat ∧ length (escape_u4 r) = 6%nat ∧ length (escape_u8 r) = 10%nat.
Proof. unfold escape_byte, escape_u4, escape_u8. rewrite !length_app, !length_hex. done. Qed.

Lemma encode_printable r : 0 ≤ r ≤ 126 → encode_rune r = [r].
Proof.
  intros H. unfold encode_rune. assert (scalar r = true) as ->.
  { unfold scalar. rewrite orb_true_iff, !within_spec. lia. }
  by rewrite (proj2 (Z.ltb_lt r 128)) by lia.
Qed.

Lemma content_rune_inert r : 0 ≤ r → Forall (λ b, inert b = true) (content_rune r).
Proof.
  intros H0. destruct (escapes_printable r) as (_ & H4 & H8).
  assert (Hi : ∀ l, Forall (λ b, printable b = true) l → Forall (λ b, inert b = true) l).
  { intros l Hl. eapply Forall_impl; [exact Hl|]. apply printable_inert. }
  unfold content_rune. destruct (_ && _) eqn:E; [by apply Hi|].
  destruct (126 <? r) eqn:E2; [destruct (65535 <? r); by apply Hi|].
  rewrite encode_printable by lia. constructor; [|constructor].
  unfold inert, printable, within. lia.
Qed.

Lemma field_rune_printable r : 0 ≤ r → Forall (λ b, printable b = true) (field_rune r).
Proof.
  intros H0. destruct (escapes_printable r) as (_ & H4 & H8). unfold field_rune.
  destruct (_ || _); [by repeat constructor|]. destruct (r <? 32) eqn:E; [done|].
  destruct (126 <? r) eqn:E2; [by destruct (65535 <? r)|].
  rewrite encode_printable by lia. constructor; [|constructor]. unfold printable, within. lia.
Qed.

Lemma length_content_rune r : 0 ≤ r → (length (content_rune r) ≤ 10)%nat.
Proof.
  intros H0. destruct (length_escapes r) as (_ & H4 & H8). unfold content_rune.
  destruct (_ && _); [lia|]. destruct (126 <? r) eqn:E2; [destruct (65535 <? r); lia|].
  rewrite encode_printable by lia. cbn. lia.
Qed.

Lemma length_field_rune r : 0 ≤ r → (length (field_rune r) ≤ 10)%nat.
Proof.
  intros H0. destruct (length_escapes r) as (_ & H4 & H8). unfold field_rune.
  destruct (_ || _); [cbn; lia|]. destruct (r <? 32); [lia|].
  destruct (126 <? r) eqn:E2; [destruct (65535 <? r); lia|].
  rewrite encode_printable by lia. cbn. lia.
Qed.

(** ** The characters of the content *)

(** What was decoded encodes back. *)
Lemma encode_decode s r n :
  Forall is_byte s → decode_rune s = (r, n) → (r =? RuneError) && (n <=? 1)%nat = false →
  s ≠ [] → encode_rune r = take n s ∧ (0 < n ≤ length s)%nat.
Proof.
  intros Hb Hd He Hne. pose proof (decode_rune_scalar s Hb) as Hs. rewrite Hd in Hs. cbn [fst] in Hs.
  destruct s as [|a s]; [done|]. unfold encode_rune. rewrite Hs. clear Hne.
  apply Forall_cons in Hb as [Ha Hb]. unfold is_byte in Ha. unfold decode_rune in Hd.
  destruct (Z.ltb_spec a 128) as [Hlt|Hge].
  { injection Hd as <- <-. rewrite (proj2 (Z.ltb_lt a 128)) by done. cbn. split; [done|lia]. }
  repeat (case_match; try (injection Hd as <- <-; discriminate He));
    injection Hd as <- <-; cbn [take length]; unfold second3, second4 in *; repeat case_match; byte_ranges; try lia;
    (split; [repeat f_equal; Z.div_mod_to_equations; lia|lia]).
Qed.

(** ** Reading a sanitized text *)

Definition digits_val (ds : bytes) : Z := foldl (λ acc d, acc * 16 + default 0 (hex_value d)) 0 ds.

(** What stands after a backslash: the bytes it names and its length. *)
Definition reveal_escape (s : bytes) : bytes * nat :=
  match s with
  | 120 :: r => ([digits_val (take 2 r)], 3%nat)
  | 117 :: r => (encode_rune (digits_val (take 4 r)), 5%nat)
  | 85 :: r => (encode_rune (digits_val (take 8 r)), 9%nat)
  | _ => ([], 0%nat)
  end.

Fixpoint reveal_skip (skip : nat) (s : bytes) : bytes :=
  match s with
  | [] => []
  | b :: r =>
      match skip with
      | S n => reveal_skip n r
      | O => if b =? 92 then let '(out, n) := reveal_escape r in out ++ reveal_skip n r
             else b :: reveal_skip 0 r
      end
  end.
Definition reveal (s : bytes) : bytes := reveal_skip 0 s.

Lemma reveal_skip_drop n s : reveal_skip n s = reveal (drop n s).
Proof. revert n. induction s as [|b s IH]; intros [|n]; cbn; try done. Qed.

Lemma digits_val_hex n r : 0 ≤ r < 16 ^ Z.of_nat n → digits_val (hex n r) = r.
Proof.
  unfold digits_val. revert r. induction n as [|n IH]; intros r Hr; [cbn in *; lia|].
  cbn [hex]. rewrite foldl_app, IH.
  - cbn [foldl]. rewrite hex_value_digit by (apply Z.mod_pos_bound; lia). cbn [default id].
    pose proof (Z.div_mod r 16 ltac:(lia)). lia.
  - rewrite Nat2Z.inj_succ, Z.pow_succ_r in Hr by lia. split; [apply Z.div_pos; lia|apply Z.div_lt_upper_bound; lia].
Qed.

Lemma take_hex n r w : take n (hex n r ++ w) = hex n r.
Proof. by rewrite take_app_length' by (by rewrite length_hex). Qed.

Lemma drop_hex n r w : drop n (hex n r ++ w) = w.
Proof. by rewrite drop_app_length' by (by rewrite length_hex). Qed.

Lemma reveal_byte b w : is_byte b → reveal (escape_byte b ++ w) = b :: reveal w.
Proof.
  intros Hb. unfold escape_byte. cbn [app]. unfold reveal at 1. cbn [reveal_skip Z.eqb Pos.eqb].
  cbn [reveal_escape]. rewrite take_hex, reveal_skip_drop. cbn [drop]. rewrite drop_hex, digits_val_hex; [done|].
  unfold is_byte in Hb. cbn. lia.
Qed.

Lemma reveal_u4 r w : 0 ≤ r < 65536 → reveal (escape_u4 r ++ w) = encode_rune r ++ reveal w.
Proof.
  intros Hr. unfold escape_u4. cbn [app]. unfold reveal at 1. cbn [reveal_skip Z.eqb Pos.eqb].
  cbn [reveal_escape]. rewrite take_hex, reveal_skip_drop. cbn [drop]. rewrite drop_hex, digits_val_hex; [done|].
  cbn. lia.
Qed.

Lemma reveal_u8 r w : 0 ≤ r < 2 ^ 32 → reveal (escape_u8 r ++ w) = encode_rune r ++ reveal w.
Proof.
  intros Hr. unfold escape_u8. cbn [app]. unfold reveal at 1. cbn [reveal_skip Z.eqb Pos.eqb].
  cbn [reveal_escape]. rewrite take_hex, reveal_skip_drop. cbn [drop]. rewrite drop_hex, digits_val_hex; [done|].
  cbn. lia.
Qed.

Lemma reveal_rune r w : 0 ≤ r ≤ 1114111 → r ≠ 92 → reveal (content_rune r ++ w) = encode_rune r ++ reveal w.
Proof.
  intros Hr Hne. unfold content_rune. destruct (_ && _) eqn:E; [apply reveal_u4; lia|].
  destruct (126 <? r) eqn:E2; [destruct (65535 <? r) eqn:E3; [apply reveal_u8; lia|apply reveal_u4; lia]|].
  rewrite encode_printable by lia. cbn [app]. unfold reveal at 1. cbn [reveal_skip].
  by rewrite (proj2 (Z.eqb_neq r 92)).
Qed.

(** One character: inert, of ten bytes at most, and readable. *)
Lemma content_char_spec content out size w :
  Forall is_byte content → content ≠ [] → content_char content = (out, size) →
  Forall (λ b, inert b = true) out ∧ (length out ≤ 10)%nat ∧ (0 < size ≤ length content)%nat ∧
  (92 ∉ content → reveal (out ++ w) = take size content ++ reveal w).
Proof.
  intros Hb Hne Hc. unfold content_char in Hc. destruct (decode_rune content) as [r n] eqn:Hd.
  pose proof (decode_rune_scalar _ Hb) as Hs. rewrite Hd in Hs. cbn [fst] in Hs.
  assert (Hr : 0 ≤ r ≤ 1114111) by (unfold scalar in Hs; rewrite orb_true_iff, !within_spec in Hs; lia).
  destruct (_ && _) eqn:He; injection Hc as <- <-.
  - destruct content as [|b content]; [done|]. apply Forall_cons in Hb as [Hb _]. cbn [hd].
    split_and!; [|by rewrite (proj1 (length_escapes b)); lia|lia|cbn; lia|].
    + eapply Forall_impl; [apply escapes_printable|apply printable_inert].
    + intros _. cbn [take app]. by apply reveal_byte.
  - destruct (encode_decode _ _ _ Hb Hd He Hne) as [Henc Hn].
    split_and!; [apply content_rune_inert; lia|apply length_content_rune; lia|lia|lia|].
    intros H92. rewrite <- Henc. apply reveal_rune; [done|]. intros ->. apply H92.
    rewrite encode_printable in Henc by lia. rewrite <- (take_drop n content), <- Henc. by left.
Qed.

Lemma content_loop_spec n content :
  Forall is_byte content →
  Forall (λ b, inert b = true) (content_loop n content) ∧ (length (content_loop n content) ≤ 10 * n)%nat ∧
  (92 ∉ content → ∃ rest, content = reveal (content_loop n content) ++ rest ∧
     (rest ≠ [] → (n ≤ length (reveal (content_loop n content)))%nat)).
Proof.
  revert content. induction n as [|n IH]; intros content Hb; cbn [content_loop].
  { split_and!; [done|cbn; lia|]. intros _. exists content. cbn. split; [done|lia]. }
  destruct content as [|b s]; [split_and!; [done|cbn; lia|intros _; by exists []]|].
  assert (Hne : b :: s ≠ []) by done. revert Hb Hne. generalize (b :: s) as c. intros c Hb Hne.
  destruct (content_char c) as [out size] eqn:Hc.
  destruct (IH (drop size c) ltac:(by apply Forall_drop)) as (Hi & Hl & Hr).
  destruct (content_char_spec c out size (content_loop n (drop size c)) Hb Hne Hc) as (Hi' & Hl' & Hs & Hr').
  split_and!; [by apply Forall_app_2|rewrite length_app; lia|]. intros H92. rewrite Hr' by done.
  destruct Hr as (rest & Heq & Hn).
  { intros Hin. apply H92. rewrite <- (take_drop size c). apply elem_of_app. by right. }
  exists rest. rewrite <- app_assoc, <- Heq, take_drop. split; [done|]. intros Hne'. specialize (Hn Hne').
  rewrite length_app, length_take. lia.
Qed.

(** Quarantined text is shown inert.  For every content,
    SanitizeContent writes its header, a body and its footer; the body holds
    printable ASCII and the line and tab controls only, and is at most
    40,960 bytes long.  Nothing is made up: read back by its escapes, the
    body of a content without a backslash is the start of that content, and
    all of it unless 4096 bytes or more are shown. *)
Theorem quarantined_text_is_inert content :
  Forall is_byte content →
  ∃ body, SanitizeContent content = sanitizeHeader ++ body ++ sanitizeFooter ∧
    Forall (λ b, inert b = true) (SanitizeContent content) ∧
    Z.of_nat (length body) ≤ 40960 ∧
    (92 ∉ content → ∃ rest, content = reveal body ++ rest ∧ (rest ≠ [] → 4096 ≤ Z.of_nat (length (reveal body)))).
Proof.
  intros Hb. destruct (content_loop_spec maxSanitizedChars content Hb) as (Hi & Hl & Hr).
  exists (content_loop maxSanitizedChars content). unfold maxSanitizedChars in *. split_and!; [done| |lia|].
  2: { intros H92. destruct (Hr H92) as (rest & Heq & Hn). exists rest. split; [done|]. intros Hne. specialize (Hn Hne). lia. }
  unfold SanitizeContent. apply Forall_app_2; [|apply Forall_app_2; [done|]];
    by apply forallb_Forall.
Qed.

(** A field of a notification: one line of printable ASCII, of at most 2563
    bytes. *)
Lemma field_loop_spec room rs :
  Forall (λ r, 0 ≤ r) rs →
  Forall (λ b, printable b = true) (field_loop room rs) ∧ (length (field_loop room rs) ≤ 10 * room + 3)%nat.
Proof.
  intros H. revert room. induction H as [|r rs Hr _ IH]; intros room; cbn [field_loop]; [split; [constructor|cbn; lia]|].
  destruct room as [|n]; [split; [by apply forallb_Forall|cbn; lia]|].
  destruct (IH n) as [Hp Hl]. split; [apply Forall_app_2; [by apply field_rune_printable|done]|].
  rewrite length_app. pose proof (length_field_rune r Hr). lia.
Qed.

Lemma field_is_inert value :
  Forall is_byte value →
  Forall (λ b, printable b = true) (SanitizeField value) ∧ (length (SanitizeField value) ≤ 2563)%nat.
Proof.
  intros Hb. apply (field_loop_spec maxSanitizedFieldChars). eapply Forall_impl; [by apply runes_scalar|].
  intros r Hr. unfold scalar in Hr. rewrite orb_true_iff, !within_spec in Hr. lia.
Qed.

(** The frame is not a fence: content may hold the footer's own line, and
    what follows it is shown after it. *)
Theorem footer_can_be_forged (after : bytes) :
  Forall (λ b, printable b = true ∧ b ≠ 92) after → Z.of_nat (length after) ≤ 4000 →
  SanitizeContent (sanitizeFooter ++ after) = sanitizeHeader ++ sanitizeFooter ++ after ++ sanitizeFooter.
Proof.
  intros Ha Hl. unfold SanitizeContent. f_equal. rewrite (app_assoc sanitizeFooter after). f_equal.
  assert (Hloop : ∀ l n, Forall (λ b, inert b = true) l → (length l ≤ n)%nat → content_loop n l = l).
  { intros l. induction l as [|b l IH]; intros n Hp Hn; [by destruct n|]. destruct n as [|n]; [cbn in Hn; lia|].
    apply Forall_cons in Hp as [Hb Hp]. unfold inert, printable, within in Hb. cbn [content_loop].
    assert (Hc : content_char (b :: l) = ([b], 1%nat)).
    { unfold content_char, decode_rune. rewrite (proj2 (Z.ltb_lt b 128)) by lia.
      rewrite (proj2 (Z.eqb_neq b RuneError)) by (unfold RuneError; lia). cbn [andb]. f_equal. unfold content_rune.
      rewrite (proj2 (Z.ltb_ge 126 b)) by lia. rewrite encode_printable by lia.
      destruct (b <? 32) eqn:E; [|done]. assert (b = 10 ∨ b = 13 ∨ b = 9) as [-> |[-> | ->]] by lia; done. }
    rewrite Hc. cbn [drop app]. rewrite IH by (try done; cbn in Hn; lia). done. }
  apply Hloop.
  - apply Forall_app_2; [by apply forallb_Forall|].
    eapply Forall_impl; [exact Ha|]. intros b [Hb _]. by apply printable_inert.
  - rewrite length_app. change (length sanitizeFooter) with 31%nat. unfold maxSanitizedChars. lia.
Qed.

(** ** Witness *)

Lemma quarantined_text_is_inert_witness :
  let content := encode [73; 103; 110; 111; 114; 101; 8203; 13; 10] in
  ∃ body, SanitizeContent content = sanitizeHeader ++ body ++ sanitizeFooter ∧
    Forall (λ b, inert b = true) (SanitizeContent content).
Proof.
  intros content. destruct (quarantined_text_is_inert content) as (body & H1 & H2 & _).
  - apply (bool_decide_unpack (Forall (λ b, 0 ≤ b < 256) content)). vm_compute. done.
  - by exists body.
Defined.
