(* ===== verification/DStaging.v ===== *)
(** internal/staging: what a staged item's metadata must be, and the reading
    of an item.

    json.Decoder and strconv.Quote (%q) are parameters; errors carry the
    texts the code writes, because reject.go's reasons are read from them. *)
From S2P Require Import Prelude GoStrings GoPath GoTime Utf8 JsonString.
Local Open Scope string_scope.

(** ** audience.go *)

Definition AudienceSubject : string := "subject".
Definition AudienceGuardians : string := "guardians".
Definition AudienceSiblings : string := "siblings".
Definition AudienceHousehold : string := "household".
Definition AudienceCaregivers : string := "caregivers".
Definition AudiencePublic : string := "public".
Definition AudienceOperator : string := "operator".

Definition maxAudienceEntries : nat := 16.

Definition validAudienceTokens : list string :=
  [AudienceSubject; AudienceGuardians; AudienceSiblings; AudienceHousehold; AudienceCaregivers;
   AudiencePublic; AudienceOperator].
Definition householdSubsetTokens : list string := [AudienceSubject; AudienceGuardians; AudienceSiblings].
Definition subjectRelativeTokens : list string := [AudienceSubject; AudienceSiblings].

Definition among (tok : string) (l : list string) : bool := bool_decide (tok ∈ l).

(** ** types.go *)

Record ItemIdentity := mkIdentity {
  AccountID : string;
  Provider : string;
  AuthMethod : string;
  IScopes : list string;
  Tenant : string;
}.

Record EnrichmentRecord := mkEnrichment {
  Producer : string;
  EKind : string;
  ESource : string;
  Filename : string;
  Status : string;
  EError : string;
}.

(** A nil audience is [None]. *)
Record ItemMetadata := mkMetadata {
  MSource : string;
  MSender : string;
  MSubject : string;
  MTimestamp : Z;
  DestinationAgent : string;
  ContentType : string;
  Ordered : bool;
  AuthFailure : bool;
  Identity : option ItemIdentity;
  Tags : gmap string string;
  DataSubject : string;
  Audience : option (list string);
  Tier : string;
  Enrichments : list EnrichmentRecord;
}.

Definition set_subject (s : string) (m : ItemMetadata) : ItemMetadata :=
  mkMetadata (MSource m) (MSender m) s (MTimestamp m) (DestinationAgent m) (ContentType m) (Ordered m)
    (AuthFailure m) (Identity m) (Tags m) (DataSubject m) (Audience m) (Tier m) (Enrichments m).
Definition set_data_subject (s : string) (a : option (list string)) (m : ItemMetadata) : ItemMetadata :=
  mkMetadata (MSource m) (MSender m) (MSubject m) (MTimestamp m) (DestinationAgent m) (ContentType m) (Ordered m)
    (AuthFailure m) (Identity m) (Tags m) s a (Tier m) (Enrichments m).

Record StagingItem := mkItem {
  DirPath : string;
  ContentPath : string;
  Metadata : ItemMetadata;
}.

Record ValidationError := mkVE { VField : string; VMessage : string }.

(** ** Control characters (metadata.go) *)

(** unicode.IsControl *)
Definition IsControl (r : Z) : bool := within 0 31 r || within 127 159 r.
Definition IsUnsafeControl (r : Z) : bool :=
  IsControl r && negb (r =? 10)%Z && negb (r =? 13)%Z && negb (r =? 9)%Z.

Definition hasControlChars (s : string) : bool := existsb IsUnsafeControl (runes (bytes_of_string s)).

(** strings.Map with a mapping that drops runes. *)
Definition StripSubjectControlChars (s : string) : string :=
  string_of_bytes (encode (filter (λ r, IsUnsafeControl r = false) (runes (bytes_of_string s)))).

(** validTagKey *)
Definition tag_char (a : ascii) : bool :=
  let b := byte_of a in
  within 97 122 b || within 65 90 b || within 48 57 b || (b =? 45)%Z || (b =? 95)%Z || (b =? 46)%Z.
Definition validTagKey (k : string) : bool :=
  negb (String.eqb k "") && forallb tag_char (String.list_ascii_of_string k).

Section staging.
(** fmt's %q of a string. *)
Context (Quote : string → string).

(** *** ValidateAudience *)

(** The loop over the tokens, with the tokens seen so far. *)
Fixpoint audience_loop (seen toks : list string) : res string () :=
  match toks with
  | [] => Ok ()
  | tok :: rest =>
      if negb (among tok validAudienceTokens) then Err ("unknown audience token " ++ Quote tok)
      else if among tok seen then Err ("duplicate audience token " ++ Quote tok)
      else audience_loop (tok :: seen) rest
  end.

Definition ValidateAudience (audience : option (list string)) (hasDataSubject : bool) : res string () :=
  match audience with
  | None => Ok ()
  | Some toks =>
      if (length toks =? 0)%nat then Err "audience must be omitted entirely, not empty"
      else if (maxAudienceEntries <? length toks)%nat then Err "audience has too many entries (max 16)"
      else match audience_loop [] toks with
      | Err e => Err e
      | Ok _ =>
          if among AudiencePublic toks && (1 <? length toks)%nat then Err "public must appear alone in audience"
          else if among AudienceOperator toks && (1 <? length toks)%nat
          then Err "operator must appear alone in audience"
          else if among AudienceHousehold toks && existsb (λ t, among t householdSubsetTokens) toks
          then Err "household must appear alone with its subsets (subject/guardians/siblings); only caregivers may coexist"
          else if negb hasDataSubject && existsb (λ t, among t subjectRelativeTokens) toks
          then Err "audience token requires data_subject to be set (subject/siblings)"
          else Ok ()
      end
  end.

Definition EffectiveAudience (m : ItemMetadata) : list string :=
  match Audience m with None => [AudienceHousehold] | Some a => a end.

(** *** Validate *)

(** One check: the errors so far, and one more when it fails. *)
Definition when (c : bool) (field message : string) : list ValidationError :=
  if c then [mkVE field message] else [].
Definition longer (s : string) (n : nat) : bool := (n <? String.length s)%nat.

Fixpoint scope_errors (i : Z) (scopes : list string) : list ValidationError :=
  match scopes with
  | [] => []
  | s :: rest =>
      (when (longer s 64) "identity.scopes" ("scope[" ++ itoa i ++ "] exceeds 64 characters")
       ++ scope_errors (i + 1) rest)%list
  end.

Definition validateIdentity (id : ItemIdentity) : list ValidationError :=
  (when (longer (Provider id) 64) "identity.provider" "exceeds 64 characters"
   ++ when (hasControlChars (Provider id)) "identity.provider" "contains control characters"
   ++ when (longer (AuthMethod id) 64) "identity.auth_method" "exceeds 64 characters"
   ++ when (hasControlChars (AuthMethod id)) "identity.auth_method" "contains control characters"
   ++ when (longer (AccountID id) 1024) "identity.account_id" "exceeds 1024 characters"
   ++ when (hasControlChars (AccountID id)) "identity.account_id" "contains control characters"
   ++ when (longer (Tenant id) 256) "identity.tenant" "exceeds 256 characters"
   ++ when (hasControlChars (Tenant id)) "identity.tenant" "contains control characters"
   ++ when (32 <? length (IScopes id))%nat "identity.scopes" "exceeds 32 entries"
   ++ scope_errors 0 (IScopes id))%list.

Definition tag_errors (kv : string * string) : list ValidationError :=
  let '(k, v) := kv in
  (when (longer k 64) "tags" ("key " ++ Quote k ++ " exceeds 64 characters")
   ++ when (negb (validTagKey k)) "tags"
        ("key " ++ Quote k ++ " contains invalid characters (allowed: alphanumeric, -, _, .)")
   ++ when (longer v 1024) "tags" ("value for key " ++ Quote k ++ " exceeds 1024 characters")
   ++ when (hasControlChars v) "tags" ("value for key " ++ Quote k ++ " contains control characters"))%list.

(** The order of a Go map is not specified; it only orders the errors. *)
Definition validateTags (tags : gmap string string) : list ValidationError :=
  (when (32 <? size tags)%nat "tags" ("exceeds 32 tags (has " ++ itoa (Z.of_nat (size tags)) ++ ")")
   ++ map_to_list tags ≫= tag_errors)%list.

Definition audience_errors (m : ItemMetadata) : list ValidationError :=
  match ValidateAudience (Audience m) (negb (String.eqb (DataSubject m) "")) with
  | Ok _ => []
  | Err e => [mkVE "audience" e]
  end.

Definition Validate (m : ItemMetadata) (allowlist : list string) : list ValidationError :=
  (when (String.eqb (MSource m) "") "source" "required"
   ++ when (String.eqb (MSender m) "") "sender" "required"
   ++ when (is_zero (MTimestamp m)) "timestamp" "required"
   ++ when (String.eqb (DestinationAgent m) "") "destination_agent" "required"
   ++ when (String.eqb (ContentType m) "") "content_type" "required"
   ++ when (negb (String.eqb (DestinationAgent m) "") && negb (among (DestinationAgent m) allowlist))
        "destination_agent" ("not in allowlist: " ++ Quote (DestinationAgent m))
   ++ when (longer (MSource m) 1024) "source" "exceeds 1024 characters"
   ++ when (longer (MSender m) 1024) "sender" "exceeds 1024 characters"
   ++ when (longer (MSubject m) 1024) "subject" "exceeds 1024 characters"
   ++ when (longer (DestinationAgent m) 64) "destination_agent" "exceeds 64 characters"
   ++ when (longer (ContentType m) 64) "content_type" "exceeds 64 characters"
   ++ when (hasControlChars (MSource m)) "source" "contains control characters"
   ++ when (hasControlChars (MSender m)) "sender" "contains control characters"
   ++ when (hasControlChars (DestinationAgent m)) "destination_agent" "contains control characters"
   ++ when (hasControlChars (ContentType m)) "content_type" "contains control characters"
   ++ match Identity m with Some id => validateIdentity id | None => [] end
   ++ (if (0 <? size (Tags m))%nat then validateTags (Tags m) else [])
   ++ (if negb (String.eqb (DataSubject m) "")
       then when (longer (DataSubject m) 256) "data_subject" "exceeds 256 characters"
            ++ when (hasControlChars (DataSubject m)) "data_subject" "contains control characters"
       else [])
   ++ audience_errors m
   ++ when (AuthFailure m) "auth_failure" "source authentication failed")%list.

(** *** Reasons *)

Definition RejectReasonFromError (msg : string) : string :=
  if contains "auth_failure" msg then "source_auth_failure"
  else if contains "not in allowlist" msg then "unknown_destination"
  else if contains "metadata.json" msg then "malformed_metadata"
  else if contains "content" msg then "content_unreadable"
  else "malformed_metadata".

Definition RejectReason (errs : list ValidationError) : string :=
  if existsb (λ e, String.eqb (VField e) "auth_failure") errs then "source_auth_failure"
  else if existsb (λ e, String.eqb (VField e) "destination_agent" && negb (String.eqb (VMessage e) "required")) errs
  then "unknown_destination"
  else "malformed_metadata".

(** *** ReadStagingItem *)

(** %v of a slice of errors: each one's Error text, in brackets. *)
Definition errors_text (errs : list ValidationError) : string :=
  "[" ++ join " " ((λ e, VField e ++ ": " ++ VMessage e) <$> errs) ++ "]".

(** [opened] is the file metadata.json as os.Open gives it, and
    [ParseMetadata] the decoding of its bytes. *)
Definition ReadStagingItem (ParseMetadata : bytes → res string ItemMetadata) (dirPath : string)
    (opened : res string bytes) (allowlist : list string) : res string StagingItem :=
  match opened with
  | Err e => Err ("metadata.json: " ++ e)
  | Ok data =>
      match ParseMetadata data with
      | Err e => Err ("parse metadata: " ++ e)
      | Ok meta =>
          let meta := set_subject (StripSubjectControlChars (MSubject meta)) meta in
          match Validate meta allowlist with
          | [] => Ok (mkItem dirPath (Join [dirPath; "content.raw"]) meta)
          | errs => Err ("validation failed: " ++ errors_text errs)
          end
      end
  end.

(** ** What is accepted *)

Definition short (n : nat) (s : string) : Prop := (String.length s ≤ n)%nat.
Definition calm (s : string) : Prop := hasControlChars s = false.

Record good_identity (id : ItemIdentity) : Prop := {
  id_provider : short 64 (Provider id) ∧ calm (Provider id);
  id_method : short 64 (AuthMethod id) ∧ calm (AuthMethod id);
  id_account : short 1024 (AccountID id) ∧ calm (AccountID id);
  id_tenant : short 256 (Tenant id) ∧ calm (Tenant id);
  id_scopes : (length (IScopes id) ≤ 32)%nat ∧ Forall (short 64) (IScopes id);
}.

(** The rules of an audience, for an item with a data subject or not. *)
Record good_audience (hasDataSubject : bool) (toks : list string) : Prop := {
  aud_size : (1 ≤ length toks ≤ 16)%nat;
  aud_tokens : ∀ t, t ∈ toks → t ∈ validAudienceTokens;
  aud_nodup : NoDup toks;
  aud_public : AudiencePublic ∈ toks → toks = [AudiencePublic];
  aud_operator : AudienceOperator ∈ toks → toks = [AudienceOperator];
  aud_household : AudienceHousehold ∈ toks → ∀ t, t ∈ toks → t ∉ householdSubsetTokens;
  aud_subject : hasDataSubject = false → ∀ t, t ∈ toks → t ∉ subjectRelativeTokens;
}.

Record acceptable (allowlist : list string) (m : ItemMetadata) : Prop := {
  acc_source : MSource m ≠ "" ∧ short 1024 (MSource m) ∧ calm (MSource m);
  acc_sender : MSender m ≠ "" ∧ short 1024 (MSender m) ∧ calm (MSender m);
  acc_subject : short 1024 (MSubject m);
  acc_time : is_zero (MTimestamp m) = false;
  acc_agent : DestinationAgent m ≠ "" ∧ DestinationAgent m ∈ allowlist
              ∧ short 64 (DestinationAgent m) ∧ calm (DestinationAgent m);
  acc_type : ContentType m ≠ "" ∧ short 64 (ContentType m) ∧ calm (ContentType m);
  acc_identity : ∀ id, Identity m = Some id → good_identity id;
  acc_tags : (size (Tags m) ≤ 32)%nat ∧ ∀ k v, Tags m !! k = Some v →
             short 64 k ∧ validTagKey k = true ∧ short 1024 v ∧ calm v;
  acc_data_subject : DataSubject m ≠ "" → short 256 (DataSubject m) ∧ calm (DataSubject m);
  acc_audience : ∀ toks, Audience m = Some toks → good_audience (negb (String.eqb (DataSubject m) "")) toks;
  acc_auth : AuthFailure m = false;
}.

(** *** Lemmas *)

Lemma among_spec t l : among t l = true ↔ t ∈ l.
Proof. apply bool_decide_eq_true. Qed.

Lemma among_false t l : among t l = false ↔ t ∉ l.
Proof. apply bool_decide_eq_false. Qed.

Lemma when_nil c f m : when c f m = [] ↔ c = false.
Proof. by destruct c. Qed.

Lemma longer_false s n : longer s n = false ↔ short n s.
Proof. unfold longer, short. rewrite Nat.ltb_ge. done. Qed.

Lemma audience_loop_ok toks seen :
  is_ok (audience_loop seen toks) = true ↔
  (∀ t, t ∈ toks → t ∈ validAudienceTokens) ∧ NoDup toks ∧ ∀ t, t ∈ toks → t ∉ seen.
Proof.
  revert seen. induction toks as [|t toks IH]; intros seen; cbn [audience_loop].
  { split; [intros _|done]. split_and!; [set_solver|constructor|set_solver]. }
  destruct (among t validAudienceTokens) eqn:E1; cbn [negb]; [|apply among_false in E1; split; [done|set_solver]].
  apply among_spec in E1. destruct (among t seen) eqn:E2.
  { apply among_spec in E2. split; [done|set_solver]. }
  apply among_false in E2. rewrite IH, NoDup_cons. split.
  - intros (H1 & H2 & H3). split_and!; [set_solver|set_solver|done|set_solver].
  - intros (H1 & (H2 & H3) & H4). split_and!; [set_solver|done|set_solver].
Qed.

Lemma alone_spec tok toks :
  among tok toks && (1 <? length toks)%nat = false ↔ (tok ∈ toks → toks = [tok]).
Proof.
  rewrite andb_false_iff, among_false, Nat.ltb_ge. split.
  - intros [Hn|Hl] Hin; [done|]. destruct toks as [|t [|t2 toks]]; [set_solver|set_solver|cbn in Hl; lia].
  - intros H. destruct (decide (tok ∈ toks)) as [Hin|]; [right|by left]. rewrite (H Hin). cbn. lia.
Qed.

Lemma none_among l toks :
  existsb (λ t, among t l) toks = false ↔ ∀ t, t ∈ toks → t ∉ l.
Proof. rewrite existsb_false. split; intros H t Ht; apply among_false; by apply H. Qed.

Lemma ValidateAudience_ok a b :
  is_ok (ValidateAudience a b) = true ↔ ∀ toks, a = Some toks → good_audience b toks.
Proof.
  destruct a as [toks|]; cbn [ValidateAudience]; [|split; [by intros _ ? [=]|done]].
  transitivity (good_audience b toks); [|split; [by intros H ? [= <-]|by intros H; apply H]].
  destruct (Nat.eqb_spec (length toks) 0) as [E0|E0].
  { split; [done|]. intros [H]. lia. }
  destruct (Nat.ltb_spec maxAudienceEntries (length toks)) as [E1|E1].
  { split; [done|]. intros [H]. unfold maxAudienceEntries in E1. lia. }
  pose proof (audience_loop_ok toks []) as Hl. destruct (audience_loop [] toks) as [u|e].
  2: { split; [done|]. intros [_ H1 H2 _ _ _ _]. exfalso. cut (is_ok (E := string) (A := ()) (Err e) = true); [done|].
       apply Hl. set_solver. }
  destruct (proj1 Hl eq_refl) as (H1 & H2 & _). clear Hl.
  destruct (among AudiencePublic toks && _) eqn:E2.
  { split; [done|]. intros [_ _ _ H _ _ _]. by rewrite (proj2 (alone_spec _ _) H) in E2. }
  destruct (among AudienceOperator toks && _) eqn:E3.
  { split; [done|]. intros [_ _ _ _ H _ _]. by rewrite (proj2 (alone_spec _ _) H) in E3. }
  destruct (among AudienceHousehold toks && _) eqn:E4.
  { apply andb_true_iff in E4 as [Hh%among_spec E4]. split; [done|]. intros [_ _ _ _ _ H _].
    by rewrite (proj2 (none_among _ _) (H Hh)) in E4. }
  destruct (negb b && _) eqn:E5.
  { apply andb_true_iff in E5 as [Hb%negb_true_iff E5]. split; [done|]. intros [_ _ _ _ _ _ H].
    by rewrite (proj2 (none_among _ _) (H Hb)) in E5. }
  split; [intros _|done]. split; [unfold maxAudienceEntries in E1; lia|done|done|by apply alone_spec|by apply alone_spec|..].
  - intros Hh. apply none_among. apply andb_false_iff in E4 as [E4|E4]; [by apply among_false in E4|done].
  - intros ->. by apply none_among.
Qed.

Lemma scope_errors_nil i scopes : scope_errors i scopes = [] ↔ Forall (short 64) scopes.
Proof.
  revert i. induction scopes as [|s l IH]; intros i; cbn [scope_errors]; [by split|].
  by rewrite app_nil, when_nil, longer_false, IH, Forall_cons.
Qed.

Lemma validateIdentity_nil id : validateIdentity id = [] ↔ good_identity id.
Proof.
  unfold validateIdentity. rewrite !app_nil, !when_nil, !longer_false, scope_errors_nil, Nat.ltb_ge.
  split; [intros H; split; naive_solver|]. intros [[] [] [] [] []]. naive_solver.
Qed.

Lemma tag_errors_nil kv :
  tag_errors kv = [] ↔ short 64 kv.1 ∧ validTagKey kv.1 = true ∧ short 1024 kv.2 ∧ calm kv.2.
Proof.
  destruct kv as [k v]. unfold tag_errors. rewrite !app_nil, !when_nil, !longer_false, negb_false_iff. done.
Qed.

Lemma bind_nil {A B} (f : A → list B) l : l ≫= f = [] ↔ ∀ x, x ∈ l → f x = [].
Proof.
  induction l as [|x l IH]; [set_solver|]. rewrite bind_cons, app_nil, IH. set_solver.
Qed.

Lemma validateTags_nil tags :
  (if (0 <? size tags)%nat then validateTags tags else []) = [] ↔
  (size tags ≤ 32)%nat ∧ ∀ k v, tags !! k = Some v → short 64 k ∧ validTagKey k = true ∧ short 1024 v ∧ calm v.
Proof.
  assert (Hb : map_to_list tags ≫= tag_errors = [] ↔
    ∀ k v, tags !! k = Some v → short 64 k ∧ validTagKey k = true ∧ short 1024 v ∧ calm v).
  { rewrite bind_nil. split.
    - intros H k v Hkv. apply elem_of_map_to_list in Hkv. by apply H, tag_errors_nil in Hkv.
    - intros H [k v] Hkv%elem_of_map_to_list. apply tag_errors_nil. by apply H. }
  destruct (Nat.ltb_spec 0 (size tags)).
  - unfold validateTags. by rewrite app_nil, when_nil, Nat.ltb_ge, Hb.
  - split; [intros _|done]. split; [lia|]. intros k v Hkv.
    rewrite (map_size_empty_inv tags) in Hkv by lia. by rewrite lookup_empty in Hkv.
Qed.

Lemma required s : String.eqb s "" = false ↔ s ≠ "".
Proof. apply String.eqb_neq. Qed.

Lemma Validate_nil m allowlist : Validate m allowlist = [] ↔ acceptable allowlist m.
Proof.
  unfold Validate. rewrite !app_nil, !when_nil, !longer_false, !required, validateTags_nil.
  assert (Hid : match Identity m with Some id => validateIdentity id | None => [] end = [] ↔
                ∀ id, Identity m = Some id → good_identity id).
  { destruct (Identity m) as [id|]; [|by split; [intros _ ? [=]|]].
    rewrite validateIdentity_nil. split; [by intros H ? [= <-]|by intros H; apply H]. }
  assert (Haud : audience_errors m = [] ↔
                 ∀ toks, Audience m = Some toks → good_audience (negb (String.eqb (DataSubject m) "")) toks).
  { rewrite <- ValidateAudience_ok. unfold audience_errors. by destruct (ValidateAudience _ _). }
  assert (Hds : (if negb (String.eqb (DataSubject m) "")
       then (when (longer (DataSubject m) 256) "data_subject" "exceeds 256 characters"
            ++ when (hasControlChars (DataSubject m)) "data_subject" "contains control characters")%list
       else []) = [] ↔ (DataSubject m ≠ "" → short 256 (DataSubject m) ∧ calm (DataSubject m))).
  { destruct (String.eqb_spec (DataSubject m) ""); cbn [negb]; [by split|].
    rewrite app_nil, !when_nil, longer_false. unfold calm. tauto. }
  assert (Hag : negb (String.eqb (DestinationAgent m) "") && negb (among (DestinationAgent m) allowlist) = false ↔
                (DestinationAgent m ≠ "" → DestinationAgent m ∈ allowlist)).
  { rewrite andb_false_iff, !negb_false_iff, among_spec, String.eqb_eq.
    destruct (decide (DestinationAgent m = "")); tauto. }
  rewrite Hid, Haud, Hds, Hag. split.
  - intros H. split; tauto.
  - intros []. tauto.
Qed.
End staging.

(** * What ReadStagingItem accepts, and the reason it gives for the rest. *)

Section facts.
Context (Quote : string → string) (ParseMetadata : bytes → res string ItemMetadata).

(** An item is taken from staging exactly when its metadata.json can be
    opened and parsed and is acceptable: the required fields are there,
    every text is within its length and holds no unsafe control character
    (the subject is stripped of them first), the destination is in the
    allowlist, the tags and the identity are well formed, the audience obeys
    its rules and the source authenticated the item. What is taken is that
    metadata, with the subject stripped. *)
Theorem staged_item_accepted_exactly dirPath opened allowlist item :
  ReadStagingItem Quote ParseMetadata dirPath opened allowlist = Ok item ↔
  ∃ data meta, opened = Ok data ∧ ParseMetadata data = Ok meta ∧
    let clean := set_subject (StripSubjectControlChars (MSubject meta)) meta in
    acceptable allowlist clean ∧ item = mkItem dirPath (Join [dirPath; "content.raw"]) clean.
Proof.
  unfold ReadStagingItem. split.
  - destruct opened as [data|]; [|done]. destruct (ParseMetadata data) as [meta|] eqn:Hp; [|done].
    cbn zeta. destruct (Validate _ _ _) eqn:Hv; [|done]. intros [= <-]. exists data, meta.
    split_and!; [done|done|by eapply Validate_nil|done].
  - intros (data & meta & -> & -> & Hacc%(Validate_nil Quote) & ->). by rewrite Hacc.
Qed.

(** The subject of an item that was taken holds no unsafe control
    character. *)
Lemma stripped_calm s : calm (StripSubjectControlChars s).
Proof.
  unfold calm, hasControlChars, StripSubjectControlChars. set (rs := filter _ _).
  assert (Hs : Forall (λ r, scalar r = true) rs).
  { apply Forall_forall. intros r Hr. apply list_elem_of_filter in Hr as [_ Hr].
    pose proof (runes_scalar _ (bytes_of_string_bytes s)) as H. rewrite Forall_forall in H. by apply H. }
  rewrite bytes_of_string_of_bytes by (by apply encode_bytes). rewrite runes_encode.
  apply existsb_false. intros r Hr. apply list_elem_of_fmap in Hr as (r' & -> & Hr').
  rewrite norm_scalar; [|by rewrite Forall_forall in Hs; apply Hs].
  by apply list_elem_of_filter in Hr' as [? _].
Qed.

Lemma accepted_subject_calm dirPath opened allowlist item :
  ReadStagingItem Quote ParseMetadata dirPath opened allowlist = Ok item → calm (MSubject (Metadata item)).
Proof.
  unfold ReadStagingItem. destruct opened as [data|]; [|done]. destruct (ParseMetadata data) as [meta|]; [|done].
  cbn zeta. destruct (Validate _ _ _); [|done]. intros [= <-]. apply stripped_calm.
Qed.
End facts.

(** ** Reject reasons *)

Definition ascii_quote (s : string) : string := String (ascii_of_nat 34) (s ++ String (ascii_of_nat 34) "").

Definition good_meta : ItemMetadata :=
  mkMetadata "imap" "alice@example.org" "Lunch" 1 "messaging" "text/plain" false false None ∅ "" None "" [].
Definition untyped_meta : ItemMetadata :=
  mkMetadata "imap" "alice@example.org" "Lunch" 1 "messaging" "" false false None ∅ "" None "" [].

(** An item whose only fault is a missing content_type is malformed by
    RejectReason and by the specification, and is rejected as
    content_unreadable: the reason is looked for in the error's text, and
    the name of the field holds the word content. *)
Theorem missing_type_misreported :
  Validate ascii_quote untyped_meta ["messaging"] = [mkVE "content_type" "required"] ∧
  RejectReason (Validate ascii_quote untyped_meta ["messaging"]) = "malformed_metadata" ∧
  (∃ e, ReadStagingItem ascii_quote (λ _, Ok untyped_meta) "/staging/1" (Ok []) ["messaging"] = Err e ∧
        RejectReasonFromError e = "content_unreadable").
Proof. split_and!; [by vm_compute..|]. eexists. split; [by vm_compute|]. by vm_compute. Qed.

(** ** Witness *)

Example good_item_accepted :
  ReadStagingItem ascii_quote (λ _, Ok good_meta) "/staging/1" (Ok []) ["messaging"]
  = Ok (mkItem "/staging/1" "/staging/1/content.raw" good_meta).
Proof. by vm_compute. Qed.
