(* ===== verification/DSubject.v ===== *)
(** internal/subject and internal/source: the registries of known subjects
    and of ingest sources, and the resolution of an item's subject.

    The decoded JSON file is the input: opening and decoding it is I/O. *)
From S2P Require Import Prelude GoStrings DStaging.
Local Open Scope string_scope.

(** ** registry.go of internal/subject *)

Record subjectEntry := mkEntry {
  EntityID : string;
  display : string;
  Principals : list string;
  EDefaultAudience : option (list string);
}.

(** The maps hold pointers to the same entries; entries never change, so
    the maps hold values here. *)
Record SubjectRegistry := mkRegistry {
  enforce : bool;
  entities : gmap string subjectEntry;
  byPrinc : gmap string subjectEntry;
}.

(** wireEntry and wireRegistry. *)
Record wireRegistry := mkWire {
  WEnforce : bool;
  WSubjects : list subjectEntry;
}.

(** A nil registry is [None]. *)
Definition Enforce (r : option SubjectRegistry) : bool :=
  match r with Some reg => enforce reg | None => false end.

Definition Resolve (r : option SubjectRegistry) (s : string) : option string :=
  match r with
  | None => None
  | Some reg =>
      match byPrinc reg !! s with
      | Some e => Some (EntityID e)
      | None => match entities reg !! s with Some e => Some (EntityID e) | None => None end
      end
  end.

Definition DefaultAudience (r : option SubjectRegistry) (entityID : string) : option (list string) :=
  match r with
  | None => None
  | Some reg => match entities reg !! entityID with Some e => EDefaultAudience e | None => None end
  end.

Section load.
Context (Quote : string → string).

(** The inner loop of Load: the principals of one entry. *)
Fixpoint add_principals (e : subjectEntry) (ps : list string) (m : gmap string subjectEntry)
    : res string (gmap string subjectEntry) :=
  match ps with
  | [] => Ok m
  | p :: rest =>
      match m !! p with
      | Some existing => Err ("subject registry: principal " ++ Quote p ++ " claimed by both "
                              ++ Quote (EntityID existing) ++ " and " ++ Quote (EntityID e))
      | None => add_principals e rest (<[p := e]> m)
      end
  end.

Fixpoint load_entries (i : Z) (subjects : list subjectEntry) (ents princ : gmap string subjectEntry)
    : res string (gmap string subjectEntry * gmap string subjectEntry) :=
  match subjects with
  | [] => Ok (ents, princ)
  | ws :: rest =>
      if String.eqb (EntityID ws) "" then Err ("subject registry: entry " ++ itoa i ++ ": entity_id must not be empty")
      else match ents !! EntityID ws with
      | Some _ => Err ("subject registry: duplicate entity_id " ++ Quote (EntityID ws))
      | None =>
          match ValidateAudience Quote (EDefaultAudience ws) true with
          | Err e => Err ("subject registry: entity_id " ++ Quote (EntityID ws) ++ ": default_audience: " ++ e)
          | Ok _ =>
              match add_principals ws (Principals ws) princ with
              | Err e => Err e
              | Ok princ' => load_entries (i + 1) rest (<[EntityID ws := ws]> ents) princ'
              end
          end
      end
  end.

(** The second pass: a principal that is also an entity id. *)
Definition clash (ents : gmap string subjectEntry) (subjects : list subjectEntry) : option string :=
  head (filter (λ p, is_Some (ents !! p)) (subjects ≫= Principals)).

(** Load for a non-empty path, from the decoded file. *)
Definition Load (wire : wireRegistry) : res string SubjectRegistry :=
  match load_entries 0 (WSubjects wire) ∅ ∅ with
  | Err e => Err e
  | Ok (ents, princ) =>
      match clash ents (WSubjects wire) with
      | Some p => Err ("subject registry: principal " ++ Quote p ++ " collides with a registered entity_id")
      | None => Ok (mkRegistry (WEnforce wire) ents princ)
      end
  end.

(** Load "" *)
Definition no_registry : SubjectRegistry := mkRegistry false ∅ ∅.
End load.

(** ** resolve.go *)

Inductive Outcome := OutcomeSubjectless | OutcomeResolved | OutcomeUnresolved.
#[export] Instance Outcome_eq_dec : EqDecision Outcome.
Proof. solve_decision. Defined.

(** len of a slice that may be nil. *)
Definition audience_len (a : option (list string)) : nat :=
  match a with Some l => length l | None => 0 end.

Definition ResolveItem (m : ItemMetadata) (reg : option SubjectRegistry) : ItemMetadata * Outcome :=
  if String.eqb (DataSubject m) "" then (m, OutcomeSubjectless)
  else match Resolve reg (DataSubject m) with
  | None => (m, OutcomeUnresolved)
  | Some entityID =>
      let audience := if (audience_len (Audience m) =? 0)%nat then DefaultAudience reg entityID else Audience m in
      (set_data_subject entityID audience m, OutcomeResolved)
  end.

(** ** registry.go of internal/source *)

Record sourcePolicy := mkPolicy {
  sourceID : string;
  kind : string;
  dataSubjectDefault : string;
  audienceDefault : option (list string);
}.
Record SourceRegistry := mkSources {
  s_enforce : bool;
  bySourceID : gmap string sourcePolicy;
}.

Definition Lookup (r : option SourceRegistry) (id : string) : option sourcePolicy :=
  match r with Some reg => bySourceID reg !! id | None => None end.

Section load_sources.
Context (Quote : string → string).

Fixpoint load_sources (i : Z) (sources : list sourcePolicy) (m : gmap string sourcePolicy)
    : res string (gmap string sourcePolicy) :=
  match sources with
  | [] => Ok m
  | ws :: rest =>
      if String.eqb (sourceID ws) "" then Err ("source registry: entry " ++ itoa i ++ ": source_id must not be empty")
      else match m !! sourceID ws with
      | Some _ => Err ("source registry: duplicate source_id " ++ Quote (sourceID ws))
      | None =>
          match ValidateAudience Quote (audienceDefault ws) (negb (String.eqb (dataSubjectDefault ws) "")) with
          | Err e => Err ("source registry: source_id " ++ Quote (sourceID ws) ++ ": audience_default: " ++ e)
          | Ok _ => load_sources (i + 1) rest (<[sourceID ws := ws]> m)
          end
      end
  end.

Definition LoadSources (enforced : bool) (sources : list sourcePolicy) : res string SourceRegistry :=
  match load_sources 0 sources ∅ with
  | Err e => Err e
  | Ok m => Ok (mkSources enforced m)
  end.
End load_sources.

(** * What a loaded registry satisfies, and what resolution makes of an
    item. *)

(** The maps of a registry are exactly its file's entries, by id and by
    principal, and no principal is an id. *)
Record registry_ok (subjects : list subjectEntry) (reg : SubjectRegistry) : Prop := {
  reg_entities : ∀ id e, entities reg !! id = Some e ↔ e ∈ subjects ∧ EntityID e = id;
  reg_princ : ∀ p e, byPrinc reg !! p = Some e ↔ e ∈ subjects ∧ p ∈ Principals e;
  reg_disjoint : ∀ p e, byPrinc reg !! p = Some e → entities reg !! p = None;
  reg_named : ∀ e, e ∈ subjects → EntityID e ≠ "";
  reg_audience : ∀ e toks, e ∈ subjects → EDefaultAudience e = Some toks → good_audience true toks;
}.

Section facts.
Context (Quote : string → string).

Lemma add_principals_spec e ps m m' :
  add_principals Quote e ps m = Ok m' →
  (∀ p, p ∈ ps → m !! p = None) ∧
  ∀ p x, m' !! p = Some x ↔ m !! p = Some x ∨ (p ∈ ps ∧ x = e).
Proof.
  revert m. induction ps as [|p ps IH]; intros m; cbn [add_principals].
  { intros [= <-]. split; [set_solver|]. intros p x. set_solver. }
  destruct (m !! p) eqn:Hp; [done|]. intros [H1 H2]%IH. split.
  - intros q [->|Hq]%elem_of_cons; [done|]. specialize (H1 q Hq).
    by apply lookup_insert_None in H1 as [? _].
  - intros q x. rewrite H2, elem_of_cons, lookup_insert_Some. split.
    + intros [[[<- <-]|[? ?]]|[? ->]]; [right; by split; [left|]|by left|right; by split; [right|]].
    + intros [Hq|[[->|Hq] ->]].
      * left. right. split; [|done]. intros ->. by rewrite Hq in Hp.
      * left. by left.
      * by right.
Qed.

(** The invariant of the first pass, over the entries already read. *)
Record loading (done : list subjectEntry) (ents princ : gmap string subjectEntry) : Prop := {
  l_ents : ∀ id e, ents !! id = Some e ↔ e ∈ done ∧ EntityID e = id;
  l_princ : ∀ p e, princ !! p = Some e ↔ e ∈ done ∧ p ∈ Principals e;
  l_named : ∀ e, e ∈ done → EntityID e ≠ "";
  l_audience : ∀ e toks, e ∈ done → EDefaultAudience e = Some toks → good_audience true toks;
}.

Lemma load_entries_spec subjects : ∀ i read ents princ ents' princ',
  loading read ents princ →
  load_entries Quote i subjects ents princ = Ok (ents', princ') →
  loading (read ++ subjects)%list ents' princ'.
Proof.
  induction subjects as [|ws rest IH]; intros i read ents princ ents' princ' Hl; cbn [load_entries].
  { intros [= <- <-]. by rewrite app_nil_r. }
  destruct (String.eqb_spec (EntityID ws) "") as [|Hne]; [done|].
  destruct (ents !! EntityID ws) eqn:He; [done|].
  destruct (ValidateAudience Quote _ true) as [u|] eqn:Ha; [|done].
  destruct (add_principals Quote ws (Principals ws) princ) as [princ2|] eqn:Hp; [|done].
  apply add_principals_spec in Hp as [Hp1 Hp2]. destruct Hl as [H1 H2 H3 H4].
  replace (read ++ ws :: rest)%list with ((read ++ [ws]) ++ rest)%list by (by rewrite <- app_assoc).
  apply IH. split.
  - intros id e. rewrite lookup_insert_Some, H1, elem_of_app, list_elem_of_singleton. split.
    + intros [[<- <-]|[Hid [Hin <-]]]; [by split; [right|]|by split; [left|]].
    + intros [[Hin| ->] <-]; [right; split; [|done]|by left].
      intros Heq. assert (Hs : ents !! EntityID ws = Some e) by (apply H1; by split). by rewrite He in Hs.
  - intros p e. rewrite Hp2, H2, elem_of_app, list_elem_of_singleton. naive_solver.
  - intros e [Hin| ->%list_elem_of_singleton]%elem_of_app; [by apply H3|done].
  - intros e toks [Hin| ->%list_elem_of_singleton]%elem_of_app Htoks; [by eapply H4|].
    by apply (proj1 (ValidateAudience_ok Quote (EDefaultAudience ws) true)); [rewrite Ha|].
Qed.

Lemma Load_ok wire reg : Load Quote wire = Ok reg → registry_ok (WSubjects wire) reg.
Proof.
  unfold Load. destruct (load_entries _ _ _ _ _) as [[ents princ]|] eqn:Hl; [|done].
  destruct (clash ents (WSubjects wire)) as [|] eqn:Hc; [done|]. intros [= <-].
  apply (load_entries_spec _ _ []) in Hl as [H1 H2 H3 H4].
  2: { split; [intros ? ?; rewrite lookup_empty; set_solver..|set_solver|set_solver]. }
  cbn [app] in *. split; cbn [entities byPrinc]; try done. intros p e [Hin Hp]%H2.
  destruct (ents !! p) eqn:He; [exfalso|done]. unfold clash in Hc.
  assert (Hf : p ∈ filter (λ p, is_Some (ents !! p)) (WSubjects wire ≫= Principals)).
  { apply list_elem_of_filter. split; [by eexists|]. apply list_elem_of_bind. by exists e. }
  destruct (filter _ _); [by apply elem_of_nil in Hf|discriminate Hc].
Qed.

Lemma Resolve_fixed subjects reg s id :
  registry_ok subjects reg → Resolve (Some reg) s = Some id →
  (∃ e, entities reg !! id = Some e) ∧ Resolve (Some reg) id = Some id.
Proof.
  intros [H1 H2 H3 _ _] Hr. assert (He : ∃ e, e ∈ subjects ∧ EntityID e = id).
  { cbn [Resolve] in Hr. destruct (byPrinc reg !! s) as [e|] eqn:Hb.
    - injection Hr as <-. exists e. by apply H2 in Hb as [? _].
    - destruct (entities reg !! s) as [e|] eqn:He; [|done]. injection Hr as <-.
      exists e. by apply H1 in He as [? _]. }
  destruct He as (e & Hin & Hid). assert (Hent : entities reg !! id = Some e) by (by apply H1).
  split; [by exists e|]. cbn [Resolve]. destruct (byPrinc reg !! id) as [e'|] eqn:Hb.
  - by rewrite (H3 _ _ Hb) in Hent.
  - by rewrite Hent, Hid.
Qed.

Lemma set_twice s a s' a' m : set_data_subject s a (set_data_subject s' a' m) = set_data_subject s a m.
Proof. done. Qed.

(** Resolution is canonical.  With a registry that was loaded, an item
    whose subject is known is rewritten to a registered entity id and to an
    audience that obeys the rules for an item with a subject; an audience
    the item declared is kept, and no other field changes.  Resolving the
    result again changes nothing. *)
Theorem resolution_is_canonical wire reg allowlist m m' :
  Load Quote wire = Ok reg → acceptable allowlist m →
  ResolveItem m (Some reg) = (m', OutcomeResolved) →
  (∃ e, e ∈ WSubjects wire ∧ EntityID e = DataSubject m' ∧ (EntityID e = DataSubject m ∨ DataSubject m ∈ Principals e)
        ∧ Audience m' = match Audience m with Some a => Some a | None => EDefaultAudience e end) ∧
  m' = set_data_subject (DataSubject m') (Audience m') m ∧
  (∀ toks, Audience m' = Some toks → good_audience true toks) ∧
  ResolveItem m' (Some reg) = (m', OutcomeResolved).
Proof.
  intros Hreg%Load_ok Hacc Hr. unfold ResolveItem in Hr. cbn zeta in Hr.
  destruct (String.eqb_spec (DataSubject m) "") as [|Hne]; [done|].
  destruct (Resolve (Some reg) (DataSubject m)) as [id|] eqn:Hres; [|done].
  apply (f_equal fst) in Hr. cbn [fst] in Hr. subst m'.
  destruct (Resolve_fixed _ _ _ _ Hreg Hres) as [[e He] Hid]. destruct Hreg as [H1 H2 _ H4 H5].
  destruct (proj1 (H1 _ _) He) as [Hin Heid].
  assert (Hda : DefaultAudience (Some reg) id = EDefaultAudience e) by (cbn [DefaultAudience]; by rewrite He).
  assert (Hnil : Audience m ≠ Some []).
  { intros Ea. destruct (aud_size _ _ (acc_audience _ _ Hacc _ Ea)) as [Hsz _]. cbn in Hsz. lia. }
  assert (Haud : (if (audience_len (Audience m) =? 0)%nat then DefaultAudience (Some reg) id else Audience m)
                 = match Audience m with Some a => Some a | None => EDefaultAudience e end).
  { destruct (Audience m) as [[|t a]|]; cbn [audience_len]; [done..|by rewrite Hda]. }
  rewrite Haud. cbn [DataSubject Audience set_data_subject]. split_and!; [|done|..].
  - exists e. split_and!; [done..| |done]. cbn [Resolve] in Hres.
    destruct (byPrinc reg !! DataSubject m) as [e'|] eqn:Hb.
    + right. injection Hres as Hres. apply H2 in Hb as [Hin' Hp].
      assert (He' : entities reg !! id = Some e') by (by apply H1). rewrite He in He'. by injection He' as ->.
    + left. destruct (entities reg !! DataSubject m) as [e'|] eqn:He'; [|done]. injection Hres as Hres.
      destruct (proj1 (H1 _ _) He') as [_ Heq]. by rewrite Heid, <- Hres, Heq.
  - intros toks Ht. destruct (Audience m) as [a|] eqn:Ea; [injection Ht as ->|by eapply H5].
    pose proof (acc_audience _ _ Hacc _ Ea) as Hg. by rewrite (proj2 (String.eqb_neq _ _) Hne) in Hg.
  - unfold ResolveItem. cbn [DataSubject Audience set_data_subject].
    rewrite (proj2 (String.eqb_neq id "")) by (rewrite <- Heid; by apply H4). rewrite Hid, Hda.
    rewrite set_twice. do 2 f_equal. destruct (Audience m) as [[|t a]|]; [done..|by destruct (EDefaultAudience e) as [[|]|]].
Qed.
End facts.

(** ** Sources *)

(** Every policy a source can be looked up with is one of the file's, is
    filed under its own non-empty id, and has a default audience that is
    good for what its items will carry: a subject-relative default stands
    only next to a default subject. *)
Theorem source_policies_well_formed Quote enforced sources reg id p :
  LoadSources Quote enforced sources = Ok reg → Lookup (Some reg) id = Some p →
  p ∈ sources ∧ sourceID p = id ∧ id ≠ "" ∧
  ∀ toks, audienceDefault p = Some toks → good_audience (negb (String.eqb (dataSubjectDefault p) "")) toks.
Proof.
  unfold LoadSources. destruct (load_sources Quote 0 sources ∅) as [m|] eqn:Hl; [|done].
  intros [= <-]. cbn [Lookup bySourceID].
  set (good := λ p id, p ∈ sources ∧ sourceID p = id ∧ id ≠ "" ∧
    ∀ toks, audienceDefault p = Some toks → good_audience (negb (String.eqb (dataSubjectDefault p) "")) toks).
  assert (Hgen : ∀ rest i m0 m1, load_sources Quote i rest m0 = Ok m1 → (∀ ws, ws ∈ rest → ws ∈ sources) →
    map_Forall (λ id p, good p id) m0 → map_Forall (λ id p, good p id) m1).
  { clear. intros rest. induction rest as [|ws rest IH]; intros i m0 m1; cbn [load_sources]; [by intros [= <-]|].
    destruct (String.eqb_spec (sourceID ws) "") as [|Hne]; [done|]. destruct (m0 !! sourceID ws); [done|].
    destruct (ValidateAudience _ _ _) eqn:Ha; [|done]. intros Hl Hin Hm. eapply IH; [exact Hl|set_solver|].
    apply map_Forall_insert_2; [|done]. split_and!; [apply Hin; by left|done|done|].
    by apply (proj1 (ValidateAudience_ok Quote (audienceDefault ws) _)); [rewrite Ha]. }
  intros Hp. exact (Hgen sources 0%Z ∅ m Hl (λ _ H, H) (map_Forall_empty _) id p Hp).
Qed.

(** ** Witnesses *)

Definition ann : subjectEntry := mkEntry "e-17" "Ann" ["ann@example.org"; "ann.s"] (Some ["subject"; "guardians"]).
Definition ben : subjectEntry := mkEntry "e-18" "Ben" ["ben@example.org"] None.
Definition family : wireRegistry := mkWire true [ann; ben].
Definition ann_item : ItemMetadata :=
  mkMetadata "schoology" "school" "Grades" 1 "messaging" "text/plain" true false None ∅ "ann.s" None "" [].
Definition family_registry : SubjectRegistry :=
  match Load id family with Ok reg => reg | Err _ => no_registry end.

Lemma ann_acceptable : acceptable ["messaging"] ann_item.
Proof. apply (Validate_nil id). by vm_compute. Qed.

Lemma resolution_is_canonical_witness :
  let m' := set_data_subject "e-17" (Some ["subject"; "guardians"]) ann_item in
  ResolveItem m' (Some family_registry) = (m', OutcomeResolved).
Proof.
  intros m'. apply (resolution_is_canonical id family family_registry ["messaging"] ann_item m').
  - by vm_compute.
  - exact ann_acceptable.
  - by vm_compute.
Defined.

Definition scanner_policy : sourcePolicy := mkPolicy "recognizer" "recognizer-scanner" "" (Some ["operator"]).

Lemma source_policies_well_formed_witness : good_audience false ["operator"].
Proof.
  destruct (source_policies_well_formed id true [scanner_policy] (mkSources true {["recognizer" := scanner_policy]})
    "recognizer" scanner_policy) as (_ & _ & _ & H).
  - by vm_compute.
  - by vm_compute.
  - by apply H.
Defined.
