(* ===== verification/DRoute.v ===== *)
(** internal/routing, internal/audit and deliverResult of main.go: what
    becomes of an item once it was scanned.

    Each function is a program over the file system, the audit files and the
    clock (Effects.v), which any environment may answer.  JSON encoding and
    SHA-256 are parameters; an error is the text of the step that failed,
    without its cause; metrics and log lines are dropped. *)
From S2P Require Import Prelude GoStrings GoTime GoFloat GoPath Utf8 Effects EScore ESign DSanitize DStaging DSubject.
Local Open Scope string_scope.
Local Open Scope prog_scope.

(** ** The calls *)

Inductive AuditFile := PassFile | RejectFile.

Inductive fsop :=
| MkdirAll (p : string)
| ReadFile (p : string)
| WriteFile (p : string) (data : bytes)
| Rename (p q : string)
| ReadDir (p : string)
| RemoveAll (p : string)
| RemoveFile (p : string)
| Stat (p : string)
| EvalLinks (p : string)
| Getwd
| CreateExcl (p : string)
| FileWrite (p : string) (data : bytes)
| FileSync (p : string)
| FileClose (p : string)
| AppendLog (f : AuditFile) (data : bytes)
| Clock.

(** Whether the call succeeded, and what it gave. *)
Definition fsans (o : fsop) : Type :=
  match o with
  | ReadFile _ => option bytes
  | ReadDir _ => option (list string)
  | EvalLinks _ | Getwd => option string
  | RemoveAll _ | RemoveFile _ => ()
  | Clock => Z
  | _ => bool
  end.

#[export] Instance fs_sig : Sig := {| op := fsop; ans := fsans |}.

(** A call with the type of its answer. *)
Definition do_ (o : fsop) : prog (fsans o) := call (Σ := fs_sig) o.

(** An error, or none. *)
Definition error := option string.

(** ** Records that are written *)

Definition verdict_text (v : Verdict) : string :=
  match v with VerdictPass => "pass" | VerdictQuarantine => "quarantine" | VerdictReject => "reject" end.

Record AuditEntry := mkAudit {
  ATimestamp : string;
  ASource : string;
  ASender : string;
  AContentHash : string;
  AContentLength : Z;
  ASignals : list Signal;
  ATotalScore : spec_float;
  AVerdict : string;
  ADestination : string;
  AScanDurationMs : Z;
  AIdentity : option ItemIdentity;
  ATags : gmap string string;
  ADataSubject : string;
  AAudience : option (list string);
}.

Record QuarantineMetadata := mkQuarantine {
  QSource : string; QSender : string; QSubject : string; QTimestamp : Z; QDestinationAgent : string;
  QContentType : string; QContentHash : string; QSignals : list Signal; QTotalScore : spec_float;
  QThreshold : spec_float; QScanDurationMs : Z; QReason : string;
}.

Record QuarantineNotification := mkNotification {
  QuarantineID : string; NSource : bytes; NSender : bytes; NSubject : bytes; NTimestamp : Z;
  NContentLength : Z; NSignals : list string; NTotalScore : spec_float; QuarantinedAt : string;
}.

Record PendingInfo := mkPending {
  PStatus : string; PSource : string; PSender : string; PSubject : string; PTimestamp : Z; PReceivedAt : string;
}.

(** json.Marshal, which may fail (for a number that is not finite), and
    SHA-256, whose sums are bytes.  The texts of the items' own timestamps are part
    of the encoding. *)
Class JsonLib := {
  MarshalMetadata : ItemMetadata → option bytes;
  MarshalPass : AuditEntry → option bytes;
  MarshalReject : AuditEntry → string → option bytes;
  MarshalQuarantine : QuarantineMetadata → option bytes;
  MarshalNotification : QuarantineNotification → option bytes;
  MarshalPending : PendingInfo → option bytes;
  Sum256 : bytes → bytes;
  Sum256_bytes data : Forall is_byte (Sum256 data);
}.

(** hash.go *)
Definition contentHash {lib : JsonLib} (data : bytes) : string := string_of_bytes (hex_encode (Sum256 data)).

(** Duration.Milliseconds *)
Definition Milliseconds (d : Z) : Z := Z.quot d 1000000.

(** Format("20060102-150405") in UTC *)
Definition stamp (t : Z) : string :=
  let '(y, m, d) := civil (local_day UTC t) in
  let '(h, mi, s) := clock UTC t in
  format_year y ++ fmt_02d m ++ fmt_02d d ++ "-" ++ fmt_02d h ++ fmt_02d mi ++ fmt_02d s.

(** ** pending.go *)

Definition pendingSuffix : string := ".pending.json".
Definition PendingFilename (itemID : string) : string := itemID ++ pendingSuffix.

Definition RemovePending (itemID agentInboxDir : string) : prog () :=
  do_ (RemoveFile (Join [agentInboxDir; PendingFilename itemID])).

Definition has_suffix (suffix s : string) : bool :=
  String.eqb (String.substring (String.length s - String.length suffix) (String.length suffix) s) suffix.

(** The entries of one inbox. *)
Fixpoint clean_entries (inboxDir : string) (names : list string) : prog () :=
  match names with
  | [] => Ret ()
  | n :: rest =>
      if has_suffix pendingSuffix n
      then let! _ := do_ (RemoveFile (Join [inboxDir; n])) in clean_entries inboxDir rest
      else clean_entries inboxDir rest
  end.

Fixpoint CleanStalePending (agentsDir : string) (agentNames : list string) : prog () :=
  match agentNames with
  | [] => Ret ()
  | agent :: rest =>
      let inboxDir := Join [agentsDir; agent; "workspace"; "inbox"] in
      let! entries := do_ (ReadDir inboxDir) in
      let! _ := match entries with
                | None => Ret ()
                | Some names => clean_entries inboxDir names
                end in
      CleanStalePending agentsDir rest
  end.

Section routing.
Context {json_lib : JsonLib}.

Definition WritePending (item : StagingItem) (agentInboxDir : string) : prog error :=
  if negb (Ordered (Metadata item)) then Ret None
  else
    let! now := do_ Clock in
    let m := Metadata item in
    let info := mkPending "scanning" (MSource m) (MSender m) (MSubject m) (MTimestamp m) (format_rfc3339 now) in
    match MarshalPending info with
    | None => Ret (Some "marshal pending info")
    | Some data =>
        let path := Join [agentInboxDir; PendingFilename (Base (DirPath item))] in
        let! ok := do_ (MkdirAll agentInboxDir) in
        if negb ok then Ret (Some "create inbox dir")
        else
          let! ok := do_ (WriteFile path data) in
          Ret (if ok then None else Some "write pending")
    end.

(** ** audit/logger.go

    The logger's state is its degraded flag, read and set in turn. *)

Definition appendJSONL (f : AuditFile) (entry : option bytes) (degraded : bool) : prog (error * bool) :=
  match entry with
  | None => Ret (Some "marshal audit entry", true)
  | Some data =>
      let! ok := do_ (AppendLog f (data ++ [10%Z])%list) in
      Ret (if ok then (None, false) else (Some "write audit log", true))
  end.

Definition LogPass (e : AuditEntry) (degraded : bool) : prog (error * bool) :=
  appendJSONL PassFile (MarshalPass e) degraded.
Definition LogReject (e : AuditEntry) (reason : string) (degraded : bool) : prog (error * bool) :=
  appendJSONL RejectFile (MarshalReject e reason) degraded.

(** ** pass.go *)

Definition RoutePass (item : StagingItem) (scanResult : ScanResult) (destDir : string) (degraded : bool)
    (scanDuration : Z) : prog (error * bool) :=
  let m := Metadata item in
  let deliveryDir := Join [destDir; Base (DirPath item)] in
  let! ok := do_ (MkdirAll deliveryDir) in
  if negb ok then Ret (Some "create delivery dir", degraded)
  else
    let! content := do_ (ReadFile (ContentPath item)) in
    match content with
    | None => Ret (Some "read content", degraded)
    | Some content =>
        let! ok := do_ (WriteFile (Join [deliveryDir; "content.raw"]) content) in
        if negb ok then Ret (Some "write content to inbox", degraded)
        else
          let! metaData := do_ (ReadFile (Join [DirPath item; "metadata.json"])) in
          match metaData with
          | None => Ret (Some "read metadata", degraded)
          | Some metaData =>
              let! ok := do_ (WriteFile (Join [deliveryDir; "metadata.json"]) metaData) in
              if negb ok then Ret (Some "write metadata to inbox", degraded)
              else
                let! now := do_ Clock in
                let! logged := LogPass
                  (mkAudit (format_rfc3339 now) (MSource m) (MSender m) (contentHash content)
                     (Z.of_nat (length content)) (Signals scanResult) (TotalScore scanResult)
                     (verdict_text (RVerdict scanResult)) (DestinationAgent m) (Milliseconds scanDuration) None ∅
                     (DataSubject m) (Audience m)) degraded in
                let '(err, degraded) := logged in
                match err with
                | Some _ => Ret (Some "audit log", degraded)
                | None => let! _ := do_ (RemoveAll (DirPath item)) in Ret (None, degraded)
                end
          end
    end.

(** ** notify.go *)

Definition WriteQuarantineNotification (quarantineID : string) (item : StagingItem) (scanResult : ScanResult)
    (contentLength : Z) (notifyDir : string) : prog error :=
  let m := Metadata item in
  let! ok := do_ (MkdirAll notifyDir) in
  if negb ok then Ret (Some "create notification dir")
  else
    let! now := do_ Clock in
    let notification := mkNotification quarantineID
      (SanitizeField (bytes_of_string (MSource m))) (SanitizeField (bytes_of_string (MSender m)))
      (SanitizeField (bytes_of_string (MSubject m))) (MTimestamp m) contentLength
      (SName <$> Signals scanResult) (TotalScore scanResult) (format_rfc3339 now) in
    match MarshalNotification notification with
    | None => Ret (Some "marshal notification")
    | Some data =>
        let! ok := do_ (WriteFile (Join [notifyDir; quarantineID ++ ".json"]) data) in
        Ret (if ok then None else Some "write")
    end.

(** ** quarantine.go *)

Definition ShouldForceQuarantineFromTag (m : ItemMetadata) : bool :=
  match Tags m !! "parse_status" with
  | Some status => String.eqb status "degraded" || String.eqb status "failure_receipt"
  | None => false
  end.

Definition RouteQuarantine (item : StagingItem) (scanResult : ScanResult) (quarantineDir notifyDir : string)
    (degraded : bool) (threshold : spec_float) (scanDuration : Z) (reason : string) : prog (error * bool) :=
  let m := Metadata item in
  let! content := do_ (ReadFile (ContentPath item)) in
  match content with
  | None => Ret (Some "read content", degraded)
  | Some content =>
      let hash := contentHash content in
      let! now := do_ Clock in
      let qID := stamp now ++ "-" ++ String.substring 0 12 hash in
      let qDir := Join [quarantineDir; qID] in
      let! ok := do_ (MkdirAll qDir) in
      if negb ok then Ret (Some "create quarantine dir", degraded)
      else
        let! ok := do_ (WriteFile (Join [qDir; "content.sanitized"]) (SanitizeContent content)) in
        if negb ok then Ret (Some "write sanitized content", degraded)
        else
          let qMeta := mkQuarantine (MSource m) (MSender m) (MSubject m) (MTimestamp m) (DestinationAgent m)
            (ContentType m) hash (Signals scanResult) (TotalScore scanResult) threshold
            (Milliseconds scanDuration) reason in
          match MarshalQuarantine qMeta with
          | None => Ret (Some "marshal quarantine metadata", degraded)
          | Some metaData =>
              let! ok := do_ (WriteFile (Join [qDir; "metadata.json"]) metaData) in
              if negb ok then Ret (Some "write quarantine metadata", degraded)
              else
                let! err := WriteQuarantineNotification qID item scanResult (Z.of_nat (length content)) notifyDir in
                match err with
                | Some _ => Ret (Some "write notification", degraded)
                | None =>
                    let! logged := LogReject
                      (mkAudit (format_rfc3339 now) (MSource m) (MSender m) hash (Z.of_nat (length content))
                         (Signals scanResult) (TotalScore scanResult) (verdict_text VerdictQuarantine)
                         (DestinationAgent m) (Milliseconds scanDuration) None ∅ (DataSubject m) (Audience m))
                      reason degraded in
                    let '(err, degraded) := logged in
                    match err with
                    | Some _ => Ret (Some "audit log", degraded)
                    | None => let! _ := do_ (RemoveAll (DirPath item)) in Ret (None, degraded)
                    end
                end
          end
  end.

(** ** reject.go *)

Definition RouteReject (itemPath reason : string) (metadata : option ItemMetadata) (degraded : bool)
    : prog (error * bool) :=
  let text (f : ItemMetadata → string) := match metadata with Some m => f m | None => "unknown" end in
  let! now := do_ Clock in
  let! logged := LogReject
    (mkAudit (format_rfc3339 now) (text MSource) (text MSender) "" 0 [] fzero (verdict_text VerdictReject)
       (text DestinationAgent) 0 None ∅ (match metadata with Some m => DataSubject m | None => "" end)
       (match metadata with Some m => Audience m | None => None end)) reason degraded in
  let '(err, degraded) := logged in
  match err with
  | Some _ => Ret (Some "audit log", degraded)
  | None => let! _ := do_ (RemoveAll itemPath) in Ret (None, degraded)
  end.

(** ** failed.go *)

Fixpoint copy_entries (src dst : string) (names : list string) : prog error :=
  match names with
  | [] => Ret None
  | n :: rest =>
      let! data := do_ (ReadFile (Join [src; n])) in
      match data with
      | None => Ret (Some "read")
      | Some data =>
          let! ok := do_ (WriteFile (Join [dst; n]) data) in
          if negb ok then Ret (Some "write") else copy_entries src dst rest
      end
  end.

Definition copyDir (src dst : string) : prog error :=
  let! ok := do_ (MkdirAll dst) in
  if negb ok then Ret (Some "mkdir")
  else
    let! entries := do_ (ReadDir src) in
    match entries with
    | None => Ret (Some "read dir")
    | Some names =>
        let! err := copy_entries src dst names in
        match err with
        | Some e => Ret (Some e)
        | None => let! _ := do_ (RemoveAll src) in Ret None
        end
    end.

Definition RouteToFailed (itemPath failedDir reason : string) : prog error :=
  let! ok := do_ (MkdirAll failedDir) in
  if negb ok then Ret (Some "create failed dir")
  else
    let destPath := Join [failedDir; Base itemPath] in
    let! ok := do_ (Rename itemPath destPath) in
    let! err := (if ok then Ret None else copyDir itemPath destPath) in
    match err with
    | Some e => Ret (Some e)
    | None =>
        let! _ := do_ (WriteFile (Join [destPath; "failed_reason.txt"]) (bytes_of_string reason)) in
        Ret None
    end.

(** ** safety.go

    filepath.Abs, and filepath.EvalSymlinks of a rooted path: what they give
    is clean and rooted, so a slash before it changes nothing. *)

Definition Abs (p : string) : prog (option string) :=
  if is_rooted p then Ret (Some (Clean p))
  else let! wd := do_ Getwd in
       Ret (match wd with Some w => Some (Join ["/" ++ w; p]) | None => None end).

Definition EvalSymlinks (p : string) : prog (option string) :=
  let! r := do_ (EvalLinks p) in
  Ret (match r with Some q => Some (Clean ("/" ++ q)) | None => None end).

(** Abs, and EvalSymlinks when the path exists. *)
Definition resolve (p : string) : prog (option string) :=
  let! a := Abs p in
  match a with
  | None => Ret None
  | Some a =>
      let! there := do_ (Stat a) in
      if there then EvalSymlinks a else Ret (Some a)
  end.

Definition ValidateDestination (agent agentsDir : string) (allowlist : list string) : prog (res string string) :=
  if negb (among agent allowlist) then Ret (Err "unknown_destination: not in allowlist")
  else
    let! resolved := resolve (Join [agentsDir; agent; "workspace"; "inbox"]) in
    match resolved with
    | None => Ret (Err "path_traversal: cannot resolve")
    | Some resolved =>
        let! absAgentsDir := resolve agentsDir in
        match absAgentsDir with
        | None => Ret (Err "path_traversal: cannot resolve agents dir")
        | Some absAgentsDir =>
            if negb (has_prefix (absAgentsDir ++ "/") resolved) && negb (String.eqb resolved absAgentsDir)
            then Ret (Err "path_traversal: resolved path escapes agents dir")
            else Ret (Ok resolved)
        end
    end.

(** ** subject_gate.go *)

Inductive GateAction := GatePass | GateQuarantine | GatePassUnresolved.
#[export] Instance GateAction_eq_dec : EqDecision GateAction.
Proof. solve_decision. Defined.

Definition persistMetadata (item : StagingItem) : prog error :=
  match MarshalMetadata (Metadata item) with
  | None => Ret (Some "marshal metadata")
  | Some data =>
      let path := Join [DirPath item; "metadata.json"] in
      let tmpPath := path ++ ".tmp" in
      let! ok := do_ (CreateExcl tmpPath) in
      if negb ok then Ret (Some "create temp metadata")
      else
        let! ok := do_ (FileWrite tmpPath data) in
        if negb ok then
          let! _ := do_ (FileClose tmpPath) in let! _ := do_ (RemoveFile tmpPath) in Ret (Some "write temp metadata")
        else
          let! ok := do_ (FileSync tmpPath) in
          if negb ok then
            let! _ := do_ (FileClose tmpPath) in let! _ := do_ (RemoveFile tmpPath) in Ret (Some "sync temp metadata")
          else
            let! ok := do_ (FileClose tmpPath) in
            if negb ok then let! _ := do_ (RemoveFile tmpPath) in Ret (Some "close temp metadata")
            else
              let! ok := do_ (Rename tmpPath path) in
              if negb ok then let! _ := do_ (RemoveFile tmpPath) in Ret (Some "rename temp metadata")
              else Ret None
  end.

(** The item with its metadata rewritten, and the action or an error. *)
Definition SubjectGate (item : StagingItem) (reg : option SubjectRegistry)
    : prog (StagingItem * res string GateAction) :=
  let '(meta, outcome) := ResolveItem (Metadata item) reg in
  let item := mkItem (DirPath item) (ContentPath item) meta in
  match outcome with
  | OutcomeResolved =>
      let! err := persistMetadata item in
      Ret (item, match err with Some _ => Err "persist resolved metadata" | None => Ok GatePass end)
  | OutcomeUnresolved => Ret (item, Ok (if Enforce reg then GateQuarantine else GatePassUnresolved))
  | OutcomeSubjectless => Ret (item, Ok GatePass)
  end.
End routing.
