(* ===== verification/DDeliver.v ===== *)
(** main.go and internal/pipeline/worker.go: an item from staging, through
    its scan, to where it is delivered. *)
From S2P Require Import Prelude GoStrings GoFloat GoPath Utf8 Effects EViews EScore EScan DStaging DSubject DRoute.
Local Open Scope string_scope.
Local Open Scope prog_scope.

(** The part of config.Config that delivery reads. *)
Record Config := mkConfig {
  StagingDir : string;
  QuarantineDir : string;
  FailedDir : string;
  AgentsDir : string;
  SharedDir : string;
  AgentAllowlist : list string;
}.

(** pipeline.ScanResponse *)
Record ScanResponse := mkResponse {
  Item : StagingItem;
  RSignals : list Signal;
  Result : option ScanResult;
  Duration : Z;
  TimedOut : bool;
  RErr : option string;
}.

Definition inbox_of (cfg : Config) (m : ItemMetadata) : string :=
  Join [AgentsDir cfg; DestinationAgent m; "workspace"; "inbox"].

Definition removePendingForItem (item : StagingItem) (cfg : Config) : prog () :=
  if Ordered (Metadata item)
  then RemovePending (Base (DirPath item)) (inbox_of cfg (Metadata item))
  else Ret ().

(** The result of an item that is quarantined whatever its scan said. *)
Definition forced (signals : list Signal) : ScanResult := mkScanResult signals fzero VerdictQuarantine.

Definition with_flag (degraded : bool) (p : prog error) : prog (error * bool) :=
  let! err := p in Ret (err, degraded).

Section deliver.
Context {json_lib : JsonLib}.

Definition deliverResult (resp : ScanResponse) (cfg : Config) (reg : option SubjectRegistry)
    (threshold : spec_float) (degraded : bool) : prog (error * bool) :=
  let notifyDir := Join [SharedDir cfg; "glovebox-notifications"] in
  let item := Item resp in
  let quarantine item result reason :=
    let! _ := removePendingForItem item cfg in
    RouteQuarantine item result (QuarantineDir cfg) notifyDir degraded threshold (Duration resp) reason in
  let to_failed item reason :=
    let! _ := removePendingForItem item cfg in
    with_flag degraded (RouteToFailed (DirPath item) (FailedDir cfg) reason) in
  if TimedOut resp then quarantine item (forced (RSignals resp)) "scan_timeout"
  else match RErr resp with
  | Some _ => to_failed item "scan_error"
  | None =>
      if degraded then quarantine item (forced (RSignals resp)) "audit_failure"
      else if ShouldForceQuarantineFromTag (Metadata item)
      then quarantine item (forced (RSignals resp)) "parse_status_tag"
      else match Result resp with
      | None => quarantine item (forced (RSignals resp)) "missing_scan_result"
      | Some result =>
          let! gated := SubjectGate item reg in
          let '(item, action) := gated in
          match action with
          | Err _ => to_failed item "subject_gate_error"
          | Ok GateQuarantine => quarantine item result "subject_unresolved"
          | Ok _ =>
              match RVerdict result with
              | VerdictQuarantine => quarantine item result "threshold_exceeded"
              | _ =>
                  let! dest := ValidateDestination (DestinationAgent (Metadata item)) (AgentsDir cfg) (AgentAllowlist cfg) in
                  match dest with
                  | Err reason =>
                      let! _ := removePendingForItem item cfg in
                      RouteReject (DirPath item) reason (Some (Metadata item)) degraded
                  | Ok destDir =>
                      let! routed := RoutePass item result destDir degraded (Duration resp) in
                      match routed with
                      | (None, degraded) =>
                          let! _ := removePendingForItem item cfg in Ret (None, degraded)
                      | failed => Ret failed
                      end
                  end
              end
          end
      end
  end.

(** ** worker.go *)

(** WorkerPool.scan: [late] says that the context ended before the scan
    answered, and [elapsed] is what time.Since gave.  A scan that does not
    return is always late. *)
Definition pool_scan (ScanItem : bytes → string → list string → run ScanResult) (item : StagingItem)
    (late : bool) (elapsed : Z) : prog ScanResponse :=
  let! rawContent := do_ (ReadFile (ContentPath item)) in
  let timed_out := mkResponse item [] None elapsed true None in
  if late then Ret timed_out
  else Ret match rawContent with
  | None => mkResponse item [] None elapsed false (Some "read")
  | Some rawContent =>
      let m := Metadata item in
      match ScanItem rawContent (ContentType m) [MSubject m; MSender m; MSource m] with
      | None => timed_out
      | Some (Err e) => mkResponse item [] None elapsed false (Some e)
      | Some (Ok res) => mkResponse item (Signals res) (Some res) elapsed false None
      end
  end.

(** ** The handlers of main.go *)

Section handlers.
Context (Quote : string → string) (ParseMetadata : bytes → res string ItemMetadata).

(** os.Open of metadata.json, with the text of its error dropped. *)
Definition open_metadata (dirPath : string) : prog (res string bytes) :=
  let! data := do_ (ReadFile (Join [dirPath; "metadata.json"])) in
  Ret match data with Some d => Ok d | None => Err "open" end.

Definition read_item (cfg : Config) (dirPath : string) : prog (res string StagingItem) :=
  let! opened := open_metadata dirPath in
  Ret (ReadStagingItem Quote ParseMetadata dirPath opened (AgentAllowlist cfg)).

(** The watcher's handler: the item it hands to the pool, if any. *)
Definition on_staged (cfg : Config) (dirPath : string) (degraded : bool) : prog (option StagingItem * bool) :=
  let! item := read_item cfg dirPath in
  match item with
  | Err e =>
      let! r := RouteReject dirPath (RejectReasonFromError e) None degraded in
      Ret (None, r.2)
  | Ok item =>
      let! _ := (if Ordered (Metadata item)
                 then let! _ := WritePending item (inbox_of cfg (Metadata item)) in Ret ()
                 else Ret ()) in
      Ret (Some item, degraded)
  end.

(** One entry of the periodic rescan of failed/. *)
Definition on_failed (cfg : Config) (name : string) (degraded : bool) : prog (option StagingItem * bool) :=
  let itemDir := Join [FailedDir cfg; name] in
  let! item := read_item cfg itemDir in
  match item with
  | Err e =>
      let! r := RouteReject itemDir (RejectReasonFromError e) None degraded in
      Ret (None, r.2)
  | Ok item => Ret (Some item, degraded)
  end.

(** An item alone in the pipeline: handled, scanned and delivered. *)
Definition process (ScanItem : bytes → string → list string → run ScanResult) (cfg : Config)
    (reg : option SubjectRegistry) (threshold : spec_float) (dirPath : string) (late : bool) (elapsed : Z)
    (degraded : bool) : prog (error * bool) :=
  let! r := on_staged cfg dirPath degraded in
  match r with
  | (None, degraded) => Ret (Some "rejected", degraded)
  | (Some item, degraded) =>
      let! resp := pool_scan ScanItem item late elapsed in
      deliverResult resp cfg reg threshold degraded
  end.
End handlers.
End deliver.
