(* ===== verification/DRouteFacts.v ===== *)
(** What delivery may write and destroy, whatever the file system answers. *)
From S2P Require Import Prelude GoStrings GoTime GoFloat GoPath Utf8 JValue EScore ESign DSanitize DStaging DSubject DRoute DDeliver Effects.
Local Open Scope string_scope.

(** The call [o] was answered with [r]. *)
Definition answered (h : trace fs_sig) (o : fsop) (r : fsans o) : Prop := @Event fs_sig o r ∈ h.

Lemma answered_now h o r : answered (h ++ [@Event fs_sig o r])%list o r.
Proof. apply elem_of_app. right. by apply list_elem_of_singleton. Qed.

Lemma answered_later h l o r : answered h o r → answered (h ++ l)%list o r.
Proof. intros H. apply elem_of_app. by left. Qed.

(** Finds an answer in a history that grew since. *)
Ltac in_history :=
  solve [repeat (first [eassumption | apply answered_now | apply answered_later])].

(** The next call of a program: what is asked of it, then its answer. *)
Tactic Notation "next" ident(r) := cbn [bind during call do_]; split; [|intros r].

Section lawful.
Context {json_lib : JsonLib}.
Context (cfg : Config) (dir content_path : string).

Definition tmp_path : string := Join [dir; "metadata.json"] ++ ".tmp".
Definition failed_path : string := Join [FailedDir cfg; Base dir].
Definition notify_dir : string := Join [SharedDir cfg; "glovebox-notifications"].

(** [root] is what Abs, and EvalSymlinks if the path exists, made of [p]. *)
Definition resolved_as (h : trace fs_sig) (p root : string) : Prop :=
  ∃ a, (if is_rooted p then a = Clean p else ∃ wd, answered h Getwd (Some wd) ∧ a = Join ["/" ++ wd; p]) ∧
       (root = a ∨ ∃ q, answered h (EvalLinks a) (Some q) ∧ root = Clean ("/" ++ q)).

Lemma resolved_later h l p root : resolved_as h p root → resolved_as (h ++ l)%list p root.
Proof.
  intros (a & Ha & Hr). exists a. split.
  - destruct (is_rooted p); [done|]. destruct Ha as (wd & Hw & ->). exists wd. split; [in_history|done].
  - destruct Hr as [->|(q & Hq & ->)]; [by left|]. right. exists q. split; [in_history|done].
Qed.

(** The name of an item in quarantine: the time that the clock gave and the
    start of the hash of the content that was read. *)
Definition quarantine_name (h : trace fs_sig) (id : string) (content : bytes) : Prop :=
  answered h (ReadFile content_path) (Some content) ∧
  ∃ now, answered h Clock now ∧ id = stamp now ++ "-" ++ String.substring 0 12 (contentHash content).

(** A file of a quarantined item: the inert text of the content that was
    read, or its record. *)
Definition quarantine_file (h : trace fs_sig) (p : string) (data : bytes) : Prop :=
  ∃ id content, quarantine_name h id content ∧
    ((p = Join [Join [QuarantineDir cfg; id]; "content.sanitized"] ∧ data = SanitizeContent content) ∨
     (p = Join [Join [QuarantineDir cfg; id]; "metadata.json"] ∧
      ∃ q, MarshalQuarantine q = Some data ∧ QContentHash q = contentHash content)).

(** A notification of it, its fields inert. *)
Definition notification_file (m : ItemMetadata) (h : trace fs_sig) (p : string) (data : bytes) : Prop :=
  ∃ id content n, quarantine_name h id content ∧ p = Join [notify_dir; id ++ ".json"] ∧
    MarshalNotification n = Some data ∧ QuarantineID n = id ∧
    NSource n = SanitizeField (bytes_of_string (MSource m)) ∧
    NSender n = SanitizeField (bytes_of_string (MSender m)) ∧
    NSubject n = SanitizeField (bytes_of_string (MSubject m)).

(** What a failed item is told to have failed for. *)
Definition failure_reasons : list string := ["scan_error"; "subject_gate_error"].

(** A file of the failed item named [n]: the reason of the failure, or a
    copy of the entry [n] of the item, as it was listed and read. *)
Definition failed_entry (h : trace fs_sig) (n : string) (data : bytes) : Prop :=
  (n = "failed_reason.txt" ∧ ∃ reason, reason ∈ failure_reasons ∧ data = bytes_of_string reason) ∨
  (∃ names, answered h (ReadDir dir) (Some names) ∧ n ∈ names ∧ answered h (ReadFile (Join [dir; n])) (Some data)).

(** A file directly in the item's directory under failed/. *)
Definition failed_file (h : trace fs_sig) (p : string) (data : bytes) : Prop :=
  ∃ n, plain_name n = true ∧ p = Join [failed_path; n] ∧ failed_entry h n data.

(** A file in the inbox of the agent, below the agents' directory: the
    content or the metadata as they were read from the item. *)
Definition inbox_file (agent : string) (h : trace fs_sig) (p : string) (data : bytes) : Prop :=
  ∃ root dest, resolved_as h (AgentsDir cfg) root ∧
    resolved_as h (Join [AgentsDir cfg; agent; "workspace"; "inbox"]) dest ∧
    (has_prefix (root ++ "/") dest = true ∨ dest = root) ∧
    ((p = Join [Join [dest; Base dir]; "content.raw"] ∧ answered h (ReadFile content_path) (Some data)) ∨
     (p = Join [Join [dest; Base dir]; "metadata.json"] ∧
      answered h (ReadFile (Join [dir; "metadata.json"])) (Some data))).

(** The item is on record elsewhere: its content and metadata are in the
    inbox of its agent and in the pass log. *)
Definition delivered (m : ItemMetadata) (h : trace fs_sig) : Prop :=
  ∃ dest content meta e line,
    resolved_as h (Join [AgentsDir cfg; DestinationAgent m; "workspace"; "inbox"]) dest ∧
    answered h (ReadFile content_path) (Some content) ∧
    answered h (WriteFile (Join [Join [dest; Base dir]; "content.raw"]) content) true ∧
    answered h (ReadFile (Join [dir; "metadata.json"])) (Some meta) ∧
    answered h (WriteFile (Join [Join [dest; Base dir]; "metadata.json"]) meta) true ∧
    MarshalPass e = Some line ∧ AContentHash e = contentHash content ∧
    answered h (AppendLog PassFile (line ++ [10%Z])%list) true.

(** Its content is in quarantine as inert text, beside a record with the
    item's fields and the hash of the content; a notification was written
    and the quarantine was logged. *)
Definition quarantined (m : ItemMetadata) (h : trace fs_sig) : Prop :=
  ∃ id content q meta n note e reason line,
    quarantine_name h id content ∧
    answered h (WriteFile (Join [Join [QuarantineDir cfg; id]; "content.sanitized"]) (SanitizeContent content)) true ∧
    (MarshalQuarantine q = Some meta ∧ QSource q = MSource m ∧ QSender q = MSender m ∧ QSubject q = MSubject m ∧
     QContentHash q = contentHash content ∧ QReason q = reason) ∧
    answered h (WriteFile (Join [Join [QuarantineDir cfg; id]; "metadata.json"]) meta) true ∧
    (MarshalNotification n = Some note ∧ QuarantineID n = id) ∧
    answered h (WriteFile (Join [notify_dir; id ++ ".json"]) note) true ∧
    (MarshalReject e reason = Some line ∧ AVerdict e = "quarantine" ∧ AContentHash e = contentHash content) ∧
    answered h (AppendLog RejectFile (line ++ [10%Z])%list) true.

(** What ValidateDestination refuses a destination for. *)
Definition reject_reasons : list string :=
  ["unknown_destination: not in allowlist"; "path_traversal: cannot resolve";
   "path_traversal: cannot resolve agents dir"; "path_traversal: resolved path escapes agents dir"].

(** Its rejection is logged, with a reason that is one of the
    destination. *)
Definition rejected (m : ItemMetadata) (h : trace fs_sig) : Prop :=
  ∃ e reason line, reason ∈ reject_reasons ∧
    MarshalReject e reason = Some line ∧ AVerdict e = "reject" ∧ ASource e = MSource m ∧ ASender e = MSender m ∧
    answered h (AppendLog RejectFile (line ++ [10%Z])%list) true.

(** Each of its files is copied under failed/. *)
Definition copied (h : trace fs_sig) : Prop :=
  ∃ names, answered h (ReadDir dir) (Some names) ∧
    ∀ n, n ∈ names → ∃ data, answered h (ReadFile (Join [dir; n])) (Some data) ∧
      answered h (WriteFile (Join [failed_path; n]) data) true.
(** Only an item that nothing but its destination stands against,
    [cleared], may be gone with no more than a line in the reject log. *)
Definition recorded (cleared : Prop) (m : ItemMetadata) (h : trace fs_sig) : Prop :=
  delivered m h ∨ quarantined m h ∨ (cleared ∧ rejected m h) ∨ copied h.

(** What may be called: [inbox] says what may be written to an inbox. *)
Definition lawful (inbox : trace fs_sig → string → bytes → Prop) (cleared : Prop) (m : ItemMetadata)
    (h : trace fs_sig) (o : fsop) : Prop :=
  match o with
  | WriteFile p data =>
      quarantine_file h p data ∨ notification_file m h p data ∨
      (∃ n, p = Join [failed_path; n] ∧ failed_entry h n data) ∨ inbox h p data
  | FileWrite p _ | CreateExcl p => p = tmp_path
  | RemoveAll p => p = dir ∧ recorded cleared m h
  | Rename p q => (p = dir ∧ q = failed_path) ∨ (p = tmp_path ∧ q = Join [dir; "metadata.json"])
  | RemoveFile p => p = Join [inbox_of cfg m; PendingFilename (Base dir)] ∨ p = tmp_path
  | _ => True
  end.

Section routes.
Context (inbox : trace fs_sig → string → bytes → Prop) (cleared : Prop) (m0 : ItemMetadata).
Abbreviation lawful' := (lawful inbox cleared m0).

Lemma appendJSONL_during f e degraded h : during lawful' (appendJSONL f e degraded) h.
Proof. unfold appendJSONL. destruct e as [data|]; [|done]. by next r. Qed.

(** Nothing was logged without an answer saying so. *)
Lemma appendJSONL_post f e degraded h :
  post (appendJSONL f e degraded) h (λ h' r, (∃ l, h' = (h ++ l)%list) ∧
    (r.1 = None → ∃ line, e = Some line ∧ answered h' (AppendLog f (line ++ [10%Z])%list) true)).
Proof.
  unfold appendJSONL. destruct e as [data|]; cbn; [|split; [exists []; by rewrite app_nil_r|done]].
  intros r. split; [by eexists|]. destruct r; [|done]. intros _. eexists. split; [done|apply answered_now].
Qed.

Lemma RemovePending_during h :
  during lawful' (RemovePending (Base dir) (inbox_of cfg m0)) h.
Proof. unfold RemovePending. next r; [by left|done]. Qed.

Lemma removePendingForItem_during item h :
  DirPath item = dir → DestinationAgent (Metadata item) = DestinationAgent m0 →
  during lawful' (removePendingForItem item cfg) h.
Proof.
  intros Hd Ha. unfold removePendingForItem. destruct (Ordered _); [|done]. rewrite Hd.
  unfold inbox_of. rewrite Ha. apply RemovePending_during.
Qed.

(** After removing a placeholder the history has grown. *)
Lemma removePendingForItem_post item h :
  post (removePendingForItem item cfg) h (λ h' _, ∃ l, h' = (h ++ l)%list).
Proof. apply post_extends. Qed.

Lemma RoutePass_during item r dest degraded d h :
  DirPath item = dir → ContentPath item = content_path →
  resolved_as h (Join [AgentsDir cfg; DestinationAgent m0; "workspace"; "inbox"]) dest →
  (∀ l p data, (p = Join [Join [dest; Base dir]; "content.raw"] ∧ answered (h ++ l)%list (ReadFile content_path) (Some data)) ∨
     (p = Join [Join [dest; Base dir]; "metadata.json"] ∧
      answered (h ++ l)%list (ReadFile (Join [dir; "metadata.json"])) (Some data)) → inbox (h ++ l)%list p data) →
  during lawful' (RoutePass item r dest degraded d) h.
Proof.
  intros Hd Hc Hdest Hin. unfold RoutePass. rewrite Hd, Hc.
  next ok; [done|]. destruct ok; cbn [negb]; [|done].
  next content; [done|]. destruct content as [content|]; [|done].
  next ok.
  { right; right; right. rewrite <- app_assoc. apply Hin. left. split; [done|].
    rewrite app_assoc. in_history. }
  destruct ok; cbn [negb]; [|done].
  next meta; [done|]. destruct meta as [meta|]; [|done].
  next ok.
  { right; right; right. rewrite <- !app_assoc. apply Hin. right. split; [done|].
    rewrite !app_assoc. in_history. }
  destruct ok; cbn [negb]; [|done].
  next now; [done|]. apply during_bind; [apply appendJSONL_during|].
  eapply post_mono; [|apply appendJSONL_post]. intros h' [err dg] [[l ->] Hlog]. cbn [fst] in Hlog.
  destruct err as [|]; [done|]. destruct (Hlog eq_refl) as (line & He & Hline).
  next u; [|done]. split; [done|]. left. eexists dest, content, meta, _, line.
  split; [rewrite <- !app_assoc; by apply resolved_later|]. split_and!; [..|exact He| |]; [in_history..|done|in_history].
Qed.

(** It is the name of an entry. *)
Lemma quarantine_name_plain h id content : quarantine_name h id content → plain_name id = true.
Proof.
  intros (_ & now & _ & ->). assert (Hs : no_char slash (stamp now) = true).
  { unfold stamp. destruct (civil _) as [[y m] d], (clock _ _) as [[hh mm] ss].
    by rewrite !no_char_app, year_no_char, !fmt_no_char, dash_no_char by done. }
  assert (Hlen : ∀ s, (2 ≤ String.length (stamp now ++ "-" ++ s))%nat).
  { intros s. unfold stamp. destruct (civil _) as [[y m] d], (clock _ _) as [[hh mm] ss].
    rewrite !string_length_app. cbn [String.length]. lia. }
  apply plain_name_spec. split_and!.
  - intros E. specialize (Hlen (String.substring 0 12 (contentHash content))). rewrite E in Hlen. cbn in Hlen. lia.
  - intros E. specialize (Hlen (String.substring 0 12 (contentHash content))). rewrite E in Hlen. cbn in Hlen. lia.
  - intros E%(f_equal (no_char "-"%char)). rewrite !no_char_app in E. cbn in E. by rewrite andb_false_r in E.
  - rewrite !no_char_app, Hs. cbn [andb]. apply andb_true_iff. split; [done|]. by apply no_char_substring, hex_no_slash, Sum256_bytes.
Qed.

Lemma quarantine_name_later h l id content : quarantine_name h id content → quarantine_name (h ++ l)%list id content.
Proof. intros (Hc & now & Hn & ->). split; [in_history|]. exists now. split; [in_history|done]. Qed.

Lemma notification_during qid content item r n h :
  quarantine_name h qid content →
  (MSource m0 = MSource (Metadata item) ∧ MSender m0 = MSender (Metadata item) ∧ MSubject m0 = MSubject (Metadata item)) →
  during lawful' (WriteQuarantineNotification qid item r n notify_dir) h ∧
  post (WriteQuarantineNotification qid item r n notify_dir) h (λ h' err,
    (∃ l, h' = (h ++ l)%list) ∧ (err = None → ∃ note data, MarshalNotification note = Some data ∧
       QuarantineID note = qid ∧ answered h' (WriteFile (Join [notify_dir; qid ++ ".json"]) data) true)).
Proof.
  intros Hid (E1 & E2 & E3). unfold WriteQuarantineNotification. split.
  - next ok; [done|]. destruct ok; cbn [negb]; [|done]. next now; [done|].
    destruct (MarshalNotification _) as [data|] eqn:Hm; [|done]. next ok; [|done].
    right; left. eexists qid, content, _. split; [by repeat apply quarantine_name_later|].
    split_and!; [done|exact Hm|done|cbn..]; congruence.
  - cbn. intros ok. destruct ok; cbn [negb]; [|split; [by eexists|done]]. cbn. intros now.
    destruct (MarshalNotification _) as [data|] eqn:Hmn; cbn; [|split; [eexists; by rewrite <- app_assoc|done]].
    intros ok. split; [eexists; by rewrite <- !app_assoc|]. destruct ok; [|done]. intros _.
    eexists _, data. split_and!; [exact Hmn|done|apply answered_now].
Qed.

Lemma RouteQuarantine_during item r degraded t d reason h :
  DirPath item = dir → ContentPath item = content_path →
  (MSource m0 = MSource (Metadata item) ∧ MSender m0 = MSender (Metadata item) ∧ MSubject m0 = MSubject (Metadata item)) →
  during lawful' (RouteQuarantine item r (QuarantineDir cfg) notify_dir degraded t d reason) h.
Proof.
  intros Hd Hc Hm. unfold RouteQuarantine. rewrite Hd, Hc.
  next content; [done|]. destruct content as [content|]; [|done]. next now; [done|].
  set (h0 := ((h ++ [_]) ++ [_])%list).
  assert (Hname : quarantine_name h0 (stamp now ++ "-" ++ String.substring 0 12 (contentHash content)) content).
  { split; [in_history|]. exists now. split; [in_history|done]. }
  clearbody h0.
  next ok; [done|]. destruct ok; cbn [negb]; [|done].
  next ok. { left. eexists _, content. split; [by apply quarantine_name_later|]. by left. }
  destruct ok; cbn [negb]; [|done]. destruct (MarshalQuarantine _) as [meta|] eqn:Hq; [|done].
  next ok. { left. eexists _, content. split; [by repeat apply quarantine_name_later|]. right. split; [done|by eexists]. }
  destruct ok; cbn [negb]; [|done].
  match goal with |- during _ (bind (WriteQuarantineNotification ?q ?i ?r ?n ?nd) _) ?h =>
    destruct (notification_during q content i r n h) as [Hn1 Hn2]; [by repeat apply quarantine_name_later|exact Hm|] end.
  apply during_bind; [done|]. eapply post_mono; [|exact Hn2]. intros h' err [[l ->] Hnote].
  destruct err as [|]; [done|]. destruct (Hnote eq_refl) as (note & data & Hmn & Hid & Hp).
  apply during_bind; [apply appendJSONL_during|].
  eapply post_mono; [|apply appendJSONL_post]. intros h' [err dg] [[l' ->] Hlog]. cbn [fst] in Hlog.
  destruct err as [|]; [done|]. destruct (Hlog eq_refl) as (line & He & Hline).
  next u; [|done]. split; [done|]. right; left. destruct Hm as (E1 & E2 & E3).
  eexists _, content, _, meta, note, data, _, reason, line.
  split_and!; [..|exact Hq|cbn|cbn|cbn| | | |exact Hmn|exact Hid| |exact He|done|done|]; 
    first [done|in_history|by repeat apply quarantine_name_later].
Qed.

Lemma RouteReject_during reason m degraded h :
  cleared → reason ∈ reject_reasons → MSource m = MSource m0 → MSender m = MSender m0 →
  during lawful' (RouteReject dir reason (Some m) degraded) h.
Proof.
  intros Hcl Hr Hs1 Hs2. unfold RouteReject. next now; [done|]. apply during_bind; [apply appendJSONL_during|].
  eapply post_mono; [|apply appendJSONL_post]. intros h' [err dg] [[l ->] Hlog]. cbn [fst] in Hlog.
  destruct err as [|]; [done|]. destruct (Hlog eq_refl) as (line & He & Hline).
  next u; [|done]. split; [done|]. right; right; left. split; [done|].
  eexists _, reason, line. split_and!; [done|exact He|done..|in_history].
Qed.

Lemma copy_entries_during all names h :
  answered h (ReadDir dir) (Some all) → names ⊆ all →
  during lawful' (copy_entries dir failed_path names) h ∧
  post (copy_entries dir failed_path names) h (λ h' err, (∃ l, h' = (h ++ l)%list) ∧
    (err = None → ∀ n, n ∈ names → ∃ data, answered h' (ReadFile (Join [dir; n])) (Some data) ∧
      answered h' (WriteFile (Join [failed_path; n]) data) true)).
Proof.
  revert h. induction names as [|n names IH]; intros h Hall Hsub; cbn [copy_entries].
  { split; [done|]. cbn. split; [exists []; by rewrite app_nil_r|]. intros _ n Hn. by apply elem_of_nil in Hn. }
  split.
  - next data; [done|]. destruct data as [data|]; [|done].
    next ok.
    { right; right; left. exists n. split; [done|]. right. exists all. split_and!; [in_history|set_solver|in_history]. }
    destruct ok; cbn [negb]; [|done]. apply IH; [in_history|set_solver].
  - cbn. intros data. destruct data as [data|]; cbn; [|split; [by eexists|done]].
    intros ok. destruct ok; cbn [negb]; [|split; [eexists; by rewrite <- app_assoc|done]].
    eapply post_mono; [|apply IH; [in_history|set_solver]]. intros h' err [[l ->] Hcopied]. split; [eexists; by rewrite <- !app_assoc|].
    intros Hnone n' [->|Hn]%elem_of_cons; [|by apply Hcopied]. exists data. split; in_history.
Qed.

Lemma RouteToFailed_during reason h :
  reason ∈ failure_reasons → during lawful' (RouteToFailed dir (FailedDir cfg) reason) h.
Proof.
  intros Hr. unfold RouteToFailed. next ok; [done|]. destruct ok; cbn [negb]; [|done].
  next ok; [by left|].
  assert (Hrest : ∀ err h', during lawful'
    (match err with
     | Some e => Ret (Some e)
     | None => bind (do_ (WriteFile (Join [failed_path; "failed_reason.txt"]) (bytes_of_string reason))) (λ _, Ret None)
     end : prog error) h').
  { intros [|] h'; [done|]. next r; [|done].
    right; right; left. eexists. split; [done|]. left. split; [done|by exists reason]. }
  apply during_bind; [|eapply post_mono; [|apply post_extends]; intros; apply Hrest].
  destruct ok; [done|]. unfold copyDir. fold failed_path. next ok; [done|]. destruct ok; cbn [negb]; [|done].
  next names; [done|]. destruct names as [names|]; [|done].
  match goal with |- during _ (bind (copy_entries ?s ?d ?n) _) ?h =>
    destruct (copy_entries_during names n h) as [Hn1 Hn2] end; [in_history|done|].
  apply during_bind; [done|]. eapply post_mono; [|exact Hn2]. intros h' err [[l ->] Hall].
  destruct err as [|]; [done|]. next u; [|done]. split; [done|]. right; right; right.
  exists names. split; [in_history|by apply Hall].
Qed.

(** *** The destination *)

Lemma resolve_during p h :
  during lawful' (resolve p) h ∧
  post (resolve p) h (λ h' r, (∃ l, h' = (h ++ l)%list) ∧ ∀ root, r = Some root → resolved_as h' p root).
Proof.
  unfold resolve, Abs, EvalSymlinks, resolved_as. destruct (is_rooted p).
  - split.
    + next there; [done|]. by destruct there.
    + cbn. intros [|]; cbn.
      * intros q. split; [eexists; by rewrite <- app_assoc|]. intros root Hr. exists (Clean p).
        split; [done|]. destruct q as [q|]; [|done]. injection Hr as <-. right. exists q. split; [in_history|done].
      * split; [by eexists|]. intros root [= <-]. exists (Clean p). split; [done|by left].
  - split.
    + next wd; [done|]. destruct wd as [wd|]; [|done]. next there; [done|]. by destruct there.
    + cbn. intros [wd|]; cbn; [|split; [by eexists|done]]. intros [|]; cbn.
      * intros q. split; [eexists; by rewrite <- !app_assoc|]. intros root Hr. eexists.
        split; [exists wd; split; [in_history|done]|]. destruct q as [q|]; [|done]. injection Hr as <-.
        right. exists q. split; [in_history|done].
      * split; [eexists; by rewrite <- app_assoc|]. intros root [= <-]. eexists.
        split; [exists wd; split; [in_history|done]|by left].
Qed.

Lemma ValidateDestination_during agent allowlist h :
  during lawful' (ValidateDestination agent (AgentsDir cfg) allowlist) h ∧
  post (ValidateDestination agent (AgentsDir cfg) allowlist) h (λ h' r, (∃ l, h' = (h ++ l)%list) ∧
    (∀ reason, r = Err reason → reason ∈ reject_reasons) ∧
    ∀ dest, r = Ok dest → agent ∈ allowlist ∧
      ∃ root, resolved_as h' (AgentsDir cfg) root ∧
        resolved_as h' (Join [AgentsDir cfg; agent; "workspace"; "inbox"]) dest ∧
        (has_prefix (root ++ "/") dest = true ∨ dest = root)).
Proof.
  unfold ValidateDestination. destruct (among agent allowlist) eqn:Hal; cbn [negb].
  2: { split; [done|]. cbn. split; [exists []; by rewrite app_nil_r|]. split; [|done]. intros ? [= <-]. set_solver. }
  apply among_spec in Hal. set (inboxp := Join [AgentsDir cfg; agent; "workspace"; "inbox"]).
  destruct (resolve_during inboxp h) as [Hd Hp]. split.
  - apply during_bind; [done|]. eapply post_mono; [|exact Hp]. intros h' [dest|] [[l ->] _]; [|done].
    destruct (resolve_during (AgentsDir cfg) (h ++ l)%list) as [Hd' _].
    apply during_bind; [done|]. eapply post_mono; [|apply post_extends].
    intros h' [root|] _; [|done]. by destruct (_ && _).
  - apply post_bind. eapply post_mono; [|exact Hp]. intros h' [dest|] [[l ->] Hdest]; cbn [post].
    2: { split; [by eexists|]. split; [|done]. intros ? [= <-]. set_solver. }
    destruct (resolve_during (AgentsDir cfg) (h ++ l)%list) as [_ Hp'].
    apply post_bind. eapply post_mono; [|exact Hp']. intros h' [root|] [[l' ->] Hroot]; cbn [post].
    2: { split; [eexists; by rewrite <- app_assoc|]. split; [|done]. intros ? [= <-]. set_solver. }
    destruct (_ && _) eqn:Ht; cbn [post]; (split; [eexists; by rewrite <- app_assoc|]).
    { split; [|done]. intros ? [= <-]. set_solver. }
    split; [done|]. intros d [= <-]. split; [done|]. exists root. split; [by apply Hroot|].
    split; [apply resolved_later; by apply Hdest|].
    apply andb_false_iff in Ht as [Ht%negb_false_iff|Ht%negb_false_iff]; [by left|].
    right. by apply String.eqb_eq.
Qed.

(** *** The subject gate *)

Lemma persistMetadata_during item h :
  DirPath item = dir → during lawful' (persistMetadata item) h.
Proof.
  intros Hd. unfold persistMetadata. rewrite Hd. destruct (MarshalMetadata _) as [data|]; [|done].
  fold tmp_path. next ok; [done|]. destruct ok; cbn [negb]; [|done].
  next ok; [done|]. destruct ok; cbn [negb].
  2: { next u; [done|]. next u'; [by right|done]. }
  next ok; [done|]. destruct ok; cbn [negb].
  2: { next u; [done|]. next u'; [by right|done]. }
  next ok; [done|]. destruct ok; cbn [negb].
  2: { next u; [by right|done]. }
  next ok; [by right|]. destruct ok; cbn [negb]; [done|]. next u; [by right|done].
Qed.

(** What the gate leaves of the item. *)
Definition same_item (i j : StagingItem) : Prop :=
  DirPath j = DirPath i ∧ ContentPath j = ContentPath i ∧
  ∃ s a, Metadata j = Metadata i ∨ Metadata j = set_data_subject s a (Metadata i).

Lemma ResolveItem_same m reg : ∃ s a, (ResolveItem m reg).1 = m ∨ (ResolveItem m reg).1 = set_data_subject s a m.
Proof.
  unfold ResolveItem. destruct (String.eqb _ _); [exists "", None; by left|].
  destruct (Resolve _ _) as [id|]; [|exists "", None; by left]. eexists _, _. by right.
Qed.

Lemma SubjectGate_during item reg h :
  DirPath item = dir →
  during lawful' (SubjectGate item reg) h ∧
  post (SubjectGate item reg) h (λ h' r, (∃ l, h' = (h ++ l)%list) ∧
    same_item item r.1 ∧ Metadata r.1 = (ResolveItem (Metadata item) reg).1 ∧
    ∀ a, r.2 = Ok a → a ≠ GateQuarantine →
      (ResolveItem (Metadata item) reg).2 = OutcomeUnresolved → Enforce reg = false).
Proof.
  intros Hd. unfold SubjectGate. destruct (ResolveItem_same (Metadata item) reg) as (s & a & Hs).
  destruct (ResolveItem (Metadata item) reg) as [m [| |]]; cbn [fst snd] in *.
  - split; [done|]. cbn. split_and!; [exists []; by rewrite app_nil_r|by split_and!; [..|exists s, a]|done|done].
  - set (item' := mkItem _ _ m). split.
    + apply during_bind; [by apply persistMetadata_during|]. by eapply post_mono; [|apply post_extends].
    + apply post_bind. eapply post_mono; [|apply post_extends]. intros h' err [l ->]. cbn.
      split_and!; [by eexists|by split_and!; [..|exists s, a]|done|done].
  - split; [done|]. cbn. split_and!; [exists []; by rewrite app_nil_r|by split_and!; [..|exists s, a]|done|].
    intros a' [= <-] Hne _. by destruct (Enforce reg).
Qed.
End routes.
End lawful.

(** ** Delivery *)

Section delivery.
Context {json_lib : JsonLib}.

(** Nothing but the destination may stand against the item. *)
Record cleared (resp : ScanResponse) (reg : option SubjectRegistry) (degraded : bool) : Prop := {
  cl_time : TimedOut resp = false;
  cl_error : RErr resp = None;
  cl_audit : degraded = false;
  cl_tag : ShouldForceQuarantineFromTag (Metadata (Item resp)) = false;
  cl_verdict : ∃ r, Result resp = Some r ∧ RVerdict r ≠ VerdictQuarantine;
  cl_subject : (ResolveItem (Metadata (Item resp)) reg).2 = OutcomeUnresolved → Enforce reg = false;
}.

(** The conditions under which an item may reach an inbox. *)
Record may_pass (resp : ScanResponse) (cfg : Config) (reg : option SubjectRegistry) (degraded : bool) : Prop := {
  mp_cleared : cleared resp reg degraded;
  mp_agent : DestinationAgent (Metadata (Item resp)) ∈ AgentAllowlist cfg;
}.

(** What a delivery may write to an inbox, and when. *)
Definition inbox_rule (resp : ScanResponse) (cfg : Config) (reg : option SubjectRegistry) (degraded : bool)
    (h : trace fs_sig) (p : string) (data : bytes) : Prop :=
  may_pass resp cfg reg degraded ∧
  inbox_file cfg (DirPath (Item resp)) (ContentPath (Item resp)) (DestinationAgent (Metadata (Item resp))) h p data.

Definition lawful_delivery (resp : ScanResponse) (cfg : Config) (reg : option SubjectRegistry) (degraded : bool) :
    trace fs_sig → fsop → Prop :=
  lawful cfg (DirPath (Item resp)) (ContentPath (Item resp)) (inbox_rule resp cfg reg degraded) (cleared resp reg degraded) (Metadata (Item resp)).

Lemma same_fields i j :
  same_item i j →
  (MSource (Metadata i) = MSource (Metadata j) ∧ MSender (Metadata i) = MSender (Metadata j)
   ∧ MSubject (Metadata i) = MSubject (Metadata j)) ∧
  DestinationAgent (Metadata j) = DestinationAgent (Metadata i).
Proof. intros (_ & _ & s & a & [->| ->]); done. Qed.

Lemma deliverResult_during resp cfg reg t degraded h :
  during (lawful_delivery resp cfg reg degraded) (deliverResult resp cfg reg t degraded) h.
Proof.
  set (item := Item resp).
  assert (Hq : ∀ j r reason h', same_item item j →
    during (lawful_delivery resp cfg reg degraded)
      (bind (removePendingForItem j cfg) (λ _, RouteQuarantine j r (QuarantineDir cfg)
         (Join [SharedDir cfg; "glovebox-notifications"]) degraded t (Duration resp) reason)) h').
  { intros j r reason h' Hj. destruct (same_fields _ _ Hj) as [Hm Ha]. destruct Hj as (Hd & Hc & _).
    apply during_bind; [by apply removePendingForItem_during|].
    eapply post_mono; [|apply post_extends]. intros. by apply RouteQuarantine_during. }
  assert (Hf : ∀ j reason h', same_item item j → reason ∈ failure_reasons →
    during (lawful_delivery resp cfg reg degraded)
      (bind (removePendingForItem j cfg) (λ _, with_flag degraded (RouteToFailed (DirPath j) (FailedDir cfg) reason))) h').
  { intros j reason h' Hj Hr. destruct (same_fields _ _ Hj) as [Hm Ha]. destruct Hj as (Hd & Hc & _).
    apply during_bind; [by apply removePendingForItem_during|].
    eapply post_mono; [|apply post_extends]. intros. unfold with_flag. rewrite Hd.
    apply during_bind; [by apply RouteToFailed_during|]. by eapply post_mono; [|apply post_extends]. }
  assert (Hself : same_item item item) by (split_and!; [done|done|exists "", None; by left]).
  unfold deliverResult. cbn zeta. fold item.
  destruct (TimedOut resp) eqn:E1; [by apply Hq|]. destruct (RErr resp) as [e|] eqn:E2; [by apply Hf; [|set_solver]|].
  destruct degraded eqn:E3; [by apply Hq|]. destruct (ShouldForceQuarantineFromTag _) eqn:E4; [by apply Hq|].
  destruct (Result resp) as [r|] eqn:E5; [|by apply Hq].
  destruct (SubjectGate_during cfg (DirPath item) (ContentPath item) (inbox_rule resp cfg reg false) (cleared resp reg false) (Metadata item)
    item reg h eq_refl) as [Hg1 Hg2].
  apply during_bind; [done|]. eapply post_mono; [|exact Hg2]. clear Hg1 Hg2.
  intros h1 [j act] ((l & ->) & Hj & _ & Hgate). cbn [fst snd] in *.
  destruct (same_fields _ _ Hj) as [Hm Ha]. destruct act as [a|e]; [|by apply Hf; [|set_solver]].
  destruct (decide (a = GateQuarantine)) as [->|Hne]; [by apply Hq|].
  assert (Hpass : RVerdict r ≠ VerdictQuarantine → during (lawful_delivery resp cfg reg false)
    (let! dest := ValidateDestination (DestinationAgent (Metadata j)) (AgentsDir cfg) (AgentAllowlist cfg) in
     match dest with
     | Err reason =>
         let! _ := removePendingForItem j cfg in RouteReject (DirPath j) reason (Some (Metadata j)) false
     | Ok destDir =>
         let! routed := RoutePass j r destDir false (Duration resp) in
         match routed with
         | (None, degraded) => let! _ := removePendingForItem j cfg in Ret (None, degraded)
         | failed => Ret failed
         end
     end)%prog (h ++ l)%list).
  { intros Hv. pose proof Hj as (Hd & Hc & _). destruct Hm as (Hm1 & Hm2 & Hm3).
    assert (Hcl : cleared resp reg false) by (split; try done; [by exists r|by eapply Hgate]).
    destruct (ValidateDestination_during cfg (DirPath item) (ContentPath item) (inbox_rule resp cfg reg false) (cleared resp reg false) (Metadata item)
      (DestinationAgent (Metadata j)) (AgentAllowlist cfg) (h ++ l)%list) as [Hv1 Hv2].
    apply during_bind; [done|]. eapply post_mono; [|exact Hv2]. clear Hv1 Hv2.
    intros h2 [dest|reason] ((l2 & ->) & Hwhy & Hdest).
    - destruct (Hdest dest eq_refl) as (Hal & root & Hroot & Hdst & Hbelow). rewrite Ha in Hal, Hdst.
      apply during_bind.
      + apply RoutePass_during; [done..|]. intros l3 p data Hp. split; [by split|].
        exists root, dest. split_and!; [by apply resolved_later|by apply resolved_later|done|done].
      + eapply post_mono; [|apply post_extends]. intros h3 [[err|] dg] _; [done|].
        apply during_bind; [by apply removePendingForItem_during|]. by eapply post_mono; [|apply post_extends].
    - apply during_bind; [by apply removePendingForItem_during|].
      eapply post_mono; [|apply post_extends]. intros. rewrite Hd. by apply RouteReject_during; [|apply Hwhy|..]. }
  destruct a; [|done|]; destruct (RVerdict r) eqn:Ev; try (by apply Hq); by apply Hpass.
Qed.
End delivery.

(** * The guarantees of a delivery, whatever the file system answers: what may
    reach an inbox, what may be destroyed, and that placeholders go. *)

Section paths.

Lemma Join_first_rooted a p : is_rooted a = true → absolute (Join [a; p]).
Proof.
  intros Ha. unfold Join. assert (Hne : a ≠ "") by (by intros ->).
  rewrite filter_cons_True by done. destruct (decide (p = "")) as [->|Hp].
  - rewrite filter_cons_False by (intros H; by apply H). by apply Clean_absolute.
  - rewrite filter_cons_True by done. apply Clean_absolute. by destruct a.
Qed.

Lemma resolved_absolute h p root : resolved_as h p root → absolute root.
Proof.
  intros (a & Ha & Hr). destruct Hr as [->|(q & _ & ->)]; [|by apply Clean_absolute].
  destruct (is_rooted p) eqn:Hp; [subst; by apply Clean_absolute|].
  destruct Ha as (wd & _ & ->). by apply Join_first_rooted.
Qed.

(** Below a directory, or the directory is the root of the file system. *)
Definition below (root p : string) : Prop := has_prefix (root ++ "/") p = true ∨ root = "/".

Lemma Join_inside root d n :
  absolute d → plain_name n = true → below root d ∨ d = root → below root (Join [d; n]).
Proof.
  intros Hd Hn [[Hb| ->]| ->].
  - left. by apply Join_below.
  - by right.
  - destruct Hd as (es & Hes & ->). destruct es as [|e es]; [by right|left].
    rewrite Join_plain by done. rewrite join_snoc by done. apply has_prefix_split. exists n.
    by rewrite <- !app_str_assoc.
Qed.

Context {json_lib : JsonLib}.

(** An inbox file lies below the agents' directory. *)
Lemma inbox_file_below cfg dir content_path agent h p data :
  inbox_file cfg dir content_path agent h p data → plain_name (Base dir) = true →
  ∃ root, resolved_as h (AgentsDir cfg) root ∧ below root p.
Proof.
  intros (root & dest & Hroot & Hdest & Hb & Hp) Hn. exists root. split; [done|].
  pose proof (resolved_absolute _ _ _ Hdest) as Ha.
  assert (Hin : below root (Join [dest; Base dir])).
  { apply Join_inside; [done..|]. destruct Hb as [Hb|Hb]; [left; by left|by right]. }
  destruct Hp as [[-> _]|[-> _]]; (apply Join_inside; [by apply Join_absolute|done|by left]).
Qed.

(** A listing of a directory names its entries: no separator, not . or .. *)
Definition entry_names (env : environment fs_sig) : Prop :=
  ∀ h d names, env h (ReadDir d) = Some names → Forall (λ n, plain_name n = true) names.

(** Under such listings the copies lie in the directory of the failed
    item. *)
Lemma failed_entry_file cfg dir env h n data :
  entry_names env → (∀ e, e ∈ h → ∃ h', ev_ans e = env h' (ev_op e)) →
  failed_entry dir h n data → failed_file cfg dir h (Join [failed_path cfg dir; n]) data.
Proof.
  intros Henv Hh Hn. exists n. split; [|done]. destruct Hn as [[-> _]|(names & Hl & Hin & _)]; [done|].
  destruct (Hh _ Hl) as [h' He]. cbn in He. symmetry in He. apply Henv in He.
  rewrite Forall_forall in He. by apply He.
Qed.
End paths.

Section guarantees.
Context {json_lib : JsonLib}.
Context (resp : ScanResponse) (cfg : Config) (reg : option SubjectRegistry) (t : spec_float) (degraded : bool).
Abbreviation dir := (DirPath (Item resp)).
Abbreviation meta := (Metadata (Item resp)).

(** The calls of a run of deliverResult, in order, from an empty history. *)
Definition delivery_run (env : environment fs_sig) : trace fs_sig :=
  (Effects.run env [] (deliverResult resp cfg reg t degraded)).1.

Lemma delivery_lawful env l1 e l2 :
  delivery_run env = (l1 ++ e :: l2)%list → lawful_delivery resp cfg reg degraded l1 (ev_op e).
Proof.
  intros Hrun. destruct (during_run _ _ [] env (deliverResult_during resp cfg reg t degraded [])) as (l & Hl & Hall).
  unfold delivery_run in Hrun. rewrite Hl in Hrun. cbn [app] in *. by apply (Hall l1 e l2).
Qed.

(** C17. Nothing reaches an inbox without a pass.  Whatever the file system
    and the audit files answer, as long as the listing of a directory gives
    plain names, and for an item whose directory has a plain name: every
    file a delivery writes is a quarantine file (of which the content is the
    inert text) under the time and the hash of the content, the notification
    of that name with inert fields, a file directly in failed/<item> that is the reason of the failure or the copy of an entry
    of the item that was listed and read, or a file of an inbox; and an
    inbox file is written only for an item that was scanned in time without
    an error, while audit works, that no tag sends to quarantine, whose
    verdict is not quarantine, whose subject is known unless the registry
    does not enforce, and whose destination is in the allowlist. The file
    then holds the item's content or metadata as read from staging, and lies
    below the resolved agents' directory. *)
Theorem inbox_needs_pass env l1 p data r l2 :
  delivery_run env = (l1 ++ @Event fs_sig (WriteFile p data) r :: l2)%list → plain_name (Base dir) = true →
  entry_names env →
  quarantine_file cfg (ContentPath (Item resp)) l1 p data ∨
  notification_file cfg (ContentPath (Item resp)) meta l1 p data ∨
  failed_file cfg dir l1 p data ∨
  (may_pass resp cfg reg degraded ∧
   (answered l1 (ReadFile (ContentPath (Item resp))) (Some data) ∨
    answered l1 (ReadFile (Join [dir; "metadata.json"])) (Some data)) ∧
   ∃ root, resolved_as l1 (AgentsDir cfg) root ∧ below root p).
Proof.
  intros Hrun Hn Henv.
  pose proof (delivery_lawful _ _ _ _ Hrun) as [H|[H|[(n & -> & H)|[Hm Hi]]]]; [by left|by right; left|do 2 right; left|].
  - eapply failed_entry_file; [exact Henv| |exact H]. intros e He.
    apply (run_answers (deliverResult resp cfg reg t degraded) [] env); [by intros ? ?%elem_of_nil|].
    unfold delivery_run in Hrun. rewrite Hrun. apply elem_of_app. by left.
  - do 3 right. split; [done|]. split; [|by eapply inbox_file_below].
    destruct Hi as (_ & _ & _ & _ & _ & [[_ H]|[_ H]]); [by left|by right].
Qed.

(** C18. Nothing is lost.  Whatever fails, a delivery deletes no directory
    but the item's own, and that only after the item is on record: its
    content and metadata, as read, written to the resolved inbox of its
    agent and the pass logged with the content's hash; or its inert text
    written in quarantine, a record with its fields and the content's hash
    beside it, a notification, and the quarantine logged; or each of its
    files copied under failed/; or, only for an item that nothing but its
    destination stands against, the rejection logged with one of the
    reasons for which a destination is refused. It renames the item to
    failed/ or the rewritten metadata into place, and removes no other file
    than the placeholder and the temporary metadata. *)
Theorem nothing_lost env l1 e l2 :
  delivery_run env = (l1 ++ e :: l2)%list →
  match ev_op e with
  | RemoveAll p => p = dir ∧ recorded cfg dir (ContentPath (Item resp)) (cleared resp reg degraded) meta l1
  | Rename p q => (p = dir ∧ q = failed_path cfg dir) ∨ (p = tmp_path dir ∧ q = Join [dir; "metadata.json"])
  | RemoveFile p => p = Join [inbox_of cfg meta; PendingFilename (Base dir)] ∨ p = tmp_path dir
  | _ => True
  end.
Proof. intros Hrun%delivery_lawful. by destruct e as [[]]. Qed.

(** *** Placeholders *)

Definition placeholder : string := Join [inbox_of cfg meta; PendingFilename (Base dir)].

Lemma removed_then {A} (j : StagingItem) (p : prog A) h (Q : trace fs_sig → A → Prop) :
  DirPath j = dir → DestinationAgent (Metadata j) = DestinationAgent meta → Ordered (Metadata j) = true →
  (∀ h' a, answered h' (RemoveFile placeholder) () → Q h' a) →
  post (bind (removePendingForItem j cfg) (λ _, p)) h Q.
Proof.
  intros Hd Ha Ho HQ. unfold removePendingForItem. rewrite Ho, Hd. unfold inbox_of. rewrite Ha.
  unfold RemovePending. cbn. intros []. eapply post_mono; [|apply post_extends].
  intros h' a [l ->]. apply HQ. in_history.
Qed.

Lemma placeholder_post h :
  Ordered meta = true →
  post (deliverResult resp cfg reg t degraded) h (λ h' r, r.1 = None → answered h' (RemoveFile placeholder) ()).
Proof.
  intros Ho. unfold deliverResult. cbn zeta.
  destruct (TimedOut resp); [by apply removed_then|]. destruct (RErr resp); [by apply removed_then|].
  destruct degraded; [by apply removed_then|]. destruct (ShouldForceQuarantineFromTag _); [by apply removed_then|].
  destruct (Result resp) as [r|]; [|by apply removed_then]. apply post_bind.
  eapply post_mono; [|apply (SubjectGate_during cfg dir (ContentPath (Item resp)) (λ _ _ _, True) True meta); done].
  intros h1 [j act] (_ & Hj & _). cbn [fst] in Hj. destruct (same_fields _ _ Hj) as [_ Ha].
  assert (Hoj : Ordered (Metadata j) = true) by (by destruct Hj as (_ & _ & s & a & [-> | ->])).
  destruct Hj as (Hd & _ & _). destruct act as [a|e]; [|by apply removed_then].
  destruct a; [|by apply removed_then|]; (destruct (RVerdict r); [|by apply removed_then|]); apply post_bind;
    (eapply post_mono; [|apply post_extends]); intros h2 [dest|reason] _; try (by apply removed_then);
    apply post_bind; (eapply post_mono; [|apply post_extends]); intros h3 [[err|] dg] _;
    first [done|by apply removed_then].
Qed.

(** A delivery that succeeds leaves no placeholder: when deliverResult
    returns without an error for an ordered item, the item's placeholder was
    removed from the inbox of its destination, whatever became of the
    item. *)
Theorem placeholder_removed env :
  Ordered meta = true →
  (Effects.run env [] (deliverResult resp cfg reg t degraded)).2.1 = None →
  answered (delivery_run env) (RemoveFile placeholder) ().
Proof.
  intros Ho Hr. pose proof (post_run _ [] _ (placeholder_post [] Ho) env) as H.
  unfold delivery_run. destruct (Effects.run env [] _) as [h' r]. by apply H.
Qed.
End guarantees.
