(* ===== verification/DHealthy.v ===== *)
(** Deliveries against a file system on which nothing fails: what becomes of
    an item is decided by its scan, its metadata and the configuration. *)
From S2P Require Import Prelude GoStrings GoFloat GoPath Utf8 EScore DSanitize DStaging DSubject DRoute DDeliver DRouteFacts Effects.
Local Open Scope string_scope.

(** Every call succeeds, every file can be read, and no path is a symbolic
    link. *)
Definition works (o : fsop) : fsans o → Prop :=
  match o with
  | ReadFile _ => λ r, is_Some r
  | ReadDir _ => λ r, is_Some r
  | EvalLinks p => λ r, r = Some p
  | Getwd => λ r, is_Some r
  | RemoveAll _ | RemoveFile _ | Clock => λ _, True
  | _ => λ r, r = true
  end.
Definition healthy (env : environment fs_sig) : Prop := ∀ h o, works o (env h o).

(** Every record can be encoded. *)
Class Encodes (json_lib : JsonLib) : Prop := {
  enc_metadata : ∀ m, is_Some (MarshalMetadata m);
  enc_pass : ∀ e, is_Some (MarshalPass e);
  enc_reject : ∀ e r, is_Some (MarshalReject e r);
  enc_quarantine : ∀ q, is_Some (MarshalQuarantine q);
  enc_notification : ∀ n, is_Some (MarshalNotification n);
}.

(** ** The abstract decision *)

Inductive Disposition :=
| Delivered
| Quarantined (reason : string)
| Rejected (reason : string)
| Failed (reason : string).

Definition disposition (resp : ScanResponse) (cfg : Config) (reg : option SubjectRegistry) (degraded : bool) : Disposition :=
  let m := Metadata (Item resp) in
  if TimedOut resp then Quarantined "scan_timeout"
  else match RErr resp with
  | Some _ => Failed "scan_error"
  | None =>
      if degraded then Quarantined "audit_failure"
      else if ShouldForceQuarantineFromTag m then Quarantined "parse_status_tag"
      else match Result resp with
      | None => Quarantined "missing_scan_result"
      | Some result =>
          if bool_decide ((ResolveItem m reg).2 = OutcomeUnresolved) && Enforce reg
          then Quarantined "subject_unresolved"
          else match RVerdict result with
          | VerdictQuarantine => Quarantined "threshold_exceeded"
          | _ => if among (DestinationAgent m) (AgentAllowlist cfg) then Delivered
                 else Rejected "unknown_destination: not in allowlist"
          end
      end
  end.

(** What a run shows when the decision was carried out. *)
Definition carried_out {json_lib : JsonLib} (resp : ScanResponse) (cfg : Config) (d : Disposition) (h : trace fs_sig) : Prop :=
  let dir := DirPath (Item resp) in
  let inbox := inbox_of cfg (Metadata (Item resp)) in
  match d with
  | Delivered =>
      (∃ content meta, answered h (ReadFile (ContentPath (Item resp))) (Some content) ∧
         answered h (WriteFile (Join [Join [inbox; Base dir]; "content.raw"]) content) true ∧
         answered h (ReadFile (Join [dir; "metadata.json"])) (Some meta) ∧
         answered h (WriteFile (Join [Join [inbox; Base dir]; "metadata.json"]) meta) true) ∧
      (∃ e line, MarshalPass e = Some line ∧ answered h (AppendLog PassFile (line ++ [10%Z])%list) true) ∧
      answered h (RemoveAll dir) ()
  | Quarantined reason =>
      (∃ id content, answered h (ReadFile (ContentPath (Item resp))) (Some content) ∧
         answered h (WriteFile (Join [Join [QuarantineDir cfg; id]; "content.sanitized"]) (SanitizeContent content)) true) ∧
      (∃ e line, AVerdict e = "quarantine" ∧ MarshalReject e reason = Some line ∧
         answered h (AppendLog RejectFile (line ++ [10%Z])%list) true) ∧
      answered h (RemoveAll dir) ()
  | Rejected reason =>
      (∃ e line, AVerdict e = "reject" ∧ MarshalReject e reason = Some line ∧
         answered h (AppendLog RejectFile (line ++ [10%Z])%list) true) ∧
      answered h (RemoveAll dir) ()
  | Failed reason =>
      answered h (Rename dir (Join [FailedDir cfg; Base dir])) true ∧
      answered h (WriteFile (Join [Join [FailedDir cfg; Base dir]; "failed_reason.txt"]) (bytes_of_string reason)) true
  end.

(** The next answer of a file system that works. *)
Tactic Notation "go" ident(r) := cbn [bind post_when do_ call works]; intros r; cbn [works]; first [intros -> | intros [? ->] | intros _].

Section healthy.
Context {json_lib : JsonLib} {encodes : Encodes json_lib}.
Context (cfg : Config) (resp : ScanResponse).

Lemma carried_out_later d h l : carried_out resp cfg d h → carried_out resp cfg d (h ++ l)%list.
Proof.
  destruct d; cbn.
  - intros ((c & m & ? & ? & ? & ?) & (e & n & ? & ?) & ?). split_and!; [eexists _, _; split_and!|eexists _, _; split; [eassumption|]|]; in_history.
  - intros ((c & m & ? & ?) & (e & n & ? & ? & ?) & ?).
    split_and!; [eexists _, _; split|eexists _, _; split_and!; [eassumption..|]|]; in_history.
  - intros ((e & n & ? & ? & ?) & ?). split; [eexists _, _; split_and!; [eassumption..|]|]; in_history.
  - intros [? ?]. split; in_history.
Qed.

(** A placeholder's removal changes nothing else. *)
Lemma pending_when {A} j (p : prog A) h Q :
  (∀ l, post_when works p (h ++ l)%list Q) →
  post_when works (bind (removePendingForItem j cfg) (λ _, p)) h Q.
Proof.
  intros H. unfold removePendingForItem. destruct (Ordered _); [|rewrite <- (app_nil_r h); apply H].
  unfold RemovePending. go u. apply H.
Qed.

Lemma RoutePass_when j r degraded d h :
  DirPath j = DirPath (Item resp) → ContentPath j = ContentPath (Item resp) →
  post_when works (RoutePass j r (inbox_of cfg (Metadata (Item resp))) degraded d) h
    (λ h' res, res = (None, false) ∧ carried_out resp cfg Delivered h').
Proof.
  intros Hd Hc. unfold RoutePass. rewrite Hd, Hc.
  go ok. go content. go ok. go metadata. go ok. go now. unfold LogPass, appendJSONL.
  match goal with |- context [MarshalPass ?e] => destruct (enc_pass e) as [line Hline] end. rewrite Hline.
  go ok. go u. destruct u. split; [done|]. cbn.
  split_and!; [eexists _, _; split_and!|eexists _, _; split; [exact Hline|]|]; in_history.
Qed.

Lemma RouteQuarantine_when j r n degraded t d reason h :
  DirPath j = DirPath (Item resp) → ContentPath j = ContentPath (Item resp) →
  post_when works (RouteQuarantine j r (QuarantineDir cfg) n degraded t d reason) h
    (λ h' res, res = (None, false) ∧ carried_out resp cfg (Quarantined reason) h').
Proof.
  intros Hd Hc. unfold RouteQuarantine. rewrite Hd, Hc. go content. go now. go ok. go ok.
  match goal with |- context [MarshalQuarantine ?e] => destruct (enc_quarantine e) as [meta ->] end. go ok.
  unfold WriteQuarantineNotification. go ok. go now'.
  match goal with |- context [MarshalNotification ?e] => destruct (enc_notification e) as [note ->] end. go ok.
  unfold LogReject, appendJSONL.
  match goal with |- context [MarshalReject ?e ?r] => destruct (enc_reject e r) as [line Hline] end. rewrite Hline.
  go ok. go u. destruct u. split; [done|]. cbn.
  split_and!; [eexists _, _; split|eexists _, _; split_and!; [|exact Hline|]; [done|]|]; in_history.
Qed.

Lemma RouteReject_when m reason degraded h :
  post_when works (RouteReject (DirPath (Item resp)) reason m degraded) h
    (λ h' res, res = (None, false) ∧ carried_out resp cfg (Rejected reason) h').
Proof.
  unfold RouteReject. go now. unfold LogReject, appendJSONL.
  match goal with |- context [MarshalReject ?e ?r] => destruct (enc_reject e r) as [line Hline] end. rewrite Hline.
  go ok. go u. destruct u. split; [done|]. cbn. split; [eexists _, _; split_and!; [|exact Hline|]; [done|]|]; in_history.
Qed.

Lemma RouteToFailed_when reason h :
  post_when works (RouteToFailed (DirPath (Item resp)) (FailedDir cfg) reason) h
    (λ h' res, res = None ∧ carried_out resp cfg (Failed reason) h').
Proof. unfold RouteToFailed. go ok. go ok. go ok. split; [done|]. cbn. split; in_history. Qed.

(** *** The destination and the gate *)

Lemma resolve_when p h :
  absolute p → post_when works (resolve p) h (λ h' r, (∃ l, h' = (h ++ l)%list) ∧ r = Some p).
Proof.
  intros Hp. destruct (Clean_fixed p Hp) as [H1 H2]. unfold resolve, Abs.
  assert (is_rooted p = true) as -> by (by destruct Hp as (es & _ & ->)).
  rewrite H1. go there. unfold EvalSymlinks. cbn [bind post_when do_ call works]. intros r ->. cbn.
  split; [eexists; by rewrite <- app_assoc|]. by rewrite H2.
Qed.

Lemma ValidateDestination_when es agent allowlist h :
  AgentsDir cfg = "/" ++ join "/" es → es ≠ [] → Forall (λ e, plain_name e = true) es → plain_name agent = true →
  post_when works (ValidateDestination agent (AgentsDir cfg) allowlist) h
    (λ h' r, r = if among agent allowlist then Ok (Join [AgentsDir cfg; agent; "workspace"; "inbox"])
                 else Err "unknown_destination: not in allowlist").
Proof.
  intros Hdir Hne Hes Hag. unfold ValidateDestination. destruct (among agent allowlist); cbn [negb]; [|done].
  assert (Hns : Forall (λ e, plain_name e = true) [agent; "workspace"; "inbox"]) by (by repeat constructor).
  assert (Hin : Join [AgentsDir cfg; agent; "workspace"; "inbox"] = "/" ++ join "/" (es ++ [agent; "workspace"; "inbox"])%list).
  { rewrite Hdir. by apply Join_plains. }
  rewrite Hin. apply post_when_bind. eapply post_when_mono; [|apply resolve_when].
  2: { eexists. split; [|done]. by apply Forall_app_2. }
  intros h1 r [_ ->]. apply post_when_bind. eapply post_when_mono; [|apply resolve_when].
  2: { rewrite Hdir. by exists es. }
  intros h2 r [_ ->]. rewrite Hdir.
  assert (Hp : has_prefix (("/" ++ join "/" es) ++ "/") ("/" ++ join "/" (es ++ [agent; "workspace"; "inbox"])%list) = true).
  { rewrite join_app by done. apply has_prefix_split. exists (join "/" [agent; "workspace"; "inbox"]).
    by rewrite !app_str_assoc. }
  rewrite Hp. done.
Qed.

Lemma persistMetadata_when j h : post_when works (persistMetadata j) h (λ _ r, r = None).
Proof.
  unfold persistMetadata. destruct (enc_metadata (Metadata j)) as [d ->].
  go ok. go ok. go ok. go ok. go ok. done.
Qed.

Lemma SubjectGate_when j reg h :
  post_when works (SubjectGate j reg) h (λ h' r,
    DirPath r.1 = DirPath j ∧ ContentPath r.1 = ContentPath j ∧
    DestinationAgent (Metadata r.1) = DestinationAgent (Metadata j) ∧
    r.2 = Ok (if bool_decide ((ResolveItem (Metadata j) reg).2 = OutcomeUnresolved)
              then if Enforce reg then GateQuarantine else GatePassUnresolved else GatePass)).
Proof.
  unfold SubjectGate. destruct (ResolveItem_same (Metadata j) reg) as (s & a & Hs).
  destruct (ResolveItem (Metadata j) reg) as [m [| |]]; cbn [fst snd] in *.
  - cbn. destruct Hs as [-> | ->]; done.
  - apply post_when_bind. eapply post_when_mono; [|apply persistMetadata_when]. intros h' r ->. cbn.
    by destruct Hs as [-> | ->].
  - cbn. destruct Hs as [-> | ->]; done.
Qed.

(** ** Every item is disposed of *)

Lemma with_flag_when dg (p : prog error) h Q :
  post_when works p h (λ h' r, Q h' (r, dg)) → post_when works (with_flag dg p) h Q.
Proof. intros H. unfold with_flag. by apply post_when_bind. Qed.

Lemma deliverResult_when es reg t degraded :
  AgentsDir cfg = "/" ++ join "/" es → es ≠ [] → Forall (λ e, plain_name e = true) es →
  plain_name (DestinationAgent (Metadata (Item resp))) = true →
  ∀ h, post_when works (deliverResult resp cfg reg t degraded) h (λ h' r,
    r.1 = None ∧ carried_out resp cfg (disposition resp cfg reg degraded) h').
Proof.
  intros Hdir Hne Hes Hag h. set (item := Item resp).
  assert (Hq : ∀ j r reason h', DirPath j = DirPath item → ContentPath j = ContentPath item →
    post_when works (bind (removePendingForItem j cfg) (λ _, RouteQuarantine j r (QuarantineDir cfg)
         (Join [SharedDir cfg; "glovebox-notifications"]) degraded t (Duration resp) reason)) h'
      (λ h' r, r.1 = None ∧ carried_out resp cfg (Quarantined reason) h')).
  { intros j r reason h' Hd Hc. apply pending_when. intros l.
    eapply post_when_mono; [|by apply RouteQuarantine_when]. by intros h2 res [-> ?]. }
  assert (Hf : ∀ j reason h', DirPath j = DirPath item →
    post_when works (bind (removePendingForItem j cfg) (λ _, with_flag degraded (RouteToFailed (DirPath j) (FailedDir cfg) reason))) h'
      (λ h' r, r.1 = None ∧ carried_out resp cfg (Failed reason) h')).
  { intros j reason h' Hd. apply pending_when. intros l. apply with_flag_when. rewrite Hd.
    eapply post_when_mono; [|by apply RouteToFailed_when]. by intros h2 res [-> ?]. }
  unfold deliverResult, disposition. cbn zeta. fold item.
  destruct (TimedOut resp); [by apply Hq|]. destruct (RErr resp); [by apply Hf|].
  destruct degraded; [by apply Hq|]. destruct (ShouldForceQuarantineFromTag _); [by apply Hq|].
  destruct (Result resp) as [r|]; [|by apply Hq].
  apply post_when_bind. eapply post_when_mono; [|apply SubjectGate_when].
  intros h1 [j act] (Hd & Hc & Ha & Hact). cbn [fst snd] in *. subst act.
  assert (Hpass : post_when works
    (let! dest := ValidateDestination (DestinationAgent (Metadata j)) (AgentsDir cfg) (AgentAllowlist cfg) in
     match dest with
     | Err reason =>
         let! _ := removePendingForItem j cfg in RouteReject (DirPath j) reason (Some (Metadata j)) false
     | Ok destDir =>
         let! routed := RoutePass j r destDir false (Duration resp) in
         match routed with
         | (None, degraded) => let! _ := removePendingForItem j cfg in Ret (None, degraded)
         | failed => Ret failed
         end
     end)%prog h1 (λ h' r, r.1 = None ∧ carried_out resp cfg
       (if among (DestinationAgent (Metadata item)) (AgentAllowlist cfg) then Delivered
        else Rejected "unknown_destination: not in allowlist") h')).
  { apply post_when_bind. rewrite Ha. eapply post_when_mono; [|by eapply ValidateDestination_when].
    intros h2 dest ->. destruct (among _ _).
    - change (Join [AgentsDir cfg; DestinationAgent (Metadata item); "workspace"; "inbox"])
        with (inbox_of cfg (Metadata (Item resp))).
      apply post_when_bind. eapply post_when_mono; [|by apply RoutePass_when]. intros h3 routed [-> Hout].
      apply pending_when. intros l. cbn [post_when]. split; [done|by apply carried_out_later].
    - apply pending_when. intros l. rewrite Hd. eapply post_when_mono; [|by apply RouteReject_when].
      by intros h3 res [-> ?]. }
  destruct (bool_decide _); [destruct (Enforce reg)|]; cbn [andb]; [by apply Hq|..];
    (destruct (RVerdict r); [exact Hpass|by apply Hq|exact Hpass]).
Qed.
End healthy.

(** C20. When nothing fails, the decision is carried out.  With the agents'
    directory an absolute path and the destination a plain name, a delivery
    against a file system that works returns without an error and has done
    exactly what [disposition] decides from the scan's response, the
    metadata and the configuration: the item's content and metadata are in
    the inbox of its destination and in the pass log, or its inert text is
    in quarantine and its reason in the reject log, or it is rejected and
    logged, or it is under failed/ with the reason; unless it failed, it is
    gone from staging. *)
Theorem delivery_carries_out {json_lib : JsonLib} {encodes : Encodes json_lib} cfg resp reg t degraded es env :
  AgentsDir cfg = "/" ++ join "/" es → es ≠ [] → Forall (λ e, plain_name e = true) es →
  plain_name (DestinationAgent (Metadata (Item resp))) = true → healthy env →
  let '(h, (err, _)) := Effects.run env [] (deliverResult resp cfg reg t degraded) in
  err = None ∧ carried_out resp cfg (disposition resp cfg reg degraded) h.
Proof.
  intros Hdir Hne Hes Hag Henv.
  pose proof (post_when_run works _ [] _ env Henv (deliverResult_when cfg resp es reg t degraded Hdir Hne Hes Hag [])) as H.
  by destruct (Effects.run env [] _) as [h [err dg]].
Qed.
