(* ===== verification/DPipeline.v ===== *)
(** internal/pipeline/router.go and consumer.go: responses are delivered as
    they come, or in the order of their names when they are ordered.

    The delivery function is the environment (Effects.v); the order in which
    Go ranges over a map is a parameter.  sort.Slice is a sort by the key;
    names are unique, so its instability does not show. *)
From S2P Require Import Prelude GoStrings StrOrder GoPath DStaging DDeliver Effects.
Local Open Scope string_scope.
Local Open Scope prog_scope.

(** DeliveryFunc: a response, answered with an error or none. *)
Definition delivery_sig : Sig := {| op := ScanResponse; ans := λ _, option string |}.
Definition deliver (resp : ScanResponse) : @prog delivery_sig (option string) := call (Σ := delivery_sig) resp.

(** Router.pending *)
Definition Router : Type := gmap string (list ScanResponse).

Definition resp_dest (resp : ScanResponse) : string := DestinationAgent (Metadata (Item resp)).
Definition resp_ordered (resp : ScanResponse) : bool := Ordered (Metadata (Item resp)).
Definition key (resp : ScanResponse) : string := Base (DirPath (Item resp)).

Definition Route (r : Router) (resp : ScanResponse) : @prog delivery_sig (option string * Router) :=
  if negb (resp_ordered resp) then let! err := deliver resp in Ret (err, r)
  else
    let dest := resp_dest resp in
    Ret (None, <[dest := (default [] (r !! dest) ++ [resp])%list]> r).

Definition key_le (a b : ScanResponse) : Prop := str_le (key a) (key b).
#[export] Instance key_le_dec : RelDecision key_le.
Proof. intros a b. unfold key_le. apply _. Defined.
#[export] Instance key_le_total : Total key_le.
Proof. intros a b. apply (total str_le). Qed.
#[export] Instance key_le_trans : Transitive key_le.
Proof. intros a b c H1 H2. unfold key_le in *. by transitivity (key b). Qed.

Fixpoint flush_sorted (items : list ScanResponse) : @prog delivery_sig (option string) :=
  match items with
  | [] => Ret None
  | k :: rest =>
      let! err := deliver k in
      match err with Some e => Ret (Some e) | None => flush_sorted rest end
  end.

Fixpoint flush_groups (groups : list (list ScanResponse)) : @prog delivery_sig (option string) :=
  match groups with
  | [] => Ret None
  | items :: rest =>
      let! err := flush_sorted (merge_sort key_le items) in
      match err with Some e => Ret (Some e) | None => flush_groups rest end
  end.

Section router.
(** The order of a range loop over the pending map. *)
Context (range : Router → list (list ScanResponse)).

Definition Flush (r : Router) : @prog delivery_sig (option string * Router) :=
  let! err := flush_groups (range r) in
  match err with Some e => Ret (Some e, r) | None => Ret (None, ∅) end.

(** ** consumer.go *)

Inductive arrival := Response (resp : ScanResponse) | Tick.

(** ConsumeResults until the output is closed, then main's last Flush.  The
    errors that are reported, and the responses still pending. *)
Fixpoint ConsumeResults (events : list arrival) (r : Router) : @prog delivery_sig (list (option string) * Router) :=
  match events with
  | [] => let! f := Flush r in let '(err, r) := f in Ret ([err], r)
  | Response resp :: rest =>
      let! f := Route r resp in
      let '(err, r) := f in
      let! more := ConsumeResults rest r in
      let '(errs, r) := more in Ret (err :: errs, r)
  | Tick :: rest =>
      let! f := Flush r in
      let '(err, r) := f in
      let! more := ConsumeResults rest r in
      let '(errs, r) := more in Ret (err :: errs, r)
  end.

(** ** When no delivery fails *)

Hypothesis range_all : ∀ m, range m ≡ₚ (map_to_list m).*2.

Definition succeeds (o : ScanResponse) (r : option string) : Prop := r = None.

(** The responses that were delivered in a history, in order. *)
Definition delivered_in (h : trace delivery_sig) : list ScanResponse := (λ e : event delivery_sig, ev_op e) <$> h.

(** All that is pending. *)
Definition waiting (r : gmap string (list ScanResponse)) : list ScanResponse := concat (map_to_list r).*2.

Lemma flush_sorted_when items h :
  post_when (Σ := delivery_sig) succeeds (flush_sorted items) h (λ h' err,
    err = None ∧ delivered_in h' = (delivered_in h ++ items)%list).
Proof.
  revert h. induction items as [|k items IH]; intros h; cbn; [split; [done|by rewrite app_nil_r]|].
  intros r ->. eapply post_when_mono; [|apply IH]. intros h' err [-> ->]. split; [done|].
  unfold delivered_in. rewrite fmap_app, <- app_assoc. done.
Qed.

Lemma flush_groups_when groups h :
  post_when (Σ := delivery_sig) succeeds (flush_groups groups) h (λ h' err,
    err = None ∧ delivered_in h' = (delivered_in h ++ concat (merge_sort key_le <$> groups))%list).
Proof.
  revert h. induction groups as [|g groups IH]; intros h; cbn [flush_groups]; [split; [done|cbn; by rewrite app_nil_r]|].
  apply post_when_bind. eapply post_when_mono; [|apply flush_sorted_when]. intros h' err [-> Hd].
  eapply post_when_mono; [|apply IH]. intros h2 err2 [-> ->]. split; [done|].
  rewrite Hd. cbn. by rewrite <- app_assoc.
Qed.

Lemma concat_perm {A} (f : list A → list A) (l k : list (list A)) :
  (∀ x, f x ≡ₚ x) → l ≡ₚ k → concat (f <$> l) ≡ₚ concat k.
Proof.
  intros Hf Hlk. transitivity (concat l); [|by rewrite Hlk].
  induction l as [|x l IH] in k, Hlk |- *; cbn; [done|]. rewrite (Hf x). f_equiv. by apply (IH l).
Qed.

Lemma Flush_when r h :
  post_when (Σ := delivery_sig) succeeds (Flush r) h (λ h' res,
    res = (None, ∅) ∧ delivered_in h' ≡ₚ (delivered_in h ++ waiting r)%list ∧
    delivered_in h' = (delivered_in h ++ concat (merge_sort key_le <$> range r))%list).
Proof.
  unfold Flush. apply post_when_bind. eapply post_when_mono; [|apply flush_groups_when].
  intros h' err [-> Hd]. split_and!; [done| |done]. rewrite Hd. f_equiv. unfold waiting.
  apply concat_perm; [intros; apply merge_sort_Permutation|apply range_all].
Qed.

Lemma waiting_insert (r : gmap string (list ScanResponse)) d l x :
  r !! d = l → waiting (<[d := (default [] l ++ [x])%list]> r) ≡ₚ (waiting r ++ [x])%list.
Proof.
  intros Hl. unfold waiting. rewrite <- insert_delete_eq.
  rewrite map_to_list_insert by apply lookup_delete_eq. rewrite fmap_cons. cbn [concat].
  destruct l as [l|].
  - assert (E : waiting r ≡ₚ (l ++ waiting (delete d r))%list).
    { unfold waiting. rewrite <- (insert_delete_id r d l Hl) at 1.
      rewrite map_to_list_insert by apply lookup_delete_eq. done. }
    fold (waiting r). rewrite E. cbn [default id snd]. rewrite <- !app_assoc. f_equiv. apply Permutation_app_comm.
  - rewrite delete_id by done. cbn [default snd app]. apply Permutation_cons_append.
Qed.

Definition arrived (events : list arrival) : list ScanResponse :=
  omap (λ e, match e with Response r => Some r | Tick => None end) events.

Lemma ConsumeResults_when events : ∀ r h,
  post_when (Σ := delivery_sig) succeeds (ConsumeResults events r) h (λ h' res,
    Forall (λ e, e = None) res.1 ∧ res.2 = ∅ ∧
    delivered_in h' ≡ₚ (delivered_in h ++ waiting r ++ arrived events)%list).
Proof.
  induction events as [|[resp|] events IH]; intros r h; cbn [ConsumeResults].
  - apply post_when_bind. eapply post_when_mono; [|apply Flush_when]. intros h' res (-> & Hd & _). cbn.
    split_and!; [by repeat constructor|done|]. by rewrite app_nil_r.
  - apply post_when_bind. unfold Route. destruct (resp_ordered resp); cbn [negb].
    + cbn [post_when]. apply post_when_bind. eapply post_when_mono; [|apply IH].
      intros h' [errs r'] (He & Hr & Hd). cbn [fst snd] in *. split_and!; [by constructor|done|].
      rewrite Hd, (waiting_insert _ _ _ resp eq_refl). cbn. by rewrite <- !app_assoc.
    + cbn. intros err ->. apply post_when_bind. eapply post_when_mono; [|apply IH].
      intros h' [errs r'] (He & Hr & Hd). cbn [fst snd] in *. split_and!; [by constructor|done|].
      rewrite Hd. unfold delivered_in. rewrite fmap_app. cbn. rewrite <- !app_assoc. f_equiv. cbn.
      apply Permutation_middle.
  - apply post_when_bind. eapply post_when_mono; [|apply Flush_when]. intros h1 res (-> & Hd1 & _).
    apply post_when_bind. eapply post_when_mono; [|apply IH].
    intros h' [errs r'] (He & Hr & Hd). cbn [fst snd] in *. split_and!; [by constructor|done|].
    rewrite Hd, Hd1. cbn. by rewrite <- !app_assoc.
Qed.

(** Every response is delivered once.  Whatever the order in which
    responses arrive and flushes fall between them, when no delivery fails
    the responses delivered by the time the consumer has stopped and main
    has flushed are those that arrived, each as often as it arrived; nothing
    is left pending and no error is reported. *)
Theorem consumer_delivers_each_once events (env : environment delivery_sig) :
  (∀ h o, env h o = None) →
  let '(h, (errs, pending)) := Effects.run env [] (ConsumeResults events ∅) in
  delivered_in h ≡ₚ arrived events ∧ pending = ∅ ∧ Forall (λ e, e = None) errs.
Proof.
  intros Henv. pose proof (post_when_run (Σ := delivery_sig) succeeds _ [] _ env Henv (ConsumeResults_when events ∅ [])) as H.
  destruct (Effects.run env [] _) as [h [errs pending]]. cbn [fst snd] in H. destruct H as (He & Hp & Hd).
  split_and!; [exact Hd|done|done].
Qed.

(** A flush keeps each destination's order.  When no delivery fails, a
    flush delivers what is pending, one destination after another, and what
    it delivers to one destination is that destination's pending responses
    sorted by the name of their directory. *)
Theorem flush_in_name_order (r : Router) (env : environment delivery_sig) :
  (∀ h o, env h o = None) →
  ∃ groups, groups ≡ₚ (map_to_list r).*2 ∧
    delivered_in (Effects.run env [] (Flush r)).1 = concat (merge_sort key_le <$> groups) ∧
    Forall (λ g, StronglySorted key_le (merge_sort key_le g) ∧ merge_sort key_le g ≡ₚ g) groups.
Proof.
  intros Henv. exists (range r). split_and!; [apply range_all| |].
  - by destruct (post_when_run (Σ := delivery_sig) succeeds _ [] _ env Henv (Flush_when r [])) as (_ & _ & ->).
  - apply Forall_forall. intros g _. split; [by apply (StronglySorted_merge_sort key_le)|apply merge_sort_Permutation].
Qed.
End router.

(** ** A worked router *)

Definition queued (dir : string) : ScanResponse :=
  mkResponse (mkItem dir (Join [dir; "content.raw"])
    (mkMetadata "imap" "a" "s" 1 "messaging" "text/plain" true false None ∅ "" None "" [])) [] None 0 false None.

Definition by_key (m : Router) : list (list ScanResponse) := (map_to_list m).*2.
Lemma by_key_all m : by_key m ≡ₚ (map_to_list m).*2.
Proof. done. Qed.

(** No delivery fails. *)
Definition always : environment delivery_sig := λ _ _, None.

Lemma consumer_delivers_each_once_witness :
  let events := [Response (queued "/staging/2"); Tick; Response (queued "/staging/1")] in
  let '(h, (errs, pending)) := Effects.run always [] (ConsumeResults by_key events ∅) in
  delivered_in h ≡ₚ arrived events ∧ pending = ∅ ∧ Forall (λ e, e = None) errs.
Proof.
  intros events. exact (consumer_delivers_each_once by_key by_key_all events always (λ _ _, eq_refl)).
Defined.

Lemma flush_in_name_order_witness :
  let r : Router := {["messaging" := [queued "/staging/2"; queued "/staging/1"]]} in
  ∃ groups, groups ≡ₚ (map_to_list r).*2 ∧
    delivered_in (Effects.run always [] (Flush by_key r)).1 = concat (merge_sort key_le <$> groups).
Proof.
  intros r. destruct (flush_in_name_order by_key by_key_all r always (λ _ _, eq_refl)) as (g & H1 & H2 & _).
  exists g. split; [exact H1|exact H2].
Defined.

(** A response that is still scanning when the consumer flushes is
    overtaken by a later one of its destination. *)
Theorem late_response_overtaken :
  key <$> delivered_in (Effects.run always []
    (ConsumeResults by_key [Response (queued "/staging/2"); Tick; Response (queued "/staging/1")] ∅)).1
  = ["2"; "1"].
Proof. vm_compute. reflexivity. Qed.

(** Deliveries of one name fail. *)
Definition fails_on (name : string) : environment delivery_sig :=
  λ _ o, if String.eqb (key o) name then Some "stuck" else None.

(** A flush that fails keeps all of its responses pending: those it
    delivered are delivered again by every later flush, and those behind the
    failure are never delivered. *)
Theorem failed_flush_redelivers :
  key <$> delivered_in (Effects.run (fails_on "2") []
    (ConsumeResults by_key [Response (queued "/staging/1"); Response (queued "/staging/2");
       Response (queued "/staging/3"); Tick; Tick] ∅)).1
  = ["1"; "2"; "1"; "2"; "1"; "2"].
Proof. vm_compute. reflexivity. Qed.
