(* ===== verification/DWatcher.v ===== *)
(** internal/watcher/watcher.go: staged items are queued for the scan once
    each, and none is left behind.

    What the file system shows at a poll is an argument; the goroutines are
    the steps of a state machine: polls, creation events, and the feeder
    that hands the head of the queue to the handler. *)
From S2P Require Import Prelude GoStrings StrOrder GoPath.
Local Open Scope string_scope.

Definition dispatchBuffer : nat := 256.

Record Watcher := mkWatcher {
  stagingDir : string;
  seen : gset string;
  dispatch : list string;
}.

Definition New (dir : string) : Watcher := mkWatcher dir ∅ [].

(** What os.Stat and os.ReadDir show: whether a path does not exist, whether
    a directory holds metadata.json, and the entries of the staging
    directory with whether each is a directory. *)
Record Disk := mkDisk {
  gone : string → bool;
  ready : string → bool;
  entries : option (list (string * bool));
}.

Definition dispatchIfNew (d : Disk) (path : string) (w : Watcher) : Watcher :=
  if bool_decide (path ∈ seen w) then w
  else if negb (ready d path) then w
  else if (length (dispatch w) <? dispatchBuffer)%nat
  then mkWatcher (stagingDir w) ({[path]} ∪ seen w) (dispatch w ++ [path])%list
  else w.

Definition pruneSeen (d : Disk) (w : Watcher) : Watcher :=
  mkWatcher (stagingDir w) (filter (λ p, gone d p = false) (seen w)) (dispatch w).

Definition entry_le (a b : string * bool) : Prop := str_le a.1 b.1.
#[export] Instance entry_le_dec : RelDecision entry_le.
Proof. intros a b. unfold entry_le. apply _. Defined.

Definition poll_entry (d : Disk) (w : Watcher) (e : string * bool) : Watcher :=
  if e.2 then dispatchIfNew d (Join [stagingDir w; e.1]) w else w.

Definition pollOnce (d : Disk) (w : Watcher) : Watcher :=
  let w := pruneSeen d w in
  match entries d with
  | None => w
  | Some es => foldl (poll_entry d) w (merge_sort entry_le es)
  end.

(** ** The watcher as a state machine *)

Record state := mkState { watcher : Watcher; handled : list string }.

(** [Run]'s select loop and the feeder; [Created] is an fsnotify event, with
    whether os.Stat says that it is a directory. *)
Inductive step : state → Disk → state → Prop :=
| Poll s d : step s d (mkState (pollOnce d (watcher s)) (handled s))
| Created s d path (is_dir : bool) :
    step s d (mkState (if is_dir then dispatchIfNew d path (watcher s) else watcher s) (handled s))
| Feed s d path rest :
    dispatch (watcher s) = path :: rest →
    step s d (mkState (mkWatcher (stagingDir (watcher s)) (seen (watcher s)) rest) (handled s ++ [path])%list).

(** The states reached while [path] never goes missing. *)
Inductive reachable_with (dir path : string) : state → Prop :=
| reach_init : reachable_with dir path (mkState (New dir) [])
| reach_step s d s' : reachable_with dir path s → gone d path = false → step s d s' → reachable_with dir path s'.

(** ** Lemmas *)

(** What queueing keeps: the paths seen grow, the paths queued are new. *)
Record grows (w w' : Watcher) : Prop := {
  g_dir : stagingDir w' = stagingDir w;
  g_seen : seen w ⊆ seen w';
  g_queue : ∃ l, dispatch w' = (dispatch w ++ l)%list ∧ NoDup l ∧ (∀ p, p ∈ l ↔ p ∈ seen w' ∧ p ∉ seen w);
  g_bound : (length (dispatch w) ≤ dispatchBuffer → length (dispatch w') ≤ dispatchBuffer)%nat;
}.

Lemma grows_refl w : grows w w.
Proof. split; [done|done| |done]. exists []. rewrite app_nil_r. split_and!; [done|constructor|set_solver]. Qed.

Lemma grows_trans w1 w2 w3 : grows w1 w2 → grows w2 w3 → grows w1 w3.
Proof.
  intros [D1 S1 (l1 & E1 & N1 & M1) B1] [D2 S2 (l2 & E2 & N2 & M2) B2]. split; [congruence|by etransitivity| |auto].
  exists (l1 ++ l2)%list. rewrite E2, E1, app_assoc. split_and!; [done|..].
  - apply NoDup_app. split_and!; [done| |done]. intros p H1%M1 H2%M2. tauto.
  - intros p. rewrite elem_of_app, M1, M2. split.
    + intros [[H1 H2]|[H1 H2]]; (split; [by auto|]); [done|]. intros H3. by apply H2, S1.
    + intros [H1 H2]. destruct (decide (p ∈ seen w2)); [left|right]; done.
Qed.

Lemma dispatchIfNew_grows d path w : grows w (dispatchIfNew d path w).
Proof.
  unfold dispatchIfNew. case_bool_decide as Hs; [apply grows_refl|].
  destruct (ready d path); cbn [negb]; [|apply grows_refl].
  destruct (Nat.ltb_spec (length (dispatch w)) dispatchBuffer); [|apply grows_refl].
  split; cbn; [done|set_solver| |].
  - exists [path]. split_and!; [done|apply NoDup_singleton|set_solver].
  - rewrite length_app. cbn. lia.
Qed.

Lemma poll_grows d es w : grows w (foldl (poll_entry d) w es).
Proof.
  revert w. induction es as [|[n b] es IH]; intros w; cbn [foldl]; [apply grows_refl|].
  eapply grows_trans; [|apply IH]. unfold poll_entry. cbn. destruct b; [apply dispatchIfNew_grows|apply grows_refl].
Qed.

(** Each ready directory that was looked at is seen, or there was no
    room. *)
Lemma poll_covers d es w n :
  (n, true) ∈ es → ready d (Join [stagingDir w; n]) = true →
  let w' := foldl (poll_entry d) w es in
  Join [stagingDir w; n] ∈ seen w' ∨ (dispatchBuffer ≤ length (dispatch w'))%nat.
Proof.
  revert w. induction es as [|e es IH]; intros w Hin Hr; [by apply elem_of_nil in Hin|].
  cbn [foldl]. cbn zeta. apply elem_of_cons in Hin as [<-|Hin].
  - pose proof (poll_grows d es (poll_entry d w (n, true))) as [_ Hs (l & Hl & _) _]. unfold poll_entry in *. cbn [fst snd] in *.
    assert (H : Join [stagingDir w; n] ∈ seen (dispatchIfNew d (Join [stagingDir w; n]) w) ∨
                (dispatchBuffer ≤ length (dispatch (dispatchIfNew d (Join [stagingDir w; n]) w)))%nat).
    { unfold dispatchIfNew. case_bool_decide; [by left|]. rewrite Hr. cbn [negb].
      destruct (Nat.ltb_spec (length (dispatch w)) dispatchBuffer); [left; cbn; set_solver|by right]. }
    destruct H as [H|H]; [left; set_solver|right]. rewrite Hl, length_app. lia.
  - assert (Hd : stagingDir (poll_entry d w e) = stagingDir w).
    { unfold poll_entry. destruct e as [m [|]]; [apply dispatchIfNew_grows|done]. }
    rewrite <- Hd. apply IH; [done|by rewrite Hd].
Qed.

(** A poll leaves no item behind.  After a poll that could read the
    staging directory, every entry that is a directory and holds its
    metadata.json has been queued, now or before, unless the queue is full;
    and the queue never grows past its buffer. *)
Theorem poll_leaves_none_behind d w es n :
  entries d = Some es → (n, true) ∈ es → ready d (Join [stagingDir w; n]) = true →
  (length (dispatch w) ≤ dispatchBuffer)%nat →
  let w' := pollOnce d w in
  (Join [stagingDir w; n] ∈ seen w' ∨ length (dispatch w') = dispatchBuffer) ∧
  (length (dispatch w') ≤ dispatchBuffer)%nat.
Proof.
  intros He Hin Hr Hb. cbn zeta. unfold pollOnce. rewrite He.
  pose proof (poll_grows d (merge_sort entry_le es) (pruneSeen d w)) as [_ _ _ Hbound]. specialize (Hbound Hb).
  split; [|done]. destruct (poll_covers d (merge_sort entry_le es) (pruneSeen d w) n) as [H|H]; [|done|by left|right; lia].
  by rewrite merge_sort_Permutation.
Qed.

(** Seen means queued or handed over. *)
Record tracked (path : string) (s : state) : Prop := {
  t_seen : path ∈ seen (watcher s) ↔ path ∈ (handled s ++ dispatch (watcher s))%list;
  t_once : (length (filter (path =.) (handled s ++ dispatch (watcher s))%list) ≤ 1)%nat;
}.

Lemma count_absent path (l : list string) : path ∉ l → filter (path =.) l = [].
Proof.
  intros H. induction l as [|x l IH]; [done|]. rewrite filter_cons_False by set_solver. apply IH. set_solver.
Qed.

Lemma count_nodup path (l : list string) : NoDup l → (length (filter (path =.) l) ≤ 1)%nat.
Proof.
  induction 1 as [|x l Hx _ IH]; [cbn; lia|]. destruct (decide (path = x)) as [->|Hne].
  - rewrite filter_cons_True by done. by rewrite count_absent.
  - by rewrite filter_cons_False.
Qed.

Lemma grows_tracked path w w' h :
  grows w w' → tracked path (mkState w h) → tracked path (mkState w' h).
Proof.
  intros [_ Hs (l & Hl & Hn & Hm) _] [H1 H2]. cbn [watcher handled] in *. split; cbn [watcher handled]; rewrite Hl, app_assoc.
  - rewrite (elem_of_app _ l). destruct (decide (path ∈ seen w)); [set_solver|]. rewrite Hm, <- H1. tauto.
  - rewrite filter_app, length_app. destruct (decide (path ∈ l)) as [Hp|Hp].
    + rewrite (count_absent path (h ++ dispatch w)%list); [cbn; by apply count_nodup|]. rewrite <- H1. by apply Hm in Hp as [_ ?].
    + rewrite (count_absent path l) by done. cbn. lia.
Qed.

Lemma step_tracked path s d s' : gone d path = false → step s d s' → tracked path s → tracked path s'.
Proof.
  intros Hg Hstep [H1 H2]. destruct Hstep as [s d|s d p b|s d p rest Hq].
  - assert (Hp : tracked path (mkState (pruneSeen d (watcher s)) (handled s))).
    { split; cbn; [|done]. rewrite elem_of_filter. rewrite H1. tauto. }
    unfold pollOnce. destruct (entries d) as [es|]; [|done]. eapply grows_tracked; [apply poll_grows|done].
  - destruct b; [|done]. eapply grows_tracked; [apply dispatchIfNew_grows|]. done.
  - split; cbn [watcher handled dispatch seen]; rewrite <- app_assoc; cbn [app]; by rewrite <- Hq.
Qed.

(** An item is handed over once.  In every execution of the watcher in
    which an item's directory never goes missing, whatever polls, creation
    events and feeds are interleaved and whatever else comes and goes, the
    directory is handed to the handler at most once, and it is not queued
    again after that. *)
Theorem item_handled_once dir path s :
  reachable_with dir path s →
  (length (filter (path =.) (handled s)) ≤ 1)%nat ∧
  (path ∈ handled s → path ∉ dispatch (watcher s)).
Proof.
  intros H. assert (Ht : tracked path s).
  { induction H as [|s d s' _ IH Hg Hs]; [split; cbn; [set_solver|lia]|by eapply step_tracked]. }
  destruct Ht as [_ H2]. rewrite filter_app, length_app in H2. split; [lia|]. intros Hh Hq.
  assert (Hpos : ∀ l, path ∈ l → (1 ≤ length (filter (path =.) l))%nat).
  { intros l Hl. assert (Hf : path ∈ filter (path =.) l) by (by apply list_elem_of_filter).
    destruct (filter _ l); [by apply elem_of_nil in Hf|cbn; lia]. }
  specialize (Hpos _ Hh) as P1. specialize (Hpos _ Hq) as P2. lia.
Qed.

(** ** Witnesses *)

Definition two_items : Disk := mkDisk (λ _, false) (λ _, true) (Some [("b", true); ("a", true); ("x", false)]).
Definition polled : Watcher := pollOnce two_items (New "/staging").

Lemma poll_leaves_none_behind_witness : "/staging/b" ∈ seen polled ∨ length (dispatch polled) = dispatchBuffer.
Proof.
  apply (poll_leaves_none_behind two_items (New "/staging") [("b", true); ("a", true); ("x", false)] "b");
    [reflexivity|by left|reflexivity|vm_compute; lia].
Defined.

Lemma item_handled_once_witness :
  let s := mkState (mkWatcher "/staging" (seen polled) ["/staging/b"]) ["/staging/a"] in
  (length (filter ("/staging/a" =.) (handled s)) ≤ 1)%nat.
Proof.
  intros s. apply (item_handled_once "/staging" "/staging/a" s).
  apply (reach_step _ _ (mkState polled []) two_items); [|reflexivity|].
  - apply (reach_step _ _ (mkState (New "/staging") []) two_items); [apply reach_init|reflexivity|apply Poll].
  - apply (Feed (mkState polled []) two_items "/staging/a" ["/staging/b"]). vm_compute. reflexivity.
Defined.
