(* ===== verification/ADisk.v ===== *)
(** The file system under internal/ingest/archives: the calls the archive
    code makes, and the disk they act on.

    A path is the list of its elements; a disk maps paths to folders and
    files.  Every call may fail; what a failed call leaves behind is as
    unspecific as the operating system's promise.  The disk holds no links
    and no modes, and only the modelled code writes to it. *)
From S2P Require Import Prelude GoStrings GoPath Utf8 Effects.
Local Open Scope string_scope.

(** ** Paths *)

Abbreviation path := (list string).

(** The elements of an absolute path. *)
Definition comps (p : string) : path := clean_elems true (split_on slash p).

(** filepath.Dir, of a clean absolute path. *)
Definition Dir (p : string) : string := "/" ++ join "/" (removelast (comps p)).

Definition below (p k : path) : Prop := p `prefix_of` k.
#[export] Instance below_dec p k : Decision (below p k).
Proof. apply _. Defined.

Lemma comps_plain es : Forall (λ e, plain_name e = true) es → comps ("/" ++ join "/" es) = es.
Proof.
  intros H. unfold comps. destruct es as [|e es]; [done|]. rewrite split_absolute by done.
  change (clean_elems true ("" :: e :: es)) with (clean_elems true (e :: es)). by apply clean_elems_plain.
Qed.

Lemma absolute_comps p : absolute p → Forall (λ e, plain_name e = true) (comps p) ∧ p = "/" ++ join "/" (comps p).
Proof. intros (es & Hes & ->). by rewrite comps_plain. Qed.

Lemma comps_Join d ns :
  absolute d → Forall (λ e, plain_name e = true) ns → ns ≠ [] → comps (Join (d :: ns)) = (comps d ++ ns)%list.
Proof.
  intros [Hc ->]%absolute_comps Hns Hne. rewrite Join_plains by done.
  rewrite !comps_plain; [done|done|by apply Forall_app].
Qed.

Lemma Join_is_absolute d ns :
  absolute d → Forall (λ e, plain_name e = true) ns → ns ≠ [] → absolute (Join (d :: ns)).
Proof.
  intros [Hc ->]%absolute_comps Hns Hne. rewrite Join_plains by done. eexists. split; [|done].
  by apply Forall_app.
Qed.

Lemma Forall_removelast {A} (P : A → Prop) l : Forall P l → Forall P (removelast l).
Proof. induction 1 as [|x l Hx Hl IH]; [done|]. destruct l; [done|]. by constructor. Qed.

Lemma comps_Dir p : absolute p → comps (Dir p) = removelast (comps p).
Proof. intros [Hc _]%absolute_comps. unfold Dir. by rewrite comps_plain by by apply Forall_removelast. Qed.

(** ** The calls *)

Inductive outcome := Done | NotExist | Failed.

Inductive found (A : Type) := Found (a : A) | Missing | Broken.
Arguments Found {A} _.
Arguments Missing {A}.
Arguments Broken {A}.

(** An entry of a folder, with its time and size when they can be read. *)
Record DirEntry := mkDirEntry { EName : string; EIsDir : bool; EInfo : option (Z * Z) }.

(** What a walk meets: an error, or an entry. *)
Definition walked : Type := list (option (bool * option Z)).

Inductive aop :=
| MkdirAll (p : string)
| Chmod (p : string) (mode : Z)
| CreateExcl (p : string)
| OpenAppend (p : string)
| OpenRead (p : string)
| Write (p : string) (data : bytes)
| Sync (p : string)
| Close (p : string)
| Rename (p q : string)
| Remove (p : string)
| RemoveAll (p : string)
| Stat (p : string)
| ReadFile (p : string)
| ListDir (p : string)
| Walk (p : string)
| Now
| Rand
| Expired
| TryLock (id : string)
| StatDev (p : string).

(** Write answers how many bytes it wrote, fewer than all of them with an
    error; Stat whether a folder was found, and the size; Rand
    sixteen random bytes; Walk what it meets below a path; Expired whether the deadline of a body has
    passed; TryLock whether the mutex of an upload was free; StatDev the device a folder is on. *)
Definition aans (o : aop) : Type :=
  match o with
  | Write _ _ => nat
  | Remove _ => outcome
  | Stat _ => found (bool * Z)
  | ReadFile _ => found bytes
  | ListDir _ => found (list DirEntry)
  | Walk _ => walked
  | Now => Z
  | Rand => option bytes
  | StatDev _ => option Z
  | _ => bool
  end.

#[export] Instance archive_sig : Sig := {| op := aop; ans := aans |}.

Definition do_ (o : aop) : prog (aans o) := call (Σ := archive_sig) o.

(** ** The disk *)

Inductive node := Folder | File (data : bytes).
#[export] Instance node_eq_dec : EqDecision node.
Proof. solve_decision. Defined.

Abbreviation disk := (gmap path node).

Definition is_folder (d : disk) (p : path) : Prop := p = [] ∨ d !! p = Some Folder.
Definition is_file (d : disk) (p : path) : Prop := ∃ data, d !! p = Some (File data).

(** The folders on the way to a path. *)
Definition chain (p : path) : disk := list_to_map ((λ k, (take k p, Folder)) <$> seq 1 (length p)).
Definition mkdirs (p : path) (d : disk) : disk := d ∪ chain p.
(** No file is in the way. *)
Definition clear_way (p : path) (d : disk) : Prop := ∀ q, below q p → ¬ is_file d q.

Definition append (p : path) (x : bytes) (d : disk) : disk :=
  alter (λ n, match n with File old => File (old ++ x)%list | Folder => Folder end) p d.

Definition childless (p : path) (d : disk) : Prop := ∀ k, below p k → k ≠ p → d !! k = None.
Definition removed (p : path) (d : disk) : disk := filter (λ kv, ¬ below p kv.1) d.

(** What is at [p] and below moves to [q], in the place of what was there. *)
Definition relocate (p q k : path) : path := (q ++ drop (length p) k)%list.
Definition move (p q : path) (d : disk) : disk :=
  list_to_map ((λ kv, (relocate p q kv.1, kv.2)) <$> map_to_list (filter (λ kv, below p kv.1) d))
  ∪ filter (λ kv, ¬ below p kv.1 ∧ ¬ below q kv.1) d.

Definition may_move (p q : path) (d : disk) : Prop :=
  ¬ below p q ∧ ¬ below q p ∧ is_folder d (removelast q) ∧ childless q d ∧
  match d !! p with
  | Some Folder => d !! q = None ∨ d !! q = Some Folder
  | Some (File _) => d !! q ≠ Some Folder
  | None => False
  end.

(** What a call may answer and leave. *)
Definition dstep (d : disk) (o : aop) : aans o → disk → Prop :=
  match o return aans o → disk → Prop with
  | MkdirAll p => λ (r : bool) d',
      if r then clear_way (comps p) d ∧ d' = mkdirs (comps p) d
      else ∃ q, below q (comps p) ∧ clear_way q d ∧ d' = mkdirs q d
  | CreateExcl p => λ (r : bool) d',
      if r then d !! comps p = None ∧ comps p ≠ [] ∧ is_folder d (removelast (comps p)) ∧ d' = <[comps p := File []]> d
      else d' = d
  | OpenAppend p | OpenRead p => λ (r : bool) d', (r = true → is_file d (comps p)) ∧ d' = d
  | Write p data => λ (n : nat) d', (n ≤ length data)%nat ∧ d' = append (comps p) (take n data) d
  | Rename p q => λ (r : bool) d', if r then may_move (comps p) (comps q) d ∧ d' = move (comps p) (comps q) d else d' = d
  | Remove p => λ (r : outcome) d',
      match r with
      | Done => is_Some (d !! comps p) ∧ childless (comps p) d ∧ d' = delete (comps p) d
      | NotExist => d !! comps p = None ∧ d' = d
      | Failed => d' = d
      end
  | RemoveAll p => λ (r : bool) d',
      if r then d' = removed (comps p) d
      else d' ⊆ d ∧ ∀ k, ¬ below (comps p) k → d' !! k = d !! k
  | Stat p => λ (r : found (bool * Z)) d',
      d' = d ∧
      match r with
      | Found (true, _) => is_folder d (comps p)
      | Found (false, n) => ∃ data, d !! comps p = Some (File data) ∧ n = Z.of_nat (length data)
      | Missing => d !! comps p = None ∧ comps p ≠ []
      | Broken => True
      end
  | ReadFile p => λ (r : found bytes) d',
      d' = d ∧
      match r with
      | Found data => d !! comps p = Some (File data)
      | Missing => d !! comps p = None
      | Broken => True
      end
  | ListDir p => λ (r : found (list DirEntry)) d',
      d' = d ∧
      match r with
      | Found es => Forall (λ e, plain_name (EName e) = true ∧ is_Some (d !! (comps p ++ [EName e])%list)) es
      | _ => True
      end
  | Rand => λ (r : option bytes) d', d' = d ∧ ∀ b, r = Some b → length b = 16%nat ∧ Forall is_byte b
  | _ => λ _ d', d' = d
  end.

(** A disk on which calls fail only where they must. *)
Definition hstep (d : disk) (o : aop) : aans o → disk → Prop :=
  match o return aans o → disk → Prop with
  | MkdirAll p => λ (r : bool) d', dstep d (MkdirAll p) r d' ∧ (clear_way (comps p) d → r = true)
  | CreateExcl p => λ (r : bool) d',
      dstep d (CreateExcl p) r d' ∧
      (d !! comps p = None → comps p ≠ [] → is_folder d (removelast (comps p)) → r = true)
  | OpenAppend p => λ (r : bool) d', dstep d (OpenAppend p) r d' ∧ (is_file d (comps p) → r = true)
  | OpenRead p => λ (r : bool) d', dstep d (OpenRead p) r d' ∧ (is_file d (comps p) → r = true)
  | Write p x => λ (n : nat) d', dstep d (Write p x) n d' ∧ n = length x
  | Rename p q => λ (r : bool) d', dstep d (Rename p q) r d' ∧ (may_move (comps p) (comps q) d → r = true)
  | Remove p => λ (r : outcome) d',
      dstep d (Remove p) r d' ∧ (is_Some (d !! comps p) → childless (comps p) d → r = Done)
      ∧ (d !! comps p = None → r = NotExist)
  | RemoveAll p => λ (r : bool) d', dstep d (RemoveAll p) r d' ∧ r = true
  | Stat p => λ (r : found (bool * Z)) d', dstep d (Stat p) r d' ∧ r ≠ Broken
  | ReadFile p => λ (r : found bytes) d', dstep d (ReadFile p) r d' ∧ (d !! comps p ≠ Some Folder → r ≠ Broken)
  | ListDir p => λ (r : found (list DirEntry)) d', dstep d (ListDir p) r d' ∧ r ≠ Broken
  | Walk _ => λ _ d', d' = d
  | Rand => λ (r : option bytes) d', dstep d Rand r d' ∧ is_Some r
  | Chmod p m => λ (r : bool) d', dstep d (Chmod p m) r d' ∧ r = true
  | Sync p => λ (r : bool) d', dstep d (Sync p) r d' ∧ r = true
  | Close p => λ (r : bool) d', dstep d (Close p) r d' ∧ r = true
  | Now => λ _ d', d' = d
  | Expired => λ (r : bool) d', d' = d ∧ r = false
  | TryLock _ => λ (r : bool) d', d' = d ∧ r = true
  | StatDev _ => λ r d', d' = d ∧ r = Some 0%Z
  end.

Lemma hstep_dstep d o (r : aans o) d' : hstep d o r d' → dstep d o r d'.
Proof. destruct o; cbn; tauto. Qed.

(** ** Lookups *)

Lemma below_refl p : below p p.
Proof. by exists []; rewrite app_nil_r. Qed.
Lemma below_trans p q k : below p q → below q k → below p k.
Proof. apply transitivity. Qed.
Lemma below_app p l : below p (p ++ l)%list.
Proof. by exists l. Qed.
Lemma below_both p q k : below p k → below q k → below p q ∨ below q p.
Proof. intros. by eapply prefix_weak_total. Qed.
#[export] Hint Resolve below_refl below_app : glovebox.

Lemma chain_lookup p k : chain p !! k = if decide (below k p ∧ k ≠ []) then Some Folder else None.
Proof.
  unfold chain. destruct (decide _) as [[[l ->] Hk]|Hn].
  - apply elem_of_list_to_map_1'.
    + intros y (n & [= _ <-] & _)%list_elem_of_fmap. done.
    + apply list_elem_of_fmap. exists (length k). split; [by rewrite take_app_length|].
      apply elem_of_seq. rewrite length_app. destruct k; [done|]. cbn. lia.
  - apply not_elem_of_list_to_map_1. intros (x & -> & (n & -> & Hn2%elem_of_seq)%list_elem_of_fmap)%list_elem_of_fmap.
    cbn in Hn. apply Hn. split; [eexists; symmetry; apply take_drop|].
    intros E%(f_equal length). rewrite length_take in E. cbn in E. lia.
Qed.

Lemma mkdirs_lookup p d k :
  mkdirs p d !! k = match d !! k with Some n => Some n | None => if decide (below k p ∧ k ≠ []) then Some Folder else None end.
Proof. unfold mkdirs. rewrite lookup_union, chain_lookup. destruct (d !! k); by destruct (decide _). Qed.

Lemma removed_lookup p d k : removed p d !! k = if decide (below p k) then None else d !! k.
Proof.
  unfold removed. rewrite map_lookup_filter. destruct (decide (below p k)), (d !! k); cbn; try done.
  - by rewrite option_guard_False by tauto.
  - by rewrite option_guard_True by tauto.
Qed.

Lemma append_lookup p x d k :
  append p x d !! k = if decide (k = p) then match d !! p with Some (File old) => Some (File (old ++ x)%list) | n => n end
                      else d !! k.
Proof.
  unfold append. destruct (decide (k = p)) as [->|Hk].
  - rewrite lookup_alter_eq. by destruct (d !! p) as [[|]|].
  - by rewrite lookup_alter_ne.
Qed.

Lemma relocate_below p q k l : below p k → below p l → relocate p q k = relocate p q l → k = l.
Proof.
  intros [x ->] [y ->]. unfold relocate. rewrite !drop_app_length.
  intros E%app_inv_head. by subst.
Qed.

Lemma moved_keys (p q : path) (d : disk) (k : path) :
  k ∈ ((λ kv : path * node, (relocate p q kv.1, kv.2)) <$> map_to_list (filter (λ kv : path * node, below p kv.1) d)).*1 →
  ∃ k1 n, k = relocate p q k1 ∧ d !! k1 = Some n ∧ below p k1.
Proof.
  intros ([k1 n1] & E1 & ([k2 n2] & E2 & H%elem_of_map_to_list)%list_elem_of_fmap)%list_elem_of_fmap.
  cbn in E1, E2. subst k. apply map_lookup_filter_Some in H as [H Hb]. injection E2 as -> _. by exists k2, n2.
Qed.

Lemma move_lookup p q d k :
  ¬ below p q → ¬ below q p →
  move p q d !! k = if decide (below q k) then d !! (p ++ drop (length q) k)%list
                    else if decide (below p k) then None else d !! k.
Proof.
  intros Hpq Hqp. unfold move. rewrite lookup_union.
  set (moved := filter (λ kv, below p kv.1) d).
  assert (Hnd : NoDup ((λ kv, (relocate p q kv.1, kv.2)) <$> map_to_list moved).*1).
  { rewrite <- list_fmap_compose. apply NoDup_fmap_2_strong; [|apply NoDup_map_to_list].
    intros [k1 n1] [k2 n2] H1%elem_of_map_to_list H2%elem_of_map_to_list E. cbn in E.
    apply map_lookup_filter_Some in H1 as [H1 B1]. apply map_lookup_filter_Some in H2 as [H2 B2]. cbn in B1, B2.
    assert (k1 = k2) as -> by by eapply relocate_below. rewrite H1 in H2. by injection H2 as ->. }
  set (A := list_to_map _ !! k). assert (HA : A = if decide (below q k) then d !! (p ++ drop (length q) k)%list else None).
  { unfold A. clear A. destruct (decide (below q k)) as [[l ->]|Hk].
    - rewrite drop_app_length. destruct (d !! (p ++ l)%list) as [n|] eqn:E.
      + apply elem_of_list_to_map_1; [done|]. apply list_elem_of_fmap. exists (p ++ l, n)%list. cbn. split.
        * unfold relocate. by rewrite drop_app_length.
        * apply elem_of_map_to_list, map_lookup_filter_Some. split; [done|apply below_app].
      + apply not_elem_of_list_to_map_1. intros (k1 & n1 & E1 & H & [l2 ->])%moved_keys.
        unfold relocate in E1. rewrite drop_app_length in E1. apply app_inv_head in E1. subst l2. by rewrite H in E.
    - apply not_elem_of_list_to_map_1. intros (k1 & n1 & E1 & _)%moved_keys. apply Hk. rewrite E1. apply below_app. }
  rewrite HA. rewrite map_lookup_filter. destruct (decide (below q k)) as [Hk|Hk].
  - destruct (d !! (p ++ drop (length q) k)%list), (d !! k); cbn; try done.
    all: rewrite option_guard_False by tauto; done.
  - destruct (decide (below p k)) as [Hk2|Hk2], (d !! k); cbn; try done.
    + by rewrite option_guard_False by tauto.
    + by rewrite option_guard_True by tauto.
Qed.

(** * An executable disk: one answer of the healthy disk of ADisk.v to each
    call, to run programs on concrete disks. *)

(** ** Decidable conditions *)

#[export] Instance is_file_dec (d : disk) (p : path) : Decision (is_file d p).
Proof. refine (match d !! p as n return d !! p = n → _ with Some (File x) => λ E, left _ | _ => λ E, right _ end eq_refl); [by intros [x Hx]; congruence|by exists x|by intros [x Hx]; congruence]. Defined.

#[export] Instance is_folder_dec (d : disk) (p : path) : Decision (is_folder d p).
Proof. apply _. Defined.

Lemma clear_way_prefixes (p : path) (d : disk) : clear_way p d ↔ Forall (λ k, ¬ is_file d (take k p)) (seq 0 (S (length p))).
Proof.
  rewrite Forall_forall. split.
  - intros H k _. apply H. eexists. symmetry. apply take_drop.
  - intros H q [l ->]. specialize (H (length q)). rewrite take_app_length in H. apply H, elem_of_seq. rewrite length_app. lia.
Qed.
#[export] Instance clear_way_dec (p : path) (d : disk) : Decision (clear_way p d).
Proof. refine (cast_if (decide (Forall (λ k, ¬ is_file d (take k p)) (seq 0 (S (length p)))))); by rewrite clear_way_prefixes. Defined.

Lemma childless_keys (p : path) (d : disk) : childless p d ↔ map_Forall (λ k (_ : node), ¬ (below p k ∧ k ≠ p)) d.
Proof.
  split.
  - intros H k n Hk [H1 H2]. rewrite (H k H1 H2) in Hk. done.
  - intros H k H1 H2. destruct (d !! k) as [n|] eqn:E; [|done]. exfalso. by apply (H k n E).
Qed.
#[export] Instance childless_dec (p : path) (d : disk) : Decision (childless p d).
Proof. refine (cast_if (decide (map_Forall (λ k (_ : node), ¬ (below p k ∧ k ≠ p)) d))); by rewrite childless_keys. Defined.

#[export] Instance may_move_dec (p q : path) (d : disk) : Decision (may_move p q d).
Proof. unfold may_move. destruct (d !! p) as [[|x]|]; apply _. Defined.

(** ** Answers *)

Definition when {A : Type} (P : Prop) `{Decision P} (a : A) : option A := if decide P then Some a else None.

(** The answer to a call that can succeed, and to a question. *)
Definition hanswer (d : disk) (o : aop) : option (aans o * disk) :=
  match o return option (aans o * disk) with
  | MkdirAll p => when (clear_way (comps p) d) (true, mkdirs (comps p) d)
  | CreateExcl p =>
      when (d !! comps p = None ∧ comps p ≠ [] ∧ is_folder d (removelast (comps p))) (true, <[comps p := File []]> d)
  | OpenAppend p => Some (bool_decide (is_file d (comps p)), d)
  | OpenRead p => Some (bool_decide (is_file d (comps p)), d)
  | Write p x => Some (length x, append (comps p) x d)
  | Rename p q => when (may_move (comps p) (comps q) d) (true, move (comps p) (comps q) d)
  | ADisk.Remove p =>
      match d !! comps p with
      | None => Some (NotExist, d)
      | Some _ => when (childless (comps p) d) (Done, delete (comps p) d)
      end
  | RemoveAll p => Some (true, removed (comps p) d)
  | Stat p =>
      match d !! comps p with
      | Some (File x) => Some (Found (false, Z.of_nat (length x)), d)
      | Some Folder => Some (Found (true, 0%Z), d)
      | None => when (comps p ≠ []) (Missing, d)
      end
  | ReadFile p =>
      match d !! comps p with
      | Some (File x) => Some (Found x, d)
      | Some Folder => Some (Broken, d)
      | None => Some (Missing, d)
      end
  | ListDir p => Some (Found [], d)
  | Walk p => Some ([], d)
  | Rand => Some (Some (repeat 0%Z 16), d)
  | Now => Some (0%Z, d)
  | Expired => Some (false, d)
  | TryLock _ => Some (true, d)
  | StatDev _ => Some (Some 0%Z, d)
  | Chmod _ _ | Sync _ | Close _ => Some (true, d)
  end.

Lemma when_some {A : Type} (P : Prop) `{Decision P} (a b : A) : when P a = Some b → P ∧ a = b.
Proof. unfold when. case_decide; [|done]. by intros [= ->]. Qed.

Lemma hanswer_step (d : disk) (o : aop) (r : aans o) (d' : disk) : hanswer d o = Some (r, d') → hstep d o r d'.
Proof.
  destruct o; cbn [hanswer hstep dstep aans]; intros E.
  - apply when_some in E as [H [= <- <-]]. done.
  - by injection E as <- <-.
  - apply when_some in E as [(H1 & H2 & H3) [= <- <-]]. done.
  - injection E as <- <-. rewrite bool_decide_eq_true. done.
  - injection E as <- <-. rewrite bool_decide_eq_true. done.
  - injection E as <- <-. by rewrite take_ge.
  - by injection E as <- <-.
  - by injection E as <- <-.
  - apply when_some in E as [H [= <- <-]]. done.
  - destruct (d !! comps p) as [n|] eqn:En.
    + apply when_some in E as [H [= <- <-]]. split_and!; done.
    + injection E as <- <-. split_and!; [done|done|by intros []|done].
  - injection E as <- <-. done.
  - destruct (d !! comps p) as [[|x]|] eqn:En; [| |apply when_some in E as [H [= <- <-]]; by split_and!].
    + injection E as <- <-. split_and!; [done|by right|done].
    + injection E as <- <-. split_and!; [done|by exists x|done].
  - destruct (d !! comps p) as [[|x]|] eqn:En; injection E as <- <-; by rewrite ?En.
  - injection E as <- <-. done.
  - by injection E as <- <-.
  - by injection E as <- <-.
  - injection E as <- <-. split; [|done]. split; [done|]. intros b [= <-]. split; [done|]. by repeat constructor.
  - by injection E as <- <-.
  - by injection E as <- <-.
  - by injection E as <- <-.
Qed.

(** A program's run on such a disk. *)
Fixpoint simulate {A : Type} (p : prog A) (d : disk) : option (disk * A) :=
  match p with
  | Ret a => Some (d, a)
  | Do o k => match hanswer d o with Some (r, d') => simulate (k r) d' | None => None end
  end.

Lemma simulate_exec {A : Type} (p : prog A) (d d' : disk) (a : A) : simulate p d = Some (d', a) → exec hstep p d d' a.
Proof.
  revert d. induction p as [a0|o k IH]; intros d; cbn [simulate].
  - intros [= <- <-]. constructor.
  - destruct (hanswer d o) as [[r d1]|] eqn:E; [|done]. intros H. econstructor; [by apply hanswer_step|by apply IH].
Qed.

Lemma exec_dstep {A : Type} (p : prog A) (d d' : disk) (a : A) : exec hstep p d d' a → exec dstep p d d' a.
Proof. induction 1; econstructor; [by apply hstep_dstep|done]. Qed.
