(* ===== verification/AMeta.v ===== *)
(** internal/ingest/archives/metadata.go: the Upload-Metadata header of an
    archive upload, and what is accepted of it.

    An error is one of the sentinels the callers tell apart, with the name of
    the field. *)
From S2P Require Import Prelude GoStrings GoPath Utf8 JsonString EDecode DStaging.
Local Open Scope string_scope.

(** ** Data *)

Record UploadMeta := mkUploadMeta {
  UArchiveID : string;
  UArchiveFilename : string;
  USubtreeRelativePath : string;
  UMediaType : string;
  UMatcherID : string;
  UProvider : string;
  USHA256 : string;
  USizeBytes : Z;
  UAcqProvider : string;
  UAcqAccountID : string;
  UAcqAuthMethod : string;
  UDataSubject : string;
  UAudience : option (list string);
}.

Inductive MediaShape := MediaRaw | MediaTar.
#[export] Instance MediaShape_eq_dec : EqDecision MediaShape.
Proof. solve_decision. Defined.

(** mediaAllowList *)
Definition mediaAllowList : gmap string MediaShape :=
  list_to_map
    [("archive/mbox", MediaRaw); ("archive/google-takeout-subtree", MediaTar);
     ("archive/generic-tarball", MediaTar); ("archive/imap-export", MediaRaw);
     ("archive/walhelm-export", MediaTar); ("archive/recognizer-scan", MediaTar)].

(** requiredProvenance *)
Definition requiredProvenance (mediaType : string) : bool := String.eqb mediaType "archive/walhelm-export".

(** Shape; the zero shape is no shape. *)
Definition Shape (m : UploadMeta) : option MediaShape := mediaAllowList !! UMediaType m.

Inductive MetaErr :=
| MetadataMissing (field : string)
| MetadataInvalid (field : string)
| MetadataReservedKey (key : string)
| MetadataUnknownMediaType (mediaType : string)
| MetadataSizeMismatch
| MetadataTooLong.

(** ** The regular expressions *)

Fixpoint all_chars (P : ascii → bool) (s : string) : bool :=
  match s with EmptyString => true | String a r => P a && all_chars P r end.

Definition char_in (lo hi : ascii) (a : ascii) : bool := within (byte_of lo) (byte_of hi) (byte_of a).
Definition lower : ascii → bool := char_in "a" "z".
Definition alnum_char (a : ascii) : bool := lower a || char_in "A" "Z" a || is_digit a.
(** [a-zA-Z0-9._-] *)
Definition id_char (a : ascii) : bool := alnum_char a || Ascii.eqb a "." || Ascii.eqb a "_" || Ascii.eqb a "-".
Definition long_within (lo hi : nat) (s : string) : bool :=
  (lo <=? String.length s)%nat && (String.length s <=? hi)%nat.

Definition archiveIDRe (s : string) : bool := all_chars id_char s && long_within 1 128 s.
Definition archiveFilenameRe (s : string) : bool := all_chars id_char s && negb (String.eqb s "").
Definition matcherIDRe (s : string) : bool :=
  all_chars (λ a, id_char a || Ascii.eqb a "/") s && long_within 1 256 s.
Definition providerRe (s : string) : bool :=
  match s with
  | EmptyString => false
  | String a r => lower a && all_chars (λ c, lower c || is_digit c || Ascii.eqb c "-") r && long_within 0 63 r
  end.
Definition sha256Re (s : string) : bool :=
  all_chars (λ c, is_digit c || char_in "a" "f" c) s && (String.length s =? 64)%nat.

(** strings.Trim(s, ".") == "" *)
Definition only_dots (s : string) : bool := all_chars (Ascii.eqb ".") s.

Definition tab : ascii := ascii_of_nat 9.
Definition hasControlChar (s : string) : bool :=
  negb (all_chars (λ a, negb ((byte_of a <? 32)%Z && negb (Ascii.eqb a tab))) s).

(** ** decodeMetadataPairs *)

(** base64.StdEncoding.DecodeString, which skips line breaks. *)
Definition b64_decode (s : string) : option string :=
  string_of_bytes <$> decode64 std_value true (List.filter (λ b, negb (Z.eqb b 10) && negb (Z.eqb b 13)) (bytes_of_string s)).

(** What precedes the first space and what follows it. *)
Fixpoint cut_space (s : string) : option (string * string) :=
  match s with
  | EmptyString => None
  | String a r =>
      if Ascii.eqb a " " then Some ("", r)
      else match cut_space r with Some (k, v) => Some (String a k, v) | None => None end
  end.

Fixpoint decode_pairs (out : gmap string string) (kvs : list string) : res MetaErr (gmap string string) :=
  match kvs with
  | [] => Ok out
  | kv :: rest =>
      let kv := trim_space kv in
      if String.eqb kv "" then decode_pairs out rest
      else match cut_space kv with
      | None => Err (MetadataInvalid "pair missing space")
      | Some (key, val) =>
          if String.eqb key "" then Err (MetadataInvalid "empty key")
          else match b64_decode val with
          | None => Err (MetadataInvalid (key ++ " base64"))
          | Some decoded => decode_pairs (<[key := decoded]> out) rest
          end
      end
  end.

Definition decodeMetadataPairs (header : string) : res MetaErr (gmap string string) :=
  decode_pairs ∅ (split_on "," header).

(** ** ParseUploadMetadata *)

Definition uploadMetadataMaxBytes : nat := 4096.
Definition archiveFilenameMaxBytes : nat := 256.
Definition subtreeRelativePathMaxBytes : nat := 1024.
Definition provenanceStringMaxBytes : nat := 256.

(** raw[key], empty when absent *)
Definition field (raw : gmap string string) (key : string) : string := default "" (raw !! key).

Definition from_raw (raw : gmap string string) (size : Z) : UploadMeta :=
  mkUploadMeta (field raw "archive_id") (field raw "archive_filename") (field raw "subtree_relative_path")
    (field raw "media_type") (field raw "matcher_id") (field raw "provider") (field raw "sha256") size
    (field raw "acq_provider") (field raw "acq_account_id") (field raw "acq_auth_method") (field raw "data_subject")
    None.

Definition set_audience (a : option (list string)) (m : UploadMeta) : UploadMeta :=
  mkUploadMeta (UArchiveID m) (UArchiveFilename m) (USubtreeRelativePath m) (UMediaType m) (UMatcherID m)
    (UProvider m) (USHA256 m) (USizeBytes m) (UAcqProvider m) (UAcqAccountID m) (UAcqAuthMethod m)
    (UDataSubject m) a.

(** A check of the function: the error it returns, if it does. *)
Definition require {E : Type} (c : bool) (e : E) : res E () := if c then Ok () else Err e.

Definition bounded_text (s : string) : bool :=
  negb ((provenanceStringMaxBytes <? String.length s)%nat || hasControlChar s).

Definition check_provenance (m : UploadMeta) : res MetaErr () :=
  (_ <~ require (negb (String.eqb (UAcqProvider m) "")) (MetadataMissing "acq_provider");;
   _ <~ require (providerRe (UAcqProvider m)) (MetadataInvalid "acq_provider");;
   _ <~ require (negb (String.eqb (UAcqAccountID m) "")) (MetadataMissing "acq_account_id");;
   _ <~ require (bounded_text (UAcqAccountID m)) (MetadataInvalid "acq_account_id");;
   _ <~ require (negb (String.eqb (UAcqAuthMethod m) "")) (MetadataMissing "acq_auth_method");;
   _ <~ require (String.eqb (UAcqAuthMethod m) "browser_session") (MetadataInvalid "acq_auth_method");;
   _ <~ require (negb (String.eqb (UDataSubject m) "")) (MetadataMissing "data_subject");;
   require (bounded_text (UDataSubject m)) (MetadataInvalid "data_subject"))%gb.

Definition filename_ok (f : string) : bool :=
  archiveFilenameRe f && negb (contains ".." f) && (String.length f <=? archiveFilenameMaxBytes)%nat.

Definition subtree_ok (p : string) : bool :=
  valid (bytes_of_string p) && no_char "000" p && (String.length p <=? subtreeRelativePathMaxBytes)%nat
  && negb (hasControlChar p).

Definition check_fields (m : UploadMeta) : res MetaErr () :=
  (_ <~ require (archiveIDRe (UArchiveID m)) (MetadataInvalid "archive_id");;
   _ <~ require (negb (only_dots (UArchiveID m))) (MetadataInvalid "archive_id must not consist only of dots");;
   _ <~ require (filename_ok (UArchiveFilename m)) (MetadataInvalid "archive_filename");;
   _ <~ require (subtree_ok (USubtreeRelativePath m)) (MetadataInvalid "subtree_relative_path");;
   _ <~ require (matcherIDRe (UMatcherID m) && negb (hasControlChar (UMatcherID m))) (MetadataInvalid "matcher_id");;
   _ <~ require (providerRe (UProvider m)) (MetadataInvalid "provider");;
   _ <~ require (sha256Re (USHA256 m)) (MetadataInvalid "sha256");;
   _ <~ require (bool_decide (is_Some (Shape m))) (MetadataUnknownMediaType (UMediaType m));;
   if requiredProvenance (UMediaType m) then check_provenance m else Ok ())%gb.

Section parse.
Context (Quote : string → string).

Definition parse_audience (raw : gmap string string) (m : UploadMeta) : res MetaErr UploadMeta :=
  let audRaw := field raw "audience" in
  if String.eqb audRaw "" then Ok m
  else
    let tokens := split_on "," audRaw in
    match ValidateAudience Quote (Some tokens) (negb (String.eqb (UDataSubject m) "")) with
    | Err e => Err (MetadataInvalid ("audience: " ++ e))
    | Ok _ => Ok (set_audience (Some tokens) m)
    end.

Definition ParseUploadMetadata (header : string) (uploadLength : Z) : res MetaErr UploadMeta :=
  if (uploadMetadataMaxBytes <? String.length header)%nat then Err MetadataTooLong
  else
    (raw <~ decodeMetadataPairs header;;
     _ <~ require (bool_decide (raw !! "delivered_by" = None)) (MetadataReservedKey "delivered_by");;
     _ <~ require (bool_decide (raw !! "delivered_at" = None)) (MetadataReservedKey "delivered_at");;
     let sizeStr := field raw "size_bytes" in
     _ <~ require (negb (String.eqb sizeStr "")) (MetadataMissing "size_bytes");;
     match atoi sizeStr with
     | None => Err (MetadataInvalid "size_bytes")
     | Some sz =>
         if (sz <? 0)%Z then Err (MetadataInvalid "size_bytes")
         else if negb (sz =? uploadLength)%Z then Err MetadataSizeMismatch
         else
           (let m := from_raw raw sz in
            _ <~ check_fields m;;
            parse_audience raw m)
     end)%gb.
End parse.

(** ** What is accepted *)

Record good_fields (m : UploadMeta) : Prop := {
  gf_id : archiveIDRe (UArchiveID m) = true ∧ only_dots (UArchiveID m) = false;
  gf_filename : filename_ok (UArchiveFilename m) = true;
  gf_subtree : subtree_ok (USubtreeRelativePath m) = true;
  gf_matcher : matcherIDRe (UMatcherID m) = true;
  gf_provider : providerRe (UProvider m) = true;
  gf_sha256 : sha256Re (USHA256 m) = true;
  gf_shape : is_Some (Shape m);
  gf_provenance : requiredProvenance (UMediaType m) = true →
    providerRe (UAcqProvider m) = true ∧ UAcqAccountID m ≠ "" ∧ bounded_text (UAcqAccountID m) = true ∧
    UAcqAuthMethod m = "browser_session" ∧ UDataSubject m ≠ "" ∧ bounded_text (UDataSubject m) = true;
}.

Lemma require_ok {E} c (e : E) : require c e = Ok () ↔ c = true.
Proof. by destruct c. Qed.

Lemma require_bind {E A} c (e : E) (k : () → res E A) a :
  res_bind (require c e) k = Ok a ↔ c = true ∧ k () = Ok a.
Proof. destruct c; cbn; naive_solver. Qed.

Lemma all_chars_forall P s : all_chars P s = true ↔ ∀ a, a ∈ String.list_ascii_of_string s → P a = true.
Proof.
  induction s as [|a s IH]; cbn; [by split; [intros _ ? ?%elem_of_nil|]|].
  rewrite andb_true_iff, IH. setoid_rewrite elem_of_cons. naive_solver.
Qed.

Lemma all_chars_impl (P Q : ascii → bool) s : (∀ a, P a = true → Q a = true) → all_chars P s = true → all_chars Q s = true.
Proof. rewrite !all_chars_forall. auto. Qed.

Lemma id_char_calm a : id_char a || Ascii.eqb a "/" = true → (32 <= byte_of a)%Z.
Proof. revert a. intros [[] [] [] [] [] [] [] []]; by vm_compute. Qed.

Lemma matcher_calm s : matcherIDRe s = true → hasControlChar s = false.
Proof.
  intros [H _]%andb_true_iff. unfold hasControlChar. apply negb_false_iff. revert H. apply all_chars_impl.
  intros a Ha%id_char_calm. apply negb_true_iff, andb_false_iff. left. lia.
Qed.

Lemma check_provenance_ok m :
  check_provenance m = Ok () ↔
  providerRe (UAcqProvider m) = true ∧ UAcqAccountID m ≠ "" ∧ bounded_text (UAcqAccountID m) = true ∧
  UAcqAuthMethod m = "browser_session" ∧ UDataSubject m ≠ "" ∧ bounded_text (UDataSubject m) = true.
Proof.
  unfold check_provenance. rewrite !require_bind, require_ok, !negb_true_iff, !String.eqb_neq, String.eqb_eq.
  split; [naive_solver|]. intros (H1 & H2 & H3 & H4 & H5 & H6). rewrite H4. split_and!; try done. by intros E; rewrite E in H1.
Qed.

Lemma check_fields_ok m : check_fields m = Ok () ↔ good_fields m.
Proof.
  unfold check_fields. rewrite !require_bind, andb_true_iff, !negb_true_iff, bool_decide_eq_true.
  assert (Hp : (if requiredProvenance (UMediaType m) then check_provenance m else Ok ()) = Ok () ↔
    (requiredProvenance (UMediaType m) = true → check_provenance m = Ok ())) by (destruct (requiredProvenance _); naive_solver).
  rewrite Hp. rewrite check_provenance_ok. split.
  - intros (H1 & H2 & H3 & H4 & [H5 _] & H6 & H7 & H8 & H9). by constructor.
  - intros [[H1 H2] H3 H4 H5 H6 H7 H8 H9]. split_and!; try done. by apply matcher_calm.
Qed.

Lemma id_chars_no_slash s : all_chars id_char s = true → no_char slash s = true.
Proof.
  induction s as [|a s IH]; [done|]. cbn. intros [Ha Hs]%andb_true_iff.
  rewrite (IH Hs), andb_true_r. apply negb_true_iff. revert Ha. clear. destruct a as [[] [] [] [] [] [] [] []]; by vm_compute.
Qed.

(** An accepted archive id is the name of one entry of a folder. *)
Lemma good_id_plain s : archiveIDRe s = true → only_dots s = false → plain_name s = true.
Proof.
  intros [Hc Hl]%andb_true_iff Hd. apply plain_name_spec. split_and!.
  1-3: intros ->; by (vm_compute in Hd || vm_compute in Hl).
  by apply id_chars_no_slash.
Qed.

(** An accepted file name is such a name, or a single dot. *)
Lemma good_filename_plain s : filename_ok s = true → s ≠ "." → plain_name s = true.
Proof.
  intros [[[Hc He]%andb_true_iff Hd]%andb_true_iff _]%andb_true_iff Hdot. apply plain_name_spec. split_and!; [|done| |].
  - intros ->. done.
  - intros ->. done.
  - by apply id_chars_no_slash.
Qed.

Section accepted.
Context (Quote : string → string).
Abbreviation ParseUploadMetadata := (ParseUploadMetadata Quote).

Definition audience_rules (raw : gmap string string) (m : UploadMeta) : Prop :=
  if String.eqb (field raw "audience") "" then UAudience m = None
  else UAudience m = Some (split_on "," (field raw "audience")) ∧
       good_audience (negb (String.eqb (UDataSubject m) "")) (split_on "," (field raw "audience")).

Lemma parse_audience_ok raw m m' :
  parse_audience Quote raw m = Ok m' ↔ ∃ a, m' = set_audience a m ∧ (UAudience m = None → audience_rules raw m') ∧
    (String.eqb (field raw "audience") "" = true → a = UAudience m) ∧
    (String.eqb (field raw "audience") "" = false → audience_rules raw m').
Proof.
  unfold parse_audience, audience_rules. destruct (String.eqb (field raw "audience") "") eqn:E.
  - split; [intros [= <-]; exists (UAudience m); by destruct m|].
    intros (a & -> & _ & Ha & _). rewrite (Ha eq_refl). by destruct m.
  - pose proof (ValidateAudience_ok Quote (Some (split_on "," (field raw "audience"))) (negb (String.eqb (UDataSubject m) ""))) as Hv.
    destruct (ValidateAudience _ _ _) as [[]|e].
    + assert (Hg : good_audience (negb (String.eqb (UDataSubject m) "")) (split_on "," (field raw "audience"))).
      { by apply (proj1 Hv). }
      split; [intros [= <-]; by exists (Some (split_on "," (field raw "audience")))|].
      intros (a & -> & _ & _ & Ha). destruct (Ha eq_refl) as [E2 _]. cbn in E2. by rewrite E2.
    + split; [done|]. intros (a & -> & _ & _ & Ha). destruct (Ha eq_refl) as [_ Hg]. cbn in Hg.
      cut (is_ok (E := string) (A := ()) (Err e) = true); [done|]. apply Hv. by intros ? [= <-].
Qed.

Lemma parse_good (header : string) (n : Z) (m : UploadMeta) : ParseUploadMetadata header n = Ok m → good_fields m.
Proof.
  unfold AMeta.ParseUploadMetadata. destruct (_ <? _)%nat; [done|]. destruct (decodeMetadataPairs header) as [raw|]; [|done].
  cbn [res_bind]. rewrite !require_bind. intros (_ & _ & _ & H). destruct (atoi _) as [sz|]; [|done].
  destruct (sz <? 0)%Z; [done|]. destruct (sz =? n)%Z; [|done]. cbn [negb] in H.
  destruct (check_fields _) as [[]|] eqn:Ec; [|done]. apply check_fields_ok in Ec.
  apply parse_audience_ok in H as (a & -> & _). destruct Ec. by constructor.
Qed.

(** An upload's metadata header is accepted exactly when it has at most
    4096 bytes, decodes into pairs without the two keys the server sets,
    declares as its size the length of the upload, has good fields (an
    archive id and a file name from a safe alphabet, a known media type, a
    hexadecimal hash, the provenance its media type requires) and an
    audience that obeys the rules; and then the metadata are those pairs. *)
Theorem upload_metadata_accepted_exactly (header : string) (n : Z) (m : UploadMeta) :
  ParseUploadMetadata header n = Ok m ↔
  (String.length header ≤ 4096)%nat ∧
  ∃ raw, decodeMetadataPairs header = Ok raw ∧ raw !! "delivered_by" = None ∧ raw !! "delivered_at" = None ∧
    atoi (field raw "size_bytes") = Some n ∧ (0 ≤ n)%Z ∧
    m = set_audience (UAudience m) (from_raw raw n) ∧ good_fields m ∧ audience_rules raw m.
Proof.
  unfold AMeta.ParseUploadMetadata. destruct (Nat.ltb_spec uploadMetadataMaxBytes (String.length header)) as [Hl|Hl].
  { split; [done|]. intros [H _]. unfold uploadMetadataMaxBytes in Hl. lia. }
  destruct (decodeMetadataPairs header) as [raw|e]; cbn [res_bind].
  2: { split; [done|]. by intros (_ & raw & [=] & _). }
  rewrite !require_bind, !bool_decide_eq_true, negb_true_iff, String.eqb_neq.
  assert (Hg : ∀ a, good_fields (set_audience a (from_raw raw n)) ↔ good_fields (from_raw raw n)).
  { intros a. split; intros []; by constructor. }
  destruct (atoi (field raw "size_bytes")) as [sz|] eqn:Ez.
  2: { split; [by intros (_ & _ & _ & [=])|]. intros (_ & raw' & [= <-] & _ & _ & H & _). congruence. }
  destruct (Z.ltb_spec sz 0) as [H0|H0].
  { split; [by intros (_ & _ & _ & [=])|]. intros (_ & raw' & [= <-] & _ & _ & H & H' & _). rewrite Ez in H. injection H as ->. lia. }
  destruct (Z.eqb_spec sz n) as [->|Hn]; cbn [negb].
  2: { split; [by intros (_ & _ & _ & [=])|]. intros (_ & raw' & [= <-] & _ & _ & H & _). congruence. }
  split.
  - intros (H1 & H2 & H3 & H4). destruct (check_fields _) as [[]|] eqn:Ec; [|done]. apply check_fields_ok in Ec.
    apply parse_audience_ok in H4 as (a & -> & Ha & _). split; [unfold uploadMetadataMaxBytes in Hl; lia|].
    exists raw. split_and!; try done; by apply Hg || by apply Ha.
  - intros (_ & raw' & [= <-] & H1 & H2 & H3 & H4 & Hm & Hf & Ha). split_and!; try done.
    { intros E. by rewrite E in Ez. }
    rewrite Hm in Hf. apply Hg, check_fields_ok in Hf. rewrite Hf. cbn [res_bind]. apply parse_audience_ok.
    exists (UAudience m). split_and!; try done. intros E. unfold audience_rules in Ha. by rewrite E in Ha.
Qed.
End accepted.

(** ** Round trip of the pairs *)

Definition b64 (v : string) : string := string_of_bytes (encode64 (bytes_of_string v)).
Definition write_pair (kv : string * string) : string := kv.1 ++ " " ++ b64 kv.2.
Definition write_pairs (kvs : list (string * string)) : string := join "," (write_pair <$> kvs).

(** A key that a header can carry. *)
Definition header_key (k : string) : Prop := k ≠ "" ∧ all_visible k = true ∧ no_char "," k = true.

Lemma encoded_symbols p : Forall is_byte p → Forall (λ b, within 43 122 b = true ∧ b ≠ 44%Z) (encode64 p).
Proof.
  intros Hp. destruct (encode64_shape p Hp) as (w & pad & -> & Hw & Hpad & _). apply Forall_app. split.
  - eapply Forall_impl; [exact Hw|]. intros b Hb. cbn in Hb. unfold std_symbol, alnum in Hb.
    rewrite !orb_true_iff, !within_spec, !Z.eqb_eq in Hb. rewrite within_spec. lia.
  - repeat (apply elem_of_cons in Hpad as [->|Hpad]; [by repeat constructor|]). by apply elem_of_nil in Hpad.
Qed.

Lemma b64_decode_b64 v : b64_decode (b64 v) = Some v.
Proof.
  unfold b64_decode, b64. pose proof (bytes_of_string_bytes v) as Hv. pose proof (encoded_symbols _ Hv) as He.
  rewrite bytes_of_string_of_bytes.
  2: { eapply Forall_impl; [exact He|]. intros b [Hb _]. apply within_spec in Hb. unfold is_byte. lia. }
  rewrite List.forallb_filter_id.
  2: { apply forallb_Forall. eapply Forall_impl; [exact He|]. intros b [Hb _]. apply within_spec in Hb.
       apply andb_true_iff. rewrite !negb_true_iff, !Z.eqb_neq. lia. }
  rewrite decode64_encode by done. cbn. by rewrite string_of_bytes_of_string.
Qed.

Lemma symbols_visible l :
  Forall (λ b, within 43 122 b = true ∧ b ≠ 44%Z) l →
  all_visible (string_of_bytes l) = true ∧ no_char "," (string_of_bytes l) = true.
Proof.
  induction 1 as [|b l [Hb Hc] _ [IH1 IH2]]; [done|]. rewrite string_of_bytes_cons. cbn [all_visible no_char].
  rewrite IH1, IH2, !andb_true_r. apply within_spec in Hb. split.
  - unfold visible, byte_of. rewrite N_ascii_embedding, Z2N.id by lia. apply andb_true_iff. rewrite !Z.leb_le. lia.
  - apply negb_true_iff, Ascii.eqb_neq. intros E%(f_equal (λ a, Z.of_N (N_of_ascii a))).
    rewrite N_ascii_embedding, Z2N.id in E by lia. done.
Qed.

Lemma b64_visible v : all_visible (b64 v) = true ∧ no_char "," (b64 v) = true ∧ (v ≠ "" → b64 v ≠ "").
Proof.
  pose proof (encoded_symbols _ (bytes_of_string_bytes v)) as [H1 H2]%symbols_visible. split_and!; [done|done|].
  intros Hv. destruct v as [|a v]; [done|]. unfold b64.
  change (bytes_of_string (String a v)) with (byte_of a :: bytes_of_string v).
  by destruct (bytes_of_string v) as [|? [|? ?]]; cbn [encode64]; rewrite string_of_bytes_cons.
Qed.

Lemma list_ascii_of_string_app a b :
  String.list_ascii_of_string (a ++ b) = (String.list_ascii_of_string a ++ String.list_ascii_of_string b)%list.
Proof. induction a as [|x a IH]; [done|]. change (x :: String.list_ascii_of_string (a ++ b) = x :: (String.list_ascii_of_string a ++ String.list_ascii_of_string b)%list). by rewrite IH. Qed.

(** A text between two visible ends. *)
Lemma trim_space_between a m b : a ≠ "" → b ≠ "" → all_visible a = true → all_visible b = true → trim_space (a ++ m ++ b) = a ++ m ++ b.
Proof.
  intros Ha Hb Va%all_visible_list Vb%all_visible_list. destruct a as [|x a]; [done|].
  destruct (String.list_ascii_of_string b) as [|z l _] eqn:E using rev_ind.
  { by destruct b. }
  apply Forall_app in Vb as [_ [Hz _]%Forall_cons]. cbn in Va. apply Forall_cons in Va as [Hx _].
  pose proof (trim_space_ends x (String.list_ascii_of_string a ++ String.list_ascii_of_string m ++ l) z Hx Hz) as H.
  cbn zeta in H. rewrite <- !app_assoc, <- E in H.
  assert (Hs : String.string_of_list_ascii (x :: String.list_ascii_of_string a ++ String.list_ascii_of_string m ++ String.list_ascii_of_string b)
               = String x a ++ m ++ b).
  { rewrite <- (String.string_of_list_ascii_of_string (String x a ++ m ++ b)). f_equal. cbn. f_equal.
    by rewrite !list_ascii_of_string_app. }
  by rewrite Hs in H.
Qed.

Lemma cut_space_key k v : all_visible k = true → cut_space (k ++ String " " v) = Some (k, v).
Proof.
  induction k as [|a k IH]; [done|]. cbn [all_visible]. intros [Ha Hk]%andb_true_iff.
  change (String a k ++ String " " v) with (String a (k ++ String " " v)). cbn [cut_space]. rewrite IH by done.
  destruct (Ascii.eqb_spec a " ") as [->|_]; [by vm_compute in Ha|done].
Qed.

(** What a client writes as Upload-Metadata is read back: the header
    decodes into exactly the pairs it was written from, the last value of a
    key that is given more than once.  A pair is a key of visible characters
    without a comma and a value that is not empty, of any bytes. *)
Theorem metadata_pairs_round_trip (kvs : list (string * string)) :
  Forall (λ kv, header_key kv.1 ∧ kv.2 ≠ "") kvs →
  decodeMetadataPairs (write_pairs kvs) = Ok (foldl (λ out kv, <[kv.1 := kv.2]> out) ∅ kvs).
Proof.
  intros Hkvs. unfold decodeMetadataPairs, write_pairs. destruct kvs as [|kv0 kvs0]; [done|].
  rewrite split_on_join; [|done|].
  - generalize (∅ : gmap string string). revert Hkvs. generalize (kv0 :: kvs0).
    induction 1 as [|[k v] kvs [(Hk & Hv & Hc) Hne] _ IH]; intros out; [done|].
    change (write_pair <$> (k, v) :: kvs) with ((k ++ " " ++ b64 v) :: (write_pair <$> kvs)).
    cbn [foldl decode_pairs fst snd]. cbn [fst snd] in *. destruct (b64_visible v) as (V1 & _ & V2). rewrite trim_space_between by auto.
    rewrite (proj2 (String.eqb_neq (k ++ _) "")) by (by destruct k).
    change (" " ++ b64 v) with (String " " (b64 v)). rewrite cut_space_key by done. rewrite (proj2 (String.eqb_neq k "")) by done. by rewrite b64_decode_b64, IH.
  - apply Forall_fmap. eapply Forall_impl; [exact Hkvs|]. intros [k v] [(_ & _ & Hc) _]. cbn in *.
    unfold write_pair. cbn [fst snd]. rewrite !no_char_app, Hc. cbn. by apply b64_visible.
Qed.
