(* ===== verification/ATar.v ===== *)
(** internal/ingest/archives/untar.go: the extraction of an uploaded tar
    archive, as a program over the disk.

    The archive is what archive/tar's reader makes of it: for each entry the
    header and what the entry's reader gives, which may fail before the end.
    The writes that io.Copy makes for one entry are one call. *)
From S2P Require Import Prelude GoStrings GoPath Utf8 Effects ADisk.
Local Open Scope string_scope.
Local Open Scope prog_scope.

Definition untarPathMax : nat := 4096.
Definition untarNameMax : nat := 255.
Definition untarMaxEntries : Z := 1000000.
Definition untarSizeFactor : Z := 2.
Definition untarFileMode : Z := 384.  (* 0600 *)
Definition untarDirMode : Z := 448.   (* 0700 *)


(** ** The archive *)

Definition TypeReg : Z := 48.
Definition TypeDir : Z := 53.

Record TarEntry := mkEntry {
  TName : string;
  TTypeflag : Z;
  TSize : Z;
  TPAXKeys : list string;
  TBody : bytes;       (* what the reader gives *)
  TBodyFails : bool;   (* whether it then fails *)
}.

(** How the archive ends after its entries: regularly, or in an error. *)
Record TarStream := mkStream { Entries : list TarEntry; Truncated : bool }.

(** The errors, as far as ClassifyReason and its callers tell them apart. *)
Inductive TarErr :=
| TarPaxOverride
| TarTypeflag (t : Z)
| TarNameInvalid
| TarPathTraversal
| TarTooLarge
| TarTooMany
| TarIO (step : string).

Definition ClassifyReason (e : option TarErr) : option string :=
  match e with
  | None => None
  | Some TarPaxOverride => Some "pax_path_override"
  | Some (TarTypeflag _) => Some "typeflag_disallowed"
  | Some TarNameInvalid => Some "name_invalid"
  | Some TarPathTraversal => Some "name_traversal"
  | Some TarTooLarge => Some "size_too_large"
  | Some TarTooMany => Some "entry_count_too_large"
  | Some (TarIO _) => None
  end.

(** ** Names *)

Definition validUntarName (name : string) : bool :=
  negb (String.eqb name "" || (untarPathMax <? String.length name)%nat)
  && no_char "000" name
  && valid (bytes_of_string name)
  && forallb (λ c, negb ((c <? 32)%Z || (c =? 127)%Z)) (bytes_of_string name)
  && forallb (λ comp, (String.length comp <=? untarNameMax)%nat) (split_on slash name).

Definition validateTypeflag (t : Z) : option TarErr :=
  if (t =? TypeReg)%Z || (t =? TypeDir)%Z then None else Some (TarTypeflag t).

(** strings.HasSuffix(name, "/") *)
Definition ends_in_slash (name : string) : bool :=
  match last (String.list_ascii_of_string name) with Some a => Ascii.eqb a slash | None => false end.

(** len(name) >= 2 && name[1] == ':' *)
Definition drive_letter (name : string) : bool :=
  match name with String _ (String c _) => Ascii.eqb c ":" | _ => false end.

Definition hasPathTraversal (name : string) (typeflag : Z) : bool :=
  has_prefix "/" name
  || negb (no_char "\" name)
  || contains "//" name
  || (ends_in_slash name && (typeflag =? TypeReg)%Z)
  || drive_letter name
  || existsb (String.eqb "..") (split_on slash name).

(** filepath.Rel *)
Fixpoint strip_common (b t : list string) : list string * list string :=
  match b, t with
  | x :: b', y :: t' => if String.eqb x y then strip_common b' t' else (b, t)
  | _, _ => (b, t)
  end.

Definition Rel (basepath targpath : string) : option string :=
  let base := Clean basepath in
  let targ := Clean targpath in
  if String.eqb targ base then Some "."
  else
    let base := if String.eqb base "." then "" else base in
    if negb (Bool.eqb (is_rooted base) (is_rooted targ)) then None
    else
      let elems s := filter (λ e, e ≠ "") (split_on slash s) in
      let '(b, t) := strip_common (elems base) (elems targ) in
      match b, t with
      | e :: _, _ :: _ => if String.eqb e ".." then None else Some (join "/" (((λ _, "..") <$> b) ++ t)%list)
      | _, _ => Some (join "/" (((λ _, "..") <$> b) ++ t)%list)
      end.

Example rel_examples :
  (Rel "/a/b" <$> ["/a/b/c/d"; "/a/b"; "/a/c"; "/"; "x"]) = [Some "c/d"; Some "."; Some "../c"; Some "../.."; None]
  ∧ Rel ".." "a" = None ∧ Rel "a" "." = Some "../." ∧ Rel "." "a" = Some "a".
Proof. by vm_compute. Qed.

(** ** Writing one entry *)

Inductive CopyErr := ExceededCap | CopyFailed.

(** writeCapped: the bytes counted as written, and the error. *)
Definition writeCapped (dst : string) (e : TarEntry) (limit : Z) : prog (Z * option CopyErr) :=
  if (limit <? 0)%Z then
    Ret (match TBody e with [] => (0%Z, None) | _ => (1%Z, Some ExceededCap) end)
  else
    let chunk := take (Z.to_nat limit) (TBody e) in
    let! n := match chunk with [] => Ret 0%nat | _ => do_ (Write dst chunk) end in
    if (n <? length chunk)%nat then Ret (Z.of_nat n, Some CopyFailed)
    else match drop (Z.to_nat limit) (TBody e) with
    | probe :: _ => let! _ := do_ (Write dst [probe]) in Ret (Z.of_nat n + 1, Some ExceededCap)%Z
    | [] =>
        if TBodyFails e && (Z.of_nat (length (TBody e)) <? limit)%Z then Ret (Z.of_nat n, Some CopyFailed)
        else Ret (Z.of_nat n, None)
    end.

(** ** Untar *)

Record UntarConfig := mkUntarConfig { DestDir : string; UploadLength : Z; MaxEntries : Z }.

Definition max_entries (cfg : UntarConfig) : Z :=
  if (MaxEntries cfg <=? 0)%Z then untarMaxEntries else MaxEntries cfg.

(** What Untar returns: the entries extracted, the bytes written, and the
    error. *)
Definition untarred : Type := Z * Z * option TarErr.

(** A call whose failure ends the extraction. *)
Definition must {A} (o : prog bool) (fail : A) (k : prog A) : prog A :=
  let! r := o in if r then k else Ret fail.

(** The checks on a header, in order. *)
Definition check_header (e : TarEntry) : option TarErr :=
  if bool_decide ("path" ∈ TPAXKeys e) || bool_decide ("linkpath" ∈ TPAXKeys e) then Some TarPaxOverride
  else match validateTypeflag (TTypeflag e) with
  | Some err => Some err
  | None =>
      if negb (validUntarName (TName e)) then Some TarNameInvalid
      else if hasPathTraversal (TName e) (TTypeflag e) then Some TarPathTraversal
      else None
  end.

Definition destination (cfg : UntarConfig) (e : TarEntry) : string := Join [DestDir cfg; Clean (TName e)].

Definition outside (cfg : UntarConfig) (dst : string) : bool :=
  match Rel (DestDir cfg) dst with
  | None => true
  | Some rel => String.eqb rel ".." || has_prefix "../" rel
  end.

(** One entry: the bytes it wrote, and the error. *)
Definition extract (cfg : UntarConfig) (written : Z) (e : TarEntry) : prog (Z * option TarErr) :=
  match check_header e with
  | Some err => Ret (0%Z, Some err)
  | None =>
      let dst := destination cfg e in
      if outside cfg dst then Ret (0%Z, Some TarPathTraversal)
      else if (TTypeflag e =? TypeDir)%Z then
        must (do_ (MkdirAll dst)) (0%Z, Some (TarIO "mkdir"))
          (must (do_ (Chmod dst untarDirMode)) (0%Z, Some (TarIO "chmod dir")) (Ret (0%Z, None)))
      else if (TSize e <? 0)%Z || (UploadLength cfg <? TSize e)%Z then Ret (0%Z, Some TarTooLarge)
      else
        must (do_ (MkdirAll (Dir dst))) (0%Z, Some (TarIO "mkdir parent"))
          (must (do_ (CreateExcl dst)) (0%Z, Some (TarIO "create file"))
             (let remaining := wrap64 (wrap64 (UploadLength cfg * untarSizeFactor) - written) in
              let! w := writeCapped dst e remaining in
              let '(n, werr) := w in
              let! closed := do_ (Close dst) in
              match werr with
              | Some ExceededCap => Ret (n, Some TarTooLarge)
              | Some CopyFailed => Ret (n, Some (TarIO "write entry"))
              | None =>
                  if negb closed then Ret (n, Some (TarIO "close entry"))
                  else must (do_ (Chmod dst untarFileMode)) (n, Some (TarIO "chmod file")) (Ret (n, None))
              end))
  end.

Fixpoint untar_loop (cfg : UntarConfig) (truncated : bool) (entries written : Z) (es : list TarEntry) {struct es}
    : prog untarred :=
  if (max_entries cfg <=? entries)%Z then Ret (entries, written, Some TarTooMany)
  else match es with
  | [] => Ret (entries, written, if truncated then Some (TarIO "tar read") else None)
  | e :: rest =>
      let! r := extract cfg written e in
      let '(n, err) := r in
      let written := (written + n)%Z in
      match err with
      | Some _ => Ret (entries, written, err)
      | None => untar_loop cfg truncated (entries + 1) written rest
      end
  end.

Definition Untar (src : TarStream) (cfg : UntarConfig) : prog untarred :=
  untar_loop cfg (Truncated src) 0 0 (Entries src).
