(* ===== verification/ATarFacts.v ===== *)
(** What an extraction (ATar.v) does to the disk: it stays below its folder
    and within its caps, and when it succeeds it has unpacked every entry. *)
From S2P Require Import Prelude GoStrings GoPath Utf8 Effects ADisk ATar.
Local Open Scope string_scope.

(** ** Where an entry goes *)

(** The elements of a name that Clean keeps. *)
Definition safe_elems (name : string) : list string :=
  filter (λ e, e ≠ "" ∧ e ≠ ".") (split_on slash name).

Lemma no_dotdot name t : hasPathTraversal name t = false → ".." ∉ split_on slash name.
Proof.
  unfold hasPathTraversal. rewrite !orb_false_iff. intros [_ H] Hin.
  apply existsb_false with (x := "..") in H; [done|done].
Qed.

Lemma not_rooted name t : hasPathTraversal name t = false → is_rooted name = false.
Proof. unfold hasPathTraversal. rewrite !orb_false_iff. intros [[[[[H _] _] _] _] _]. done. Qed.

Lemma clean_fold_safe es : ∀ kept,
  ".." ∉ es → foldl (clean_step false) kept es = (rev (filter (λ e, e ≠ "" ∧ e ≠ ".") es) ++ kept)%list.
Proof.
  induction es as [|e es IH]; intros kept Hd; [done|]. apply not_elem_of_cons in Hd as [He Hd].
  cbn [foldl]. rewrite IH by done. unfold clean_step.
  destruct (String.eqb_spec e "") as [->|H1]; [by rewrite filter_cons_False by tauto|].
  destruct (String.eqb_spec e ".") as [->|H2]; [by rewrite filter_cons_False by tauto|].
  cbn [orb]. rewrite (proj2 (String.eqb_neq e "..")) by congruence.
  rewrite filter_cons_True by done. cbn. by rewrite <- app_assoc.
Qed.

Lemma safe_elems_plain name t :
  hasPathTraversal name t = false → Forall (λ e, plain_name e = true) (safe_elems name).
Proof.
  intros Hd%no_dotdot. unfold safe_elems. apply Forall_forall. intros e [[H1 H2] He]%list_elem_of_filter.
  apply plain_name_spec. split_and!; [done|done|by intros ->|].
  pose proof (split_on_pieces slash name) as Hp. rewrite Forall_forall in Hp. by apply Hp.
Qed.

Lemma Clean_safe name t :
  hasPathTraversal name t = false → Clean name = match safe_elems name with [] => "." | es => join "/" es end.
Proof.
  intros Ht. unfold Clean. rewrite (not_rooted _ _ Ht). unfold clean_elems.
  rewrite clean_fold_safe by (by eapply no_dotdot). rewrite app_nil_r, rev_involutive. unfold render, safe_elems. by destruct (filter _ _).
Qed.

(** The elements of the joined path. *)
Lemma Join_nested d es : es ≠ [] → join "/" es ≠ "" → Join [d; join "/" es] = Join (d :: es) ∨ Exists (λ e, e = "") es.
Proof.
  intros Hne Hj. destruct (decide (Exists (λ e, e = "") es)) as [H|H]; [by right|left].
  apply not_Exists_Forall in H; [|apply _].
  assert (Hf : filter (λ e, e ≠ "") es = es).
  { clear Hne Hj. induction H as [|e es He _ IH]; [done|]. by rewrite filter_cons_True, IH. }
  unfold Join. destruct (decide (d = "")) as [->|Hd].
  - rewrite !(filter_cons_False _ ""), filter_cons_True, Hf by tauto. cbn. by destruct es.
  - rewrite !filter_cons_True, Hf by tauto. cbn. by destruct es.
Qed.

Lemma join_plain_nonempty es : es ≠ [] → Forall (λ e, plain_name e = true) es → join "/" es ≠ "".
Proof.
  intros Hne Hp. destruct Hp as [|e es (He & _)%plain_name_spec _]; [done|]. destruct es; [done|]. cbn. by destruct e.
Qed.

Lemma Join_dot d : absolute d → Join [d; "."] = d.
Proof.
  intros (ds & Hds & ->). unfold Join. rewrite !filter_cons_True by done.
  change (filter _ []) with (@nil string). cbn [join]. unfold Clean. change (is_rooted _) with true.
  unfold render. f_equal.
  destruct ds as [|d0 ds]; [done|].
  assert (Hsplit : split_on slash (("/" ++ join "/" (d0 :: ds)) ++ "/" ++ ".") = ("" :: (d0 :: ds) ++ ["."])%list).
  { rewrite app_str_assoc. change (split_on slash ("/" ++ ?x)) with ("" :: split_on slash x).
    change ("/" ++ ".") with ("/" ++ join "/" ["."]). rewrite <- join_app by done. f_equal. apply split_on_join; [done|].
    apply Forall_app. split; [|by repeat constructor]. eapply Forall_impl; [exact Hds|]. by intros n (_ & _ & _ & ?)%plain_name_spec. }
  rewrite Hsplit. unfold clean_elems. cbn [foldl]. change (clean_step true [] "") with (@nil string).
  rewrite foldl_app, (clean_fold_plain _ (d0 :: ds)), app_nil_r by done. cbn [foldl].
  change (clean_step true (rev (d0 :: ds)) ".") with (rev (d0 :: ds)). by rewrite rev_involutive.
Qed.

Lemma destination_comps cfg e :
  absolute (DestDir cfg) → hasPathTraversal (TName e) (TTypeflag e) = false →
  absolute (destination cfg e) ∧ comps (destination cfg e) = (comps (DestDir cfg) ++ safe_elems (TName e))%list.
Proof.
  intros Ha Ht. unfold destination. rewrite (Clean_safe _ _ Ht). pose proof (safe_elems_plain _ _ Ht) as Hp.
  destruct (safe_elems (TName e)) as [|x es] eqn:E.
  - rewrite app_nil_r. assert (HJ : Join [DestDir cfg; "."] = DestDir cfg); [|by rewrite HJ].
    by apply Join_dot.
  - destruct (Join_nested (DestDir cfg) (x :: es)) as [->|Hex]; [done|by apply join_plain_nonempty| |].
    + split; [by apply Join_is_absolute|by apply comps_Join].
    + exfalso. apply Exists_exists in Hex as (y & Hy & ->). rewrite Forall_forall in Hp. by apply Hp in Hy.
Qed.

(** The check that follows the join never fires: Rel finds no way out. *)
Lemma strip_common_prefix b l : strip_common b (b ++ l)%list = ([], l).
Proof. induction b as [|x b IH]; cbn; [by destruct l|]. by rewrite String.eqb_refl. Qed.

Lemma join_first x es : ∃ t, join "/" (x :: es) = x ++ t ∧ (t = "" ∨ ∃ u, t = String slash u).
Proof.
  destruct es as [|y es]; [|by exists ("/" ++ join "/" (y :: es)); split; [|right; eexists]].
  exists "". split; [|by left]. cbn. induction x as [|a x IH]; [done|]. change (String a x = String a (x ++ "")). by rewrite <- IH.
Qed.

Lemma plain_no_way_out x es : Forall (λ e, plain_name e = true) (x :: es) → has_prefix "../" (join "/" (x :: es)) = false.
Proof.
  intros [(H1 & H2 & H3 & H4)%plain_name_spec _]%Forall_cons.
  destruct (has_prefix "../" (join "/" (x :: es))) eqn:E; [|done]. exfalso. apply has_prefix_split in E as [v E].
  destruct (join_first x es) as (t & Ht & Hend). rewrite Ht in E. clear Ht es.
  destruct x as [|a [|b [|c x]]]; [done| | |]; cbn in E.
  - destruct Hend as [->|[u ->]]; [done|]. injection E as _ E. done.
  - injection E as -> -> _. done.
  - injection E as _ _ -> _. cbn in H4. by rewrite !andb_false_r in H4.
Qed.

Lemma filter_split es : Forall (λ e, plain_name e = true) es → filter (λ e, e ≠ "") (split_on slash ("/" ++ join "/" es)) = es.
Proof.
  intros Hp. destruct es as [|x es]; [done|]. rewrite split_absolute by done.
  rewrite filter_cons_False by (intros H; by apply H). by apply filter_plain.
Qed.

Lemma Rel_below d dst es :
  absolute d → absolute dst → comps dst = (comps d ++ es)%list →
  Rel d dst = Some (match es with [] => "." | _ => join "/" es end).
Proof.
  intros Hd Hdst Hc. unfold Rel. rewrite (proj1 (Clean_fixed _ Hd)), (proj1 (Clean_fixed _ Hdst)).
  destruct (absolute_comps _ Hd) as [Hp Ed]. destruct (absolute_comps _ Hdst) as [Hp' Edst]. rewrite Hc in Hp', Edst.
  destruct (String.eqb_spec dst d) as [E|Hne].
  { destruct es as [|x es]; [done|]. rewrite E in Hc. apply (f_equal length) in Hc. rewrite length_app in Hc. cbn in Hc. lia. }
  destruct es as [|x es]; [by rewrite app_nil_r in Edst; congruence|].
  rewrite (proj2 (String.eqb_neq d ".")) by (by rewrite Ed).
  assert (is_rooted d = true ∧ is_rooted dst = true) as [-> ->] by (by rewrite Ed, Edst). cbn [Bool.eqb negb].
  replace (filter (λ e, e ≠ "") (split_on slash d)) with (comps d) by (rewrite Ed at 2; by rewrite filter_split).
  replace (filter (λ e, e ≠ "") (split_on slash dst)) with (comps d ++ x :: es)%list by (rewrite Edst; by rewrite filter_split).
  by rewrite strip_common_prefix.
Qed.

Lemma never_outside cfg e :
  absolute (DestDir cfg) → hasPathTraversal (TName e) (TTypeflag e) = false → outside cfg (destination cfg e) = false.
Proof.
  intros Ha Ht. destruct (destination_comps cfg e Ha Ht) as [Hd Hc]. unfold outside.
  rewrite (Rel_below _ _ (safe_elems (TName e))) by done. pose proof (safe_elems_plain _ _ Ht) as Hp.
  destruct (safe_elems (TName e)) as [|x es]; [done|]. rewrite plain_no_way_out by done. rewrite orb_false_r.
  apply String.eqb_neq. intros E. apply Forall_cons in Hp as [(_ & _ & Hx & Hs)%plain_name_spec Hp].
  destruct es as [|y es]; [done|]. destruct x as [|a [|b [|c x]]]; [done|done| |done].
  change (join "/" (String a (String b "") :: y :: es)) with (String a (String b ("/" ++ join "/" (y :: es)))) in E. done.
Qed.

(** ** Nothing outside the folder is touched *)

(** The folder and those it is in exist. *)
Definition rooted_at (dest : path) (d : disk) : Prop := ∀ q, below q dest → is_folder d q.
Definition same_outside (dest : path) (d0 d : disk) : Prop := ∀ k, ¬ below dest k → d !! k = d0 !! k.

(** The calls an extraction makes, on paths below the folder. *)
Definition inside (dest : path) (o : aop) : Prop :=
  match o with
  | MkdirAll p => below dest (comps p) ∨ below (comps p) dest
  | CreateExcl p | Write p _ | Chmod p _ | Close p => below dest (comps p)
  | _ => False
  end.

Lemma mkdirs_inside dest p d0 d :
  (below dest p ∨ below p dest) → rooted_at dest d → same_outside dest d0 d →
  rooted_at dest (mkdirs p d) ∧ same_outside dest d0 (mkdirs p d).
Proof.
  intros Hp Hr Hs. split.
  - intros q Hq. destruct (Hr q Hq) as [->|H]; [by left|right]. by rewrite mkdirs_lookup, H.
  - intros k Hk. rewrite mkdirs_lookup, <- (Hs k Hk). destruct (d !! k) as [n|] eqn:E; [done|].
    rewrite decide_False; [done|]. intros [Hkp Hne].
    assert (Hkd : below k dest).
    { destruct Hp as [Hp|Hp]; [by destruct (below_both _ _ _ Hp Hkp)|by eapply below_trans]. }
    destruct (Hr k Hkd) as [->|H]; [done|]. by rewrite H in E.
Qed.

Lemma inside_step dest d0 d o (r : aans o) d' :
  inside dest o → dstep d o r d' → rooted_at dest d ∧ same_outside dest d0 d → rooted_at dest d' ∧ same_outside dest d0 d'.
Proof.
  intros Hin Hstep [Hr Hs]. destruct o; cbn in Hin; try done; cbn in Hstep.
  - destruct r as [].
    + destruct Hstep as [_ ->]. apply mkdirs_inside; auto.
    + destruct Hstep as (q & Hq & _ & ->). apply mkdirs_inside; [|done..].
      destruct Hin as [Hin|Hin]; [by eapply below_both|right; by eapply below_trans].
  - by subst d'.
  - destruct r as []; [|by subst d']. destruct Hstep as (Hn & Hne & _ & ->). split.
    + intros q Hq. destruct (Hr q Hq) as [->|H]; [by left|right]. rewrite lookup_insert_ne by congruence. done.
    + intros k Hk. rewrite lookup_insert_ne by (intros <-; done). by apply Hs.
  - destruct Hstep as [_ ->]. split.
    + intros q Hq. destruct (Hr q Hq) as [->|H]; [by left|right]. rewrite append_lookup, H. destruct (decide _) as [<-|]; [|done]. by rewrite H.
    + intros k Hk. rewrite append_lookup. destruct (decide _) as [->|]; [done|]. by apply Hs.
  - by subst d'.
Qed.

Lemma must_calls {A} (P : aop → Prop) (o : prog bool) (fail : A) (k : prog A) :
  calls (Σ := archive_sig) P o → calls P k → calls P (must o fail k).
Proof. intros Ho Hk. apply calls_bind; [done|]. by intros []. Qed.

Lemma check_header_ok e : check_header e = None →
  "path" ∉ TPAXKeys e ∧ "linkpath" ∉ TPAXKeys e ∧ (TTypeflag e = TypeReg ∨ TTypeflag e = TypeDir) ∧
  validUntarName (TName e) = true ∧ hasPathTraversal (TName e) (TTypeflag e) = false.
Proof.
  unfold check_header, validateTypeflag. intros H.
  destruct (bool_decide_reflect ("path" ∈ TPAXKeys e)), (bool_decide_reflect ("linkpath" ∈ TPAXKeys e)); try done. cbn in H.
  destruct (Z.eqb_spec (TTypeflag e) TypeReg), (Z.eqb_spec (TTypeflag e) TypeDir); try done; cbn in H;
    destruct (validUntarName (TName e)); try done; destruct (hasPathTraversal _ _); try done; tauto.
Qed.

Lemma Dir_near (dest l : path) : below dest (removelast (dest ++ l)) ∨ below (removelast (dest ++ l)) dest.
Proof.
  destruct l as [|x l].
  - right. rewrite app_nil_r. destruct dest as [|y dest _] using rev_ind; [by exists []|]. rewrite removelast_last. apply below_app.
  - left. rewrite removelast_app by done. apply below_app.
Qed.

Lemma writeCapped_inside dest dst e limit :
  below dest (comps dst) → calls (inside dest) (writeCapped dst e limit).
Proof.
  intros Hd. unfold writeCapped. destruct (limit <? 0)%Z; [done|]. apply calls_bind.
  { by destruct (take _ _). }
  intros n. destruct (n <? _)%nat; [done|]. destruct (drop _ _); [by destruct (_ && _)|by split].
Qed.


Lemma extract_inside cfg written e :
  absolute (DestDir cfg) → calls (inside (comps (DestDir cfg))) (extract cfg written e).
Proof.
  intros Ha. unfold extract. destruct (check_header e) as [err|] eqn:Hh; [done|].
  apply check_header_ok in Hh as (_ & _ & _ & _ & Ht). destruct (destination_comps cfg e Ha Ht) as [Hd Hc].
  cbn zeta. destruct (outside _ _); [done|].
  assert (Hb : below (comps (DestDir cfg)) (comps (destination cfg e))) by (rewrite Hc; apply below_app).
  destruct (TTypeflag e =? TypeDir)%Z.
  { apply must_calls; [by split; [left|]|]. by apply must_calls; [by split|]. }
  destruct ((TSize e <? 0)%Z || _); [done|]. apply must_calls.
  { split; [|done]. unfold inside. rewrite comps_Dir, Hc by done. apply Dir_near. }
  apply must_calls; [by split|]. apply calls_bind; [by apply writeCapped_inside|]. intros [n werr].
  apply calls_bind; [by split|]. intros closed. destruct werr as [[]|]; [done..|]. destruct (negb closed); [done|].
  by apply must_calls; [by split|].
Qed.

Lemma untar_inside cfg truncated es : absolute (DestDir cfg) → ∀ entries written,
  calls (inside (comps (DestDir cfg))) (untar_loop cfg truncated entries written es).
Proof.
  intros Ha. induction es as [|e es IH]; intros entries written; cbn [untar_loop].
  { by destruct (_ <=? _)%Z. }
  destruct (_ <=? _)%Z; [done|]. apply calls_bind; [by apply extract_inside|]. intros [n [err|]]; [done|apply IH].
Qed.

(** C19. An extraction stays in its folder: whatever the archive contains,
    and at every moment, even when calls fail or the process dies, all that
    is outside the destination folder is as it was. *)
Theorem untar_stays_inside (src : TarStream) (cfg : UntarConfig) (d : disk) :
  absolute (DestDir cfg) → rooted_at (comps (DestDir cfg)) d →
  always dstep (Untar src cfg) d (same_outside (comps (DestDir cfg)) d).
Proof.
  intros Ha Hr. set (I d' := rooted_at (comps (DestDir cfg)) d' ∧ same_outside (comps (DestDir cfg)) d d').
  apply (always_mono _ _ _ I); [by intros s [_ H]|]. eapply always_calls.
  - intros s o r s' Ho Hs [H1 H2]. by eapply (inside_step _ d).
  - by apply untar_inside.
  - by split.
Qed.

(** ** How much is written *)

Definition node_size (n : node) : nat := match n with Folder => 0%nat | File data => length data end.
(** The bytes of all the files of a disk. *)
Definition used (d : disk) : nat := map_fold (λ _ n acc, (node_size n + acc)%nat) 0%nat d.

Lemma used_new k n d : d !! k = None → used (<[k := n]> d) = (node_size n + used d)%nat.
Proof. intros H. unfold used. rewrite map_fold_insert_L; [done|intros; lia|done]. Qed.

Lemma used_take k n d : d !! k = Some n → used d = (node_size n + used (delete k d))%nat.
Proof. intros H. unfold used. rewrite (map_fold_delete_L _ _ k n); [done|intros; lia|done]. Qed.

Lemma used_set k n d : (used (<[k := n]> d) ≤ node_size n + used d)%nat.
Proof.
  destruct (d !! k) as [m|] eqn:E; [|by rewrite used_new].
  rewrite (used_take k n) by by rewrite lookup_insert_eq. rewrite delete_insert_eq, (used_take k m d) by done. lia.
Qed.

Lemma used_append p x d : (used (append p x d) ≤ used d + length x)%nat.
Proof.
  destruct (d !! p) as [[|old]|] eqn:E.
  1,3: assert (append p x d = d) as ->; [|lia]; apply map_eq; intros k; rewrite append_lookup; destruct (decide _) as [->|]; by rewrite ?E.
  assert (H : append p x d = <[p := File (old ++ x)%list]> d).
  { apply map_eq. intros k. rewrite append_lookup. destruct (decide _) as [->|]; [by rewrite E, lookup_insert_eq|by rewrite lookup_insert_ne]. }
  rewrite H, (used_take p (File (old ++ x)%list)) by by rewrite lookup_insert_eq.
  rewrite delete_insert_eq, (used_take p (File old) d) by done. cbn. rewrite length_app. lia.
Qed.

Lemma used_folders (d e : disk) : (∀ k n, e !! k = Some n → n = Folder) → used (d ∪ e) = used d.
Proof.
  induction e as [|k n e Hk IH] using map_ind; intros He; [by rewrite map_union_empty|].
  assert (n = Folder) as -> by (apply (He k); by rewrite lookup_insert_eq).
  assert (Hd : used (d ∪ e) = used d).
  { apply IH. intros k' n' H. apply (He k'). rewrite lookup_insert_ne; [done|]. intros <-. by rewrite Hk in H. }
  destruct (d !! k) as [m|] eqn:E.
  - assert (d ∪ <[k := Folder]> e = d ∪ e) as ->; [|done]. apply map_eq. intros k'. rewrite !lookup_union.
    destruct (decide (k' = k)) as [->|]; [by rewrite E, lookup_insert_eq, Hk|by rewrite lookup_insert_ne].
  - rewrite <- insert_union_r by done. rewrite used_new; [done|]. by rewrite lookup_union, E, Hk.
Qed.

Lemma used_mkdirs p d : used (mkdirs p d) = used d.
Proof. apply used_folders. intros k n. rewrite chain_lookup. by destruct (decide _) as [_|]; [intros [= <-]|]. Qed.

(** What the calls of an extraction add. *)
Lemma used_step d o (r : aans o) d' :
  match o with MkdirAll _ | CreateExcl _ | Chmod _ _ | Close _ => True | _ => False end →
  dstep d o r d' → (used d' ≤ used d)%nat.
Proof.
  destruct o; cbn; try done; intros _ H.
  - destruct r as []; [destruct H as [_ ->]|destruct H as (q & _ & _ & ->)]; by rewrite used_mkdirs.
  - by subst.
  - destruct r as []; [destruct H as (_ & _ & _ & ->)|by subst]. apply (used_set _ (File [])).
  - by subst.
Qed.

Lemma used_write d p x (n : nat) d' : dstep d (Write p x) n d' → (n ≤ length x ∧ used d' ≤ used d + n)%nat.
Proof. intros [Hn ->]. pose proof (used_append (comps p) (take n x) d). rewrite length_take in *. lia. Qed.

Definition usedZ (d : disk) : Z := Z.of_nat (used d).

(** A program that adds at most [k] bytes at every moment and ends in [Q]. *)
Definition adds_at_most {A} (k : Z) (p : prog A) (d : disk) (Q : disk → A → Prop) : Prop :=
  always dstep p d (λ s, usedZ s ≤ usedZ d + k)%Z ∧ under dstep p d Q.

Lemma adds_ret {A} (k : Z) (a : A) (d : disk) (Q : disk → A → Prop) : (0 ≤ k)%Z → Q d a → adds_at_most k (Ret a) d Q.
Proof. intros Hk HQ. split; [split; [lia|done]|done]. Qed.

Lemma adds_at_most_bind {A B} (k : Z) (p : prog A) (f : A → prog B) (d : disk) (Q : disk → B → Prop) :
  adds_at_most k p d (λ s a, adds_at_most (usedZ d + k - usedZ s)%Z (f a) s Q) → adds_at_most k (bind p f) d Q.
Proof.
  intros [H1 H2]. split.
  - apply always_bind; [done|]. eapply under_mono; [|exact H2]. intros s a [H _].
    eapply always_mono; [|exact H]. intros s' Hs. cbv beta in *. lia.
  - apply under_bind. eapply under_mono; [|exact H2]. by intros s a [_ H].
Qed.

Lemma adds_quiet (k : Z) (o : aop) (d : disk) (Q : disk → aans o → Prop) :
  match o with MkdirAll _ | CreateExcl _ | Chmod _ _ | Close _ => True | _ => False end →
  (0 ≤ k)%Z → (∀ s r, (usedZ s ≤ usedZ d)%Z → Q s r) → adds_at_most k (do_ o) d Q.
Proof.
  intros Ho Hk HQ. split.
  - split; [lia|]. intros r s Hs. split; [|done]. apply used_step in Hs; [|done]. unfold usedZ. lia.
  - intros r s Hs. apply HQ. apply used_step in Hs; [|done]. unfold usedZ. lia.
Qed.

Lemma adds_write (k : Z) (p : string) (x : bytes) (d : disk) (Q : disk → nat → Prop) :
  (Z.of_nat (length x) ≤ k)%Z →
  (∀ s (n : nat), (n ≤ length x)%nat → (usedZ s ≤ usedZ d + Z.of_nat n)%Z → Q s n) →
  adds_at_most k (do_ (Write p x)) d Q.
Proof.
  intros Hk HQ. split.
  - split; [lia|]. intros r s Hs. split; [|done]. apply used_write in Hs. unfold usedZ. lia.
  - intros r s Hs. apply used_write in Hs as [H1 H2]. apply HQ; [done|]. unfold usedZ. lia.
Qed.


Lemma writeCapped_adds (dst : string) (e : TarEntry) (limit : Z) (d : disk) (Q : disk → Z * option CopyErr → Prop) :
  (0 ≤ limit)%Z →
  (∀ s n err, (usedZ s ≤ usedZ d + n)%Z → (0 ≤ n ≤ limit + 1)%Z → (err = None → n ≤ limit)%Z → Q s (n, err)) →
  adds_at_most (limit + 1) (writeCapped dst e limit) d Q.
Proof.
  intros Hl HQ. unfold writeCapped. rewrite (proj2 (Z.ltb_ge limit 0)) by done.
  apply adds_at_most_bind.
  assert (Hc : ∀ s (n : nat), (n ≤ length (take (Z.to_nat limit) (TBody e)))%nat → (usedZ s ≤ usedZ d + Z.of_nat n)%Z →
    adds_at_most (usedZ d + (limit + 1) - usedZ s)
      (if (n <? length (take (Z.to_nat limit) (TBody e)))%nat then Ret (Z.of_nat n, Some CopyFailed)
       else match drop (Z.to_nat limit) (TBody e) with
            | [] => if TBodyFails e && (Z.of_nat (length (TBody e)) <? limit)%Z then Ret (Z.of_nat n, Some CopyFailed)
                    else Ret (Z.of_nat n, None)
            | probe :: _ => bind (do_ (Write dst [probe])) (λ _, Ret (Z.of_nat n + 1, Some ExceededCap)%Z)
            end) s Q).
  { intros s n Hn Hs. rewrite length_take in Hn. destruct (n <? _)%nat; [apply adds_ret; [lia|]; apply HQ; [lia|lia|done]|].
    destruct (drop _ _) as [|probe rest].
    - destruct (_ && _); apply adds_ret; try lia; apply HQ; lia || done.
    - apply adds_at_most_bind, adds_write; [cbn; lia|]. intros s' m Hm Hs'. cbn in Hm.
      apply adds_ret; [lia|]. apply HQ; [lia|lia|done]. }
  destruct (take _ _) as [|x chunk] eqn:E.
  - apply adds_ret; [lia|]. apply Hc; [done|cbn; lia].
  - apply adds_write; [|intros s n Hn Hs; by apply Hc].
    apply (f_equal length) in E. rewrite length_take in E. lia.
Qed.

Lemma adds_must {A} (k : Z) (o : prog bool) (fail : A) (p : prog A) (d : disk) (Q : disk → A → Prop) :
  adds_at_most k o d (λ s _, (usedZ s ≤ usedZ d)%Z) →
  (0 ≤ k)%Z → (∀ s, (usedZ s ≤ usedZ d)%Z → Q s fail) →
  (∀ s, (usedZ s ≤ usedZ d)%Z → adds_at_most (usedZ d + k - usedZ s) p s Q) →
  adds_at_most k (must o fail p) d Q.
Proof.
  intros [H1 H2] Hk Hf Hp. apply adds_at_most_bind. split; [done|]. eapply under_mono; [|exact H2].
  intros s [] Hs; [by apply Hp|]. apply adds_ret; [lia|by apply Hf].
Qed.

(** The budget that is left never overflows. *)
Lemma remaining_room (cfg : UntarConfig) (written : Z) :
  (0 ≤ UploadLength cfg < 2 ^ 62)%Z → (0 ≤ written ≤ 2 * UploadLength cfg)%Z →
  wrap64 (wrap64 (UploadLength cfg * untarSizeFactor) - written) = (2 * UploadLength cfg - written)%Z.
Proof. intros Hl Hw. unfold untarSizeFactor. rewrite (wrap64_small (_ * _)) by lia. rewrite wrap64_small; lia. Qed.

Section caps.
Context (cfg : UntarConfig) (Hlen : (0 ≤ UploadLength cfg < 2 ^ 62)%Z).
Abbreviation cap := (2 * UploadLength cfg)%Z.

Lemma extract_adds (written : Z) (e : TarEntry) (d : disk) (Q : disk → Z * option TarErr → Prop) :
  (0 ≤ written ≤ cap)%Z →
  (∀ s n err, (usedZ s ≤ usedZ d + n)%Z → (0 ≤ n)%Z → (written + n ≤ cap + 1)%Z → (err = None → written + n ≤ cap)%Z → Q s (n, err)) →
  adds_at_most (cap + 1 - written) (extract cfg written e) d Q.
Proof.
  intros Hw HQ. unfold extract.
  assert (H0 : ∀ s err, (usedZ s ≤ usedZ d)%Z → Q s (0%Z, err)) by (intros; apply HQ; lia).
  destruct (check_header e); [apply adds_ret; [lia|by apply H0]|]. cbn zeta.
  destruct (outside _ _); [apply adds_ret; [lia|by apply H0]|]. destruct (TTypeflag e =? TypeDir)%Z.
  { apply adds_must; [by apply adds_quiet; [|lia|]|lia|by intros; apply H0|]. intros s Hs.
    apply adds_must; [by apply adds_quiet; [|lia|]|lia|intros; apply H0; lia|]. intros s' Hs'. apply adds_ret; [lia|apply H0; lia]. }
  destruct (_ || _); [apply adds_ret; [lia|by apply H0]|].
  apply adds_must; [by apply adds_quiet; [|lia|]|lia|by intros; apply H0|]. intros s1 Hs1.
  apply adds_must; [by apply adds_quiet; [|lia|]|lia|intros; apply H0; lia|]. intros s2 Hs2.
  rewrite remaining_room by done. cbn zeta. set (limit := (cap - written)%Z).
  replace (usedZ s1 + (usedZ d + (cap + 1 - written) - usedZ s1) - usedZ s2)%Z with (usedZ d + (limit + 1) - usedZ s2)%Z by (unfold limit; lia).
  apply adds_at_most_bind. destruct (writeCapped_adds (destination cfg e) e limit s2
    (λ s a, adds_at_most (usedZ s2 + (usedZ d + (limit + 1) - usedZ s2) - usedZ s)
      (let '(n, werr) := a in bind (do_ (Close (destination cfg e))) (λ closed,
         match werr with
         | Some ExceededCap => Ret (n, Some TarTooLarge)
         | Some CopyFailed => Ret (n, Some (TarIO "write entry"))
         | None => if negb closed then Ret (n, Some (TarIO "close entry"))
                   else must (do_ (Chmod (destination cfg e) untarFileMode)) (n, Some (TarIO "chmod file")) (Ret (n, None))
         end)) s Q)) as [W1 W2]; [lia| |].
  2: { split; [|done]. eapply always_mono; [|exact W1]. intros s Hs. cbv beta in *. lia. }
  intros s3 n werr Hs3 Hn Hnone. apply adds_at_most_bind, adds_quiet; [done|lia|]. intros s4 closed Hs4. rename Hn into Hn1.
  assert (H3 : ∀ s err, (usedZ s ≤ usedZ s3)%Z → (err = None → werr = None) → Q s (n, err)).
  { intros s err Hs He. apply HQ; [lia|lia|lia|]. intros E. specialize (Hnone (He E)). lia. }
  destruct werr as [[]|]; [apply adds_ret; [lia|by apply H3]..|].
  destruct (negb closed); [apply adds_ret; [lia|by apply H3]|].
  apply adds_must; [by apply adds_quiet; [|lia|]|lia|intros; apply H3; [lia|done]|].
  intros s5 Hs5. apply adds_ret; [lia|apply H3; [lia|done]].
Qed.

Lemma untar_loop_adds truncated es : ∀ (entries written : Z) (d : disk),
  (0 ≤ entries ≤ max_entries cfg)%Z → (0 ≤ written ≤ cap)%Z →
  adds_at_most (cap + 1 - written) (untar_loop cfg truncated entries written es) d
    (λ _ r, let '(n, w, err) := r in (0 ≤ n ≤ max_entries cfg)%Z ∧ (0 ≤ w ≤ cap + 1)%Z ∧ (err = None → w ≤ cap)%Z).
Proof.
  induction es as [|e es IH]; intros entries written d He Hw; cbn [untar_loop].
  { destruct (_ <=? _)%Z; apply adds_ret; lia. }
  destruct (Z.leb_spec (max_entries cfg) entries) as [Hm|Hm]; [apply adds_ret; lia|].
  apply adds_at_most_bind, extract_adds; [done|]. intros s n err Hs Hn Hn1 Hn2. cbn zeta.
  destruct err as [err|]; [apply adds_ret; [lia|]; split_and!; lia || done|].
  specialize (Hn2 eq_refl). destruct (IH (entries + 1)%Z (written + n)%Z s) as [H1 H2]; [lia|lia|].
  split; [|done]. eapply always_mono; [|exact H1]. intros s' Hs'. cbv beta in *. lia.
Qed.
End caps.

(** C24. An extraction is bounded: for an upload of [n] bytes (below 2^62),
    whatever the archive claims and contains, the disk at no moment holds
    more than 2n + 1 bytes more than before; the entries counted are within
    the limit, and a successful extraction wrote at most 2n bytes. *)
Theorem untar_within_caps (src : TarStream) (cfg : UntarConfig) (d : disk) :
  (0 ≤ UploadLength cfg < 2 ^ 62)%Z →
  always dstep (Untar src cfg) d (λ d', usedZ d' ≤ usedZ d + 2 * UploadLength cfg + 1)%Z ∧
  under dstep (Untar src cfg) d (λ _ r,
    let '(n, w, err) := r in
    (0 ≤ n ≤ max_entries cfg)%Z ∧ (0 ≤ w ≤ 2 * UploadLength cfg + 1)%Z ∧ (err = None → w ≤ 2 * UploadLength cfg)%Z).
Proof.
  intros Hlen. assert (Hm : (0 ≤ max_entries cfg)%Z).
  { unfold max_entries. destruct (Z.leb_spec (MaxEntries cfg) 0); [by unfold untarMaxEntries|lia]. }
  destruct (untar_loop_adds cfg Hlen (Truncated src) (Entries src) 0 0 d) as [H1 H2]; [lia|lia|].
  split; [|done]. eapply always_mono; [|exact H1]. intros s Hs. cbv beta in *. lia.
Qed.

(** ** What a successful extraction leaves *)

Definition is_dir (e : TarEntry) : bool := (TTypeflag e =? TypeDir)%Z.
Definition entry_path (cfg : UntarConfig) (e : TarEntry) : path := comps (destination cfg e).
Definition content_size (e : TarEntry) : Z := if is_dir e then 0%Z else Z.of_nat (length (TBody e)).
Definition total_size (es : list TarEntry) : Z := foldr (λ e n, (content_size e + n)%Z) 0%Z es.

(** The abstract extraction of one entry. *)
Definition unpack (cfg : UntarConfig) (d : disk) (e : TarEntry) : disk :=
  let p := entry_path cfg e in
  if is_dir e then mkdirs p d else <[p := File (TBody e)]> (mkdirs (removelast p) d).

(** The entry is on the disk. *)
Definition unpacked (cfg : UntarConfig) (d : disk) (e : TarEntry) : Prop :=
  if is_dir e then is_folder d (entry_path cfg e) else d !! entry_path cfg e = Some (File (TBody e)).

Lemma under_must {A : Type} (step : disk → ∀ o : aop, aans o → disk → Prop) (o : prog bool) (fail : A) (p : prog A) (d : disk) (Q : disk → A → Prop) :
  under step o d (λ s r, if r then under step p s Q else Q s fail) → under step (must o fail p) d Q.
Proof. intros H. apply under_bind. eapply under_mono; [|exact H]. by intros s []. Qed.

Lemma mkdirs_grows (p : path) (d : disk) : d ⊆ mkdirs p d.
Proof. apply map_union_subseteq_l. Qed.

Lemma mkdirs_folder (p : path) (d : disk) : clear_way p d → is_folder (mkdirs p d) p.
Proof.
  intros Hc. destruct (decide (p = [])) as [->|Hp]; [by left|right]. rewrite mkdirs_lookup.
  destruct (d !! p) as [[|x]|] eqn:E; [done| |by rewrite decide_True by auto with glovebox].
  exfalso. apply (Hc p); [auto with glovebox|by exists x].
Qed.

Lemma is_folder_grows (d d' : disk) (p : path) : d ⊆ d' → is_folder d p → is_folder d' p.
Proof. intros Hs [->|H]; [by left|right]. by eapply lookup_weaken. Qed.

Lemma unpacked_grows (cfg : UntarConfig) (d d' : disk) (e : TarEntry) : d ⊆ d' → unpacked cfg d e → unpacked cfg d' e.
Proof. intros Hs. unfold unpacked. destruct (is_dir e); [by apply is_folder_grows|]. intros H. by eapply lookup_weaken. Qed.

Lemma append_created (p : path) (x y : bytes) (d : disk) : append p x (<[p := File y]> d) = <[p := File (y ++ x)%list]> d.
Proof.
  apply map_eq. intros k. rewrite append_lookup. destruct (decide (k = p)) as [->|Hk].
  - by rewrite !lookup_insert_eq.
  - by rewrite !lookup_insert_ne.
Qed.

Lemma append_nil (p : path) (d : disk) : append p [] d = d.
Proof.
  apply map_eq. intros k. rewrite append_lookup. destruct (decide (k = p)) as [->|Hk]; [|done].
  destruct (d !! p) as [[|x]|]; [done|by rewrite app_nil_r|done].
Qed.

(** A copy without an error wrote the whole body. *)
Lemma writeCapped_ok (dst : string) (e : TarEntry) (limit : Z) (d : disk) (Q : disk → Z * option CopyErr → Prop) :
  (∀ s n err, (err = None → s = append (comps dst) (TBody e) d ∧ n = Z.of_nat (length (TBody e))) → Q s (n, err)) →
  (0 ≤ limit)%Z → under dstep (writeCapped dst e limit) d Q.
Proof.
  intros HQ Hl. unfold writeCapped. rewrite (proj2 (Z.ltb_ge limit 0)) by done.
  apply under_bind.
  assert (Hk : ∀ s (n : nat), (n ≤ length (take (Z.to_nat limit) (TBody e)))%nat →
    s = append (comps dst) (take n (take (Z.to_nat limit) (TBody e))) d →
    under dstep (if (n <? length (take (Z.to_nat limit) (TBody e)))%nat then Ret (Z.of_nat n, Some CopyFailed)
       else match drop (Z.to_nat limit) (TBody e) with
            | [] => if TBodyFails e && (Z.of_nat (length (TBody e)) <? limit)%Z then Ret (Z.of_nat n, Some CopyFailed)
                    else Ret (Z.of_nat n, None)
            | probe :: _ => bind (do_ (Write dst [probe])) (λ _, Ret (Z.of_nat n + 1, Some ExceededCap)%Z)
            end) s Q).
  { intros s n Hn ->. destruct (Nat.ltb_spec n (length (take (Z.to_nat limit) (TBody e)))) as [Hlt|Hge]; [by apply HQ|].
    destruct (drop (Z.to_nat limit) (TBody e)) as [|probe rest] eqn:Ed.
    - assert (Ht : take (Z.to_nat limit) (TBody e) = TBody e).
      { rewrite <- (take_drop (Z.to_nat limit) (TBody e)) at 2. by rewrite Ed, app_nil_r. }
      rewrite Ht in *. rewrite take_ge by lia. destruct (_ && _); apply HQ; [done|]. intros _. split; [done|lia].
    - intros r s' _. by apply HQ. }
  destruct (take (Z.to_nat limit) (TBody e)) as [|x chunk] eqn:E.
  - apply Hk; [done|]. by rewrite take_nil, append_nil.
  - intros n s [Hn ->]. by apply Hk.
Qed.

Section complete.
Context (cfg : UntarConfig) (Ha : absolute (DestDir cfg)) (Hlen : (0 ≤ UploadLength cfg < 2 ^ 62)%Z).
Abbreviation cap := (2 * UploadLength cfg)%Z.

Lemma extract_ok (written : Z) (e : TarEntry) (d : disk) :
  (0 ≤ written ≤ cap)%Z →
  under dstep (extract cfg written e) d (λ d' r, r.2 = None →
    check_header e = None ∧ d' = unpack cfg d e ∧ r.1 = content_size e ∧ d ⊆ d' ∧ unpacked cfg d' e).
Proof.
  intros Hw. unfold extract, unpack, unpacked, content_size, is_dir.
  destruct (check_header e) as [err|] eqn:Hh; [done|]. cbn zeta. destruct (outside _ _); [done|].
  destruct (check_header_ok _ Hh) as (_ & _ & Htype & _ & Ht). destruct (destination_comps cfg e Ha Ht) as [Habs Hc].
  destruct (Z.eqb_spec (TTypeflag e) TypeDir) as [Hd|Hd].
  { apply under_must. intros [] s Hs; [|done]. destruct Hs as [Hclear ->].
    apply under_must. intros [] s ->; [|done]. cbn. intros _. split_and!; try done; [apply mkdirs_grows|by apply mkdirs_folder]. }
  destruct (_ || _); [done|]. apply under_must. intros [] s Hs; [|done]. destruct Hs as [Hclear ->].
  rewrite comps_Dir in Hclear |- * by done. apply under_must. intros [] s Hs; [|done]. destruct Hs as (Hnone & Hne & _ & ->).
  rewrite remaining_room by done. cbn zeta. apply under_bind. apply writeCapped_ok; [|lia].
  intros s n err Herr closed s' ->. destruct err as [[]|]; [done..|]. destruct (Herr eq_refl) as [-> ->].
  destruct closed; [|done]. apply under_must. intros [] s ->; [|done]. cbn [under fst snd]. intros _.
  rewrite append_created. split_and!; try done.
  - transitivity (mkdirs (removelast (comps (destination cfg e))) d); [apply mkdirs_grows|by apply insert_subseteq].
  - by rewrite lookup_insert_eq.
Qed.

Lemma untar_loop_ok (truncated : bool) (es : list TarEntry) : ∀ (entries written : Z) (d : disk),
  (0 ≤ written ≤ cap)%Z →
  under dstep (untar_loop cfg truncated entries written es) d (λ d' r, let '(n, w, err) := r in err = None →
    truncated = false ∧ n = (entries + Z.of_nat (length es))%Z ∧ w = (written + total_size es)%Z ∧
    d' = foldl (unpack cfg) d es ∧ d ⊆ d' ∧ Forall (λ e, check_header e = None ∧ unpacked cfg d' e) es).
Proof.
  induction es as [|e es IH]; intros entries written d Hw; cbn [untar_loop].
  { destruct (_ <=? _)%Z; [done|]. destruct truncated; [done|]. cbn. intros _. split_and!; try done; lia. }
  destruct (_ <=? _)%Z; [done|]. apply under_bind.
  destruct (extract_adds cfg Hlen written e d (λ _ r, r.2 = None → (written + r.1 ≤ cap)%Z ∧ (0 ≤ r.1)%Z)) as [_ Hb].
  { done. } { intros s n err _ ? _ Hn E. cbn in *. split; [by apply Hn|done]. }
  eapply under_mono; [|exact (under_and _ _ _ _ _ (extract_ok written e d Hw) Hb)].
  intros s [n [err|]] [He Hbound]; [done|]. destruct (He eq_refl) as (H1 & -> & H3 & H4 & H5).
  destruct (Hbound eq_refl) as [B1 B2]. cbn [fst snd] in *. cbn zeta.
  eapply under_mono; [|apply IH; lia]. intros s [[n' w] err] Hr Herr.
  destruct (Hr Herr) as (R1 & R2 & R3 & R4 & R5 & R6). cbn [foldl total_size foldr length]. fold (total_size es).
  split_and!; try done; try lia.
  - by transitivity (unpack cfg d e).
  - constructor; [|done]. split; [done|]. by eapply unpacked_grows.
Qed.
End complete.

(** A successful extraction has unpacked the archive: it ended
    regularly, every entry passed the checks and was counted, the disk is
    what the entries make of it one after the other, each entry's folder or
    file (with its whole content) is there at the end, and nothing that was
    on the disk before was changed. *)
Lemma untar_unpacks (src : TarStream) (cfg : UntarConfig) (d : disk) :
  absolute (DestDir cfg) → (0 ≤ UploadLength cfg < 2 ^ 62)%Z →
  under dstep (Untar src cfg) d (λ d' r, let '(n, w, err) := r in err = None →
    Truncated src = false ∧ n = Z.of_nat (length (Entries src)) ∧ w = total_size (Entries src) ∧
    d' = foldl (unpack cfg) d (Entries src) ∧ d ⊆ d' ∧
    Forall (λ e, check_header e = None ∧ unpacked cfg d' e) (Entries src)).
Proof. intros Ha Hl. apply (untar_loop_ok cfg Ha Hl); lia. Qed.

(** *** An archive that can be extracted *)

(** Entries that fit on the disk, with [room] bytes to write. *)
Fixpoint fits (cfg : UntarConfig) (d : disk) (room : Z) (es : list TarEntry) : Prop :=
  match es with
  | [] => True
  | e :: rest =>
      check_header e = None ∧
      (if is_dir e then clear_way (entry_path cfg e) d
       else (0 ≤ TSize e ≤ UploadLength cfg)%Z ∧ TBodyFails e = false ∧ (content_size e ≤ room)%Z ∧
            entry_path cfg e ≠ [] ∧ clear_way (removelast (entry_path cfg e)) d ∧
            mkdirs (removelast (entry_path cfg e)) d !! entry_path cfg e = None) ∧
      fits cfg (unpack cfg d e) (room - content_size e) rest
  end.

Lemma writeCapped_fits (dst : string) (e : TarEntry) (limit : Z) (d : disk) (Q : disk → Z * option CopyErr → Prop) :
  TBodyFails e = false → (Z.of_nat (length (TBody e)) ≤ limit)%Z →
  (∀ s n, Q s (n, None)) → under hstep (writeCapped dst e limit) d Q.
Proof.
  intros Hf Hl HQ. unfold writeCapped. rewrite (proj2 (Z.ltb_ge limit 0)) by lia.
  rewrite take_ge, drop_ge by lia. rewrite Hf. cbn [andb]. apply under_bind. destruct (TBody e) as [|x body]; [by apply HQ|].
  intros n s [_ ->]. cbn [under]. rewrite (proj2 (Nat.ltb_ge _ _)) by done. apply HQ.
Qed.

Lemma fits_extract (cfg : UntarConfig) (written : Z) (e : TarEntry) (rest : list TarEntry) (d : disk) (room : Z) :
  absolute (DestDir cfg) → (0 ≤ UploadLength cfg < 2 ^ 62)%Z → (0 ≤ written)%Z → (room = 2 * UploadLength cfg - written)%Z →
  (0 ≤ room)%Z →
  fits cfg d room (e :: rest) → under hstep (extract cfg written e) d (λ _ r, r.2 = None).
Proof.
  intros Ha Hlen Hw Hroom Hr0 (Hh & Hfit & _). destruct (check_header_ok _ Hh) as (_ & _ & _ & _ & Ht).
  destruct (destination_comps cfg e Ha Ht) as [Habs _]. unfold extract. rewrite Hh. cbn zeta. rewrite never_outside by done.
  unfold is_dir, entry_path, content_size in Hfit. change (is_dir e) with (TTypeflag e =? TypeDir)%Z in Hfit.
  destruct (TTypeflag e =? TypeDir)%Z.
  { apply under_must. intros r s [Hs Hr]. rewrite Hr by done. apply under_must. by intros r' s' [_ ->]. }
  destruct Hfit as (Hsize & Hbody & Hroom2 & Hne & Hclear & Hnone).
  rewrite (proj2 (orb_false_iff _ _)) by (split; apply Z.ltb_ge; lia).
  apply under_must. intros r s [Hs Hr]. rewrite comps_Dir in Hr by done. rewrite Hr in Hs |- * by done.
  destruct Hs as [_ ->]. rewrite comps_Dir by done. apply under_must. intros r' s [Hs Hr'].
  rewrite Hr' by (done || by apply mkdirs_folder).
  rewrite remaining_room by lia. cbn zeta. apply under_bind, writeCapped_fits; [done|lia|].
  intros s' n closed s'' [_ ->]. cbn [negb]. apply under_must. by intros r'' s3 [_ ->].
Qed.

(** An archive that can be extracted is: on a disk where calls fail only
    where they must, an archive whose entries pass the checks, are within
    the limits and do not collide is extracted without an error, and so
    unpacked as [untar_unpacks] says. *)
Theorem untar_succeeds (src : TarStream) (cfg : UntarConfig) (d : disk) :
  absolute (DestDir cfg) → (0 ≤ UploadLength cfg < 2 ^ 62)%Z →
  Truncated src = false → (Z.of_nat (length (Entries src)) < max_entries cfg)%Z →
  fits cfg d (2 * UploadLength cfg) (Entries src) →
  under hstep (Untar src cfg) d (λ d' r,
    r = (Z.of_nat (length (Entries src)), total_size (Entries src), None) ∧ d' = foldl (unpack cfg) d (Entries src)).
Proof.
  intros Ha Hl Htr Hmax Hfits.
  assert (Hgo : ∀ es (entries written : Z) (d : disk),
    (0 ≤ entries)%Z → (entries + Z.of_nat (length es) < max_entries cfg)%Z → (0 ≤ written ≤ 2 * UploadLength cfg)%Z →
    fits cfg d (2 * UploadLength cfg - written) es →
    under hstep (untar_loop cfg false entries written es) d (λ _ r, r.2 = None)).
  { induction es as [|e es IH]; intros entries written d1 He Hm Hw Hf; cbn [untar_loop length] in *.
    - by rewrite (proj2 (Z.leb_gt _ _)) by lia.
    - rewrite (proj2 (Z.leb_gt _ _)) by lia. apply under_bind.
      destruct (extract_adds cfg Hl written e d1 (λ _ r, r.2 = None → (0 ≤ written + r.1 ≤ 2 * UploadLength cfg)%Z)) as [_ Hb].
      { done. } { intros s n err _ H0 _ Hn E. cbn in *. specialize (Hn E). lia. }
      pose proof (under_step_mono hstep dstep _ _ _ hstep_dstep (under_and _ _ _ _ _ (extract_ok cfg Ha Hl written e d1 Hw) Hb)) as Hok.
      eapply under_mono; [|exact (under_and _ _ _ _ _ (fits_extract cfg written e es d1 _ Ha Hl (proj1 Hw) eq_refl ltac:(lia) Hf) Hok)].
      intros s [n err] [E [Hex Hbd]]. cbn [snd fst] in *. subst err. destruct (Hex eq_refl) as (_ & -> & -> & _).
      destruct Hf as (_ & _ & Hf). apply IH; [lia|lia|by apply Hbd|]. by rewrite Z.sub_add_distr. }
  pose proof (under_step_mono hstep dstep _ _ _ hstep_dstep (untar_loop_ok cfg Ha Hl (Truncated src) (Entries src) 0 0 d ltac:(lia))) as Hok.
  rewrite Htr in Hok. unfold Untar. rewrite Htr.
  eapply under_mono; [|exact (under_and _ _ _ _ _ (Hgo (Entries src) 0%Z 0%Z d ltac:(lia) ltac:(lia) ltac:(lia) ltac:(by rewrite Z.sub_0_r)) Hok)].
  intros d' [[n w] err] [E Hr]. cbn in E. subst err. destruct (Hr eq_refl) as (_ & -> & -> & -> & _). by rewrite Z.add_0_l.
Qed.
