(* ===== verification/AStore.v ===== *)
(** internal/ingest/archives/store.go: the uploads in flight.

    The hasher of an upload is the list of the bytes it was fed; its mutex is
    not part of the state (see AHandler.v).  An upload that the handler
    creates has its metadata. *)
From S2P Require Import Prelude GoStrings GoPath Utf8 ESign Effects ADisk AMeta.
Local Open Scope string_scope.
Local Open Scope prog_scope.

Record UploadState := mkUpload {
  ID : string;
  SourceID : string;
  ArchiveID : string;
  SUploadLength : Z;
  Offset : Z;
  Hashed : bytes;
  Meta : UploadMeta;
  CreatedAt : Z;
  LastActivity : Z;
}.

(** What a PATCH writes back. *)
Definition set_progress (offset : Z) (hashed : bytes) (now : Z) (st : UploadState) : UploadState :=
  mkUpload (ID st) (SourceID st) (ArchiveID st) (SUploadLength st) offset hashed (Meta st) (CreatedAt st) now.

Record StoreConfig := mkStoreConfig { PerSourceMaxConcurrent : Z; GlobalMaxConcurrent : Z }.

Record Store := mkStore {
  uploads : gmap string UploadState;
  perSrc : gmap string Z;
  scfg : StoreConfig;
}.

Inductive StoreErr := ConcurrencyGlobal | ConcurrencyPerSource | UploadNotFound | StoreInternal.

Definition NewStore (cfg : StoreConfig) : Store := mkStore ∅ ∅ cfg.

(** s.perSrc[sourceID] *)
Definition in_flight (s : Store) (sourceID : string) : Z := default 0%Z (perSrc s !! sourceID).

(** newUploadID *)
Definition newUploadID : prog (option string) :=
  let! b := do_ Rand in Ret ((λ b, string_of_bytes (hex_encode b)) <$> (b : option bytes)).

(** The upload that Create registers. *)
Definition new_upload (id sourceID : string) (m : UploadMeta) (uploadLength now : Z) : UploadState :=
  mkUpload id sourceID (UArchiveID m) uploadLength 0 [] m now now.

Definition register (s : Store) (st : UploadState) : Store :=
  mkStore (<[ID st := st]> (uploads s)) (<[SourceID st := (in_flight s (SourceID st) + 1)%Z]> (perSrc s)) (scfg s).

Definition Create (s : Store) (sourceID : string) (m : UploadMeta) (uploadLength : Z)
    : prog (Store * res StoreErr UploadState) :=
  if (GlobalMaxConcurrent (scfg s) <=? Z.of_nat (size (uploads s)))%Z then Ret (s, Err ConcurrencyGlobal)
  else if (PerSourceMaxConcurrent (scfg s) <=? in_flight s sourceID)%Z then Ret (s, Err ConcurrencyPerSource)
  else
    let! id := newUploadID in
    match id with
    | None => Ret (s, Err StoreInternal)
    | Some id =>
        match uploads s !! id with
        | Some _ => Ret (s, Err StoreInternal)
        | None =>
            let! now := do_ Now in
            let st := new_upload id sourceID m uploadLength now in
            Ret (register s st, Ok st)
        end
    end.

Definition Get (s : Store) (id sourceID : string) : res StoreErr UploadState :=
  match uploads s !! id with
  | None => Err UploadNotFound
  | Some st => if negb (String.eqb (SourceID st) sourceID) then Err UploadNotFound else Ok st
  end.

Definition Remove (s : Store) (id : string) : Store :=
  match uploads s !! id with
  | None => s
  | Some st =>
      let n := (in_flight s (SourceID st) - 1)%Z in
      mkStore (delete id (uploads s))
        (if (n <=? 0)%Z then delete (SourceID st) (perSrc s) else <[SourceID st := n]> (perSrc s)) (scfg s)
  end.

(** The handlers change an upload in place. *)
Definition update (s : Store) (st : UploadState) : Store :=
  mkStore (<[ID st := st]> (uploads s)) (perSrc s) (scfg s).

(** ** The counters *)

Definition of_source (src : string) (s : Store) : gmap string UploadState :=
  filter (λ kv, SourceID kv.2 = src) (uploads s).

(** The table is keyed by the uploads' ids, the counters count, and both caps
    hold. *)
Record store_ok (s : Store) : Prop := {
  so_ids : ∀ id st, uploads s !! id = Some st → ID st = id;
  so_counts : ∀ src, in_flight s src = Z.of_nat (size (of_source src s));
  so_clean : ∀ src n, perSrc s !! src = Some n → (0 < n)%Z;
  so_global : (Z.of_nat (size (uploads s)) ≤ Z.max 0 (GlobalMaxConcurrent (scfg s)))%Z;
  so_per_source : ∀ src, (in_flight s src ≤ Z.max 0 (PerSourceMaxConcurrent (scfg s)))%Z;
}.

Lemma new_store_ok cfg : store_ok (NewStore cfg).
Proof.
  assert (H : ∀ src, in_flight (NewStore cfg) src = 0%Z) by (intros src; unfold in_flight; cbn; by rewrite lookup_empty).
  constructor.
  - done.
  - intros src. rewrite H. unfold of_source. cbn. by rewrite map_filter_empty.
  - done.
  - cbn. rewrite map_size_empty. lia.
  - intros src. rewrite H. lia.
Qed.

Lemma of_source_insert (src : string) (s : Store) (st : UploadState) :
  filter (λ kv, SourceID kv.2 = src) (<[ID st := st]> (uploads s))
  = if decide (SourceID st = src) then <[ID st := st]> (of_source src s) else delete (ID st) (of_source src s).
Proof.
  destruct (decide (SourceID st = src)) as [H|H].
  - by rewrite map_filter_insert_True.
  - rewrite map_filter_insert_False by done. unfold of_source. by rewrite map_filter_delete.
Qed.

(** Registering a new upload, when the caps allow it. *)
Lemma register_ok (s : Store) (st : UploadState) :
  store_ok s → uploads s !! ID st = None →
  (Z.of_nat (size (uploads s)) < GlobalMaxConcurrent (scfg s))%Z →
  (in_flight s (SourceID st) < PerSourceMaxConcurrent (scfg s))%Z → store_ok (register s st).
Proof.
  intros [H1 H2 H3 H4 H5] Hn Hg Hp.
  assert (Hc : ∀ src, in_flight (register s st) src = (in_flight s src + if decide (SourceID st = src) then 1 else 0)%Z).
  { intros src. unfold in_flight, register. cbn. destruct (decide (SourceID st = src)) as [<-|H].
    - by rewrite lookup_insert_eq.
    - rewrite lookup_insert_ne by done. lia. }
  constructor.
  - intros id st'. cbn. intros [[<- <-]|[_ H]]%lookup_insert_Some; [done|by apply H1].
  - intros src. rewrite Hc, H2. unfold of_source at 2. cbn. rewrite of_source_insert. destruct (decide _) as [<-|H].
    + rewrite map_size_insert_None; [lia|]. unfold of_source. apply map_lookup_filter_None. by left.
    + rewrite delete_id; [lia|]. unfold of_source. apply map_lookup_filter_None. by left.
  - intros src n. cbn. intros [[<- <-]|[_ H]]%lookup_insert_Some; [|by eapply H3].
    rewrite H2. lia.
  - cbn. rewrite map_size_insert_None by done. lia.
  - intros src. rewrite Hc. cbn. destruct (decide _) as [<-|]; [lia|]. specialize (H5 src). lia.
Qed.

Lemma remove_ok (s : Store) (id : string) : store_ok s → store_ok (Remove s id).
Proof.
  intros Hok. destruct Hok as [H1 H2 H3 H4 H5]. unfold Remove. destruct (uploads s !! id) as [st|] eqn:E; [|done].
  cbn zeta. set (n := (in_flight s (SourceID st) - 1)%Z). set (ps := if (n <=? 0)%Z then _ else _).
  assert (Hc : ∀ src, default 0%Z (ps !! src) = (in_flight s src - if decide (SourceID st = src) then 1 else 0)%Z).
  { intros src. unfold ps. destruct (decide (SourceID st = src)) as [<-|H].
    - assert (0 ≤ n)%Z.
      { unfold n. rewrite H2. assert (size (of_source (SourceID st) s) ≠ 0)%nat; [|lia]. intros Hz%map_size_empty_inv.
        assert (Hin : of_source (SourceID st) s !! id = Some st) by by apply map_lookup_filter_Some. by rewrite Hz in Hin. }
      destruct (Z.leb_spec n 0); [rewrite lookup_delete_eq; cbn; fold n; lia|by rewrite lookup_insert_eq].
    - unfold in_flight. rewrite Z.sub_0_r. by destruct (_ <=? _)%Z; rewrite ?lookup_delete_ne, ?lookup_insert_ne by done. }
  constructor.
  - intros id' st'. cbn. intros [_ H]%lookup_delete_Some. by apply H1.
  - intros src. unfold in_flight at 1. cbn. rewrite Hc, H2. unfold of_source at 2. cbn. rewrite map_filter_delete.
    fold (of_source src s). destruct (decide (SourceID st = src)) as [<-|H].
    + assert (Hin : of_source (SourceID st) s !! id = Some st) by by apply map_lookup_filter_Some.
      rewrite map_size_delete_Some by by eexists. assert (size (of_source (SourceID st) s) ≠ 0)%nat; [|lia].
      intros Hz%map_size_empty_inv. by rewrite Hz in Hin.
    + rewrite delete_id; [lia|]. apply map_lookup_filter_None. right. intros st' H'. rewrite E in H'. by injection H' as <-.
  - intros src m. cbn. unfold ps. destruct (Z.leb_spec n 0).
    + intros [_ H']%lookup_delete_Some. by eapply H3.
    + intros [[<- <-]|[_ H']]%lookup_insert_Some; [done|by eapply H3].
  - cbn. rewrite map_size_delete_Some by (by eexists). lia.
  - intros src. unfold in_flight. cbn. rewrite Hc. specialize (H5 src). destruct (decide _); lia.
Qed.

Lemma update_ok (s : Store) (st st0 : UploadState) :
  store_ok s → uploads s !! ID st = Some st0 → SourceID st = SourceID st0 → store_ok (update s st).
Proof.
  intros [H1 H2 H3 H4 H5] E Hs. constructor; try done.
  - intros id st'. cbn. intros [[<- <-]|[_ H]]%lookup_insert_Some; [done|by apply H1].
  - intros src. change (in_flight (update s st) src) with (in_flight s src). rewrite H2. unfold of_source at 2. cbn.
    rewrite of_source_insert. destruct (decide _) as [<-|H].
    + rewrite map_size_insert_Some; [done|]. exists st0. by apply map_lookup_filter_Some.
    + rewrite delete_id; [done|]. apply map_lookup_filter_None. right. intros st' Hst'. rewrite E in Hst'. injection Hst' as <-. cbn. congruence.
  - cbn. by rewrite map_size_insert_Some by by eexists.
Qed.
