(* ===== verification/AFinalize.v ===== *)
(** internal/ingest/archives/finalize.go and scan_extract.go: how a complete
    upload becomes a published archive.

    SHA-256, the JSON of a receipt, what archive/tar reads in the bytes of an
    upload and the printed form of a score are parameters.  An error is the
    sentinel the handler tells apart, or the step that failed. *)
From S2P Require Import Prelude GoStrings GoFloat GoPath Utf8 EDecode EScore DSubject Effects ADisk AMeta ATar AStore.
Local Open Scope string_scope.
Local Open Scope prog_scope.

(** ** Data *)

(** ingest.Identity *)
Record Identity := mkIngestIdentity { IProvider : string; IAuthMethod : string; IAccountID : string }.

Record FinalizeReceipt := mkReceipt {
  RArchiveID : string;
  RReceivedAt : Z;
  RDeliveredBy : string;
  RIdentity : option Identity;
  RMediaType : string;
  RMatcherID : string;
  RSource : string;
  RSizeBytes : Z;
  RSHA256 : string;
  RSHA256Verified : bool;
  RStagedPath : string;
  REntriesExtracted : Z;
  RRawFilename : string;
  RAcquisition : option Identity;
  RDataSubject : string;
  RAudience : option (list string);
}.

Definition set_extracted (entries : Z) (raw : string) (r : FinalizeReceipt) : FinalizeReceipt :=
  mkReceipt (RArchiveID r) (RReceivedAt r) (RDeliveredBy r) (RIdentity r) (RMediaType r) (RMatcherID r) (RSource r)
    (RSizeBytes r) (RSHA256 r) (RSHA256Verified r) (RStagedPath r) entries raw (RAcquisition r) (RDataSubject r)
    (RAudience r).

Class ArchiveLib := {
  sha256 : bytes → bytes;
  MarshalReceipt : FinalizeReceipt → option bytes;
  UnmarshalReceipt : bytes → option FinalizeReceipt;
  ReadTar : bytes → TarStream;
  FormatScore : spec_float → string;
}.

Inductive FinalizeErr :=
| SHAMismatch
| SizeMismatch
| ArchiveExists
| SourceNotAuthorized
| UntarFailed (e : TarErr)
| FinalizeInternal (step : string).

(** A scanner of extracted text: content and its type to a result. *)
Definition ExtractScanner : Type := bytes → string → option ScanResult.

Record FinalizeConfig := mkFinalizeConfig {
  StagingRoot : string;
  Sources : option SourceRegistry;
  Scanner : option ExtractScanner;
}.

Definition recognizerScanMediaType : string := "archive/recognizer-scan".
Definition recognizerScannerKind : string := "recognizer-scanner".
Definition finalizeDirMode : Z := 448.  (* 0700 *)
Definition finalizeFileMode : Z := 384. (* 0600 *)

(** ingest.BuildIdentity, from the source-id of the context. *)
Definition BuildIdentity (deliveredBy : option string) : option Identity :=
  (λ sid, mkIngestIdentity "ingest" "bearer_token" sid) <$> deliveredBy.

(** scannerLanePolicy *)
Definition scannerLanePolicy (reg : option SourceRegistry) (sourceID : string) : option sourcePolicy :=
  match Lookup reg sourceID with
  | Some pol => if String.eqb (kind pol) recognizerScannerKind then Some pol else None
  | None => None
  end.

(** ** Paths *)

Definition tmp_path (root id : string) : string := Join [root; ".tmp-archives"; id].
Definition finalize_dir (root id : string) : string := Join [root; ".tmp-archives"; id ++ ".finalize"].

(** ** Steps *)

Definition cleanupTmp (root id : string) : prog () :=
  let! _ := do_ (ADisk.Remove (tmp_path root id)) in
  let! _ := do_ (RemoveAll (finalize_dir root id)) in
  Ret ().

(** A call whose failure is returned after [cleanup]. *)
Definition guarded {E A} (cleanup : prog ()) (o : prog bool) (e : E) (k : prog (res E A)) : prog (res E A) :=
  let! r := o in
  if r then k else let! _ := cleanup in Ret (Err e).

(** atomicWriteSibling *)
Definition atomicWriteSibling (path : string) (data : bytes) (mode : Z) : prog bool :=
  let tmpPath := Join [Dir path; Base path ++ ".tmp"] in
  let! created := do_ (CreateExcl tmpPath) in
  if negb created then Ret false
  else
    let drop := do_ (ADisk.Remove tmpPath) in
    let! n := do_ (Write tmpPath data) in
    if (n <? length data)%nat then
      let! _ := do_ (Close tmpPath) in let! _ := drop in Ret false
    else
      let! synced := do_ (Sync tmpPath) in
      if negb synced then let! _ := do_ (Close tmpPath) in let! _ := drop in Ret false
      else
        let! closed := do_ (Close tmpPath) in
        if negb closed then let! _ := drop in Ret false
        else
          let! moded := do_ (Chmod tmpPath mode) in
          if negb moded then let! _ := drop in Ret false
          else
            let! renamed := do_ (Rename tmpPath path) in
            if negb renamed then let! _ := drop in Ret false else Ret true.

Section finalize.
Context {lib : ArchiveLib}.

(** ** scan_extract.go *)

Definition line (s : string) : bytes := (bytes_of_string s ++ [10%Z])%list.

Fixpoint signal_names (sigs : list Signal) : string :=
  match sigs with
  | [] => ""
  | [s] => SName s
  | s :: rest => SName s ++ ", " ++ signal_names rest
  end.

(** The rendered document; no document for an empty text. *)
Definition renderExtractedMarkdown (ocr : bytes) (verdict : ScanResult) : option bytes :=
  if String.eqb (trim_space (string_of_bytes ocr)) "" then None
  else
    match RVerdict verdict with
    | VerdictQuarantine =>
        Some (line "# Scanned document (withheld)" ++ line ""
              ++ bytes_of_string "The extracted text of this scan was quarantined by the content scanner "
              ++ line "and is not reproduced here." ++ line ""
              ++ line ("- score: " ++ FormatScore (TotalScore verdict))
              ++ bytes_of_string "- signals: " ++ bytes_of_string (signal_names (Signals verdict)) ++ line ""
              ++ line "- raw text: tree/ocr.txt (unmodified, for human review)")%list
    | _ => Some (line "# Scanned document" ++ line "" ++ ocr ++ line "")%list
    end.

Definition writeExtractedMarkdown (finalizeDir : string) (scanner : option ExtractScanner) : prog bool :=
  let! ocr := do_ (ReadFile (Join [finalizeDir; "tree"; "ocr.txt"])) in
  match (ocr : found bytes) with
  | Found ocr =>
      match scanner with
      | None => Ret false
      | Some scan =>
          match scan ocr "text/plain" with
          | None => Ret false
          | Some verdict =>
              match renderExtractedMarkdown ocr verdict with
              | None => Ret false
              | Some md => atomicWriteSibling (Join [finalizeDir; "content.extracted.md"]) md finalizeFileMode
              end
          end
      end
  | _ => Ret false
  end.

(** ** Finalize *)

Section one.
Context (cfg : FinalizeConfig) (st : UploadState) (deliveredBy : option string).

Abbreviation meta := (Meta st).
Abbreviation cleanup := (cleanupTmp (StagingRoot cfg) (ID st)).
Abbreviation tmpPath := (tmp_path (StagingRoot cfg) (ID st)).
Abbreviation finalizeDir := (finalize_dir (StagingRoot cfg) (ID st)).

(** An error after the cleanup. *)
Definition fail {A} (e : FinalizeErr) : prog (res FinalizeErr A) := let! _ := cleanup in Ret (Err e).

(** The receipt, before the archive is unpacked. *)
Definition receipt_skeleton (scanner : option sourcePolicy) (now : Z) : FinalizeReceipt :=
  let acquisition :=
    if String.eqb (UAcqProvider meta) "" then None
    else Some (mkIngestIdentity (UAcqProvider meta) (UAcqAuthMethod meta) (UAcqAccountID meta)) in
  let staged := Join ["archives"; ArchiveID st] in
  match scanner with
  | None =>
      mkReceipt (ArchiveID st) now (SourceID st) (BuildIdentity deliveredBy) (UMediaType meta) (UMatcherID meta) ""
        (SUploadLength st) (USHA256 meta) true staged 0 "" acquisition (UDataSubject meta) (UAudience meta)
  | Some pol =>
      mkReceipt (ArchiveID st) now (SourceID st) (BuildIdentity deliveredBy) (UMediaType meta) (UMatcherID meta)
        (SourceID st) (SUploadLength st) (USHA256 meta) true staged 0 "" acquisition
        (if String.eqb (UDataSubject meta) "" then dataSubjectDefault pol else UDataSubject meta)
        (audienceDefault pol)
  end.

(** Step 4 for a raw file. *)
Definition stage_raw (receipt : FinalizeReceipt) : prog (res FinalizeErr FinalizeReceipt) :=
  let rawDir := Join [finalizeDir; "raw"] in
  let dst := Join [rawDir; UArchiveFilename meta] in
  guarded cleanup (do_ (MkdirAll rawDir)) (FinalizeInternal "mkdir raw")
    (guarded cleanup (do_ (Chmod rawDir finalizeDirMode)) (FinalizeInternal "chmod raw")
       (guarded cleanup (do_ (Rename tmpPath dst)) (FinalizeInternal "rename tmp -> raw")
          (guarded cleanup (do_ (Chmod dst finalizeFileMode)) (FinalizeInternal "chmod raw file")
             (Ret (Ok (set_extracted 0 (UArchiveFilename meta) receipt)))))).

(** Step 4 for a tar archive. *)
Definition stage_tar (isScanner : bool) (receipt : FinalizeReceipt) : prog (res FinalizeErr FinalizeReceipt) :=
  let treeDir := Join [finalizeDir; "tree"] in
  guarded cleanup (do_ (MkdirAll treeDir)) (FinalizeInternal "mkdir tree")
    (guarded cleanup (do_ (Chmod treeDir finalizeDirMode)) (FinalizeInternal "chmod tree")
       (guarded cleanup (do_ (OpenRead tmpPath)) (FinalizeInternal "open tmp for untar")
          (let! content := do_ (ReadFile tmpPath) in
           let src := match (content : found bytes) with Found data => ReadTar data | _ => mkStream [] true end in
           let! r := Untar src (mkUntarConfig treeDir (SUploadLength st) 0) in
           let '(entries, _, uerr) := r in
           let! closed := do_ (Close tmpPath) in
           match uerr with
           | Some e => fail (UntarFailed e)
           | None =>
               if negb closed then fail (FinalizeInternal "close tmp after untar")
               else
                 let! rm := do_ (ADisk.Remove tmpPath) in
                 match (rm : outcome) with
                 | Failed => fail (FinalizeInternal "remove tmp after untar")
                 | _ =>
                     let receipt := set_extracted entries (RRawFilename receipt) receipt in
                     if isScanner then
                       guarded cleanup (writeExtractedMarkdown finalizeDir (Scanner cfg)) (FinalizeInternal "extract")
                         (Ret (Ok receipt))
                     else Ret (Ok receipt)
                 end
           end))).

(** Steps 5 and 6. *)
Definition publish (receipt : FinalizeReceipt) : prog (res FinalizeErr FinalizeReceipt) :=
  match MarshalReceipt receipt with
  | None => fail (FinalizeInternal "marshal receipt")
  | Some metaBytes =>
      guarded cleanup (atomicWriteSibling (Join [finalizeDir; "metadata.json"]) metaBytes finalizeFileMode)
        (FinalizeInternal "write metadata")
        (let finalPath := Join [StagingRoot cfg; "archives"; ArchiveID st] in
         guarded cleanup (do_ (MkdirAll (Dir finalPath))) (FinalizeInternal "mkdir archives parent")
           (let! there := do_ (Stat finalPath) in
            match (there : found (bool * Z)) with
            | Found _ => let! _ := do_ (RemoveAll finalizeDir) in Ret (Err ArchiveExists)
            | _ =>
                let! renamed := do_ (Rename finalizeDir finalPath) in
                if renamed then Ret (Ok receipt)
                else let! _ := do_ (RemoveAll finalizeDir) in Ret (Err (FinalizeInternal "rename to final"))
            end))
  end.

Definition Finalize : prog (res FinalizeErr FinalizeReceipt) :=
  let scanner := scannerLanePolicy (Sources cfg) (SourceID st) in
  let isScanner := bool_decide (is_Some scanner) in
  if String.eqb (UMediaType meta) recognizerScanMediaType && negb isScanner then fail SourceNotAuthorized
  else match decode_hex (bytes_of_string (USHA256 meta)) with
  | None => fail SHAMismatch
  | Some claimed =>
      if negb (bool_decide (sha256 (Hashed st) = claimed)) then fail SHAMismatch
      else
        let! fi := do_ (Stat tmpPath) in
        match (fi : found (bool * Z)) with
        | Found (_, size) =>
            if negb (size =? SUploadLength st)%Z then fail SizeMismatch
            else
              guarded cleanup (do_ (MkdirAll finalizeDir)) (FinalizeInternal "mkdir finalize")
                (guarded cleanup (do_ (Chmod finalizeDir finalizeDirMode)) (FinalizeInternal "chmod finalize")
                   (let! now := do_ Now in
                    let receipt := receipt_skeleton scanner now in
                    let staged :=
                      match Shape meta with
                      | Some MediaRaw => stage_raw receipt
                      | Some MediaTar => stage_tar isScanner receipt
                      | None => fail (FinalizeInternal "unknown media shape")
                      end in
                    let! r := staged in
                    match r with
                    | Err e => Ret (Err e)
                    | Ok receipt => publish receipt
                    end))
        | _ => fail (FinalizeInternal "stat tmp")
        end
  end.
End one.
End finalize.
