(* ===== verification/AHandler.v ===== *)
(** internal/ingest/archives/handler.go: the tus protocol over the uploads in
    flight (AStore.v), the disk (ADisk.v) and Finalize (AFinalize.v).

    A handler is a program from the table of uploads to the new table and the
    response; TryLock on an upload's mutex is answered by the environment.
    The source-id is what the authentication middleware put into the context.
    Metrics and log lines are dropped. *)
From S2P Require Import Prelude GoStrings GoFloat GoPath Utf8 DSubject Effects ADisk AMeta ATar AStore AFinalize.
Local Open Scope string_scope.
Local Open Scope prog_scope.

(** ** Requests and responses *)

(** What the body's reader gives, call after call: chunks, and at last an
    ending that may come with some bytes. *)
Inductive BodyEnd := BodyEOF | BodyTimeout | BodyError.
#[export] Instance BodyEnd_eq_dec : EqDecision BodyEnd.
Proof. solve_decision. Defined.
Record Body := mkBody { BChunks : list bytes; BTail : bytes; BEnd : BodyEnd }.

Record Request := mkRequest {
  Method : string;
  URLPath : string;
  Header : gmap string string;
  ContextSource : option string;
  RBody : Body;
}.

Record Response := mkResponse {
  Status : Z;
  ErrorCode : string;
  Headers : list (string * string);
  TusExpires : option Z;
  Expected : option Z;
  Receipt : option FinalizeReceipt;
}.

Definition tusVersion : string := "1.0.0".
Definition tusExtensions : string := "creation,termination,checksum".
Definition patchContentType : string := "application/offset+octet-stream".
Definition archivesBasePath : string := "/v1/archives".

(** r.Header.Get *)
Definition header (r : Request) (name : string) : string := default "" (Header r !! name).

(** ingest.DeliveredBy: the empty source-id is none. *)
Definition DeliveredBy (r : Request) : option string :=
  match ContextSource r with Some s => if String.eqb s "" then None else Some s | None => None end.

(** writeErrorJSON *)
Definition writeErrorJSON (status : Z) (code : string) : Response := mkResponse status code [] None None None.
Definition error_with (status : Z) (code : string) (hs : list (string * string)) : Response :=
  mkResponse status code hs None None None.
Definition reply (status : Z) (hs : list (string * string)) (expires : option Z) : Response :=
  mkResponse status "" hs expires None None.
Definition writeOffsetMismatch (expected : Z) : Response := mkResponse 409 "offset_mismatch" [] None (Some expected) None.

Definition tus_ok (r : Request) : bool := String.eqb (header r "Tus-Resumable") tusVersion.
(** checkTusResumable, when it refuses. *)
Definition precondition_failed : Response := reply 412 [("Tus-Version", tusVersion)] None.

(** strings.TrimPrefix *)
Definition trim_prefix (p s : string) : string :=
  if has_prefix p s then String.substring (String.length p) (String.length s) s else s.

Definition extractUploadID (path : string) : string :=
  let rest := trim_prefix "/" (trim_prefix archivesBasePath path) in
  match split_on slash rest with seg :: _ => seg | [] => rest end.

Definition mapMetadataError (e : MetaErr) : Z * string :=
  match e with
  | MetadataTooLong => (431%Z, "metadata_too_long")
  | MetadataMissing _ => (400%Z, "metadata_missing")
  | MetadataReservedKey _ => (400%Z, "metadata_reserved_key")
  | MetadataUnknownMediaType _ => (400%Z, "unknown_media_type")
  | MetadataSizeMismatch => (400%Z, "size_mismatch")
  | MetadataInvalid _ => (400%Z, "metadata_invalid")
  end.

(** recordFinalizeFailure *)
Definition finalize_failure (e : FinalizeErr) : Z * string :=
  match e with
  | SHAMismatch => (400%Z, "sha256_mismatch")
  | SizeMismatch => (400%Z, "size_mismatch")
  | ArchiveExists => (409%Z, "archive_id_conflict")
  | SourceNotAuthorized => (403%Z, "source_not_authorized")
  | UntarFailed t =>
      match ClassifyReason (Some t) with
      | Some _ => (400%Z, "tar_unsafe_entry")
      | None => (500%Z, "internal_finalize")
      end
  | FinalizeInternal _ => (500%Z, "internal_finalize")
  end.

Record HandlerConfig := mkHandlerConfig {
  HStagingRoot : string;
  TusMaxSize : Z;
  TmpExpiry : Z;
  HSources : option SourceRegistry;
  HScanner : option ExtractScanner;
}.

Definition upload_location (id : string) : string := archivesBasePath ++ "/" ++ id.

(** ** The body of a PATCH *)

(** What io.Copy(MultiWriter(file, hasher, counter), LimitReader(body, n))
    does: the bytes that all three writers took, and whether it ended in an
    error, of the body or of the file. *)
Inductive PatchErr := FromBody (e : BodyEnd) | FromDisk.

(** One Write of the MultiWriter; io.Copy makes none for an empty read. *)
Definition write_chunk (tmpPath : string) (c : bytes) : prog bool :=
  match c with
  | [] => Ret true
  | _ => let! n := do_ (Write tmpPath c) in Ret (negb (n <? length c)%nat)
  end.

Fixpoint copy_chunks (tmpPath : string) (landed : bytes) (limit : nat) (chunks : list bytes) (tail : bytes) (ending : BodyEnd)
    {struct chunks} : prog (bytes * option PatchErr) :=
  match limit with
  | O => Ret (landed, None)
  | _ =>
      match chunks with
      | c :: rest =>
          let c := take limit c in
          let! ok := write_chunk tmpPath c in
          if ok then copy_chunks tmpPath (landed ++ c)%list (limit - length c) rest tail ending
          else Ret (landed, Some FromDisk)
      | [] =>
          let c := take limit tail in
          let! ok := write_chunk tmpPath c in
          if negb ok then Ret (landed, Some FromDisk)
          else Ret ((landed ++ c)%list,
                    if (limit <? length tail)%nat then None
                    else match ending with BodyEOF => None | e => Some (FromBody e) end)
      end
  end.

Section handlers.
Context {lib : ArchiveLib} (Quote : string → string) (cfg : HandlerConfig).
(** QuotaProvider.ShouldBlock, which is asked once. *)
Context (blocked : bool).

Definition handler_result : Type := Store * Response.

(** requireDeliveredBy *)
Definition require_source (s : Store) (r : Request) (k : string → prog handler_result) : prog handler_result :=
  match DeliveredBy r with
  | None => Ret (s, writeErrorJSON 500 "internal_wiring")
  | Some sid => k sid
  end.

(** The preamble of HEAD, PATCH and DELETE. *)
Definition with_upload (s : Store) (r : Request) (k : string → UploadState → prog handler_result) : prog handler_result :=
  if negb (tus_ok r) then Ret (s, precondition_failed)
  else require_source s r (λ sid,
    let id := extractUploadID (URLPath r) in
    if String.eqb id "" then Ret (s, writeErrorJSON 404 "upload_not_found")
    else match Get s id sid with
    | Err _ => Ret (s, writeErrorJSON 404 "upload_not_found")
    | Ok st => k id st
    end).

(** *** OPTIONS *)

Definition options (s : Store) : handler_result :=
  (s, reply 200 [("Tus-Version", tusVersion); ("Tus-Max-Size", itoa (TusMaxSize cfg)); ("Tus-Extension", tusExtensions);
                 ("Tus-Resumable", tusVersion)] None).

(** *** POST *)

(** Zero when there is no collision. *)
Definition preflightIdempotency (sourceID : string) (m : UploadMeta) : prog (Z * string) :=
  let metaPath := Join [HStagingRoot cfg; "archives"; UArchiveID m; "metadata.json"] in
  let! fi := do_ (Stat metaPath) in
  match (fi : found (bool * Z)) with
  | Missing => Ret (0%Z, "")
  | Broken => Ret (500%Z, "internal_idempotency")
  | Found (true, _) => Ret (500%Z, "internal_idempotency")
  | Found (false, _) =>
      let! data := do_ (ReadFile metaPath) in
      match (data : found bytes) with
      | Found data =>
          match UnmarshalReceipt data with
          | None => Ret (500%Z, "internal_idempotency")
          | Some existing =>
              if String.eqb (RDeliveredBy existing) sourceID && String.eqb (RSHA256 existing) (USHA256 m)
              then Ret (303%Z, "") else Ret (409%Z, "archive_id_conflict")
          end
      | _ => Ret (500%Z, "internal_idempotency")
      end
  end.

(** Steps 9 to 13. *)
Definition allocate (s : Store) (sourceID : string) (m : UploadMeta) (uploadLength : Z) : prog handler_result :=
  let! c := Create s sourceID m uploadLength in
  let '(s, created) := c in
  match created with
  | Err ConcurrencyGlobal => Ret (s, error_with 429 "concurrent_uploads_global" [("Retry-After", "60")])
  | Err ConcurrencyPerSource => Ret (s, error_with 429 "concurrent_uploads_per_source" [("Retry-After", "60")])
  | Err _ => Ret (s, writeErrorJSON 500 "internal_state")
  | Ok st =>
      let tmpPath := tmp_path (HStagingRoot cfg) (ID st) in
      let! made := do_ (MkdirAll (Join [HStagingRoot cfg; ".tmp-archives"])) in
      if negb made then Ret (AStore.Remove s (ID st), writeErrorJSON 500 "internal_state")
      else
        let! opened := do_ (CreateExcl tmpPath) in
        if negb opened then Ret (AStore.Remove s (ID st), writeErrorJSON 500 "internal_state")
        else
          let! closed := do_ (Close tmpPath) in
          if negb closed then
            let! _ := do_ (ADisk.Remove tmpPath) in
            Ret (AStore.Remove s (ID st), writeErrorJSON 500 "internal_state")
          else
            let! now := do_ Now in
            Ret (s, reply 201 [("Location", upload_location (ID st)); ("Tus-Resumable", tusVersion)]
                      (Some (now + TmpExpiry cfg)%Z))
  end.

Definition create (s : Store) (r : Request) : prog handler_result :=
  if negb (tus_ok r) then Ret (s, precondition_failed)
  else if String.eqb (header r "Upload-Length") "" then Ret (s, writeErrorJSON 400 "upload_length_missing")
  else match atoi (header r "Upload-Length") with
  | None => Ret (s, writeErrorJSON 400 "upload_length_invalid")
  | Some uploadLength =>
      if (uploadLength <? 0)%Z then Ret (s, writeErrorJSON 400 "upload_length_invalid")
      else if (0 <? TusMaxSize cfg)%Z && (TusMaxSize cfg <? uploadLength)%Z
      then Ret (s, writeErrorJSON 413 "upload_length_exceeds_max")
      else if String.eqb (header r "Upload-Metadata") "" then Ret (s, writeErrorJSON 400 "upload_metadata_missing")
      else require_source s r (λ sourceID,
        match ParseUploadMetadata Quote (header r "Upload-Metadata") uploadLength with
        | Err e => let '(status, code) := mapMetadataError e in Ret (s, writeErrorJSON status code)
        | Ok m =>
            let! idem := preflightIdempotency sourceID m in
            let '(status, code) := idem in
            if (status =? 303)%Z
            then Ret (s, reply 303 [("Location", upload_location (UArchiveID m)); ("Tus-Resumable", tusVersion)] None)
            else if (status =? 409)%Z then Ret (s, writeErrorJSON 409 "archive_id_conflict")
            else if negb (status =? 0)%Z then Ret (s, writeErrorJSON status code)
            else if blocked then Ret (s, error_with 503 "storage_hard_cap" [("Retry-After", "600")])
            else allocate s sourceID m uploadLength
        end)
  end.

(** *** HEAD *)

Definition head (s : Store) (r : Request) : prog handler_result :=
  with_upload s r (λ _ st,
    Ret (s, reply 200 [("Upload-Offset", itoa (Offset st)); ("Upload-Length", itoa (SUploadLength st));
                       ("Tus-Resumable", tusVersion); ("Cache-Control", "no-store")]
              (Some (CreatedAt st + TmpExpiry cfg)%Z))).

(** *** PATCH *)

Definition finalize_config : FinalizeConfig := mkFinalizeConfig (HStagingRoot cfg) (HSources cfg) (HScanner cfg).

Definition finalizeAndRespond (s : Store) (r : Request) (id : string) (st : UploadState) : prog handler_result :=
  let! result := Finalize finalize_config st (DeliveredBy r) in
  match result with
  | Err e =>
      let '(status, code) := finalize_failure e in
      Ret (AStore.Remove s id, writeErrorJSON status code)
  | Ok _ =>
      Ret (AStore.Remove s id,
           reply 204 [("Upload-Offset", itoa (Offset st)); ("Tus-Resumable", tusVersion)] None)
  end.

(** The upload's part of a PATCH, with the mutex held. *)
Definition patch_locked (s : Store) (r : Request) (id : string) (clientOffset : Z) (st : UploadState) : prog handler_result :=
  if negb (clientOffset =? Offset st)%Z then Ret (s, writeOffsetMismatch (Offset st))
  else
    let tmpPath := tmp_path (HStagingRoot cfg) id in
    let! opened := do_ (OpenAppend tmpPath) in
    if negb opened then Ret (s, writeErrorJSON 500 "internal_state")
    else
      let remaining := Z.to_nat (SUploadLength st - Offset st) in
      let! copied := copy_chunks tmpPath [] remaining (BChunks (RBody r)) (BTail (RBody r)) (BEnd (RBody r)) in
      let '(landed, copyErr) := copied in
      let! now := do_ Now in
      let st := set_progress (Offset st + Z.of_nat (length landed)) (Hashed st ++ landed)%list now st in
      let s := update s st in
      match copyErr with
      | Some (FromBody BodyTimeout) =>
          let! _ := do_ (Close tmpPath) in Ret (s, writeErrorJSON 408 "patch_idle_timeout")
      | Some _ =>
          let! expired := do_ Expired in
          let! _ := do_ (Close tmpPath) in
          if expired then Ret (s, writeErrorJSON 408 "patch_idle_timeout")
          else Ret (s, writeErrorJSON 400 "patch_body_truncated")
      | None =>
          let! _ := do_ (Close tmpPath) in
          if (SUploadLength st <=? Offset st)%Z then finalizeAndRespond s r id st
          else Ret (s, reply 204 [("Upload-Offset", itoa (Offset st)); ("Tus-Resumable", tusVersion)] None)
      end.

Definition patch (s : Store) (r : Request) : prog handler_result :=
  with_upload s r (λ id st,
    if negb (String.eqb (header r "Content-Type") patchContentType)
    then Ret (s, writeErrorJSON 415 "wrong_content_type")
    else if String.eqb (header r "Upload-Offset") "" then Ret (s, writeErrorJSON 400 "upload_offset_missing")
    else match atoi (header r "Upload-Offset") with
    | None => Ret (s, writeErrorJSON 400 "upload_offset_invalid")
    | Some clientOffset =>
        if (clientOffset <? 0)%Z then Ret (s, writeErrorJSON 400 "upload_offset_invalid")
        else
          let! locked := do_ (TryLock (ID st)) in
          if negb locked then Ret (s, writeErrorJSON 409 "upload_busy")
          else patch_locked s r id clientOffset st
    end).

(** *** DELETE *)

Definition delete_upload (s : Store) (r : Request) : prog handler_result :=
  with_upload s r (λ id _,
    let! _ := cleanupTmp (HStagingRoot cfg) id in
    Ret (AStore.Remove s id, reply 204 [("Tus-Resumable", tusVersion)] None)).

(** *** GET *)

Definition get (s : Store) (r : Request) : prog handler_result :=
  require_source s r (λ sourceID,
    let archiveID := extractUploadID (URLPath r) in
    if negb (archiveIDRe archiveID) then Ret (s, writeErrorJSON 404 "archive_not_found")
    else
      let! data := do_ (ReadFile (Join [HStagingRoot cfg; "archives"; archiveID; "metadata.json"])) in
      match (data : found bytes) with
      | Missing => Ret (s, writeErrorJSON 404 "archive_not_found")
      | Broken => Ret (s, writeErrorJSON 500 "internal_state")
      | Found data =>
          match UnmarshalReceipt data with
          | None => Ret (s, writeErrorJSON 500 "internal_state")
          | Some receipt =>
              if negb (String.eqb (RDeliveredBy receipt) sourceID)
              then Ret (s, writeErrorJSON 404 "archive_not_found")
              else Ret (s, mkResponse 200 "" [] None None (Some receipt))
          end
      end).

(** *** Mount *)

Definition method_not_allowed (allow : string) : Response := error_with 405 "method not allowed" [("Allow", allow)].

(** The routes; None for a path that is not one of the handler's. *)
Definition serve (s : Store) (r : Request) : option (prog handler_result) :=
  let m := Method r in
  if String.eqb (URLPath r) archivesBasePath then
    Some (if String.eqb m "OPTIONS" then Ret (options s)
          else if String.eqb m "POST" then create s r
          else Ret (s, method_not_allowed "OPTIONS, POST"))
  else if has_prefix (archivesBasePath ++ "/") (URLPath r) then
    Some (if String.eqb m "HEAD" then head s r
          else if String.eqb m "PATCH" then patch s r
          else if String.eqb m "DELETE" then delete_upload s r
          else if String.eqb m "GET" then get s r
          else Ret (s, method_not_allowed "HEAD, PATCH, DELETE, GET"))
  else None.
End handlers.
