(* ===== verification/AFinalizeFacts.v ===== *)
(** Finalize (AFinalize.v) on a disk: it touches the upload's own temporary
    paths and nothing else until it publishes, and what it publishes is what
    was uploaded. *)
From S2P Require Import Prelude GoStrings GoFloat GoPath Utf8 EDecode EScore DSubject Effects ADisk AMeta ATar ATarFacts AStore AFinalize.
Local Open Scope string_scope.

(** ** Regions *)

(** Calls that act in a region [R] of the disk, next to folders [base] that
    exist. *)
Definition within (R base : path → Prop) (o : aop) : Prop :=
  match o with
  | MkdirAll p => ∀ q, below q (comps p) → R q ∨ base q
  | CreateExcl p | Write p _ | ADisk.Remove p | RemoveAll p => R (comps p)
  | Rename p q => R (comps p) ∧ R (comps q)
  | _ => True
  end.

Definition same_beyond (R : path → Prop) (d0 d : disk) : Prop := ∀ k, ¬ R k → d !! k = d0 !! k.
Definition folders (base : path → Prop) (d : disk) : Prop := ∀ q, base q → is_folder d q.

Record region (R base : path → Prop) : Prop := {
  region_closed : ∀ p k, R p → below p k → R k;
  region_base : ∀ q, base q → ¬ R q;
}.

Lemma mkdirs_frame (R base : path → Prop) (p : path) (d0 d : disk) :
  (∀ q, below q p → R q ∨ base q) → folders base d → same_beyond R d0 d → same_beyond R d0 (mkdirs p d).
Proof.
  intros Hp Hr Hs k Hk. rewrite mkdirs_lookup, <- (Hs k Hk). destruct (d !! k) as [n|] eqn:E; [done|].
  rewrite decide_False; [done|]. intros [Hkp Hne]. destruct (Hp k Hkp) as [|Hb]; [done|].
  destruct (Hr k Hb) as [->|H]; [done|]. by rewrite H in E.
Qed.

Lemma beyond_folders (R base : path → Prop) (d d' : disk) :
  region R base → folders base d → same_beyond R d d' → folders base d'.
Proof.
  intros HR Hr Hs q Hq. destruct (Hr q Hq) as [->|H]; [by left|right]. rewrite Hs; [done|]. by apply (region_base _ _ HR).
Qed.

Lemma within_frame (R base : path → Prop) (d : disk) (o : aop) (r : aans o) (d' : disk) :
  region R base → within R base o → folders base d → dstep d o r d' → same_beyond R d d'.
Proof.
  intros HR Hin Hr Hstep. assert (Hrefl : same_beyond R d d) by done. pose proof (region_closed _ _ HR) as Hcl.
  destruct o; cbn in Hin, Hstep; try (by (subst d' || (destruct Hstep as [? ?]; subst d'))).
  - destruct r as []; [destruct Hstep as [_ ->]; by eapply mkdirs_frame|].
    destruct Hstep as (q & Hq & _ & ->). eapply mkdirs_frame; [|done..]. intros q' Hq'. apply Hin. by eapply below_trans.
  - destruct r as []; [|by subst]. destruct Hstep as (_ & _ & _ & ->). intros k Hk. by rewrite lookup_insert_ne by by intros <-.
  - destruct Hstep as [_ ->]. intros k Hk. rewrite append_lookup. by destruct (decide _) as [->|].
  - destruct r as []; [|by subst]. destruct Hstep as [(H1 & H2 & _) ->]. destruct Hin as [Hp Hq]. intros k Hk.
    rewrite move_lookup by done. rewrite !decide_False; [done| |]; intros Hb; apply Hk; eauto.
  - destruct r as []; [destruct Hstep as (_ & _ & ->)|by destruct Hstep as [_ ->]|by subst].
    intros k Hk. by rewrite lookup_delete_ne by by intros <-.
  - destruct r as [].
    + subst. intros k Hk. rewrite removed_lookup. rewrite decide_False; [done|]. intros Hb. eauto.
    + destruct Hstep as [_ H]. intros k Hk. apply H. intros Hb. eauto.
Qed.

Lemma same_beyond_trans (R : path → Prop) (d1 d2 d3 : disk) : same_beyond R d1 d2 → same_beyond R d2 d3 → same_beyond R d1 d3.
Proof. intros H1 H2 k Hk. rewrite H2 by done. by apply H1. Qed.

(** A program all of whose calls are in the region leaves the rest alone, at
    every moment. *)
Lemma within_always {A : Type} (R base : path → Prop) (p : prog A) (d : disk) :
  region R base → folders base d → calls (Σ := archive_sig) (within R base) p → always dstep p d (same_beyond R d).
Proof.
  intros HR Hr Hp. set (I d' := folders base d' ∧ same_beyond R d d').
  apply (always_mono _ _ _ I); [by intros s [_ H]|]. eapply always_calls; [|done|by split].
  intros s o r s' Ho Hs [H1 H2]. pose proof (within_frame R base s o r s' HR Ho H1 Hs) as H3.
  split; [by eapply beyond_folders|by eapply same_beyond_trans].
Qed.

Lemma within_under {A : Type} (R base : path → Prop) (p : prog A) (d : disk) :
  region R base → folders base d → calls (Σ := archive_sig) (within R base) p → under dstep p d (λ s _, same_beyond R d s).
Proof.
  intros HR Hr Hp. set (I d' := folders base d' ∧ same_beyond R d d').
  apply (under_mono _ _ _ (λ s _, I s)); [by intros s _ [_ H]|]. eapply under_calls; [|done|by split].
  intros s o r s' Ho Hs [H1 H2]. pose proof (within_frame R base s o r s' HR Ho H1 Hs) as H3.
  split; [by eapply beyond_folders|by eapply same_beyond_trans].
Qed.

Lemma same_beyond_refl (R : path → Prop) (d : disk) : same_beyond R d d.
Proof. done. Qed.

Lemma same_beyond_weaken (R R' : path → Prop) (d d' : disk) :
  (∀ k, R k → R' k) → same_beyond R d d' → same_beyond R' d d'.
Proof. intros H Hs k Hk. apply Hs. auto. Qed.

(** ** Writing a file through a temporary one *)

Definition tmp_name (n : string) : string := n ++ ".tmp".

(** The file [n] of the folder [f], and its temporary one. *)
Definition beside (f : path) (n : string) (k : path) : Prop := below (f ++ [n])%list k ∨ below (f ++ [tmp_name n])%list k.

Lemma snoc_inv {A : Type} (f : list A) (x y : A) (l : list A) : (f ++ [x] ++ l)%list = (f ++ [y])%list → x = y.
Proof. intros E%app_inv_head. by injection E. Qed.

Lemma below_sibling (f : path) (x y : string) (k : path) : below (f ++ [x])%list (f ++ y :: k)%list → x = y.
Proof. intros [l E]. rewrite <- app_assoc in E. apply app_inv_head in E. by injection E. Qed.

Lemma plain_suffix (n s : string) : plain_name n = true → no_char slash s = true → (2 < String.length s)%nat → plain_name (n ++ s) = true.
Proof.
  intros (H1 & H2 & H3 & H4)%plain_name_spec Hs Hl. apply plain_name_spec. rewrite no_char_app, H4, Hs.
  assert (Hn : (2 < String.length (n ++ s))%nat) by (rewrite string_length_app; lia).
  split_and!; [intros E|intros E|intros E|done]; rewrite E in Hn; cbn in Hn; lia.
Qed.

Lemma sibling_paths (path : string) (f : ADisk.path) (n : string) :
  absolute path → comps path = (f ++ [n])%list → plain_name n = true →
  comps (Join [Dir path; Base path ++ ".tmp"]) = (f ++ [tmp_name n])%list.
Proof.
  intros Ha Hc Hn. destruct (absolute_comps _ Ha) as [Hp E]. rewrite Hc in Hp, E. apply Forall_app in Hp as [Hf _].
  assert (Hb : Base path = n) by (rewrite E; by apply Base_snoc).
  assert (Hd : comps (Dir path) = f) by (rewrite comps_Dir, Hc by done; apply removelast_last).
  assert (Hda : absolute (Dir path)).
  { exists (removelast (comps path)). rewrite Hc, removelast_last. split; [done|]. unfold Dir. by rewrite Hc, removelast_last. }
  rewrite Hb, comps_Join, Hd; [done|done| |done]. constructor; [|done]. apply plain_suffix; [done|done|cbn; lia].
Qed.

Lemma beside_region (f : path) (n : string) : region (beside f n) (λ _, False).
Proof.
  split; [|done]. intros p k [H|H] Hk; [left|right]; by eapply below_trans.
Qed.

Lemma no_folders (d : disk) : folders (λ _, False) d.
Proof. by intros ? []. Qed.

Lemma guarded_calls {E A : Type} (P : aop → Prop) (cleanup : prog ()) (o : prog bool) (e : E) (k : prog (res E A)) :
  calls (Σ := archive_sig) P cleanup → calls P o → calls P k → calls P (guarded cleanup o e k).
Proof.
  intros H1 H2 H3. apply calls_bind; [done|]. intros []; [done|]. by apply calls_bind.
Qed.

Section atomic.
Context (path : string) (f : ADisk.path) (n : string) (data : bytes) (mode : Z).
Context (Ha : absolute path) (Hc : comps path = (f ++ [n])%list) (Hn : plain_name n = true).

Lemma atomic_within : calls (within (beside f n) (λ _, False)) (atomicWriteSibling path data mode).
Proof using Ha Hc Hn.
  pose proof (sibling_paths path f n Ha Hc Hn) as Ht.
  assert (Hr1 : beside f n (comps (Join [Dir path; Base path ++ ".tmp"]))) by (rewrite Ht; right; auto with glovebox).
  assert (Hr2 : beside f n (comps path)) by (rewrite Hc; left; auto with glovebox).
  unfold atomicWriteSibling. cbn zeta.
  repeat (first [done | split; [done|] | intros [] | intros ? | case_match | cbn]).
Qed.

(** The file that an atomic write leaves. *)
Lemma atomic_written (d : disk) :
  under dstep (atomicWriteSibling path data mode) d (λ s ok, ok = true → s !! (f ++ [n])%list = Some (File data)).
Proof using Ha Hc Hn.
  pose proof (sibling_paths path f n Ha Hc Hn) as Ht. unfold atomicWriteSibling. cbn zeta.
  set (tmp := Join [Dir path; Base path ++ ".tmp"]) in *.
  apply under_bind. intros [] s1 Hs1; [|done]. destruct Hs1 as (_ & _ & _ & ->). cbn [negb under].
  apply under_bind. intros k s2 Hs2. cbn [under]. destruct (Nat.ltb_spec k (length data)) as [Hk|Hk].
  { apply under_bind. intros ? ? _. cbn [under]. apply under_bind. intros ? ? _. done. }
  destruct Hs2 as [Hk2 ->]. rewrite take_ge, Ht, append_created by lia.
  apply under_bind. intros [] s3 ->; cbn [negb under]; [|by repeat (apply under_bind; intros ? ? _)].
  apply under_bind. intros [] s4 ->; cbn [negb under]; [|by repeat (apply under_bind; intros ? ? _)].
  apply under_bind. intros [] s5 ->; cbn [negb under]; [|by repeat (apply under_bind; intros ? ? _)].
  apply under_bind. intros [] s6 Hs6; cbn [negb under]; [|by repeat (apply under_bind; intros ? ? _)].
  destruct Hs6 as [(M1 & M2 & _) ->]. intros _. rewrite Ht, Hc in *. rewrite move_lookup by done.
  rewrite decide_True by auto with glovebox. rewrite drop_ge, app_nil_r by done. by rewrite lookup_insert_eq.
Qed.

Lemma atomic_spec (d : disk) :
  under dstep (atomicWriteSibling path data mode) d
    (λ s ok, same_beyond (beside f n) d s ∧ (ok = true → s !! (f ++ [n])%list = Some (File data))).
Proof using Ha Hc Hn.
  apply under_and; [|apply atomic_written].
  apply (within_under _ (λ _, False)); [apply beside_region|apply no_folders|apply atomic_within].
Qed.
End atomic.

(** ** The folders of an upload *)

Lemma below_snoc (q f : path) (x : string) : below q (f ++ [x])%list → q = (f ++ [x])%list ∨ below q f.
Proof.
  intros [l E]. destruct l as [|y l _] using rev_ind; [left; by rewrite app_nil_r in E|right].
  rewrite app_assoc in E. apply app_inj_tail in E as [-> _]. apply below_app.
Qed.

Definition finalize_name (id : string) : string := id ++ ".finalize".

Section layout.
Context (root id : string).

Definition tmp_area : path := (comps root ++ [".tmp-archives"])%list.
Definition archive_area : path := (comps root ++ ["archives"])%list.
Definition tmp_at : path := (tmp_area ++ [id])%list.
Definition fin_at : path := (tmp_area ++ [finalize_name id])%list.
Definition final_at (aid : string) : path := (archive_area ++ [aid])%list.

(** The upload's own paths, and the folders next to them. *)
Definition own (k : path) : Prop := below tmp_at k ∨ below fin_at k.
Definition areas (q : path) : Prop := below q tmp_area ∨ below q archive_area.

Context (Hroot : absolute root) (Hid : plain_name id = true).

Lemma finalize_name_plain : plain_name (finalize_name id) = true.
Proof using Hid. apply plain_suffix; [done|done|cbn; lia]. Qed.

Lemma comps_tmp : comps (tmp_path root id) = tmp_at.
Proof using Hroot Hid. unfold tmp_path. rewrite comps_Join by by repeat constructor. unfold tmp_at, tmp_area. by rewrite <- app_assoc. Qed.

Lemma fin_absolute : absolute (finalize_dir root id) ∧ comps (finalize_dir root id) = fin_at.
Proof using Hroot Hid.
  assert (Hp : Forall (λ e, plain_name e = true) [".tmp-archives"; finalize_name id]).
  { repeat constructor. apply finalize_name_plain. }
  split; [by apply Join_is_absolute|]. unfold finalize_dir. rewrite comps_Join by done. unfold fin_at, tmp_area. by rewrite <- app_assoc.
Qed.

Lemma comps_in_fin (ns : list string) :
  Forall (λ e, plain_name e = true) ns → ns ≠ [] →
  absolute (Join (finalize_dir root id :: ns)) ∧ comps (Join (finalize_dir root id :: ns)) = (fin_at ++ ns)%list.
Proof using Hroot Hid.
  intros Hp Hn. destruct fin_absolute as [Ha Hc]. split; [by apply Join_is_absolute|]. by rewrite comps_Join, Hc.
Qed.

Lemma own_region : region own areas.
Proof using Type.
  split.
  - intros p k [H|H] Hk; [left|right]; by eapply below_trans.
  - assert (Hd : ∀ x q, below q archive_area → ¬ below (tmp_area ++ [x])%list q).
    { intros x q Hq Hx. assert (H : below tmp_area archive_area).
      { eapply below_trans; [|exact Hq]. eapply below_trans; [apply below_app|exact Hx]. }
      unfold tmp_area, archive_area in H. apply below_sibling in H. done. }
    assert (Ht : ∀ x q, below q tmp_area → ¬ below (tmp_area ++ [x])%list q).
    { intros x q Hq Hx. assert (H : below (tmp_area ++ [x])%list tmp_area) by by eapply below_trans.
      apply prefix_length in H. rewrite length_app in H. cbn in H. lia. }
    intros q [Hq|Hq] [H|H]; [by eapply Ht|by eapply Ht|by eapply Hd|by eapply Hd].
Qed.

(** A folder made in the upload's own one. *)
Lemma mkdir_fin (l q : path) : below q (fin_at ++ l)%list → own q ∨ areas q.
Proof using Type.
  intros Hq. destruct (below_both q fin_at (fin_at ++ l)%list Hq) as [H|H]; [apply below_app| |].
  - destruct (below_snoc _ _ _ H) as [->|H']; [left; right; apply below_refl|right; by left].
  - left. by right.
Qed.

Lemma own_fin (l : path) : own (fin_at ++ l)%list.
Proof using Type. right. apply below_app. Qed.

Lemma own_tmp : own tmp_at.
Proof using Type. left. apply below_refl. Qed.

Lemma cleanup_within : calls (within own areas) (cleanupTmp root id).
Proof using Hroot Hid.
  split; [|intros ?; split; [|done]]; cbn.
  - rewrite comps_tmp. apply own_tmp.
  - rewrite (proj2 fin_absolute). right. apply below_refl.
Qed.
End layout.

Lemma calls_weaken {A : Type} (P Q : aop → Prop) (p : prog A) :
  (∀ o, P o → Q o) → calls (Σ := archive_sig) P p → calls Q p.
Proof. intros H. induction p as [a|o k IH]; simpl; naive_solver. Qed.

Lemma within_weaken (R R' base base' : path → Prop) (o : aop) :
  (∀ k, R k → R' k) → (∀ k, base k → base' k) → within R base o → within R' base' o.
Proof. intros H1 H2. destruct o; cbn; naive_solver. Qed.

Lemma beside_own (root id n : string) (l k : path) : beside (fin_at root id ++ l)%list n k → own root id k.
Proof. intros [H|H]; right; (eapply below_trans; [|exact H]); rewrite <- app_assoc; apply below_app. Qed.

(** ** Staging *)

Lemma under_guarded {E A : Type} (step : disk → ∀ o : aop, aans o → disk → Prop) (cleanup : prog ()) (o : prog bool) (e : E)
    (k : prog (res E A)) (d : disk) (Q : disk → res E A → Prop) :
  under step o d (λ s r, if r then under step k s Q else ∀ s', Q s' (Err e)) → under step (guarded cleanup o e k) d Q.
Proof.
  intros H. apply under_bind. eapply under_mono; [|exact H]. intros s [] Hs; [done|].
  apply under_bind, under_true. intros s' _. apply Hs.
Qed.

Section stage.
Context {lib : ArchiveLib} (cfg : FinalizeConfig) (st : UploadState) (deliveredBy : option string).
Context (Hroot : absolute (StagingRoot cfg)) (Hid : plain_name (ID st) = true) (Hgood : good_fields (Meta st)).

Abbreviation root := (StagingRoot cfg).
Abbreviation fin := (fin_at root (ID st)).
Abbreviation mine := (own root (ID st)).
Abbreviation around := (areas root).
Abbreviation name := (UArchiveFilename (Meta st)).

Lemma raw_paths :
  comps (Join [finalize_dir root (ID st); "raw"]) = (fin ++ ["raw"])%list ∧
  comps (Join [Join [finalize_dir root (ID st); "raw"]; name]) = (fin ++ "raw" :: if String.eqb name "." then [] else [name])%list.
Proof using Hroot Hid Hgood.
  destruct (comps_in_fin root (ID st) Hroot Hid ["raw"]) as [Ha Hc]; [by repeat constructor|done|].
  split; [done|]. destruct (String.eqb_spec name ".") as [->|Hn]; [by rewrite Join_dot|].
  rewrite comps_Join, Hc; [by rewrite <- app_assoc|done| |done]. constructor; [|done].
  apply good_filename_plain; [apply Hgood|done].
Qed.

Lemma stage_raw_within (receipt : FinalizeReceipt) : calls (within mine around) (stage_raw cfg st receipt).
Proof using Hroot Hid Hgood.
  destruct raw_paths as [H1 H2]. pose proof (cleanup_within root (ID st) Hroot Hid) as Hc.
  unfold stage_raw. cbn zeta. apply guarded_calls; [done| |].
  { split; [|done]. intros q. rewrite H1. apply mkdir_fin. }
  apply guarded_calls; [done|by split|]. apply guarded_calls; [done| |].
  { split; [|done]. cbn. rewrite H2, comps_tmp by done. split; [apply own_tmp|apply own_fin]. }
  by apply guarded_calls; [|split|].
Qed.

(** What is at [f] when a receipt was staged there: the uploaded file, or
    every entry of the uploaded archive. *)
Definition staged_content (f : path) (data : bytes) (receipt : FinalizeReceipt) (s : disk) : Prop :=
  match Shape (Meta st) with
  | Some MediaRaw =>
      RRawFilename receipt = name ∧ s !! (f ++ ["raw"; name])%list = Some (File data)
  | Some MediaTar =>
      Truncated (ReadTar data) = false ∧
      REntriesExtracted receipt = Z.of_nat (length (Entries (ReadTar data))) ∧
      Forall (λ e, check_header e = None ∧
        if is_dir e then is_folder s (f ++ "tree" :: safe_elems (TName e))%list
        else s !! (f ++ "tree" :: safe_elems (TName e))%list = Some (File (TBody e))) (Entries (ReadTar data))
  | None => False
  end.

Lemma tmp_fin (l : path) : ¬ below (tmp_at root (ID st)) (fin ++ l)%list.
Proof using Type.
  unfold tmp_at, fin_at. rewrite <- app_assoc. intros E%below_sibling. apply (f_equal String.length) in E.
  unfold finalize_name in E. rewrite string_length_app in E. cbn in E. lia.
Qed.

(** The upload's folder, once one in it was made. *)
Lemma made_fin (x : string) (d : disk) : clear_way (fin ++ [x])%list d → mkdirs (fin ++ [x])%list d !! fin = Some Folder.
Proof using Type.
  intros Hc. rewrite mkdirs_lookup. destruct (d !! fin) as [[|y]|] eqn:E; [done| |].
  - exfalso. apply (Hc fin); [apply below_app|by exists y].
  - rewrite decide_True; [done|]. split; [apply below_app|]. unfold fin_at. by destruct (tmp_area root).
Qed.

Lemma stage_raw_staged (receipt : FinalizeReceipt) (data : bytes) (d : disk) :
  Shape (Meta st) = Some MediaRaw → d !! tmp_at root (ID st) = Some (File data) →
  under dstep (stage_raw cfg st receipt) d (λ s r, ∀ rc, r = Ok rc →
    rc = set_extracted 0 name receipt ∧ staged_content fin data rc s ∧ s !! fin = Some Folder).
Proof using Hroot Hid Hgood.
  intros Hshape Hd. destruct raw_paths as [H1 H2]. unfold stage_raw. cbn zeta.
  apply under_guarded. intros [] s1 Hs1; [|done]. destruct Hs1 as [Hclear ->]. rewrite H1 in Hclear |- *.
  apply under_guarded. intros [] s2 ->; [|done].
  apply under_guarded. intros [] s3 Hs3; [|done]. destruct Hs3 as [Hm ->]. rewrite H2, comps_tmp in Hm |- * by done.
  destruct Hm as (M1 & M2 & _ & _ & Hkind).
  assert (Htmp : mkdirs (fin ++ ["raw"])%list d !! tmp_at root (ID st) = Some (File data)) by by rewrite mkdirs_lookup, Hd.
  rewrite Htmp in Hkind. destruct (String.eqb_spec name ".") as [Hdot|Hdot].
  { exfalso. apply Hkind. destruct (mkdirs_folder _ _ Hclear) as [E|E]; [by destruct (fin_at root (ID st))|done]. }
  apply under_guarded. intros [] s4 ->; [|done]. cbn [under]. intros rc [= <-]. split_and!; [done| |].
  - unfold staged_content. rewrite Hshape. split; [done|]. rewrite move_lookup by done.
    rewrite decide_True by apply below_refl. by rewrite drop_ge, app_nil_r.
  - rewrite move_lookup by done. rewrite !decide_False; [by apply made_fin| |].
    + rewrite <- (app_nil_r fin). apply tmp_fin.
    + intros H. apply prefix_length in H. rewrite length_app in H. cbn in H. lia.
Qed.

Lemma tree_path :
  absolute (Join [finalize_dir root (ID st); "tree"]) ∧ comps (Join [finalize_dir root (ID st); "tree"]) = (fin ++ ["tree"])%list.
Proof using Hroot Hid. apply comps_in_fin; [done|done|by repeat constructor|done]. Qed.

Lemma inside_own (l : path) (o : aop) : inside (fin ++ l)%list o → within mine around o.
Proof using Type.
  assert (H : ∀ p q, below (fin ++ l)%list p → below q p → mine q ∨ around q).
  { intros p q [l2 ->] Hq. rewrite <- app_assoc in Hq. by eapply mkdir_fin. }
  destruct o; cbn; try done.
  - intros [Hp|Hp] q Hq; [by eapply H|]. eapply mkdir_fin, below_trans; [exact Hq|exact Hp].
  - intros [l2 ->]. rewrite <- app_assoc. apply own_fin.
  - intros [l2 ->]. rewrite <- app_assoc. apply own_fin.
Qed.

Lemma extract_within (scanner : option ExtractScanner) : 
  calls (within (beside fin "content.extracted.md") (λ _, False)) (writeExtractedMarkdown (finalize_dir root (ID st)) scanner).
Proof using Hroot Hid.
  destruct (comps_in_fin root (ID st) Hroot Hid ["content.extracted.md"]) as [Ha Hc]; [by repeat constructor|done|].
  unfold writeExtractedMarkdown. apply calls_bind; [by split|]. intros [ocr| |]; [|done..].
  destruct scanner as [scan|]; [|done]. destruct (scan _ _) as [v|]; [|done].
  destruct (renderExtractedMarkdown _ _) as [md|]; [|done]. by apply atomic_within.
Qed.

Lemma fail_within {A : Type} (e : FinalizeErr) : calls (within mine around) (fail cfg st (A := A) e).
Proof using Hroot Hid. apply calls_bind; [by apply cleanup_within|done]. Qed.

Lemma stage_tar_within (isScanner : bool) (receipt : FinalizeReceipt) :
  calls (within mine around) (stage_tar cfg st isScanner receipt).
Proof using Hroot Hid.
  destruct tree_path as [Ha H1]. pose proof (cleanup_within root (ID st) Hroot Hid) as Hc.
  unfold stage_tar. cbn zeta. apply guarded_calls; [done| |].
  { split; [|done]. intros q. rewrite H1. apply mkdir_fin. }
  apply guarded_calls; [done|by split|]. apply guarded_calls; [done|by split|].
  apply calls_bind; [by split|]. intros content. apply calls_bind.
  { eapply calls_weaken; [|by apply untar_inside]. intros o. cbn [DestDir]. rewrite H1. apply inside_own. }
  intros [[entries w] uerr]. apply calls_bind; [by split|]. intros closed.
  destruct uerr as [e|]; [apply fail_within|]. destruct closed; [|apply fail_within]. cbn [negb].
  apply calls_bind; [split; [|done]; cbn; rewrite comps_tmp by done; apply own_tmp|].
  intros rm. destruct rm; [| |apply fail_within].
  all: destruct isScanner; [|done]; apply guarded_calls; [done| |done].
  all: eapply calls_weaken; [|apply extract_within]; intros o; apply within_weaken; [|done]; intros k.
  all: rewrite <- (app_nil_r fin) at 1; apply beside_own.
Qed.

Lemma stage_tar_staged (isScanner : bool) (receipt : FinalizeReceipt) (data : bytes) (d : disk) :
  Shape (Meta st) = Some MediaTar → d !! tmp_at root (ID st) = Some (File data) →
  (0 ≤ SUploadLength st < 2 ^ 62)%Z →
  under dstep (stage_tar cfg st isScanner receipt) d (λ s r, ∀ rc, r = Ok rc →
    ∃ n, rc = set_extracted n (RRawFilename receipt) receipt ∧ staged_content fin data rc s ∧ s !! fin = Some Folder).
Proof using Hroot Hid.
  intros Hshape Hd Hlen. destruct tree_path as [Ha H1]. unfold stage_tar. cbn zeta.
  apply under_guarded. intros [] s1 Hs1; [|done]. destruct Hs1 as [Hclear ->]. rewrite H1 in Hclear |- *.
  apply under_guarded. intros [] s2 ->; [|done]. apply under_guarded. intros [] s3 [_ ->]; [|done].
  apply under_bind. intros content s4 [-> Hcontent]. cbn [under]. rewrite comps_tmp in Hcontent by done.
  apply under_bind.
  set (cfgu := mkUntarConfig _ _ _). set (src := match content with Found x => _ | _ => _ end).
  eapply under_mono; [|by apply (untar_unpacks src cfgu)].
  intros s [[n w] uerr] Hu. apply under_bind. intros closed s' ->. cbn [under].
  destruct uerr as [e|].
  { apply under_bind, under_true. intros s5 _. done. }
  destruct (Hu eq_refl) as (Htr & -> & _ & _ & Hsub & Hall).
  assert (Hsrc : src = ReadTar data).
  { unfold src in *. destruct content as [x| |]; [|done..]. rewrite mkdirs_lookup, Hd in Hcontent. by injection Hcontent as ->. }
  rewrite Hsrc in *. destruct closed; cbn [negb].
  2: { apply under_bind, under_true. done. }
  assert (Hst : ∀ s', same_beyond (λ k, below (tmp_at root (ID st)) k ∨ beside fin "content.extracted.md" k) s s' →
    staged_content fin data (set_extracted (Z.of_nat (length (Entries (ReadTar data)))) (RRawFilename receipt) receipt) s' ∧
    s' !! fin = Some Folder).
  { intros s' Hs'. split.
    2: { rewrite Hs'; [by eapply lookup_weaken; [apply made_fin|]|]. intros [H|[H|H]].
         - rewrite <- (app_nil_r fin) in H. by apply tmp_fin in H.
         - apply prefix_length in H. rewrite length_app in H. cbn in H. lia.
         - apply prefix_length in H. rewrite length_app in H. cbn in H. lia. }
    unfold staged_content. rewrite Hshape. split_and!; [done|done|].
    eapply Forall_impl; [exact Hall|]. intros e [He Hup]. split; [done|].
    destruct (check_header_ok _ He) as (_ & _ & _ & _ & Ht). destruct (destination_comps cfgu e Ha Ht) as [_ Hc].
    cbn [DestDir cfgu] in Hc. rewrite H1, <- app_assoc in Hc. unfold unpacked, entry_path in Hup. rewrite Hc in Hup. cbn [app] in Hup.
    assert (Hkeep : s' !! (fin ++ "tree" :: safe_elems (TName e))%list = s !! (fin ++ "tree" :: safe_elems (TName e))%list).
    { apply Hs'. intros [Hb|[Hb|Hb]].
      - by apply tmp_fin in Hb.
      - by apply below_sibling in Hb.
      - by apply below_sibling in Hb. }
    destruct (is_dir e); [|by rewrite Hkeep]. destruct Hup as [Hnil|Hup]; [by destruct (fin_at root (ID st))|right; by rewrite Hkeep]. }
  apply under_bind. intros rm s5 Hrm. cbn [under].
  assert (Hs5 : rm ≠ Failed → same_beyond (λ k, below (tmp_at root (ID st)) k ∨ beside fin "content.extracted.md" k) s s5).
  { intros Hne k Hk. destruct rm; [destruct Hrm as (_ & _ & ->)|by destruct Hrm as [_ ->]|done].
    rewrite comps_tmp by done. rewrite lookup_delete_ne; [done|]. intros <-. apply Hk. left. apply below_refl. }
  destruct rm; [| |apply under_bind, under_true; done].
  all: destruct isScanner; [|intros rc [= <-]; eexists; split; [done|apply Hst; by apply Hs5]].
  all: apply under_guarded; eapply under_mono;
    [|apply (within_under (beside fin "content.extracted.md") (λ _, False)); [apply beside_region|apply no_folders|apply extract_within]].
  all: intros s6 [] Hs6; [|done]; intros rc [= <-]; eexists; split; [done|]; apply Hst.
  all: eapply same_beyond_trans; [by apply Hs5|]; eapply same_beyond_weaken; [|exact Hs6]; by right.
Qed.

(** ** Publishing *)

Context (Haid : plain_name (ArchiveID st) = true).
Abbreviation final := (final_at root (ArchiveID st)).

Lemma final_paths :
  absolute (Join [root; "archives"; ArchiveID st]) ∧ comps (Join [root; "archives"; ArchiveID st]) = final.
Proof using Hroot Haid.
  assert (Hp : Forall (λ e, plain_name e = true) ["archives"; ArchiveID st]) by by repeat constructor.
  split; [by apply Join_is_absolute|]. rewrite comps_Join by done. unfold final_at, archive_area. by rewrite <- app_assoc.
Qed.

Lemma final_not_own (l : path) : ¬ mine (final ++ l)%list.
Proof using Type.
  assert (H : ∀ x, ¬ below (tmp_area root ++ [x])%list (final ++ l)%list).
  { intros x Hb. assert (Hb2 : below (tmp_area root) (final ++ l)%list) by (eapply below_trans; [apply below_app|exact Hb]).
    unfold tmp_area, final_at, archive_area in Hb2. rewrite <- !app_assoc in Hb2. by apply below_sibling in Hb2. }
  intros [Hb|Hb]; by eapply H.
Qed.

(** The archive of a receipt, published on a disk [s'] that was [s]: the
    folder was not there (or was empty), it holds the receipt and the uploaded content, and nothing
    but the upload's own temporary paths changed otherwise. *)
Record published (data : bytes) (receipt : FinalizeReceipt) (s s' : disk) : Prop := {
  pub_new : childless final s ∧ ∀ x, s !! final ≠ Some (File x);
  pub_rest : ∀ k, ¬ mine k → ¬ below final k → s' !! k = s !! k;
  pub_folder : s' !! final = Some Folder;
  pub_receipt : ∃ mb, MarshalReceipt receipt = Some mb ∧ s' !! (final ++ ["metadata.json"])%list = Some (File mb);
  pub_content : staged_content final data receipt s';
}.

Lemma staged_elsewhere (f g : path) (data : bytes) (receipt : FinalizeReceipt) (s s' : disk) :
  g ≠ [] → (∀ x l, x = "raw" ∨ x = "tree" → s' !! (g ++ x :: l)%list = s !! (f ++ x :: l)%list) → f ≠ [] →
  staged_content f data receipt s → staged_content g data receipt s'.
Proof using Type.
  intros Hg He Hf. unfold staged_content. destruct (Shape (Meta st)) as [[]|]; [| |done].
  - intros [H1 H2]. split; [done|]. rewrite He by by left. done.
  - intros (H1 & H2 & H3). split_and!; [done|done|]. eapply Forall_impl; [exact H3|]. intros e [Hc Hx]. split; [done|].
    destruct (is_dir e); [|by rewrite He by by right]. destruct Hx as [Hx|Hx]; [by destruct f|right]. by rewrite He by by right.
Qed.

Lemma metadata_path :
  absolute (Join [finalize_dir root (ID st); "metadata.json"]) ∧
  comps (Join [finalize_dir root (ID st); "metadata.json"]) = (fin ++ ["metadata.json"])%list.
Proof using Hroot Hid. apply comps_in_fin; [done|done|by repeat constructor|done]. Qed.

Lemma archives_mkdir_within : within mine around (MkdirAll (Dir (Join [root; "archives"; ArchiveID st]))).
Proof using Hroot Haid.
  destruct final_paths as [Ha Hc]. intros q. rewrite comps_Dir, Hc by done. unfold final_at.
  rewrite removelast_last. intros Hq. right. by right.
Qed.

(** The receipt of an upload: what the upload and its metadata say, with what
    was found in it. *)
Definition receipt_of (rc : FinalizeReceipt) : Prop :=
  ∃ now n raw, rc = set_extracted n raw (receipt_skeleton st deliveredBy (scannerLanePolicy (Sources cfg) (SourceID st)) now).

(** What was checked before: the size, the digest and the lane. *)
Definition accepted (data : bytes) (rc : FinalizeReceipt) : Prop :=
  receipt_of rc ∧ Z.of_nat (length data) = SUploadLength st ∧
  decode_hex (bytes_of_string (USHA256 (Meta st))) = Some (sha256 (Hashed st)) ∧
  (UMediaType (Meta st) = recognizerScanMediaType → is_Some (scannerLanePolicy (Sources cfg) (SourceID st))).

(** What holds at every moment: the rest of the disk is untouched, or the
    archive is published, with every check made. *)
Definition atomically (data : bytes) (d s : disk) : Prop :=
  same_beyond mine d s ∨ ∃ receipt, accepted data receipt ∧ published data receipt d s.

Lemma safely_within {A : Type} (data : bytes) (p : prog A) (d s : disk) :
  folders around d → same_beyond mine d s → calls (Σ := archive_sig) (within mine around) p →
  safely dstep (atomically data d) p s (λ s' _, same_beyond mine d s').
Proof using Type.
  intros Hf Hs Hp. assert (Hf' : folders around s) by (eapply beyond_folders; [apply own_region|done|done]).
  split.
  - eapply always_mono; [|by eapply within_always; [apply own_region|..]]. intros s' H. left. by eapply same_beyond_trans.
  - eapply under_mono; [|by eapply within_under; [apply own_region|..]]. intros s' a H. by eapply same_beyond_trans.
Qed.

Lemma safely_guarded {E A : Type} (data : bytes) (o : prog bool) (e : E) (k : prog (res E A)) (d s : disk) (Q : disk → res E A → Prop) :
  folders around d →
  safely dstep (atomically data d) o s (λ s' r, same_beyond mine d s' ∧
    (r = true → safely dstep (atomically data d) k s' Q)) →
  (∀ s', same_beyond mine d s' → Q s' (Err e)) →
  safely dstep (atomically data d) (guarded (cleanupTmp root (ID st)) o e k) s Q.
Proof using Hroot Hid.
  intros Hf Ho HQ. apply safely_bind. eapply safely_mono; [|exact Ho]. intros s' [] [Hs Hk]; [by apply Hk|].
  apply safely_bind. eapply safely_mono; [|apply safely_within; [done|exact Hs|by apply cleanup_within]].
  intros s'' ? Hs''. apply safely_ret; [by left|by apply HQ].
Qed.

Lemma publish_safely (receipt : FinalizeReceipt) (data : bytes) (d s : disk) :
  accepted data receipt → folders around d → same_beyond mine d s → s !! fin = Some Folder → staged_content fin data receipt s →
  safely dstep (atomically data d) (publish cfg st receipt) s (λ s' r,
    match r with Ok rc => rc = receipt ∧ published data receipt d s' | Err _ => same_beyond mine d s' end).
Proof using Hroot Hid Haid.
  intros Hacc Hf Hs Hfin Hst. destruct metadata_path as [Hma Hmc]. destruct final_paths as [Hfa Hfc].
  destruct (fin_absolute root (ID st) Hroot Hid) as [_ Hfinc]. unfold publish.
  destruct (MarshalReceipt receipt) as [mb|] eqn:Hmb.
  2: { apply safely_bind. eapply safely_mono; [|apply safely_within; [done|exact Hs|by apply cleanup_within]].
       intros s' ? Hs'. apply safely_ret; [by left|done]. }
  apply safely_guarded; [done| |done]. eapply safely_mono.
  2: { apply safely_and; [apply safely_within; [done|exact Hs|]|apply (atomic_spec _ fin "metadata.json" mb finalizeFileMode Hma Hmc eq_refl s)].
       eapply calls_weaken; [|by apply atomic_within]. intros o. apply within_weaken; [|done]. intros k.
       rewrite <- (app_nil_r fin) at 1. apply beside_own. }
  intros s1 ok [Hs1 [Hb Hmd]]. split; [done|]. intros ->. specialize (Hmd eq_refl).
  assert (Hkeep : ∀ x l, x ≠ "metadata.json" → x ≠ "metadata.json.tmp" → s1 !! (fin ++ x :: l)%list = s !! (fin ++ x :: l)%list).
  { intros x l H1 H2. apply Hb. intros [H|H]; apply below_sibling in H; by subst. }
  assert (Hfin1 : s1 !! fin = Some Folder).
  { rewrite Hb; [done|]. intros [H|H]; apply prefix_length in H; rewrite length_app in H; cbn in H; lia. }
  apply safely_guarded; [done| |done].
  assert (Hmk : ∀ q, below q (archive_area root) → same_beyond mine d (mkdirs q s1) ∧ ∀ k, mine k → mkdirs q s1 !! k = s1 !! k).
  { intros q Hq. split.
    - eapply same_beyond_trans; [exact Hs1|]. eapply (mkdirs_frame mine around); [|by eapply beyond_folders; [apply own_region|..]|done].
      intros q' Hq'. right. right. by eapply below_trans.
    - intros k Hk. rewrite mkdirs_lookup. destruct (s1 !! k); [done|]. rewrite decide_False; [done|]. intros [Hkq _].
      eapply (region_base _ _ (own_region root (ID st))); [|exact Hk]. right. by eapply below_trans. }
  apply safely_call; [by left|]. intros r s2 Hs2.
  assert (Hs2' : same_beyond mine d s2 ∧ ∀ k, mine k → s2 !! k = s1 !! k).
  { cbn in Hs2. rewrite comps_Dir, Hfc in Hs2 by done. unfold final_at in Hs2. rewrite removelast_last in Hs2.
    destruct r as []; [destruct Hs2 as [_ ->]; apply Hmk, below_refl|destruct Hs2 as (q & Hq & _ & ->); by apply Hmk]. }
  clear Hs2 Hmk. destruct Hs2' as [Hs2 Hmine]. split; [by left|]. split; [done|]. intros ->.
  apply safely_bind, safely_call; [by left|]. intros there s3 [-> Hthere]. split; [by left|].
  assert (Hdrop : ∀ e, safely dstep (atomically data d) (bind (do_ (RemoveAll (finalize_dir root (ID st)))) (λ _, Ret (Err (E := FinalizeErr) (A := FinalizeReceipt) e))) s2
    (λ s' r, match r with Ok rc => rc = receipt ∧ published data receipt d s' | Err _ => same_beyond mine d s' end)).
  { intros e. apply safely_bind. eapply safely_mono; [|apply safely_within; [done|exact Hs2|]].
    - intros s' ? Hs'. apply safely_ret; [by left|done].
    - split; [|done]. cbn. rewrite Hfinc. rewrite <- (app_nil_r fin). apply own_fin. }
  assert (Hren : safely dstep (atomically data d)
    (bind (do_ (Rename (finalize_dir root (ID st)) (Join [root; "archives"; ArchiveID st]))) (λ renamed,
       if renamed then Ret (Ok receipt) else bind (do_ (RemoveAll (finalize_dir root (ID st)))) (λ _, Ret (Err (FinalizeInternal "rename to final"))))) s2
    (λ s' r, match r with Ok rc => rc = receipt ∧ published data receipt d s' | Err _ => same_beyond mine d s' end)).
  2: { destruct there; [apply Hdrop|apply Hren|apply Hren]. }
  apply safely_bind, safely_call; [by left|]. intros [] s4 Hs4.
  2: { cbn in Hs4. subst s4. split; [by left|]. apply Hdrop. }
  destruct Hs4 as [(M1 & M2 & _ & Mfree & Mkind) ->]. rewrite Hfinc, Hfc in *.
  assert (Hpub : published data receipt d (move fin final s2)).
  2: { assert (Hnow : atomically data d (move fin final s2)) by (right; by eexists).
       split; [done|]. by apply safely_ret. }
  assert (Hout : ∀ l, s2 !! (final ++ l)%list = d !! (final ++ l)%list) by (intros l; apply Hs2, final_not_own).
  assert (Hin : ∀ l, move fin final s2 !! (final ++ l)%list = s1 !! (fin ++ l)%list).
  { intros l. rewrite move_lookup, decide_True by (done || apply below_app). rewrite drop_app_length. apply Hmine, own_fin. }
  rewrite Hmine, Hfin1 in Mkind by (rewrite <- (app_nil_r fin); apply own_fin). constructor.
  - split.
    + intros k [l ->] Hk. rewrite <- Hout. apply Mfree; [apply below_app|done].
    + intros x. pose proof (Hout []) as E. rewrite !app_nil_r in E. rewrite <- E. by destruct Mkind as [->| ->].
  - intros k Hk1 Hk2. rewrite move_lookup, decide_False by done. rewrite decide_False; [by apply Hs2|].
    intros Hbelow. apply Hk1. by right.
  - pose proof (Hin []) as E. rewrite !app_nil_r in E. by rewrite E.
  - exists mb. split; [done|]. by rewrite Hin.
  - eapply (staged_elsewhere fin final); [by unfold final_at; destruct (archive_area root)| |by unfold fin_at; destruct (tmp_area root)|exact Hst].
    intros x l Hx. rewrite Hin. apply Hkeep; by destruct Hx as [->| ->].
Qed.

(** ** Finalize *)

(** The content of the temporary file. *)
Definition tmp_content (d : disk) : bytes :=
  match d !! tmp_at root (ID st) with Some (File data) => data | _ => [] end.

Definition finalized (d s : disk) (r : res FinalizeErr FinalizeReceipt) : Prop :=
  match r with
  | Ok rc =>
      d !! tmp_at root (ID st) = Some (File (tmp_content d)) ∧ accepted (tmp_content d) rc ∧ published (tmp_content d) rc d s
  | Err _ => same_beyond mine d s
  end.

Lemma fail_safely {A : Type} (data : bytes) (e : FinalizeErr) (d s : disk) (Q : disk → res FinalizeErr A → Prop) :
  folders around d → same_beyond mine d s → (∀ s', same_beyond mine d s' → Q s' (Err e)) →
  safely dstep (atomically data d) (fail cfg st e) s Q.
Proof using Hroot Hid.
  intros Hf Hs HQ. apply safely_bind. eapply safely_mono; [|apply safely_within; [done|exact Hs|by apply cleanup_within]].
  intros s' ? Hs'. apply safely_ret; [by left|by apply HQ].
Qed.

Lemma mkdir_grows (p : string) (d : disk) : under dstep (do_ (MkdirAll p)) d (λ s _, d ⊆ s).
Proof using Type. intros [] s Hs; [destruct Hs as [_ ->]|destruct Hs as (q & _ & _ & ->)]; apply mkdirs_grows. Qed.

Lemma Finalize_safely (d : disk) :
  folders around d → d !! tmp_at root (ID st) ≠ Some Folder → (0 ≤ SUploadLength st < 2 ^ 62)%Z →
  safely dstep (atomically (tmp_content d) d) (Finalize cfg st deliveredBy) d (finalized d).
Proof using Hroot Hid Hgood Haid.
  intros Hf Htmp Hlen. unfold Finalize. cbn zeta.
  assert (H0 : same_beyond mine d d) by apply same_beyond_refl.
  destruct (String.eqb _ _ && _) eqn:Hlane; [by apply fail_safely|].
  destruct (decode_hex _) as [claimed|] eqn:Hhex; [|by apply fail_safely].
  destruct (bool_decide_reflect (sha256 (Hashed st) = claimed)) as [<-|]; [|by apply fail_safely]. cbn [negb].
  apply safely_bind, safely_call; [by left|]. intros fi s1 [-> Hfi]. split; [by left|].
  destruct fi as [[isdir size]| |]; [|by apply fail_safely|by apply fail_safely].
  destruct (Z.eqb_spec size (SUploadLength st)) as [->|]; [|by apply fail_safely]. cbn [negb].
  rewrite comps_tmp in Hfi by done.
  destruct isdir.
  { exfalso. destruct Hfi as [E|E]; [by unfold tmp_at in E; destruct (tmp_area root)|done]. }
  destruct Hfi as (data & Hd & Hsize). assert (Hdata : tmp_content d = data) by (unfold tmp_content; by rewrite Hd).
  rewrite Hdata. destruct (fin_absolute root (ID st) Hroot Hid) as [_ Hfc].
  assert (Hwmk : within mine around (MkdirAll (finalize_dir root (ID st)))).
  { intros q. rewrite Hfc. rewrite <- (app_nil_r fin) at 1. apply mkdir_fin. }
  apply safely_guarded; [done| |done]. eapply safely_mono.
  2: { apply safely_and; [by apply safely_within; [| |split]|]. apply (mkdir_grows _ d). }
  intros s2 r2 [Hs2 Hsub2]. split; [done|]. intros _. assert (Hd2 : s2 !! tmp_at root (ID st) = Some (File data)) by by eapply lookup_weaken.
  clear r2 Hsub2. apply safely_guarded; [done| |done]. apply safely_call; [by left|].
  intros r3 s3 ->. split; [by left|]. split; [done|]. intros _. apply safely_bind, safely_call; [by left|].
  intros now s4 ->. split; [by left|].
  assert (Hf2 : folders around s2) by (eapply beyond_folders; [apply own_region|done|done]).
  assert (Hgate : UMediaType (Meta st) = recognizerScanMediaType → is_Some (scannerLanePolicy (Sources cfg) (SourceID st))).
  { intros E. rewrite E, String.eqb_refl in Hlane. cbn in Hlane. apply negb_false_iff in Hlane.
    by apply bool_decide_eq_true in Hlane. }
  assert (Hfin : ∀ (staged : prog (res FinalizeErr FinalizeReceipt)),
    calls (within mine around) staged →
    under dstep staged s2 (λ s r, ∀ rc, r = Ok rc → receipt_of rc ∧ staged_content fin data rc s ∧ s !! fin = Some Folder) →
    safely dstep (atomically data d) (bind staged (λ r, match r with Err e => Ret (Err e) | Ok receipt => publish cfg st receipt end)) s2 (finalized d)).
  { intros staged Hin Hst. apply safely_bind. eapply safely_mono; [|apply safely_and; [apply safely_within; [done|exact Hs2|done]|exact Hst]].
    intros s5 [rc|e] [Hs5 Hrc]; [|by apply safely_ret; [left|]]. destruct (Hrc rc eq_refl) as (R1 & R2 & R3).
    assert (Hacc : accepted data rc) by by split_and!.
    eapply safely_mono; [|by apply publish_safely]. intros s6 [rc'|e] H6; [|done]. destruct H6 as [-> Hpub].
    unfold finalized. rewrite Hdata. split_and!; done. }
  apply Hfin; destruct (Shape (Meta st)) as [[]|] eqn:Hshape.
  - by apply stage_raw_within.
  - by apply stage_tar_within.
  - apply fail_within.
  - eapply under_mono; [|by apply stage_raw_staged]. intros s r H rc E. destruct (H rc E) as (-> & ? & ?).
    split_and!; [by eexists _, _, _|done|done].
  - eapply under_mono; [|by apply stage_tar_staged]. intros s r H rc E. destruct (H rc E) as (n & -> & ? & ?).
    split_and!; [by eexists _, _, _|done|done].
  - apply under_bind, under_true. done.
Qed.

(** C12. Finalize is all or nothing.  Whatever the disk does and whenever the
    program is killed: either the archive is published, in a folder that was
    free, complete, with a receipt that says what the upload said and after
    every check (the digest of the received bytes is the announced one, the
    size of the file is the announced one, the scanner's media type comes
    from a registered scanner), or nothing but the upload's own temporary
    paths has changed; and in the end the result says which. *)
Theorem finalize_all_or_nothing (d : disk) :
  folders around d → d !! tmp_at root (ID st) ≠ Some Folder → (0 ≤ SUploadLength st < 2 ^ 62)%Z →
  (∀ d' r, exec dstep (Finalize cfg st deliveredBy) d d' r → finalized d d' r) ∧
  (∀ d', passes dstep (Finalize cfg st deliveredBy) d d' → atomically (tmp_content d) d d').
Proof using Hroot Hid Hgood Haid.
  intros H1 H2 H3. destruct (Finalize_safely d H1 H2 H3) as [Ha Hu]. split.
  - intros d' r. by apply under_exec.
  - intros d' Hp. by eapply always_passes.
Qed.
End stage.
