(* ===== verification/AUploads.v ===== *)
(** The handlers of AHandler.v keep the table of uploads, the temporary files
    and the published archives together, whatever the disk does. *)
From S2P Require Import Prelude GoStrings GoFloat GoPath Utf8 EDecode ESign DSubject Effects ADisk AMeta ATar ATarFacts AStore AFinalize AHandler AFinalizeFacts.
Local Open Scope string_scope.

(** ** Programs that stay in a region *)

(** A program in a region from which a property does not look. *)
Lemma safely_region {A : Type} (R base : path → Prop) (I : disk → Prop) (p : prog A) (d : disk) :
  region R base → folders base d → (∀ s, same_beyond R d s → I s) → calls (Σ := archive_sig) (within R base) p →
  safely dstep I p d (λ s _, same_beyond R d s).
Proof.
  intros HR Hf HI Hp. split; [|by eapply within_under]. eapply always_mono; [exact HI|by eapply within_always].
Qed.

(** A program that only looks. *)
Definition looks (o : aop) : Prop := within (λ _, False) (λ _, False) o.

Lemma safely_looks {A : Type} (I : disk → Prop) (p : prog A) (d : disk) :
  I d → calls (Σ := archive_sig) looks p → safely dstep I p d (λ s _, s = d).
Proof.
  intros Hd Hp. assert (HR : region (λ _, False) (λ _, False)) by by split.
  assert (He : ∀ s, same_beyond (λ _, False) d s → s = d) by (intros s H; apply map_eq; intros k; apply (H k); by intros []).
  eapply safely_mono; [|apply (safely_region _ _ I p d HR); [by apply no_folders| |exact Hp]].
  - intros s ? Hs. by apply He.
  - intros s Hs. by rewrite (He s Hs).
Qed.

(** ** Upload ids *)

Definition upload_id (id : string) : Prop := plain_name id = true ∧ String.length id = 32%nat.

Lemma string_of_bytes_length (b : bytes) : String.length (string_of_bytes b) = length b.
Proof. induction b as [|x b IH]; [done|]. rewrite string_of_bytes_cons. cbn. by rewrite IH. Qed.

Lemma hex_upload_id (b : bytes) : length b = 16%nat → Forall is_byte b → upload_id (string_of_bytes (hex_encode b)).
Proof.
  intros Hl Hb. destruct (hex_encode_spec b Hb) as (_ & _ & Hlen). split.
  2: { rewrite string_of_bytes_length, Hlen. lia. }
  assert (Hlong : (2 < String.length (string_of_bytes (hex_encode b)))%nat) by (rewrite string_of_bytes_length, Hlen; lia).
  apply plain_name_spec. split_and!; [intros E; rewrite E in Hlong; cbn in Hlong; lia..|].
  by apply hex_no_slash.
Qed.

Lemma other_own (root id id' : string) : upload_id id → upload_id id' → id ≠ id' → ¬ own root id (tmp_at root id').
Proof.
  intros [_ H1] [_ H2] Hne [Hb|Hb]; unfold tmp_at, fin_at in Hb; apply below_sibling in Hb; [done|].
  apply (f_equal String.length) in Hb. unfold finalize_name in Hb. rewrite string_length_app in Hb. cbn in Hb. lia.
Qed.

(** ** The state of the service *)

Section invariant.
Context {lib : ArchiveLib} (root : string) (known : string → Prop).

(** Every entry of an uploaded archive is in a folder. *)
Definition tree_there (f : path) (es : list TarEntry) (d : disk) : Prop :=
  Forall (λ e, if is_dir e then is_folder d (f ++ "tree" :: safe_elems (TName e))%list
               else d !! (f ++ "tree" :: safe_elems (TName e))%list = Some (File (TBody e))) es.

(** What an archive's folder holds: the receipt of an upload by a [known]
    source, whose digest is that of the content, and the content, whole. *)
Definition verified_archive (aid : string) (d : disk) : Prop :=
  ∃ rc mb data,
    d !! (final_at root aid ++ ["metadata.json"])%list = Some (File mb) ∧ MarshalReceipt rc = Some mb ∧
    RArchiveID rc = aid ∧ known (RDeliveredBy rc) ∧ RIdentity rc = BuildIdentity (Some (RDeliveredBy rc)) ∧ RSizeBytes rc = Z.of_nat (length data) ∧
    decode_hex (bytes_of_string (RSHA256 rc)) = Some (sha256 data) ∧
    match mediaAllowList !! RMediaType rc with
    | Some MediaRaw => d !! (final_at root aid ++ ["raw"; RRawFilename rc])%list = Some (File data)
    | Some MediaTar =>
        Truncated (ReadTar data) = false ∧ REntriesExtracted rc = Z.of_nat (length (Entries (ReadTar data))) ∧
        tree_there (final_at root aid) (Entries (ReadTar data)) d
    | None => False
    end.

(** The retention folder is not one of the archives. *)
Definition archives_sound (d : disk) : Prop :=
  ∀ aid, aid ≠ ".done" → is_Some (d !! final_at root aid) → verified_archive aid d.

Definition disk_ok (d : disk) : Prop := folders (areas root) d ∧ archives_sound d.

(** The temporary file of an upload holds the bytes that were hashed, or too
    many bytes, or is gone. *)
Definition holds (d : disk) (st : UploadState) : Prop :=
  match d !! tmp_at root (ID st) with
  | None => True
  | Some Folder => False
  | Some (File data) => data = Hashed st ∨ (length (Hashed st) < length data)%nat
  end.

Record upload_ok (d : disk) (st : UploadState) : Prop := {
  uo_id : upload_id (ID st);
  uo_source : known (SourceID st);
  uo_meta : good_fields (Meta st);
  uo_archive : ArchiveID st = UArchiveID (Meta st);
  uo_offset : Offset st = Z.of_nat (length (Hashed st));
  uo_bound : (Offset st ≤ SUploadLength st < 2 ^ 62)%Z;
  uo_holds : holds d st;
}.

Definition uploads_ok (d : disk) (s : Store) : Prop := ∀ id st, uploads s !! id = Some st → upload_ok d st.

Record service_ok (s : Store) (d : disk) : Prop := {
  sv_store : store_ok s;
  sv_disk : disk_ok d;
  sv_uploads : uploads_ok d s;
}.

(** *** What a change of the disk leaves *)

Lemma verified_frame (aid : string) (d d' : disk) :
  (∀ l, d' !! (final_at root aid ++ l)%list = d !! (final_at root aid ++ l)%list) →
  verified_archive aid d → verified_archive aid d'.
Proof using Type.
  intros Hk (rc & mb & data & H1 & H2 & H3 & H4 & H5 & H6 & H7 & H8). exists rc, mb, data. rewrite Hk. split_and!; try done.
  destruct (mediaAllowList !! RMediaType rc) as [[]|]; [by rewrite Hk| |done]. destruct H8 as (T1 & T2 & T3).
  split_and!; [done|done|]. eapply Forall_impl; [exact T3|]. intros e. cbn beta. rewrite Hk. destruct (is_dir e); [|done].
  intros [E|E]; [by left|right]. by rewrite Hk.
Qed.

Lemma sound_frame (d d' : disk) :
  (∀ aid l, aid ≠ ".done" → d' !! (final_at root aid ++ l)%list = d !! (final_at root aid ++ l)%list) →
  archives_sound d → archives_sound d'.
Proof using Type.
  intros Hk Hs aid Ha Hd. assert (Hk' : ∀ l, d' !! (final_at root aid ++ l)%list = d !! (final_at root aid ++ l)%list) by (intros l; by apply Hk).
  eapply verified_frame; [exact Hk'|]. apply Hs; [done|]. specialize (Hk' []). rewrite !app_nil_r in Hk'. by rewrite <- Hk'.
Qed.

(** A region among the temporary files. *)
Lemma disk_frame (R : path → Prop) (d d' : disk) :
  region R (areas root) → (∀ k, R k → below (tmp_area root) k) → disk_ok d → same_beyond R d d' → disk_ok d'.
Proof using Type.
  intros HR Ht [Hf Hs] Hd. split; [by eapply beyond_folders|]. eapply sound_frame; [|exact Hs].
  intros aid l _. apply Hd. intros HRk%Ht. unfold tmp_area, final_at, archive_area in HRk.
  rewrite <- !app_assoc in HRk. by apply below_sibling in HRk.
Qed.

Lemma own_below (id : string) (k : path) : own root id k → below (tmp_area root) k.
Proof using Type. intros [H|H]; (eapply below_trans; [apply below_app|exact H]). Qed.

Lemma own_frame (id : string) (d d' : disk) : disk_ok d → same_beyond (own root id) d d' → disk_ok d'.
Proof using Type. apply disk_frame; [apply own_region|apply own_below]. Qed.

Lemma holds_same (d d' : disk) (st : UploadState) :
  d' !! tmp_at root (ID st) = d !! tmp_at root (ID st) ∨ d' !! tmp_at root (ID st) = None → holds d st → holds d' st.
Proof using Type. unfold holds. by intros [->| ->]. Qed.

Lemma upload_frame (d d' : disk) (st : UploadState) :
  d' !! tmp_at root (ID st) = d !! tmp_at root (ID st) ∨ d' !! tmp_at root (ID st) = None → upload_ok d st → upload_ok d' st.
Proof using Type. intros Hk []. constructor; try done. by eapply holds_same. Qed.

(** The other uploads, when one's own paths change. *)
Lemma others_ok (id : string) (d d' : disk) (s : Store) :
  upload_id id → store_ok s → uploads s !! id = None → uploads_ok d s →
  (∀ k, below (tmp_area root) k → ¬ own root id k → d' !! k = d !! k) → uploads_ok d' s.
Proof using Type.
  intros Hid Hs Hn Hu Hd id' st E. pose proof (Hu id' st E) as Hst. eapply upload_frame; [left|exact Hst].
  apply Hd; [apply below_app|]. apply other_own; [done|apply Hst|]. rewrite (so_ids s Hs id' st E).
  intros ->. by rewrite Hn in E.
Qed.

Lemma archive_not_own (id aid : string) (l : path) : ¬ own root id (final_at root aid ++ l)%list.
Proof using Type.
  intros H%own_below. unfold tmp_area, final_at, archive_area in H. rewrite <- !app_assoc in H. by apply below_sibling in H.
Qed.

(** *** Publication keeps the archives sound *)

Lemma published_sound (cfg : FinalizeConfig) (st : UploadState) (deliveredBy : option string) (rc : FinalizeReceipt) (d d' : disk) :
  deliveredBy = Some (SourceID st) → known (SourceID st) → StagingRoot cfg = root → ArchiveID st = UArchiveID (Meta st) → good_fields (Meta st) →
  tmp_content cfg st d = Hashed st → disk_ok d →
  accepted cfg st deliveredBy (tmp_content cfg st d) rc → published cfg st (tmp_content cfg st d) rc d d' → disk_ok d'.
Proof using Type.
  intros -> Hknown Hroot Haid Hgood Hdata [Hf Hs] ((now & n & raw & Hrc) & Hlen & Hsha & _) [P1 P2 P3 P4 P5].
  rewrite Hroot in P1, P2, P3, P4, P5.
  rewrite Hdata in *. assert (Hout : ∀ q, areas root q → d' !! q = d !! q).
  { intros q Hq. apply P2; [by apply (region_base _ _ (own_region root (ID st)))|].
    intros Hb. destruct Hq as [Hq|Hq].
    - assert (Hb2 : below (archive_area root) (tmp_area root)).
      { eapply below_trans; [|exact Hq]. eapply below_trans; [|exact Hb]. apply below_app. }
      unfold tmp_area, archive_area in Hb2. by apply below_sibling in Hb2.
    - assert (Hb2 : below (final_at root (ArchiveID st)) (archive_area root)) by by eapply below_trans.
      apply prefix_length in Hb2. unfold final_at in Hb2. rewrite length_app in Hb2. cbn in Hb2. lia. }
  split.
  { intros q Hq. destruct (Hf q Hq) as [->|E]; [by left|right]. by rewrite Hout. }
  intros aid Hdone Hthere. destruct (decide (aid = ArchiveID st)) as [->|Hne].
  - destruct P4 as (mb & Hm & Hmb). exists rc, mb, (Hashed st). rewrite Hrc in *. unfold receipt_skeleton in *.
    set (skel := match scannerLanePolicy (Sources cfg) (SourceID st) with None => _ | Some _ => _ end) in *.
    assert (Hskel : RArchiveID skel = ArchiveID st ∧ RSizeBytes skel = SUploadLength st ∧ RSHA256 skel = USHA256 (Meta st) ∧
      RMediaType skel = UMediaType (Meta st) ∧ RDeliveredBy skel = SourceID st ∧ RIdentity skel = BuildIdentity (Some (SourceID st))) by (unfold skel; by destruct (scannerLanePolicy _ _)).
    destruct Hskel as (K1 & K2 & K3 & K4 & K5 & K6). cbn [RArchiveID RSizeBytes RSHA256 RMediaType RDeliveredBy RIdentity set_extracted].
    rewrite K1, K2, K3, K4, K5, K6. split_and!; try done. unfold staged_content, Shape in P5.
    destruct (mediaAllowList !! UMediaType (Meta st)) as [[]|]; [| |done].
    + destruct P5 as [-> P5]. done.
    + destruct P5 as (T1 & T2 & T3). split_and!; [done|done|]. eapply Forall_impl; [exact T3|]. by intros e [_ H].
  - assert (Hk : ∀ l, d' !! (final_at root aid ++ l)%list = d !! (final_at root aid ++ l)%list).
    { intros l. apply P2.
      - apply archive_not_own.
      - unfold final_at. rewrite <- !app_assoc. intros Hb%below_sibling. done. }
    eapply verified_frame; [exact Hk|]. apply Hs; [done|]. specialize (Hk []). rewrite !app_nil_r in Hk. by rewrite <- Hk.
Qed.
End invariant.

Lemma verified_known {lib : ArchiveLib} (root : string) (known known' : string → Prop) (aid : string) (d : disk) :
  (∀ src, known src → known' src) → verified_archive root known aid d → verified_archive root known' aid d.
Proof. intros Hk (rc & mb & data & H1 & H2 & H3 & H4 & H5). exists rc, mb, data. split_and!; try done; by apply Hk || apply H5. Qed.

Lemma sound_known {lib : ArchiveLib} (root : string) (known known' : string → Prop) (d : disk) :
  (∀ src, known src → known' src) → archives_sound root known d → archives_sound root known' d.
Proof. intros Hk Hs aid Ha Hd. eapply verified_known; [exact Hk|by apply Hs]. Qed.

Lemma service_known {lib : ArchiveLib} (root : string) (known known' : string → Prop) (s : Store) (d : disk) :
  (∀ src, known src → known' src) → service_ok root known s d → service_ok root known' s d.
Proof.
  intros Hk [H1 [H2 H3] H4]. split; [done|split; [done|by eapply sound_known]|]. intros id st E. destruct (H4 id st E).
  constructor; try done. by apply Hk.
Qed.

(** ** The body of a PATCH *)

(** The bytes of a body. *)
Definition body_bytes (b : Body) : bytes := (concat (BChunks b) ++ BTail b)%list.

Lemma append_append (p : path) (x y : bytes) (d : disk) : append p y (append p x d) = append p (x ++ y)%list d.
Proof.
  apply map_eq. intros k. rewrite !append_lookup. destruct (decide (k = p)) as [->|]; [|done].
  rewrite decide_True by done. destruct (d !! p) as [[|old]|]; [done| |done]. by rewrite app_assoc.
Qed.

(** What was copied: a part of the body that is in the file too, with [extra]
    bytes after it when the disk failed; the whole body, up to the limit,
    when nothing went wrong. *)
Definition copied (t : path) (limit : nat) (body : bytes) (landed0 : bytes) (d d' : disk) (r : bytes * option PatchErr) : Prop :=
  ∃ got extra, r.1 = (landed0 ++ got)%list ∧ d' = append t (got ++ extra)%list d ∧ got `prefix_of` take limit body ∧
    (r.2 = None → got = take limit body ∧ extra = []).

Lemma write_chunk_spec (tmpPath : string) (c : bytes) (d : disk) :
  under dstep (write_chunk tmpPath c) d (λ d' ok, ∃ n, d' = append (comps tmpPath) (take n c) d ∧ (ok = true → take n c = c)).
Proof.
  destruct c as [|x c]; [exists 0%nat; by rewrite append_nil|]. unfold write_chunk. apply under_bind. intros n s [Hn ->].
  cbn [under]. exists n. split; [done|]. destruct (Nat.ltb_spec n (length (x :: c))); [done|]. intros _. by apply take_ge.
Qed.

Lemma take_app_prefix (limit : nat) (c rest : bytes) :
  take limit (c ++ rest)%list = (take limit c ++ take (limit - length (take limit c)) rest)%list.
Proof.
  rewrite take_app. f_equal. rewrite length_take. destruct (Nat.le_gt_cases limit (length c)).
  - rewrite Nat.min_l by done. replace (limit - length c)%nat with 0%nat by lia. by rewrite Nat.sub_diag.
  - by rewrite Nat.min_r by lia.
Qed.

Lemma copy_chunks_spec (tmpPath : string) (ending : BodyEnd) (tail : bytes) (chunks : list bytes) : ∀ limit landed d,
  under dstep (copy_chunks tmpPath landed limit chunks tail ending) d
    (copied (comps tmpPath) limit (concat chunks ++ tail)%list landed d).
Proof.
  assert (Hfail : ∀ limit c rest landed n d, copied (comps tmpPath) limit (c ++ rest)%list landed d
    (append (comps tmpPath) (take n (take limit c)) d) (landed, Some FromDisk)).
  { intros limit c rest landed n d. exists [], (take n (take limit c)). split_and!; [by rewrite app_nil_r|done|apply prefix_nil|done]. }
  assert (Hnone : ∀ limit body landed d, limit = 0%nat → copied (comps tmpPath) limit body landed d d (landed, None)).
  { intros limit body landed d ->. exists [], []. rewrite take_0, append_nil, app_nil_r. split_and!; done. }
  induction chunks as [|c rest IH]; intros [|limit] landed d; try by apply Hnone.
  - cbn [copy_chunks concat app]. apply under_bind. eapply under_mono; [|apply write_chunk_spec].
    intros s ok (n & -> & Hok). destruct ok; cbn [negb under].
    + rewrite Hok by done. exists (take (S limit) tail), []. rewrite app_nil_r. split_and!; done.
    + pose proof (Hfail (S limit) tail [] landed n d) as H. by rewrite app_nil_r in H.
  - cbn [copy_chunks]. apply under_bind. eapply under_mono; [|apply write_chunk_spec].
    intros s ok (n & -> & Hok). change (concat (c :: rest)) with (c ++ concat rest)%list. rewrite <- app_assoc. destruct ok.
    2: { apply Hfail. }
    rewrite Hok by done. eapply under_mono; [|apply IH]. intros s [l e] (got & extra & H1 & -> & H3 & H4).
    exists (take (S limit) c ++ got)%list, extra. cbn [fst snd] in *. rewrite append_append, take_app_prefix.
    split_and!; [by rewrite app_assoc|by rewrite app_assoc|by apply prefix_app|].
    intros He. by destruct (H4 He) as [-> ->].
Qed.

Lemma copy_chunks_calls (P : aop → Prop) (tmpPath : string) (ending : BodyEnd) (tail : bytes) (chunks : list bytes) :
  (∀ x, P (Write tmpPath x)) → ∀ limit landed, calls (Σ := archive_sig) P (copy_chunks tmpPath landed limit chunks tail ending).
Proof.
  intros HP. assert (Hw : ∀ c, calls (Σ := archive_sig) P (write_chunk tmpPath c)).
  { intros [|x c]; [done|]. split; [apply HP|done]. }
  induction chunks as [|c rest IH]; intros [|limit] landed; cbn [copy_chunks]; try done.
  - apply calls_bind; [apply Hw|]. by intros [].
  - apply calls_bind; [apply Hw|]. intros []; [apply IH|done].
Qed.

(** ** The handlers *)

Lemma create_spec (s : Store) (src : string) (m : UploadMeta) (ul : Z) (d : disk) :
  under dstep (Create s src m ul) d (λ _ r,
    match r.2 with
    | Err _ => r.1 = s
    | Ok st =>
        r.1 = register s st ∧ uploads s !! ID st = None ∧ upload_id (ID st) ∧ st = new_upload (ID st) src m ul (CreatedAt st) ∧
        (Z.of_nat (size (uploads s)) < GlobalMaxConcurrent (scfg s))%Z ∧
        (in_flight s src < PerSourceMaxConcurrent (scfg s))%Z
    end).
Proof.
  unfold Create. destruct (Z.leb_spec (GlobalMaxConcurrent (scfg s)) (Z.of_nat (size (uploads s)))); [done|].
  destruct (Z.leb_spec (PerSourceMaxConcurrent (scfg s)) (in_flight s src)); [done|].
  unfold newUploadID. apply under_bind, under_bind. intros b s1 [-> Hb]. cbn [under].
  destruct b as [b|]; [|done]. cbn [fmap option_fmap option_map]. destruct (uploads s !! _) eqn:E; [done|].
  apply under_bind. intros now s2 ->. cbn [under fst snd]. destruct (Hb b eq_refl) as [Hl Hby].
  split_and!; [done|done|by apply hex_upload_id|done|done|done].
Qed.

Lemma create_looks (s : Store) (src : string) (m : UploadMeta) (ul : Z) : calls looks (Create s src m ul).
Proof.
  unfold Create, newUploadID. destruct (_ <=? _)%Z; [done|]. destruct (_ <=? _)%Z; [done|].
  apply calls_bind; [by apply calls_bind|]. intros [id|]; [|done]. by destruct (uploads s !! id).
Qed.

Lemma remove_registered (s : Store) (st : UploadState) : uploads s !! ID st = None → uploads (AStore.Remove (register s st) (ID st)) = uploads s.
Proof. intros Hn. unfold AStore.Remove. cbn. rewrite lookup_insert_eq. cbn. by rewrite delete_insert_id. Qed.

Lemma remove_scfg (s : Store) (id : string) : scfg (AStore.Remove s id) = scfg s.
Proof. unfold AStore.Remove. by destruct (uploads s !! id). Qed.

Lemma remove_uploads (s : Store) (id : string) : uploads (AStore.Remove s id) = delete id (uploads s).
Proof. unfold AStore.Remove. destruct (uploads s !! id) eqn:E; [done|]. by rewrite delete_id. Qed.

Section handlers.
Context {lib : ArchiveLib} (Quote : string → string) (cfg : HandlerConfig) (blocked : bool).
Abbreviation root := (HStagingRoot cfg).
Context (known : string → Prop).
Context (Hroot : absolute root) (Hmax : (0 < TusMaxSize cfg < 2 ^ 62)%Z).

Definition handled (s : Store) (p : prog handler_result) (d : disk) : Prop :=
  safely dstep (disk_ok root known) p d (λ d' r, service_ok root known r.1 d' ∧ scfg r.1 = scfg s).

Lemma handled_ret (s : Store) (resp : Response) (d : disk) : service_ok root known s d → handled s (Ret (s, resp)) d.
Proof using Type. intros Hs. apply safely_ret; [apply Hs|done]. Qed.

Lemma safely_own {A : Type} (id : string) (p : prog A) (d : disk) :
  disk_ok root known d → calls (Σ := archive_sig) (within (own root id) (areas root)) p →
  safely dstep (disk_ok root known) p d (λ s _, same_beyond (own root id) d s).
Proof using Type.
  intros Hd Hp. apply (safely_region _ (areas root)); [apply own_region|apply Hd| |done]. intros s. by apply own_frame.
Qed.

(** The service without an upload, whatever was done to the upload's paths. *)
Lemma service_without (id : string) (s : Store) (d d' : disk) :
  upload_id id → service_ok root known s d → disk_ok root known d' →
  (∀ k, below (tmp_area root) k → ¬ own root id k → d' !! k = d !! k) → service_ok root known (AStore.Remove s id) d'.
Proof using Type.
  intros Hid [Hs _ Hu] Hd Hk. split; [by apply remove_ok|done|].
  apply (others_ok root known id d d'); [done|by apply remove_ok| | |done].
  - by rewrite remove_uploads, lookup_delete_eq.
  - intros id' st. rewrite remove_uploads. intros [_ H]%lookup_delete_Some. by apply (Hu id').
Qed.

(** The service with an upload that was changed along with its paths. *)
Lemma service_with (st st0 : UploadState) (s : Store) (d d' : disk) :
  uploads s !! ID st = Some st0 → SourceID st = SourceID st0 → service_ok root known s d → upload_ok root known d' st → disk_ok root known d' →
  (∀ k, below (tmp_area root) k → ¬ own root (ID st) k → d' !! k = d !! k) → service_ok root known (update s st) d'.
Proof using Type.
  intros E Hsrc [Hs _ Hu] Hst Hd Hk. assert (Hok : store_ok (update s st)) by by eapply update_ok.
  split; [done|done|]. intros id st1. cbn. intros [[<- <-]|[Hne Hid]]%lookup_insert_Some; [done|].
  pose proof (Hu id st1 Hid) as H1. eapply upload_frame; [left|exact H1].
  apply Hk; [apply below_app|]. apply other_own; [apply Hst|apply H1|]. by rewrite (so_ids s Hs id st1 Hid).
Qed.

(** *** POST *)

Lemma tmp_mkdir (id : string) : within (own root id) (areas root) (MkdirAll (Join [root; ".tmp-archives"])).
Proof using Hroot.
  intros q Hq. right. left. rewrite comps_Join in Hq by by repeat constructor. done.
Qed.

Lemma service_registered (s : Store) (st : UploadState) (d d' : disk) :
  service_ok root known s d → uploads s !! ID st = None →
  (Z.of_nat (size (uploads s)) < GlobalMaxConcurrent (scfg s))%Z → (in_flight s (SourceID st) < PerSourceMaxConcurrent (scfg s))%Z →
  upload_ok root known d' st → disk_ok root known d' → same_beyond (own root (ID st)) d d' → service_ok root known (register s st) d'.
Proof using Type.
  intros [Hs Hd Hu] Hn H1 H2 Hst Hd' Hk. split; [by apply register_ok|done|]. intros id st1. cbn.
  intros [[<- <-]|[Hne Hid]]%lookup_insert_Some; [done|].
  eapply (others_ok root known (ID st) d d' s); [apply Hst|done|done|done| |exact Hid]. intros k _. apply Hk.
Qed.

Lemma allocate_handled (s : Store) (src : string) (m : UploadMeta) (ul : Z) (d : disk) :
  service_ok root known s d → known src → good_fields m → (0 ≤ ul < 2 ^ 62)%Z → handled s (allocate cfg s src m ul) d.
Proof using Hroot.
  intros Hs Hsrc Hm Hul. unfold allocate. apply safely_bind.
  eapply safely_mono; [|apply safely_and; [apply safely_looks; [apply Hs|apply create_looks]|apply create_spec]].
  intros d1 [s1 r] [-> Hr]. cbn [fst snd] in Hr. destruct r as [st|e].
  2: { subst s1. destruct e; by apply handled_ret. }
  destruct Hr as (-> & Hn & Hid & Hst & Hg & Hp). set (tmpPath := tmp_path root (ID st)).
  assert (Hc : comps tmpPath = tmp_at root (ID st)) by (apply comps_tmp; [done|apply Hid]).
  assert (Hown : own root (ID st) (comps tmpPath)) by (rewrite Hc; apply own_tmp).
  match goal with |- safely _ _ ?q _ _ =>
    assert (Hspec : under dstep q d (λ s' r, r.1 = AStore.Remove (register s st) (ID st) ∨
      (r.1 = register s st ∧ s' !! tmp_at root (ID st) = Some (File []))));
    [|assert (Hcalls : calls (Σ := archive_sig) (within (own root (ID st)) (areas root)) q)]
  end.
  { intros made s1 _. destruct made; [|by left]. intros opened s2 Hs2. destruct opened; [|by left].
    destruct Hs2 as (_ & _ & _ & ->). intros closed s3 ->. destruct closed; [|intros ? ? _; by left].
    intros now s4 ->. right. rewrite Hc. by rewrite lookup_insert_eq. }
  { split; [apply tmp_mkdir|]. intros []; [|done]. split; [done|]. intros []; [|done]. split; [done|]. by intros []. }
  eapply safely_mono; [|apply safely_and; [apply (safely_own (ID st)); [apply Hs|exact Hcalls]|exact Hspec]].
  clear Hspec Hcalls. intros d' [s' resp] [Hd' H']. cbn [fst snd] in *. pose proof (own_frame root known _ _ _ (sv_disk _ _ _ _ Hs) Hd') as Hok.
  destruct H' as [->|[-> Hfile]].
  - rewrite remove_scfg. split; [|done].
    assert (Hrem : store_ok (AStore.Remove (register s st) (ID st))).
    { apply remove_ok, register_ok; [apply Hs|done|done|]. by rewrite Hst. }
    split; [done|done|]. intros id st1. rewrite remove_registered by done. intros E.
    eapply (others_ok root known (ID st) d d' s); [done|apply Hs|done|apply Hs| |exact E]. intros k _. apply Hd'.
  - split; [|done]. eapply service_registered; [done|done|done|by rewrite Hst| |done|done].
    rewrite Hst. constructor; try done.
    unfold holds. cbn. rewrite Hst in Hfile. cbn in Hfile. rewrite Hfile. by left.
Qed.

Lemma require_source_handled (s : Store) (r : Request) (k : string → prog handler_result) (d : disk) :
  service_ok root known s d → (∀ sid, DeliveredBy r = Some sid → handled s (k sid) d) → handled s (require_source s r k) d.
Proof using Type. intros Hs Hk. unfold require_source. destruct (DeliveredBy r); [by apply Hk|by apply handled_ret]. Qed.

Lemma preflight_looks (src : string) (m : UploadMeta) : calls looks (preflightIdempotency cfg src m).
Proof using Type.
  split; [done|]. intros [[[] n]| |]; [done| |done..]. split; [done|]. intros [data| |]; [|done..].
  cbn. destruct (UnmarshalReceipt data); [|done]. by destruct (_ && _).
Qed.

Lemma create_handled (s : Store) (r : Request) (d : disk) :
  service_ok root known s d → (∀ sid, DeliveredBy r = Some sid → known sid) → handled s (create Quote cfg blocked s r) d.
Proof using Hroot Hmax.
  intros Hs Hkn. pose proof (λ resp, handled_ret s resp d Hs) as Hret. unfold create.
  destruct (tus_ok r); cbn [negb]; [|apply Hret]. destruct (String.eqb _ ""); [apply Hret|]. destruct (atoi _) as [ul|]; [|apply Hret].
  destruct (Z.ltb_spec ul 0); [apply Hret|]. destruct (0 <? TusMaxSize cfg)%Z eqn:E0; [|lia].
  destruct (Z.ltb_spec (TusMaxSize cfg) ul); [apply Hret|]. cbn [andb]. destruct (String.eqb _ ""); [apply Hret|].
  apply require_source_handled; [done|]. intros sid Hsid. destruct (ParseUploadMetadata _ _ _) as [m|e] eqn:Em.
  2: { destruct (mapMetadataError e). apply Hret. }
  apply parse_good in Em. apply safely_bind. eapply safely_mono; [|apply safely_looks; [apply Hs|apply preflight_looks]].
  intros d1 [status code] ->. destruct (_ =? 303)%Z; [apply Hret|]. destruct (_ =? 409)%Z; [apply Hret|].
  destruct (negb _); [apply Hret|]. destruct blocked; [apply Hret|]. apply allocate_handled; [done|by apply Hkn|done|lia].
Qed.

(** *** HEAD, DELETE and GET *)

Lemma with_upload_handled (s : Store) (r : Request) (k : string → UploadState → prog handler_result) (d : disk) :
  service_ok root known s d →
  (∀ id st, uploads s !! id = Some st → ID st = id → DeliveredBy r = Some (SourceID st) → handled s (k id st) d) →
  handled s (with_upload s r k) d.
Proof using Type.
  intros Hs Hk. unfold with_upload. destruct (tus_ok r); cbn [negb]; [|by apply handled_ret].
  apply require_source_handled; [done|]. intros sid Hsid. destruct (String.eqb _ ""); [by apply handled_ret|].
  unfold Get. destruct (uploads s !! _) as [st|] eqn:E; [|by apply handled_ret].
  destruct (String.eqb_spec (SourceID st) sid) as [Es|]; [|by apply handled_ret].
  apply Hk; [done|by apply (so_ids s (sv_store _ _ _ _ Hs))|by rewrite Es].
Qed.

Lemma head_handled (s : Store) (r : Request) (d : disk) : service_ok root known s d → handled s (head cfg s r) d.
Proof using Type. intros Hs. apply with_upload_handled; [done|]. intros id st _ _ _. by apply handled_ret. Qed.

Lemma delete_handled (s : Store) (r : Request) (d : disk) : service_ok root known s d → handled s (delete_upload cfg s r) d.
Proof using Hroot.
  intros Hs. apply with_upload_handled; [done|]. intros id st Hst Hid _.
  pose proof (uo_id _ _ _ _ (sv_uploads _ _ _ _ Hs id st Hst)) as Hup. rewrite Hid in Hup.
  apply safely_bind. eapply safely_mono; [|apply (safely_own id); [apply Hs|apply cleanup_within; [done|apply Hup]]].
  intros d' ? Hd'. pose proof (own_frame root known _ _ _ (sv_disk _ _ _ _ Hs) Hd') as Hok.
  apply safely_ret; [done|]. cbn [fst]. rewrite remove_scfg. split; [|done].
  eapply service_without; [done|done|done|]. intros k _. apply Hd'.
Qed.

Lemma get_handled (s : Store) (r : Request) (d : disk) : service_ok root known s d → handled s (get cfg s r) d.
Proof using Type.
  intros Hs. apply require_source_handled; [done|]. intros sid Hsid. cbv beta zeta. destruct (negb _); [by apply handled_ret|].
  apply safely_bind, safely_call; [apply Hs|]. intros data d' [-> _]. split; [apply Hs|].
  destruct data as [data| |]; [|by apply handled_ret..].
  cbn. destruct (UnmarshalReceipt data) as [rc|]; [|by apply handled_ret].
  destruct (String.eqb _ _); by apply handled_ret.
Qed.

(** *** PATCH *)

Lemma content_checked (st : UploadState) (d : disk) :
  upload_ok root known d st → (SUploadLength st ≤ Offset st)%Z →
  Z.of_nat (length (tmp_content (finalize_config cfg) st d)) = SUploadLength st → tmp_content (finalize_config cfg) st d = Hashed st.
Proof using Type.
  intros Hst Hfull. pose proof (uo_offset _ _ _ _ Hst) as Ho. pose proof (uo_bound _ _ _ _ Hst) as Hb.
  pose proof (uo_holds _ _ _ _ Hst) as Hh. unfold holds in Hh. unfold tmp_content. cbn [StagingRoot finalize_config].
  destruct (d !! tmp_at root (ID st)) as [[|data]|]; [done| |].
  - intros Hl. destruct Hh as [->|Hh]; [done|lia].
  - cbn. intros Hl. destruct (Hashed st); [done|]. cbn [length] in *. lia.
Qed.

Lemma finalize_handled (s : Store) (r : Request) (st : UploadState) (d : disk) :
  service_ok root known s d → uploads s !! ID st = Some st → DeliveredBy r = Some (SourceID st) →
  (SUploadLength st ≤ Offset st)%Z → handled s (finalizeAndRespond cfg s r (ID st) st) d.
Proof using Hroot.
  intros Hs E Hby Hfull. pose proof (sv_uploads _ _ _ _ Hs _ _ E) as Hst. pose proof (uo_id _ _ _ _ Hst) as Hid.
  pose proof (uo_meta _ _ _ _ Hst) as Hmeta. set (fcfg := finalize_config cfg).
  assert (Hat : ∀ s', atomically fcfg st (DeliveredBy r) (tmp_content fcfg st d) d s' → disk_ok root known s').
  { intros s' [Hs'|(rc & Hacc & Hpub)]; [eapply own_frame; [apply Hs|exact Hs']|].
    eapply (published_sound root known fcfg st); [exact Hby|apply Hst|done|apply Hst|done| |apply Hs|exact Hacc|exact Hpub].
    apply content_checked; [done|done|apply Hacc]. }
  assert (Hfin : safely dstep (disk_ok root known) (Finalize fcfg st (DeliveredBy r)) d (λ d' r', disk_ok root known d' ∧
    ∀ k, below (tmp_area root) k → ¬ own root (ID st) k → d' !! k = d !! k)).
  { destruct (Finalize_safely fcfg st (DeliveredBy r) Hroot) with (d := d) as [F1 F2].
    - apply Hid.
    - done.
    - rewrite (uo_archive _ _ _ _ Hst). apply good_id_plain; apply Hmeta.
    - apply Hs.
    - pose proof (uo_holds _ _ _ _ Hst) as Hh. unfold holds in Hh. cbn. by destruct (d !! _) as [[|]|].
    - pose proof (uo_bound _ _ _ _ Hst). pose proof (uo_offset _ _ _ _ Hst). lia.
    - split; [by eapply always_mono|]. eapply under_mono; [|exact F2]. intros d' [rc|e] Hd'.
      + destruct Hd' as (_ & Hacc & Hpub). split; [apply Hat; right; by eexists|].
        intros k Hk1 Hk2. apply (pub_rest _ _ _ _ _ _ Hpub); [done|]. intros [l ->].
        change (StagingRoot fcfg) with root in Hk1. unfold tmp_area, final_at, archive_area in Hk1.
        rewrite <- !app_assoc in Hk1. by apply below_sibling in Hk1.
      + split; [apply Hat; by left|]. intros k _. apply Hd'. }
  apply safely_bind. eapply safely_mono; [|exact Hfin]. intros d' r' [Hd' Hk].
  assert (Hrem : service_ok root known (AStore.Remove s (ID st)) d') by by eapply service_without.
  destruct r' as [rc|e]; [|destruct (finalize_failure e)]; (apply safely_ret; [done|]); cbn [fst]; by rewrite remove_scfg.
Qed.

Lemma patched_ok (st : UploadState) (got extra : bytes) (body : bytes) (now : Z) (d : disk) :
  upload_ok root known d st → is_file d (tmp_at root (ID st)) → got `prefix_of` take (Z.to_nat (SUploadLength st - Offset st)) body →
  upload_ok root known (append (tmp_at root (ID st)) (got ++ extra)%list d)
    (set_progress (Offset st + Z.of_nat (length got)) (Hashed st ++ got)%list now st).
Proof using Type.
  intros [U1 Us U2 U3 U4 U5 U6] [old Hold] Hgot. apply prefix_length in Hgot. rewrite length_take in Hgot. constructor; try done.
  - cbn. rewrite length_app. lia.
  - cbn. lia.
  - unfold holds in *. cbn. rewrite append_lookup, decide_True by done. rewrite Hold in *.
    destruct U6 as [->|U6]; [|right; rewrite !length_app; lia]. destruct extra as [|x extra]; [left; by rewrite app_nil_r|].
    right. rewrite !length_app. cbn. lia.
Qed.

Lemma patch_locked_handled (s : Store) (r : Request) (off : Z) (st : UploadState) (d : disk) :
  service_ok root known s d → uploads s !! ID st = Some st → DeliveredBy r = Some (SourceID st) → handled s (patch_locked cfg s r (ID st) off st) d.
Proof using Hroot.
  intros Hs E Hby. pose proof (sv_uploads _ _ _ _ Hs _ _ E) as Hst. pose proof (uo_id _ _ _ _ Hst) as Hid.
  unfold patch_locked. destruct (off =? Offset st)%Z; cbn [negb]; [|by apply handled_ret].
  assert (Hc : comps (tmp_path root (ID st)) = tmp_at root (ID st)) by (apply comps_tmp; [done|apply Hid]).
  apply safely_bind, safely_call; [apply Hs|]. intros opened d1 [Hop ->]. split; [apply Hs|].
  destruct opened; cbn [negb]; [|by apply handled_ret]. specialize (Hop eq_refl). rewrite Hc in Hop.
  apply safely_bind. eapply safely_mono.
  2: { apply safely_and; [apply (safely_own (ID st)); [apply Hs|]|apply copy_chunks_spec].
       apply copy_chunks_calls. intros x. cbn. rewrite Hc. apply own_tmp. }
  intros d2 [landed err] [Hd2 (got & extra & Hl & Hd2' & Hgot & _)]. cbn [fst snd app] in Hl. subst landed. rewrite Hc in Hd2'.
  pose proof (own_frame root known _ _ _ (sv_disk _ _ _ _ Hs) Hd2) as Hok.
  apply safely_bind, safely_call; [done|]. intros now d3 ->. split; [done|]. cbv zeta.
  set (st2 := set_progress _ _ _ _). set (s2 := update s st2).
  assert (Hst2 : upload_ok root known d2 st2) by (rewrite Hd2'; by eapply patched_ok).
  assert (Hs2 : service_ok root known s2 d2).
  { eapply service_with; [exact E|done|done|done|done|]. intros k _. apply Hd2. }
  assert (Hret : ∀ resp, handled s (Ret (s2, resp)) d2) by (intros resp; by apply safely_ret).
  assert (Hclose : ∀ k, handled s k d2 → handled s (bind (do_ (Close (tmp_path root (ID st)))) (λ _, k)) d2).
  { intros k Hk. apply safely_bind, safely_call; [done|]. intros ? d4 ->. split; [done|exact Hk]. }
  destruct err as [e|].
  - assert (Hexp : handled s (bind (do_ Expired) (λ expired, bind (do_ (Close (tmp_path root (ID st)))) (λ _,
      if expired then Ret (s2, writeErrorJSON 408 "patch_idle_timeout") else Ret (s2, writeErrorJSON 400 "patch_body_truncated")))) d2).
    { apply safely_bind, safely_call; [done|]. intros expired d4 ->. split; [done|]. apply Hclose. destruct expired; apply Hret. }
    destruct e as [[]|]; [apply Hexp|by apply Hclose|apply Hexp|apply Hexp].
  - apply Hclose. destruct (Z.leb_spec (SUploadLength st2) (Offset st2)) as [Hfull|_]; [|apply Hret].
    assert (Hf : handled s2 (finalizeAndRespond cfg s2 r (ID st2) st2) d2).
    { apply finalize_handled; [done| |done|done]. cbn. by rewrite lookup_insert_eq. }
    exact Hf.
Qed.

Lemma patch_handled (s : Store) (r : Request) (d : disk) : service_ok root known s d → handled s (patch cfg s r) d.
Proof using Hroot.
  intros Hs. apply with_upload_handled; [done|]. intros id st E Hid Hby.
  destruct (String.eqb _ patchContentType); cbn [negb]; [|by apply handled_ret].
  destruct (String.eqb _ ""); [by apply handled_ret|]. destruct (atoi _) as [off|]; [|by apply handled_ret].
  destruct (off <? 0)%Z; [by apply handled_ret|].
  apply safely_bind, safely_call; [apply Hs|]. intros locked d1 ->. split; [apply Hs|].
  destruct locked; cbn [negb]; [|by apply handled_ret]. rewrite <- Hid in E |- *. by apply patch_locked_handled.
Qed.

(** Every request. *)
Lemma serve_handled (s : Store) (r : Request) (p : prog handler_result) (d : disk) :
  service_ok root known s d → (∀ sid, DeliveredBy r = Some sid → known sid) → serve Quote cfg blocked s r = Some p → handled s p d.
Proof using Hroot Hmax.
  intros Hs Hkn. unfold serve. destruct (String.eqb _ archivesBasePath).
  - intros [= <-]. destruct (String.eqb _ "OPTIONS"); [by apply handled_ret|].
    destruct (String.eqb _ "POST"); [by apply create_handled|by apply handled_ret].
  - destruct (has_prefix _ _); [|done]. intros [= <-].
    destruct (String.eqb _ "HEAD"); [by apply head_handled|]. destruct (String.eqb _ "PATCH"); [by apply patch_handled|].
    destruct (String.eqb _ "DELETE"); [by apply delete_handled|]. destruct (String.eqb _ "GET"); [by apply get_handled|].
    by apply handled_ret.
Qed.
End handlers.
