(* ===== verification/AUpkeep.v ===== *)
(** internal/ingest/archives/cleanup.go and quota.go: what the background
    goroutines do to the disk and measure of it. *)
From S2P Require Import Prelude GoStrings GoFloat GoPath Utf8 Effects DSubject ADisk AMeta ATar ATarFacts AStore AFinalize AFinalizeFacts AUploads.
Local Open Scope string_scope.
Local Open Scope prog_scope.

(** ** dirBytes *)

(** The size a walk adds for what it meets. *)
Definition walk_size (w : option (bool * option Z)) : Z :=
  match w with Some (false, Some n) => n | _ => 0%Z end.
Definition sum_walk (w : walked) : Z := foldl (λ total e, wrap64 (total + walk_size e)) 0%Z w.
Definition dirBytes (root : string) : prog Z := let! w := do_ (Walk root) in Ret (sum_walk w).

(** ** cleanup.go *)

Record CleanupConfig := mkCleanupConfig { CStagingRoot : string; TmpAge : Z; FinalizeAge : Z; DoneRetention : Z }.

(** The defaults of StartCleanupGoroutine, in nanoseconds. *)
Definition hour : Z := 3600000000000.
Definition cleanup_defaults (cfg : CleanupConfig) : CleanupConfig :=
  mkCleanupConfig (CStagingRoot cfg)
    (if (TmpAge cfg <=? 0)%Z then 72 * hour else TmpAge cfg)%Z
    (if (FinalizeAge cfg <=? 0)%Z then hour else FinalizeAge cfg)%Z
    (if (DoneRetention cfg <=? 0)%Z then 7 * 24 * hour else DoneRetention cfg)%Z.

Record cleanupStats := mkStats {
  removedUploads : Z; removedFinalizeDirs : Z; removedDoneArchives : Z; freedBytes : Z;
}.

Definition is_finalize (name : string) : bool :=
  let n := String.length name in
  (9 <=? n)%nat && String.eqb (String.substring (n - 9) 9 name) ".finalize".

Fixpoint cleanup_tmp_entries (cfg : CleanupConfig) (tmpRoot : string) (now : Z) (stats : cleanupStats) (es : list DirEntry)
    {struct es} : prog cleanupStats :=
  match es with
  | [] => Ret stats
  | e :: rest =>
      let path := Join [tmpRoot; EName e] in
      match EInfo e with
      | None => cleanup_tmp_entries cfg tmpRoot now stats rest
      | Some (modTime, size) =>
          let age := (now - modTime)%Z in
          if is_finalize (EName e) && EIsDir e then
            if (age <? FinalizeAge cfg)%Z then cleanup_tmp_entries cfg tmpRoot now stats rest
            else
              let! dirSize := dirBytes path in
              let! removed := do_ (RemoveAll path) in
              cleanup_tmp_entries cfg tmpRoot now
                (if removed then mkStats (removedUploads stats) (removedFinalizeDirs stats + 1) (removedDoneArchives stats)
                                   (freedBytes stats + dirSize) else stats)%Z rest
          else if negb (EIsDir e) then
            if (age <? TmpAge cfg)%Z then cleanup_tmp_entries cfg tmpRoot now stats rest
            else
              let! removed := do_ (ADisk.Remove path) in
              cleanup_tmp_entries cfg tmpRoot now
                (match (removed : outcome) with
                 | Done => mkStats (removedUploads stats + 1) (removedFinalizeDirs stats) (removedDoneArchives stats)
                             (freedBytes stats + size)
                 | _ => stats
                 end)%Z rest
          else cleanup_tmp_entries cfg tmpRoot now stats rest
      end
  end.

Fixpoint cleanup_done_entries (cfg : CleanupConfig) (doneRoot : string) (now : Z) (stats : cleanupStats) (es : list DirEntry)
    {struct es} : prog cleanupStats :=
  match es with
  | [] => Ret stats
  | e :: rest =>
      if negb (EIsDir e) then cleanup_done_entries cfg doneRoot now stats rest
      else
        let path := Join [doneRoot; EName e] in
        match EInfo e with
        | None => cleanup_done_entries cfg doneRoot now stats rest
        | Some (modTime, _) =>
            if (now - modTime <? DoneRetention cfg)%Z then cleanup_done_entries cfg doneRoot now stats rest
            else
              let! dirSize := dirBytes path in
              let! removed := do_ (RemoveAll path) in
              cleanup_done_entries cfg doneRoot now
                (if removed then mkStats (removedUploads stats) (removedFinalizeDirs stats) (removedDoneArchives stats + 1)
                                   (freedBytes stats + dirSize) else stats)%Z rest
        end
  end.

(** A folder's entries, none when it cannot be read. *)
Definition listed (root : string) : prog (list DirEntry) :=
  let! r := do_ (ListDir root) in Ret (match (r : found (list DirEntry)) with Found es => es | _ => [] end).

Definition cleanupTmpArea (cfg : CleanupConfig) (tmpRoot : string) (now : Z) (stats : cleanupStats) : prog cleanupStats :=
  let! es := listed tmpRoot in cleanup_tmp_entries cfg tmpRoot now stats es.

Definition cleanupDoneArea (cfg : CleanupConfig) (doneRoot : string) (now : Z) (stats : cleanupStats) : prog cleanupStats :=
  let! es := listed doneRoot in cleanup_done_entries cfg doneRoot now stats es.

Definition runCleanupOnce (cfg : CleanupConfig) : prog cleanupStats :=
  let! now := do_ Now in
  let! stats := cleanupTmpArea cfg (Join [CStagingRoot cfg; ".tmp-archives"]) now (mkStats 0 0 0 0) in
  cleanupDoneArea cfg (Join [CStagingRoot cfg; "archives"; ".done"]) now stats.

(** ** quota.go *)

Record QuotaState := mkQuota { pct : spec_float; hardCapBlock : bool; perSource : gmap string Z }.
Definition NewQuotaState : QuotaState := mkQuota fzero false ∅.
Definition ShouldBlock (q : QuotaState) : bool := hardCapBlock q.

Record QuotaConfig := mkQuotaConfig {
  QStagingRoot : string; CapacityBytes : Z; HardTripPct : spec_float; HardLiftPct : spec_float;
}.

Definition quota_defaults (cfg : QuotaConfig) : QuotaConfig :=
  mkQuotaConfig (QStagingRoot cfg) (CapacityBytes cfg)
    (if fle (HardTripPct cfg) fzero then float64 95 else HardTripPct cfg)
    (if fle (HardLiftPct cfg) fzero then float64 85 else HardLiftPct cfg).

Definition usage_pct (cfg : QuotaConfig) (total : Z) : spec_float :=
  if (0 <? CapacityBytes cfg)%Z then fmul (fdiv (float64 total) (float64 (CapacityBytes cfg))) (float64 100) else fzero.

(** The transition of hardCapBlock. *)
Definition hysteresis (cfg : QuotaConfig) (blocking : bool) (p : spec_float) : bool :=
  if negb blocking && fge p (HardTripPct cfg) then true
  else if blocking && fle p (HardLiftPct cfg) then false
  else blocking.

Section quota.
(** The delivered_by of a metadata.json, when it is JSON. *)
Context (UnmarshalDeliveredBy : bytes → option string).

Fixpoint per_source (archivesRoot : string) (out : gmap string Z) (es : list DirEntry) {struct es} : prog (gmap string Z) :=
  match es with
  | [] => Ret out
  | e :: rest =>
      if negb (EIsDir e) || has_prefix "." (EName e) then per_source archivesRoot out rest
      else
        let sub := Join [archivesRoot; EName e] in
        let! data := do_ (ReadFile (Join [sub; "metadata.json"])) in
        match (data : found bytes) with
        | Found data =>
            match UnmarshalDeliveredBy data with
            | None => per_source archivesRoot out rest
            | Some sid =>
                let sid := if String.eqb sid "" then "unknown" else sid in
                let! n := dirBytes sub in
                per_source archivesRoot (<[sid := wrap64 (default 0%Z (out !! sid) + n)]> out) rest
            end
        | _ => per_source archivesRoot out rest
        end
  end.

Definition perSourceBytes (archivesRoot : string) : prog (gmap string Z) :=
  let! es := listed archivesRoot in per_source archivesRoot ∅ es.

Definition measureOnce (cfg : QuotaConfig) (q : QuotaState) : prog QuotaState :=
  let archivesRoot := Join [QStagingRoot cfg; "archives"] in
  let! archBytes := dirBytes archivesRoot in
  let! tmpBytes := dirBytes (Join [QStagingRoot cfg; ".tmp-archives"]) in
  let p := usage_pct cfg (wrap64 (archBytes + tmpBytes)) in
  let! perSrc := perSourceBytes archivesRoot in
  Ret (mkQuota p (hysteresis cfg (hardCapBlock q) p) perSrc).
End quota.

(** * What the cleanup removes and when, and how the storage cap trips and
    lifts (AUpkeep.v). *)

(** ** Only what is old *)

(** An entry of a folder that was listed and that was older than [limit] at
    the time that was read. *)
Definition old_entry (h : trace archive_sig) (folder : string) (limit : Z) (e : DirEntry) : Prop :=
  ∃ es now modTime size,
    Event (Σ := archive_sig) (ListDir folder) (Found es) ∈ h ∧ e ∈ es ∧
    Event (Σ := archive_sig) Now now ∈ h ∧ EInfo e = Some (modTime, size) ∧ (limit ≤ now - modTime)%Z.

(** What a pass may call: it removes old files of the temporary area, old
    folders of it whose name ends in .finalize and old folders of the
    retention area, by their names, and changes nothing else. *)
Definition may_clean (cfg : CleanupConfig) (h : trace archive_sig) (o : aop) : Prop :=
  let tmpRoot := Join [CStagingRoot cfg; ".tmp-archives"] in
  let doneRoot := Join [CStagingRoot cfg; "archives"; ".done"] in
  match o with
  | ADisk.Remove p => ∃ e, p = Join [tmpRoot; EName e] ∧ old_entry h tmpRoot (TmpAge cfg) e ∧ EIsDir e = false
  | RemoveAll p => ∃ e, EIsDir e = true ∧
      (p = Join [tmpRoot; EName e] ∧ is_finalize (EName e) = true ∧ old_entry h tmpRoot (FinalizeAge cfg) e ∨
       p = Join [doneRoot; EName e] ∧ old_entry h doneRoot (DoneRetention cfg) e)
  | Now | ListDir _ | Walk _ => True
  | _ => False
  end.

Lemma old_entry_later (h l : trace archive_sig) (folder : string) (limit : Z) (e : DirEntry) :
  old_entry h folder limit e → old_entry (h ++ l) folder limit e.
Proof.
  intros (es & now & t & n & H1 & H2 & H3 & H4). exists es, now, t, n. rewrite !elem_of_app. tauto.
Qed.

Section cleanup.
Context (cfg : CleanupConfig).
Abbreviation tmpRoot := (Join [CStagingRoot cfg; ".tmp-archives"]).
Abbreviation doneRoot := (Join [CStagingRoot cfg; "archives"; ".done"]).

(** The clock and the listing are in the history. *)
Definition seen (h : trace archive_sig) (folder : string) (now : Z) (es : list DirEntry) : Prop :=
  Event (Σ := archive_sig) Now now ∈ h ∧
  (es = [] ∨ ∃ all, Event (Σ := archive_sig) (ListDir folder) (Found all) ∈ h ∧ es ⊆ all).

Lemma seen_old (h : trace archive_sig) (folder : string) (now limit modTime size : Z) (e : DirEntry) (rest : list DirEntry) :
  seen h folder now (e :: rest) → EInfo e = Some (modTime, size) → (limit ≤ now - modTime)%Z → old_entry h folder limit e.
Proof using Type.
  intros [Hn [|(all & Ha & Hs)]] He Hl; [done|]. exists all, now, modTime, size. split_and!; try done. apply Hs. left.
Qed.

Lemma seen_rest (h l : trace archive_sig) (folder : string) (now : Z) (e : DirEntry) (rest : list DirEntry) :
  seen h folder now (e :: rest) → seen (h ++ l) folder now rest.
Proof using Type.
  intros [Hn [|(all & Ha & Hs)]]; [done|]. split; [by apply elem_of_app; left|]. right. exists all.
  split; [by apply elem_of_app; left|]. intros x Hx. apply Hs. by right.
Qed.

Lemma seen_next (h : trace archive_sig) (folder : string) (now : Z) (e : DirEntry) (rest : list DirEntry) :
  seen h folder now (e :: rest) → seen h folder now rest.
Proof using Type. intros H%(seen_rest h []). by rewrite app_nil_r in H. Qed.

Lemma tmp_entries_during (now : Z) (es : list DirEntry) : ∀ stats h,
  seen h tmpRoot now es → during (may_clean cfg) (cleanup_tmp_entries cfg tmpRoot now stats es) h.
Proof using Type.
  induction es as [|e rest IH]; intros stats h Hs; [done|]. cbn [cleanup_tmp_entries].
  destruct (EInfo e) as [[t n]|] eqn:E; [|by apply IH; eapply seen_next].
  destruct (is_finalize (EName e) && EIsDir e) eqn:Ef.
  - apply andb_true_iff in Ef as [Ef Ed]. destruct (Z.ltb_spec (now - t) (FinalizeAge cfg)); [by apply IH; eapply seen_next|].
    pose proof (seen_old _ _ _ (FinalizeAge cfg) _ _ _ _ Hs E ltac:(lia)) as Hold.
    split; [done|]. intros w. split; [exists e; split; [done|left; split_and!; [done|done|by apply old_entry_later]]|].
    intros []; apply IH; rewrite <- app_assoc; by eapply seen_rest.
  - destruct (EIsDir e) eqn:Ed; cbn [negb]; [by apply IH; eapply seen_next|].
    destruct (Z.ltb_spec (now - t) (TmpAge cfg)); [by apply IH; eapply seen_next|].
    pose proof (seen_old _ _ _ (TmpAge cfg) _ _ _ _ Hs E ltac:(lia)) as Hold.
    split; [by exists e|]. intros []; apply IH; by eapply seen_rest.
Qed.

Lemma done_entries_during (now : Z) (es : list DirEntry) : ∀ stats h,
  seen h doneRoot now es → during (may_clean cfg) (cleanup_done_entries cfg doneRoot now stats es) h.
Proof using Type.
  induction es as [|e rest IH]; intros stats h Hs; [done|]. cbn [cleanup_done_entries].
  destruct (EIsDir e) eqn:Ed; cbn [negb]; [|by apply IH; eapply seen_next].
  destruct (EInfo e) as [[t n]|] eqn:E; [|by apply IH; eapply seen_next].
  destruct (Z.ltb_spec (now - t) (DoneRetention cfg)); [by apply IH; eapply seen_next|].
  pose proof (seen_old _ _ _ (DoneRetention cfg) _ _ _ _ Hs E ltac:(lia)) as Hold.
  split; [done|]. intros w. split; [exists e; split; [done|right; split; [done|by apply old_entry_later]]|].
  intros []; apply IH; rewrite <- app_assoc; by eapply seen_rest.
Qed.

Lemma listed_post (folder : string) (now : Z) (h : trace archive_sig) :
  Event (Σ := archive_sig) Now now ∈ h → post (listed folder) h (λ h' es, seen h' folder now es ∧ Event (Σ := archive_sig) Now now ∈ h').
Proof using Type.
  intros Hn r. cbn. assert (Hn' : Event (Σ := archive_sig) Now now ∈ (h ++ [Event (Σ := archive_sig) (ListDir folder) r])%list).
  { apply elem_of_app. by left. }
  split; [|done]. split; [done|]. destruct r as [es| |]; [right|by left..]. exists es.
  split; [|done]. apply elem_of_app. right. by apply list_elem_of_singleton.
Qed.

(** A cleanup pass removes only what is old: every removal it makes is,
    at that moment of the run, of an entry that it listed before in the
    temporary area (a file, or a folder ending in .finalize) or in the
    retention area (a folder), whose age by the clock it read is at least the
    configured limit; and it creates, writes and renames nothing. *)
Theorem cleanup_removes_only_old (h : trace archive_sig) : during (may_clean cfg) (runCleanupOnce cfg) h.
Proof using Type.
  unfold runCleanupOnce. split; [done|]. intros now. cbv zeta.
  assert (Hn : Event (Σ := archive_sig) Now now ∈ (h ++ [Event (Σ := archive_sig) Now now])%list).
  { apply elem_of_app. right. by apply list_elem_of_singleton. }
  revert Hn. generalize (h ++ [Event (Σ := archive_sig) Now now])%list. clear h. intros h Hn.
  apply during_bind; [done|]. apply during_bind.
  - apply during_bind; [by split|]. eapply post_mono; [|by apply listed_post]. intros h' es [Hs _]. by apply tmp_entries_during.
  - change (post (cleanupTmpArea cfg tmpRoot now (mkStats 0 0 0 0)) h (λ h' stats, during (may_clean cfg) (cleanupDoneArea cfg doneRoot now stats) h')).
    eapply post_mono; [|apply post_extends]. intros h' stats [l ->].
    apply during_bind; [by split|]. eapply post_mono; [|apply (listed_post _ now), elem_of_app; by left].
    intros h' es [Hs _]. by apply done_entries_during.
Qed.
End cleanup.

(** ** What is left *)

Section left_alone.
Context (root : string) (Hroot : absolute root).

(** What is in the temporary area and in the retention area. *)
Definition clean_region (k : path) : Prop :=
  (∃ x, below (tmp_area root ++ [x])%list k) ∨ (∃ x, below (archive_area root ++ [".done"; x])%list k).

Definition removes (o : aop) : Prop :=
  match o with ADisk.Remove _ | RemoveAll _ | Now | ListDir _ | Walk _ => True | _ => False end.

Lemma clean_region_ok : region clean_region (areas root).
Proof using Type.
  assert (Hshort : ∀ (f : path) l q, l ≠ [] → below q f → ¬ below (f ++ l)%list q).
  { intros f l q Hl H1 H2. apply prefix_length in H1. apply prefix_length in H2. rewrite length_app in H2. destruct l; [done|cbn in *; lia]. }
  assert (Hcross : ∀ (x y : string) (l : path) q, x ≠ y → below q (comps root ++ [x])%list → ¬ below (comps root ++ y :: l)%list q).
  { intros x y l q Hne H1 H2. assert (H : below (comps root ++ y :: l)%list (comps root ++ [x])%list) by by eapply below_trans.
    assert (H' : below (comps root ++ [y])%list (comps root ++ [x])%list).
    { eapply below_trans; [|exact H]. exists l. by rewrite <- app_assoc. }
    apply below_sibling in H'. by subst. }
  split.
  - intros p k [[x H]|[x H]] Hk; [left|right]; exists x; by eapply below_trans.
  - intros q Hq [[x H]|[x H]]; destruct Hq as [Hq|Hq].
    + by apply (Hshort _ _ q) in H.
    + unfold tmp_area in H. rewrite <- app_assoc in H. by apply (Hcross _ _ _ q) with (2 := Hq) in H.
    + unfold archive_area in H. rewrite <- app_assoc in H. by apply (Hcross _ _ _ q) with (2 := Hq) in H.
    + by apply (Hshort _ _ q) in H.
Qed.

(** Removing shrinks the disk. *)
Lemma removes_shrink {A : Type} (p : prog A) (d : disk) : calls (Σ := archive_sig) removes p → under dstep p d (λ s _, s ⊆ d).
Proof using Type.
  intros Hp. eapply (under_calls (Σ := archive_sig) dstep removes (λ s, s ⊆ d)); [|exact Hp|done].
  intros s o r s' Ho Hs Hsub. destruct o; try done; cbn in Hs.
  - destruct r as []; [destruct Hs as (_ & _ & ->)|by destruct Hs as [_ ->]|by subst]. etrans; [apply delete_subseteq|done].
  - destruct r as []; [subst; etrans; [apply map_filter_subseteq|done]|destruct Hs as [Hs _]; by etrans].
  - destruct Hs as [-> _]. done.
  - by subst.
  - by subst.
Qed.

Definition clears (o : aop) : Prop := within clean_region (areas root) o ∧ removes o.

Lemma tmp_entries_clear (cfg : CleanupConfig) (now : Z) (es : list DirEntry) : ∀ stats,
  Forall (λ e, plain_name (EName e) = true) es →
  calls (Σ := archive_sig) clears (cleanup_tmp_entries cfg (Join [root; ".tmp-archives"]) now stats es).
Proof using Hroot.
  induction es as [|e rest IH]; intros stats Hes; [done|]. apply Forall_cons in Hes as [He Hes]. cbn [cleanup_tmp_entries].
  destruct (EInfo e) as [[t n]|]; [|by apply IH].
  assert (Hin : clean_region (comps (Join [Join [root; ".tmp-archives"]; EName e]))).
  { left. exists (EName e). rewrite comps_Join; [|by apply Join_is_absolute; repeat constructor|by repeat constructor|done].
    rewrite comps_Join by by repeat constructor. auto with glovebox. }
  destruct (is_finalize (EName e) && EIsDir e).
  - destruct (_ <? _)%Z; [by apply IH|]. split; [done|]. intros w. split; [done|]. intros []; by apply IH.
  - destruct (negb _); [|by apply IH]. destruct (_ <? _)%Z; [by apply IH|]. split; [done|]. intros []; by apply IH.
Qed.

Lemma done_entries_clear (cfg : CleanupConfig) (now : Z) (es : list DirEntry) : ∀ stats,
  Forall (λ e, plain_name (EName e) = true) es →
  calls (Σ := archive_sig) clears (cleanup_done_entries cfg (Join [root; "archives"; ".done"]) now stats es).
Proof using Hroot.
  induction es as [|e rest IH]; intros stats Hes; [done|]. apply Forall_cons in Hes as [He Hes]. cbn [cleanup_done_entries].
  destruct (negb _); [by apply IH|]. destruct (EInfo e) as [[t n]|]; [|by apply IH].
  assert (Hin : clean_region (comps (Join [Join [root; "archives"; ".done"]; EName e]))).
  { right. exists (EName e). rewrite comps_Join; [|by apply Join_is_absolute; repeat constructor|by repeat constructor|done].
    rewrite comps_Join by by repeat constructor. rewrite <- app_assoc. unfold archive_area. rewrite <- app_assoc. apply below_refl. }
  destruct (_ <? _)%Z; [by apply IH|]. split; [done|]. intros w. split; [done|]. intros []; by apply IH.
Qed.

(** A pass leaves, at every moment, everything but its two areas as it was,
    and adds nothing. *)
Lemma cleanup_safely (cfg : CleanupConfig) (I : disk → Prop) (d : disk) :
  CStagingRoot cfg = root → folders (areas root) d → (∀ s, same_beyond clean_region d s → I s) →
  safely dstep I (runCleanupOnce cfg) d (λ s _, same_beyond clean_region d s ∧ s ⊆ d).
Proof using Hroot.
  intros Hr Hf HI. unfold runCleanupOnce. apply safely_bind, safely_call; [by apply HI|]. intros now s1 ->.
  split; [by apply HI|]. cbv zeta. rewrite Hr.
  assert (Harea : ∀ (folder : string) (k : list DirEntry → prog cleanupStats) s,
    same_beyond clean_region d s → s ⊆ d →
    (∀ es, Forall (λ e, plain_name (EName e) = true) es → calls (Σ := archive_sig) clears (k es)) →
    safely dstep I (bind (listed folder) k) s (λ s' _, same_beyond clean_region d s' ∧ s' ⊆ d)).
  { intros folder k s Hs Hsub Hk. apply safely_bind.
    assert (Hkk : ∀ es, Forall (λ e, plain_name (EName e) = true) es → safely dstep I (k es) s (λ s' _, same_beyond clean_region d s' ∧ s' ⊆ d)).
    { intros es Hes. specialize (Hk es Hes). eapply safely_mono.
      2: { apply safely_and; [apply (safely_region clean_region (areas root)); [apply clean_region_ok|by eapply beyond_folders; [apply clean_region_ok|..]| |]|apply removes_shrink].
           - intros s' Hs'. apply HI. by eapply same_beyond_trans.
           - eapply calls_weaken; [|exact Hk]. by intros o [].
           - eapply calls_weaken; [|exact Hk]. by intros o []. }
      intros s' ? [H1 H2]. split; [by eapply same_beyond_trans|by etrans]. }
    apply safely_bind, safely_call; [by apply HI|]. intros r s' [-> Hes]. split; [by apply HI|].
    apply safely_ret; [by apply HI|]. destruct r as [es| |]; [|by apply Hkk..]. apply Hkk.
    eapply Forall_impl; [exact Hes|]. by intros e []. }
  apply safely_bind. eapply safely_mono; [|apply Harea; [done|done|]].
  - intros s ? [Hs Hsub]. apply Harea; [done|done|]. intros es. apply done_entries_clear.
  - intros es. apply tmp_entries_clear.
Qed.
End left_alone.

(** ** A pass beside a request

    The goroutine of the cleanup runs while requests are served.  What it
    removes in between two calls of a request is some part of a set [K] of
    paths. *)
Definition swept (K : path → Prop) (d d' : disk) : Prop := d' ⊆ d ∧ same_beyond K d d'.

(** The call works on nothing in [K]. *)
Definition avoids (K : path → Prop) (o : aop) : Prop :=
  match o with
  | MkdirAll p | CreateExcl p | OpenAppend p | OpenRead p | Write p _ | Stat p | ReadFile p => ¬ K (comps p)
  | Rename p q => ∀ k, below (comps p) k ∨ below (comps q) k → ¬ K k
  | ADisk.Remove p => ∀ k, below (comps p) k → ¬ K k
  | _ => True
  end.

(** A call of a request, after the cleanup removed something that the
    request does not work on. *)
Definition amid (K : path → Prop) (d : disk) (o : aop) (r : aans o) (d' : disk) : Prop :=
  avoids K o ∧ ∃ d1, swept K d d1 ∧ dstep d1 o r d'.

Section amid.
Context (K : path → Prop) (HK : ∀ p k, K p → below p k → K k).

Lemma swept_refl (d : disk) : swept K d d.
Proof using Type. by split. Qed.

Lemma swept_trans (d1 d2 d3 : disk) : swept K d1 d2 → swept K d2 d3 → swept K d1 d3.
Proof using Type. intros [H1 H2] [H3 H4]. split; [by etrans|]. intros k Hk. by rewrite H4, H2. Qed.

Lemma above_avoids (p q : path) : ¬ K p → below q p → ¬ K q.
Proof using HK. intros Hp Hq H. apply Hp. by eapply HK. Qed.

Lemma removelast_below (p : path) : below (removelast p) p.
Proof using Type. destruct p as [|x p _] using rev_ind; [done|]. rewrite removelast_last. apply below_app. Qed.

(** *** What each call leaves, with and without what was swept *)

Section one_sweep.
Context (d e : disk) (Hsw : swept K d e).

Lemma swept_at (k : path) : ¬ K k → e !! k = d !! k.
Proof using Hsw. apply Hsw. Qed.

Lemma swept_folder (p : path) : ¬ K p → is_folder e (removelast p) → is_folder d (removelast p).
Proof using HK Hsw.
  intros Hp [E|E]; [by left|right]. rewrite <- swept_at; [done|]. eapply above_avoids; [exact Hp|apply removelast_below].
Qed.

Lemma swept_way (q : path) : ¬ K q → clear_way q e → clear_way q d.
Proof using HK Hsw.
  intros Hq Hc k Hk [x Hx]. apply (Hc k Hk). exists x. rewrite swept_at; [done|]. by eapply above_avoids.
Qed.

Lemma swept_mkdirs (q : path) : ¬ K q → swept K (mkdirs q d) (mkdirs q e).
Proof using HK Hsw.
  intros Hq. split.
  - apply map_subseteq_spec. intros k n. rewrite !mkdirs_lookup. destruct (e !! k) as [n'|] eqn:E.
    + by rewrite (lookup_weaken _ _ _ _ E (proj1 Hsw)).
    + destruct (decide _) as [[Hk Hne]|]; [|done]. intros [= <-].
      by rewrite <- swept_at, E by (by eapply above_avoids).
  - intros k Hk. rewrite !mkdirs_lookup. by rewrite swept_at.
Qed.

Lemma swept_insert (p : path) (n : node) : swept K (<[p := n]> d) (<[p := n]> e).
Proof using Hsw.
  split; [by apply insert_mono, Hsw|]. intros k Hk. rewrite !lookup_insert. case_decide; [done|by apply swept_at].
Qed.

Lemma swept_delete (p : path) : swept K (delete p d) (delete p e).
Proof using Hsw.
  split; [by apply delete_mono, Hsw|]. intros k Hk. rewrite !lookup_delete. case_decide; [done|by apply swept_at].
Qed.

Lemma swept_append (p : path) (x : bytes) : ¬ K p → swept K (append p x d) (append p x e).
Proof using Hsw.
  intros Hp. split.
  - apply map_subseteq_spec. intros k n. rewrite !append_lookup. destruct (decide (k = p)) as [->|].
    + by rewrite swept_at.
    + intros E. eapply lookup_weaken; [exact E|apply Hsw].
  - intros k Hk. rewrite !append_lookup. destruct (decide (k = p)) as [->|]; by rewrite swept_at.
Qed.

Lemma swept_move (p q : path) :
  ¬ below p q → ¬ below q p → (∀ k, below p k → ¬ K k) → swept K (move p q d) (move p q e).
Proof using Hsw.
  intros Hpq Hqp Hp. split.
  - apply map_subseteq_spec. intros k n. rewrite !move_lookup by done. destruct (decide (below q k)).
    + by rewrite swept_at by apply Hp, below_app.
    + destruct (decide _); [done|]. intros E. eapply lookup_weaken; [exact E|apply Hsw].
  - intros k Hk. rewrite !move_lookup by done. destruct (decide (below q k)); [by rewrite swept_at by apply Hp, below_app|].
    destruct (decide _); [done|by apply swept_at].
Qed.

Lemma swept_removed (p : path) : swept K (removed p d) (removed p e).
Proof using Hsw.
  split.
  - apply map_subseteq_spec. intros k n. rewrite !removed_lookup. destruct (decide _); [done|]. intros E.
    eapply lookup_weaken; [exact E|apply Hsw].
  - intros k Hk. rewrite !removed_lookup. destruct (decide _); [done|by apply swept_at].
Qed.

(** A removal that fails halfway. *)
Lemma swept_half (p : path) (e' : disk) :
  e' ⊆ e → (∀ k, ¬ below p k → e' !! k = e !! k) →
  ∃ d', (d' ⊆ d ∧ ∀ k, ¬ below p k → d' !! k = d !! k) ∧ swept K d' e'.
Proof using Hsw.
  intros H1 H2. exists (filter (λ kv : path * node, below p kv.1) e' ∪ removed p d).
  assert (Hd' : ∀ k, (filter (λ kv : path * node, below p kv.1) e' ∪ removed p d) !! k = if decide (below p k) then e' !! k else d !! k).
  { intros k. rewrite lookup_union, removed_lookup, map_lookup_filter. destruct (decide (below p k)).
    - destruct (e' !! k) as [nd|]; cbn; [by rewrite option_guard_True|done].
    - destruct (e' !! k) as [nd|]; cbn; [rewrite option_guard_False by done|]; by destruct (d !! k). }
  split; [split|split].
  - apply map_subseteq_spec. intros k n. rewrite Hd'. destruct (decide _); [|done]. intros E.
    eapply lookup_weaken; [|apply Hsw]. by eapply lookup_weaken.
  - intros k Hk. rewrite Hd'. by rewrite decide_False.
  - apply map_subseteq_spec. intros k n. rewrite Hd'. destruct (decide _); [done|]. rewrite H2 by done. intros E.
    eapply lookup_weaken; [exact E|apply Hsw].
  - intros k Hk. rewrite Hd'. destruct (decide _); [done|]. rewrite H2 by done. by apply swept_at.
Qed.
End one_sweep.

(** The call could as well have been made before. *)
Lemma dstep_before (d e : disk) (o : aop) (r : aans o) (e' : disk) :
  swept K d e → avoids K o → dstep e o r e' → ∃ d', dstep d o r d' ∧ swept K d' e'.
Proof using HK.
  intros Hsw Hav Hstep. pose proof (swept_at d e Hsw) as Hsame.
  destruct o as [p|p m|p|p|p|p x|p|p|p q|p|p|p|p|p|p| | | |id|p]; cbn [avoids dstep aans] in *.
  all: try by (subst; exists d).
  - destruct r.
    + destruct Hstep as [Hc ->]. exists (mkdirs (comps p) d). split; [split; [by apply (swept_way d e)|done]|by apply swept_mkdirs].
    + destruct Hstep as (q & Hq & Hc & ->). assert (Hkq : ¬ K q) by by eapply above_avoids.
      exists (mkdirs q d). split; [exists q; split_and!; [done|by apply (swept_way d e)|done]|by apply swept_mkdirs].
  - destruct r; [|subst; by exists d]. destruct Hstep as (H1 & H2 & H3 & ->). exists (<[comps p := File []]> d).
    split; [|by apply swept_insert]. rewrite <- Hsame by done. split_and!; [done|done|by apply (swept_folder d e)|done].
  - destruct Hstep as [H ->]. exists d. split; [|done]. split; [|done]. intros Hr. destruct (H Hr) as [x Hx]. exists x. by rewrite <- Hsame.
  - destruct Hstep as [H ->]. exists d. split; [|done]. split; [|done]. intros Hr. destruct (H Hr) as [x Hx]. exists x. by rewrite <- Hsame.
  - destruct Hstep as [H ->]. exists (append (comps p) (take r x) d). split; [done|by apply swept_append].
  - destruct r; [|subst; by exists d]. destruct Hstep as [(M1 & M2 & M3 & M4 & M5) ->].
    exists (move (comps p) (comps q) d). split; [split; [|done]|apply swept_move; [done..|intros k Hk; apply Hav; by left]].
    split_and!; [done|done| | |].
    + apply (swept_folder d e Hsw); [apply Hav; right; apply below_refl|done].
    + intros k Hk Hne. rewrite <- Hsame by (apply Hav; by right). by apply M4.
    + rewrite <- (Hsame (comps p)), <- (Hsame (comps q)) by (apply Hav; first [left; apply below_refl|right; apply below_refl]). done.
  - destruct r; [|destruct Hstep as [H ->]|subst; by exists d].
    + destruct Hstep as (H1 & H2 & ->). exists (delete (comps p) d). split; [|by apply swept_delete].
      rewrite <- Hsame by (apply Hav, below_refl). split_and!; [done| |done]. intros k Hk Hne. rewrite <- Hsame by by apply Hav. by apply H2.
    + exists d. split; [|done]. split; [|done]. rewrite <- Hsame; [done|]. apply Hav, below_refl.
  - destruct r.
    + subst. exists (removed (comps p) d). split; [done|by apply swept_removed].
    + destruct Hstep as [H1 H2]. by apply (swept_half d e).
  - destruct Hstep as [-> H]. exists d. split; [|done]. split; [done|]. destruct r as [[[] n]| |]; [| | |done].
    + destruct H as [E|E]; [by left|right]. by rewrite <- Hsame.
    + by rewrite <- Hsame.
    + by rewrite <- Hsame.
  - destruct Hstep as [-> H]. exists d. split; [|done]. split; [done|]. destruct r; [| |done]; by rewrite <- Hsame.
  - destruct Hstep as [-> H]. exists d. split; [|done]. split; [done|]. destruct r as [es| |]; [|done..].
    eapply Forall_impl; [exact H|]. cbn. intros x [Hx [n Hn]]. split; [done|]. exists n. eapply lookup_weaken; [exact Hn|apply Hsw].
  - destruct Hstep as [-> H]. by exists d.
Qed.

(** A request with a pass beside it does what it does alone, and then the
    pass removes what it removes. *)
Lemma exec_amid {A : Type} (p : prog A) (d e e' : disk) (a : A) :
  swept K d e → exec (Σ := archive_sig) (amid K) p e e' a → ∃ d', exec (Σ := archive_sig) dstep p d d' a ∧ swept K d' e'.
Proof using HK.
  intros Hsw He. revert d Hsw. induction He as [a s|o k r s s1 s' a Hs He IH]; intros d Hsw.
  { exists d. split; [constructor|done]. }
  destruct Hs as (Hav & s2 & Hs2 & Hs). destruct (dstep_before d s2 o r s1) as (d1 & Hd1 & Hsw1); [by eapply swept_trans|done|done|].
  destruct (IH d1 Hsw1) as (d' & Hd' & Hsw'). exists d'. split; [by econstructor|done].
Qed.

Lemma passes_amid {A : Type} (p : prog A) (d e e' : disk) :
  swept K d e → passes (Σ := archive_sig) (amid K) p e e' → ∃ d', passes (Σ := archive_sig) dstep p d d' ∧ swept K d' e'.
Proof using HK.
  intros Hsw Hp. revert d Hsw. induction Hp as [p s|o k r s s1 s' Hs Hp IH]; intros d Hsw.
  { exists d. split; [constructor|done]. }
  destruct Hs as (Hav & s2 & Hs2 & Hs). destruct (dstep_before d s2 o r s1) as (d1 & Hd1 & Hsw1); [by eapply swept_trans|done|done|].
  destruct (IH d1 Hsw1) as (d' & Hd' & Hsw'). exists d'. split; [by econstructor|done].
Qed.
End amid.

(** A set of paths in the areas of the cleanup, with all below them. *)
Record sweeps (root : string) (K : path → Prop) : Prop := {
  sw_closed : ∀ p k, K p → below p k → K k;
  sw_areas : ∀ k, K k → clean_region root k;
}.

(** Alone: the cleanup removes nothing. *)
Lemma amid_nothing {A : Type} (p : prog A) (d d' : disk) (a : A) :
  exec (Σ := archive_sig) dstep p d d' a → exec (Σ := archive_sig) (amid (λ _, False)) p d d' a.
Proof.
  induction 1 as [a s|o k r s s1 s' a Hs He IH]; [constructor|]. econstructor; [|exact IH]. split.
  - by destruct o; cbn; try intros ? _; try intros [].
  - exists s. split; [|done]. by split.
Qed.
Lemma sweeps_nothing root : sweeps root (λ _, False).
Proof. by split. Qed.

(** ** The storage cap *)

(** The flag after a row of measurements. *)
Definition blocked_after (cfg : QuotaConfig) (blocking : bool) (ps : list spec_float) : bool := foldl (hysteresis cfg) blocking ps.

(** New uploads are refused after a row of measurements exactly when some
    measurement reached the upper threshold and none since has come down to
    the lower one, the two being in order: a usage between the thresholds
    changes nothing. *)
Theorem cap_trips_and_lifts (cfg : QuotaConfig) (ps : list spec_float) :
  fle (HardTripPct cfg) (HardLiftPct cfg) = false →
  blocked_after cfg (ShouldBlock NewQuotaState) ps = true ↔
  ∃ before p since, ps = (before ++ p :: since)%list ∧ fge p (HardTripPct cfg) = true ∧
    Forall (λ q, fle q (HardLiftPct cfg) = false) since.
Proof.
  intros Horder. change (ShouldBlock NewQuotaState) with false. unfold blocked_after.
  induction ps as [|q ps IH] using rev_ind.
  { split; [done|]. intros (before & p & since & E & _). by destruct before. }
  rewrite foldl_app. cbn [foldl]. unfold hysteresis at 1.
  destruct (fge q (HardTripPct cfg)) eqn:Htrip.
  - assert (Hl : fle q (HardLiftPct cfg) = false).
    { apply not_true_is_false. intros Hl. pose proof (fle_transitive _ _ _ Htrip Hl). congruence. }
    rewrite Hl, andb_false_r, andb_true_r. destruct (foldl _ _ _); cbn [negb]; (split; [|done]); intros _; by exists ps, q, [].
  - rewrite andb_false_r. destruct (fle q (HardLiftPct cfg)) eqn:Hlift.
    + rewrite andb_true_r. split; [by destruct (foldl _ _ _)|]. intros (before & p & since & E & Hp & Hs).
      destruct since as [|x since _] using rev_ind.
      * apply app_inj_tail in E as [_ <-]. congruence.
      * rewrite app_comm_cons, app_assoc in E. apply app_inj_tail in E as [_ <-]. apply Forall_app in Hs as [_ [Hx _]%Forall_cons]. congruence.
    + rewrite andb_false_r. rewrite IH. split.
      * intros (before & p & since & -> & Hp & Hs). exists before, p, (since ++ [q])%list. split_and!; [by rewrite <- app_assoc|done|].
        apply Forall_app. by repeat constructor.
      * intros (before & p & since & E & Hp & Hs). destruct since as [|x since _] using rev_ind.
        -- apply app_inj_tail in E as [_ <-]. congruence.
        -- rewrite app_comm_cons, app_assoc in E. apply app_inj_tail in E as [-> _]. exists before, p, since. apply Forall_app in Hs as [Hs _]. done.
Qed.
