(* ===== verification/AListener.v ===== *)
(** internal/ingest/archives/listener.go: the start of the archive service.

    The token load of the start and the routes of the fallback are here; the
    goroutines that the start leaves behind are the steps of AListener.v. *)
From S2P Require Import Prelude GoStrings GoFloat GoPath DSubject Effects ADisk AStore AFinalize AHandler AUpkeep Utf8 EDecode AMeta ATar ATarFacts AFinalizeFacts AUploads.
Local Open Scope string_scope.
Local Open Scope prog_scope.

Record ArchiveListenerConfig := mkListenerConfig {
  LStagingRoot : string;
  PVCCapacityBytes : Z;
  LTusMaxSize : Z;
  LStore : StoreConfig;
  LSources : option SourceRegistry;
  LExtractScanner : option ExtractScanner;
}.

Definition defaultTmpExpiry : Z := (72 * hour)%Z.

(** NewHandler *)
Definition NewHandler (cfg : HandlerConfig) : HandlerConfig :=
  mkHandlerConfig (HStagingRoot cfg) (TusMaxSize cfg)
    (if (TmpExpiry cfg =? 0)%Z then defaultTmpExpiry else TmpExpiry cfg) (HSources cfg) (HScanner cfg).

(** verifySameFilesystem, when it finds no fault. *)
Definition verifySameFilesystem (stagingRoot : string) : prog bool :=
  let archivesPath := Join [stagingRoot; "archives"] in
  let tmpPath := Join [stagingRoot; ".tmp-archives"] in
  let! made := do_ (MkdirAll archivesPath) in
  if negb made then Ret false
  else
    let! made := do_ (MkdirAll tmpPath) in
    if negb made then Ret false
    else
      let! archDev := do_ (StatDev archivesPath) in
      match (archDev : option Z) with
      | None => Ret false
      | Some archDev =>
          let! tmpDev := do_ (StatDev tmpPath) in
          match (tmpDev : option Z) with
          | None => Ret false
          | Some tmpDev => Ret (archDev =? tmpDev)%Z
          end
      end.

(** The configurations that the start hands out. *)
Definition handler_config (cfg : ArchiveListenerConfig) : HandlerConfig :=
  NewHandler (mkHandlerConfig (LStagingRoot cfg) (LTusMaxSize cfg) 0 (LSources cfg) (LExtractScanner cfg)).
Definition cleanup_config (cfg : ArchiveListenerConfig) : CleanupConfig :=
  cleanup_defaults (mkCleanupConfig (LStagingRoot cfg) (72 * hour) hour (7 * 24 * hour)).
Definition quota_config (cfg : ArchiveListenerConfig) : QuotaConfig :=
  quota_defaults (mkQuotaConfig (LStagingRoot cfg) (PVCCapacityBytes cfg) (float64 95) (float64 85)).

(** StartArchiveListener: the state of the service, or the fallback.  The
    token store's first load is asked for its success. *)
Definition StartArchiveListener (cfg : ArchiveListenerConfig) (tokensLoaded : bool) : prog (option (Store * QuotaState)) :=
  let! same := verifySameFilesystem (LStagingRoot cfg) in
  if negb same then Ret None
  else if negb tokensLoaded then Ret None
  else Ret (Some (NewStore (LStore cfg), NewQuotaState)).

(** serveArchive503 *)
Definition serveArchive503 : Response := error_with 503 "archive listener unavailable" [("Retry-After", "60")].

(** * The archive service over time: it starts, serves requests one after the
    other, cleans up, measures, and may be killed at any moment of any of
    these.  The disk is that of ADisk.v: every call may fail.

    The cleanup is a goroutine of its own.  Besides whole passes between
    requests, it may remove anything in its areas between two requests, and
    beside a request, between any two of its calls, anything there that the
    request does not work on ([amid], [sweeps]).  A removal of what the
    request does work on is left out; what comes of that is
    [cleanup_during_extraction_loses_entries] (AExample.v). *)

Inductive phase :=
| Down
| Fallback
| Running (s : Store) (q : QuotaState).

Inductive action :=
| AStart (up : bool)
| AServe (r : Request) (resp : Response)
| AClean
| AMeasure
| AKill (during : option Request).

Section service.
Context {lib : ArchiveLib} (Quote : string → string) (UnmarshalDeliveredBy : bytes → option string).
Context (cfg : ArchiveListenerConfig).

Abbreviation root := (LStagingRoot cfg).
Abbreviation serving := (serve Quote (handler_config cfg)).

Definition started (up : option (Store * QuotaState)) : phase :=
  match up with Some (s, q) => Running s q | None => Fallback end.

(** What a phase may be doing. *)
Inductive doing : phase → option Request → ∀ A, prog A → Prop :=
| Starts loaded : doing Down None _ (StartArchiveListener cfg loaded)
| Serves s q r p : serving (ShouldBlock q) s r = Some p → doing (Running s q) (Some r) _ p
| Cleans s q : doing (Running s q) None _ (runCleanupOnce (cleanup_config cfg))
| Measures s q : doing (Running s q) None _ (measureOnce UnmarshalDeliveredBy (quota_config cfg) q).

Inductive sstep : phase * disk → action → phase * disk → Prop :=
| SStart loaded d d' up :
    exec dstep (StartArchiveListener cfg loaded) d d' up →
    sstep (Down, d) (AStart (bool_decide (is_Some up))) (started up, d')
| SServe K s q r p d d' s' resp :
    serving (ShouldBlock q) s r = Some p → sweeps root K → exec (amid K) p d d' (s', resp) →
    sstep (Running s q, d) (AServe r resp) (Running s' q, d')
| SRefuse r d : sstep (Fallback, d) (AServe r serveArchive503) (Fallback, d)
| SClean s q d d' stats :
    exec dstep (runCleanupOnce (cleanup_config cfg)) d d' stats → sstep (Running s q, d) AClean (Running s q, d')
| SSweep s q d d' : swept (clean_region root) d d' → sstep (Running s q, d) AClean (Running s q, d')
| SMeasure s q d d' q' :
    exec dstep (measureOnce UnmarshalDeliveredBy (quota_config cfg) q) d d' q' →
    sstep (Running s q, d) AMeasure (Running s q', d')
| SKill K ph d r A (p : prog A) d' :
    doing ph r A p → sweeps root K → passes (amid K) p d d' → sstep (ph, d) (AKill r) (Down, d')
| SKillIdle ph d : sstep (ph, d) (AKill None) (Down, d).

(** The runs of the service, from a disk. *)
Inductive history (d0 : disk) : phase * disk → list action → Prop :=
| HStart : history d0 (Down, d0) []
| HStep x acts a y : history d0 x acts → sstep x a y → history d0 y (acts ++ [a])%list.

(** A request with no cleanup beside it. *)
Lemma serve_alone s q r p d d' s' resp :
  serving (ShouldBlock q) s r = Some p → exec dstep p d d' (s', resp) → sstep (Running s q, d) (AServe r resp) (Running s' q, d').
Proof using Type. intros Hr He. eapply SServe; [exact Hr|apply sweeps_nothing|by apply amid_nothing]. Qed.

(** The sources that sent a request. *)
Definition request_of (a : action) : option Request :=
  match a with AServe r _ => Some r | AKill r => r | _ => None end.
Definition asked (acts : list action) (src : string) : Prop :=
  ∃ a r, a ∈ acts ∧ request_of a = Some r ∧ DeliveredBy r = Some src.

Definition sound (known : string → Prop) (x : phase * disk) : Prop :=
  match x.1 with
  | Running s _ => service_ok root known s x.2 ∧ scfg s = LStore cfg
  | _ => archives_sound root known x.2
  end.

Context (Hroot : absolute root) (Hmax : (0 < LTusMaxSize cfg < 2 ^ 62)%Z).

Section known.
Context (known : string → Prop).

Lemma sound_archives (x : phase * disk) : sound known x → archives_sound root known x.2.
Proof using Type. unfold sound. destruct x as [[| |s q] d]; [done|done|]. intros [H _]. apply H. Qed.

(** *** Starting *)

Lemma archive_not_short (aid : string) (l q : path) (x : string) :
  below q (comps root ++ [x])%list → ¬ below (final_at root aid ++ l)%list q.
Proof using Type.
  intros H1%prefix_length H2%prefix_length. unfold final_at, archive_area in H2. rewrite !length_app in H2. rewrite length_app in H1. cbn in *. lia.
Qed.

Lemma mkdirs_sound (x : string) (q : path) (d : disk) :
  below q (comps root ++ [x])%list → archives_sound root known d → archives_sound root known (mkdirs q d).
Proof using Type.
  intros Hq. apply sound_frame. intros aid l _. rewrite mkdirs_lookup. destruct (d !! _); [done|].
  rewrite decide_False; [done|]. intros [Hb _]. by eapply archive_not_short in Hb.
Qed.

Lemma made_sound (x : string) (d : disk) :
  plain_name x = true → archives_sound root known d →
  safely dstep (archives_sound root known) (do_ (MkdirAll (Join [root; x]))) d (λ d' ok,
    archives_sound root known d' ∧ d ⊆ d' ∧ (ok = true → folders (λ q, below q (comps root ++ [x])%list) d')).
Proof using Hroot.
  intros Hx Hd. apply safely_call; [done|]. intros ok d' Hs. cbn in Hs. rewrite comps_Join in Hs by by repeat constructor.
  destruct ok.
  - destruct Hs as [Hc ->]. pose proof (mkdirs_sound x _ d (below_refl _) Hd) as Hs. split; [done|].
    split_and!; [done|apply mkdirs_grows|]. intros _ q Hq. destruct (decide (q = [])) as [->|Hne]; [by left|right].
    rewrite mkdirs_lookup. destruct (d !! q) as [[|y]|] eqn:E; [done| |by rewrite decide_True].
    exfalso. apply (Hc q Hq). by exists y.
  - destruct Hs as (q & Hq & _ & ->). pose proof (mkdirs_sound x _ d Hq Hd). split; [done|].
    split_and!; [done|apply mkdirs_grows|done].
Qed.

Lemma folders_grow (base : path → Prop) (d d' : disk) : d ⊆ d' → folders base d → folders base d'.
Proof using Type. intros Hs Hf q Hq. eapply is_folder_grows; [exact Hs|by apply Hf]. Qed.

Lemma start_safely (loaded : bool) (d : disk) :
  archives_sound root known d →
  safely dstep (archives_sound root known) (StartArchiveListener cfg loaded) d (λ d' up, sound known (started up, d')).
Proof using Hroot.
  intros Hd. apply safely_bind.
  assert (Hv : safely dstep (archives_sound root known) (verifySameFilesystem root) d (λ d' ok, archives_sound root known d' ∧ (ok = true → folders (areas root) d'))).
  { unfold verifySameFilesystem. cbv zeta. apply safely_bind. eapply safely_mono; [|by apply made_sound].
    intros d1 ok (H1 & _ & F1). destruct ok; cbn [negb]; [|by apply safely_ret]. specialize (F1 eq_refl).
    apply safely_bind. eapply safely_mono; [|by apply made_sound].
    intros d2 ok (H2 & Hsub & F2). destruct ok; cbn [negb]; [|by apply safely_ret]. specialize (F2 eq_refl).
    assert (Hf : folders (areas root) d2).
    { intros q [Hq|Hq]; [by apply F2|]. by eapply (folders_grow _ d1). }
    apply safely_bind, safely_call; [done|]. intros dev d3 ->. split; [done|]. destruct dev; [|by apply safely_ret].
    apply safely_bind, safely_call; [done|]. intros dev2 d4 ->. split; [done|]. destruct dev2; by apply safely_ret. }
  eapply safely_mono; [|exact Hv]. intros d' ok [Hd' Hok]. destruct ok; cbn [negb]; [|by apply safely_ret].
  destruct loaded; cbn [negb]; [|by apply safely_ret]. apply safely_ret; [done|]. split; [|done].
  split; [apply new_store_ok|split; [by apply Hok|done]|]. intros id st E. cbn in E. by rewrite lookup_empty in E.
Qed.

(** *** Cleaning up and measuring *)

(** No archive is in the areas of the cleanup. *)
Lemma archive_not_cleaned (aid : string) (l : path) : aid ≠ ".done" → ¬ clean_region root (final_at root aid ++ l)%list.
Proof using Type.
  intros Ha [[x Hb]|[x Hb]].
  - assert (Hb2 : below (tmp_area root) (final_at root aid ++ l)%list).
    { eapply below_trans; [apply below_app|exact Hb]. }
    unfold tmp_area, final_at, archive_area in Hb2. rewrite <- !app_assoc in Hb2. by apply below_sibling in Hb2.
  - assert (Hb2 : below (archive_area root ++ [".done"])%list (archive_area root ++ aid :: l)%list).
    { eapply below_trans; [|unfold final_at in Hb; rewrite <- app_assoc in Hb; exact Hb]. exists [x]. by rewrite <- app_assoc. }
    apply below_sibling in Hb2. by subst.
Qed.

Lemma clean_archives (d d' : disk) :
  same_beyond (clean_region root) d d' → archives_sound root known d → archives_sound root known d'.
Proof using Type. intros Hd. apply sound_frame. intros aid l Ha. by apply Hd, archive_not_cleaned. Qed.

Lemma clean_sound (d d' : disk) : disk_ok root known d → same_beyond (clean_region root) d d' → disk_ok root known d'.
Proof using Type.
  intros [Hf Hs] Hd. split; [by eapply beyond_folders; [apply clean_region_ok|..]|by eapply clean_archives].
Qed.

Lemma swept_same (K : path → Prop) (d d' : disk) : sweeps root K → swept K d d' → same_beyond (clean_region root) d d' ∧ d' ⊆ d.
Proof using Type. intros HK [H1 H2]. split; [|done]. intros k Hk. apply H2. intros Hin. apply Hk. by eapply sw_areas. Qed.

Lemma swept_archives (K : path → Prop) (d d' : disk) :
  sweeps root K → swept K d d' → archives_sound root known d → archives_sound root known d'.
Proof using Type. intros HK [Hd _]%(swept_same K); [|done]. by apply clean_archives. Qed.

(** What the cleanup removes leaves the service as it should be. *)
Lemma removed_service (s : Store) (d d' : disk) :
  service_ok root known s d → same_beyond (clean_region root) d d' → d' ⊆ d → service_ok root known s d'.
Proof using Type.
  intros Hs Hd Hsub. split; [apply Hs|by eapply clean_sound; [apply Hs|]|]. intros id st E.
  eapply upload_frame; [|by apply (sv_uploads _ _ _ _ Hs id)].
  destruct (d' !! tmp_at root (ID st)) as [n|] eqn:En; [left|by right]. symmetry. by eapply lookup_weaken.
Qed.

Lemma swept_service (K : path → Prop) (s : Store) (d d' : disk) :
  sweeps root K → swept K d d' → service_ok root known s d → service_ok root known s d'.
Proof using Type. intros HK Hsw Hs. destruct (swept_same K d d' HK Hsw) as [Hd Hsub]. by eapply removed_service. Qed.

Lemma clean_safely (s : Store) (d : disk) :
  service_ok root known s d →
  safely dstep (disk_ok root known) (runCleanupOnce (cleanup_config cfg)) d (λ d' _, service_ok root known s d').
Proof using Hroot.
  intros Hs. eapply safely_mono; [|apply (cleanup_safely root Hroot); [done|apply Hs|]].
  2: { intros s'. apply clean_sound, Hs. }
  intros d' ? [Hd' Hsub]. by eapply removed_service.
Qed.

Lemma measure_looks (q : QuotaState) : calls looks (measureOnce UnmarshalDeliveredBy (quota_config cfg) q).
Proof using Type.
  assert (Hps : ∀ a es out, calls looks (per_source UnmarshalDeliveredBy a out es)).
  { intros a es. induction es as [|e es IH]; intros out; [done|]. cbn [per_source]. destruct (_ || _); [apply IH|].
    split; [done|]. intros [data| |]; [|apply IH..]. cbn. destruct (UnmarshalDeliveredBy data); [|apply IH].
    split; [done|]. intros w. apply IH. }
  apply calls_bind; [by split|]. intros w1. apply calls_bind; [by split|]. intros w2. apply calls_bind; [|done]. split; [done|]. intros r. apply Hps.
Qed.

Lemma doing_sound (ph : phase) (during : option Request) (A : Type) (p : prog A) (d d' : disk) :
  sound known (ph, d) → (∀ r src, during = Some r → DeliveredBy r = Some src → known src) → doing ph during A p → passes dstep p d d' → archives_sound root known d'.
Proof using Hroot Hmax.
  intros Hs Hk Hdo Hp. destruct Hdo as [loaded|s q r p Hr|s q|s q].
  - eapply always_passes; [|exact Hp]. by apply start_safely.
  - destruct Hs as [Hs _]. pose proof (serve_handled Quote (handler_config cfg) (ShouldBlock q) known Hroot Hmax s r p d Hs (λ src, Hk r src eq_refl) Hr) as [Ha _].
    apply (always_passes _ _ _ _ _ Ha) in Hp. apply Hp.
  - destruct Hs as [Hs _]. destruct (clean_safely s d Hs) as [Ha _]. apply (always_passes _ _ _ _ _ Ha) in Hp. apply Hp.
  - destruct (safely_looks (λ s', s' = d) _ d eq_refl (measure_looks q)) as [Ha _].
    apply (always_passes _ _ _ _ _ Ha) in Hp. subst. by apply sound_archives in Hs.
Qed.

Lemma step_sound (x y : phase * disk) (a : action) :
  sound known x → (∀ r src, request_of a = Some r → DeliveredBy r = Some src → known src) → sstep x a y → sound known y.
Proof using Hroot Hmax.
  intros Hs Hk Hstep.
  destruct Hstep as [loaded d d' up He|K s q r p d d' s' resp Hr HK He|r d|s q d d' stats He|s q d d' Hsw|s q d d' q' He|K ph d r A p d' Hdo HK Hp|ph d].
  - destruct (start_safely loaded d Hs) as [_ Hu]. by eapply under_exec in Hu.
  - destruct Hs as [Hs Hc]. pose proof (serve_handled Quote (handler_config cfg) (ShouldBlock q) known Hroot Hmax s r p d Hs (λ src, Hk r src eq_refl) Hr) as [_ Hu].
    destruct (exec_amid K (sw_closed _ _ HK) p d d d' _ (swept_refl K d) He) as (d1 & He1 & Hsw).
    eapply under_exec in Hu; [|exact He1]. destruct Hu as [H1 H2]. cbn [fst] in *.
    split; [by eapply (swept_service K)|]. cbn in *. by rewrite H2.
  - done.
  - destruct Hs as [Hs Hc]. destruct (clean_safely s d Hs) as [_ Hu]. split; [|done]. by eapply under_exec in Hu.
  - destruct Hs as [Hs Hc]. split; [|done]. eapply (swept_service (clean_region root)); [|exact Hsw|exact Hs].
    split; [by apply clean_region_ok|done].
  - destruct (safely_looks (λ s', s' = d) _ d eq_refl (measure_looks q)) as [_ Hu]. eapply under_exec in Hu; [|exact He]. cbn in Hu. by subst.
  - destruct (passes_amid K (sw_closed _ _ HK) p d d d' (swept_refl K d) Hp) as (d1 & Hp1 & Hsw).
    change (archives_sound root known d'). eapply (swept_archives K); [exact HK|exact Hsw|]. by eapply doing_sound.
  - exact (sound_archives _ Hs).
Qed.

End known.

Lemma sound_mono (known known' : string → Prop) (x : phase * disk) :
  (∀ src, known src → known' src) → sound known x → sound known' x.
Proof using Type.
  intros Hk. unfold sound. destruct x.1; [by apply sound_known|by apply sound_known|]. intros [H1 H2].
  split; [by eapply service_known|done].
Qed.

Lemma history_sound (known0 : string → Prop) (d0 : disk) (x : phase * disk) (acts : list action) :
  archives_sound root known0 d0 → history d0 x acts → sound (λ src, known0 src ∨ asked acts src) x.
Proof using Hroot Hmax.
  intros Hd Hh. induction Hh as [|x acts a y Hh IH Hstep]; [by eapply sound_known; [|exact Hd]; left|].
  eapply step_sound; [|intros r src Hr Hsrc|exact Hstep].
  - eapply sound_mono; [|exact IH]. intros src [H|(a' & r & Ha & Hr)]; [by left|right]. exists a', r.
    split; [apply elem_of_app; by left|done].
  - right. exists a, r. split; [apply elem_of_app; right; by apply list_elem_of_singleton|done].
Qed.

(** What is published is what was uploaded.  However the service was
    run (any requests, failures of any disk call, cleanups between the
    requests and beside them, as long as they remove nothing that the
    request in progress works on, and kills and restarts at any moment) from
    a disk without archives, every archive on
    the disk, in a folder other than the retention folder, holds the receipt of an upload whose
    SHA-256 digest is that of the content, the content is there, whole (the
    file of the declared size, or every entry of the tar archive), and the
    source that delivered it is one that sent a request, authenticated under
    that name. *)
Theorem published_archives_are_verified (d0 : disk) (x : phase * disk) (acts : list action) (aid : string) :
  (∀ k, below (archive_area root) k → k ≠ archive_area root → d0 !! k = None) →
  history d0 x acts → aid ≠ ".done" → is_Some (x.2 !! final_at root aid) → verified_archive root (asked acts) aid x.2.
Proof using Hroot Hmax.
  intros Hempty Hh Ha Hthere. assert (Hd0 : archives_sound root (λ _, False) d0).
  { intros aid' _ [n Hn]. rewrite Hempty in Hn; [done|apply below_app|]. intros E%(f_equal length). unfold final_at in E.
    rewrite length_app in E. cbn in E. lia. }
  pose proof (sound_archives _ x (history_sound _ d0 x acts Hd0 Hh)) as Hs.
  eapply verified_known; [|by apply Hs]. by intros src [[]|H].
Qed.

(** C31. While the service runs, the caps on concurrent uploads hold and the
    counters behind them are exact: at most GlobalMaxConcurrent uploads are
    in the table, at most PerSourceMaxConcurrent of them belong to one
    source, and the counter of a source is the number of its uploads. *)
Theorem concurrency_caps_hold (known : string → Prop) (d0 : disk) (s : Store) (q : QuotaState) (d : disk) (acts : list action) (src : string) :
  archives_sound root known d0 → history d0 (Running s q, d) acts →
  (Z.of_nat (size (uploads s)) ≤ Z.max 0 (GlobalMaxConcurrent (LStore cfg)))%Z ∧
  (Z.of_nat (size (of_source src s)) ≤ Z.max 0 (PerSourceMaxConcurrent (LStore cfg)))%Z ∧
  in_flight s src = Z.of_nat (size (of_source src s)).
Proof using Hroot Hmax.
  intros Hd0 Hh. destruct (history_sound _ _ _ _ Hd0 Hh) as [[[H1 H2 H3 H4 H5] _ _] Hc]. rewrite <- Hc.
  split_and!; [done|rewrite <- H2; apply H5|apply H2].
Qed.
End service.
