(* ===== verification/AProtocol.v ===== *)
(** What the archive handlers (AHandler.v) promise a client: an upload can be
    resumed, nobody else's upload or archive shows, and what happens when the
    temporary file of an upload is lost. *)
From S2P Require Import Prelude GoStrings GoFloat GoPath Utf8 EDecode DSubject Effects ADisk AMeta ATar ATarFacts AStore AFinalize AHandler AFinalizeFacts AUploads.
Local Open Scope string_scope.

Section protocol.
Context {lib : ArchiveLib} (Quote : string → string) (cfg : HandlerConfig) (blocked : bool).
Abbreviation root := (HStagingRoot cfg).

(** ** Other sources *)

(** The requests about one upload. *)
Definition about_upload (r : Request) (id : string) : Prop :=
  has_prefix (archivesBasePath ++ "/") (URLPath r) = true ∧ extractUploadID (URLPath r) = id ∧
  Method r ∈ ["HEAD"; "PATCH"; "DELETE"].

Lemma with_upload_other (s : Store) (r : Request) (src : string) (k : string → UploadState → prog handler_result) :
  DeliveredBy r = Some src →
  (∀ st, uploads s !! extractUploadID (URLPath r) = Some st → SourceID st ≠ src) →
  with_upload s r k = Ret (s, if tus_ok r then writeErrorJSON 404 "upload_not_found" else precondition_failed).
Proof using Type.
  intros Hsrc Ho. unfold with_upload, require_source. rewrite Hsrc. destruct (tus_ok r); [|done]. cbn [negb].
  destruct (String.eqb _ ""); [done|]. unfold Get. destruct (uploads s !! _) as [st|]; [|done].
  rewrite (proj2 (String.eqb_neq _ _)); [done|by apply Ho].
Qed.

(** C36. Another source's upload does not show: a HEAD, PATCH or DELETE on an
    upload-id that belongs to someone else is answered, without a call and
    without a change, exactly as it would be if there were no such upload. *)
Theorem others_uploads_do_not_show (s s' : Store) (r : Request) (src id : string) (st : UploadState) :
  about_upload r id → DeliveredBy r = Some src →
  uploads s !! id = Some st → SourceID st ≠ src → uploads s' !! id = None →
  ∃ resp, serve Quote cfg blocked s r = Some (Ret (s, resp)) ∧ serve Quote cfg blocked s' r = Some (Ret (s', resp)).
Proof using Type.
  intros (Hpath & Hid & Hm) Hsrc Hst Hne Hnone.
  exists (if tus_ok r then writeErrorJSON 404 "upload_not_found" else precondition_failed).
  assert (Hbase : String.eqb (URLPath r) archivesBasePath = false).
  { apply String.eqb_neq. intros E. by rewrite E in Hpath. }
  unfold serve. rewrite Hbase, Hpath.
  assert (H1 : ∀ k, with_upload s r k = Ret (s, if tus_ok r then writeErrorJSON 404 "upload_not_found" else precondition_failed)).
  { intros k. apply (with_upload_other s r src k Hsrc). rewrite Hid, Hst. by intros ? [= <-]. }
  assert (H2 : ∀ k, with_upload s' r k = Ret (s', if tus_ok r then writeErrorJSON 404 "upload_not_found" else precondition_failed)).
  { intros k. apply (with_upload_other s' r src k Hsrc). by rewrite Hid, Hnone. }
  unfold head, patch, delete_upload. rewrite !H1, !H2.
  rewrite !elem_of_cons in Hm. destruct Hm as [-> |[-> |[-> |[]%elem_of_nil]]]; done.
Qed.

(** Another source's archive does not show: on a disk that fails only
    where it must, a GET for an archive that someone else delivered is
    answered as a GET for an archive that is not there. *)
Theorem others_archives_do_not_show (s : Store) (r : Request) (src aid : string) (d : disk) (data : bytes) (rc : FinalizeReceipt) :
  absolute root → DeliveredBy r = Some src → extractUploadID (URLPath r) = aid → only_dots aid = false →
  d !! (final_at root aid ++ ["metadata.json"])%list = Some (File data) → UnmarshalReceipt data = Some rc → RDeliveredBy rc ≠ src →
  under hstep (get cfg s r) d (λ d' x, d' = d ∧ x = (s, writeErrorJSON 404 "archive_not_found")) ∧
  under hstep (get cfg s r) (removed (final_at root aid) d)
    (λ d' x, d' = removed (final_at root aid) d ∧ x = (s, writeErrorJSON 404 "archive_not_found")).
Proof using Type.
  intros Hroot Hsrc Haid Hdots Hdata Hrc Hne. unfold get, require_source. rewrite Hsrc, Haid. cbv zeta.
  destruct (archiveIDRe aid) eqn:Ere; cbn [negb]; [|done].
  assert (Hc : comps (Join [root; "archives"; aid; "metadata.json"]) = (final_at root aid ++ ["metadata.json"])%list).
  { rewrite comps_Join; [|done|repeat constructor; by apply good_id_plain|done]. unfold final_at, archive_area. by rewrite <- !app_assoc. }
  assert (Hgone : removed (final_at root aid) d !! (final_at root aid ++ ["metadata.json"])%list = None).
  { rewrite removed_lookup. by rewrite decide_True by apply below_app. }
  split; apply under_bind; intros ans d' [[-> Hans] Hok]; rewrite Hc in *; cbn.
  - rewrite Hdata in *. destruct ans as [x| |]; [|done|by destruct Hok].
    injection Hans as ->. rewrite Hrc. cbn. by rewrite (proj2 (String.eqb_neq _ _) Hne).
  - rewrite Hgone in *. destruct ans as [x| |]; [done|done|by destruct Hok].
Qed.

(** ** Resuming *)

Abbreviation tmp := (tmp_at root).

(** The temporary file of an upload holds what was hashed, and no more. *)
Definition stored (d : disk) (st : UploadState) : Prop := d !! tmp (ID st) = Some (File (Hashed st)).

(** How a PATCH with the body [body] and the answer [resp] may leave an upload
    of the file [f]: the hashed bytes are those before, followed by some of
    the file, and the offset counts them; the temporary file holds them, and
    perhaps [extra] bytes of a write that came back short; unless the answer
    is 204, and then the whole body, up to the length of the upload, was
    added to both. *)
Record resumable (f body : bytes) (st st' : UploadState) (resp : Response) (d' : disk) : Prop := {
  rs_id : ID st' = ID st ∧ SUploadLength st' = SUploadLength st;
  rs_before : Hashed st `prefix_of` Hashed st';
  rs_file : Hashed st' `prefix_of` f;
  rs_offset : Offset st' = Z.of_nat (length (Hashed st')) ∧ (Offset st' ≤ SUploadLength st)%Z;
  rs_disk : ∃ extra, d' !! tmp (ID st) = Some (File (Hashed st' ++ extra)%list) ∧
    (Status resp = 204%Z →
       extra = [] ∧ Hashed st' = (Hashed st ++ take (Z.to_nat (SUploadLength st - Offset st)) body)%list);
}.

(** A disk on which everything may fail, but no write comes back short. *)
Definition whole_writes (d : disk) (o : aop) (r : aans o) (d' : disk) : Prop :=
  dstep d o r d' ∧ match o return aans o → Prop with Write _ x => λ n, n = length x | _ => λ _, True end r.

Lemma whole_dstep d o r d' : whole_writes d o r d' → dstep d o r d'.
Proof using Type. by intros []. Qed.

Lemma write_chunk_whole (t : string) (c : bytes) (d : disk) :
  under whole_writes (write_chunk t c) d (λ d' ok, d' = append (comps t) c d ∧ ok = true).
Proof using Type.
  destruct c as [|x c]; [by rewrite append_nil|]. unfold write_chunk. apply under_bind. intros n s [[_ ->] Hn]. cbn in Hn. subst n.
  cbn [under]. rewrite take_ge by done. split; [done|]. by rewrite Nat.ltb_irrefl.
Qed.

(** Then the file takes what is counted. *)
Lemma copy_chunks_whole (t : string) (ending : BodyEnd) (tail : bytes) (chunks : list bytes) : ∀ limit landed d,
  under whole_writes (copy_chunks t landed limit chunks tail ending) d
    (λ d' r, ∃ got, r.1 = (landed ++ got)%list ∧ d' = append (comps t) got d).
Proof using Type.
  induction chunks as [|c rest IH]; intros [|limit] landed d; cbn [copy_chunks under].
  1, 3: exists []; by rewrite app_nil_r, append_nil.
  - apply under_bind. eapply under_mono; [|apply write_chunk_whole]. intros s ok [-> ->]. cbn [negb under fst]. by eexists.
  - apply under_bind. eapply under_mono; [|apply write_chunk_whole]. intros s ok [-> ->].
    eapply under_mono; [|apply IH]. intros s [l e] (got & E & ->). cbn [fst] in *. subst l.
    exists (take (S limit) c ++ got)%list. by rewrite append_append, app_assoc.
Qed.

(** What a PATCH does to its upload, on any kind of disk: nothing, with
    another answer than 204; or what the copy of the body, of which [C]
    holds, counted. *)
Definition patched (r : Request) (st : UploadState) (d : disk) (C : disk → bytes * option PatchErr → Prop)
    (st' : UploadState) (d' : disk) (resp : Response) : Prop :=
  (st' = st ∧ d' = d ∧ Status resp ≠ 204%Z) ∨
  ∃ got err now, atoi (header r "Upload-Offset") = Some (Offset st) ∧ is_file d (comps (tmp_path root (ID st))) ∧
    C d' (got, err) ∧ st' = set_progress (Offset st + Z.of_nat (length got)) (Hashed st ++ got)%list now st ∧
    (Status resp = 204%Z → err = None).

Lemma patch_effect (step : disk → ∀ o : aop, aans o → disk → Prop) (C : disk → bytes * option PatchErr → Prop) (s : Store) (r : Request) (id : string) (st : UploadState) (d : disk) :
  (∀ d o r d', step d o r d' → dstep d o r d') →
  store_ok s → uploads s !! id = Some st → extractUploadID (URLPath r) = id →
  under step (copy_chunks (tmp_path root id) [] (Z.to_nat (SUploadLength st - Offset st))
    (BChunks (RBody r)) (BTail (RBody r)) (BEnd (RBody r))) d C →
  under step (patch cfg s r) d (λ d' x, ∀ st', uploads x.1 !! id = Some st' → patched r st d C st' d' x.2).
Proof using Type.
  intros Hsub Hs Hst Hid HC. pose proof (so_ids s Hs id st Hst) as Eid.
  assert (Hsame : ∀ (resp : Response) st', Status resp ≠ 204%Z → uploads s !! id = Some st' → patched r st d C st' d resp).
  { intros resp st' Hr E. rewrite Hst in E. injection E as <-. by left. }
  unfold patch, with_upload. destruct (tus_ok r); cbn [negb]; [|intros st'; by apply Hsame]. unfold require_source.
  destruct (DeliveredBy r) as [src|]; [|intros st'; by apply Hsame]. rewrite Hid.
  destruct (String.eqb id ""); [intros st'; by apply Hsame|].
  unfold Get. rewrite Hst. destruct (String.eqb (SourceID st) src); cbn [negb]; [|intros st'; by apply Hsame].
  destruct (String.eqb _ patchContentType); cbn [negb]; [|intros st'; by apply Hsame].
  destruct (String.eqb _ ""); [intros st'; by apply Hsame|].
  destruct (atoi _) as [off|] eqn:Eoff; [|intros st'; by apply Hsame]. destruct (off <? 0)%Z; [intros st'; by apply Hsame|].
  apply under_bind. intros locked d1 ->%Hsub. cbn [under]. destruct locked; cbn [negb]; [|intros st'; by apply Hsame].
  unfold patch_locked. destruct (Z.eqb_spec off (Offset st)) as [->|]; cbn [negb]; [|intros st'; by apply Hsame].
  apply under_bind. intros opened d1 [Hop ->]%Hsub. cbn [under]. destruct opened; cbn [negb]; [|intros st'; by apply Hsame].
  specialize (Hop eq_refl). rewrite <- Eid in Hop.
  apply under_bind. eapply under_mono; [|exact HC]. intros d2 [got err] Hgot. apply under_bind. intros now d3 ->%Hsub. cbn [under]. cbv zeta.
  set (st2 := set_progress _ _ _ _).
  assert (Hgood : ∀ (resp : Response) st', (Status resp = 204%Z → err = None) →
    uploads (update s st2) !! id = Some st' → patched r st d C st' d2 resp).
  { intros resp st' He. cbn. rewrite Eid, lookup_insert_eq. intros [= <-]. right. by exists got, err, now. }
  destruct err as [[[]|]|].
  2: { apply under_bind. intros ? d4 ->%Hsub. cbn [under]. intros st'. by apply Hgood. }
  1, 2, 3: apply under_bind; intros expired d4 ->%Hsub; cbn [under]; apply under_bind; intros ? d5 ->%Hsub; cbn [under];
    destruct expired; intros st'; by apply Hgood.
  apply under_bind. intros ? d4 ->%Hsub. cbn [under]. destruct (_ <=? _)%Z; [|intros st'; by apply Hgood].
  unfold finalizeAndRespond. apply under_bind, under_true.
  intros d5 [rc|e]; [|destruct (finalize_failure e)]; cbn [under fst]; intros st'; by rewrite remove_uploads, lookup_delete_eq.
Qed.

Lemma patched_resumable (known : string → Prop) (r : Request) (d : disk) (f : bytes) (st st' : UploadState) (d' : disk) (resp : Response) :
  absolute root → upload_ok root known d st → stored d st → Hashed st `prefix_of` f →
  (∀ off, atoi (header r "Upload-Offset") = Some off → body_bytes (RBody r) `prefix_of` drop (Z.to_nat off) f) →
  patched r st d (copied (comps (tmp_path root (ID st))) (Z.to_nat (SUploadLength st - Offset st)) (body_bytes (RBody r)) [] d) st' d' resp →
  resumable f (body_bytes (RBody r)) st st' resp d'.
Proof using Type.
  intros Hroot Hup Hd Hf Hbody Hp. pose proof (uo_offset _ _ _ _ Hup) as Ho. pose proof (uo_bound _ _ _ _ Hup) as Hb.
  destruct Hp as [(-> & -> & Hr)|(got & err & now & Eoff & _ & (got' & extra & El & -> & Hgot & Hnone) & -> & Hr)].
  { constructor; [done|done|done|split; [done|lia]|]. exists []. by rewrite app_nil_r. }
  cbn [fst snd app] in El, Hnone. subst got'. specialize (Hbody _ Eoff). destruct Hf as [g Hg].
  assert (Hgf : got `prefix_of` g).
  { rewrite Ho, Nat2Z.id, Hg, drop_app_length in Hbody. etrans; [exact Hgot|]. etrans; [apply prefix_take|exact Hbody]. }
  pose proof (prefix_length _ _ Hgot) as Hl. rewrite length_take in Hl.
  constructor; cbn [set_progress Hashed Offset ID SUploadLength].
  - done.
  - by eexists.
  - rewrite Hg. by apply prefix_app.
  - rewrite length_app. split; lia.
  - exists extra. rewrite comps_tmp by (done || apply Hup). rewrite append_lookup, decide_True, Hd, <- app_assoc by done.
    split; [done|]. intros H204. destruct (Hnone (Hr H204)) as [-> ->]. done.
Qed.

(** C33. An upload can be resumed.  Take an upload whose temporary file holds
    exactly the bytes that were hashed, as a POST leaves it, and a client
    that sends the bytes of a file from the offset that it names.  Whatever
    the disk does, a PATCH leaves the upload, if it is still in the table,
    with hashed bytes that extend those before and are still the beginning
    of that file, and an offset that counts them, at most the length of the
    upload; these bytes are on the disk, in the temporary file, followed only
    by what a write that came back short may have left there; and after an
    answer 204 by nothing, and then the body was added whole, up to the
    length of the upload.  On a disk where no write comes back short the
    file holds exactly what was hashed again, so that the next PATCH goes on
    from the offset that HEAD tells. *)
Theorem patches_resume (known : string → Prop) (s : Store) (r : Request) (id : string) (st : UploadState) (f : bytes) (d : disk) :
  absolute root → service_ok root known s d → uploads s !! id = Some st → extractUploadID (URLPath r) = id →
  stored d st → Hashed st `prefix_of` f →
  (∀ off, atoi (header r "Upload-Offset") = Some off → body_bytes (RBody r) `prefix_of` drop (Z.to_nat off) f) →
  under dstep (patch cfg s r) d (λ d' x, ∀ st', uploads x.1 !! id = Some st' → resumable f (body_bytes (RBody r)) st st' x.2 d') ∧
  under whole_writes (patch cfg s r) d (λ d' x, ∀ st', uploads x.1 !! id = Some st' → stored d' st').
Proof using Type.
  intros Hroot Hs Hst Hid Hd Hf Hbody. pose proof (sv_uploads _ _ _ _ Hs _ _ Hst) as Hup.
  pose proof (so_ids s (sv_store _ _ _ _ Hs) id st Hst) as Eid. split.
  - eapply under_mono; [|eapply (patch_effect dstep); [done|apply Hs|exact Hst|exact Hid|apply copy_chunks_spec]].
    intros d' x Hx st' E. eapply patched_resumable; try done. rewrite Eid. by apply Hx.
  - eapply under_mono; [|eapply (patch_effect whole_writes); [by apply whole_dstep|apply Hs|exact Hst|exact Hid|apply copy_chunks_whole]].
    intros d' x Hx st' E. destruct (Hx st' E) as [(-> & -> & _)|(got & err & now & _ & _ & (got' & El & ->) & -> & _)]; [done|].
    cbn [fst app] in El. subst got'. unfold stored. cbn [set_progress Hashed ID]. rewrite <- Eid.
    by rewrite comps_tmp, append_lookup, decide_True, Hd by (done || apply Hup).
Qed.

(** Finalize refuses a file that is longer than the upload. *)
Lemma finalize_refuses (st : UploadState) (by_ : option string) (data : bytes) (d : disk) :
  absolute root → plain_name (ID st) = true → d !! tmp (ID st) = Some (File data) →
  (SUploadLength st < Z.of_nat (length data))%Z →
  under dstep (Finalize (finalize_config cfg) st by_) d (λ _ r, ∃ e, r = Err e).
Proof using Type.
  intros Hroot Hid Hd Hlong.
  assert (Hfail : ∀ e s, under dstep (fail (finalize_config cfg) st e) s (λ _ (r : res FinalizeErr FinalizeReceipt), ∃ e, r = Err e)).
  { intros e s. unfold fail. apply under_bind, under_true. intros s1 u. by exists e. }
  unfold Finalize. cbn zeta. destruct (String.eqb _ _ && _); [apply Hfail|]. destruct (decode_hex _) as [claimed|]; [|apply Hfail].
  destruct (bool_decide _); cbn [negb]; [|apply Hfail]. apply under_bind. intros fi s1 [-> Hfi]. cbn [under].
  destruct fi as [[isdir size]| |]; [|apply Hfail|apply Hfail].
  destruct (Z.eqb_spec size (SUploadLength st)) as [->|]; cbn [negb]; [|apply Hfail]. exfalso.
  change (StagingRoot (finalize_config cfg)) with root in Hfi. rewrite comps_tmp in Hfi by done. destruct isdir.
  - destruct Hfi as [E|E]; [by unfold tmp_at in E; destruct (tmp_area root)|congruence].
  - destruct Hfi as (x & E & Hx). rewrite Hd in E. injection E as <-. lia.
Qed.

(** What a short write leaves is never removed: from then on no PATCH
    completes the upload.  One that brings it to its length, from whatever
    offset, is answered with an error, and the upload is gone. *)
Theorem short_write_cannot_complete (known : string → Prop) (s : Store) (r : Request) (id : string) (st : UploadState) (extra : bytes) (d : disk) :
  absolute root → service_ok root known s d → uploads s !! id = Some st → extractUploadID (URLPath r) = id →
  d !! tmp id = Some (File (Hashed st ++ extra)%list) → extra ≠ [] →
  under dstep (patch cfg s r) d (λ d' x, uploads x.1 !! id = None → (400 ≤ Status x.2)%Z).
Proof using Type.
  intros Hroot Hs Hst Hid Hd Hextra. pose proof (sv_uploads _ _ _ _ Hs _ _ Hst) as Hup.
  pose proof (so_ids s (sv_store _ _ _ _ Hs) id st Hst) as Eid.
  assert (Hsame : ∀ resp : Response, uploads (s, resp).1 !! id = None → (400 ≤ Status (s, resp).2)%Z) by (cbn; intros resp E; congruence).
  unfold patch, with_upload. destruct (tus_ok r); cbn [negb]; [|exact (Hsame _)]. unfold require_source.
  destruct (DeliveredBy r) as [src|]; [|exact (Hsame _)]. rewrite Hid. destruct (String.eqb id ""); [exact (Hsame _)|].
  unfold Get. rewrite Hst. destruct (String.eqb (SourceID st) src); cbn [negb]; [|exact (Hsame _)].
  destruct (String.eqb _ patchContentType); cbn [negb]; [|exact (Hsame _)]. destruct (String.eqb _ ""); [exact (Hsame _)|].
  destruct (atoi _) as [off|]; [|exact (Hsame _)]. destruct (off <? 0)%Z; [exact (Hsame _)|].
  apply under_bind. intros locked d1 ->. cbn [under]. destruct locked; cbn [negb]; [|exact (Hsame _)].
  unfold patch_locked. destruct (off =? Offset st)%Z; cbn [negb]; [|exact (Hsame _)].
  apply under_bind. intros opened d1 [_ ->]. cbn [under]. destruct opened; cbn [negb]; [|exact (Hsame _)].
  apply under_bind. eapply under_mono; [|apply copy_chunks_spec]. intros d2 [got err] (got' & extra' & El & Hd2 & Hgot & _).
  cbn [fst app] in El. subst got'. apply under_bind. intros now d3 ->. cbn [under]. cbv zeta.
  set (st2 := set_progress _ _ _ _).
  assert (Hin : ∀ resp : Response, uploads (update s st2, resp).1 !! id = None → (400 ≤ Status (update s st2, resp).2)%Z).
  { intros resp. cbn. by rewrite Eid, lookup_insert_eq. }
  destruct err as [[[]|]|].
  2: { apply under_bind. intros ? d4 _. exact (Hin _). }
  1, 2, 3: apply under_bind; intros expired d4 _; cbn [under]; apply under_bind; intros ? d5 _; cbn [under]; destruct expired; exact (Hin _).
  apply under_bind. intros ? d4 ->. cbn [under]. destruct (Z.leb_spec (SUploadLength st2) (Offset st2)) as [Hfull|]; [|exact (Hin _)].
  rewrite comps_tmp in Hd2 by (done || rewrite <- Eid; apply Hup).
  assert (Hfile : d2 !! tmp id = Some (File (Hashed st ++ extra ++ got ++ extra')%list)).
  { by rewrite Hd2, append_lookup, decide_True, Hd, <- !app_assoc by done. }
  assert (Hlong : (length (Hashed st2) < length (Hashed st ++ extra ++ got ++ extra'))%nat).
  { cbn. rewrite !length_app. destruct extra; [done|]. cbn. lia. }
  unfold finalizeAndRespond. apply under_bind. eapply under_mono; [|eapply finalize_refuses; [exact Hroot|apply Hup|..]].
  - intros d5 r5 [e ->]. destruct (finalize_failure e) as [status code] eqn:Ef. cbn [under snd]. intros _.
    assert (status = (finalize_failure e).1) as -> by (by rewrite Ef). clear. destruct e as [| | | |t|]; try (cbn; lia). unfold finalize_failure. destruct (ClassifyReason (Some t)); cbn; lia.
  - cbn [set_progress ID st2]. rewrite Eid. exact Hfile.
  - pose proof (uo_offset _ _ _ _ Hup) as Ho. cbn in Hfull |- *. unfold st2 in Hlong. cbn [Hashed set_progress] in Hlong. rewrite length_app in Hlong. lia.
Qed.

(** ** A lost file *)

(** An upload whose temporary file is gone (the cleanup removes one that
    was not written for three days) is stuck, not freed: every PATCH on it is
    answered with an error and changes neither the table of uploads, where it
    goes on to count as an upload in flight, nor the disk. *)
Theorem lost_file_keeps_the_slot (s : Store) (r : Request) (id : string) (d : disk) :
  absolute root → extractUploadID (URLPath r) = id → plain_name id = true → d !! tmp_at root id = None →
  under dstep (patch cfg s r) d (λ d' x, d' = d ∧ x.1 = s ∧ (400 ≤ Status x.2)%Z).
Proof using Type.
  intros Hroot Hid Hplain Hgone. unfold patch, with_upload. destruct (tus_ok r); cbn [negb]; [|done]. unfold require_source.
  destruct (DeliveredBy r) as [src|]; [|done]. rewrite Hid. destruct (String.eqb id ""); [done|].
  destruct (Get s id src) as [st|]; [|done].
  destruct (String.eqb _ patchContentType); [|done]. cbn [negb]. destruct (String.eqb _ ""); [done|].
  destruct (atoi _) as [off|]; [|done]. destruct (off <? 0)%Z; [done|].
  apply under_bind. intros locked d1 ->. cbn [under]. destruct locked; cbn [negb]; [|done].
  unfold patch_locked. destruct (off =? Offset st)%Z; cbn [negb]; [|done].
  apply under_bind. intros opened d1 [Hop ->]. cbn [under]. destruct opened; cbn [negb]; [|done].
  destruct (Hop eq_refl) as [data Hd]. rewrite comps_tmp, Hgone in Hd by done. done.
Qed.
End protocol.
