(* ===== verification/AComplete.v ===== *)
(** An upload that can be published is: a PATCH with the rest of a raw file,
    on a disk that fails only where it must. *)
From S2P Require Import Prelude GoStrings GoFloat GoPath Utf8 EDecode DSubject Effects ADisk AMeta ATar ATarFacts AStore AFinalize AHandler AFinalizeFacts AUploads.
Local Open Scope string_scope.

(** ** Calls that succeed *)

Lemma clear_folders (p : path) (d : disk) : d !! [] = None → folders (λ q, below q p) d → clear_way p d.
Proof. intros Hn Hf q Hq [x Hx]. destruct (Hf q Hq) as [->|E]; congruence. Qed.

Lemma mkdirs_folders (p : path) (d : disk) : folders (λ q, below q p) d → mkdirs p d = d.
Proof.
  intros Hf. apply map_eq. intros k. rewrite mkdirs_lookup. destruct (d !! k) as [n|] eqn:E; [done|].
  rewrite decide_False; [done|]. intros [Hk Hne]. destruct (Hf k Hk) as [->|E2]; congruence.
Qed.

Lemma mkdirs_next (p : path) (x : string) (d : disk) :
  folders (λ q, below q p) d → d !! (p ++ [x])%list = None → mkdirs (p ++ [x])%list d = <[(p ++ [x])%list := Folder]> d.
Proof.
  intros Hf Hn. apply map_eq. intros k. rewrite mkdirs_lookup. destruct (decide (k = (p ++ [x])%list)) as [->|Hk].
  - rewrite Hn, lookup_insert_eq, decide_True; [done|]. split; [apply below_refl|by destruct p].
  - rewrite lookup_insert_ne by done. destruct (d !! k) as [n|] eqn:E; [done|]. rewrite decide_False; [done|].
    intros [Hb Hne]. destruct (below_snoc _ _ _ Hb) as [->|Hb']; [done|]. destruct (Hf k Hb') as [->|E2]; congruence.
Qed.

Lemma h_mkdir (p : string) (d : disk) (Q : disk → bool → Prop) :
  clear_way (comps p) d → Q (mkdirs (comps p) d) true → under hstep (do_ (MkdirAll p)) d Q.
Proof. intros Hc HQ r s [Hs Hr]. specialize (Hr Hc). subst r. destruct Hs as [_ ->]. exact HQ. Qed.

Lemma h_create (p : string) (d : disk) (Q : disk → bool → Prop) :
  d !! comps p = None → comps p ≠ [] → is_folder d (removelast (comps p)) → Q (<[comps p := File []]> d) true →
  under hstep (do_ (CreateExcl p)) d Q.
Proof. intros H1 H2 H3 HQ r s [Hs Hr]. specialize (Hr H1 H2 H3). subst r. destruct Hs as (_ & _ & _ & ->). exact HQ. Qed.

Lemma h_rename (p q : string) (d : disk) (Q : disk → bool → Prop) :
  may_move (comps p) (comps q) d → Q (move (comps p) (comps q) d) true → under hstep (do_ (Rename p q)) d Q.
Proof. intros Hm HQ r s [Hs Hr]. specialize (Hr Hm). subst r. destruct Hs as [_ ->]. exact HQ. Qed.

Lemma h_chmod (p : string) (m : Z) (d : disk) (Q : disk → bool → Prop) : Q d true → under hstep (do_ (Chmod p m)) d Q.
Proof. by intros HQ r s [-> ->]. Qed.
Lemma h_sync (p : string) (d : disk) (Q : disk → bool → Prop) : Q d true → under hstep (do_ (Sync p)) d Q.
Proof. by intros HQ r s [-> ->]. Qed.
Lemma h_close (p : string) (d : disk) (Q : disk → bool → Prop) : Q d true → under hstep (do_ (Close p)) d Q.
Proof. by intros HQ r s [-> ->]. Qed.

(** Next to each other. *)
Lemma not_below_beside (f : path) (x y : string) (l : path) : x ≠ y → ¬ below (f ++ [x])%list (f ++ y :: l)%list.
Proof. intros Hne H%below_sibling. done. Qed.

Lemma atomic_succeeds (path : string) (f : ADisk.path) (n : string) (data : bytes) (mode : Z) (d : disk) :
  absolute path → comps path = (f ++ [n])%list → plain_name n = true → f ≠ [] → d !! f = Some Folder →
  (∀ k, beside f n k → d !! k = None) →
  under hstep (atomicWriteSibling path data mode) d (λ _ ok, ok = true).
Proof.
  intros Ha Hc Hn Hf Hfold Hfree. pose proof (sibling_paths path f n Ha Hc Hn) as Ht. unfold atomicWriteSibling. cbn zeta.
  set (tmp := Join [Dir path; Base path ++ ".tmp"]) in *.
  assert (Hname : n ≠ tmp_name n).
  { intros E%(f_equal String.length). unfold tmp_name in E. rewrite string_length_app in E. cbn in E. lia. }
  apply under_bind, h_create; rewrite Ht.
  { apply Hfree. right. apply below_refl. }
  { by destruct f. }
  { rewrite removelast_last. by right. }
  cbn [negb]. apply under_bind. intros k s [[_ ->] ->]. cbn [under]. rewrite (proj2 (Nat.ltb_ge _ _)) by done.
  rewrite take_ge, Ht, append_created by done. apply under_bind, h_sync. cbn [negb]. apply under_bind, h_close. cbn [negb].
  apply under_bind, h_chmod. cbn [negb]. apply under_bind, h_rename; [|done]. rewrite Ht, Hc.
  split_and!.
  - by apply not_below_beside.
  - by apply not_below_beside.
  - rewrite removelast_last. right. rewrite lookup_insert_ne; [done|]. intros E%(f_equal length). rewrite length_app in E. cbn in E. lia.
  - intros k Hk Hne. rewrite lookup_insert_ne; [apply Hfree; by left|]. intros <-. by apply not_below_beside in Hk.
  - rewrite lookup_insert_eq, lookup_insert_ne; [by rewrite Hfree by (left; apply below_refl)|]. intros E%app_inv_head. by injection E.
Qed.

(** ** Finalizing *)

Section complete.
Context {lib : ArchiveLib} (cfg : FinalizeConfig) (st : UploadState) (deliveredBy : option string).
Abbreviation root := (StagingRoot cfg).
Abbreviation fin := (fin_at root (ID st)).
Abbreviation final := (final_at root (ArchiveID st)).
Context (Hroot : absolute root) (Hid : plain_name (ID st) = true) (Hgood : good_fields (Meta st)) (Haid : plain_name (ArchiveID st) = true).
Context (Hmarshal : ∀ rc, is_Some (MarshalReceipt rc)).

(** The places that must be free. *)
Definition room (d : disk) : Prop := d !! [] = None ∧ folders (areas root) d ∧ ∀ k, below final k → d !! k = None.

Lemma fin_final : ¬ below fin final ∧ ¬ below final fin.
Proof using Type.
  assert (H : ∀ a b x y, a ≠ b → ¬ below (comps root ++ [a] ++ [x])%list (comps root ++ [b] ++ [y])%list).
  { intros a b x y Hne Hb. assert (Hb2 : below (comps root ++ [a])%list (comps root ++ b :: [y])%list).
    { eapply below_trans; [|exact Hb]. exists [x]. by rewrite <- app_assoc. }
    by apply below_sibling in Hb2. }
  unfold fin_at, final_at, tmp_area, archive_area. rewrite <- !app_assoc. split; by apply H.
Qed.

Lemma publish_succeeds (receipt : FinalizeReceipt) (d : disk) :
  room d → d !! fin = Some Folder → (∀ k, beside fin "metadata.json" k → d !! k = None) →
  under hstep (publish cfg st receipt) d (λ _ r, r = Ok receipt).
Proof using Hroot Hid Haid Hmarshal.
  intros (Hnil & Hf & Hfree) Hfin Hmd. destruct (metadata_path cfg st Hroot Hid) as [Hma Hmc].
  destruct (final_paths cfg st Hroot Haid) as [Hfa Hfc]. destruct (fin_absolute root (ID st) Hroot Hid) as [_ Hfinc].
  unfold publish. destruct (Hmarshal receipt) as [mb ->]. apply under_guarded.
  assert (Hne : fin ≠ []) by (unfold fin_at; by destruct (tmp_area root)).
  pose proof (atomic_succeeds _ fin "metadata.json" mb finalizeFileMode d Hma Hmc eq_refl Hne Hfin Hmd) as H1.
  pose proof (under_step_mono hstep dstep _ _ _ hstep_dstep (atomic_spec _ fin "metadata.json" mb finalizeFileMode Hma Hmc eq_refl d)) as H2.
  eapply under_mono; [|exact (under_and _ _ _ _ _ H1 H2)]. intros s ok [-> [Hs _]].
  assert (Hout : ∀ k, ¬ own root (ID st) k → s !! k = d !! k).
  { intros k Hk. apply Hs. intros Hb. apply Hk. eapply (beside_own root (ID st) "metadata.json" [] k). by rewrite app_nil_r. }
  assert (Hfs : folders (areas root) s).
  { intros q Hq. destruct (Hf q Hq) as [->|E]; [by left|right]. rewrite Hout; [done|]. by apply (region_base _ _ (own_region root (ID st))). }
  assert (Hsfinal : ∀ k, below final k → s !! k = None).
  { intros k [l ->]. rewrite Hout; [by apply Hfree, below_app|by apply final_not_own]. }
  assert (Hsfin : s !! fin = Some Folder).
  { rewrite Hs; [done|]. intros [H|H]; apply prefix_length in H; rewrite length_app in H; cbn in H; lia. }
  assert (Hsnil : s !! [] = None).
  { rewrite Hs; [done|]. intros [[l H]|[l H]]; by destruct fin. }
  cbv zeta. apply under_guarded, h_mkdir; rewrite comps_Dir, Hfc by done; unfold final_at; rewrite removelast_last.
  { apply clear_folders; [done|]. intros q Hq. apply Hfs. by right. }
  rewrite mkdirs_folders by (intros q Hq; apply Hfs; by right).
  apply under_bind. intros there s' [[-> Hthere] _]. rewrite Hfc in Hthere. cbn [under].
  assert (Hren : under hstep (do_ (Rename (finalize_dir root (ID st)) (Join [root; "archives"; ArchiveID st]))) s (λ s' r, r = true)).
  { apply h_rename; [|done]. rewrite Hfinc, Hfc. destruct fin_final as [F1 F2]. split_and!; [done|done| | |].
    - unfold final_at. rewrite removelast_last. apply Hfs. right. apply below_refl.
    - intros k Hk _. by apply Hsfinal.
    - rewrite Hsfin. left. apply Hsfinal, below_refl. }
  assert (Hnone : s !! final = None) by apply Hsfinal, below_refl.
  destruct there as [[[] z]| |].
  - destruct Hthere as [E|E]; [by unfold final_at in E; destruct (archive_area root)|congruence].
  - destruct Hthere as (x & E & _). congruence.
  - apply under_bind. eapply under_mono; [|exact Hren]. by intros ? ? ->.
  - apply under_bind. eapply under_mono; [|exact Hren]. by intros ? ? ->.
Qed.

Abbreviation name := (UArchiveFilename (Meta st)).

(** The upload's folder is free, and its file is there. *)
Definition uploaded (data : bytes) (d : disk) : Prop :=
  d !! tmp_at root (ID st) = Some (File data) ∧ ∀ k, below fin k → d !! k = None.

Lemma fin_parent : removelast fin = tmp_area root ∧ fin ≠ [].
Proof using Type. unfold fin_at. rewrite removelast_last. split; [done|]. by destruct (tmp_area root). Qed.

Lemma stage_raw_succeeds (receipt : FinalizeReceipt) (data : bytes) (d : disk) :
  room d → d !! tmp_at root (ID st) = Some (File data) → d !! fin = Some Folder → (∀ x l, d !! (fin ++ x :: l)%list = None) → name ≠ "." →
  under hstep (stage_raw cfg st receipt) d (λ s r,
    (∃ rc, r = Ok rc) ∧ room s ∧ s !! fin = Some Folder ∧ ∀ k, beside fin "metadata.json" k → s !! k = None).
Proof using Hroot Hid Hgood.
  intros (Hnil & Hf & Hfree) Htmp Hfin Hin Hname. destruct (raw_paths cfg st Hroot Hid Hgood) as [H1 H2].
  rewrite (proj2 (String.eqb_neq _ _)) in H2 by done.
  assert (Hfinf : folders (λ q, below q fin) d).
  { intros q Hq. destruct (below_snoc _ _ _ Hq) as [->|Hq2]; [by right|]. apply Hf. by left. }
  set (d1 := <[(fin ++ ["raw"])%list := Folder]> d).
  assert (Hmk : mkdirs (fin ++ ["raw"])%list d = d1) by by apply mkdirs_next.
  assert (Hother : ∀ k, ¬ below (fin ++ ["raw"])%list k → d1 !! k = d !! k).
  { intros k Hk. unfold d1. rewrite lookup_insert_ne; [done|]. intros <-. apply Hk, below_refl. }
  unfold stage_raw. cbn zeta. apply under_guarded, h_mkdir; rewrite H1.
  { intros q Hq [x Hx]. destruct (below_snoc _ _ _ Hq) as [->|Hq2]; [congruence|]. by apply (clear_folders _ _ Hnil Hfinf q Hq2); exists x. }
  rewrite Hmk. apply under_guarded, h_chmod. apply under_guarded.
  assert (Htmpraw : ∀ l, ¬ below (tmp_at root (ID st)) (fin ++ l)%list) by (intros l; by apply tmp_fin).
  assert (Hrawtmp : ∀ l, ¬ below (fin ++ l)%list (tmp_at root (ID st))).
  { intros l [m E]. unfold tmp_at, fin_at in E. rewrite <- !app_assoc in E. apply app_inv_head in E. injection E as E _.
    apply (f_equal String.length) in E. unfold finalize_name in E. rewrite string_length_app in E. cbn in E. lia. }
  set (q := (fin ++ ["raw"; name])%list). assert (Hq : comps (Join [Join [finalize_dir root (ID st); "raw"]; name]) = q) by done.
  assert (Hd1tmp : d1 !! tmp_at root (ID st) = Some (File data)) by by rewrite Hother.
  assert (Hrl : removelast q = (fin ++ ["raw"])%list) by (unfold q; change ["raw"; name] with (["raw"] ++ [name])%list; by rewrite app_assoc, removelast_last).
  apply h_rename; rewrite comps_tmp, Hq by done.
  { split_and!; [apply Htmpraw|apply Hrawtmp| | |].
    - rewrite Hrl. right. unfold d1. by rewrite lookup_insert_eq.
    - intros k [l ->] _. unfold d1, q. rewrite lookup_insert_ne; [rewrite <- app_assoc; apply Hin|].
      rewrite <- app_assoc. intros E%app_inv_head. by injection E.
    - rewrite Hd1tmp. unfold d1, q. rewrite lookup_insert_ne; [by rewrite Hin|]. intros E%app_inv_head. by injection E. }
  apply under_guarded, h_chmod. cbn [under].
  assert (Hlook : ∀ k, ¬ below (tmp_at root (ID st)) k → ¬ below (fin ++ ["raw"])%list k → move (tmp_at root (ID st)) q d1 !! k = d !! k).
  { intros k Hk1 Hk2. rewrite move_lookup by (apply Htmpraw || apply Hrawtmp).
    rewrite !decide_False; [by apply Hother|done|]. intros Hb. apply Hk2. eapply below_trans; [|exact Hb].
    unfold q. exists [name]. by rewrite <- app_assoc. }
  assert (Hown : ∀ k, ¬ own root (ID st) k → move (tmp_at root (ID st)) q d1 !! k = d !! k).
  { intros k Hk. apply Hlook; intros Hb; apply Hk; [by left|right]. eapply below_trans; [apply below_app|exact Hb]. }
  assert (Hrawfin : ¬ below (fin ++ ["raw"])%list fin).
  { intros Hb%prefix_length. rewrite length_app in Hb. cbn in Hb. lia. }
  unfold room. split_and!; [by eexists| | | | |].
  - rewrite Hlook; [done| |].
    + intros [l E]. unfold tmp_at in E. by destruct (tmp_area root).
    + intros [l E]. by destruct fin.
  - intros k Hk. destruct (Hf k Hk) as [->|E]; [by left|right]. rewrite Hown; [done|]. by apply (region_base _ _ (own_region root (ID st))).
  - intros k [l ->]. rewrite Hown by by apply final_not_own. apply Hfree, below_app.
  - rewrite Hlook; [done| |done]. rewrite <- (app_nil_r fin). apply Htmpraw.
  - intros k Hk. rewrite Hlook.
    + destruct Hk as [[l ->]|[l ->]]; rewrite <- app_assoc; apply Hin.
    + destruct Hk as [[l ->]|[l ->]]; rewrite <- app_assoc; apply Htmpraw.
    + destruct Hk as [[l ->]|[l ->]]; rewrite <- app_assoc; intros Hb%below_sibling; done.
Qed.

Lemma finalize_succeeds (data : bytes) (d : disk) :
  room d → uploaded data d → Shape (Meta st) = Some MediaRaw → name ≠ "." →
  Z.of_nat (length data) = SUploadLength st → decode_hex (bytes_of_string (USHA256 (Meta st))) = Some (sha256 (Hashed st)) →
  under hstep (Finalize cfg st deliveredBy) d (λ _ r, ∃ rc, r = Ok rc).
Proof using Hroot Hid Hgood Haid Hmarshal.
  intros (Hnil & Hf & Hfree) [Htmp Hfin] Hshape Hname Hlen Hsha. destruct (fin_absolute root (ID st) Hroot Hid) as [_ Hfinc].
  unfold Finalize. cbn zeta. rewrite (proj2 (String.eqb_neq (UMediaType (Meta st)) _)).
  2: { intros E. unfold Shape in Hshape. rewrite E in Hshape. by vm_compute in Hshape. }
  cbn [andb]. rewrite Hsha, bool_decide_true by done. cbn [negb].
  apply under_bind. intros fi s1 [[-> Hfi] Hok]. rewrite comps_tmp in Hfi by done. cbn [under].
  destruct fi as [[isdir size]| |]; [|by destruct Hfi as [Hfi _]; congruence|done].
  destruct isdir; [destruct Hfi as [E|E]; [unfold tmp_at in E; by destruct (tmp_area root)|congruence]|].
  destruct Hfi as (x & Hx & ->). assert (x = data) as -> by congruence. rewrite Hlen, Z.eqb_refl. cbn [negb].
  destruct fin_parent as [Hpar Hne].
  assert (Hnofile : d !! fin = None) by apply Hfin, below_refl.
  assert (Harea : folders (λ q, below q (tmp_area root)) d) by (intros q Hq; apply Hf; by left).
  set (d1 := <[fin := Folder]> d). assert (Hmk : mkdirs fin d = d1) by (unfold d1, fin_at in *; by apply mkdirs_next).
  apply under_guarded, h_mkdir; rewrite Hfinc.
  { intros q Hq [y Hy]. unfold fin_at in Hq. destruct (below_snoc _ _ _ Hq) as [->|Hq2]; [unfold fin_at in Hnofile; congruence|].
    by apply (clear_folders _ _ Hnil Harea q Hq2); exists y. }
  rewrite Hmk. apply under_guarded, h_chmod. apply under_bind. intros now s2 ->. cbn [under]. rewrite Hshape.
  assert (Hother : ∀ k, k ≠ fin → d1 !! k = d !! k) by (intros k Hk; unfold d1; by rewrite lookup_insert_ne by done).
  apply under_bind. eapply under_mono; [|apply (stage_raw_succeeds _ data)].
  - intros s r ((rc & ->) & Hr & Hsf & Hmd). eapply under_mono; [|by apply publish_succeeds]. intros s3 r ->. by exists rc.
  - unfold room. split_and!.
    + rewrite Hother; [done|]. intros E. by apply Hne.
    + intros q Hq. destruct (Hf q Hq) as [->|E]; [by left|right]. rewrite Hother; [done|]. intros ->. congruence.
    + intros k Hk. rewrite Hother; [by apply Hfree|]. intros ->. by apply (proj2 fin_final).
  - rewrite Hother; [done|]. intros E. congruence.
  - unfold d1. by rewrite lookup_insert_eq.
  - intros x l. rewrite Hother; [apply Hfin, below_app|]. intros E%(f_equal length). rewrite length_app in E. cbn in E. lia.
  - done.
Qed.
End complete.

(** ** The last PATCH of an upload *)

Section last_patch.
Context {lib : ArchiveLib} (cfg : HandlerConfig).
Abbreviation root := (HStagingRoot cfg).

(** A well-formed PATCH request on an upload, at its offset. *)
Record good_patch (r : Request) (id : string) (st : UploadState) : Prop := {
  gp_path : extractUploadID (URLPath r) = id;
  gp_source : DeliveredBy r = Some (SourceID st);
  gp_tus : tus_ok r = true;
  gp_type : header r "Content-Type" = patchContentType;
  gp_offset : atoi (header r "Upload-Offset") = Some (Offset st);
  gp_end : BEnd (RBody r) = BodyEOF;
}.

Lemma copy_chunks_succeeds (tmpPath : string) (tail : bytes) (chunks : list bytes) : ∀ limit landed d,
  under hstep (copy_chunks tmpPath landed limit chunks tail BodyEOF) d (λ _ r, r.2 = None).
Proof using Type.
  assert (Hw : ∀ c d, under hstep (write_chunk tmpPath c) d (λ _ ok, ok = true)).
  { intros [|x c] d; [done|]. unfold write_chunk. apply under_bind. intros n s [_ ->]. cbn [under].
    by rewrite (proj2 (Nat.ltb_ge _ _)). }
  induction chunks as [|c rest IH]; intros [|limit] landed d; cbn [copy_chunks]; try done.
  - apply under_bind. eapply under_mono; [|apply Hw]. intros s ok ->. cbn [negb under snd]. by destruct (_ <? _)%nat.
  - apply under_bind. eapply under_mono; [|apply Hw]. intros s ok ->. apply IH.
Qed.

(** Its answer, once all the bytes are there. *)
Lemma finalize_answers (s : Store) (r : Request) (st : UploadState) (f : bytes) (d : disk) :
  absolute root → (∀ rc, is_Some (MarshalReceipt rc)) → plain_name (ID st) = true → good_fields (Meta st) →
  plain_name (ArchiveID st) = true → DeliveredBy r = Some (SourceID st) → (SUploadLength st < 2 ^ 62)%Z →
  room (finalize_config cfg) st d → uploaded (finalize_config cfg) st f d →
  Shape (Meta st) = Some MediaRaw → UArchiveFilename (Meta st) ≠ "." → Z.of_nat (length f) = SUploadLength st →
  decode_hex (bytes_of_string (USHA256 (Meta st))) = Some (sha256 (Hashed st)) →
  under hstep (finalizeAndRespond cfg s r (ID st) st) d (λ d' x,
    Status x.2 = 204%Z ∧ uploads x.1 !! ID st = None ∧
    d' !! (final_at root (ArchiveID st) ++ ["raw"; UArchiveFilename (Meta st)])%list = Some (File f) ∧
    ∃ rc mb, d' !! (final_at root (ArchiveID st) ++ ["metadata.json"])%list = Some (File mb) ∧ MarshalReceipt rc = Some mb ∧
      RSizeBytes rc = SUploadLength st ∧ RSHA256 rc = USHA256 (Meta st) ∧ RDeliveredBy rc = SourceID st).
Proof using Type.
  intros Hroot Hmarshal Hid Hgood Haid Hby Hlen2 Hroom Hupl Hshape Hname Hlen Hsha.
  unfold finalizeAndRespond. apply under_bind. rewrite Hby. set (fcfg := finalize_config cfg) in *.
  pose proof (finalize_succeeds fcfg st (Some (SourceID st)) Hroot Hid Hgood Haid Hmarshal f d Hroom Hupl Hshape Hname Hlen Hsha) as F1.
  assert (F2 : under hstep (Finalize fcfg st (Some (SourceID st))) d (finalized fcfg st (Some (SourceID st)) d)).
  { apply (under_step_mono (Σ := archive_sig) hstep dstep); [apply hstep_dstep|].
    apply (Finalize_safely fcfg st (Some (SourceID st)) Hroot Hid Hgood Haid d); [apply Hroom| |lia].
    rewrite (proj1 Hupl). done. }
  eapply under_mono; [|exact (under_and _ _ _ _ _ F1 F2)]. intros d' res [[rc ->] (_ & ((now & n & raw & Hrc) & _) & Hpub)].
  cbn [under fst snd Status reply]. assert (Hcont : tmp_content fcfg st d = f) by (unfold tmp_content; by rewrite (proj1 Hupl)).
  rewrite Hcont in Hpub. split_and!; [done|by rewrite remove_uploads, lookup_delete_eq| |].
  - pose proof (pub_content _ _ _ _ _ _ Hpub) as Hst. unfold staged_content in Hst. rewrite Hshape in Hst. apply Hst.
  - destruct (pub_receipt _ _ _ _ _ _ Hpub) as (mb & Hmb & Hfile). exists rc, mb. split_and!; [done|done| | |].
    all: rewrite Hrc; unfold receipt_skeleton; by destruct (scannerLanePolicy _ _).
Qed.

(** C28. An upload that can be published is.  On a disk that fails only where
    it must, with the upload's temporary file there, its archive id free and
    receipts that can be written, a PATCH with the rest of a raw file whose
    digest is the announced one is answered 204, the upload leaves the
    table, and the archive's folder then holds the file, whole, and a
    receipt that says so. *)
Theorem raw_upload_completes (known : string → Prop) (s : Store) (r : Request) (id : string) (st : UploadState) (f : bytes) (d : disk) :
  absolute root → (∀ rc, is_Some (MarshalReceipt rc)) →
  service_ok root known s d → uploads s !! id = Some st → good_patch r id st →
  room (finalize_config cfg) st d → uploaded (finalize_config cfg) st (Hashed st) d →
  Shape (Meta st) = Some MediaRaw → UArchiveFilename (Meta st) ≠ "." →
  f = (Hashed st ++ body_bytes (RBody r))%list → Z.of_nat (length f) = SUploadLength st →
  decode_hex (bytes_of_string (USHA256 (Meta st))) = Some (sha256 f) →
  under hstep (patch cfg s r) d (λ d' x,
    Status x.2 = 204%Z ∧ uploads x.1 !! id = None ∧
    d' !! (final_at root (ArchiveID st) ++ ["raw"; UArchiveFilename (Meta st)])%list = Some (File f) ∧
    ∃ rc mb, d' !! (final_at root (ArchiveID st) ++ ["metadata.json"])%list = Some (File mb) ∧ MarshalReceipt rc = Some mb ∧
      RSizeBytes rc = SUploadLength st ∧ RSHA256 rc = USHA256 (Meta st) ∧ RDeliveredBy rc = SourceID st).
Proof using Type.
  intros Hroot Hmarshal Hs Hst [P1 P2 P3 P4 P5 P6] (Hnil & Hf & Hfree) [Htmp Hfin] Hshape Hname Hfull Hlen Hsha.
  pose proof (sv_uploads _ _ _ _ Hs _ _ Hst) as Hup. pose proof (so_ids s (sv_store _ _ _ _ Hs) id st Hst) as Hidst.
  pose proof (uo_id _ _ _ _ Hup) as [Hid _]. pose proof (uo_meta _ _ _ _ Hup) as Hgood.
  pose proof (uo_offset _ _ _ _ Hup) as Ho. pose proof (uo_bound _ _ _ _ Hup) as Hb.
  assert (Haid : plain_name (ArchiveID st) = true) by (rewrite (uo_archive _ _ _ _ Hup); apply good_id_plain; apply Hgood).
  unfold patch, with_upload. rewrite P3. cbn [negb]. unfold require_source. rewrite P2, P1.
  rewrite (proj2 (String.eqb_neq id "")) by (intros E; rewrite Hidst, E in Hid; done).
  unfold Get. rewrite Hst, String.eqb_refl. cbn [negb]. rewrite P4, String.eqb_refl. cbn [negb].
  rewrite (proj2 (String.eqb_neq (header r "Upload-Offset") "")) by (intros E; by rewrite E in P5).
  rewrite P5. rewrite (proj2 (Z.ltb_ge (Offset st) 0)) by lia.
  apply under_bind. intros locked d1 [-> ->]. cbn [under negb]. unfold patch_locked. rewrite Z.eqb_refl. cbn [negb].
  assert (Hc : comps (tmp_path root id) = tmp_at root (ID st)) by (rewrite <- Hidst; by apply comps_tmp).
  change (d !! tmp_at root (ID st) = Some (File (Hashed st))) in Htmp.
  apply under_bind. intros opened d1 [[_ ->] Hop]. rewrite Hop by (rewrite Hc; by eexists). cbn [under negb].
  apply under_bind. rewrite P6.
  pose proof (copy_chunks_succeeds (tmp_path root id) (BTail (RBody r)) (BChunks (RBody r)) (Z.to_nat (SUploadLength st - Offset st)) [] d) as K1.
  pose proof (under_step_mono hstep dstep _ _ _ hstep_dstep
    (copy_chunks_spec (tmp_path root id) BodyEOF (BTail (RBody r)) (BChunks (RBody r)) (Z.to_nat (SUploadLength st - Offset st)) [] d)) as K2.
  eapply under_mono; [|exact (under_and _ _ _ _ _ K1 K2)]. clear K1 K2.
  intros d2 [landed err] [Herr (got & extra & Hl & Hd2 & Hpre & Hgot)]. cbn [fst snd app] in *. subst err landed.
  destruct (Hgot eq_refl) as [-> ->]. clear Hgot Hpre. change (concat (BChunks (RBody r)) ++ BTail (RBody r))%list with (body_bytes (RBody r)) in *.
  rewrite take_ge in * by (apply (f_equal length) in Hfull; rewrite length_app in Hfull; lia).
  rewrite app_nil_r, Hc in Hd2. apply under_bind. intros now d3 ->. cbn [under]. cbv zeta.
  set (body := body_bytes (RBody r)) in *. set (st2 := set_progress _ _ _ _).
  assert (Hbl : Z.of_nat (length body) = (SUploadLength st - Offset st)%Z).
  { apply (f_equal length) in Hfull. rewrite length_app in Hfull. lia. }
  apply under_bind. intros closed d4 [-> _]. rewrite (proj2 (Z.leb_le (SUploadLength st2) (Offset st2))) by (cbn; lia).
  assert (Hd2tmp : d2 !! tmp_at root (ID st) = Some (File f)).
  { rewrite Hd2, append_lookup, decide_True, Htmp by done. by rewrite Hfull. }
  assert (Hother : ∀ k, k ≠ tmp_at root (ID st) → d2 !! k = d !! k) by (intros k Hk; by rewrite Hd2, append_lookup, decide_False).
  assert (Hroom : room (finalize_config cfg) st2 d2).
  { unfold room. split_and!.
    - rewrite Hother; [done|]. unfold tmp_at. by destruct (tmp_area root).
    - intros q Hq. destruct (Hf q Hq) as [->|E]; [by left|right]. rewrite Hother; [done|]. intros ->. congruence.
    - intros k Hk. rewrite Hother; [by apply Hfree|]. intros ->. rewrite Hfree in Htmp; [done|exact Hk]. }
  assert (Hupl : uploaded (finalize_config cfg) st2 f d2).
  { split; [exact Hd2tmp|]. intros k Hk. rewrite Hother; [by apply Hfin|]. intros ->. rewrite Hfin in Htmp; [done|exact Hk]. }
  rewrite <- Hidst in *. change (ID st) with (ID st2). eapply (finalize_answers (update s st2) r st2 f d2);
    [done|done|done|done|done|exact P2|cbn; lia|exact Hroom|exact Hupl|exact Hshape|exact Hname|exact Hlen|cbn; by rewrite Hsha, Hfull].
Qed.
End last_patch.
