(* ===== verification/AExample.v ===== *)
(** The archive service on a concrete disk: a start, a POST and a PATCH, and
    the theorems of the A files at it. *)
From S2P Require Import Prelude GoStrings GoFloat GoPath Utf8 EDecode ESign DSubject Effects ADisk AMeta ATar ATarFacts AStore AFinalize AHandler AFinalizeFacts AUploads AUpkeep AListener AProtocol AComplete.
Local Open Scope string_scope.

(** A digest, receipts and archives that compute. *)
#[local] Instance ex_lib : ArchiveLib := {|
  sha256 := λ b, take 32 (b ++ repeat 0%Z 32)%list;
  MarshalReceipt := λ rc, Some (bytes_of_string (RDeliveredBy rc));
  UnmarshalReceipt := λ b, Some (mkReceipt "a1" 0 (string_of_bytes b) None "" "" "" 0 "" true "" 0 "" None "" None);
  ReadTar := λ _, mkStream [] false;
  FormatScore := λ _, "0";
|}.

Definition ex_cfg : ArchiveListenerConfig := mkListenerConfig "/s" 0 1000 (mkStoreConfig 4 32) None None.
Definition ex_hcfg : HandlerConfig := handler_config ex_cfg.

Definition ex_file : bytes := [7; 9]%Z.
Definition ex_sha : string := string_of_bytes (hex_encode (sha256 ex_file)).

Definition ex_pairs : list (string * string) :=
  [("archive_id", "a1"); ("archive_filename", "f.mbox"); ("media_type", "archive/mbox"); ("matcher_id", "m");
   ("provider", "google"); ("sha256", ex_sha); ("size_bytes", "2")].

(** The source's token, as a request carries it. *)
Definition ex_token : bytes := repeat 0%Z 32.
Definition ex_token_text : string := string_of_bytes (hex_encode ex_token).
Definition ex_bearer : string * string := ("Authorization", "Bearer " ++ ex_token_text).

Definition ex_post : Request :=
  mkRequest "POST" "/v1/archives"
    (list_to_map [ex_bearer; ("Tus-Resumable", "1.0.0"); ("Upload-Length", "2"); ("Upload-Metadata", write_pairs ex_pairs)])
    (Some "src") (mkBody [] [] BodyEOF).

Definition ex_id : string := string_of_bytes (hex_encode (repeat 0%Z 16)).

Definition ex_patch (src : string) : Request :=
  mkRequest "PATCH" ("/v1/archives/" ++ ex_id)
    (list_to_map [ex_bearer; ("Tus-Resumable", "1.0.0"); ("Content-Type", patchContentType); ("Upload-Offset", "0")])
    (Some src) (mkBody [[7]; [9]]%Z [] BodyEOF).

Definition ex_quote : string → string := λ s, s.
Definition ex_by : bytes → option string := λ _, None.

(** ** The run *)

Definition ex_start : option (disk * option (Store * QuotaState)) := simulate (StartArchiveListener ex_cfg true) ∅.
Definition ex_serve (r : Request) (s : Store) (d : disk) : option (disk * handler_result) :=
  match serve ex_quote ex_hcfg false s r with Some p => simulate p d | None => None end.

Definition ex_1 : disk * option (Store * QuotaState) := default (∅, None) ex_start.
Definition ex_none : disk * handler_result := (∅, (NewStore (LStore ex_cfg), precondition_failed)).
Definition ex_s1 : Store := match ex_1.2 with Some (s, _) => s | None => NewStore (LStore ex_cfg) end.
Definition ex_2 : disk * handler_result := default ex_none (ex_serve ex_post ex_s1 ex_1.1).
Definition ex_3 : disk * handler_result := default ex_none (ex_serve (ex_patch "src") ex_2.2.1 ex_2.1).

Definition ran {A : Type} (x : option A) : bool := match x with Some _ => true | None => false end.

Lemma ran_default {A : Type} (x : option A) (a : A) : ran x = true → x = Some (default a x).
Proof. by destruct x. Qed.

Lemma ex_run : ran ex_start && ran ex_1.2 && ran (ex_serve ex_post ex_s1 ex_1.1) && ran (ex_serve (ex_patch "src") ex_2.2.1 ex_2.1) = true.
Proof. vm_compute. reflexivity. Qed.

Lemma ex_answers : Status ex_2.2.2 = 201%Z ∧ Status ex_3.2.2 = 204%Z.
Proof. vm_compute. done. Qed.

Lemma ex_serve_exec (r : Request) (s : Store) (d : disk) (x : disk * handler_result) :
  ex_serve r s d = Some x → ∃ p, serve ex_quote ex_hcfg false s r = Some p ∧ exec dstep p d x.1 x.2.
Proof.
  unfold ex_serve. destruct (serve _ _ _ _ _) as [p|]; [|done]. destruct x as [d' y]. intros H. exists p.
  split; [done|]. by apply exec_dstep, simulate_exec.
Qed.

(** The quota state lets uploads in. *)
Lemma start_quota (loaded : bool) (d d' : disk) (up : option (Store * QuotaState)) :
  simulate (StartArchiveListener ex_cfg loaded) d = Some (d', up) → ∀ s q, up = Some (s, q) → q = NewQuotaState.
Proof.
  intros H%simulate_exec%exec_dstep. assert (Hu : under dstep (StartArchiveListener ex_cfg loaded) d (λ _ up, ∀ s q, up = Some (s, q) → q = NewQuotaState)).
  { apply under_bind, under_true. intros s [] ; cbn; [|done]. destruct loaded; cbn; [by intros ? ? [= _ <-]|done]. }
  by eapply under_exec in Hu.
Qed.

Abbreviation ex_acts := [AStart true; AServe ex_post ex_2.2.2; AServe (ex_patch "src") ex_3.2.2].

(** The three steps. *)
Lemma ex_started :
  exec dstep (StartArchiveListener ex_cfg true) ∅ ex_1.1 ex_1.2 ∧ started ex_1.2 = Running ex_s1 NewQuotaState ∧ is_Some ex_1.2.
Proof.
  pose proof ex_run as H. rewrite !andb_true_iff in H. destruct H as [[[H1 H2] _] _].
  apply (ran_default _ (∅, None)) in H1. change (default (∅, None) ex_start) with ex_1 in H1.
  assert (Hs : simulate (StartArchiveListener ex_cfg true) ∅ = Some (ex_1.1, ex_1.2)) by (rewrite <- surjective_pairing; exact H1).
  split_and!; [by apply exec_dstep, simulate_exec| |by destruct ex_1.2].
  unfold ex_s1. destruct ex_1.2 as [[s q]|] eqn:E; [|done]. cbn. by rewrite (start_quota _ _ _ _ Hs s q eq_refl).
Qed.

Lemma ex_posted : sstep ex_quote ex_by ex_cfg (Running ex_s1 NewQuotaState, ex_1.1) (AServe ex_post ex_2.2.2) (Running ex_2.2.1 NewQuotaState, ex_2.1).
Proof.
  pose proof ex_run as H. rewrite !andb_true_iff in H. destruct H as [[_ H3] _]. apply (ran_default _ ex_none) in H3.
  apply ex_serve_exec in H3 as (p & Hp & He). eapply serve_alone; [exact Hp|]. rewrite <- surjective_pairing. exact He.
Qed.

Lemma ex_patched :
  sstep ex_quote ex_by ex_cfg (Running ex_2.2.1 NewQuotaState, ex_2.1) (AServe (ex_patch "src") ex_3.2.2) (Running ex_3.2.1 NewQuotaState, ex_3.1).
Proof.
  pose proof ex_run as H. rewrite !andb_true_iff in H. destruct H as [_ H4]. apply (ran_default _ ex_none) in H4.
  apply ex_serve_exec in H4 as (p & Hp & He). eapply serve_alone; [exact Hp|]. rewrite <- surjective_pairing. exact He.
Qed.

Lemma ex_history2 : history ex_quote ex_by ex_cfg ∅ (Running ex_2.2.1 NewQuotaState, ex_2.1) [AStart true; AServe ex_post ex_2.2.2].
Proof.
  apply (HStep _ _ _ _ (Running ex_s1 NewQuotaState, ex_1.1) [AStart true]); [|apply ex_posted].
  apply (HStep _ _ _ _ (Down, ∅) []); [constructor|]. destruct ex_started as (He & Hst & Hup).
  pose proof (SStart ex_quote ex_by ex_cfg true ∅ ex_1.1 ex_1.2 He) as Hstep. rewrite Hst, bool_decide_true in Hstep; [exact Hstep|exact Hup].
Qed.

Lemma ex_history : history ex_quote ex_by ex_cfg ∅ (Running ex_3.2.1 NewQuotaState, ex_3.1) ex_acts.
Proof. apply (HStep _ _ _ _ (Running ex_2.2.1 NewQuotaState, ex_2.1) [AStart true; AServe ex_post ex_2.2.2] _ _ ex_history2). apply ex_patched. Qed.

Lemma ex_root : absolute "/s".
Proof. exists ["s"]. split; [by repeat constructor|done]. Qed.

Lemma ex_empty : archives_sound "/s" (λ _, False) ∅.
Proof. intros aid _ [n Hn]. by rewrite lookup_empty in Hn. Qed.

Lemma ex_service : service_ok "/s" (λ src, False ∨ asked [AStart true; AServe ex_post ex_2.2.2] src) ex_2.2.1 ex_2.1.
Proof.
  destruct (history_sound ex_quote ex_by ex_cfg ex_root ltac:(done) (λ _, False) ∅ _ _ ex_empty ex_history2) as [H _].
  exact H.
Qed.

(** The upload that the POST made. *)
Definition ex_st : UploadState :=
  default (mkUpload "" "" "" 0 0 [] (mkUploadMeta "" "" "" "" "" "" "" 0 "" "" "" "" None) 0 0) (uploads ex_2.2.1 !! ex_id).
Lemma ex_upload : uploads ex_2.2.1 !! ex_id = Some ex_st.
Proof. apply ran_default. by vm_compute. Qed.
Lemma ex_upload_facts :
  ID ex_st = ex_id ∧ SourceID ex_st = "src" ∧ ArchiveID ex_st = "a1" ∧ SUploadLength ex_st = 2%Z ∧ Offset ex_st = 0%Z ∧ Hashed ex_st = [] ∧
  UArchiveFilename (Meta ex_st) = "f.mbox" ∧ UMediaType (Meta ex_st) = "archive/mbox" ∧ USHA256 (Meta ex_st) = ex_sha.
Proof. vm_compute. done. Qed.

(** ** The theorems at the run *)

Lemma published_archives_are_verified_witness :
  is_Some (ex_3.1 !! final_at "/s" "a1") ∧ verified_archive "/s" (asked ex_acts) "a1" ex_3.1.
Proof.
  assert (H : is_Some (ex_3.1 !! final_at "/s" "a1")) by (vm_compute; by eexists).
  split; [exact H|].
  apply (published_archives_are_verified ex_quote ex_by ex_cfg ex_root ltac:(done) ∅ (Running ex_3.2.1 NewQuotaState, ex_3.1) ex_acts "a1");
    [done|apply ex_history|done|exact H].
Defined.

Lemma concurrency_caps_hold_witness :
  (Z.of_nat (size (uploads ex_3.2.1)) ≤ 32)%Z ∧ in_flight ex_3.2.1 "src" = Z.of_nat (size (of_source "src" ex_3.2.1)).
Proof.
  destruct (concurrency_caps_hold ex_quote ex_by ex_cfg ex_root ltac:(done) (λ _, False) ∅ ex_3.2.1 NewQuotaState ex_3.1 ex_acts "src") as (H1 & _ & H3).
  - apply ex_empty.
  - apply ex_history.
  - split; [exact H1|exact H3].
Defined.

Lemma cap_trips_and_lifts_witness :
  blocked_after (quota_config ex_cfg) false [float64 50; float64 96; float64 90] = true ∧
  blocked_after (quota_config ex_cfg) false [float64 96; float64 85; float64 90] = false.
Proof.
  split.
  - apply (cap_trips_and_lifts (quota_config ex_cfg)); [by vm_compute|].
    exists [float64 50], (float64 96), [float64 90]. split_and!; [done|by vm_compute|]. repeat constructor; by vm_compute.
  - by vm_compute.
Defined.

Lemma metadata_pairs_round_trip_witness :
  decodeMetadataPairs (write_pairs ex_pairs) = Ok (foldl (λ out kv, <[kv.1 := kv.2]> out) ∅ ex_pairs).
Proof.
  apply (metadata_pairs_round_trip ex_pairs). repeat constructor; cbn; by vm_compute.
Defined.

Lemma others_uploads_do_not_show_witness :
  ∃ resp, serve ex_quote ex_hcfg false ex_2.2.1 (ex_patch "other") = Some (Ret (ex_2.2.1, resp)) ∧
          serve ex_quote ex_hcfg false ex_s1 (ex_patch "other") = Some (Ret (ex_s1, resp)).
Proof.
  assert (Hup : match uploads ex_2.2.1 !! ex_id with Some st => String.eqb (SourceID st) "src" | None => false end = true) by by vm_compute.
  destruct (uploads ex_2.2.1 !! ex_id) as [st|] eqn:E; [|done]. apply String.eqb_eq in Hup.
  apply (others_uploads_do_not_show ex_quote ex_hcfg false ex_2.2.1 ex_s1 (ex_patch "other") "other" ex_id st).
  - split_and!; [by vm_compute|by vm_compute|]. right. left.
  - done.
  - exact E.
  - by rewrite Hup.
  - by vm_compute.
Defined.

Lemma others_archives_do_not_show_witness :
  under hstep (get ex_hcfg ex_3.2.1 (mkRequest "GET" "/v1/archives/a1" ∅ (Some "other") (mkBody [] [] BodyEOF))) ex_3.1
    (λ d' x, d' = ex_3.1 ∧ x = (ex_3.2.1, writeErrorJSON 404 "archive_not_found")).
Proof.
  assert (Hmd : match ex_3.1 !! (final_at "/s" "a1" ++ ["metadata.json"])%list with
    | Some (File data) => match UnmarshalReceipt data with Some rc => String.eqb (RDeliveredBy rc) "src" | None => false end
    | _ => false end = true) by by vm_compute.
  destruct (ex_3.1 !! (final_at "/s" "a1" ++ ["metadata.json"])%list) as [[|data]|] eqn:E; [done| |done].
  destruct (UnmarshalReceipt data) as [rc|] eqn:Er; [|done]. apply String.eqb_eq in Hmd.
  assert (Hne : RDeliveredBy rc ≠ "other") by by rewrite Hmd.
  assert (H1 : extractUploadID "/v1/archives/a1" = "a1") by by vm_compute. assert (H2 : only_dots "a1" = false) by by vm_compute.
  set (r := mkRequest "GET" _ _ _ _). assert (H3 : DeliveredBy r = Some "other") by reflexivity.
  exact (proj1 (others_archives_do_not_show ex_hcfg ex_3.2.1 r "other" "a1" ex_3.1 data rc ex_root H3 H1 H2 E Er Hne)).
Defined.

Lemma lost_file_keeps_the_slot_witness :
  under dstep (patch ex_hcfg ex_2.2.1 (ex_patch "src")) ∅ (λ d' x, d' = ∅ ∧ x.1 = ex_2.2.1 ∧ (400 ≤ Status x.2)%Z).
Proof.
  apply (lost_file_keeps_the_slot ex_hcfg ex_2.2.1 (ex_patch "src") ex_id ∅); [apply ex_root|by vm_compute|by vm_compute|done].
Defined.

Lemma ex_stored : stored ex_hcfg ex_2.1 ex_st.
Proof. unfold stored. destruct ex_upload_facts as (_ & _ & _ & _ & _ & -> & _). vm_compute. reflexivity. Qed.

Lemma patches_resume_witness :
  under dstep (patch ex_hcfg ex_2.2.1 (ex_patch "src")) ex_2.1 (λ d' x, ∀ st', uploads x.1 !! ex_id = Some st' →
    resumable ex_hcfg ex_file (body_bytes (RBody (ex_patch "src"))) ex_st st' x.2 d') ∧
  under whole_writes (patch ex_hcfg ex_2.2.1 (ex_patch "src")) ex_2.1 (λ d' x, ∀ st', uploads x.1 !! ex_id = Some st' →
    stored ex_hcfg d' st').
Proof.
  apply (patches_resume ex_hcfg _ ex_2.2.1 (ex_patch "src") ex_id ex_st ex_file ex_2.1 ex_root ex_service ex_upload).
  - by vm_compute.
  - apply ex_stored.
  - destruct ex_upload_facts as (_ & _ & _ & _ & _ & -> & _). apply prefix_nil.
  - intros off E. vm_compute in E. injection E as <-. exists []. by vm_compute.
Defined.

Lemma free_below (p : path) (d : disk) : bool_decide (map_Forall (λ k (_ : node), ¬ below p k) d) = true → ∀ k, below p k → d !! k = None.
Proof.
  intros H%bool_decide_eq_true k Hk. destruct (d !! k) as [n|] eqn:E; [|done]. exfalso. by apply (H k n E).
Qed.

Lemma folders_below (p : path) (d : disk) :
  bool_decide (Forall (λ k, is_folder d (take k p)) (seq 0 (S (length p)))) = true → folders (λ q, below q p) d.
Proof.
  intros H%bool_decide_eq_true q [l ->]. rewrite Forall_forall in H. specialize (H (length q)). rewrite take_app_length in H.
  apply H, elem_of_seq. rewrite length_app. lia.
Qed.

Lemma ex_areas : folders (areas "/s") ex_2.1.
Proof. intros q [Hq|Hq]; (eapply folders_below; [|exact Hq]); vm_compute; reflexivity. Qed.

Lemma ex_file_there : ex_2.1 !! tmp_at "/s" ex_id = Some (File []).
Proof. vm_compute. reflexivity. Qed.

Lemma ex_sha_good : decode_hex (bytes_of_string ex_sha) = Some (sha256 ex_file).
Proof. vm_compute. reflexivity. Qed.

Lemma raw_upload_completes_witness :
  under hstep (patch ex_hcfg ex_2.2.1 (ex_patch "src")) ex_2.1 (λ d' x,
    Status x.2 = 204%Z ∧ uploads x.1 !! ex_id = None ∧ d' !! (final_at "/s" "a1" ++ ["raw"; "f.mbox"])%list = Some (File ex_file)).
Proof.
  destruct ex_upload_facts as (U1 & U2 & U3 & U4 & U5 & U6 & U7 & U8 & U9).
  assert (Hm : ∀ rc, is_Some (MarshalReceipt rc)) by (intros rc; by eexists).
  assert (Hp : good_patch (ex_patch "src") ex_id ex_st).
  { constructor; [by vm_compute|rewrite U2; reflexivity|by vm_compute|by vm_compute|rewrite U5; by vm_compute|reflexivity]. }
  assert (Hr : room (finalize_config ex_hcfg) ex_st ex_2.1).
  { split_and!; [by vm_compute|apply ex_areas|]. rewrite U3. apply free_below. by vm_compute. }
  assert (Hu : uploaded (finalize_config ex_hcfg) ex_st (Hashed ex_st) ex_2.1).
  { split; [rewrite U1, U6; apply ex_file_there|]. rewrite U1. apply free_below. by vm_compute. }
  assert (Hs : Shape (Meta ex_st) = Some MediaRaw) by (unfold Shape; rewrite U8; by vm_compute).
  assert (Hn : UArchiveFilename (Meta ex_st) ≠ ".") by by rewrite U7.
  assert (Hf : ex_file = (Hashed ex_st ++ body_bytes (RBody (ex_patch "src")))%list) by (rewrite U6; reflexivity).
  assert (Hl : Z.of_nat (length ex_file) = SUploadLength ex_st) by (rewrite U4; reflexivity).
  assert (Hh : decode_hex (bytes_of_string (USHA256 (Meta ex_st))) = Some (sha256 ex_file)) by (rewrite U9; apply ex_sha_good).
  pose proof (raw_upload_completes ex_hcfg _ ex_2.2.1 (ex_patch "src") ex_id ex_st ex_file ex_2.1
    ex_root Hm ex_service ex_upload Hp Hr Hu Hs Hn Hf Hl Hh) as H.
  rewrite U3, U7 in H. eapply under_mono; [|exact H]. intros d' x (H1 & H2 & H3 & _). split_and!; [exact H1|exact H2|exact H3].
Defined.

(** A complete upload, before Finalize. *)
Definition ex_full : UploadState := set_progress 2 ex_file 0 ex_st.
Definition ex_full_disk : disk := <[tmp_at "/s" ex_id := File ex_file]> ex_2.1.

Lemma finalize_all_or_nothing_witness :
  under dstep (Finalize (finalize_config ex_hcfg) ex_full (Some "src")) ex_full_disk
    (finalized (finalize_config ex_hcfg) ex_full (Some "src") ex_full_disk).
Proof.
  pose proof (sv_uploads _ _ _ _ ex_service _ _ ex_upload) as Hup. destruct ex_upload_facts as (U1 & _ & U3 & U4 & _).
  assert (Hid : plain_name (ID ex_full) = true) by (change (ID ex_full) with (ID ex_st); rewrite U1; by vm_compute).
  assert (Haid : plain_name (ArchiveID ex_full) = true) by (change (ArchiveID ex_full) with (ArchiveID ex_st); rewrite U3; by vm_compute).
  assert (Hf : folders (areas "/s") ex_full_disk).
  { intros q [Hq|Hq]; (eapply folders_below; [|exact Hq]); vm_compute; reflexivity. }
  assert (Ht : ex_full_disk !! tmp_at "/s" (ID ex_full) ≠ Some Folder).
  { change (ID ex_full) with (ID ex_st). rewrite U1. unfold ex_full_disk. by rewrite lookup_insert_eq. }
  assert (Hl : (0 ≤ SUploadLength ex_full < 2 ^ 62)%Z) by (change (SUploadLength ex_full) with (SUploadLength ex_st); rewrite U4; lia).
  apply under_exec. exact (proj1 (finalize_all_or_nothing (finalize_config ex_hcfg) ex_full (Some "src") ex_root Hid (uo_meta _ _ _ _ Hup) Haid ex_full_disk Hf Ht Hl)).
Defined.

(** ** An archive on a disk *)

Definition ex_tar : TarStream :=
  mkStream [mkEntry "mail/" TypeDir 0 [] [] false; mkEntry "mail/one.eml" TypeReg 3 [] [1; 2; 3]%Z false] false.
Definition ex_untar : UntarConfig := mkUntarConfig "/s/t" 10 0.
Definition ex_tree : disk := list_to_map [(["s"], Folder); (["s"; "t"], Folder); (["s"; "other"], File [5]%Z)].

Lemma ex_dest : absolute (DestDir ex_untar).
Proof. exists ["s"; "t"]. split; [by repeat constructor|done]. Qed.

Lemma untar_stays_inside_witness :
  always dstep (Untar ex_tar ex_untar) ex_tree (same_outside (comps (DestDir ex_untar)) ex_tree).
Proof. apply (untar_stays_inside ex_tar ex_untar ex_tree); [apply ex_dest|]. apply folders_below. by vm_compute. Defined.

Lemma untar_within_caps_witness :
  always dstep (Untar ex_tar ex_untar) ex_tree (λ d', usedZ d' ≤ usedZ ex_tree + 2 * UploadLength ex_untar + 1)%Z.
Proof. apply (untar_within_caps ex_tar ex_untar ex_tree). by split. Defined.

#[local] Instance fits_dec (cfg : UntarConfig) (es : list TarEntry) : ∀ d room, Decision (fits cfg d room es).
Proof.
  induction es as [|e es IH]; intros d room; [by left|]. cbn [fits].
  assert (Decision (check_header e = None)) by (destruct (check_header e); [by right|by left]).
  destruct (is_dir e); apply _.
Defined.

Lemma untar_succeeds_witness :
  under hstep (Untar ex_tar ex_untar) ex_tree (λ d' r,
    r = (2, 3, None)%Z ∧ d' = foldl (unpack ex_untar) ex_tree (Entries ex_tar)).
Proof.
  assert (Hfits : fits ex_untar ex_tree (2 * UploadLength ex_untar) (Entries ex_tar)).
  { eapply bool_decide_eq_true_1. vm_compute. reflexivity. }
  apply (untar_succeeds ex_tar ex_untar ex_tree ex_dest); [by split|done|by vm_compute|exact Hfits].
Defined.

(** ** Names that are accepted *)

Definition ex_meta (id name : string) : string :=
  write_pairs ([("archive_id", id); ("archive_filename", name)] ++ drop 2 ex_pairs)%list.

(** The retention folder's name is an archive id. *)
Example retention_folder_is_an_archive_id :
  ∃ m, ParseUploadMetadata ex_quote (ex_meta ".done" "f.mbox") 2 = Ok m ∧ UArchiveID m = ".done".
Proof. eexists. split; [vm_compute; reflexivity|reflexivity]. Qed.

(** A file name is accepted that no raw file can have. *)
Example dot_is_a_file_name :
  ∃ m, ParseUploadMetadata ex_quote (ex_meta "a1" ".") 2 = Ok m ∧ UArchiveFilename m = ".".
Proof. eexists. split; [vm_compute; reflexivity|reflexivity]. Qed.

(** ** A cleanup in the middle of an extraction *)

Definition ex_slow : UntarConfig := mkUntarConfig "/s/.tmp-archives/u.finalize/tree" 10 0.
Definition ex_slow_disk : disk :=
  list_to_map [(["s"], Folder); (["s"; ".tmp-archives"], Folder); (["s"; ".tmp-archives"; "u.finalize"], Folder);
               (["s"; ".tmp-archives"; "u.finalize"; "tree"], Folder)].
Definition ex_one : TarEntry := mkEntry "one.eml" TypeReg 1 [] [1]%Z false.
Definition ex_two : TarEntry := mkEntry "two.eml" TypeReg 1 [] [2]%Z false.

(** When the cleanup removes the folder of an extraction that takes longer
    than the limit for such folders, the extraction goes on in a new one and
    succeeds, without the entries it extracted before. *)
Example cleanup_during_extraction_loses_entries :
  let d1 := from_option fst ∅ (simulate (extract ex_slow 0 ex_one) ex_slow_disk) in
  let d2 := from_option fst ∅ (simulate (do_ (RemoveAll "/s/.tmp-archives/u.finalize")) d1) in
  match simulate (extract ex_slow 1 ex_two) d2 with
  | Some (d3, (_, None)) =>
      bool_decide (d1 !! entry_path ex_slow ex_one = Some (File [1]%Z)) && bool_decide (d3 !! entry_path ex_slow ex_one = None)
      && bool_decide (d3 !! entry_path ex_slow ex_two = Some (File [2]%Z))
  | _ => false
  end = true.
Proof. vm_compute. reflexivity. Qed.
