(* ===== verification/IConfig.v ===== *)
(** internal/config: the configuration of the core, its defaults, the
    environment's overrides and its checks (config.go, journal.go).

    What a check reads (registries, a certificate, the mounted secret) is
    given by functions: the files while the check runs.  JSON decoding, fmt's
    %q and net/url are parameters. *)
From S2P Require Import Prelude GoStrings GoFloat GoPath Utf8 JsonString ESign JRecord JDiff JValue JRules JAccess JCompile.
Local Open Scope string_scope.

(** ** Data *)

Record IngestTLSConfig := mkTLSConfig {
  TLSMode : string;
  TLSPort : Z;
  CertFile : string;
  KeyFile : string;
  ClientCAFile : string;
  TrustDomain : string;
  EnforceSourceMatch : option bool;
}.

Record VaultClientConfig := mkVaultConfig { VaultAddr : string; VaultRole : string; KVMount : string; TokensPath : string }.
Record RateLimitWindowConf := mkWindow { WindowSeconds : Z; MaxRejected : Z; LRUCapacity_ : Z }.

Record IngestAuthConfig := mkAuthConfig {
  AEnabled : bool;
  ASource : string;
  Vault : VaultClientConfig;
  AFilePath : string;
  ReloadIntervalSeconds : Z;
  TrustedProxyCIDRs : list string;
  PerIPRateLimit : RateLimitWindowConf;
  GlobalRateLimit : RateLimitWindowConf;
}.

Record IngestArchivesConfig := mkArchivesConfig {
  ArchivesEnabled : bool;
  ArchiveRoot : string;
  MaxUploadSize : Z;
  ArchivePerSourceMax : Z;
  ArchiveGlobalMax : Z;
  PerSourceSoftCapPct : Z;
  GlobalHardCapPct : Z;
  GlobalHardCapHysteresisPct : Z;
  PatchIdleTimeoutSeconds : Z;
  CleanupIntervalSeconds : Z;
  CleanupTmpAgeHours : Z;
  CleanupFinalizeAgeHours : Z;
  DoneRetentionDays : Z;
}.

Record IngestConfig := mkIngestConfig {
  IEnabled : bool;
  IPort : Z;
  BearerPort : Z;
  MaxBodyBytes : Z;
  MaxMetadataBytes : Z;
  BackpressureThreshold : Z;
  RequestTimeoutSeconds : Z;
  Auth : IngestAuthConfig;
  Archives : IngestArchivesConfig;
  TLS : IngestTLSConfig;
}.

Record RulesSigningConfig := mkSigning { SigMode : string; SigPublicKeyFile : string; SigFile : string }.

Record JournalDatabaseConfig := mkDatabase {
  DHost : string; DPort : Z; DName : string; SSLMode : string; SSLRootCert : string; UserFile : string; PasswordFile : string;
}.
Record JournalRosterConfig := mkRosterConfig { RosterPath : string; RosterFormat : string; RosterReloadSeconds : Z }.

Record JournalConfig := mkJournalConfig {
  JEnabled : bool;
  JPort : Z;
  JRequestTimeoutSeconds : Z;
  Database : JournalDatabaseConfig;
  Roster : JournalRosterConfig;
  RemovalGuard : Guard;
  JScanTimeoutSeconds : Z;
  ScannerVersion : string;
  Services : string;
  RecordTypes : list Type_;
  JRules_ : list Rule;
  StalenessPrefixes : list string;
}.

Record Config := mkConfig {
  StagingDir : string; QuarantineDir : string; AuditDir : string; FailedDir : string; AgentsDir : string; SharedDir : string;
  AgentAllowlist : list string;
  MetricsPort : Z;
  WatchMode : string;
  PollIntervalSeconds : Z;
  RulesFile : string;
  RulesSHA256 : string;
  RulesSigning : RulesSigningConfig;
  ScanWorkers : Z;
  ScanTimeoutSeconds : Z;
  DeliveryTimeoutSeconds : Z;
  ScanChunkSizeBytes : Z;
  SubjectsFile : string;
  SourcesFile : string;
  Ingest : IngestConfig;
  CJournal : JournalConfig;
}.

(** ** Derived settings *)

Definition TLSModeDisabled : string := "disabled".
Definition TLSModePermissive : string := "permissive".
Definition TLSModeRequired : string := "required".

Definition EffectiveBearerPort (c : IngestConfig) : Z := if (BearerPort c =? 0)%Z then IPort c else BearerPort c.
Definition BearerSplit (c : IngestConfig) : bool := negb (BearerPort c =? 0)%Z && negb (BearerPort c =? IPort c)%Z.
Definition BearerRoutesEnabled (c : IngestConfig) : bool := AEnabled (Auth c).

Definition TLSActive (t : IngestTLSConfig) : bool := String.eqb (TLSMode t) TLSModePermissive || String.eqb (TLSMode t) TLSModeRequired.
Definition PlaintextActive (t : IngestTLSConfig) : bool := negb (String.eqb (TLSMode t) TLSModeRequired).
Definition SourceMatchEnforced (t : IngestTLSConfig) : bool :=
  if negb (TLSActive t) then false
  else match EnforceSourceMatch t with None => true | Some b => b end.
Definition EffectiveTrustDomain (t : IngestTLSConfig) : string := if String.eqb (TrustDomain t) "" then "glovebox" else TrustDomain t.

Definition SigningActive (r : RulesSigningConfig) : bool :=
  String.eqb (SigMode r) SigModePermissive || String.eqb (SigMode r) SigModeRequired.
Definition Policy_ (r : RulesSigningConfig) : SignaturePolicy := mkPolicy (SigMode r) (SigPublicKeyFile r) (SigFile r).

(** seconds: clamped into an hour. *)
Definition seconds (n : Z) : Z :=
  let n := if (n <? 0)%Z then 0%Z else n in
  let n := if (3600 <? n)%Z then 3600%Z else n in
  (n * 1000000000)%Z.

Definition JGuard (j : JournalConfig) : Guard := RemovalGuard j.
Definition ScanTimeout (j : JournalConfig) : Z := seconds (JScanTimeoutSeconds j).
Definition RequestTimeout (j : JournalConfig) : Z := seconds (JRequestTimeoutSeconds j).
Definition RosterReload (r : JournalRosterConfig) : Z := seconds (RosterReloadSeconds r).

(** ** Defaults *)

Definition FormatOpenclawHouseholdV1 : string := "openclaw-household-v1".
Definition defaultScannerVersion : string := "core-scan-1".

Definition defaultJournal : JournalConfig :=
  mkJournalConfig false 9095 60 (mkDatabase "" 5432 "glovebox_journal" "require" "" "" "")
    (mkRosterConfig "" FormatOpenclawHouseholdV1 10) (mkGuard point3 3) 10 defaultScannerVersion "" [] [] [].

Definition defaultConfig : Config :=
  mkConfig "" "" "" "" "" "" [] 9090 "fsnotify" 5 "" "" (mkSigning "" "" "") 4 30 30 262144 "" ""
    (mkIngestConfig true 9091 0 67108864 262144 100 60
       (mkAuthConfig false ""
          (mkVaultConfig "http://vault.vault.svc.cluster.local:8200" "glovebox-ingest" "secret" "glovebox/ingest-tokens")
          "" 300 [] (mkWindow 60 10 1000) (mkWindow 60 100 0))
       (mkArchivesConfig false "/data/archive-storage" 32212254720 4 32 40 95 85 300 3600 72 1 7)
       (mkTLSConfig "" 0 "" "" "" "" None))
    defaultJournal.

(** ** Overrides *)

(** strconv.ParseBool *)
Definition ParseBool (s : string) : option bool :=
  if bool_decide (s ∈ ["1"; "t"; "T"; "true"; "TRUE"; "True"]) then Some true
  else if bool_decide (s ∈ ["0"; "f"; "F"; "false"; "FALSE"; "False"]) then Some false
  else None.

Section overrides.
Context (Getenv : string → string).

Definition env_string (name old : string) : string := if String.eqb (Getenv name) "" then old else Getenv name.
Definition env_int (name : string) (old : Z) : Z := if String.eqb (Getenv name) "" then old else default old (atoi (Getenv name)).
Definition env_bool (name : string) (old : bool) : bool := if String.eqb (Getenv name) "" then old else default old (ParseBool (Getenv name)).

Definition ingest_overrides (c : IngestConfig) : IngestConfig :=
  mkIngestConfig (env_bool "GLOVEBOX_INGEST_ENABLED" (IEnabled c)) (env_int "GLOVEBOX_INGEST_PORT" (IPort c)) (BearerPort c)
    (env_int "GLOVEBOX_INGEST_MAX_BODY_BYTES" (MaxBodyBytes c)) (env_int "GLOVEBOX_INGEST_MAX_METADATA_BYTES" (MaxMetadataBytes c))
    (env_int "GLOVEBOX_INGEST_BACKPRESSURE_THRESHOLD" (BackpressureThreshold c))
    (env_int "GLOVEBOX_INGEST_REQUEST_TIMEOUT_SECONDS" (RequestTimeoutSeconds c)) (Auth c) (Archives c) (TLS c).

Definition applyEnvOverrides (c : Config) : Config :=
  mkConfig (env_string "GLOVEBOX_STAGING_DIR" (StagingDir c)) (env_string "GLOVEBOX_QUARANTINE_DIR" (QuarantineDir c))
    (env_string "GLOVEBOX_AUDIT_DIR" (AuditDir c)) (env_string "GLOVEBOX_FAILED_DIR" (FailedDir c))
    (env_string "GLOVEBOX_AGENTS_DIR" (AgentsDir c)) (env_string "GLOVEBOX_SHARED_DIR" (SharedDir c)) (AgentAllowlist c)
    (env_int "GLOVEBOX_METRICS_PORT" (MetricsPort c)) (env_string "GLOVEBOX_WATCH_MODE" (WatchMode c)) (PollIntervalSeconds c)
    (env_string "GLOVEBOX_RULES_FILE" (RulesFile c)) (RulesSHA256 c)
    (mkSigning (env_string "GLOVEBOX_RULES_SIGNING_MODE" (SigMode (RulesSigning c)))
       (env_string "GLOVEBOX_RULES_PUBLIC_KEY_FILE" (SigPublicKeyFile (RulesSigning c)))
       (env_string "GLOVEBOX_RULES_SIGNATURE_FILE" (SigFile (RulesSigning c))))
    (env_int "GLOVEBOX_SCAN_WORKERS" (ScanWorkers c)) (env_int "GLOVEBOX_SCAN_TIMEOUT_SECONDS" (ScanTimeoutSeconds c))
    (env_int "GLOVEBOX_DELIVERY_TIMEOUT_SECONDS" (DeliveryTimeoutSeconds c)) (ScanChunkSizeBytes c)
    (env_string "GLOVEBOX_SUBJECTS_FILE" (SubjectsFile c)) (env_string "GLOVEBOX_SOURCES_FILE" (SourcesFile c))
    (ingest_overrides (Ingest c)) (CJournal c).
End overrides.

(** The keys of a configuration's top level, as far as they can be read, in
    their order; None when it is not an object. *)
Fixpoint check_journal_keys (EqualFold : string → string → bool) (Quote : string → string) (keys : list string) (seen : bool) : res string () :=
  match keys with
  | [] => Ok tt
  | key :: rest =>
      if EqualFold key "journal" then
        if negb (String.eqb key "journal") then Err ("config key " ++ Quote key ++ " must be spelled exactly " ++ Quote "journal")
        else if seen then Err ("config key " ++ Quote "journal" ++ " appears more than once")
        else check_journal_keys EqualFold Quote rest true
      else check_journal_keys EqualFold Quote rest seen
  end.

Section load.
Context (EqualFold : string → string → bool) (Quote : string → string) (Getenv : string → string).
(** os.ReadFile; the keys at the top level of a document; and
    json.Unmarshal over given values. *)
Context (ReadFile : string → res string bytes) (TopKeys : bytes → option (list string)) (Unmarshal : bytes → Config → res string Config).

Definition checkJournalKey (data : bytes) : res string () :=
  match TopKeys data with None => Ok tt | Some keys => check_journal_keys EqualFold Quote keys false end.

Definition LoadConfig (path : string) : res string Config :=
  if String.eqb path "" then Ok (applyEnvOverrides Getenv defaultConfig)
  else match ReadFile path with
  | Err e => Err e
  | Ok data =>
      match checkJournalKey data with
      | Err e => Err e
      | Ok _ => match Unmarshal data defaultConfig with Err e => Err e | Ok cfg => Ok (applyEnvOverrides Getenv cfg) end
      end
  end.
End load.

(** ** Checks *)

Section validate.
Context (Quote : string → string).

(** A check of many: its error, or nothing. *)
Abbreviation refuse s := (Err (s : string)).
Fixpoint first_error (checks : list (bool * string)) : res string () :=
  match checks with
  | [] => Ok tt
  | (bad, message) :: rest => if bad : bool then Err message else first_error rest
  end.

Definition signing_validate (r : RulesSigningConfig) : res string () :=
  if String.eqb (SigMode r) "" || String.eqb (SigMode r) SigModeDisabled then Ok tt
  else if negb (SigningActive r) then
    refuse ("rules_signing.mode must be one of " ++ Quote SigModeDisabled ++ ", " ++ Quote SigModePermissive ++ ", "
            ++ Quote SigModeRequired ++ "; got " ++ Quote (SigMode r))
  else if String.eqb (SigPublicKeyFile r) "" then
    refuse ("rules_signing.public_key_file is required when rules_signing.mode is " ++ Quote (SigMode r))
  else Ok tt.

(** IngestTLSConfig.validate fills in the port. *)
Definition with_port (p : Z) (t : IngestTLSConfig) : IngestTLSConfig :=
  mkTLSConfig (TLSMode t) p (CertFile t) (KeyFile t) (ClientCAFile t) (TrustDomain t) (EnforceSourceMatch t).

Definition tls_validate (t : IngestTLSConfig) (ingestPort : Z) : res string IngestTLSConfig :=
  if String.eqb (TLSMode t) "" || String.eqb (TLSMode t) TLSModeDisabled then Ok t
  else if negb (TLSActive t) then
    refuse ("ingest.tls.mode must be one of " ++ Quote TLSModeDisabled ++ ", " ++ Quote TLSModePermissive ++ ", "
            ++ Quote TLSModeRequired ++ "; got " ++ Quote (TLSMode t))
  else if String.eqb (CertFile t) "" || String.eqb (KeyFile t) "" then
    refuse ("ingest.tls.cert_file and key_file are required when ingest.tls.mode is " ++ Quote (TLSMode t))
  else if String.eqb (ClientCAFile t) "" then
    refuse ("ingest.tls.client_ca_file is required when ingest.tls.mode is " ++ Quote (TLSMode t))
  else
    let t := if (TLSPort t =? 0)%Z then with_port (wrap64 (ingestPort + 1)) t else t in
    if (TLSPort t =? ingestPort)%Z && String.eqb (TLSMode t) TLSModePermissive then
      refuse "ingest.tls.port must differ from ingest.port in permissive mode (both listeners are opened)"
    else if (TLSPort t <=? 0)%Z then refuse ("ingest.tls.port must be > 0, got " ++ itoa (TLSPort t))
    else Ok t.

Definition auth_validate (a : IngestAuthConfig) : res string () :=
  let source :=
    if String.eqb (ASource a) "" || String.eqb (ASource a) "vault" then
      first_error [(String.eqb (VaultAddr (Vault a)) "", "ingest.auth.vault.addr required when ingest.auth.enabled");
                   (String.eqb (VaultRole (Vault a)) "", "ingest.auth.vault.k8s_role required when ingest.auth.enabled");
                   (String.eqb (TokensPath (Vault a)) "", "ingest.auth.vault.tokens_path required when ingest.auth.enabled")]
    else if String.eqb (ASource a) "env" then Ok tt
    else if String.eqb (ASource a) "file" then
      first_error [(String.eqb (AFilePath a) "", "ingest.auth.file.path required when ingest.auth.source=file")]
    else refuse ("unknown ingest.auth.source " ++ Quote (ASource a) ++ " (want vault|env|file)") in
  match source with
  | Err e => Err e
  | Ok _ =>
      first_error
        [((ReloadIntervalSeconds a <=? 0)%Z, "ingest.auth.reload_interval_seconds must be > 0, got " ++ itoa (ReloadIntervalSeconds a));
         ((WindowSeconds (PerIPRateLimit a) <=? 0)%Z,
          "ingest.auth.per_ip_rate_limit.window_seconds must be > 0, got " ++ itoa (WindowSeconds (PerIPRateLimit a)));
         ((MaxRejected (PerIPRateLimit a) <=? 0)%Z,
          "ingest.auth.per_ip_rate_limit.max_rejected must be > 0, got " ++ itoa (MaxRejected (PerIPRateLimit a)));
         ((WindowSeconds (GlobalRateLimit a) <=? 0)%Z,
          "ingest.auth.global_rate_limit.window_seconds must be > 0, got " ++ itoa (WindowSeconds (GlobalRateLimit a)));
         ((MaxRejected (GlobalRateLimit a) <=? 0)%Z,
          "ingest.auth.global_rate_limit.max_rejected must be > 0, got " ++ itoa (MaxRejected (GlobalRateLimit a)))]
  end.

Definition percent (z : Z) : bool := (0 <? z)%Z && (z <=? 100)%Z.

Definition archives_validate (ar : IngestArchivesConfig) : res string () :=
  let pct name z := (negb (percent z), "ingest.archives." ++ name ++ " must be in (0,100], got " ++ itoa z) in
  let pos name z := ((z <=? 0)%Z, "ingest.archives." ++ name ++ " must be > 0, got " ++ itoa z) in
  first_error
    [(String.eqb (ArchiveRoot ar) "", "ingest.archives.staging_root required when ingest.archives.enabled");
     pos "max_upload_size" (MaxUploadSize ar);
     pos "per_source_max_concurrent" (ArchivePerSourceMax ar);
     pos "global_max_concurrent" (ArchiveGlobalMax ar);
     pct "global_hard_cap_pct" (GlobalHardCapPct ar);
     pct "global_hard_cap_hysteresis_pct" (GlobalHardCapHysteresisPct ar);
     ((GlobalHardCapPct ar <=? GlobalHardCapHysteresisPct ar)%Z,
      "ingest.archives.global_hard_cap_hysteresis_pct (" ++ itoa (GlobalHardCapHysteresisPct ar) ++ ") must be < global_hard_cap_pct ("
      ++ itoa (GlobalHardCapPct ar) ++ ")");
     pct "per_source_soft_cap_pct" (PerSourceSoftCapPct ar);
     pos "patch_idle_timeout_seconds" (PatchIdleTimeoutSeconds ar);
     pos "cleanup_interval_seconds" (CleanupIntervalSeconds ar)].

Definition validateBearerPort (c : IngestConfig) : res string () :=
  if (BearerPort c <? 0)%Z then refuse ("ingest.bearer_port must be > 0 when set, got " ++ itoa (BearerPort c))
  else if negb (BearerRoutesEnabled c) then Ok tt
  else if TLSActive (TLS c) && (EffectiveBearerPort c =? TLSPort (TLS c))%Z then
    refuse ("ingest.bearer_port " ++ itoa (EffectiveBearerPort c) ++ " collides with ingest.tls.port: /v1/archives and /v1/sanitize need a plaintext listener of their own in every tls mode")
  else Ok tt.

(** The listeners besides the journal's, by port. *)
Definition portsInUse (c : Config) : gmap Z string :=
  let ports : gmap Z string := {[MetricsPort c := "metrics_port"]} in
  let i := Ingest c in
  if IEnabled i then
    let ports := <[IPort i := "ingest.port"]> ports in
    let ports := if (BearerPort i =? 0)%Z then ports else <[BearerPort i := "ingest.bearer_port"]> ports in
    if TLSActive (TLS i) then
      <[(if (TLSPort (TLS i) =? 0)%Z then wrap64 (IPort i + 1) else TLSPort (TLS i)) := "ingest.tls.port"]> ports
    else ports
  else ports.

(** *** The journal's block *)

(** A part of a prefix is name=value: strings.Cut. *)
Fixpoint cut_at (c : ascii) (s : string) : option (string * string) :=
  match s with
  | EmptyString => None
  | String a r => if Ascii.eqb a c then Some ("", r) else match cut_at c r with Some (x, y) => Some (String a x, y) | None => None end
  end.

Fixpoint prefix_parts (i : Z) (parts : list string) : option string :=
  match parts with
  | [] => None
  | part :: rest =>
      match cut_at "=" part with
      | None => Some "has a part that is not name=<non-empty value>"
      | Some (name, value) =>
          if String.eqb value "" || negb (no_char "=" value) then Some "has a part that is not name=<non-empty value>"
          else
            let want := if (1 <=? i)%Z then "surface" else PartSource in
            if negb (String.eqb name want) then Some ("part " ++ itoa (i + 1) ++ " must be " ++ want ++ "=")
            else prefix_parts (i + 1) rest
      end
  end.

Definition cut_last_slash (p : string) : option string :=
  match rev (String.list_ascii_of_string p) with
  | a :: r => if Ascii.eqb a slash then Some (String.string_of_list_ascii (rev r)) else None
  | [] => None
  end.

Definition checkStalenessPrefix (p : string) : res string () :=
  let bad why := refuse ("journal.staleness_prefixes: " ++ Quote p ++ " " ++ why ++ " (want source=<value>/ or source=<value>/surface=<value>/)") in
  match cut_last_slash p with
  | None => bad "must end with '/'"
  | Some rest =>
      let parts := split_on "/" rest in
      if (2 <? length parts)%nat then bad "names more than a source and a surface"
      else match prefix_parts 0 parts with Some why => bad why | None => Ok tt end
  end.

Definition maxSecretBytes : nat := 4096.

(** strings.TrimRight with the characters of a line ending. *)
Fixpoint drop_line_end (l : list ascii) : list ascii :=
  match l with a :: r => if (byte_of a =? 10)%Z || (byte_of a =? 13)%Z then drop_line_end r else l | [] => [] end.
Definition trim_line_end (s : string) : string :=
  String.string_of_list_ascii (rev (drop_line_end (rev (String.list_ascii_of_string s)))).

(** The files a check reads: what a registry's Load answers; os.Stat, with
    whether the path is a folder; a file's content, or an error at open
    (None) or while it is read. *)
Context (LoadSubjects LoadSources : string → option string).
Context (StatDir : string → option bool) (OpenRead : string → option (res () string)).
(** The callers that a policy document names, if it is an object at all; and
    strictjson.Decode of the document. *)
Context (Callers : string → option nat) (DecodePolicy : string → res string (gmap string Service)).
(** The conversions of JValue.v. *)
Context (float_text timestamp_text : string → option string).

Definition readSecretFile (path : string) : res string string :=
  match OpenRead path with
  | None => refuse ("open " ++ path)
  | Some (Err _) => refuse (path ++ ": read failed")
  | Some (Ok b) =>
      if (maxSecretBytes <? String.length b)%nat then refuse (path ++ " is larger than 4096 bytes")
      else
        let s := trim_line_end b in
        if String.eqb (trim_space s) "" then refuse (path ++ " is empty") else Ok s
  end.

Definition Build (j : JournalConfig) : res string (Registry * RuleSet * Policy) :=
  match NewRegistry (RecordTypes j) with
  | None => refuse "journal.record_types"
  | Some reg =>
      match Compile float_text timestamp_text Quote (JRules_ j) (Some reg) with
      | Err e => refuse ("journal.rules: " ++ e)
      | Ok rs =>
          let raw := if String.eqb (trim_space (Services j)) "" then "{}" else Services j in
          match DecodePolicy raw with
          | Err e => refuse ("journal.services: journal policy: " ++ e)
          | Ok services =>
              match NewPolicy services reg with
              | None => refuse "journal.services"
              | Some pol => Ok (reg, rs, pol)
              end
          end
      end
  end.

Definition contains_any (chars : list ascii) (s : string) : bool :=
  existsb (λ a, existsb (Ascii.eqb a) chars) (String.list_ascii_of_string s).

Definition database_error (d : JournalDatabaseConfig) : option string :=
  if String.eqb (DHost d) "" || String.eqb (DName d) "" || String.eqb (UserFile d) "" || String.eqb (PasswordFile d) ""
     || (DPort d <=? 0)%Z || (65535 <? DPort d)%Z
  then Some "journal.database needs host, port (1-65535), name, user_file and password_file"
  else
    let host := if contains_any [","; "/"; "?"]%char (DHost d)
                then Some "journal.database.host must be a single host name (no ',', '/' or '?')" else None in
    if String.eqb (SSLMode d) "require" then host
    else if String.eqb (SSLMode d) "verify-ca" || String.eqb (SSLMode d) "verify-full" then
      if String.eqb (SSLRootCert d) "" then Some ("journal.database.sslrootcert is required when sslmode is " ++ SSLMode d)
      else match StatDir (SSLRootCert d) with
      | Some false => host
      | _ => Some ("journal.database.sslrootcert " ++ SSLRootCert d ++ " is not a readable file")
      end
    else Some "journal.database.sslmode must be require, verify-ca or verify-full; plaintext is refused".

Definition out_of_range (lo hi z : Z) : bool := (z <? lo)%Z || (hi <? z)%Z.

Definition roster_bad (r : JournalRosterConfig) : bool :=
  String.eqb (RosterPath r) "" || negb (String.eqb (RosterFormat r) FormatOpenclawHouseholdV1) || out_of_range 1 300 (RosterReloadSeconds r).
Definition guard_bad (g : Guard) : bool :=
  negb (flt (float64 0) (MaxFraction g) && flt (MaxFraction g) (float64 1)) || out_of_range 0 1000 (MinKeys g).

Definition journal_validate (j : JournalConfig) (ports : gmap Z string) : res string () :=
  if negb (JEnabled j) then Ok tt
  else if out_of_range 1 65535 (JPort j) then refuse ("journal.port must be 1-65535, got " ++ itoa (JPort j))
  else match ports !! JPort j with
  | Some other => refuse ("journal.port " ++ itoa (JPort j) ++ " is already used by " ++ other)
  | None =>
      if out_of_range 1 600 (JRequestTimeoutSeconds j) then refuse "journal.request_timeout_seconds must be 1-600"
      else if out_of_range 1 300 (JScanTimeoutSeconds j) then refuse "journal.scan_timeout_seconds must be 1-300"
      else if String.eqb (trim_space (ScannerVersion j)) "" then refuse "journal.scanner_version must not be empty"
      else if match Callers (trim_space (Services j)) with Some (S _) => false | _ => true end
           then refuse "journal.services must name at least one caller when the journal is enabled"
      else match database_error (Database j) with
      | Some e => refuse e
      | None =>
          if roster_bad (Roster j) then refuse ("journal.roster needs a path, format " ++ Quote FormatOpenclawHouseholdV1 ++ " and reload_seconds 1-300")
          else if guard_bad (RemovalGuard j) then refuse "journal.removal_guard needs 0 < max_fraction < 1 and 0 <= min_keys <= 1000"
          else match check_each checkStalenessPrefix (StalenessPrefixes j) with
          | Err e => Err e
          | Ok _ =>
              match readSecretFile (UserFile (Database j)) with
              | Err e => refuse ("journal database user: " ++ e)
              | Ok _ =>
                  match readSecretFile (PasswordFile (Database j)) with
                  | Err e => refuse ("journal database password: " ++ e)
                  | Ok _ => match Build j with Err e => Err e | Ok _ => Ok tt end
                  end
              end
          end
      end
  end.

(** *** The whole *)

Definition with_tls (t : IngestTLSConfig) (c : Config) : Config :=
  let i := Ingest c in
  mkConfig (StagingDir c) (QuarantineDir c) (AuditDir c) (FailedDir c) (AgentsDir c) (SharedDir c) (AgentAllowlist c) (MetricsPort c)
    (WatchMode c) (PollIntervalSeconds c) (RulesFile c) (RulesSHA256 c) (RulesSigning c) (ScanWorkers c) (ScanTimeoutSeconds c)
    (DeliveryTimeoutSeconds c) (ScanChunkSizeBytes c) (SubjectsFile c) (SourcesFile c)
    (mkIngestConfig (IEnabled i) (IPort i) (BearerPort i) (MaxBodyBytes i) (MaxMetadataBytes i) (BackpressureThreshold i)
       (RequestTimeoutSeconds i) (Auth i) (Archives i) t)
    (CJournal c).

Definition registry_error (Load : string → option string) (file : string) : option string :=
  if String.eqb file "" then None else Load file.

(** The configuration after a check that accepts it: the check fills in the
    port of the TLS listener. *)
Definition Validate (c : Config) : res string Config :=
  match registry_error LoadSubjects (SubjectsFile c), registry_error LoadSources (SourcesFile c) with
  | Some e, _ => refuse ("subjects registry: " ++ e)
  | None, Some e => refuse ("sources registry: " ++ e)
  | None, None =>
      match signing_validate (RulesSigning c) with
      | Err e => Err e
      | Ok _ =>
          match journal_validate (CJournal c) (portsInUse c) with
          | Err e => Err e
          | Ok _ =>
              let i := Ingest c in
              if negb (IEnabled i) then Ok c
              else if (IPort i <=? 0)%Z then refuse ("ingest.port must be > 0 when ingest is enabled, got " ++ itoa (IPort i))
              else if (MaxBodyBytes i <=? 0)%Z then refuse ("ingest.max_body_bytes must be > 0 when ingest is enabled, got " ++ itoa (MaxBodyBytes i))
              else if (BackpressureThreshold i <=? 0)%Z
              then refuse ("ingest.backpressure_threshold must be > 0 when ingest is enabled, got " ++ itoa (BackpressureThreshold i))
              else match (if AEnabled (Auth i) then auth_validate (Auth i) else Ok tt) with
              | Err e => Err e
              | Ok _ =>
                  match tls_validate (TLS i) (IPort i) with
                  | Err e => Err e
                  | Ok t =>
                      let c := with_tls t c in
                      match validateBearerPort (Ingest c) with
                      | Err e => Err e
                      | Ok _ =>
                          if negb (ArchivesEnabled (Archives i)) then Ok c
                          else if negb (AEnabled (Auth i)) then refuse "ingest.archives.enabled requires ingest.auth.enabled (spec 13 §5.2 / spec 10)"
                          else match archives_validate (Archives i) with Err e => Err e | Ok _ => Ok c end
                      end
                  end
              end
          end
      end
  end.
End validate.
