(* ===== verification/GoNet.v ===== *)
(** What internal/ingest/auth uses of Go's net package: addresses and
    networks. *)
From S2P Require Import Prelude GoStrings Utf8 JsonString.
Local Open Scope Z_scope.

Definition dot : Z := 46.
Definition colon : Z := 58.

(** An address is its 4 or 16 bytes; a network its address and mask. *)
Abbreviation IP := bytes (only parsing).
Record IPNet := mkNet { NIP : IP; NMask : bytes }.

(** ** Parsing *)

(** parseIPv4Fields: the byte before, the value and the digits of the field,
    and the fields before it. *)
Fixpoint v4_fields (prev : option Z) (s : bytes) (val : Z) (digLen : nat) (fields : bytes) : option bytes :=
  match s with
  | [] => if (length fields <? 3)%nat then None else Some (fields ++ [val])
  | c :: r =>
      if within 48 57 c then
        if (digLen =? 1)%nat && (val =? 0) then None
        else
          let val := val * 10 + (c - 48) in
          if 255 <? val then None else v4_fields (Some c) r val (S digLen) fields
      else if c =? dot then
        if bool_decide (prev = None) || bool_decide (r = []) || bool_decide (prev = Some dot) then None
        else if (length fields =? 3)%nat then None
        else v4_fields (Some c) r 0 0 (fields ++ [val])
      else None
  end.
Definition parseIPv4 (s : bytes) : option bytes := v4_fields None s 0 0 [].

(** The hex digits at the start, and the rest. *)
Fixpoint hex_group (s : bytes) : bytes * bytes :=
  match s with
  | c :: r =>
      match hex_value c with
      | Some d => let '(ds, rest) := hex_group r in (d :: ds, rest)
      | None => ([], s)
      end
  | [] => ([], [])
  end.

(** The groups: what is left, the bytes so far, and where the ellipsis is.
    Eight groups fill an address. *)
Fixpoint v6_groups (n : nat) (s ip : bytes) (ellipsis : option nat) : option (bytes * bytes * option nat) :=
  match n with
  | O => Some (s, ip, ellipsis)
  | S n =>
      let '(ds, rest) := hex_group s in
      if (4 <? length ds)%nat || (length ds =? 0)%nat then None
      else
        let acc := foldl (λ a d, a * 16 + d) 0 ds in
        let ip' := ip ++ [acc / 256; acc mod 256] in
        match rest with
        | [] => Some ([], ip', ellipsis)
        | c :: r =>
            if c =? dot then
              if bool_decide (ellipsis = None) && negb (length ip =? 12)%nat then None
              else if (16 <? length ip + 4)%nat then None
              else match parseIPv4 s with Some four => Some ([], ip ++ four, ellipsis) | None => None end
            else if negb (c =? colon) then None
            else match r with
            | [] => None
            | c2 :: r2 =>
                if c2 =? colon then
                  match ellipsis with
                  | Some _ => None
                  | None =>
                      match r2 with
                      | [] => Some ([], ip', Some (length ip'))
                      | _ => v6_groups n r2 ip' (Some (length ip'))
                      end
                  end
                else v6_groups n r ip' ellipsis
            end
        end
  end.

Definition expand (x : bytes * bytes * option nat) : option IP :=
  let '(s, ip, ellipsis) := x in
  if negb (bool_decide (s = [])) then None
  else if (length ip <? 16)%nat then
    match ellipsis with
    | None => None
    | Some e => Some (take e ip ++ replicate (16 - length ip) 0 ++ drop e ip)
    end
  else match ellipsis with None => Some ip | Some _ => None end.

(** parseIPv6, of a text without a zone. *)
Definition parseIPv6 (s : bytes) : option IP :=
  match s with
  | a :: b :: r =>
      if (a =? colon) && (b =? colon) then
        match r with [] => Some (replicate 16 0) | _ => v6_groups 8 r [] (Some 0%nat) ≫= expand end
      else v6_groups 8 s [] None ≫= expand
  | _ => v6_groups 8 s [] None ≫= expand
  end.

Definition v4_prefix : bytes := replicate 10 0 ++ [255; 255].

(** The first of the bytes that tell the forms apart. *)
Fixpoint form (s : bytes) : option Z :=
  match s with
  | [] => None
  | c :: r => if (c =? dot) || (c =? colon) || (c =? 37) then Some c else form r
  end.

(** net.ParseIP: an address with a zone is none. *)
Definition ParseIP (t : string) : option IP :=
  let s := bytes_of_string t in
  match form s with
  | Some c =>
      if c =? dot then (v4_prefix ++.) <$> parseIPv4 s
      else if c =? colon then if existsb (Z.eqb 37) s then None else parseIPv6 s
      else None
  | None => None
  end.

(** ** Addresses and networks *)

Definition To4 (ip : IP) : option IP :=
  if (length ip =? 4)%nat then Some ip
  else if (length ip =? 16)%nat && bool_decide (take 12 ip = v4_prefix) then Some (drop 12 ip)
  else None.
Definition To16 (ip : IP) : option IP :=
  if (length ip =? 4)%nat then Some (v4_prefix ++ ip) else if (length ip =? 16)%nat then Some ip else None.

(** networkNumberAndMask *)
Definition network (n : IPNet) : option (IP * bytes) :=
  match To4 (NIP n) with
  | Some ip =>
      if (length (NMask n) =? 4)%nat then Some (ip, NMask n)
      else if (length (NMask n) =? 16)%nat then Some (ip, drop 12 (NMask n)) else None
  | None =>
      if (length (NIP n) =? 16)%nat && (length (NMask n) =? 16)%nat then Some (NIP n, NMask n) else None
  end.

Definition Contains (n : IPNet) (ip : IP) : bool :=
  match network n with
  | None => false
  | Some (nn, m) =>
      let x := default ip (To4 ip) in
      (length x =? length nn)%nat && bool_decide (zip_with Z.land nn m = zip_with Z.land x m)
  end.

(** ** Texts *)

Definition v4_string (ip : IP) : string := join "." (itoa <$> ip).

(** The 16-bit groups of 16 bytes. *)
Fixpoint groups (ip : IP) : list Z := match ip with a :: b :: r => (a * 256 + b) :: groups r | _ => [] end.
Fixpoint zeros (gs : list Z) : nat := match gs with g :: r => if g =? 0 then S (zeros r) else 0%nat | [] => 0%nat end.
(** The first longest run of two zero groups or more: its start and end. *)
Fixpoint longest_zeros (i : nat) (gs : list Z) (best : option (nat * nat)) : option (nat * nat) :=
  match gs with
  | [] => best
  | _ :: r =>
      let l := zeros gs in
      let best := if (2 <=? l)%nat && (match best with Some (a, b) => (b - a <? l)%nat | None => true end)
                  then Some (i, (i + l)%nat) else best in
      longest_zeros (S i) r best
  end.
Fixpoint hex_text (n : nat) (v : Z) : bytes :=
  match n with O => [] | S n => (if v <? 16 then [] else hex_text n (v / 16)) ++ [hex_digit (v mod 16)] end.
Definition group_text (g : Z) : string := string_of_bytes (hex_text 4 g).

Definition v6_string (ip : IP) : string :=
  let gs := groups ip in
  match longest_zeros 0 gs None with
  | Some (a, b) => (join ":" (group_text <$> take a gs) ++ "::" ++ join ":" (group_text <$> drop b gs))%string
  | None => join ":" (group_text <$> gs)
  end.

(** IP.String *)
Definition IP_String (ip : IP) : string := match To4 ip with Some p4 => v4_string p4 | None => v6_string ip end.

(** ** Hosts and ports *)

Fixpoint index_byte (c : ascii) (s : string) : option nat :=
  match s with
  | EmptyString => None
  | String a r => if Ascii.eqb a c then Some 0%nat else S <$> index_byte c r
  end.
Fixpoint last_index_byte (c : ascii) (s : string) : option nat :=
  match s with
  | EmptyString => None
  | String a r =>
      match last_index_byte c r with
      | Some n => Some (S n)
      | None => if Ascii.eqb a c then Some 0%nat else None
      end
  end.
Definition str_from (n : nat) (s : string) : string := String.substring n (String.length s - n) s.

(** net.SplitHostPort: the host and the port. *)
Definition SplitHostPort (hostport : string) : option (string * string) :=
  match last_index_byte ":" hostport with
  | None => None
  | Some i =>
      let finish (host : string) (j k : nat) :=
        if negb (no_char "[" (str_from j hostport)) then None
        else if negb (no_char "]" (str_from k hostport)) then None
        else Some (host, str_from (S i) hostport) in
      if has_prefix "[" hostport then
        match index_byte "]" hostport with
        | None => None
        | Some e => if (S e =? i)%nat then finish (String.substring 1 (e - 1) hostport) 1%nat (S e) else None
        end
      else
        let host := String.substring 0 i hostport in
        if negb (no_char ":" host) then None else finish host 0%nat 0%nat
  end.

(** net.ParseCIDR: the network. *)
Definition cidr_mask (ones : Z) (n : nat) : bytes :=
  (λ k, let have := Z.min 8 (Z.max 0 (ones - 8 * Z.of_nat k)) in 256 - 2 ^ (8 - have)) <$> seq 0 n.
Definition ParseCIDR (s : string) : option IPNet :=
  match index_byte "/" s with
  | None => None
  | Some i =>
      let addr := String.substring 0 i s in
      let mask := str_from (S i) s in
      match ParseIP addr with
      | None => None
      | Some ip =>
          let v4 := bool_decide (form (bytes_of_string addr) = Some dot) in
          match digits_value 0 mask with
          | Some n =>
              if String.eqb mask "" || (0xFFFFFF <=? n) || ((if v4 then 32 else 128) <? n) then None
              else
                let m := cidr_mask n (if v4 then 4 else 16) in
                let x := if v4 then default ip (To4 ip) else ip in
                Some (mkNet (zip_with Z.land x m) m)
          | None => None
          end
      end
  end.

Example parse_v4 : ParseIP "192.0.2.7" = Some (v4_prefix ++ [192; 0; 2; 7]).
Proof. reflexivity. Qed.
Example parse_v4_leading_zero : ParseIP "192.0.02.7" = None.
Proof. reflexivity. Qed.
Example parse_v6 : ParseIP "2001:db8::1" = Some [32; 1; 13; 184; 0; 0; 0; 0; 0; 0; 0; 0; 0; 0; 0; 1].
Proof. reflexivity. Qed.
Example parse_mapped : ParseIP "::ffff:192.0.2.1" = ParseIP "192.0.2.1".
Proof. reflexivity. Qed.
Example parse_zone : ParseIP "fe80::1%eth0" = None.
Proof. reflexivity. Qed.
Example print_v6 : IP_String [32; 1; 13; 184; 0; 0; 0; 0; 0; 0; 0; 0; 0; 0; 0; 1] = "2001:db8::1".
Proof. reflexivity. Qed.
Example print_none : IP_String (replicate 16 0) = "::".
Proof. reflexivity. Qed.
Example split_v4 : SplitHostPort "192.0.2.7:80" = Some ("192.0.2.7", "80").
Proof. reflexivity. Qed.
Example split_v6 : SplitHostPort "[::1]:80" = Some ("::1", "80").
Proof. reflexivity. Qed.
Example split_bad : SplitHostPort "::1" = None ∧ SplitHostPort "host" = None.
Proof. split; reflexivity. Qed.
Example cidr_v4 : ParseCIDR "10.1.2.3/12" = Some (mkNet [10; 0; 0; 0] [255; 240; 0; 0]).
Proof. reflexivity. Qed.
