(* ===== verification/ITokens.v ===== *)
(** internal/ingest/auth/tokens.go and source.go: the bearer tokens of the
    ingest service, where they come from, and their lookup.

    A reload asks a token source and reports its errors; these calls are the
    operations of [token_sig].  The sources themselves are programs over what
    they call (the Vault client, a file), and [with_source] puts a source
    under a reload. *)
From S2P Require Import Prelude IConfig GoStrings StrOrder Utf8 JsonString EUnescape EDecode ESign Effects AMeta.
Local Open Scope string_scope.
Local Open Scope prog_scope.

(** ** Source-ids and tokens *)

Definition id_letter (a : ascii) : bool := lower a || is_digit a.

(** [a-z0-9]*(-[a-z0-9]+)*$, after a dash or not. *)
Fixpoint words_match (dashed : bool) (s : string) : bool :=
  match s with
  | EmptyString => negb dashed
  | String a r =>
      if id_letter a then words_match false r
      else Ascii.eqb a "-" && negb dashed && words_match true r
  end.

Definition sourceIDRe (s : string) : bool :=
  match s with EmptyString => false | String a r => lower a && words_match false r end.

Definition validSourceID (s : string) : bool :=
  if (String.length s =? 0)%nat || (64 <? String.length s)%nat then false else sourceIDRe s.

Definition token_char (b : Z) : bool := within 48 57 b || within 97 102 b.

Definition decodeToken (s : string) : option bytes :=
  if negb (String.length s =? 64)%nat then None
  else if negb (forallb token_char (bytes_of_string s)) then None
  else decode_hex (bytes_of_string s).

(** ** The store *)

Record tokenEntry := mkToken { token : bytes; sourceID : string }.
Record TokenStore := mkTokens { entries : list tokenEntry; loadErr : option string }.

Definition NewTokenStore : TokenStore := mkTokens [] None.
Definition LoadErr (s : TokenStore) : option string := loadErr s.

(** subtle.ConstantTimeCompare *)
Definition ConstantTimeCompare (x y : bytes) : Z := if bool_decide (x = y) then 1 else 0.

(** One round of the loop of Lookup. *)
Definition lookup_step (req : bytes) (acc : Z * string) (e : tokenEntry) : Z * string :=
  let '(matched, sid) := acc in
  let eq := ConstantTimeCompare (token e) req in
  (Z.lor matched eq, if (eq =? 1)%Z && (matched =? 0)%Z then sourceID e else sid).

Definition Lookup (s : TokenStore) (req : bytes) : string * bool :=
  let '(matched, sid) := foldl (lookup_step req) (0%Z, "") (entries s) in (sid, (matched =? 1)%Z).

(** ** Reload *)

(** What a reload calls: the source, the logger, and the error hook. *)
Inductive token_op :=
| SourceList
| SourceRead (sid : string)
| LogError (msg sid : string)
| OnError (sid : string).

Definition token_ans (o : token_op) : Type :=
  match o with
  | SourceList => res string (list string)
  | SourceRead _ => res string string
  | _ => unit
  end.

#[export] Instance token_sig : Sig := {| op := token_op; ans := token_ans |}.
Definition ask (o : token_op) : prog (Σ := token_sig) (token_ans o) := call (Σ := token_sig) o.

(** ReloadConfig, without the source and the logger. *)
Record ReloadConfig := mkReload { has_hook : bool }.

Definition clean_log_char (a : ascii) : ascii := if (byte_of a <? 32)%Z || (byte_of a =? 127)%Z then "?"%char else a.
Definition sanitizeForLog (s : string) : string :=
  let s := if (64 <? String.length s)%nat then String.substring 0 64 s else s in
  String.string_of_list_ascii (clean_log_char <$> String.list_ascii_of_string s).

Section reload.
Context (cfg : ReloadConfig).

(** A log line and, if there is one, the hook. *)
Definition report (msg shown sid : string) : prog unit :=
  let! _ := ask (LogError msg shown) in
  if has_hook cfg then ask (OnError sid) else Ret tt.

(** counts[tok]++ *)
Definition count_token (tok : bytes) (counts : gmap bytes nat) : gmap bytes nat :=
  <[tok := S (default 0%nat (counts !! tok))]> counts.

(** Pass 1: the tokens that can be read, and how often each occurs. *)
Fixpoint pass1 (ids : list string) (counts : gmap bytes nat) (parsed : list tokenEntry)
    : prog (gmap bytes nat * list tokenEntry) :=
  match ids with
  | [] => Ret (counts, parsed)
  | sid :: rest =>
      if negb (validSourceID sid) then
        let! _ := report "source_id malformed" (sanitizeForLog sid) sid in
        pass1 rest counts parsed
      else
        let! r := ask (SourceRead sid) in
        match (r : res string string) with
        | Err _ => let! _ := report "token read failed" sid sid in pass1 rest counts parsed
        | Ok tokStr =>
            match decodeToken tokStr with
            | None => let! _ := report "token malformed" sid sid in pass1 rest counts parsed
            | Some tok => pass1 rest (count_token tok counts) (parsed ++ [mkToken tok sid])%list
            end
        end
  end.

(** Pass 2: those whose token occurs once. *)
Fixpoint pass2 (counts : gmap bytes nat) (parsed next : list tokenEntry) : prog (list tokenEntry) :=
  match parsed with
  | [] => Ret next
  | e :: rest =>
      if (1 <? default 0 (counts !! token e))%nat then
        let! _ := report "token duplicate" (sourceID e) (sourceID e) in
        pass2 counts rest next
      else pass2 counts rest (next ++ [e])%list
  end.

Definition Reload (s : TokenStore) : prog (TokenStore * res string ()) :=
  let! ids := ask SourceList in
  match (ids : res string (list string)) with
  | Err e => Ret (mkTokens (entries s) (Some e), Err ("list tokens: " ++ e))
  | Ok ids =>
      let! p := pass1 ids ∅ [] in
      let '(counts, parsed) := p in
      let! next := pass2 counts parsed [] in
      Ret (mkTokens next None, Ok tt)
  end.
End reload.

(** ** Source-ids: the grammar *)

Definition word (w : string) : Prop := w ≠ "" ∧ all_chars id_letter w = true.

Lemma all_chars_cons p a s : all_chars p (String a s) = p a && all_chars p s.
Proof. done. Qed.

Lemma dash_not_letter : id_letter "-" = false.
Proof. done. Qed.

(** The text after the first letter: the rest of a word, and more words. *)
Lemma words_match_spec s dashed :
  words_match dashed s = true ↔
  ∃ w ws, s = join "-" (w :: ws) ∧ all_chars id_letter w = true ∧ (dashed = true → w ≠ "") ∧ Forall word ws.
Proof.
  revert dashed. induction s as [|a s IH]; intros dashed; cbn [words_match].
  - rewrite negb_true_iff. split.
    + intros ->. by exists "", [].
    + intros (w & ws & E & _ & Hd & _). destruct w as [|b w]; [|by destruct ws]. destruct dashed; [by specialize (Hd eq_refl)|done].
  - destruct (id_letter a) eqn:Ha.
    + rewrite IH. split.
      * intros (w & ws & -> & Hw & _ & Hws). exists (String a w), ws. split; [by destruct ws|].
        rewrite all_chars_cons, Ha. by split_and!.
      * intros (w & ws & E & Hw & Hd & Hws). destruct w as [|b w].
        { destruct ws as [|v ws]; [done|]. cbn in E. injection E as -> _. by rewrite dash_not_letter in Ha. }
        exists w, ws. rewrite all_chars_cons in Hw. apply andb_true_iff in Hw as [_ Hw].
        split_and!; [|done..]. by destruct ws; injection E as _ ->.
    + destruct (Ascii.eqb_spec a "-") as [->|Hne]; cbn [andb].
      2: { split; [done|]. intros (w & ws & E & Hw & _). destruct w as [|b w].
           - destruct ws; [done|]. cbn in E. injection E as -> _. done.
           - rewrite all_chars_cons in Hw. apply andb_true_iff in Hw as [Hb _].
             assert (a = b) as -> by by destruct ws; injection E. congruence. }
      rewrite andb_true_iff, negb_true_iff, IH. split.
      * intros (-> & w & ws & -> & Hw & Hd & Hws). exists "", (w :: ws). split_and!; [done..|].
        constructor; [|done]. split; [by apply Hd|done].
      * intros (w & ws & E & Hw & Hd & Hws). destruct w as [|b w].
        2: { rewrite all_chars_cons in Hw. apply andb_true_iff in Hw as [Hb _].
             assert ("-"%char = b) as <- by by destruct ws; injection E. done. }
        split; [by destruct dashed; [specialize (Hd eq_refl)|]|]. destruct ws as [|v ws]; [done|].
        apply Forall_cons in Hws as [[Hv1 Hv2] Hws]. exists v, ws. cbn in E. injection E as ->. by split_and!.
Qed.

(** A source-id: words of lowercase letters and digits, single dashes
    between them, a letter first, at most 64 bytes. *)
Lemma validSourceID_spec s :
  validSourceID s = true ↔
  (String.length s ≤ 64)%nat ∧
  ∃ a w ws, s = join "-" (String a w :: ws) ∧ lower a = true ∧ all_chars id_letter w = true ∧ Forall word ws.
Proof.
  unfold validSourceID, sourceIDRe. destruct s as [|a s].
  { split; [done|]. intros (_ & a & w & ws & E & _). by destruct ws. }
  destruct (Nat.ltb_spec 64 (String.length (String a s))) as [Hl|Hl]; cbn [String.length Nat.eqb orb]; cbn [String.length] in Hl.
  { split; [done|]. intros [? _]. lia. }
  rewrite andb_true_iff, words_match_spec. split.
  - intros (Ha & w & ws & -> & Hw & _ & Hws). split; [lia|]. exists a, w, ws. split; [by destruct ws|done].
  - intros (_ & b & w & ws & E & Hb & Hw & Hws). assert (a = b ∧ s = join "-" (w :: ws)) as [-> ->].
    { destruct ws; injection E as -> ->; done. }
    split; [done|]. by exists w, ws.
Qed.

(** ** Tokens: one text for each *)

Lemma token_char_nibble b :
  token_char b = true → ∃ n, (0 ≤ n < 16)%Z ∧ hexNibble b = Some n ∧ hex_digit n = b.
Proof.
  unfold token_char. rewrite orb_true_iff, !within_spec. intros Hb. unfold hexNibble, hex_digit.
  destruct (within 48 57 b) eqn:E.
  - apply within_spec in E. exists (b - 48)%Z. rewrite (proj2 (Z.ltb_lt _ _)) by lia. split_and!; [lia|lia|done|lia].
  - apply within_false in E. rewrite (proj2 (within_spec 97 102 b)) by lia. exists (b - 97 + 10)%Z.
    rewrite (proj2 (Z.ltb_ge _ _)) by lia. split_and!; [lia|lia|done|lia].
Qed.

Lemma nibble_pair a b : (0 ≤ b < 16)%Z → Z.lor (Z.shiftl a 4) b = (16 * a + b)%Z.
Proof.
  intros Hb. rewrite Z.shiftl_mul_pow2 by lia. change (2 ^ 4)%Z with 16%Z.
  assert (Hland : Z.land (a * 16) b = 0%Z).
  { apply Z.bits_inj'. intros i Hi. rewrite Z.land_spec, Z.bits_0. change 16%Z with (2 ^ 4)%Z.
    destruct (decide (i < 4)%Z).
    - by rewrite Z.mul_pow2_bits_low.
    - rewrite (Z.bits_above_log2 b i), andb_false_r; [done|lia|].
      destruct (decide (b = 0)%Z) as [->|]; [cbn; lia|]. apply Z.log2_lt_pow2; [lia|].
      eapply Z.lt_le_trans with (2 ^ 4)%Z; [lia|]. apply Z.pow_le_mono_r; lia. }
  rewrite <- Z.lxor_lor, <- Z.add_nocarry_lxor by done. lia.
Qed.

(** Lowercase hex text is the text of what it decodes to. *)
Lemma decode_hex_lower s n :
  length s = (2 * n)%nat → forallb token_char s = true →
  ∃ t, decode_hex s = Some t ∧ length t = n ∧ Forall is_byte t ∧ hex_encode t = s.
Proof.
  revert s. induction n as [|n IH]; intros s Hl Hs.
  { destruct s; [|done]. by exists []. }
  destruct s as [|h [|l s]]; [cbn in Hl; lia|cbn in Hl; lia|]. cbn [forallb] in Hs. rewrite !andb_true_iff in Hs.
  destruct Hs as (Hh & Hlo & Hs). destruct (IH s) as (t & Ht & Hn & Hb & He); [cbn in Hl; lia|done|].
  destruct (token_char_nibble h Hh) as (a & Ha & Ea & Da), (token_char_nibble l Hlo) as (b & Hb2 & Eb & Db).
  exists ((16 * a + b)%Z :: t). cbn [decode_hex]. rewrite Ea, Eb, Ht, nibble_pair by done. split_and!; [done|cbn; lia| |].
  - constructor; [unfold is_byte; lia|done].
  - unfold hex_encode. rewrite bind_cons. fold (hex_encode t). rewrite He.
    replace ((16 * a + b) / 16)%Z with a by by rewrite Z.mul_comm, Z.div_add_l, Z.div_small by lia; lia.
    replace ((16 * a + b) mod 16)%Z with b; [by rewrite Da, Db|].
    rewrite Z.add_comm, Z.mul_comm, Z.mod_add, Z.mod_small by lia. done.
Qed.

Lemma hex_digit_token n : (0 ≤ n < 16)%Z → token_char (hex_digit n) = true.
Proof.
  intros Hn. unfold hex_digit, token_char. destruct (Z.ltb_spec n 10).
  - by rewrite (proj2 (within_spec 48 57 _)) by lia.
  - rewrite (proj2 (within_spec 97 102 _)) by lia. by rewrite orb_true_r.
Qed.

Lemma hex_encode_token t : Forall is_byte t → forallb token_char (hex_encode t) = true.
Proof.
  induction 1 as [|x t Hx Ht IH]; [done|]. unfold hex_encode. rewrite bind_cons. fold (hex_encode t). cbn [app forallb].
  unfold is_byte in Hx. rewrite IH, !hex_digit_token; [done|by apply Z.mod_pos_bound|].
  split; [by apply Z.div_pos; lia|]. apply Z.div_lt_upper_bound; lia.
Qed.

Lemma length_bytes_of_string s : length (bytes_of_string s) = String.length s.
Proof. unfold bytes_of_string. rewrite length_fmap. induction s as [|a s IH]; cbn; [done|by rewrite IH]. Qed.

Lemma decodeToken_spec s t :
  decodeToken s = Some t ↔ length t = 32%nat ∧ Forall is_byte t ∧ s = string_of_bytes (hex_encode t).
Proof.
  unfold decodeToken. split.
  - destruct (Nat.eqb_spec (String.length s) 64) as [Hl|]; cbn [negb]; [|done].
    destruct (forallb token_char (bytes_of_string s)) eqn:Hs; cbn [negb]; [|done]. intros Ht.
    destruct (decode_hex_lower (bytes_of_string s) 32) as (t' & Ht' & Hn & Hb & He); [by rewrite length_bytes_of_string|done|].
    assert (t' = t) as -> by congruence. split_and!; [done|done|]. by rewrite He, string_of_bytes_of_string.
  - intros (Hl & Hb & ->). destruct (hex_encode_spec t Hb) as (H1 & _ & H3).
    assert (Hbytes : Forall is_byte (hex_encode t)).
    { apply Forall_forall. intros x Hx. pose proof (hex_encode_token t Hb) as Hc. apply forallb_Forall in Hc.
      rewrite Forall_forall in Hc. apply Hc in Hx. unfold token_char in Hx. rewrite orb_true_iff, !within_spec in Hx. unfold is_byte. lia. }
    rewrite <- length_bytes_of_string, bytes_of_string_of_bytes, H3, Hl, hex_encode_token by done. done.
Qed.

(** ** Lookup *)

Lemma lookup_matched req l sid : foldl (lookup_step req) (1%Z, sid) l = (1%Z, sid).
Proof.
  induction l as [|e l IH]; [done|]. cbn [foldl lookup_step]. rewrite andb_false_r.
  unfold ConstantTimeCompare. destruct (bool_decide _); exact IH.
Qed.

(** The first entry with the token. *)
Lemma Lookup_first s req :
  Lookup s req = match list_find (λ e, token e = req) (entries s) with Some (_, e) => (sourceID e, true) | None => ("", false) end.
Proof.
  unfold Lookup. destruct s as [l err]. cbn [entries]. induction l as [|e l IH]; [done|]. cbn [foldl list_find].
  unfold lookup_step at 2, ConstantTimeCompare. destruct (decide (token e = req)) as [He|He].
  - rewrite bool_decide_true by done. cbn [Z.lor Z.eqb andb]. by rewrite lookup_matched.
  - rewrite bool_decide_false by done. cbn [Z.lor Z.eqb andb]. change (Z.lor 0 0) with 0%Z. rewrite IH. by destruct (list_find _ l) as [[i e']|].
Qed.

(** Tokens are never shared and well formed. *)
Record tokens_ok (s : TokenStore) : Prop := {
  tk_unique : NoDup (token <$> entries s);
  tk_ids : Forall (λ e, validSourceID (sourceID e) = true) (entries s);
  tk_tokens : Forall (λ e, length (token e) = 32%nat ∧ Forall is_byte (token e)) (entries s);
}.

Lemma Lookup_spec s req sid :
  tokens_ok s → Lookup s req = (sid, true) ↔ mkToken req sid ∈ entries s.
Proof.
  intros [Hu _ _]. rewrite Lookup_first. split.
  - destruct (list_find _ _) as [[i e]|] eqn:E; [|done]. intros [= <-].
    apply list_find_Some in E as (E & <- & _). apply list_elem_of_lookup_2 in E. by destruct e.
  - intros Hin. destruct (list_find _ _) as [[i e]|] eqn:E.
    + apply list_find_Some in E as (E & He & _). apply list_elem_of_lookup_1 in Hin as [j Hj].
      assert (i = j) as ->.
      { eapply NoDup_lookup; [exact Hu| |]; rewrite list_lookup_fmap; [by rewrite E|by rewrite Hj; cbn; rewrite He]. }
      rewrite E in Hj. by injection Hj as ->.
    + apply list_find_None in E. rewrite Forall_forall in E. by apply E in Hin.
Qed.

Lemma Lookup_refuses s req : (Lookup s req).2 = false ↔ req ∉ token <$> entries s.
Proof.
  rewrite Lookup_first. destruct (list_find _ _) as [[i e]|] eqn:E; cbn.
  - apply list_find_Some in E as (E & He & _). split; [done|]. intros []. apply list_elem_of_fmap. exists e.
    split; [done|by eapply list_elem_of_lookup_2].
  - apply list_find_None in E. split; [|done]. intros _ (e & -> & He)%list_elem_of_fmap. rewrite Forall_forall in E. by apply E in He.
Qed.

(** ** What a reload loads *)

(** What a call of a reload says of the tokens: the id read, the token
    that the answer decodes to, the id reported. *)
Definition read_of (e : event token_sig) : option string :=
  match ev_op e with SourceRead sid => Some sid | _ => None end.
Definition token_read (e : event token_sig) : option tokenEntry :=
  match ev_op e as o return token_ans o → option tokenEntry with
  | SourceRead sid => λ r, match r with Ok s => (λ t, mkToken t sid) <$> decodeToken s | Err _ => None end
  | _ => λ _, None
  end (ev_ans e).
Definition reported (e : event token_sig) : option string :=
  match ev_op e with OnError sid => Some sid | _ => None end.

Definition occurrences (t : bytes) (l : list tokenEntry) : nat := length (filter (λ e, token e = t) l).
(** The entries whose token no other entry has. *)
Definition unshared (l : list tokenEntry) : list tokenEntry := filter (λ e, (occurrences (token e) l ≤ 1)%nat) l.

Lemma occurrences_app t l k : occurrences t (l ++ k)%list = (occurrences t l + occurrences t k)%nat.
Proof. unfold occurrences. by rewrite filter_app, length_app. Qed.

(** What a part of a history tells: the ids read, the tokens they have, the
    ids reported. *)
Definition tells (l : trace token_sig) (ids : list string) (toks : list tokenEntry) (bad : list string) : Prop :=
  omap read_of l = ids ∧ omap token_read l = toks ∧ omap reported l = bad.

Lemma tells_app l k ids ids' toks toks' bad bad' :
  tells l ids toks bad → tells k ids' toks' bad' →
  tells (l ++ k)%list (ids ++ ids')%list (toks ++ toks')%list (bad ++ bad')%list.
Proof. intros (<- & <- & <-) (<- & <- & <-). unfold tells. by rewrite !omap_app. Qed.

Section facts.
Context (cfg : ReloadConfig).

Definition hooked (bad : list string) : list string := if has_hook cfg then bad else [].

Lemma hooked_app l k : hooked (l ++ k)%list = (hooked l ++ hooked k)%list.
Proof. unfold hooked. by destruct (has_hook cfg). Qed.

Lemma post_ask {A} o (k : token_ans o → prog A) (h : trace token_sig) (Q : trace token_sig → A → Prop) :
  (∀ r, post (k r) (h ++ [Event (Σ := token_sig) o r])%list Q) → post (let! r := ask o in k r) h Q.
Proof. done. Qed.

Lemma report_post msg shown sid (h : trace token_sig) (Q : trace token_sig → unit → Prop) :
  (∀ l, tells l [] [] (hooked [sid]) → Q (h ++ l)%list tt) → post (report cfg msg shown sid) h Q.
Proof.
  intros HQ. unfold report. apply post_bind. cbn. intros []. unfold hooked in HQ. destruct (has_hook cfg); cbn.
  - intros []. rewrite <- app_assoc. by apply HQ.
  - by apply HQ.
Qed.

(** A token that was read in good form. *)
Definition good_entry (e : tokenEntry) : Prop :=
  validSourceID (sourceID e) = true ∧ length (token e) = 32%nat ∧ Forall is_byte (token e).

Lemma pass1_post ids counts parsed (h : trace token_sig) :
  (∀ t, default 0%nat (counts !! t) = occurrences t parsed) →
  post (pass1 cfg ids counts parsed) h (λ h' r, ∃ l toks bad,
    h' = (h ++ l)%list ∧ tells l (filter (λ sid, validSourceID sid = true) ids) toks (hooked bad) ∧
    r.2 = (parsed ++ toks)%list ∧ (∀ t, default 0%nat (r.1 !! t) = occurrences t r.2) ∧
    ((sourceID <$> toks) ++ bad)%list ≡ₚ ids ∧ Forall good_entry toks).
Proof.
  revert counts parsed h. induction ids as [|sid ids IH]; intros counts parsed h Hc; cbn [pass1].
  { cbn. exists [], [], []. rewrite !app_nil_r. unfold hooked. by destruct (has_hook cfg). }
  (* the id is reported and the loop goes on *)
  assert (Hbad : ∀ msg shown l0 ids0, tells l0 ids0 [] [] → filter (λ sid, validSourceID sid = true) (sid :: ids) = (ids0 ++ filter (λ sid, validSourceID sid = true) ids)%list →
    post (bind (report cfg msg shown sid) (λ _, pass1 cfg ids counts parsed)) (h ++ l0)%list (λ h' r, ∃ l toks bad,
      h' = (h ++ l)%list ∧ tells l (filter (λ sid, validSourceID sid = true) (sid :: ids)) toks (hooked bad) ∧
      r.2 = (parsed ++ toks)%list ∧ (∀ t, default 0%nat (r.1 !! t) = occurrences t r.2) ∧
      ((sourceID <$> toks) ++ bad)%list ≡ₚ sid :: ids ∧ Forall good_entry toks)).
  { intros msg shown l0 ids0 Hl0 Hf. apply post_bind, report_post. intros l1 Hl1. eapply post_mono; [|apply IH, Hc].
    intros h' r (l & toks & bad & -> & Hl & Hr & Hr2 & Hp & Hg). exists (l0 ++ l1 ++ l)%list, toks, (sid :: bad).
    rewrite <- !app_assoc, Hf. split_and!; [done| |done|done| |done].
    - change (sid :: bad) with ([sid] ++ bad)%list. rewrite hooked_app.
      exact (tells_app _ _ _ _ _ _ _ _ Hl0 (tells_app _ _ _ _ _ _ _ _ Hl1 Hl)).
    - rewrite <- Hp. by rewrite Permutation_middle. }
  destruct (validSourceID sid) eqn:Hv; cbn [negb].
  2: { specialize (Hbad "source_id malformed" (sanitizeForLog sid) [] []). rewrite app_nil_r in Hbad. apply Hbad; [done|].
       by rewrite filter_cons, decide_False by by rewrite Hv. }
  assert (Hf : filter (λ sid, validSourceID sid = true) (sid :: ids) = ([sid] ++ filter (λ sid, validSourceID sid = true) ids)%list).
  { by rewrite filter_cons, decide_True. }
  apply post_ask. intros [tokStr|e]; cbv beta iota; [|by apply (Hbad _ sid [Event (Σ := token_sig) (SourceRead sid) (Err e)] [sid])].
  destruct (decodeToken tokStr) as [tok|] eqn:Ht.
  2: { apply (Hbad _ sid [Event (Σ := token_sig) (SourceRead sid) (Ok tokStr)] [sid]); [|exact Hf]. unfold tells. cbn. by rewrite Ht. }
  eapply post_mono; [|apply IH].
  - intros h' r (l & toks & bad & -> & Hl & Hr & Hr2 & Hp & Hg).
    exists (Event (Σ := token_sig) (SourceRead sid) (Ok tokStr) :: l), (mkToken tok sid :: toks), bad.
    rewrite Hf, Hr, <- !app_assoc. split_and!; [done| |done|by rewrite Hr in Hr2; rewrite <- app_assoc in Hr2|cbn; by rewrite Hp|].
    + eapply (tells_app [_] l [sid] _ [mkToken tok sid] toks [] _); [|exact Hl]. unfold tells. cbn. by rewrite Ht.
    + constructor; [|done]. apply decodeToken_spec in Ht as (H1 & H2 & _). done.
  - intros t. rewrite occurrences_app, <- Hc. unfold count_token. destruct (decide (t = tok)) as [->|Hne].
    + rewrite lookup_insert_eq. unfold occurrences. rewrite filter_cons, decide_True by done. cbn. lia.
    + rewrite lookup_insert_ne by done. unfold occurrences. rewrite filter_cons, decide_False by done. cbn. lia.
Qed.

Lemma pass2_post counts parsed next (h : trace token_sig) :
  post (pass2 cfg counts parsed next) h (λ h' r, ∃ l bad,
    h' = (h ++ l)%list ∧ tells l [] [] (hooked bad) ∧
    r = (next ++ filter (λ e, (default 0 (counts !! token e) ≤ 1)%nat) parsed)%list ∧
    ((sourceID <$> filter (λ e, (default 0 (counts !! token e) ≤ 1)%nat) parsed) ++ bad)%list ≡ₚ sourceID <$> parsed).
Proof.
  revert next h. induction parsed as [|e parsed IH]; intros next h; cbn [pass2].
  { cbn. exists [], []. rewrite !app_nil_r. unfold hooked. by destruct (has_hook cfg). }
  rewrite filter_cons. destruct (Nat.ltb_spec 1 (default 0 (counts !! token e))) as [Hc|Hc].
  - rewrite decide_False by lia. apply post_bind, report_post. intros l1 Hl1. eapply post_mono; [|apply IH].
    intros h' r (l & bad & -> & Hl & -> & Hp). exists (l1 ++ l)%list, (sourceID e :: bad). rewrite <- app_assoc.
    split_and!; [done| |done|].
    + change (sourceID e :: bad) with ([sourceID e] ++ bad)%list. rewrite hooked_app. exact (tells_app _ _ _ _ _ _ _ _ Hl1 Hl).
    + rewrite fmap_cons, <- Hp. by rewrite Permutation_middle.
  - rewrite decide_True by lia. eapply post_mono; [|apply IH]. intros h' r (l & bad & -> & Hl & -> & Hp).
    exists l, bad. rewrite <- app_assoc. split_and!; [done|done|done|]. rewrite !fmap_cons. cbn [app]. by rewrite Hp.
Qed.

Lemma occurrences_filter (P : tokenEntry → Prop) `{∀ e, Decision (P e)} t l : (occurrences t (filter P l) ≤ occurrences t l)%nat.
Proof.
  unfold occurrences. induction l as [|e l IH]; [done|]. rewrite !filter_cons.
  destruct (decide (P e)); rewrite ?filter_cons; destruct (decide (token e = t)); cbn [length]; lia.
Qed.

Lemma occurrences_unique l : (∀ e, e ∈ l → (occurrences (token e) l ≤ 1)%nat) → NoDup (token <$> l).
Proof.
  induction l as [|e l IH]; intros Hl; [constructor|]. rewrite fmap_cons. apply NoDup_cons. split.
  - intros (e' & He & Hin)%list_elem_of_fmap. specialize (Hl e ltac:(by left)). unfold occurrences in Hl.
    rewrite filter_cons, decide_True in Hl by done. cbn in Hl.
    assert (Hf : e' ∈ filter (λ x, token x = token e) l) by by apply list_elem_of_filter.
    destruct (filter _ l); [by apply elem_of_nil in Hf|cbn in Hl; lia].
  - apply IH. intros x Hx. specialize (Hl x ltac:(by right)). unfold occurrences in *. rewrite filter_cons in Hl.
    case_decide; cbn in Hl; lia.
Qed.

Lemma unshared_unique l : NoDup (token <$> unshared l).
Proof.
  apply occurrences_unique. intros e [He _]%list_elem_of_filter. etrans; [|exact He]. apply occurrences_filter.
Qed.

Lemma filter_counts (counts : gmap bytes nat) (l : list tokenEntry) :
  (∀ t, default 0%nat (counts !! t) = occurrences t l) →
  filter (λ e, (default 0 (counts !! token e) ≤ 1)%nat) l = unshared l.
Proof. intros Hc. unfold unshared. apply list_filter_iff. intros e. by rewrite Hc. Qed.

(** What a reload leaves: either the source could not be listed, and the
    store keeps its tokens; or it holds those entries of the valid ids, in
    the order of the list, whose answers decode to a token that no other
    one has, and every other id was reported. *)
Definition reloaded (s : TokenStore) (h : trace token_sig) (r : TokenStore * res string ()) : Prop :=
  (∃ e, h = [Event (Σ := token_sig) SourceList (Err e)] ∧ r = (mkTokens (entries s) (Some e), Err ("list tokens: " ++ e))) ∨
  (∃ ids l bad,
     h = Event (Σ := token_sig) SourceList (Ok ids) :: l ∧
     omap read_of l = filter (λ sid, validSourceID sid = true) ids ∧
     r = (mkTokens (unshared (omap token_read l)) None, Ok tt) ∧
     omap reported l = hooked bad ∧
     ((sourceID <$> unshared (omap token_read l)) ++ bad)%list ≡ₚ ids).

Lemma Reload_post s : post (Reload cfg s) [] (λ h r, reloaded s h r ∧ (tokens_ok s → tokens_ok r.1)).
Proof.
  apply post_ask. intros [ids|e]; cbv beta iota.
  2: { split; [left; by exists e|]. intros [H1 H2 H3]. by constructor. }
  apply post_bind. eapply post_mono; [|by apply (pass1_post ids ∅ [])].
  intros h' [counts parsed] (l & toks & bad & -> & Hl & Hr & Hc & Hp & Hg). cbn [fst snd app] in *. subst parsed.
  apply post_bind. eapply post_mono; [|apply pass2_post]. intros h' r (l2 & bad2 & -> & Hl2 & -> & Hp2).
  cbn [app] in *. rewrite filter_counts in Hp2 |- * by done. cbn [post].
  pose proof (tells_app _ _ _ _ _ _ _ _ Hl Hl2) as (H1 & H2 & H3). rewrite app_nil_r in H1, H2. split.
  - right. exists ids, (l ++ l2)%list, (bad ++ bad2)%list. rewrite H1, H2, H3, hooked_app. split_and!; [done..|].
    rewrite <- Hp, <- Hp2, <- app_assoc. by rewrite (Permutation_app_comm bad bad2).
  - intros _. assert (Hgood : Forall good_entry (unshared toks)).
    { apply Forall_forall. intros e [_ He]%list_elem_of_filter. by eapply Forall_forall in Hg. }
    constructor; cbn [entries fst]; [apply unshared_unique| |]; eapply Forall_impl; try exact Hgood; by intros e (? & ? & ?).
Qed.
End facts.

Lemma NewTokenStore_ok : tokens_ok NewTokenStore.
Proof. repeat constructor. Qed.

(** * internal/ingest/auth/source.go: where the tokens of a reload come from;
    the Vault client of tokens.go; and the choice of a source
    (archive_listener.go).

    The Vault API, the environment and the file system answer the operations
    of [source_sig]; json.Unmarshal into a map of strings is a parameter. *)

(** A decoded value of a Vault secret. *)
Inductive any := AnyString (s : string) | AnyList (l : list any) | AnyOther.

(** A secret that is nil, or has no data, is None. *)
Inductive source_op :=
| ListSecrets (path : string)
| KVGet (kvMount path : string)
| ReadTokenFile (path : string)
| Getenv (name : string)
| LoginK8s (addr role : string)
| Logged (msg sid : string)
| Hooked (sid : string).

Definition source_ans (o : source_op) : Type :=
  match o with
  | ListSecrets _ | KVGet _ _ => res string (option (gmap string any))
  | ReadTokenFile _ => res string bytes
  | Getenv _ => string
  | LoginK8s _ _ => res string ()
  | _ => unit
  end.

#[export] Instance source_sig : Sig := {| op := source_op; ans := source_ans |}.
Definition need (o : source_op) : prog (Σ := source_sig) (source_ans o) := call (Σ := source_sig) o.

Class TokenSource := {
  List_ : prog (Σ := source_sig) (res string (list string));
  Read_ : string → prog (Σ := source_sig) (res string string);
}.

Class VaultClient := {
  ListPath : string → string → prog (Σ := source_sig) (res string (list string));
  ReadKV : string → string → prog (Σ := source_sig) (res string (gmap string any));
}.

(** ** The Vault clients *)

Definition string_of_any (v : any) : option string := match v with AnyString s => Some s | _ => None end.

Definition productionVaultClient : VaultClient := {|
  ListPath kvMount path :=
    let! secret := need (ListSecrets (kvMount ++ "/metadata/" ++ path)) in
    match (secret : res string (option (gmap string any))) with
    | Err e => Ret (Err e)
    | Ok None => Ret (Ok [])
    | Ok (Some data) =>
        let keysRaw := match data !! "keys" with Some (AnyList l) => l | _ => [] end in
        Ret (Ok (omap string_of_any keysRaw))
    end;
  ReadKV kvMount path :=
    let! secret := need (KVGet kvMount path) in
    match (secret : res string (option (gmap string any))) with
    | Err e => Ret (Err e)
    | Ok None => Ret (Err ("secret not found: " ++ kvMount ++ "/" ++ path))
    | Ok (Some data) => Ret (Ok data)
    end;
|}.

Definition failingVaultClient (err : string) : VaultClient := {|
  ListPath _ _ := Ret (Err err);
  ReadKV _ _ := Ret (Err err);
|}.

Definition loginVault (addr role : string) : prog (Σ := source_sig) VaultClient :=
  let! r := need (LoginK8s addr role) in
  match (r : res string ()) with
  | Err e => Ret (failingVaultClient e)
  | Ok _ => Ret productionVaultClient
  end.

(** ** The sources *)

Definition VaultTokenSource (client : VaultClient) (kvMount basePath : string) : TokenSource := {|
  List_ := ListPath kvMount basePath;
  Read_ sourceID :=
    let! data := ReadKV kvMount (basePath ++ "/" ++ sourceID) in
    match data with
    | Err e => Ret (Err e)
    | Ok data => Ret (Ok (default "" (data !! "token" ≫= string_of_any)))
    end;
|}.

Section sources.
(** fmt's %q, and json.Unmarshal into a map[string]string. *)
Context (Quote : string → string) (UnmarshalTokens : bytes → res string (gmap string string)).

Definition EnvTokenSource (sid token : string) : TokenSource := {|
  List_ := Ret (Ok (if String.eqb sid "" || String.eqb token "" then [] else [sid]));
  Read_ sourceID :=
    Ret (if negb (String.eqb sourceID sid) || String.eqb sid ""
         then Err ("env token source: unknown source-id " ++ Quote sourceID) else Ok token);
|}.

(** FileTokenSource.load *)
Definition load (path : string) : prog (Σ := source_sig) (res string (gmap string string)) :=
  let! raw := need (ReadTokenFile path) in
  match (raw : res string bytes) with
  | Err e => Ret (Err ("file token source: read " ++ path ++ ": " ++ e))
  | Ok raw =>
      match UnmarshalTokens raw with
      | Err e => Ret (Err ("file token source: parse " ++ path ++ ": " ++ e))
      | Ok m => Ret (Ok m)
      end
  end.

Definition FileTokenSource (path : string) : TokenSource := {|
  List_ :=
    let! m := load path in
    match m with Err e => Ret (Err e) | Ok m => Ret (Ok (sort_strings (map_to_list m).*1)) end;
  Read_ sourceID :=
    let! m := load path in
    match m with
    | Err e => Ret (Err e)
    | Ok m =>
        match m !! sourceID with
        | None => Ret (Err ("file token source: unknown source-id " ++ Quote sourceID))
        | Some tok => Ret (Ok tok)
        end
    end;
|}.

Definition buildTokenSource (cfg : IngestAuthConfig) : prog (Σ := source_sig) (res string TokenSource) :=
  if String.eqb (ASource cfg) "" || String.eqb (ASource cfg) "vault" then
    let! vc := loginVault (VaultAddr (Vault cfg)) (VaultRole (Vault cfg)) in
    Ret (Ok (VaultTokenSource vc (KVMount (Vault cfg)) (TokensPath (Vault cfg))))
  else if String.eqb (ASource cfg) "env" then
    let! sid := need (Getenv "GLOVEBOX_INGEST_SOURCE_ID") in
    let! tok := need (Getenv "GLOVEBOX_INGEST_TOKEN") in
    Ret (Ok (EnvTokenSource sid tok))
  else if String.eqb (ASource cfg) "file" then Ret (Ok (FileTokenSource (AFilePath cfg)))
  else Ret (Err ("unknown ingest.auth.source " ++ Quote (ASource cfg) ++ " (want vault|env|file)")).
End sources.

(** ** A reload over a source *)

Definition answer (T : TokenSource) (o : token_op) : prog (Σ := source_sig) (token_ans o) :=
  match o with
  | SourceList => List_
  | SourceRead sid => Read_ sid
  | LogError msg sid => need (Logged msg sid)
  | OnError sid => need (Hooked sid)
  end.

Fixpoint with_source {A} (T : TokenSource) (p : prog (Σ := token_sig) A) : prog (Σ := source_sig) A :=
  match p with
  | Ret a => Ret a
  | Do o k => let! r := answer T o in with_source T (k r)
  end.

Definition ReloadFrom (T : TokenSource) (cfg : ReloadConfig) (s : TokenStore) : prog (Σ := source_sig) (TokenStore * res string ()) :=
  with_source T (Reload cfg s).

Lemma run_bind {Σ : Sig} {A B} env h (p : prog A) (f : A → prog B) :
  run env h (bind p f) = run env (run env h p).1 (f (run env h p).2).
Proof. revert h. induction p as [a|o k IH]; intros h; cbn; [done|apply IH]. Qed.

(** What every history of a program satisfies, its run over a source
    satisfies, with the answers that the source gives. *)
Lemma with_source_run {A} (T : TokenSource) (env : environment source_sig) (G : ∀ o : op (Sig := token_sig), ans (Sig := token_sig) o → Prop)
    (p : prog (Σ := token_sig) A) h (ht : trace token_sig) Q :
  (∀ h o, G o (run env h (answer T o)).2) → Forall (λ e, G (ev_op e) (ev_ans e)) ht → post p ht Q →
  ∃ ht', Forall (λ e, G (ev_op e) (ev_ans e)) ht' ∧ Q ht' (run env h (with_source T p)).2.
Proof.
  intros HG. revert h ht. induction p as [a|o k IH]; intros h ht Hht Hp; cbn [with_source].
  { by exists ht. }
  rewrite run_bind. eapply IH; [|apply Hp]. apply Forall_app. split; [done|]. constructor; [apply HG|done].
Qed.

(** ** What a source presents *)

(** Whenever it is asked, the source lists the ids of the map, each once,
    and gives the text of each. *)
Record presents (T : TokenSource) (env : environment source_sig) (M : gmap string string) : Prop := {
  pr_list : ∀ h, ∃ ids, (run env h (List_ (TokenSource := T))).2 = Ok ids ∧ NoDup ids ∧ ∀ sid, sid ∈ ids ↔ is_Some (M !! sid);
  pr_read : ∀ h sid s, M !! sid = Some s → (run env h (Read_ (TokenSource := T) sid)).2 = Ok s;
}.

Lemma env_presents Quote env sid tok :
  presents (EnvTokenSource Quote sid tok) env (if String.eqb sid "" || String.eqb tok "" then ∅ else {[sid := tok]}).
Proof.
  split; cbn; intros h.
  - eexists. split; [done|]. destruct (_ || _); split.
    + constructor.
    + intros x. rewrite lookup_empty, elem_of_nil. split; [done|by intros []].
    + apply NoDup_singleton.
    + intros x. rewrite list_elem_of_singleton. split; [intros ->; by rewrite lookup_singleton_eq|].
      intros [y [-> _]%lookup_singleton_Some]. done.
  - intros x s. destruct (String.eqb_spec sid ""); cbn; [by rewrite lookup_empty|].
    destruct (String.eqb tok ""); cbn; [by rewrite lookup_empty|]. intros [-> ->]%lookup_singleton_Some.
    by rewrite String.eqb_refl.
Qed.

Lemma file_presents Quote Unmarshal (env : environment source_sig) path raw M :
  (∀ h, env h (ReadTokenFile path) = Ok raw) → Unmarshal raw = Ok M → presents (FileTokenSource Quote Unmarshal path) env M.
Proof.
  intros Hr HM. split; cbn; intros h.
  - rewrite Hr, HM. cbn. eexists. split; [done|]. split.
    + rewrite sort_strings_Permutation. apply NoDup_fst_map_to_list.
    + intros sid. rewrite elem_of_sort_strings, list_elem_of_fmap. split.
      * intros ([k v] & -> & Hkv%elem_of_map_to_list). by exists v.
      * intros [v Hv]. exists (sid, v). split; [done|by apply elem_of_map_to_list].
  - intros sid s Hs. rewrite Hr, HM. cbn. by rewrite Hs.
Qed.

(** Vault with the map's ids under the path, each with its secret. *)
Lemma vault_presents (env : environment source_sig) kvMount base (ids : list string) M :
  (∀ h, env h (ListSecrets (kvMount ++ "/metadata/" ++ base)) = Ok (Some {["keys" := AnyList (AnyString <$> ids)]})) →
  NoDup ids → (∀ sid, sid ∈ ids ↔ is_Some (M !! sid)) →
  (∀ h sid s, M !! sid = Some s → ∃ data, env h (KVGet kvMount (base ++ "/" ++ sid)) = Ok (Some data) ∧
     default "" (data !! "token" ≫= string_of_any) = s) →
  presents (VaultTokenSource productionVaultClient kvMount base) env M.
Proof.
  intros Hl Hnd Hids Hr. split; cbn [List_ Read_ VaultTokenSource ListPath ReadKV productionVaultClient]; intros h.
  - cbn. rewrite Hl. cbn. eexists. split; [done|]. rewrite lookup_singleton_eq.
    assert (E : omap string_of_any (AnyString <$> ids) = ids).
    { clear. induction ids as [|i ids IH]; [done|]. cbn. by rewrite IH. }
    rewrite E. done.
  - intros sid s Hs. destruct (Hr h sid s Hs) as (data & Hd & <-). cbn. rewrite Hd. done.
Qed.

(** ** What a reload loads from such a source *)

Lemma decodeToken_inj txt txt' t : decodeToken txt = Some t → decodeToken txt' = Some t → txt = txt'.
Proof. intros (_ & _ & ->)%decodeToken_spec (_ & _ & ->)%decodeToken_spec. done. Qed.

Lemma event_cases (ev : event token_sig) e :
  token_read ev = Some e →
  ∃ txt, ev = Event (Σ := token_sig) (SourceRead (sourceID e)) (Ok txt) ∧ decodeToken txt = Some (token e).
Proof.
  destruct ev as [[|sid|msg sid|sid] r]; cbn in r |- *; [done| |done..]. destruct r as [txt|]; [|done].
  destruct (decodeToken txt) as [t|] eqn:E; [|done]. intros [= <-]. by exists txt.
Qed.

Lemma read_once (l : trace token_sig) : (sourceID <$> omap token_read l) `sublist_of` omap read_of l.
Proof.
  induction l as [|ev l IH]; [done|]. destruct (token_read ev) as [e|] eqn:E.
  - destruct (event_cases ev e E) as (txt & -> & Ht). cbn in E |- *. rewrite Ht in E |- *. cbn in E |- *. injection E as <-.
    cbn. by constructor.
  - cbn [omap list_omap]. rewrite E. destruct (read_of ev); [by constructor|done].
Qed.

Lemma unshared_alone (l : list tokenEntry) e :
  e ∈ unshared l → e ∈ l ∧ ∀ e', e' ∈ l → token e' = token e → e' = e.
Proof.
  unfold unshared, occurrences. intros [Hl He]%list_elem_of_filter. split; [done|]. intros e' He' Ht.
  assert (H1 : e ∈ filter (λ x, token x = token e) l) by by apply list_elem_of_filter.
  assert (H2 : e' ∈ filter (λ x, token x = token e) l) by by apply list_elem_of_filter.
  destruct (filter _ l) as [|x [|y k]]; [by apply elem_of_nil in H1| |cbn in Hl; lia].
  apply list_elem_of_singleton in H1, H2. congruence.
Qed.

Lemma unshared_spec (l : list tokenEntry) e :
  NoDup l → e ∈ unshared l ↔ e ∈ l ∧ ∀ e', e' ∈ l → token e' = token e → e' = e.
Proof.
  intros Hnd. split; [apply unshared_alone|]. unfold unshared, occurrences. rewrite list_elem_of_filter.
  intros [He Hu]. split; [|done]. assert (Hnd2 : NoDup (filter (λ x, token x = token e) l)) by by apply NoDup_filter.
  destruct (filter (λ x, token x = token e) l) as [|x [|y k]] eqn:E; [cbn; lia|cbn; lia|]. exfalso.
  assert (Hx : x ∈ filter (λ x, token x = token e) l) by (rewrite E; left).
  assert (Hy : y ∈ filter (λ x, token x = token e) l) by (rewrite E; right; left).
  apply list_elem_of_filter in Hx as [Hx1 Hx2], Hy as [Hy1 Hy2]. apply Hu in Hx1, Hy1; [|done..]. subst.
  apply NoDup_cons in Hnd2 as [Hn _]. apply Hn. left.
Qed.

(** The token [t] is the text that the map holds for [sid], a well-formed id,
    and for no other one. *)
Definition provisioned (M : gmap string string) (t : bytes) (sid : string) : Prop :=
  ∃ txt, M !! sid = Some txt ∧ validSourceID sid = true ∧ decodeToken txt = Some t ∧
    ∀ sid', validSourceID sid' = true → M !! sid' = Some txt → sid' = sid.

Section presented.
Context (T : TokenSource) (env : environment source_sig) (M : gmap string string) (HM : presents T env M).

Definition says (o : op (Sig := token_sig)) : ans (Sig := token_sig) o → Prop :=
  match o return ans (Sig := token_sig) o → Prop with
  | SourceList => λ r : res string (list string), ∃ ids, r = Ok ids ∧ NoDup ids ∧ ∀ sid, sid ∈ ids ↔ is_Some (M !! sid)
  | SourceRead sid => λ r : res string string, ∀ s, M !! sid = Some s → r = Ok s
  | _ => λ _, True
  end.

Lemma answers_say h o : says o (run env h (answer T o)).2.
Proof using HM. destruct o; cbn; [by apply HM|intros s; by apply HM|done..]. Qed.

Lemma parsed_spec ids (l : trace token_sig) e :
  Forall (λ ev, says (ev_op ev) (ev_ans ev)) l → (∀ sid, sid ∈ ids ↔ is_Some (M !! sid)) →
  omap read_of l = filter (λ sid, validSourceID sid = true) ids →
  e ∈ omap token_read l ↔
  validSourceID (sourceID e) = true ∧ ∃ txt, M !! sourceID e = Some txt ∧ decodeToken txt = Some (token e).
Proof using Type.
  intros Hl Hids Hr. rewrite Forall_forall in Hl. rewrite list_elem_of_omap. split.
  - intros (ev & Hev & E). destruct (event_cases ev e E) as (txt & -> & Ht).
    assert (Hin : sourceID e ∈ omap read_of l) by (apply list_elem_of_omap; by eexists).
    rewrite Hr in Hin. apply list_elem_of_filter in Hin as [Hv Hin]. split; [done|].
    apply Hids in Hin as [s Hs]. apply Hl in Hev. cbn in Hev. specialize (Hev s Hs). injection Hev as ->. by exists s.
  - intros (Hv & txt & Hs & Ht). assert (Hin : sourceID e ∈ omap read_of l).
    { rewrite Hr. apply list_elem_of_filter. split; [done|]. apply Hids. by eexists. }
    apply list_elem_of_omap in Hin as (ev & Hev & E). exists ev. split; [done|]. apply Hl in Hev.
    destruct ev as [[|sid|msg sid|sid] r]; [done| |done..]. cbn in E, Hev. injection E as ->. rewrite (Hev txt Hs).
    cbn. rewrite Ht. by destruct e.
Qed.

Lemma reload_presented cfg s h :
  tokens_ok s →
  let r := (run env h (ReloadFrom T cfg s)).2 in
  r.2 = Ok tt ∧ tokens_ok r.1 ∧ ∀ t sid, mkToken t sid ∈ entries r.1 ↔ provisioned M t sid.
Proof using HM.
  intros Hs. cbv zeta.
  destruct (with_source_run T env says (Reload cfg s) h [] _ answers_say (List.Forall_nil _) (Reload_post cfg s))
    as (ht & Hht & [(e & -> & _)|(ids & l & bad & -> & Hread & Hr & _)] & Hok).
  { apply Forall_cons in Hht as [(ids & E & _) _]. done. }
  fold (ReloadFrom T cfg s) in Hr, Hok. rewrite Hr in Hok |- *. split_and!; [done|by apply Hok|].
  apply Forall_cons in Hht as [(ids' & [= <-] & Hnd & Hids) Hl]. cbn [fst entries]. intros t sid.
  assert (Hnd2 : NoDup (omap token_read l)).
  { apply (NoDup_fmap_1 sourceID). eapply sublist_NoDup; [|apply read_once]. rewrite Hread. by apply NoDup_filter. }
  rewrite unshared_spec by done. rewrite (parsed_spec ids) by done. cbn [sourceID token]. split.
  - intros [(Hv & txt & Htxt & Ht) Hu]. exists txt. split_and!; [done..|]. intros sid' Hv' Htxt'.
    specialize (Hu (mkToken t sid')). rewrite (parsed_spec ids) in Hu by done. cbn [sourceID token] in Hu.
    assert (E : mkToken t sid' = mkToken t sid) by (apply Hu; [split; [done|by exists txt]|done]). by injection E.
  - intros (txt & Htxt & Hv & Ht & Hu). split; [split; [done|by exists txt]|]. intros [t' sid'] Hin Et. cbn in Et. subst t'.
    apply (parsed_spec ids) in Hin as (Hv' & txt' & Htxt' & Ht'); [|done..]. cbn in Hv', Htxt', Ht'.
    assert (txt' = txt) as -> by by eapply decodeToken_inj. by rewrite (Hu sid' Hv' Htxt').
Qed.

(** C21. The tokens served are those provisioned.  After a reload from a
    source that presents a map of source-ids to texts, whatever the store
    held before, a request's token is accepted, for a source-id, exactly when
    that id is well formed, the map's text for it is the token's lowercase
    hex form, and no other well-formed id has the same text: a token shared by
    two ids or more is accepted for none of them, and a token that was taken
    out of the source is accepted no longer. *)
Theorem reload_serves_the_provisioned cfg s h t sid :
  tokens_ok s →
  Lookup (run env h (ReloadFrom T cfg s)).2.1 t = (sid, true) ↔ provisioned M t sid.
Proof using HM.
  intros Hs. destruct (reload_presented cfg s h Hs) as (_ & Hok & He). by rewrite Lookup_spec, He.
Qed.
End presented.
