(* ===== verification/IRateLimit.v ===== *)
(** internal/ingest/auth/ratelimit.go: the budget of rejected requests, one
    bucket per address, in an LRU list of bounded length, and one for all.

    The token bucket of golang.org/x/time/rate is a parameter.  An element of
    the container/list and the bucketEntry it points to are shared between the
    list and the map: both hold the number of a cell. *)
From S2P Require Import Prelude GoStrings.
Local Open Scope string_scope.

(** golang.org/x/time/rate: Allow at a time gives the bucket after it. *)
Class RateLib := {
  Limit : Type;
  limiter : Type;
  Every : Z → Limit;
  NewLimiter : Limit → Z → limiter;
  Allow : Z → limiter → limiter * bool;
}.

(** Durations in nanoseconds. *)
Record RateLimitConfig := mkRateConfig {
  Window : Z;
  PerIPMaxRejected : Z;
  LRUCapacity : Z;
  GlobalMaxRejected : Z;
}.

Section ratelimit.
Context {lib : RateLib}.

Record bucketEntry := mkBucket { bip : string; blimiter : limiter }.

Record RateLimiter := mkRate {
  rcfg : RateLimitConfig;
  perIP : gmap string nat;
  lru : list nat;
  cells : gmap nat bucketEntry;
  fresh_cell : nat;
  global : limiter;
}.

Definition per_ip_limiter (cfg : RateLimitConfig) : limiter :=
  NewLimiter (Every (Z.quot (Window cfg) (PerIPMaxRejected cfg))) (PerIPMaxRejected cfg).
Definition global_limiter (cfg : RateLimitConfig) : limiter :=
  NewLimiter (Every (Z.quot (Window cfg) (GlobalMaxRejected cfg))) (GlobalMaxRejected cfg).

(** An error is a panic. *)
Definition NewRateLimiter (cfg : RateLimitConfig) : res string RateLimiter :=
  if (Window cfg <=? 0)%Z then Err "auth.NewRateLimiter: Window must be > 0"
  else if (PerIPMaxRejected cfg <=? 0)%Z then Err "auth.NewRateLimiter: PerIPMaxRejected must be > 0"
  else if (GlobalMaxRejected cfg <=? 0)%Z then Err "auth.NewRateLimiter: GlobalMaxRejected must be > 0"
  else
    let cfg := mkRateConfig (Window cfg) (PerIPMaxRejected cfg)
                 (if (LRUCapacity cfg <=? 0)%Z then 1000%Z else LRUCapacity cfg) (GlobalMaxRejected cfg) in
    Ok (mkRate cfg ∅ [] ∅ 0 (global_limiter cfg)).

Definition with_global (g : limiter) (r : RateLimiter) : RateLimiter :=
  mkRate (rcfg r) (perIP r) (lru r) (cells r) (fresh_cell r) g.

(** list.Remove *)
Definition unlink (el : nat) (l : list nat) : list nat := filter (λ x, x ≠ el) l.

(** The oldest entry goes when the list is full. *)
Definition evict (r : RateLimiter) : RateLimiter :=
  if (LRUCapacity (rcfg r) <=? Z.of_nat (length (lru r)))%Z then
    match last (lru r) with
    | None => r
    | Some old =>
        match cells r !! old with
        | None => r
        | Some b => mkRate (rcfg r) (delete (bip b) (perIP r)) (unlink old (lru r)) (cells r) (fresh_cell r) (global r)
        end
    end
  else r.

Definition push_front (ip : string) (r : RateLimiter) : RateLimiter :=
  let el := fresh_cell r in
  mkRate (rcfg r) (<[ip := el]> (perIP r)) (el :: lru r) (<[el := mkBucket ip (per_ip_limiter (rcfg r))]> (cells r))
    (S el) (global r).

Definition move_to_front (el : nat) (r : RateLimiter) : RateLimiter :=
  mkRate (rcfg r) (perIP r) (el :: unlink el (lru r)) (cells r) (fresh_cell r) (global r).

(** el.Value.limiter.Allow() *)
Definition allow_cell (now : Z) (el : nat) (r : RateLimiter) : RateLimiter * bool :=
  match cells r !! el with
  | None => (r, false)
  | Some b =>
      let '(l, ok) := Allow now (blimiter b) in
      (mkRate (rcfg r) (perIP r) (lru r) (<[el := mkBucket (bip b) l]> (cells r)) (fresh_cell r) (global r), ok)
  end.

(** The two buckets read the clock one after the other. *)
Definition AllowReject (now now' : Z) (ip : string) (r : RateLimiter) : RateLimiter * bool :=
  let '(g, ok) := Allow now (global r) in
  let r := with_global g r in
  if negb ok then (r, false)
  else match perIP r !! ip with
  | None => let r := push_front ip (evict r) in allow_cell now' (fresh_cell r - 1) r
  | Some el => allow_cell now' el (move_to_front el r)
  end.

(** ** The specification: a list of buckets, the latest used first *)

Record Buckets := mkBuckets { bcfg : RateLimitConfig; recent : list (string * limiter); shared : limiter }.

Definition bucket_of (ip : string) (l : list (string * limiter)) : option limiter := snd <$> (snd <$> list_find (λ b, b.1 = ip) l).
Definition forget (ip : string) (l : list (string * limiter)) : list (string * limiter) := filter (λ b, b.1 ≠ ip) l.

Definition spec_reject (now now' : Z) (ip : string) (s : Buckets) : Buckets * bool :=
  let '(g, ok) := Allow now (shared s) in
  if negb ok then (mkBuckets (bcfg s) (recent s) g, false)
  else
    let kept := match bucket_of ip (recent s) with
                | Some _ => forget ip (recent s)
                | None => if (LRUCapacity (bcfg s) <=? Z.of_nat (length (recent s)))%Z then removelast (recent s) else recent s
                end in
    let '(l, ok) := Allow now' (default (per_ip_limiter (bcfg s)) (bucket_of ip (recent s))) in
    (mkBuckets (bcfg s) ((ip, l) :: kept) g, ok).

(** ** The cells of the list *)

Definition cell_of (r : RateLimiter) (el : nat) : option (string * limiter) := (λ b, (bip b, blimiter b)) <$> cells r !! el.
Definition view (r : RateLimiter) : Buckets := mkBuckets (rcfg r) (omap (cell_of r) (lru r)) (global r).

Record rate_ok (r : RateLimiter) : Prop := {
  ra_nodup : NoDup (lru r);
  ra_cells : ∀ el, el ∈ lru r → (el < fresh_cell r)%nat ∧ ∃ b, cells r !! el = Some b ∧ perIP r !! bip b = Some el;
  ra_map : ∀ ip el, perIP r !! ip = Some el → el ∈ lru r ∧ ∃ l, cells r !! el = Some (mkBucket ip l);
  ra_size : (Z.of_nat (length (lru r)) ≤ LRUCapacity (rcfg r))%Z;
  ra_cap : (0 < LRUCapacity (rcfg r))%Z;
}.

Lemma elem_of_unlink el x l : x ∈ unlink el l ↔ x ∈ l ∧ x ≠ el.
Proof. unfold unlink. rewrite list_elem_of_filter. tauto. Qed.

Lemma unlink_last old l : NoDup (l ++ [old])%list → unlink old (l ++ [old])%list = l.
Proof.
  intros (Hl & Hd & _)%NoDup_app. unfold unlink. rewrite filter_app, filter_cons, decide_False by naive_solver. cbn.
  rewrite app_nil_r. assert (Hn : ∀ x, x ∈ l → x ≠ old) by (intros x Hx ->; apply (Hd old Hx); left).
  clear - Hn. induction l as [|x l IH]; [done|]. rewrite filter_cons, decide_True by (apply Hn; left).
  rewrite IH; [done|]. intros y Hy. apply Hn. by right.
Qed.

Lemma last_snoc_inv {A} (l : list A) (x : A) : last l = Some x → ∃ k, l = (k ++ [x])%list.
Proof. destruct l as [|y k _] using rev_ind; [done|]. rewrite last_snoc. intros [= ->]. by exists k. Qed.

Lemma omap_ext_in {A B} (f g : A → option B) (l : list A) : (∀ x, x ∈ l → f x = g x) → omap f l = omap g l.
Proof.
  induction l as [|x l IH]; intros H; [done|]. cbn. rewrite (H x) by left. destruct (g x); rewrite IH; try done; intros; apply H; by right.
Qed.

Section view.
Context (r : RateLimiter) (Hok : rate_ok r).

Lemma cell_known el : el ∈ lru r → ∃ b, cells r !! el = Some b ∧ perIP r !! bip b = Some el ∧ (el < fresh_cell r)%nat.
Proof using Hok. intros (Hf & b & Hb & Hp)%(ra_cells r Hok). eauto. Qed.

Lemma view_length L : (∀ el, el ∈ L → el ∈ lru r) → length (omap (cell_of r) L) = length L.
Proof using Hok.
  induction L as [|el L IH]; intros HL; [done|]. cbn. unfold cell_of at 1.
  destruct (cell_known el) as (b & -> & _); [apply HL; left|]. cbn. rewrite IH; [done|]. intros x Hx. apply HL. by right.
Qed.

Lemma view_none L ip : perIP r !! ip = None → (∀ el, el ∈ L → el ∈ lru r) → list_find (λ b, b.1 = ip) (omap (cell_of r) L) = None.
Proof using Hok.
  intros Hip HL. apply list_find_None, Forall_forall. intros [i l] (el & Hel & E)%list_elem_of_omap. cbn. intros ->.
  destruct (cell_known el) as (b & Hb & Hp & _); [by apply HL|]. unfold cell_of in E. rewrite Hb in E. cbn in E. congruence.
Qed.

Lemma bucket_view ip :
  bucket_of ip (recent (view r)) = (perIP r !! ip ≫= λ el, blimiter <$> cells r !! el).
Proof using Hok.
  unfold bucket_of. cbn. destruct (perIP r !! ip) as [el|] eqn:E; cbn; [|by rewrite view_none].
  destruct (ra_map r Hok ip el E) as (Hel & l & Hc). rewrite Hc. cbn.
  destruct (list_find (λ b, b.1 = ip) (omap (cell_of r) (lru r))) as [[i [j l']]|] eqn:F; cbn.
  - apply list_find_Some in F as (F & Hj & _). cbn in Hj. subst j.
    apply list_elem_of_lookup_2, list_elem_of_omap in F as (el' & Hel' & F).
    destruct (cell_known el') as (b & Hb & Hp & _); [done|]. unfold cell_of in F. rewrite Hb in F. cbn in F. injection F as Hbip <-.
    assert (el' = el) as -> by congruence. rewrite Hc in Hb. by injection Hb as <-.
  - apply list_find_None in F. rewrite Forall_forall in F. exfalso. apply (F (ip, l)); [|done].
    apply list_elem_of_omap. exists el. split; [done|]. unfold cell_of. by rewrite Hc.
Qed.

Lemma forget_view ip el L :
  perIP r !! ip = Some el → (∀ x, x ∈ L → x ∈ lru r) → forget ip (omap (cell_of r) L) = omap (cell_of r) (unlink el L).
Proof using Hok.
  intros Hip. induction L as [|x L IH]; intros HL; [done|]. unfold unlink. rewrite filter_cons. fold (unlink el L).
  cbn [omap list_omap]. destruct (cell_known x) as (b & Hb & Hp & _); [apply HL; left|].
  assert (Hc : cell_of r x = Some (bip b, blimiter b)) by (unfold cell_of; by rewrite Hb).
  rewrite Hc. unfold forget. rewrite filter_cons. fold (forget ip (omap (cell_of r) L)). cbn [fst].
  rewrite IH by (intros y Hy; apply HL; by right). destruct (decide (x = el)) as [->|Hne].
  - assert (bip b = ip) as ->. { destruct (ra_map r Hok ip el Hip) as (_ & l & E). rewrite E in Hb. by injection Hb as <-. }
    by rewrite !decide_False by naive_solver.
  - rewrite !decide_True; [|done|intros <-; congruence]. cbn [omap list_omap]. by rewrite Hc.
Qed.
End view.

(** *** The operations *)

Lemma with_global_ok g r : rate_ok r → rate_ok (with_global g r).
Proof. intros [H1 H2 H3 H4 H5]. by constructor. Qed.

Lemma evict_spec r ip :
  rate_ok r → perIP r !! ip = None →
  rate_ok (evict r) ∧ (Z.of_nat (length (lru (evict r))) < LRUCapacity (rcfg r))%Z ∧ perIP (evict r) !! ip = None ∧
  rcfg (evict r) = rcfg r ∧ fresh_cell (evict r) = fresh_cell r ∧ global (evict r) = global r ∧
  recent (view (evict r)) = if (LRUCapacity (rcfg r) <=? Z.of_nat (length (recent (view r))))%Z then removelast (recent (view r)) else recent (view r).
Proof.
  intros Hok Hip. unfold evict. cbn [recent view]. rewrite view_length by done.
  pose proof Hok as [Hnd Hc Hm Hs Hp]. destruct (Z.leb_spec (LRUCapacity (rcfg r)) (Z.of_nat (length (lru r)))); [|by split_and!].
  destruct (last (lru r)) as [old|] eqn:El; [|apply last_None in El; rewrite El in *; cbn in *; lia].
  destruct (last_snoc_inv _ _ El) as (k & Ek). assert (Hold : old ∈ lru r) by (rewrite Ek; set_solver).
  destruct (cell_known r Hok old Hold) as (b & Hb & Hpb & Hf). rewrite Hb. cbn [rcfg perIP lru cells fresh_cell global].
  rewrite Ek in Hnd. rewrite Ek, (unlink_last _ _ Hnd). rewrite Ek, length_app in Hs. cbn in Hs.
  assert (Hk : ∀ el, el ∈ k → el ∈ lru r ∧ el ≠ old).
  { intros el Hel. rewrite Ek. split; [set_solver|]. intros ->. apply NoDup_app in Hnd as (_ & Hd & _). apply (Hd old Hel). left. }
  split_and!; [|cbn; lia| |done..|].
  - constructor; cbn [rcfg perIP lru cells fresh_cell].
    + by apply NoDup_app in Hnd as (? & _).
    + intros el Hel. destruct (Hk el Hel) as [Hel2 Hne]. destruct (Hc el Hel2) as (Hlt & b' & Hb' & Hp'). split; [done|].
      exists b'. split; [done|]. rewrite lookup_delete_ne; [done|]. intros E. rewrite E in Hpb. congruence.
    + intros ip' el [Hne He]%lookup_delete_Some. destruct (Hm ip' el He) as (Hel & l & Hl). split; [|by exists l].
      rewrite Ek in Hel. apply elem_of_app in Hel as [?|Hel]; [done|]. apply list_elem_of_singleton in Hel as ->.
      rewrite Hl in Hb. by injection Hb as <-.
    + lia.
    + done.
  - by rewrite lookup_delete_None; right.
  - change (omap (cell_of r) k = removelast (omap (cell_of r) (k ++ [old])%list)). rewrite omap_app. cbn.
    unfold cell_of at 3. rewrite Hb. cbn. by rewrite removelast_last.
Qed.

Lemma push_spec r ip :
  rate_ok r → perIP r !! ip = None → (Z.of_nat (length (lru r)) < LRUCapacity (rcfg r))%Z →
  rate_ok (push_front ip r) ∧ recent (view (push_front ip r)) = (ip, per_ip_limiter (rcfg r)) :: recent (view r).
Proof.
  intros Hok Hip Hs. pose proof Hok as [Hnd Hc Hm _ Hp].
  assert (Hfresh : ∀ el, el ∈ lru r → el ≠ fresh_cell r). { intros el (Hlt & _)%Hc. lia. }
  assert (Hold : ∀ el, el ∈ lru r → cells (push_front ip r) !! el = cells r !! el).
  { intros el Hel. cbn. apply lookup_insert_ne. intros E. by apply (Hfresh el). }
  split.
  - constructor.
    + cbn. constructor; [intros H; by apply Hfresh in H|done].
    + intros el Hel. cbn [push_front lru fresh_cell perIP] in *. apply elem_of_cons in Hel as [->|Hel].
      * split; [lia|]. cbn. rewrite lookup_insert_eq. eexists. split; [done|]. apply lookup_insert_eq.
      * destruct (Hc el Hel) as (Hlt & b & Hb & Hpb). split; [lia|]. exists b. rewrite Hold by done. split; [done|].
        rewrite lookup_insert_ne; [done|]. intros E. rewrite E in Hip. congruence.
    + intros ip' el. cbn [push_front lru perIP]. intros [[-> <-]|[Hne He]]%lookup_insert_Some.
      * split; [left|]. eexists. cbn. apply lookup_insert_eq.
      * destruct (Hm ip' el He) as (Hel & l & Hl). split; [by right|]. exists l. by rewrite Hold.
    + cbn [push_front lru rcfg length]. lia.
    + done.
  - cbn [view recent push_front lru omap list_omap]. unfold cell_of at 1. cbn [cells push_front].
    rewrite lookup_insert_eq. cbn. f_equal. apply omap_ext_in. intros el Hel. unfold cell_of.
    by rewrite (Hold el Hel).
Qed.

Lemma move_spec r ip el l :
  rate_ok r → perIP r !! ip = Some el → cells r !! el = Some (mkBucket ip l) →
  rate_ok (move_to_front el r) ∧ recent (view (move_to_front el r)) = (ip, l) :: forget ip (recent (view r)).
Proof.
  intros Hok Hip Hl. pose proof Hok as [Hnd Hc Hm Hs Hp]. destruct (Hm ip el Hip) as (Hel & _).
  assert (Hin : ∀ x, x ∈ el :: unlink el (lru r) ↔ x ∈ lru r).
  { intros x. rewrite elem_of_cons, elem_of_unlink. destruct (decide (x = el)) as [->|]; tauto. }
  assert (Hnd2 : NoDup (el :: unlink el (lru r))).
  { constructor; [|by apply NoDup_filter]. by intros [_ ?]%elem_of_unlink. }
  assert (Hperm : el :: unlink el (lru r) ≡ₚ lru r) by by apply NoDup_Permutation.
  split.
  - constructor; cbn [move_to_front lru perIP cells rcfg fresh_cell]; [done|..|done].
    + intros x Hx%Hin. by apply Hc.
    + intros ip' x Hx. destruct (Hm ip' x Hx) as [? ?]. by rewrite Hin.
    + by rewrite Hperm.
  - cbn [view recent move_to_front lru omap list_omap]. unfold cell_of at 1. cbn [cells move_to_front]. rewrite Hl. cbn.
    by rewrite (forget_view r Hok ip el).
Qed.

Lemma allow_spec r now el rest b :
  rate_ok r → lru r = el :: rest → cells r !! el = Some b →
  let x := allow_cell now el r in
  rate_ok x.1 ∧ x.2 = (Allow now (blimiter b)).2 ∧ rcfg x.1 = rcfg r ∧ global x.1 = global r ∧
  ∀ tl, recent (view r) = (bip b, blimiter b) :: tl → recent (view x.1) = (bip b, (Allow now (blimiter b)).1) :: tl.
Proof.
  intros Hok Hlru Hb. unfold allow_cell. rewrite Hb. destruct (Allow now (blimiter b)) as [l ok]. cbn [fst snd].
  pose proof Hok as [Hnd Hc Hm Hs Hp].
  assert (Hcell : ∀ x ip lim, cells r !! x = Some (mkBucket ip lim) →
    ∃ lim', <[el := mkBucket (bip b) l]> (cells r) !! x = Some (mkBucket ip lim')).
  { intros x ip lim Hx. destruct (decide (x = el)) as [->|Hne].
    - rewrite Hb in Hx. injection Hx as ->. eexists. apply lookup_insert_eq.
    - exists lim. by rewrite lookup_insert_ne. }
  split_and!; [|done..|].
  - constructor; cbn [lru perIP cells rcfg fresh_cell]; [done|..|done|done].
    + intros x Hx. destruct (Hc x Hx) as (Hlt & [ip lim] & Hb' & Hp'). split; [done|].
      destruct (Hcell x ip lim Hb') as [lim' E]. exists (mkBucket ip lim'). by split.
    + intros ip x Hx. destruct (Hm ip x Hx) as (Hin & lim & E). split; [done|]. by apply (Hcell x ip lim).
  - intros tl. cbn [view recent lru]. rewrite Hlru in Hnd |- *. cbn [omap list_omap]. set (r' := mkRate _ _ _ _ _ _).
    assert (E1 : cell_of r el = Some (bip b, blimiter b)) by (unfold cell_of; by rewrite Hb).
    assert (E2 : cell_of r' el = Some (bip b, l)) by (unfold cell_of; cbn; by rewrite lookup_insert_eq).
    rewrite E1, E2. intros [= <-]. f_equal. apply omap_ext_in. intros x Hx. unfold cell_of. cbn [cells r'].
    rewrite lookup_insert_ne; [done|]. intros ->. by apply NoDup_cons in Hnd as [].
Qed.

(** ** The refinement *)

Lemma NewRateLimiter_ok cfg r : NewRateLimiter cfg = Ok r → rate_ok r ∧ recent (view r) = [].
Proof.
  unfold NewRateLimiter. destruct (Z.leb_spec (Window cfg) 0); [done|]. destruct (Z.leb_spec (PerIPMaxRejected cfg) 0); [done|].
  destruct (Z.leb_spec (GlobalMaxRejected cfg) 0); [done|]. intros [= <-]. split; [|done].
  assert (Hcap : (0 < LRUCapacity (mkRateConfig (Window cfg) (PerIPMaxRejected cfg) (if (LRUCapacity cfg <=? 0)%Z then 1000 else LRUCapacity cfg) (GlobalMaxRejected cfg)))%Z).
  { cbn. destruct (Z.leb_spec (LRUCapacity cfg) 0); lia. }
  constructor; cbn [lru perIP cells rcfg fresh_cell length]; [constructor|by intros el ?%elem_of_nil| |lia|done].
  intros ip el. by rewrite lookup_empty.
Qed.

Lemma AllowReject_refines now now' ip r :
  rate_ok r →
  let x := AllowReject now now' ip r in
  rate_ok x.1 ∧ spec_reject now now' ip (view r) = (view x.1, x.2).
Proof.
  intros Hok. unfold AllowReject, spec_reject. change (shared (view r)) with (global r). destruct (Allow now (global r)) as [g ok].
  set (s := with_global g r). pose proof (with_global_ok g r Hok : rate_ok s) as Hs.
  change (recent (view r)) with (recent (view s)). change (bcfg (view r)) with (rcfg s). change (perIP r) with (perIP s).
  destruct ok; cbn [negb]; [|by split]. rewrite (bucket_view s Hs ip). destruct (perIP s !! ip) as [el|] eqn:Hip.
  - destruct (ra_map s Hs ip el Hip) as (_ & l & Hl). cbn [mbind option_bind]. rewrite Hl. cbn [fmap option_fmap option_map blimiter].
    change (from_option id ?a (Some l)) with l.
    destruct (move_spec s ip el l Hs Hip Hl) as [Hm Hv].
    destruct (allow_spec (move_to_front el s) now' el (unlink el (lru s)) (mkBucket ip l) Hm eq_refl Hl) as (H1 & H2 & H3 & H4 & H5).
    specialize (H5 _ Hv). cbn [blimiter bip default from_option id] in *. destruct (Allow now' l) as [l' ok']. cbn [fst snd] in *. split; [done|].
    rewrite H2. f_equal. unfold view in H5 |- *. cbn [recent] in H5. rewrite H5, H3, H4. done.
  - cbn [mbind option_bind default from_option id].
    destruct (evict_spec s ip Hs Hip) as (He & Hlen & Hip' & E1 & E2 & E3 & E4).
    destruct (push_spec (evict s) ip He Hip') as [Hp Hv]; [by rewrite E1|].
    assert (Hcell : cells (push_front ip (evict s)) !! fresh_cell (evict s) = Some (mkBucket ip (per_ip_limiter (rcfg s)))).
    { cbn. by rewrite lookup_insert_eq, E1. }
    replace (fresh_cell (push_front ip (evict s)) - 1)%nat with (fresh_cell (evict s)) by (cbn; lia).
    destruct (allow_spec _ now' (fresh_cell (evict s)) (lru (evict s)) _ Hp eq_refl Hcell) as (H1 & H2 & H3 & H4 & H5).
    rewrite E1 in Hv. specialize (H5 _ Hv). cbn [blimiter bip] in *.
    destruct (Allow now' (per_ip_limiter (rcfg s))) as [l' ok']. cbn [fst snd] in *. split; [done|].
    rewrite H2. f_equal. unfold view in H5 |- *. cbn [recent] in H5. rewrite H5, H3, H4. cbn [push_front rcfg global].
    rewrite E1, E3. f_equal. f_equal. symmetry. exact E4.
Qed.

(** ** One bucket per address *)

(** The answers to a sequence of rejections, and the state after them. *)
Definition rejection : Type := Z * Z * string.
Fixpoint answers {S} (step : Z → Z → string → S → S * bool) (calls : list rejection) (s : S) : S * list bool :=
  match calls with
  | [] => (s, [])
  | (now, now', ip) :: rest =>
      let '(s, ok) := step now now' ip s in
      let '(s, oks) := answers step rest s in (s, ok :: oks)
  end.

(** The limiter without a bound on the addresses. *)
Record Simple := mkSimple { scfg_ : RateLimitConfig; buckets : gmap string limiter; all : limiter }.
Definition simple_reject (now now' : Z) (ip : string) (s : Simple) : Simple * bool :=
  let '(g, ok) := Allow now (all s) in
  if negb ok then (mkSimple (scfg_ s) (buckets s) g, false)
  else
    let '(l, ok) := Allow now' (default (per_ip_limiter (scfg_ s)) (buckets s !! ip)) in
    (mkSimple (scfg_ s) (<[ip := l]> (buckets s)) g, ok).

Lemma bucket_of_cons ip j l L : bucket_of ip ((j, l) :: L) = if decide (j = ip) then Some l else bucket_of ip L.
Proof. unfold bucket_of. cbn [list_find fst]. destruct (decide (j = ip)); [done|]. by destruct (list_find _ L) as [[? []]|]. Qed.

Lemma bucket_of_forget ip j L : ip ≠ j → bucket_of ip (forget j L) = bucket_of ip L.
Proof.
  intros Hne. induction L as [|[i l] L IH]; [done|]. unfold forget. rewrite filter_cons. fold (forget j L). cbn [fst].
  destruct (decide (i ≠ j)); rewrite ?bucket_of_cons, IH; [done|]. rewrite decide_False by naive_solver. done.
Qed.

Lemma bucket_of_known ip L : ip ∈ L.*1 ↔ is_Some (bucket_of ip L).
Proof.
  induction L as [|[i l] L IH]; [split; [by intros ?%elem_of_nil|by intros []]|].
  rewrite fmap_cons, elem_of_cons, bucket_of_cons. cbn [fst]. destruct (decide (i = ip)) as [->|].
  - split; [by eexists|by left].
  - rewrite IH. split; [intros [?|?]; [congruence|done]|by right].
Qed.

Lemma elem_of_forget i ip L : i ∈ (forget ip L).*1 ↔ i ∈ L.*1 ∧ i ≠ ip.
Proof.
  unfold forget. rewrite !list_elem_of_fmap. split.
  - intros ([j l] & -> & [Hne Hin]%list_elem_of_filter). split; [by eexists|done].
  - intros [([j l] & -> & Hin) Hne]. exists (j, l). split; [done|]. by apply list_elem_of_filter.
Qed.

Lemma NoDup_forget ip L : NoDup L.*1 → NoDup (forget ip L).*1.
Proof.
  intros H. eapply sublist_NoDup; [exact H|]. clear H. unfold forget. induction L as [|[i l] L IH]; [done|].
  rewrite filter_cons. destruct (decide _); rewrite !fmap_cons; [by apply sublist_skip|by apply sublist_cons].
Qed.

(** The list holds the buckets of the simple limiter, all of them of
    addresses in [S]. *)
Record same_buckets (S : gset string) (b : Buckets) (s : Simple) : Prop := {
  sb_cfg : bcfg b = scfg_ s;
  sb_all : shared b = all s;
  sb_buckets : ∀ ip, bucket_of ip (recent b) = buckets s !! ip;
  sb_nodup : NoDup (recent b).*1;
  sb_known : ∀ ip, ip ∈ (recent b).*1 → ip ∈ S;
}.

Lemma recent_short (S : gset string) (L : list (string * limiter)) (ip : string) :
  NoDup L.*1 → (∀ i, i ∈ L.*1 → i ∈ S) → ip ∈ S → ip ∉ L.*1 → (length L < size S)%nat.
Proof.
  intros Hnd Hin Hip Hnew. assert (Hle : (length (ip :: L.*1) ≤ size S)%nat).
  { rewrite <- (size_list_to_set (C := gset string)) by by constructor. apply subseteq_size. intros i Hi%elem_of_list_to_set.
    apply elem_of_cons in Hi as [->|Hi]; [done|by apply Hin]. }
  cbn in Hle. rewrite length_fmap in Hle. lia.
Qed.

Lemma simple_step (S : gset string) b s now now' ip :
  same_buckets S b s → ip ∈ S → (Z.of_nat (size S) ≤ LRUCapacity (scfg_ s))%Z →
  same_buckets S (spec_reject now now' ip b).1 (simple_reject now now' ip s).1 ∧
  (spec_reject now now' ip b).2 = (simple_reject now now' ip s).2 ∧ scfg_ (simple_reject now now' ip s).1 = scfg_ s.
Proof.
  intros [H1 H2 H3 H4 H5] Hip Hcap. unfold spec_reject, simple_reject. rewrite H1, H2, H3.
  destruct (Allow now (all s)) as [g ok]. destruct ok; cbn [negb]; [|by repeat split].
  destruct (buckets s !! ip) as [l|] eqn:E; cbn [default from_option id].
  - destruct (Allow now' l) as [l' ok]. cbn [fst snd]. split; [|done]. constructor; cbn [bcfg recent shared scfg_ buckets all]; [done|done|..].
    + intros i. rewrite bucket_of_cons. destruct (decide (ip = i)) as [->|Hne]; [by rewrite lookup_insert_eq|].
      by rewrite lookup_insert_ne, bucket_of_forget.
    + constructor; [rewrite elem_of_forget; by intros [_ []]|by apply NoDup_forget].
    + intros i [->|[Hi _]%elem_of_forget]%elem_of_cons; [done|by apply H5].
  - assert (Hnew : ip ∉ (recent b).*1) by (rewrite bucket_of_known, H3, E; by intros []).
    pose proof (recent_short S _ ip H4 H5 Hip Hnew) as Hlen. rewrite (proj2 (Z.leb_gt _ _)) by lia.
    destruct (Allow now' (per_ip_limiter (scfg_ s))) as [l' ok]. cbn [fst snd]. split; [|done].
    constructor; cbn [bcfg recent shared scfg_ buckets all]; [done|done|..].
    + intros i. rewrite bucket_of_cons. destruct (decide (ip = i)) as [->|Hne]; [by rewrite lookup_insert_eq|].
      by rewrite lookup_insert_ne.
    + by constructor.
    + intros i [->|Hi]%elem_of_cons; [done|by apply H5].
Qed.

Lemma answers_same (S : gset string) calls r s :
  rate_ok r → same_buckets S (view r) s → (∀ c, c ∈ calls → c.2 ∈ S) → (Z.of_nat (size S) ≤ LRUCapacity (scfg_ s))%Z →
  (answers AllowReject calls r).2 = (answers simple_reject calls s).2.
Proof.
  revert r s. induction calls as [|[[now now'] ip] calls IH]; intros r s Hok Hs Hin Hcap; [done|]. cbn [answers].
  destruct (AllowReject_refines now now' ip r Hok) as [Hok' Hr].
  destruct (simple_step S (view r) s now now' ip Hs (Hin (now, now', ip) ltac:(by left)) Hcap) as (Hs' & He & Hc).
  rewrite Hr in Hs', He. destruct (AllowReject now now' ip r) as [r' ok], (simple_reject now now' ip s) as [s' ok'].
  cbn [fst snd] in *. subst ok'. specialize (IH r' s' Hok' Hs' ltac:(intros c Hc'; apply Hin; by right)).
  rewrite Hc in IH. specialize (IH Hcap).
  destruct (answers AllowReject calls r') as [? oks], (answers simple_reject calls s') as [? oks']. cbn [snd] in *. congruence.
Qed.

Lemma after_ok calls r : rate_ok r → rate_ok (answers AllowReject calls r).1 ∧ rcfg (answers AllowReject calls r).1 = rcfg r.
Proof.
  revert r. induction calls as [|[[now now'] ip] calls IH]; intros r Hok; [done|]. cbn [answers].
  destruct (AllowReject_refines now now' ip r Hok) as [Hok' Hr].
  assert (Hc : rcfg (AllowReject now now' ip r).1 = rcfg r).
  { change (rcfg r) with (bcfg (view r)). change (rcfg ?x) with (bcfg (view x)). assert (E : view (AllowReject now now' ip r).1 = (spec_reject now now' ip (view r)).1) by by rewrite Hr.
    rewrite E. unfold spec_reject. destruct (Allow now _) as [g []]; cbn [negb]; [|done]. by destruct (Allow now' _). }
  destruct (AllowReject now now' ip r) as [r' ok]. cbn [fst] in *. destruct (IH r' Hok') as [IH1 IH2].
  destruct (answers AllowReject calls r') as [r2 oks]. cbn [fst] in *. split; [done|congruence].
Qed.

Lemma map_size r : rate_ok r → (Z.of_nat (size (perIP r)) ≤ LRUCapacity (rcfg r))%Z.
Proof.
  intros Hok. etrans; [|apply (ra_size r Hok)]. apply inj_le.
  rewrite <- length_map_to_list, <- (length_fmap snd). apply submseteq_length, NoDup_submseteq.
  - apply NoDup_fmap_2_strong; [|apply NoDup_map_to_list].
    intros [i el] [j el'] Hi%elem_of_map_to_list Hj%elem_of_map_to_list E. cbn in E. subst el'.
    destruct (ra_map r Hok i el Hi) as (_ & l & E1), (ra_map r Hok j el Hj) as (_ & l' & E2). congruence.
  - intros el ([i el'] & -> & Hi%elem_of_map_to_list)%list_elem_of_fmap. by apply (ra_map r Hok i).
Qed.

(** C30. The limiter of rejections is what it stands for, in bounded space.
    Whatever the sequence of rejections and the clock, it never holds more
    buckets than its capacity; and as long as no more distinct addresses than
    that were rejected, each answer is that of one bucket for all, asked
    first, and, if it allows, of one bucket per address, never shared and never reset by an eviction. *)
Theorem limiter_is_exact cfg r calls :
  NewRateLimiter cfg = Ok r →
  (Z.of_nat (size (perIP (answers AllowReject calls r).1)) ≤ LRUCapacity (rcfg r))%Z ∧
  ((Z.of_nat (size (list_to_set calls.*2 : gset string)) ≤ LRUCapacity (rcfg r))%Z →
   (answers AllowReject calls r).2 = (answers simple_reject calls (mkSimple (rcfg r) ∅ (global_limiter (rcfg r)))).2).
Proof.
  intros Hnew. destruct (NewRateLimiter_ok cfg r Hnew) as [Hok Hview]. split.
  - destruct (after_ok calls r Hok) as [H1 <-]. by apply map_size.
  - intros Hcap. eapply answers_same; [done| | |exact Hcap].
    + constructor; rewrite ?Hview; [done| |intros ip; cbn [buckets]; by rewrite lookup_empty|constructor|by intros ip ?%elem_of_nil].
      revert Hnew. unfold NewRateLimiter. repeat case_match; try done; by intros [= <-].
    + intros [[n n'] ip] Hc. apply elem_of_list_to_set, list_elem_of_fmap. by exists (n, n', ip).
Qed.
End ratelimit.
