(* ===== verification/IMiddleware.v ===== *)
(** internal/ingest/auth/proxy.go and middleware.go, with the networks that
    archive_listener.go parses: who a request comes from, and the bearer
    token that lets it through.

    Log lines are dropped; the metrics are the list of what is recorded. *)
From S2P Require Import Prelude GoStrings GoPath Utf8 GoNet ESign Effects AHandler ITokens IRateLimit.
Local Open Scope string_scope.

(** ** proxy.go *)

Record ProxyResolver := mkResolver { TrustedCIDRs : list IPNet }.

(** The address of the peer. *)
Definition peer_host (remoteAddr : string) : string :=
  match SplitHostPort remoteAddr with Some (host, _) => host | None => remoteAddr end.

Definition trusted (p : ProxyResolver) (peerIP : IP) : bool := existsb (λ c, Contains c peerIP) (TrustedCIDRs p).

Definition ResolveClientIP (p : ProxyResolver) (remoteAddr xff : string) : string :=
  let host := peer_host remoteAddr in
  if String.eqb xff "" then host
  else match ParseIP host with
  | None => host
  | Some peerIP =>
      if negb (trusted p peerIP) then host
      else
        let last := trim_space (List.last (split_on "," xff) "") in
        match ParseIP last with None => host | Some _ => last end
  end.

(** The low bytes are cleared. *)
Definition BucketIP (s : string) : string :=
  match ParseIP s with
  | None => "unknown"
  | Some ip =>
      match To4 ip with
      | Some ip4 => IP_String (take 3 ip4 ++ [0%Z])%list ++ "/24"
      | None =>
          match To16 ip with
          | None => "unknown"
          | Some ip6 => IP_String (take 8 ip6 ++ replicate 8 0%Z)%list ++ "/64"
          end
      end
  end.

(** parseTrustedCIDRs *)
Fixpoint parse_cidrs (strs : list string) : res string (list IPNet) :=
  match strs with
  | [] => Ok []
  | s :: rest =>
      match ParseCIDR s with
      | None => Err s
      | Some n => match parse_cidrs rest with Ok ns => Ok (n :: ns) | Err e => Err e end
      end
  end.
Definition parseTrustedCIDRs (strs : list string) : res string (list IPNet) :=
  if (length strs =? 0)%nat then Ok [] else parse_cidrs strs.

(** ** middleware.go *)

Inductive telemetry :=
| RecordAuth (endpoint status : string)
| RecordAuthRejectedByIP (ipBucket : string).

(** A request and the address of its peer; nothing has put a source-id into
    its context. *)
Record HttpRequest := mkHttp { RemoteAddr : string; HRequest : Request }.

(** ingest.WithDeliveredBy *)
Definition WithDeliveredBy (sid : string) (r : Request) : Request :=
  mkRequest (Method r) (URLPath r) (Header r) (Some sid) (RBody r).

Definition authBearerPrefix : string := "Bearer ".
Definition authTokenHexLen : nat := 64.

Definition endpointLabel (p : string) : string :=
  if has_prefix "/v1/archives" p then "/v1/archives"
  else if String.eqb p "/v1/ingest" then "/v1/ingest"
  else "other".

(** What the middleware does with a request. *)
Inductive verdict := Rejected (resp : Response) | Forwarded (r : Request).

(** A double quote. *)
Definition quoted (s : string) : string := String (ascii_of_nat 34) (s ++ String (ascii_of_nat 34) EmptyString).

Section middleware.
Context {lib : RateLib}.

(** The times are those at which the two buckets read the clock. *)
Definition onReject (now now' : Z) (r : Request) (rl : RateLimiter) (clientIP ipBucket : string)
    : RateLimiter * list telemetry * verdict :=
  let ep := endpointLabel (URLPath r) in
  let '(rl, ok) := AllowReject now now' clientIP rl in
  if negb ok then (rl, [RecordAuth ep "rate_limited"], Rejected (error_with 429 "rate limited" [("Retry-After", "60")]))
  else (rl, [RecordAuth ep "rejected"; RecordAuthRejectedByIP ipBucket],
        Rejected (error_with 401 "unauthorized" [("WWW-Authenticate", "Bearer error=" ++ quoted "invalid_token")])).

Definition Middleware (store : TokenStore) (pr : ProxyResolver) (now now' : Z) (rl : RateLimiter) (q : HttpRequest)
    : RateLimiter * list telemetry * verdict :=
  let r := HRequest q in
  let clientIP := ResolveClientIP pr (RemoteAddr q) (header r "X-Forwarded-For") in
  let ipBucket := BucketIP clientIP in
  let auth := header r "Authorization" in
  if negb (has_prefix authBearerPrefix auth) then onReject now now' r rl clientIP ipBucket
  else
    let hex := str_from (String.length authBearerPrefix) auth in
    if negb (String.length hex =? authTokenHexLen)%nat then onReject now now' r rl clientIP ipBucket
    else match decodeToken hex with
    | None => onReject now now' r rl clientIP ipBucket
    | Some tokBytes =>
        let '(sourceID, ok) := Lookup store tokBytes in
        if negb ok then onReject now now' r rl clientIP ipBucket
        else (rl, [RecordAuth (endpointLabel (URLPath r)) "accepted"], Forwarded (WithDeliveredBy sourceID r))
    end.
End middleware.

(** ** The address *)

(** A peer that is no trusted proxy is itself, whatever it forwards. *)
Lemma untrusted_is_itself p remoteAddr xff :
  (∀ ip, ParseIP (peer_host remoteAddr) = Some ip → trusted p ip = false) →
  ResolveClientIP p remoteAddr xff = peer_host remoteAddr.
Proof.
  intros H. unfold ResolveClientIP. destruct (String.eqb xff ""); [done|].
  destruct (ParseIP _) as [ip|]; [|done]. by rewrite (H ip).
Qed.

(** ** The token *)

(** The header of the request carries the token. *)
Definition bears (r : Request) (t : bytes) : Prop :=
  length t = 32%nat ∧ Forall is_byte t ∧ header r "Authorization" = authBearerPrefix ++ string_of_bytes (hex_encode t).

Lemma str_from_app p s : str_from (String.length p) (p ++ s) = s.
Proof.
  unfold str_from. induction p as [|a p IH]; [|exact IH]. change (String.substring 0 (String.length s - 0) s = s). rewrite Nat.sub_0_r.
  induction s as [|a s IH]; [done|]. cbn [String.length String.substring]. by rewrite IH.
Qed.

Section facts.
Context {lib : RateLib}.

Lemma onReject_rejects now now' r rl ip b : ∃ resp, (onReject now now' r rl ip b).2 = Rejected resp.
Proof. unfold onReject. destruct (AllowReject now now' ip rl) as [rl' []]; by eexists. Qed.

(** Exactly the requests that carry a token of the store are forwarded,
    as from the source whose token it is, and cost nothing. *)
Lemma Middleware_forwards store pr now now' rl q r' :
  (Middleware store pr now now' rl q).2 = Forwarded r' ↔
  ∃ t sid, bears (HRequest q) t ∧ Lookup store t = (sid, true) ∧ r' = WithDeliveredBy sid (HRequest q).
Proof.
  unfold Middleware. split.
  - set (ip := ResolveClientIP _ _ _). set (b := BucketIP ip).
    assert (Hno : (onReject now now' (HRequest q) rl ip b).2 ≠ Forwarded r').
    { by destruct (onReject_rejects now now' (HRequest q) rl ip b) as [resp ->]. }
    destruct (has_prefix authBearerPrefix _) eqn:Hp; cbn [negb]; [|done].
    apply has_prefix_split in Hp as [z Hz]. rewrite Hz, str_from_app.
    destruct (String.length z =? authTokenHexLen)%nat; cbn [negb]; [|done].
    destruct (decodeToken z) as [t|] eqn:Ht; [|done]. destruct (Lookup store t) as [sid ok] eqn:Hl.
    destruct ok; cbn [negb]; [|done]. intros [= <-]. apply decodeToken_spec in Ht as (H1 & H2 & ->). by exists t, sid.
  - intros (t & sid & (H1 & H2 & H3) & Hl & ->). rewrite H3, has_prefix_app. cbn [negb]. rewrite str_from_app.
    assert (Ht : decodeToken (string_of_bytes (hex_encode t)) = Some t) by by apply decodeToken_spec.
    assert (Hlen : String.length (string_of_bytes (hex_encode t)) = 64%nat).
    { unfold decodeToken in Ht. destruct (Nat.eqb_spec (String.length (string_of_bytes (hex_encode t))) 64); done. }
    rewrite Hlen. cbn [negb authTokenHexLen Nat.eqb]. rewrite Ht, Hl. done.
Qed.
End facts.
