(* ===== verification/IServer.v ===== *)
(** The archive service behind its authentication: the listener loads the
    tokens, every request goes through the middleware, and the tokens are
    reloaded while requests are served (archive_listener.go,
    internal/ingest/archives/listener.go). *)
From S2P Require Import Prelude GoStrings GoPath Utf8 ESign DSubject Effects ADisk AMeta ATar AStore AFinalize AHandler AFinalizeFacts AUploads AUpkeep AListener GoNet ITokens IRateLimit IMiddleware.
Local Open Scope string_scope.

(** What happens to the authentication: a reload, with all it called and was
    answered, and a request that was let through. *)
Inductive auth_event :=
| AReloaded (h : trace token_sig)
| AServed (q : HttpRequest).

Record server `{!RateLib} := mkServer {
  svc : phase * disk;
  tokens : TokenStore;
  rejections : RateLimiter;
}.

Section server.
Context {lib : ArchiveLib} {rlib : RateLib} (Quote : string → string) (UnmarshalDeliveredBy : bytes → option string).
Context (cfg : ArchiveListenerConfig) (rcfg : RateLimitConfig) (pr : ProxyResolver) (rconf : ReloadConfig).

Abbreviation root := (LStagingRoot cfg).
Abbreviation service_step := (sstep Quote UnmarshalDeliveredBy cfg).

(** A request as it arrives: the context holds no source-id. *)
Definition raw (q : HttpRequest) : Prop := ContextSource (HRequest q) = None.

(** The service's own steps. *)
Definition upkeep (a : action) : Prop := a = AClean ∨ a = AMeasure ∨ a = AKill None.

(** The tokens are loaded once before the start succeeds; when the file
    systems do not fit, the load does not matter. *)
Inductive astep : server → list auth_event → server → Prop :=
| TStart d d' tk0 rl0 rl env h tk r up :
    run env [] (Reload rconf NewTokenStore) = (h, (tk, r)) → NewRateLimiter rcfg = Ok rl →
    exec (Σ := archive_sig) dstep (StartArchiveListener cfg (is_ok r)) d d' up →
    astep (mkServer _ (Down, d) tk0 rl0) [AReloaded h] (mkServer _ (started up, d') tk rl)
| TReload s qs d tk rl env h tk' r :
    run env [] (Reload rconf tk) = (h, (tk', r)) →
    astep (mkServer _ (Running s qs, d) tk rl) [AReloaded h] (mkServer _ (Running s qs, d) tk' rl)
| TServe s qs d tk rl q now now' rl' tel r resp y :
    raw q → Middleware tk pr now now' rl q = (rl', tel, Forwarded r) →
    service_step (Running s qs, d) (AServe r resp) y →
    astep (mkServer _ (Running s qs, d) tk rl) [AServed q] (mkServer _ y tk rl')
| TReject s qs d tk rl q now now' rl' tel resp :
    raw q → Middleware tk pr now now' rl q = (rl', tel, Rejected resp) →
    astep (mkServer _ (Running s qs, d) tk rl) [] (mkServer _ (Running s qs, d) tk rl')
| TRefuse d tk rl q : raw q → astep (mkServer _ (Fallback, d) tk rl) [] (mkServer _ (Fallback, d) tk rl)
| TUpkeep x a y tk rl : upkeep a → service_step x a y → astep (mkServer _ x tk rl) [] (mkServer _ y tk rl)
| TKill s qs d tk rl q now now' rl' tel r y :
    raw q → Middleware tk pr now now' rl q = (rl', tel, Forwarded r) →
    service_step (Running s qs, d) (AKill (Some r)) y →
    astep (mkServer _ (Running s qs, d) tk rl) [AServed q] (mkServer _ y tk rl').

Inductive auth_run (d0 : disk) : server → list auth_event → Prop :=
| RStart tk rl : auth_run d0 (mkServer _ (Down, d0) tk rl) []
| RStep x log evs y : auth_run d0 x log → astep x evs y → auth_run d0 y (log ++ evs)%list.

(** In the reload [h] the source gave the token [t], in its text, for [src]
    and for no other id. *)
Definition vouches (h : trace token_sig) (t : bytes) (src : string) : Prop :=
  Event (Σ := token_sig) (SourceRead src) (Ok (string_of_bytes (hex_encode t))) ∈ h ∧
  ∀ src', Event (Σ := token_sig) (SourceRead src') (Ok (string_of_bytes (hex_encode t))) ∈ h → src' = src.

(** A request that carried such a token was let through after the reload. *)
Definition authenticated (log : list auth_event) (src : string) : Prop :=
  validSourceID src = true ∧
  ∃ l1 q l2 h t, log = (l1 ++ AServed q :: l2)%list ∧ bears (HRequest q) t ∧ AReloaded h ∈ l1 ∧ vouches h t src.

Definition backed (log : list auth_event) (tk : TokenStore) : Prop :=
  tokens_ok tk ∧ ∀ e, e ∈ entries tk → ∃ h, AReloaded h ∈ log ∧ vouches h (token e) (sourceID e).

(** ** What the store holds was vouched for *)

Lemma loaded_backed log tk env h tk' r :
  backed log tk → run env [] (Reload rconf tk) = (h, (tk', r)) → backed (log ++ [AReloaded h])%list tk'.
Proof using Type.
  intros [Hok Hb] Hrun. pose proof (post_run _ _ _ (Reload_post rconf tk) env) as Hp. rewrite Hrun in Hp.
  destruct Hp as [[(e & -> & [= -> ->])|(ids & l & bad & -> & Hread & [= -> ->] & _)] Hkeep]; (split; [by apply Hkeep|]); cbn [entries].
  - intros x (h' & Hh & Hv)%Hb. exists h'. split; [apply elem_of_app; by left|done].
  - intros x Hx. destruct (unshared_alone _ _ Hx) as [Hin Halone]. eexists. split; [apply elem_of_app; right; by apply list_elem_of_singleton|].
    apply list_elem_of_omap in Hin as (ev & Hev & E). destruct (event_cases ev x E) as (txt & -> & Ht).
    pose proof Ht as (_ & _ & Htxt)%decodeToken_spec. unfold vouches. rewrite <- Htxt. split; [by right|].
    intros src' [[=]|Hsrc]%elem_of_cons. specialize (Halone (mkToken (token x) src')). cbn in Halone.
    assert (Hin' : mkToken (token x) src' ∈ omap token_read l).
    { apply list_elem_of_omap. eexists. split; [exact Hsrc|]. cbn. by rewrite Ht. }
    specialize (Halone Hin' eq_refl). by rewrite <- Halone.
Qed.

Lemma backed_more log log' tk : backed log tk → backed (log ++ log')%list tk.
Proof using Type.
  intros [Hok Hb]. split; [done|]. intros e (h & Hh & Hv)%Hb. exists h. split; [apply elem_of_app; by left|done].
Qed.

Lemma authenticated_more log log' src : authenticated log src → authenticated (log ++ log')%list src.
Proof using Type.
  intros (Hv & l1 & q & l2 & h & t & -> & Hrest). split; [done|]. exists l1, q, (l2 ++ log')%list, h, t.
  by rewrite <- app_assoc.
Qed.

(** A request that is let through is authenticated, as from the source that
    its handler sees. *)
Lemma forwarded_authenticated log tk now now' rl q rl' tel r src :
  backed log tk → raw q → Middleware tk pr now now' rl q = (rl', tel, Forwarded r) → DeliveredBy r = Some src →
  authenticated (log ++ [AServed q])%list src.
Proof using Type.
  intros [Hok Hb] Hraw Hm Hsrc. assert (Hf : (Middleware tk pr now now' rl q).2 = Forwarded r) by by rewrite Hm.
  apply Middleware_forwards in Hf as (t & sid & Hbears & Hl & ->). apply Lookup_spec in Hl; [|done].
  assert (src = sid) as ->. { unfold DeliveredBy in Hsrc. cbn in Hsrc. destruct (String.eqb sid ""); congruence. }
  split.
  - pose proof (tk_ids tk Hok) as Hids. rewrite Forall_forall in Hids. by apply (Hids (mkToken t sid)).
  - destruct (Hb _ Hl) as (h & Hh & Hv). by exists log, q, [], h, t.
Qed.

Lemma NewTokenStore_backed log : backed log NewTokenStore.
Proof using Type. split; [apply NewTokenStore_ok|]. by intros e ?%elem_of_nil. Qed.

(** A run of the server is a run of the service in which every request was
    authenticated. *)
Lemma auth_run_history d0 x log :
  auth_run d0 x log →
  ∃ acts, history Quote UnmarshalDeliveredBy cfg d0 (svc x) acts ∧ (∀ src, asked acts src → authenticated log src) ∧
    (match (svc x).1 with Running _ _ => backed log (tokens x) | _ => True end).
Proof using Type.
  induction 1 as [tk rl|x log evs y Hrun (acts & Hh & Hask & Hb) Hstep].
  { exists []. split; [constructor|]. split; [|done]. by intros src (a & r & ?%elem_of_nil & _). }
  assert (Hmore : ∀ acts' a src, (∀ s r, request_of a = Some r → DeliveredBy r = Some s → authenticated (log ++ evs)%list s) →
    acts' = (acts ++ [a])%list → asked acts' src → authenticated (log ++ evs)%list src).
  { intros acts' a src Ha -> (b & r & [Hb1|Hb1]%elem_of_app & Hr & Hs).
    - apply authenticated_more, Hask. by exists b, r.
    - apply list_elem_of_singleton in Hb1 as ->. by eapply Ha. }
  assert (Hkeep : ∀ src, asked acts src → authenticated (log ++ evs)%list src) by (intros src ?; by apply authenticated_more, Hask).
  destruct Hstep; cbn [svc tokens fst] in *.
  - exists (acts ++ [AStart (bool_decide (is_Some up))])%list. split_and!.
    + eapply HStep; [exact Hh|]. eapply SStart; eassumption.
    + intros src. eapply Hmore; [|done]. intros s0 r0 Hr0. discriminate Hr0.
    + destruct up as [[s qs]|]; cbn; [|done]. eapply loaded_backed; [apply NewTokenStore_backed|done].
  - exists acts. split; [done|]. split; [done|]. cbn [fst]. eapply loaded_backed; [exact Hb|eassumption].
  - exists (acts ++ [AServe r resp])%list. split_and!.
    + by eapply HStep.
    + intros src. eapply Hmore; [|done]. intros s0 r0 Hr0 Hs0. injection Hr0 as <-. eapply forwarded_authenticated; eassumption.
    + destruct y as [[] ?]; cbn; try done. by apply backed_more.
  - exists acts. rewrite app_nil_r. by split_and!.
  - exists acts. rewrite app_nil_r. by split_and!.
  - exists (acts ++ [a])%list. rewrite app_nil_r in *. split_and!.
    + by eapply HStep.
    + intros src. eapply Hmore; [|done]. intros s0 r0 Hr0. by destruct H as [->|[->| ->]].
    + destruct H as [->|[->| ->]]; inversion H0; subst; cbn in *; done.
  - exists (acts ++ [AKill (Some r)])%list. split_and!.
    + by eapply HStep.
    + intros src. eapply Hmore; [|done]. intros s0 r0 Hr0 Hs0. injection Hr0 as <-. eapply forwarded_authenticated; eassumption.
    + inversion H1; subst; done.
Qed.

Context (Hroot : absolute root) (Hmax : (0 < LTusMaxSize cfg < 2 ^ 62)%Z).

(** C3. Only an authenticated source publishes.  Let the server, with a limit
    on uploads above zero and below 2^62 bytes, be run from a disk without
    archives: any requests, one after the other, with any headers; reloads,
    failures of any call, kills at any moment, and the cleanup removing
    anything in its areas at any moment, except what the request in progress
    works on.  Then every archive on the disk, but the folder .done that the
    cleanup empties, is whole and verified, and the source that its receipt
    names has a well-formed id; the token source gave a token for this id,
    and for no other one; and after that a request that carried this token
    was let through. *)
Theorem published_archives_are_authenticated (d0 : disk) x log aid :
  (∀ k, below (archive_area root) k → k ≠ archive_area root → d0 !! k = None) →
  auth_run d0 x log → aid ≠ ".done" → is_Some ((svc x).2 !! final_at root aid) →
  verified_archive root (authenticated log) aid (svc x).2.
Proof using Hroot Hmax.
  intros Hempty Hrun Ha Hthere. destruct (auth_run_history d0 x log Hrun) as (acts & Hh & Hask & _).
  assert (Hd0 : archives_sound root (λ _, False) d0).
  { intros aid' _ [n Hn]. rewrite Hempty in Hn; [done|apply below_app|]. intros E%(f_equal length). unfold final_at in E.
    rewrite length_app in E. cbn in E. lia. }
  pose proof (sound_archives cfg _ (svc x) (history_sound Quote UnmarshalDeliveredBy cfg Hroot Hmax _ d0 (svc x) acts Hd0 Hh)) as Hs.
  eapply verified_known; [|by apply Hs]. intros src [[]|H]. by apply Hask.
Qed.
End server.
