(* ===== verification/IIngest.v ===== *)
(** internal/ingest/handler.go: the endpoint that takes an item and stages
    it.

    What the multipart reader gives under the body limit, part after part, is
    data of the request; mime.ParseMediaType, %q, %v and strings.EqualFold are
    parameters, and so is staging.ParseMetadata.  Metrics are dropped.  The
    disk is that of ADisk.v, with os.WriteFile.  Before it, peer/peer.go: the
    identity that a client certificate gives. *)
From S2P Require Import Prelude IConfig GoStrings GoPath GoTime Utf8 Effects DStaging ADisk.
Local Open Scope string_scope.
Local Open Scope prog_scope.

(** * internal/ingest/peer/peer.go: who a client of the mutual TLS listener is.

    Certificate verification is crypto/tls's; a certificate is here its
    list of URIs, parsed by net/url. strings.EqualFold and %q are
    parameters. *)

Record Peer := mkPeer { Kind : string; Name : string; URI : string }.

(** url.URL, with its String. *)
Record URL := mkURL { Scheme : string; UHost : string; UPath : string; UText : string }.
Abbreviation Certificate := (list (option URL)).

Inductive peer_error := ErrNoSPIFFEID | BadSPIFFEPath (text : string).

(** strings.Trim with one character. *)
Fixpoint trim_leading (c : ascii) (s : list ascii) : list ascii :=
  match s with a :: r => if Ascii.eqb a c then trim_leading c r else s | [] => [] end.
Definition trim_char (c : ascii) (s : string) : string :=
  String.string_of_list_ascii (rev (trim_leading c (rev (trim_leading c (String.list_ascii_of_string s))))).

Section peer.
Context (Quote : string → string) (EqualFold : string → string → bool).

Definition splitSPIFFEPath (u : URL) : res peer_error (string * string) :=
  match split_on "/" (trim_char "/" (UPath u)) with
  | [kind; name] =>
      if String.eqb kind "" || String.eqb name ""
      then Err (BadSPIFFEPath ("spiffe id " ++ Quote (UText u) ++ " must have the form spiffe://<trust-domain>/<kind>/<name>"))
      else Ok (kind, name)
  | _ => Err (BadSPIFFEPath ("spiffe id " ++ Quote (UText u) ++ " must have the form spiffe://<trust-domain>/<kind>/<name>"))
  end.

Fixpoint from_uris (uris : Certificate) (trustDomain : string) : res peer_error Peer :=
  match uris with
  | [] => Err ErrNoSPIFFEID
  | None :: rest => from_uris rest trustDomain
  | Some u :: rest =>
      if negb (String.eqb (Scheme u) "spiffe") then from_uris rest trustDomain
      else if negb (EqualFold (UHost u) trustDomain) then from_uris rest trustDomain
      else match splitSPIFFEPath u with
      | Err e => Err e
      | Ok (kind, name) => Ok (mkPeer kind name (UText u))
      end
  end.

Definition FromCertificate (cert : option Certificate) (trustDomain : string) : res peer_error Peer :=
  match cert with None => Err ErrNoSPIFFEID | Some uris => from_uris uris trustDomain end.

(** What the middleware does with the certificates of a connection, if it is
    one over TLS: a status and a reason, or the peer for the context. *)
Definition peer_middleware (trustDomain : string) (tls : option (list (option Certificate))) : res (Z * string) Peer :=
  match tls with
  | None | Some [] => Err (401%Z, "client_certificate_required")
  | Some (cert :: _) =>
      match FromCertificate cert trustDomain with
      | Err _ => Err (403%Z, "unrecognized_client_identity")
      | Ok id => Ok id
      end
  end.

(** The identity is one that the client's own certificate states, in the
    trust domain. *)
Definition states (uris : Certificate) (trustDomain : string) (p : Peer) : Prop :=
  ∃ u, Some u ∈ uris ∧ Scheme u = "spiffe" ∧ EqualFold (UHost u) trustDomain = true ∧
    splitSPIFFEPath u = Ok (Kind p, Name p) ∧ URI p = UText u.

Lemma from_uris_states uris trustDomain p : from_uris uris trustDomain = Ok p → states uris trustDomain p.
Proof.
  induction uris as [|[u|] uris IH]; [done| |].
  2: { intros (u & Hu & Hrest)%IH. exists u. split; [by right|done]. }
  cbn [from_uris]. destruct (String.eqb_spec (Scheme u) "spiffe") as [Hs|]; cbn [negb].
  2: { intros (u' & Hu & Hrest)%IH. exists u'. split; [by right|done]. }
  destruct (EqualFold (UHost u) trustDomain) eqn:He; cbn [negb].
  2: { intros (u' & Hu & Hrest)%IH. exists u'. split; [by right|done]. }
  destruct (splitSPIFFEPath u) as [[kind name]|] eqn:Hp; [|done]. intros [= <-]. exists u. split; [left|done].
Qed.

Lemma peer_middleware_states trustDomain tls p :
  peer_middleware trustDomain tls = Ok p → ∃ uris rest, tls = Some (Some uris :: rest) ∧ states uris trustDomain p.
Proof.
  unfold peer_middleware. destruct tls as [[|[uris|] rest]|]; [done| |done|done]. unfold FromCertificate.
  destruct (from_uris uris trustDomain) as [q|] eqn:E; [|done]. intros [= ->]. exists uris, rest. split; [done|by apply from_uris_states].
Qed.
End peer.

(** * The endpoint *)

(** ** Requests *)

(** The end of a read: http.MaxBytesError, or another error. *)
Inductive read_error := TooLarge | ReadFailed (text : string).
Definition isMaxBytesError (e : read_error) : bool := match e with TooLarge => true | ReadFailed _ => false end.

(** A part: its names, what its content-type parses to, the bytes that can
    be read, and the error after them. *)
Record Part := mkPart {
  FormName : string;
  ContentTypeText : string;
  ParsedType : string;
  DispFilename : string;
  FileName : string;
  PData : bytes;
  PErr : option read_error;
}.

Record IngestRequest := mkIngest {
  IMethod : string;
  (** The multipart reader, if the content type is a multipart one. *)
  IParts : option (list Part);
  (** How the body ends after the parts: well, or in an error. *)
  IEnd : option read_error;
  IPeer_ : option Peer;
}.

Record IngestResponse := mkAnswer { IStatus : Z; IText : string; IItem : option string; RetryAfter : bool }.
Definition answer_error (status : Z) (message : string) : IngestResponse := mkAnswer status message None false.

Record Handler := mkHandler {
  stagingDir : string;
  iconfig : IngestConfig;
  allowlist : list string;
  queueDepth : Z;
  ready : bool;
  enforceSourceMatch : bool;
  transport : string;
}.

Definition NewHandler (stagingDir : string) (cfg : IngestConfig) (allowlist : list string) : Handler :=
  mkHandler stagingDir cfg allowlist 0 false false "".
Definition SetPeerEnforcement (enforce : bool) (transport : string) (h : Handler) : Handler :=
  mkHandler (stagingDir h) (iconfig h) (allowlist h) (queueDepth h) (ready h) enforce transport.
Definition SetReady (h : Handler) : Handler :=
  mkHandler (stagingDir h) (iconfig h) (allowlist h) (queueDepth h) true (enforceSourceMatch h) (transport h).
Definition set_depth (n : Z) (h : Handler) : Handler :=
  mkHandler (stagingDir h) (iconfig h) (allowlist h) n (ready h) (enforceSourceMatch h) (transport h).
Definition DecrementQueue (h : Handler) : Handler := set_depth (queueDepth h - 1)%Z h.

(** ** The calls *)

(** Uuid answers the first eight characters of a new one. *)
Inductive ingest_op := Disk (o : aop) | WriteFile (p : string) (data : bytes) | Clock | Uuid.
Definition ingest_ans (o : ingest_op) : Type :=
  match o with Disk o => aans o | WriteFile _ _ => bool | Clock => Z | Uuid => string end.
#[export] Instance ingest_sig : Sig := {| op := ingest_op; ans := ingest_ans |}.
Definition io (o : ingest_op) : prog (Σ := ingest_sig) (ingest_ans o) := call (Σ := ingest_sig) o.

Definition uuid_char (a : ascii) : bool := is_digit a || ((97 <=? byte_of a)%Z && (byte_of a <=? 102)%Z).

(** os.WriteFile creates or truncates; when it fails, some of the bytes may
    be there. *)
Definition istep (d : disk) (o : ingest_op) : ingest_ans o → disk → Prop :=
  match o return ingest_ans o → disk → Prop with
  | Disk o => dstep d o
  | WriteFile p data => λ (r : bool) d',
      (r = true → d' = <[comps p := File data]> d) ∧
      (r = false → d' = d ∨ ∃ n, d' = <[comps p := File (take n data)]> d) ∧
      (d' ≠ d → comps p ≠ [] ∧ is_folder d (removelast (comps p)) ∧ d !! comps p ≠ Some Folder) ∧
      (r = true → comps p ≠ [] ∧ is_folder d (removelast (comps p)) ∧ d !! comps p ≠ Some Folder)
  | Clock => λ _ d', d' = d
  | Uuid => λ s d', d' = d ∧ String.length s = 8%nat ∧ Forall (λ a, uuid_char a = true) (String.list_ascii_of_string s)
  end.

(** ** InitQueueDepth *)

Definition hidden (name : string) : bool := has_prefix "." name.

Definition InitQueueDepth (h : Handler) : prog (Σ := ingest_sig) (Handler * res string ()) :=
  let! cleaned := io (Disk (RemoveAll (Join [stagingDir h; ".ingest-tmp"]))) in
  if negb cleaned then Ret (h, Err "clean .ingest-tmp")
  else
    let! entries := io (Disk (ListDir (stagingDir h))) in
    match (entries : found (list DirEntry)) with
    | Found es =>
        let n := length (filter (λ e, EIsDir e = true ∧ hidden (EName e) = false) es) in
        Ret (set_depth (Z.of_nat n) h, Ok tt)
    | _ => Ret (h, Err "read staging dir")
    end.

(** ** ServeHTTP *)

Definition sanitizeSidecarName (name : string) : option string :=
  if String.eqb name "" then None
  else if contains "/" name || contains "\" name then None
  else if String.eqb name "." || String.eqb name ".." then None
  else if negb (String.eqb (Base name) name) then None
  else if String.eqb name "content.raw" || String.eqb name "metadata.json" then None
  else Some name.

(** What the parts have given so far. *)
Record Form := mkForm { fmeta : option bytes; fcontent : option bytes; fsidecars : gmap string bytes }.

Section serve.
Context (Quote : string → string) (EqualFold : string → string → bool) (ParseMetadata : bytes → res string ItemMetadata).

Definition too_large : Z * string := (413%Z, "request body too large").
(** io.ReadAll *)
Definition read_all (what : string) (p : Part) : res (Z * string) bytes :=
  match PErr p with
  | None => Ok (PData p)
  | Some e => Err (if isMaxBytesError e then too_large
                   else (400%Z, "read " ++ what ++ ": " ++ match e with ReadFailed t => t | TooLarge => "" end))
  end.

(** One part. *)
Definition take_part (maxMeta : Z) (p : Part) (f : Form) : res (Z * string) Form :=
  if String.eqb (FormName p) "metadata" then
    match fmeta f with
    | Some _ => Err (400%Z, "duplicate metadata part")
    | None =>
        if negb (String.eqb (ParsedType p) "application/json")
        then Err (400%Z, "metadata part must be application/json, got " ++ Quote (ContentTypeText p))
        else if (maxMeta <? Z.of_nat (length (PData p)))%Z then Err (413%Z, "metadata too large")
        else match read_all "metadata" p with Err e => Err e | Ok b => Ok (mkForm (Some b) (fcontent f) (fsidecars f)) end
    end
  else if String.eqb (FormName p) "content" then
    match fcontent f with
    | Some _ => Err (400%Z, "duplicate content part")
    | None => match read_all "content" p with Err e => Err e | Ok b => Ok (mkForm (fmeta f) (Some b) (fsidecars f)) end
    end
  else if String.eqb (FormName p) "sidecar" then
    match sanitizeSidecarName (DispFilename p) with
    | None => Err (400%Z, "invalid sidecar filename: " ++ Quote (FileName p))
    | Some name =>
        match fsidecars f !! name with
        | Some _ => Err (400%Z, "duplicate sidecar part: " ++ Quote name)
        | None =>
            match read_all "sidecar" p with
            | Err e => Err e
            | Ok b => Ok (mkForm (fmeta f) (fcontent f) (<[name := b]> (fsidecars f)))
            end
        end
    end
  else Err (400%Z, "unexpected part: " ++ Quote (FormName p)).

Fixpoint take_parts (maxMeta : Z) (parts : list Part) (ending : option read_error) (f : Form) : res (Z * string) Form :=
  match parts with
  | [] =>
      match ending with
      | None => Ok f
      | Some TooLarge => Err too_large
      | Some (ReadFailed t) => Err (400%Z, "parse multipart: " ++ t)
      end
  | p :: rest =>
      match take_part maxMeta p f with
      | Err e => Err e
      | Ok f => take_parts maxMeta rest ending f
      end
  end.

(** The binding of the claimed source to the verified one. *)
Definition check_peer (h : Handler) (r : IngestRequest) (meta : ItemMetadata) : res (Z * string) () :=
  if enforceSourceMatch h then
    match IPeer_ r with
    | None => Err (401%Z, "client certificate required")
    | Some callerID =>
        if negb (EqualFold (MSource meta) (Name callerID))
        then Err (403%Z, "metadata source " ++ Quote (MSource meta) ++ " does not match authenticated identity " ++ Quote (Name callerID))
        else Ok tt
    end
  else Ok tt.

(** Everything before the disk: the bytes of the metadata and the content,
    the sidecars, and the metadata. *)
Record Item := mkItem_ { itMeta : bytes; itContent : bytes; itSidecars : gmap string bytes; itMetadata : ItemMetadata }.

Definition accept (h : Handler) (r : IngestRequest) : res IngestResponse Item :=
  if negb (ready h) then Err (answer_error 503 "scanner not ready")
  else if negb (String.eqb (IMethod r) "POST") then Err (answer_error 405 "method not allowed")
  else if (BackpressureThreshold (iconfig h) <=? queueDepth h)%Z then Err (mkAnswer 429 "backpressure" None true)
  else match IParts r with
  | None => Err (answer_error 400 "expected multipart form data")
  | Some parts =>
      match take_parts (MaxMetadataBytes (iconfig h)) parts (IEnd r) (mkForm None None ∅) with
      | Err (status, message) => Err (answer_error status message)
      | Ok f =>
          match fmeta f, fcontent f with
          | None, _ => Err (answer_error 400 "missing metadata part")
          | Some _, None => Err (answer_error 400 "missing content part")
          | Some metadataBytes, Some contentBytes =>
              match ParseMetadata metadataBytes with
              | Err e => Err (answer_error 400 ("invalid metadata JSON: " ++ e))
              | Ok meta =>
                  match check_peer h r meta with
                  | Err (status, message) => Err (answer_error status message)
                  | Ok _ =>
                      match Validate Quote meta (allowlist h) with
                      | [] => Ok (mkItem_ metadataBytes contentBytes (fsidecars f) meta)
                      | errs => Err (answer_error 400 ("metadata validation failed: " ++
                                  join "; " ((λ e, VField e ++ ": " ++ VMessage e) <$> errs)))
                      end
                  end
              end
          end
      end
  end.

(** The name of an item: the time, to the second, and the uuid. *)
Definition item_name (now : Z) (uuid : string) : string :=
  let '(y, m, d) := civil (local_day UTC now) in
  let '(hh, mm, ss) := clock UTC now in
  format_year y ++ fmt_02d m ++ fmt_02d d ++ "-" ++ fmt_02d hh ++ fmt_02d mm ++ fmt_02d ss ++ "-" ++ uuid.

Definition internal : IngestResponse := answer_error 500 "internal error".

(** The sidecars, in some order. *)
Fixpoint write_sidecars (tmpItemDir : string) (files : list (string * bytes)) : prog (Σ := ingest_sig) bool :=
  match files with
  | [] => Ret true
  | (name, data) :: rest =>
      let! ok := io (WriteFile (Join [tmpItemDir; name]) data) in
      if ok then write_sidecars tmpItemDir rest else Ret false
  end.

Definition stage (h : Handler) (it : Item) : prog (Σ := ingest_sig) (Handler * IngestResponse) :=
  let! now := io Clock in
  let! uuid := io Uuid in
  let itemName := item_name now uuid in
  let ingestTmpDir := Join [stagingDir h; ".ingest-tmp"] in
  let! made := io (Disk (MkdirAll ingestTmpDir)) in
  if negb made then Ret (h, internal)
  else
    let tmpItemDir := Join [ingestTmpDir; itemName] in
    let! made := io (Disk (MkdirAll tmpItemDir)) in
    if negb made then Ret (h, internal)
    else
      let undo := let! _ := io (Disk (RemoveAll tmpItemDir)) in Ret (h, internal) in
      let! ok := io (WriteFile (Join [tmpItemDir; "content.raw"]) (itContent it)) in
      if negb ok then undo
      else
        let! ok := write_sidecars tmpItemDir (map_to_list (itSidecars it)) in
        if negb ok then undo
        else
          let! ok := io (WriteFile (Join [tmpItemDir; "metadata.json"]) (itMeta it)) in
          if negb ok then undo
          else
            let! moved := io (Disk (Rename tmpItemDir (Join [stagingDir h; itemName]))) in
            if negb moved then undo
            else Ret (set_depth (queueDepth h + 1)%Z h, mkAnswer 202 "accepted" (Some itemName) false).

Definition ServeHTTP (h : Handler) (r : IngestRequest) : prog (Σ := ingest_sig) (Handler * IngestResponse) :=
  match accept h r with
  | Err resp => Ret (h, resp)
  | Ok it => stage h it
  end.
End serve.
