(* ===== verification/IIngestFacts.v ===== *)
(** The ingest endpoint on a disk: an item is staged whole or not at all,
    and what is staged is what the scanner accepts. *)
From S2P Require Import Prelude IConfig GoStrings GoTime GoPath Utf8 JsonString JValue Effects ADisk AFinalizeFacts DStaging IIngest.
Local Open Scope string_scope.

(** ** The name of an item *)

Section chars.
Context (c : ascii) (Hd : is_digit c = false) (Hm : c ≠ "-"%char).

Lemma uuid_no_char s : uuid_char c = false → Forall (λ a, uuid_char a = true) (String.list_ascii_of_string s) → no_char c s = true.
Proof using Type.
  intros Hc. induction s as [|a s IH]; [done|]. cbn [String.list_ascii_of_string no_char]. intros [Ha Hs]%Forall_cons.
  rewrite IH, andb_true_r by done. apply negb_true_iff, Ascii.eqb_neq. intros ->. congruence.
Qed.

Lemma item_no_char now uuid :
  uuid_char c = false → Forall (λ a, uuid_char a = true) (String.list_ascii_of_string uuid) → no_char c (item_name now uuid) = true.
Proof using Hd Hm.
  intros Hc Hu. unfold item_name. destruct (civil _) as [[y m] d], (clock _ _) as [[hh mm] ss].
  by rewrite !no_char_app, year_no_char, !fmt_no_char, dash_no_char, uuid_no_char by done.
Qed.
End chars.

Lemma no_dot_plain n : n ≠ "" → no_char slash n = true → no_char "." n = true → plain_name n = true ∧ hidden n = false.
Proof.
  intros Hne Hs Hd. split.
  - apply plain_name_spec. split_and!; [done|by intros ->|by intros ->|done].
  - destruct n as [|a n]; [done|]. unfold hidden. cbn [has_prefix]. cbn [no_char] in Hd. apply andb_true_iff in Hd as [Hd _].
    apply negb_true_iff in Hd. rewrite Ascii.eqb_sym in Hd. by rewrite Hd.
Qed.

Lemma item_name_plain now uuid :
  String.length uuid = 8%nat → Forall (λ a, uuid_char a = true) (String.list_ascii_of_string uuid) →
  plain_name (item_name now uuid) = true ∧ hidden (item_name now uuid) = false.
Proof.
  intros Hl Hu. apply no_dot_plain; [|by apply item_no_char..]. unfold item_name.
  destruct (civil _) as [[y m] d], (clock _ _) as [[hh mm] ss]. intros E%(f_equal String.length).
  rewrite !string_length_app, Hl in E. cbn in E. lia.
Qed.

(** ** Sidecars *)

Definition reserved (n : string) : Prop := n = "content.raw" ∨ n = "metadata.json".

Lemma sanitized_plain name n : sanitizeSidecarName name = Some n → n = name ∧ plain_name n = true ∧ ¬ reserved n.
Proof.
  unfold sanitizeSidecarName, reserved. destruct (String.eqb_spec name "") as [|H0]; [done|].
  destruct (contains "/" name) eqn:H1; cbn [orb]; [done|]. destruct (contains "\" name); cbn [orb]; [done|].
  destruct (String.eqb_spec name ".") as [|H2]; cbn [orb]; [done|]. destruct (String.eqb_spec name "..") as [|H3]; cbn [orb]; [done|].
  destruct (negb _); [done|]. destruct (String.eqb_spec name "content.raw") as [|H4]; cbn [orb]; [done|].
  destruct (String.eqb_spec name "metadata.json") as [|H5]; cbn [orb]; [done|]. intros [= <-]. split_and!; [done| |by intros [?|?]].
  apply plain_name_spec. split_and!; [done..|]. clear - H1. induction name as [|a name IH]; [done|].
  change ((Ascii.eqb "/" a && true) || contains "/" name = false) in H1. apply orb_false_iff in H1 as [H1 H2].
  change (negb (Ascii.eqb a "/") && no_char slash name = true). rewrite (IH H2), andb_true_r.
  rewrite andb_true_r, Ascii.eqb_sym in H1. by rewrite H1.
Qed.

(** ** What was sent *)

(** The parts of a name, in order. *)
Definition parts_named (name : string) (parts : list Part) : list Part :=
  filter (λ p, FormName p = name) parts.

(** The files that the sidecar parts of a request are, by their names. *)
Definition sidecars_of (parts : list Part) : list (string * bytes) :=
  (λ p, (DispFilename p, PData p)) <$> parts_named "sidecar" parts.

(** The item is what the request's parts hold: its body was read to the end
    without an error, the metadata is the data of its one metadata part,
    the content that of its one content part, and the sidecars are its
    sidecar parts, each under its own name and of distinct names; there is
    no other part. *)
Record sent_in (r : IngestRequest) (parts : list Part) (it : Item) : Prop := {
  sn_request : IParts r = Some parts;
  sn_end : IEnd r = None;
  sn_read : Forall (λ p, PErr p = None ∧ FormName p ∈ ["metadata"; "content"; "sidecar"]) parts;
  sn_metadata : PData <$> parts_named "metadata" parts = [itMeta it];
  sn_content : PData <$> parts_named "content" parts = [itContent it];
  sn_sidecars : map_to_list (itSidecars it) ≡ₚ sidecars_of parts;
}.
Definition sent (r : IngestRequest) (it : Item) : Prop := ∃ parts, sent_in r parts it.

(** ** What is accepted *)

Section accept.
Context (Quote : string → string) (EqualFold : string → string → bool) (ParseMetadata : bytes → res string ItemMetadata).

(** A form's sidecars are files of the item's folder, next to its own. *)
Definition good_form (f : Form) : Prop := ∀ n b, fsidecars f !! n = Some b → plain_name n = true ∧ ¬ reserved n.

Lemma take_part_spec maxMeta p f :
  match take_part Quote maxMeta p f with
  | Ok f' => good_form f → good_form f'
  | Err e => e.1 ≠ 202%Z
  end.
Proof.
  assert (Hread : ∀ what, match read_all what p with Ok _ => True | Err e => e.1 ≠ 202%Z end).
  { intros what. unfold read_all. destruct (PErr p) as [[]|]; done. }
  unfold take_part. destruct (String.eqb (FormName p) "metadata").
  { destruct (fmeta f); [done|]. destruct (negb _); [done|]. destruct (maxMeta <? _)%Z; [done|].
    specialize (Hread "metadata"). by destruct (read_all "metadata" p). }
  destruct (String.eqb (FormName p) "content").
  { destruct (fcontent f); [done|]. specialize (Hread "content"). by destruct (read_all "content" p). }
  destruct (String.eqb (FormName p) "sidecar"); [|done].
  destruct (sanitizeSidecarName (DispFilename p)) as [name|] eqn:Hs; [|done].
  destruct (fsidecars f !! name); [done|]. specialize (Hread "sidecar"). destruct (read_all "sidecar" p); [|done].
  intros Hf n b. cbn. intros [[<- _]|[_ Hn]]%lookup_insert_Some; [by destruct (sanitized_plain _ _ Hs) as (_ & ? & ?)|by eapply Hf].
Qed.

Lemma take_parts_spec maxMeta parts ending f :
  match take_parts Quote maxMeta parts ending f with
  | Ok f' => good_form f → good_form f'
  | Err e => e.1 ≠ 202%Z
  end.
Proof.
  revert f. induction parts as [|p parts IH]; intros f; cbn [take_parts]; [by destruct ending as [[]|]|].
  pose proof (take_part_spec maxMeta p f) as H. destruct (take_part Quote maxMeta p f) as [f'|]; [|done].
  specialize (IH f'). destruct (take_parts Quote maxMeta parts ending f'); [auto|done].
Qed.

(** What a form holds comes from parts that were read whole. *)
Record gathered (parts : list Part) (f f' : Form) : Prop := {
  ga_read : Forall (λ p, PErr p = None ∧ FormName p ∈ ["metadata"; "content"; "sidecar"]) parts;
  ga_metadata : option_list (fmeta f') = (option_list (fmeta f) ++ (PData <$> parts_named "metadata" parts))%list;
  ga_content : option_list (fcontent f') = (option_list (fcontent f) ++ (PData <$> parts_named "content" parts))%list;
  ga_sidecars : map_to_list (fsidecars f') ≡ₚ map_to_list (fsidecars f) ++ sidecars_of parts;
}.

Lemma read_all_ok what p b : read_all what p = Ok b → PErr p = None ∧ b = PData p.
Proof. unfold read_all. destruct (PErr p); [done|]. by intros [= <-]. Qed.

Lemma take_part_gathers maxMeta p f f' : take_part Quote maxMeta p f = Ok f' → gathered [p] f f'.
Proof.
  unfold take_part. destruct (String.eqb_spec (FormName p) "metadata") as [Hn|].
  { destruct (fmeta f) eqn:Hf; [done|]. destruct (negb _); [done|]. destruct (maxMeta <? _)%Z; [done|].
    destruct (read_all _ p) eqn:Hr; [|done]. apply read_all_ok in Hr as [Hr ->]. intros [= <-]. constructor.
    - constructor; [|done]. split; [done|]. rewrite Hn. set_solver.
    - cbn [fmeta]. rewrite Hf. unfold parts_named. by rewrite filter_cons_True by done.
    - unfold parts_named. rewrite filter_cons_False by (by rewrite Hn). by rewrite app_nil_r.
    - unfold sidecars_of, parts_named. rewrite filter_cons_False by (by rewrite Hn). by rewrite app_nil_r. }
  destruct (String.eqb_spec (FormName p) "content") as [Hn|].
  { destruct (fcontent f) eqn:Hf; [done|].
    destruct (read_all _ p) eqn:Hr; [|done]. apply read_all_ok in Hr as [Hr ->]. intros [= <-]. constructor.
    - constructor; [|done]. split; [done|]. rewrite Hn. set_solver.
    - unfold parts_named. rewrite filter_cons_False by (by rewrite Hn). by rewrite app_nil_r.
    - cbn [fcontent]. rewrite Hf. unfold parts_named. by rewrite filter_cons_True by done.
    - unfold sidecars_of, parts_named. rewrite filter_cons_False by (by rewrite Hn). by rewrite app_nil_r. }
  destruct (String.eqb_spec (FormName p) "sidecar") as [Hn|]; [|done].
  destruct (sanitizeSidecarName (DispFilename p)) as [name|] eqn:Hs; [|done]. apply sanitized_plain in Hs as [-> _].
  destruct (fsidecars f !! DispFilename p) eqn:Hf; [done|].
  destruct (read_all _ p) eqn:Hr; [|done]. apply read_all_ok in Hr as [Hr ->]. intros [= <-]. constructor.
  - constructor; [|done]. split; [done|]. rewrite Hn. set_solver.
  - unfold parts_named. rewrite filter_cons_False by (by rewrite Hn). by rewrite app_nil_r.
  - unfold parts_named. rewrite filter_cons_False by (by rewrite Hn). by rewrite app_nil_r.
  - cbn [fsidecars]. rewrite map_to_list_insert by done. unfold sidecars_of, parts_named.
    rewrite filter_cons_True by done. cbn. by rewrite Permutation_app_comm.
Qed.

Lemma gathered_cons p parts f f1 f2 : gathered [p] f f1 → gathered parts f1 f2 → gathered (p :: parts) f f2.
Proof.
  assert (Hn : ∀ n, parts_named n (p :: parts) = (parts_named n [p] ++ parts_named n parts)%list).
  { intros n. unfold parts_named. by rewrite <- filter_app. }
  intros [A1 A2 A3 A4] [B1 B2 B3 B4]. constructor.
  - apply Forall_cons in A1 as [? _]. by constructor.
  - by rewrite B2, A2, Hn, fmap_app, app_assoc.
  - by rewrite B3, A3, Hn, fmap_app, app_assoc.
  - rewrite B4, A4. unfold sidecars_of. by rewrite Hn, fmap_app, app_assoc.
Qed.

Lemma take_parts_gathers maxMeta parts ending f f' :
  take_parts Quote maxMeta parts ending f = Ok f' → ending = None ∧ gathered parts f f'.
Proof.
  revert f. induction parts as [|p parts IH]; intros f; cbn [take_parts].
  { destruct ending as [[]|]; [done|done|]. intros [= <-]. split; [done|].
    constructor; [done|by rewrite app_nil_r|by rewrite app_nil_r|by rewrite app_nil_r]. }
  destruct (take_part Quote maxMeta p f) as [f1|] eqn:Hp; [|done]. intros [He Hg]%IH. split; [done|].
  eapply gathered_cons; [by eapply take_part_gathers|done].
Qed.

(** What an accepted request is. *)
Record accepted (h : Handler) (r : IngestRequest) (it : Item) : Prop := {
  ac_sent : sent r it;
  ac_ready : ready h = true;
  ac_room : (queueDepth h < BackpressureThreshold (iconfig h))%Z;
  ac_parsed : ParseMetadata (itMeta it) = Ok (itMetadata it);
  ac_valid : Validate Quote (itMetadata it) (allowlist h) = [];
  ac_sidecars : ∀ n b, itSidecars it !! n = Some b → plain_name n = true ∧ ¬ reserved n;
  ac_peer : enforceSourceMatch h = true → ∃ p, IPeer_ r = Some p ∧ EqualFold (MSource (itMetadata it)) (Name p) = true;
}.

Lemma accept_spec h r :
  match accept Quote EqualFold ParseMetadata h r with
  | Ok it => accepted h r it
  | Err resp => IStatus resp ≠ 202%Z
  end.
Proof.
  unfold accept. destruct (ready h) eqn:Hr; cbn [negb]; [|done]. destruct (negb _); [done|].
  destruct (Z.leb_spec (BackpressureThreshold (iconfig h)) (queueDepth h)) as [|Hroom]; [done|].
  destruct (IParts r) as [parts|] eqn:Hparts; [|done].
  pose proof (take_parts_gathers (MaxMetadataBytes (iconfig h)) parts (IEnd r) (mkForm None None ∅)) as Hga.
  pose proof (take_parts_spec (MaxMetadataBytes (iconfig h)) parts (IEnd r) (mkForm None None ∅)) as Hp.
  destruct (take_parts _ _ _ _ _) as [f|[status message]]; [|done].
  destruct (Hga f eq_refl) as (Hend & [G1 G2 G3 G4]). clear Hga.
  destruct (fmeta f) as [metaB|], (fcontent f) as [contentB|]; try done.
  destruct (ParseMetadata metaB) as [meta|] eqn:Hm; [|done].
  assert (Hc : match check_peer Quote EqualFold h r meta with
    | Ok _ => enforceSourceMatch h = true → ∃ p, IPeer_ r = Some p ∧ EqualFold (MSource meta) (Name p) = true
    | Err e => e.1 ≠ 202%Z end).
  { unfold check_peer. destruct (enforceSourceMatch h); [|done]. destruct (IPeer_ r) as [p|]; [|done].
    destruct (EqualFold _ _) eqn:E; cbn [negb]; [|done]. intros _. by exists p. }
  destruct (check_peer _ _ _ _ _) as [[]|[status message]]; [|done].
  destruct (Validate Quote meta (allowlist h)) eqn:Hv; [|done]. constructor; try done.
  { exists parts. by constructor. }
  cbn [itSidecars]. apply Hp. intros n b. cbn. by rewrite lookup_empty.
Qed.
End accept.

(** ** The disk *)

Definition iwithin (R base : path → Prop) (o : ingest_op) : Prop :=
  match o with Disk o => within R base o | WriteFile p _ => R (comps p) | _ => True end.

Lemma iwithin_frame (R base : path → Prop) (d : disk) (o : ingest_op) (r : ingest_ans o) (d' : disk) :
  region R base → iwithin R base o → folders base d → istep d o r d' → same_beyond R d d'.
Proof.
  intros HR Hin Hf Hs. destruct o as [o|p data| |]; cbn in Hin, Hs.
  - by eapply within_frame.
  - destruct Hs as (H1 & H2 & _). assert (Hins : ∀ x, same_beyond R d (<[comps p := x]> d)).
    { intros x k Hk. rewrite lookup_insert_ne; [done|]. by intros <-. }
    destruct r; [rewrite H1 by done; apply Hins|]. destruct H2 as [->|[n ->]]; [done|done|apply Hins].
  - by subst.
  - by destruct Hs as [-> _].
Qed.

Section staging.
Context (stagingDir_ : string) (Hroot : absolute stagingDir_).

Abbreviation root := (comps stagingDir_).
Definition tmp_root : path := (root ++ [".ingest-tmp"])%list.
Definition tmp_item (name : string) : path := (tmp_root ++ [name])%list.
Definition dest (name : string) : path := (root ++ [name])%list.
Definition scratch (k : path) : Prop := below tmp_root k.
Definition staging_base (q : path) : Prop := below q root.

Lemma scratch_region : region scratch staging_base.
Proof using Type.
  split; [intros p k Hp Hk; by eapply below_trans|]. intros q Hq H. assert (Hb : below tmp_root root) by by eapply below_trans.
  apply prefix_length in Hb. unfold tmp_root in Hb. rewrite length_app in Hb. cbn in Hb. lia.
Qed.

Lemma staging_paths name n :
  plain_name name = true → plain_name n = true →
  comps (Join [stagingDir_; ".ingest-tmp"]) = tmp_root ∧
  comps (Join [Join [stagingDir_; ".ingest-tmp"]; name]) = tmp_item name ∧
  comps (Join [Join [Join [stagingDir_; ".ingest-tmp"]; name]; n]) = (tmp_item name ++ [n])%list ∧
  comps (Join [stagingDir_; name]) = dest name.
Proof using Hroot.
  intros Hname Hn. assert (H1 : absolute (Join [stagingDir_; ".ingest-tmp"])) by by apply Join_absolute.
  assert (H2 : absolute (Join [Join [stagingDir_; ".ingest-tmp"]; name])) by by apply Join_absolute.
  assert (E1 : comps (Join [stagingDir_; ".ingest-tmp"]) = tmp_root) by by rewrite comps_Join by by repeat constructor.
  assert (E2 : comps (Join [Join [stagingDir_; ".ingest-tmp"]; name]) = tmp_item name).
  { by rewrite comps_Join, E1 by by repeat constructor. }
  split_and!; [done|done|by rewrite comps_Join, E2 by by repeat constructor|by rewrite comps_Join by by repeat constructor].
Qed.

(** A folder holds these files; and nothing else, if nothing was there
    before. *)
Definition fresh (d0 : disk) (name : string) : Prop := ∀ k, below (tmp_item name) k → d0 !! k = None.
Record folder_of (d0 : disk) (name : string) (f : path) (files : list (string * bytes)) (d : disk) : Prop := {
  fo_folder : d !! f = Some Folder;
  fo_files : ∀ n b, (n, b) ∈ files → d !! (f ++ [n])%list = Some (File b);
  fo_only : fresh d0 name → ∀ k, below f k → k ≠ f → is_Some (d !! k) → ∃ n, n ∈ files.*1 ∧ k = (f ++ [n])%list;
}.

Lemma folder_of_ext d0 name f files files' d :
  (∀ x, x ∈ files ↔ x ∈ files') → folder_of d0 name f files d → folder_of d0 name f files' d.
Proof using Type.
  intros Hx [H1 H2 H3]. split; [done|intros n b Hn; apply H2; by apply Hx|]. intros Hf k Hk Hne Hs.
  destruct (H3 Hf k Hk Hne Hs) as (n & ([n' b] & -> & Hin)%list_elem_of_fmap & ->). exists n'. split; [|done].
  apply list_elem_of_fmap. exists (n', b). split; [done|by apply Hx].
Qed.

Section item.
Context (d0 : disk) (name : string) (Hname : plain_name name = true) (Hd0 : folders staging_base d0).

Abbreviation T := (tmp_item name).
Definition building (files : list (string * bytes)) (d : disk) : Prop := same_beyond scratch d0 d ∧ folder_of d0 name T files d.

Lemma same_folders d : same_beyond scratch d0 d → folders staging_base d.
Proof using Hd0. intros H. by eapply beyond_folders; [apply scratch_region|..]. Qed.

Lemma scratch_step (o : ingest_op) (Q : disk → ingest_ans o → Prop) d :
  same_beyond scratch d0 d → iwithin scratch staging_base o →
  (∀ r d', istep d o r d' → same_beyond scratch d0 d' → Q d' r) →
  safely istep (same_beyond scratch d0) (io o) d Q.
Proof using Hd0.
  intros Hd Ho HQ. apply safely_call; [done|]. intros r d' Hs.
  assert (Hd' : same_beyond scratch d0 d').
  { eapply same_beyond_trans; [exact Hd|]. eapply iwithin_frame; [apply scratch_region|exact Ho|by apply same_folders|exact Hs]. }
  split; [done|by apply HQ].
Qed.

Lemma write_step files n b d :
  building files d → plain_name n = true → n ∉ files.*1 →
  safely istep (same_beyond scratch d0) (io (WriteFile (Join [Join [Join [stagingDir_; ".ingest-tmp"]; name]; n]) b)) d
    (λ d' ok, same_beyond scratch d0 d' ∧ (ok = true → building ((n, b) :: files) d')).
Proof using Hroot Hname Hd0.
  intros [Hs [F1 F2 F3]] Hn Hnew. destruct (staging_paths name n Hname Hn) as (_ & _ & E & _).
  apply scratch_step; [done|cbn; rewrite E; unfold scratch, tmp_item; rewrite <- app_assoc; apply below_app|].
  intros r d' Hstep Hs'. split; [done|]. intros ->. destruct Hstep as (H1 & _). rewrite (H1 eq_refl), E in *.
  assert (Hne : T ≠ (T ++ [n])%list).
  { intros X%(f_equal length). rewrite length_app in X. cbn in X. lia. }
  split; [done|]. constructor.
  - by rewrite lookup_insert_ne.
  - intros m c [[= -> ->]|Hin]%elem_of_cons; [by rewrite lookup_insert_eq|]. rewrite lookup_insert_ne; [by apply F2|].
    intros X%app_inv_head. injection X as ->. apply Hnew. apply list_elem_of_fmap. by exists (m, c).
  - intros Hf k Hk Hkne. destruct (decide (k = (T ++ [n])%list)) as [->|Hkn].
    + intros _. exists n. split; [left|done].
    + rewrite lookup_insert_ne by done. intros Hsome. destruct (F3 Hf k Hk Hkne Hsome) as (m & Hm & ->).
      exists m. split; [by right|done].
Qed.

Lemma sidecars_step files fl d :
  building files d → Forall (λ f, plain_name f.1 = true) fl → NoDup (fl.*1 ++ files.*1)%list →
  safely istep (same_beyond scratch d0) (write_sidecars (Join [Join [stagingDir_; ".ingest-tmp"]; name]) fl) d
    (λ d' ok, same_beyond scratch d0 d' ∧ (ok = true → building (fl ++ files)%list d')).
Proof using Hroot Hname Hd0.
  revert files d. induction fl as [|[n b] fl IH]; intros files d Hb Hp Hnd; cbn [write_sidecars].
  { apply safely_ret; [by apply Hb|]. split; [by apply Hb|done]. }
  apply Forall_cons in Hp as [Hn Hp]. cbn [fmap list_fmap fst app] in Hnd, Hn. apply NoDup_cons in Hnd as [Hnew Hnd].
  apply safely_bind. eapply safely_mono; [|apply (write_step files n b d Hb Hn)].
  - intros d1 ok [Hs Hok]. destruct ok; [|by apply safely_ret]. eapply safely_mono; [|apply (IH ((n, b) :: files))].
    + intros d2 ok [Hs2 Hok2]. split; [done|]. intros E. destruct (Hok2 E) as [H1 H2]. split; [done|].
      eapply folder_of_ext; [|exact H2]. intros x. rewrite !elem_of_app, !elem_of_cons. tauto.
    + by apply Hok.
    + done.
    + cbn [fmap list_fmap fst]. rewrite <- Permutation_middle. constructor; [done|done].
  - intros Hin. apply Hnew, elem_of_app. by right.
Qed.

(** The two folders, from the disk at the start of the request. *)
Lemma mkdirs_step :
  safely istep (same_beyond scratch d0) (io (Disk (MkdirAll (Join [stagingDir_; ".ingest-tmp"])))) d0
    (λ d1 _, same_beyond scratch d0 d1 ∧ ∀ k, below T k → d1 !! k = d0 !! k).
Proof using Hroot Hname Hd0.
  destruct (staging_paths name name Hname Hname) as (E & _). apply scratch_step; [done| |].
  - cbn. rewrite E. intros q Hq. unfold scratch, staging_base. destruct (decide (q = tmp_root)) as [->|Hne]; [left; by auto with glovebox|right].
    destruct (below_snoc q root ".ingest-tmp" Hq); [done|done].
  - intros r d1 Hs Hs'. split; [done|]. intros k Hk. cbn in Hs. rewrite E in Hs.
    assert (Hq : ∀ q, below q tmp_root → mkdirs q d0 !! k = d0 !! k).
    { intros q Hq. rewrite mkdirs_lookup. destruct (d0 !! k); [done|]. rewrite decide_False; [done|]. intros [Hkq _].
      assert (Hb : below T tmp_root) by (eapply below_trans; [|exact Hq]; by eapply below_trans).
      apply prefix_length in Hb. unfold tmp_item in Hb. rewrite length_app in Hb. cbn in Hb. lia. }
    destruct r; [destruct Hs as [_ ->]; by apply Hq|]. destruct Hs as (q & Hq2 & _ & ->). by apply Hq.
Qed.

Lemma folder_step d1 :
  same_beyond scratch d0 d1 → (∀ k, below T k → d1 !! k = d0 !! k) →
  safely istep (same_beyond scratch d0) (io (Disk (MkdirAll (Join [Join [stagingDir_; ".ingest-tmp"]; name])))) d1
    (λ d2 ok, same_beyond scratch d0 d2 ∧ (ok = true → building [] d2)).
Proof using Hroot Hname Hd0.
  intros Hs1 Hsame. destruct (staging_paths name name Hname Hname) as (_ & E & _). apply scratch_step; [done| |].
  - cbn. rewrite E. intros q Hq. unfold scratch, staging_base.
    destruct (below_snoc q tmp_root name Hq) as [->|Hq2]; [left; apply below_app|].
    destruct (below_snoc q root ".ingest-tmp" Hq2) as [->|Hq3]; [left; apply below_refl|by right].
  - intros r d2 Hs Hs2. split; [done|]. intros ->. cbn in Hs. rewrite E in Hs. destruct Hs as [Hclear ->]. split; [done|].
    constructor; [|by intros n b ?%elem_of_nil|].
    + rewrite mkdirs_lookup. destruct (d1 !! T) as [[|data]|] eqn:E1; [done| |].
      * exfalso. apply (Hclear T); [apply below_refl|by exists data].
      * rewrite decide_True; [done|]. split; [apply below_refl|]. unfold tmp_item. by destruct tmp_root.
    + intros Hf k Hk Hne. rewrite mkdirs_lookup, Hsame, Hf by done. rewrite decide_False; [by intros []|].
      intros [Hkt _]. apply Hne. apply (anti_symm prefix); done.
Qed.

(** What a published item is. *)
Record published (files : list (string * bytes)) (d' : disk) : Prop := {
  pb_else : same_beyond (λ k, scratch k ∨ below (dest name) k) d0 d';
  pb_free : d0 !! dest name ≠ None → d0 !! dest name = Some Folder;
  pb_empty : childless (dest name) d0;
  pb_folder : folder_of d0 name (dest name) files d';
}.

Lemma dest_not_scratch : hidden name = false → ∀ k, below (dest name) k → ¬ scratch k.
Proof using Hname.
  intros Hh k Hk Hs. destruct (below_both _ _ _ Hs Hk) as [Hb|Hb]; unfold tmp_root, dest in Hb.
  - apply below_sibling in Hb. by subst name.
  - apply below_sibling in Hb. by subst name.
Qed.

Lemma publish_step files d d' :
  hidden name = false → building files d →
  istep d (Disk (Rename (Join [Join [stagingDir_; ".ingest-tmp"]; name]) (Join [stagingDir_; name]))) true d' →
  published files d'.
Proof using Hroot Hname.
  intros Hh [Hs [F1 F2 F3]] Hstep. destruct (staging_paths name name Hname Hname) as (_ & E1 & _ & E2). cbn in Hstep. rewrite E1, E2 in Hstep.
  destruct Hstep as [(M1 & M2 & M3 & M4 & M5) ->]. pose proof (dest_not_scratch Hh) as Hds.
  assert (Hd : ∀ k, below (dest name) k → d !! k = d0 !! k) by (intros k Hk; by apply Hs, Hds).
  assert (Hmove : ∀ l, move T (dest name) d !! (dest name ++ l)%list = d !! (T ++ l)%list).
  { intros l. rewrite move_lookup by done. rewrite decide_True by apply below_app. by rewrite drop_app_length. }
  constructor.
  - intros k Hk. rewrite move_lookup by done. rewrite !decide_False; [apply Hs; tauto| |tauto].
    intros Hb. apply Hk. left. eapply below_trans; [|exact Hb]. apply below_app.
  - rewrite <- (Hd (dest name)) by apply below_refl. rewrite F1 in M5. by destruct M5.
  - intros k Hk Hne. rewrite <- (Hd k Hk). by apply M4.
  - constructor.
    + specialize (Hmove []). rewrite !app_nil_r in Hmove. by rewrite Hmove.
    + intros n b Hn. rewrite Hmove. by apply F2.
    + intros Hf k [l ->] Hne. rewrite Hmove. intros Hsome.
      assert (Hl : l ≠ []) by (intros ->; by rewrite app_nil_r in Hne).
      destruct (F3 Hf (T ++ l)%list) as (n & Hn & El); [apply below_app| |done|].
      { intros X. apply Hl. apply (f_equal length) in X. rewrite length_app in X. destruct l; [done|]. cbn in X. lia. }
      apply app_inv_head in El as ->. by exists n.
Qed.
End item.
End staging.

Lemma safely_weaken {Σ : Sig} {S A : Type} (step : S → ∀ o, ans o → S → Prop) (I J : S → Prop) (p : prog A) s Q :
  (∀ x, I x → J x) → safely step I p s Q → safely step J p s Q.
Proof. intros H [H1 H2]. split; [by eapply always_mono|done]. Qed.

Section endpoint.
Context (Quote : string → string) (EqualFold : string → string → bool) (ParseMetadata : bytes → res string ItemMetadata).

Definition item_files (it : Item) : list (string * bytes) :=
  ("metadata.json", itMeta it) :: (map_to_list (itSidecars it) ++ [("content.raw", itContent it)])%list.

(** The item is in the staging folder, under a name where nothing or an
    empty folder was, and that the scanner's watcher does not skip. *)
Definition staged (h : Handler) (it : Item) (name : string) (d0 d' : disk) : Prop :=
  plain_name name = true ∧ hidden name = false ∧ published (stagingDir h) d0 name (item_files it) d'.

(** Nothing outside the temporary folder has changed. *)
Definition untouched (h : Handler) (d0 d : disk) : Prop := same_beyond (scratch (stagingDir h)) d0 d.

Definition moment (h : Handler) (r : IngestRequest) (d0 d : disk) : Prop :=
  untouched h d0 d ∨ ∃ it name, accepted Quote EqualFold ParseMetadata h r it ∧ staged h it name d0 d.

Definition answered (h : Handler) (r : IngestRequest) (d0 d : disk) (x : Handler * IngestResponse) : Prop :=
  (IStatus x.2 = 202%Z ∧ x.1 = set_depth (queueDepth h + 1)%Z h ∧
     ∃ it name, accepted Quote EqualFold ParseMetadata h r it ∧ IItem x.2 = Some name ∧ staged h it name d0 d) ∨
  (IStatus x.2 ≠ 202%Z ∧ x.1 = h ∧ untouched h d0 d).

Section one.
Context (h : Handler) (r : IngestRequest) (d0 : disk).
Context (Hroot : absolute (stagingDir h)) (Hd0 : folders (staging_base (stagingDir h)) d0).

Lemma undo_safely d name :
  plain_name name = true → untouched h d0 d →
  safely istep (moment h r d0) (let! _ := io (Disk (RemoveAll (Join [Join [stagingDir h; ".ingest-tmp"]; name]))) in Ret (h, internal))%prog d
    (answered h r d0).
Proof using Hroot Hd0.
  intros Hname Hd. eapply safely_weaken; [by intros x Hx; left|]. apply safely_bind, scratch_step; [done|done| |].
  - cbn. destruct (staging_paths (stagingDir h) Hroot name name Hname Hname) as (_ & E & _). rewrite E. apply below_app.
  - intros ok d' _ Hd'. apply safely_ret; [done|]. by right.
Qed.

Lemma names_distinct it :
  accepted Quote EqualFold ParseMetadata h r it → NoDup (("metadata.json" :: (map_to_list (itSidecars it)).*1) ++ ["content.raw"])%list.
Proof using Type.
  intros Hit. assert (Hn : ∀ n, n ∈ (map_to_list (itSidecars it)).*1 → ¬ reserved n).
  { intros n ([k b] & -> & Hk%elem_of_map_to_list)%list_elem_of_fmap. by destruct (ac_sidecars _ _ _ _ _ _ Hit k b Hk). }
  apply NoDup_app. split_and!; [constructor; [|apply NoDup_fst_map_to_list]| |apply NoDup_singleton].
  - intros H%Hn. apply H. by right.
  - intros n [->|H%Hn]%elem_of_cons; [by intros ?%list_elem_of_singleton|]. intros ->%list_elem_of_singleton. apply H. by left.
Qed.

Lemma stage_safely it :
  accepted Quote EqualFold ParseMetadata h r it → safely istep (moment h r d0) (stage h it) d0 (answered h r d0).
Proof using Hroot Hd0.
  intros Hit. assert (Hrefl : untouched h d0 d0) by done. assert (Hm : moment h r d0 d0) by by left.
  apply safely_bind, safely_call; [done|]. intros now d Hs. cbn in Hs. subst d. split; [done|].
  apply safely_bind, safely_call; [done|]. intros uuid d Hs. destruct Hs as (-> & Hl & Hu). split; [done|]. cbv zeta.
  destruct (item_name_plain now uuid Hl Hu) as [Hname Hhid]. set (name := item_name now uuid) in *.
  assert (Hw : ∀ x, untouched h d0 x → moment h r d0 x) by (intros x Hx; by left).
  apply safely_bind. eapply safely_mono; [|eapply safely_weaken; [exact Hw|by apply (mkdirs_step _ Hroot d0 name)]].
  intros d1 ok [Hd1 Hsame]. destruct ok; cbn [negb]; [|apply safely_ret; [by apply Hw|by right]].
  apply safely_bind. eapply safely_mono; [|eapply safely_weaken; [exact Hw|by apply (folder_step _ Hroot d0 name)]].
  intros d2 ok [Hd2 Hb2]. destruct ok; cbn [negb]; [specialize (Hb2 eq_refl)|apply safely_ret; [by apply Hw|by right]].
  pose proof (names_distinct it Hit) as Hnd. cbn [app] in Hnd. apply NoDup_cons in Hnd as [Hmeta Hnd].
  apply safely_bind. eapply safely_mono; [|eapply safely_weaken; [exact Hw|apply (write_step _ Hroot d0 name Hname Hd0 [] "content.raw"); [done|done|by intros ?%elem_of_nil]]].
  intros d3 ok [Hd3 Hb3]. destruct ok; cbn [negb]; [specialize (Hb3 eq_refl)|by apply undo_safely].
  apply safely_bind. eapply safely_mono; [|eapply safely_weaken; [exact Hw|apply (sidecars_step _ Hroot d0 name Hname Hd0 _ (map_to_list (itSidecars it)) _ Hb3)]].
  2: { apply Forall_forall. intros [n b] Hn%elem_of_map_to_list. by destruct (ac_sidecars _ _ _ _ _ _ Hit n b Hn). }
  2: { done. }
  intros d4 ok [Hd4 Hb4]. destruct ok; cbn [negb]; [specialize (Hb4 eq_refl)|by apply undo_safely].
  apply safely_bind. eapply safely_mono; [|eapply safely_weaken; [exact Hw|apply (write_step _ Hroot d0 name Hname Hd0 _ "metadata.json" (itMeta it) d4 Hb4); [done|]]].
  2: { rewrite fmap_app. exact Hmeta. }
  intros d5 ok [Hd5 Hb5]. destruct ok; cbn [negb]; [specialize (Hb5 eq_refl)|by apply undo_safely].
  assert (Hpub : ∀ d', istep d5 (Disk (Rename (Join [Join [stagingDir h; ".ingest-tmp"]; name]) (Join [stagingDir h; name]))) true d' →
    staged h it name d0 d').
  { intros d' Hs. split_and!; [done|done|]. by eapply (publish_step _ Hroot d0 name Hname). }
  apply safely_bind, safely_call; [by left|]. intros ok d6 Hs. destruct ok; cbn [negb].
  - specialize (Hpub d6 Hs). assert (Hm6 : moment h r d0 d6) by (right; by exists it, name). split; [done|].
    apply safely_ret; [done|]. left. split_and!; [done|done|]. by exists it, name.
  - cbn in Hs. subst d6. split; [by left|]. by apply undo_safely.
Qed.

Lemma serve_safely : safely istep (moment h r d0) (ServeHTTP Quote EqualFold ParseMetadata h r) d0 (answered h r d0).
Proof using Hroot Hd0.
  unfold ServeHTTP. pose proof (accept_spec Quote EqualFold ParseMetadata h r) as Ha.
  destruct (accept Quote EqualFold ParseMetadata h r) as [it|resp]; [by apply stage_safely|].
  apply safely_ret; [by left|by right].
Qed.

(** C13. An item is staged whole or not at all.  Whatever the request and
    whatever the disk does, at every moment of the handler's run, even when it
    is killed: either nothing but the temporary folder has changed; or the
    request was an accepted one (its metadata parses and is valid, its source
    is that of the verified peer where that is enforced, and there was room)
    whose body was read whole, and the item is in the staging folder, where
    nothing or an empty folder was: metadata.json holds the bytes of the
    request's one metadata part, content.raw those of its one content part,
    and every sidecar part is there under its own name with its bytes; and
    nothing else is, unless the temporary folder of the item's name held
    something before.  In the end the answer says which, by 202 or another
    status, and only an accepted item is counted. *)
Theorem staged_whole_or_not :
  (∀ d' x, exec istep (ServeHTTP Quote EqualFold ParseMetadata h r) d0 d' x → answered h r d0 d' x) ∧
  (∀ d, passes istep (ServeHTTP Quote EqualFold ParseMetadata h r) d0 d → moment h r d0 d).
Proof using Hroot Hd0.
  destruct serve_safely as [Ha Hu]. split.
  - by apply under_exec.
  - intros d Hp. by eapply always_passes.
Qed.

(** *** The scanner's reading *)

Lemma filter_encode_short (P : Z → Prop) `{∀ x, Decision (P x)} rs : (length (encode (filter P rs)) ≤ length (encode rs))%nat.
Proof using Type.
  induction rs as [|x rs IH]; [done|]. rewrite filter_cons. unfold encode in *. rewrite bind_cons, length_app.
  destruct (decide (P x)); [rewrite bind_cons, length_app; lia|lia].
Qed.

Lemma strip_short s n : utf8 (bytes_of_string s) → short n s → short n (StripSubjectControlChars s).
Proof using Type.
  intros (rs & Hrs & E) Hs. unfold short, StripSubjectControlChars in *. rewrite E, runes_encode.
  assert (Hn : norm_rune <$> rs = rs).
  { clear - Hrs. induction Hrs as [|x rs Hx Hrs IH]; [done|]. cbn. by rewrite IH, norm_scalar. }
  rewrite Hn. assert (Hlen : ∀ b, String.length (string_of_bytes b) = length b).
  { intros b. unfold string_of_bytes. induction b as [|x b IH]; [done|]. cbn. by rewrite IH. }
  rewrite Hlen. etrans; [apply filter_encode_short|]. rewrite <- E, <- Hlen, string_of_bytes_of_string. exact Hs.
Qed.

(** json.Decoder gives strings of valid UTF-8. *)
Context (Hutf8 : ∀ data m, ParseMetadata data = Ok m → utf8 (bytes_of_string (MSubject m))).

(** C37. The scanner takes what the endpoint took.  Where the metadata parser
    gives subjects that are UTF-8: after an answer 202 the staging folder
    holds a folder of the answered name, in which metadata.json is the
    request's one metadata part, content.raw its one content part, and each
    sidecar part is a file of its name; the scanner's reading of it (open,
    parse, strip the subject, validate again) succeeds; what it reads is the
    metadata that was sent, but for the subject's control characters, and
    where the source is bound to the verified peer, it is the peer's. *)
Theorem staged_items_are_taken d' x :
  exec istep (ServeHTTP Quote EqualFold ParseMetadata h r) d0 d' x → IStatus x.2 = 202%Z →
  ∃ name data content m item parts,
    IItem x.2 = Some name ∧
    IParts r = Some parts ∧ PData <$> parts_named "metadata" parts = [data] ∧
    PData <$> parts_named "content" parts = [content] ∧
    (∀ p, p ∈ parts_named "sidecar" parts →
       d' !! (comps (stagingDir h) ++ [name; DispFilename p])%list = Some (File (PData p))) ∧
    d' !! (comps (stagingDir h) ++ [name; "metadata.json"])%list = Some (File data) ∧
    d' !! (comps (stagingDir h) ++ [name; "content.raw"])%list = Some (File content) ∧
    ReadStagingItem Quote ParseMetadata (Join [stagingDir h; name]) (Ok data) (allowlist h) = Ok item ∧
    ParseMetadata data = Ok m ∧ DStaging.Metadata item = set_subject (StripSubjectControlChars (MSubject m)) m ∧
    (enforceSourceMatch h = true → ∃ p, IPeer_ r = Some p ∧ EqualFold (MSource (DStaging.Metadata item)) (Name p) = true).
Proof using Hroot Hd0 Hutf8.
  intros He H202. destruct (proj1 (under_exec _ _ _ _) (proj2 serve_safely) d' x He) as [(_ & _ & it & name & Hit & Hi & _ & _ & Hpub)|(Hn & _)]; [|done].
  destruct (pb_folder _ _ _ _ _ Hpub) as [_ Hfiles _]. set (m := itMetadata it). set (m' := set_subject (StripSubjectControlChars (MSubject m)) m).
  exists name, (itMeta it), (itContent it), m, (mkItem (Join [stagingDir h; name]) (Join [Join [stagingDir h; name]; "content.raw"]) m').
  pose proof (ac_parsed _ _ _ _ _ _ Hit) as Hp. fold m in Hp.
  assert (Hv : Validate Quote m' (allowlist h) = []).
  { pose proof (ac_valid _ _ _ _ _ _ Hit) as Hv. fold m in Hv. apply Validate_nil in Hv as []. apply Validate_nil.
    constructor; try done. by apply strip_short; [eapply Hutf8|]. }
  destruct (ac_sent _ _ _ _ _ _ Hit) as (parts & [Hparts _ _ Hmeta Hcontent Hside]). exists parts.
  split_and!; [done..| | | | |done|done|by apply Hit].
  - intros p Hin. specialize (Hfiles (DispFilename p) (PData p)). unfold dest in Hfiles. rewrite <- app_assoc in Hfiles.
    apply Hfiles. right. apply elem_of_app. left. rewrite Hside. apply list_elem_of_fmap. by exists p.
  - specialize (Hfiles "metadata.json" (itMeta it) ltac:(left)). unfold dest in Hfiles. by rewrite <- app_assoc in Hfiles.
  - specialize (Hfiles "content.raw" (itContent it)). unfold dest in Hfiles. rewrite <- app_assoc in Hfiles. apply Hfiles.
    right. apply elem_of_app. right. left.
  - unfold ReadStagingItem. rewrite Hp. fold m'. by rewrite Hv.
Qed.
End one.
End endpoint.

(** ** The lifetime of a handler *)

(** What main.go does with a handler: it counts what is staged, once, and
    then serves requests; between them the disk changes as it will.  Nothing
    calls DecrementQueue. *)
Section lifetime.
Context (Quote : string → string) (EqualFold : string → string → bool) (ParseMetadata : bytes → res string ItemMetadata).

Abbreviation serve := (ServeHTTP Quote EqualFold ParseMetadata).

(** Requests served one after the other, and how many were accepted. *)
Inductive served : Handler → Handler → nat → Prop :=
| SNone h : served h h 0
| SOne h d r d' h' resp h'' n :
    exec istep (serve h r) d d' (h', resp) → served h' h'' n →
    served h h'' (if (IStatus resp =? 202)%Z then S n else n).

Definition counted (h : Handler) (x : Handler * IngestResponse) : Prop :=
  if (IStatus x.2 =? 202)%Z then x.1 = set_depth (queueDepth h + 1)%Z h else x.1 = h.

Lemma write_sidecars_under (Q : disk → bool → Prop) dir files d :
  (∀ d' ok, Q d' ok) → under istep (write_sidecars dir files) d Q.
Proof using Type.
  intros HQ. revert d. induction files as [|[n b] files IH]; intros d; cbn [write_sidecars]; [apply HQ|].
  apply under_bind. intros ok d' _. destruct ok; [apply IH|apply HQ].
Qed.

Lemma stage_counts h it d : under istep (stage h it) d (λ _ x, counted h x).
Proof using Type.
  assert (Hup : ∀ dir s, under istep (let! _ := io (Disk (RemoveAll dir)) in Ret (h, internal))%prog s (λ _ x, counted h x)).
  { intros dir s. apply under_bind. by intros ok s' _. }
  unfold stage. apply under_bind. intros now d1 _. apply under_bind. intros uuid d2 _. cbv zeta.
  apply under_bind. intros ok d3 _. destruct ok; cbn [negb]; [|done].
  apply under_bind. intros ok d4 _. destruct ok; cbn [negb]; [|done].
  apply under_bind. intros ok d5 _. destruct ok; cbn [negb]; [|apply Hup].
  apply under_bind, write_sidecars_under. intros d6 ok. destruct ok; cbn [negb]; [|apply Hup].
  apply under_bind. intros ok d7 _. destruct ok; cbn [negb]; [|apply Hup].
  apply under_bind. intros ok d8 _. destruct ok; cbn [negb]; [done|apply Hup].
Qed.

Lemma serve_counts h r d d' x :
  exec istep (serve h r) d d' x → counted h x ∧ (IStatus x.2 = 202%Z → (queueDepth h < BackpressureThreshold (iconfig h))%Z).
Proof using Type.
  unfold ServeHTTP. pose proof (accept_spec Quote EqualFold ParseMetadata h r) as Ha.
  destruct (accept _ _ _ h r) as [it|resp]; intros He.
  - split; [|intros _; apply Ha]. by apply (proj1 (under_exec _ _ _ _) (stage_counts h it d) d' x).
  - assert (E : x = (h, resp)) by (inversion He; done). subst x. cbn in Ha |- *.
    unfold counted. cbn. by rewrite (proj2 (Z.eqb_neq _ _)).
Qed.

(** Once the counter has reached the threshold a request is refused. *)
Lemma full_refuses h r d d' x :
  (BackpressureThreshold (iconfig h) ≤ queueDepth h)%Z → ready h = true → IMethod r = "POST" →
  exec istep (serve h r) d d' x → x.1 = h ∧ IStatus x.2 = 429%Z.
Proof using Type.
  intros Hfull Hr Hm. unfold ServeHTTP, accept. rewrite Hr, Hm, (proj2 (Z.leb_le _ _)) by done. cbn [negb].
  change (String.eqb "POST" "POST") with true. cbn [negb]. intros He. by inversion He.
Qed.

Lemma served_depth h h' n :
  served h h' n → queueDepth h' = (queueDepth h + Z.of_nat n)%Z ∧ iconfig h' = iconfig h ∧ ready h' = ready h ∧
    ((0 < n)%nat → (queueDepth h' ≤ BackpressureThreshold (iconfig h))%Z).
Proof using Type.
  induction 1 as [h|h d r d' h' resp h'' n He Hs (IH1 & IH2 & IH3 & IH4)]; [split_and!; [lia|done|done|lia]|].
  destruct (serve_counts h r d d' _ He) as [Hc Hroom]. unfold counted in Hc. cbn [fst snd] in *.
  destruct (Z.eqb_spec (IStatus resp) 202) as [E|E]; subst h'; [|by split_and!].
  specialize (Hroom E). cbn [queueDepth iconfig ready set_depth] in *. split_and!; [lia|done|done|].
  intros _. destruct n as [|n]; [lia|]. specialize (IH4 ltac:(lia)). lia.
Qed.

(** The intake closes for good.  The program never takes an item off the
    counter that the intake is refused by: from its start with a number of
    items already staged, a handler accepts at most the rest of the threshold
    (100, if not configured) in its lifetime, whatever is scanned and delivered
    meanwhile; and when as many have been accepted, every further POST is
    refused with 429. *)
Theorem intake_never_reopens h h' n :
  ready h = true → served h h' n →
  (Z.of_nat n ≤ Z.max 0 (BackpressureThreshold (iconfig h) - queueDepth h))%Z ∧
  ((BackpressureThreshold (iconfig h) - queueDepth h ≤ Z.of_nat n)%Z →
   ∀ r d d' x, IMethod r = "POST" → exec istep (serve h' r) d d' x → x.1 = h' ∧ IStatus x.2 = 429%Z).
Proof using Type.
  intros Hr Hs. destruct (served_depth h h' n Hs) as (H1 & H2 & H3 & H4). split.
  - destruct n as [|n]; [lia|]. specialize (H4 ltac:(lia)). lia.
  - intros Hn r d d' x Hm He. apply (full_refuses h' r d d' x); [rewrite H2; lia|by rewrite H3|done|done].
Qed.
End lifetime.
