(* ===== verification/IListeners.v ===== *)
(** ingest_listeners.go, main.go and archive_listener.go: which listeners an
    accepted configuration opens, what each of them carries, and what that
    makes of a connector's request. *)
From S2P Require Import Prelude IConfig GoStrings GoPath Utf8 Effects ESign DSubject ADisk AMeta ATar AStore AFinalize AHandler AListener AFinalizeFacts JRecord JDiff JRules JAccess JCompile DStaging IRateLimit IIngest IIngestFacts.
Local Open Scope string_scope.

(** ** The plan of the plaintext listeners *)

Record plaintextListener := mkListener { PPort : Z; PIngest : bool; PBearer : bool }.

Definition planPlaintextListeners (cfg : IngestConfig) : list plaintextListener :=
  if negb (IEnabled cfg) then []
  else
    let ingestActive := PlaintextActive (TLS cfg) in
    let bearerActive := BearerRoutesEnabled cfg in
    if negb (BearerSplit cfg) then
      if negb ingestActive && negb bearerActive then []
      else [mkListener (IPort cfg) ingestActive bearerActive]
    else
      ((if ingestActive then [mkListener (IPort cfg) true false] else [])
       ++ (if bearerActive then [mkListener (EffectiveBearerPort cfg) false true] else []))%list.

(** The mux of a listener, from the two functions that mount on it. *)
Definition buildPlaintextMux {mux : Type} (new : mux) (l : plaintextListener) (mountIngest : mux → mux)
    (mountBearer : mux → res string mux) : res string mux :=
  let m := if PIngest l then mountIngest new else new in
  if PBearer l then mountBearer m else Ok m.

Definition describe (l : plaintextListener) : string :=
  if PIngest l && PBearer l then "/v1/ingest, /v1/archives*, /v1/sanitize"
  else if PIngest l then "/v1/ingest" else "/v1/archives*, /v1/sanitize".

(** ** What main.go opens *)

Inductive listener := Plaintext (l : plaintextListener) | MutualTLS (port : Z) | JournalAPI (port : Z).

Definition port_of (l : listener) : Z := match l with Plaintext l => PPort l | MutualTLS p | JournalAPI p => p end.

Definition opened (c : Config) : list listener :=
  ((if JEnabled (CJournal c) then [JournalAPI (JPort (CJournal c))] else [])
   ++ (if IEnabled (Ingest c) then
         (if TLSActive (TLS (Ingest c)) then [MutualTLS (TLSPort (TLS (Ingest c)))] else [])
         ++ (Plaintext <$> planPlaintextListeners (Ingest c))
       else []))%list.

(** The handlers, when a count of the staged items has answered [n]. *)
Definition plaintext_intake (c : Config) (n : Z) : Handler :=
  SetPeerEnforcement false "plaintext" (SetReady (set_depth n (IIngest.NewHandler (StagingDir c) (Ingest c) (AgentAllowlist c)))).
Definition tls_intake (c : Config) (n : Z) : Handler :=
  SetPeerEnforcement (SourceMatchEnforced (TLS (Ingest c))) "mtls"
    (SetReady (set_depth n (IIngest.NewHandler (StagingDir c) (Ingest c) (AgentAllowlist c)))).

(** The settings that bootstrapArchivesWithSource and buildIngestAuth hand
    on; a duration is an int64. *)
Definition rate_limit_config (a : IngestAuthConfig) : RateLimitConfig :=
  mkRateConfig (wrap64 (WindowSeconds (PerIPRateLimit a) * 1000000000)) (MaxRejected (PerIPRateLimit a))
    (LRUCapacity_ (PerIPRateLimit a)) (MaxRejected (GlobalRateLimit a)).
Definition archive_listener_config (c : Config) (capacity : Z) (sources : SourceRegistry) (scanner : option ExtractScanner) : ArchiveListenerConfig :=
  mkListenerConfig (ArchiveRoot (Archives (Ingest c))) capacity (MaxUploadSize (Archives (Ingest c)))
    (mkStoreConfig (ArchivePerSourceMax (Archives (Ingest c))) (ArchiveGlobalMax (Archives (Ingest c)))) (Some sources) scanner.

(** ** A connector's request *)

Section intake.
Context (Quote : string → string) (EqualFold : string → string → bool) (ParseMetadata : bytes → res string ItemMetadata).

(** peer.NewContext; a request as it arrives carries no peer. *)
Definition with_peer (p : option Peer) (r : IngestRequest) : IngestRequest := mkIngest (IMethod r) (IParts r) (IEnd r) p.

(** What a listener does with a request to /v1/ingest: None is 404.  The
    two handlers have a state of their own each. *)
Definition serve_intake (c : Config) (l : listener) (tls : option (list (option Certificate))) (n : Z) (r : IngestRequest)
    : option (prog (Σ := ingest_sig) (Handler * IngestResponse)) :=
  match l with
  | Plaintext pl => if PIngest pl then Some (ServeHTTP Quote EqualFold ParseMetadata (plaintext_intake c n) (with_peer None r)) else None
  | MutualTLS _ =>
      match peer_middleware Quote EqualFold (EffectiveTrustDomain (TLS (Ingest c))) tls with
      | Err (status, reason) => Some (Ret (tls_intake c n, answer_error status reason))
      | Ok p => Some (ServeHTTP Quote EqualFold ParseMetadata (tls_intake c n) (with_peer (Some p) r))
      end
  | JournalAPI _ => None
  end.
End intake.

(** ** What an accepted configuration is *)

Lemma first_error_ok checks : first_error checks = Ok tt ↔ Forall (λ x, x.1 = false) checks.
Proof.
  induction checks as [|[bad m] checks IH]; cbn; [split; [constructor|done]|].
  destruct bad; [split; [done|]|]. { intros [? _]%Forall_cons. done. }
  rewrite IH, Forall_cons. naive_solver.
Qed.

Section accepted.
Context (Quote : string → string) (LoadSubjects LoadSources : string → option string).
Context (StatDir : string → option bool) (OpenRead : string → option (res () string)).
Context (Callers : string → option nat) (DecodePolicy : string → res string (gmap string Service)).
Context (float_text timestamp_text : string → option string).

Abbreviation Validate := (IConfig.Validate Quote LoadSubjects LoadSources StatDir OpenRead Callers DecodePolicy float_text timestamp_text).
Abbreviation journal_validate := (IConfig.journal_validate Quote StatDir OpenRead Callers DecodePolicy float_text timestamp_text).

(** What a check of the block for TLS leaves. *)
Record tls_ok (port : Z) (t t' : IngestTLSConfig) : Prop := {
  to_mode : TLSMode t' = TLSMode t;
  to_match : EnforceSourceMatch t' = EnforceSourceMatch t;
  to_domain : TrustDomain t' = TrustDomain t;
  to_active : TLSActive t = true → TLSPort t' = (if (TLSPort t =? 0)%Z then wrap64 (port + 1) else TLSPort t);
  to_port : TLSActive t = true → (0 < TLSPort t')%Z;
  to_permissive : TLSMode t = TLSModePermissive → TLSPort t' ≠ port;
}.

Lemma tls_validate_ok port t t' : tls_validate Quote t port = Ok t' → tls_ok port t t'.
Proof using Type.
  unfold tls_validate. destruct (String.eqb_spec (TLSMode t) "") as [E0|E0]; cbn [orb].
  { intros [= <-]. constructor; unfold TLSActive; rewrite ?E0; done. }
  destruct (String.eqb_spec (TLSMode t) TLSModeDisabled) as [E1|E1].
  { intros [= <-]. constructor; unfold TLSActive; rewrite ?E1; done. }
  destruct (TLSActive t) eqn:Ha; cbn [negb]; [|done]. destruct (_ || _); [done|]. destruct (String.eqb (ClientCAFile t) ""); [done|].
  set (u := if (TLSPort t =? 0)%Z then with_port _ t else t).
  assert (Hu : TLSMode u = TLSMode t ∧ EnforceSourceMatch u = EnforceSourceMatch t ∧ TrustDomain u = TrustDomain t ∧
    TLSPort u = (if (TLSPort t =? 0)%Z then wrap64 (port + 1) else TLSPort t)) by (unfold u; by destruct (TLSPort t =? 0)%Z).
  destruct Hu as (H1 & H2 & H3 & H4). destruct (Z.eqb_spec (TLSPort u) port) as [Hp|Hp]; cbn [andb].
  - destruct (String.eqb_spec (TLSMode u) TLSModePermissive) as [Hm|Hm]; [done|]. destruct (Z.leb_spec (TLSPort u) 0); [done|].
    intros [= <-]. constructor; try done. congruence.
  - destruct (Z.leb_spec (TLSPort u) 0); [done|]. intros [= <-]. by constructor.
Qed.

(** What Validate gives when ingest is on. *)
Record config_ok (c c' : Config) : Prop := {
  ck_same : c' = with_tls (TLS (Ingest c')) c;
  ck_port : IEnabled (Ingest c) = true → (0 < IPort (Ingest c))%Z;
  ck_room : IEnabled (Ingest c) = true → (0 < BackpressureThreshold (Ingest c))%Z;
  ck_tls : IEnabled (Ingest c) = true → tls_ok (IPort (Ingest c)) (TLS (Ingest c)) (TLS (Ingest c'));
  ck_auth : IEnabled (Ingest c) = true → AEnabled (Auth (Ingest c)) = true → auth_validate Quote (Auth (Ingest c)) = Ok tt;
  ck_bearer : IEnabled (Ingest c) = true → validateBearerPort (Ingest c') = Ok tt;
  ck_archives : IEnabled (Ingest c) = true → ArchivesEnabled (Archives (Ingest c)) = true →
    AEnabled (Auth (Ingest c)) = true ∧ archives_validate (Archives (Ingest c)) = Ok tt;
  ck_journal : journal_validate (CJournal c) (portsInUse c) = Ok tt;
}.

Lemma with_tls_self c : with_tls (TLS (Ingest c)) c = c.
Proof using Type. by destruct c as [? ? ? ? ? ? ? ? ? ? ? ? ? ? ? ? ? ? ? []]. Qed.

Lemma Validate_ok c c' : Validate c = Ok c' → config_ok c c'.
Proof using Type.
  unfold IConfig.Validate. destruct (registry_error _ _); [done|]. destruct (registry_error _ _); [done|].
  destruct (signing_validate _ _) as [[]|]; [|done]. destruct (journal_validate _ _) as [[]|] eqn:Hj; [|done].
  destruct (IEnabled (Ingest c)) eqn:Hi; cbn [negb].
  2: { intros [= <-]. constructor; rewrite ?Hi; try done. by rewrite with_tls_self. }
  destruct (Z.leb_spec (IPort (Ingest c)) 0); [done|]. destruct (_ <=? 0)%Z; [done|].
  destruct (Z.leb_spec (BackpressureThreshold (Ingest c)) 0); [done|].
  destruct (if AEnabled (Auth (Ingest c)) then _ else _) as [[]|] eqn:Ha; [|done].
  destruct (tls_validate Quote (TLS (Ingest c)) (IPort (Ingest c))) as [t|] eqn:Ht; [|done].
  destruct (validateBearerPort (Ingest (with_tls t c))) as [[]|] eqn:Hb; [|done].
  assert (Hok : (ArchivesEnabled (Archives (Ingest c)) = true → AEnabled (Auth (Ingest c)) = true ∧ archives_validate (Archives (Ingest c)) = Ok tt) →
    config_ok c (with_tls t c)).
  { intros Har. constructor; try done; intros _; [by apply tls_validate_ok|]. intros E. by rewrite E in Ha. }
  destruct (ArchivesEnabled (Archives (Ingest c))) eqn:He; cbn [negb].
  - destruct (AEnabled (Auth (Ingest c))) eqn:E; cbn [negb]; [|done].
    destruct (archives_validate (Archives (Ingest c))) as [[]|] eqn:Hv; [|done]. intros [= <-]. by apply Hok.
  - intros [= <-]. by apply Hok.
Qed.

(** *** Ports *)

Lemma journal_port_free c :
  journal_validate (CJournal c) (portsInUse c) = Ok tt → JEnabled (CJournal c) = true →
  (0 < JPort (CJournal c))%Z ∧ portsInUse c !! JPort (CJournal c) = None.
Proof using Type.
  unfold IConfig.journal_validate. intros H Hj. rewrite Hj in H. cbn [negb] in H.
  destruct (out_of_range 1 65535 (JPort (CJournal c))) eqn:Ho; [done|].
  destruct (portsInUse c !! JPort (CJournal c)) eqn:Hp; [done|]. split; [|done].
  unfold out_of_range in Ho. apply orb_false_iff in Ho as [Ho%Z.ltb_ge _]. lia.
Qed.

Lemma ports_in_use c p :
  portsInUse c !! p = None →
  p ≠ MetricsPort c ∧
  (IEnabled (Ingest c) = true →
     p ≠ IPort (Ingest c) ∧ (BearerPort (Ingest c) ≠ 0%Z → p ≠ BearerPort (Ingest c)) ∧
     (TLSActive (TLS (Ingest c)) = true →
        p ≠ (if (TLSPort (TLS (Ingest c)) =? 0)%Z then wrap64 (IPort (Ingest c) + 1) else TLSPort (TLS (Ingest c))))).
Proof using Type.
  unfold portsInUse. set (tp := if (TLSPort _ =? 0)%Z then _ else _). set (m0 := {[MetricsPort c := _]} : gmap Z string).
  assert (Hm : m0 !! p = None → p ≠ MetricsPort c) by (unfold m0; intros H ->; by rewrite lookup_singleton_eq in H).
  destruct (IEnabled (Ingest c)); [|intros H; split; [by apply Hm|done]].
  set (m1 := <[IPort (Ingest c) := _]> m0). set (m2 := if (BearerPort (Ingest c) =? 0)%Z then m1 else _).
  assert (H1 : m1 !! p = None → p ≠ IPort (Ingest c) ∧ p ≠ MetricsPort c) by (intros [Hm0 Hne]%lookup_insert_None; split; [by intros ->|by apply Hm]).
  assert (H2 : m2 !! p = None → m1 !! p = None ∧ (BearerPort (Ingest c) ≠ 0%Z → p ≠ BearerPort (Ingest c))).
  { unfold m2. destruct (Z.eqb_spec (BearerPort (Ingest c)) 0); [done|]. intros [? ?]%lookup_insert_None. split; [done|]. by intros _ ->. }
  assert (H3 : (if TLSActive (TLS (Ingest c)) then <[tp := "ingest.tls.port"]> m2 else m2) !! p = None →
    m2 !! p = None ∧ (TLSActive (TLS (Ingest c)) = true → p ≠ tp)).
  { destruct (TLSActive (TLS (Ingest c))); [|done]. intros [? ?]%lookup_insert_None. split; [done|]. by intros _ ->. }
  intros [[[Hi Hme]%H1 Hb]%H2 Ht]%H3. by split_and!.
Qed.

Lemma bearer_port_ok i :
  validateBearerPort i = Ok tt →
  (0 ≤ BearerPort i)%Z ∧ (AEnabled (Auth i) = true → TLSActive (TLS i) = true → EffectiveBearerPort i ≠ TLSPort (TLS i)).
Proof using Type.
  unfold validateBearerPort, BearerRoutesEnabled. destruct (Z.ltb_spec (BearerPort i) 0); [done|].
  destruct (AEnabled (Auth i)); cbn [negb]; [|by split]. destruct (TLSActive (TLS i)); cbn [andb]; [|by split].
  destruct (Z.eqb_spec (EffectiveBearerPort i) (TLSPort (TLS i))); [done|]. by split.
Qed.

(** The plan, with the ports. *)
Lemma plan_ports i l :
  IEnabled i = true → l ∈ planPlaintextListeners i →
  (PIngest l = true ∧ PlaintextActive (TLS i) = true ∧ PPort l = IPort i) ∨
  (PBearer l = true ∧ AEnabled (Auth i) = true ∧ PPort l = EffectiveBearerPort i).
Proof using Type.
  unfold planPlaintextListeners, BearerRoutesEnabled. intros -> Hl. cbn [negb] in Hl.
  destruct (BearerSplit i) eqn:Hs; cbn [negb] in Hl.
  - apply elem_of_app in Hl as [Hl|Hl].
    + destruct (PlaintextActive (TLS i)); [|by apply elem_of_nil in Hl]. apply list_elem_of_singleton in Hl as ->. by left.
    + destruct (AEnabled (Auth i)); [|by apply elem_of_nil in Hl]. apply list_elem_of_singleton in Hl as ->. by right.
  - assert (He : EffectiveBearerPort i = IPort i).
    { unfold BearerSplit in Hs. unfold EffectiveBearerPort. destruct (Z.eqb_spec (BearerPort i) 0); [done|].
      destruct (Z.eqb_spec (BearerPort i) (IPort i)); [done|]. done. }
    destruct (PlaintextActive (TLS i)) eqn:Hp; cbn [negb andb] in Hl.
    + apply list_elem_of_singleton in Hl as ->. by left.
    + destruct (AEnabled (Auth i)); cbn [negb andb] in Hl; [|by apply elem_of_nil in Hl].
      apply list_elem_of_singleton in Hl as ->. right. by rewrite He.
Qed.

Lemma plan_distinct i : NoDup (PPort <$> planPlaintextListeners i).
Proof using Type.
  unfold planPlaintextListeners. destruct (IEnabled i); cbn [negb]; [|constructor].
  destruct (BearerSplit i) eqn:Hs; cbn [negb].
  - assert (He : EffectiveBearerPort i ≠ IPort i).
    { unfold BearerSplit in Hs. unfold EffectiveBearerPort. destruct (Z.eqb_spec (BearerPort i) 0); [done|].
      by destruct (Z.eqb_spec (BearerPort i) (IPort i)). }
    destruct (PlaintextActive (TLS i)), (BearerRoutesEnabled i); cbn;
      rewrite ?NoDup_cons, ?NoDup_nil, ?elem_of_cons, ?elem_of_nil; naive_solver.
  - destruct (negb _ && negb _); cbn; [constructor|apply NoDup_singleton].
Qed.

(** How many listeners carry what. *)
Lemma plan_counts i :
  IEnabled i = true →
  length (List.filter PIngest (planPlaintextListeners i)) = (if PlaintextActive (TLS i) then 1 else 0)%nat ∧
  length (List.filter PBearer (planPlaintextListeners i)) = (if AEnabled (Auth i) then 1 else 0)%nat.
Proof using Type.
  unfold planPlaintextListeners, BearerRoutesEnabled. intros ->.
  by destruct (BearerSplit i), (PlaintextActive (TLS i)), (AEnabled (Auth i)).
Qed.

Lemma opened_port c l :
  l ∈ opened c →
  (JEnabled (CJournal c) = true ∧ l = JournalAPI (JPort (CJournal c))) ∨
  (IEnabled (Ingest c) = true ∧ TLSActive (TLS (Ingest c)) = true ∧ l = MutualTLS (TLSPort (TLS (Ingest c)))) ∨
  (IEnabled (Ingest c) = true ∧ ∃ pl, pl ∈ planPlaintextListeners (Ingest c) ∧ l = Plaintext pl).
Proof using Type.
  unfold opened. intros [Hl|Hl]%elem_of_app.
  - destruct (JEnabled _); [|by apply elem_of_nil in Hl]. apply list_elem_of_singleton in Hl as ->. by left.
  - right. destruct (IEnabled (Ingest c)); [|by apply elem_of_nil in Hl]. apply elem_of_app in Hl as [Hl|Hl].
    + destruct (TLSActive _); [|by apply elem_of_nil in Hl]. apply list_elem_of_singleton in Hl as ->. by left.
    + apply list_elem_of_fmap in Hl as (pl & -> & Hpl). right. split; [done|]. by exists pl.
Qed.

Lemma opened_apart c c' : config_ok c c' → NoDup (port_of <$> opened c').
Proof using Type.
  intros [Hsame Hport _ Htls _ Hbear _ Hj]. rewrite Hsame in Hbear |- *. set (t := TLS (Ingest c')) in *.
  assert (Hplain : ∀ pl, IEnabled (Ingest c) = true → TLSActive t = true → pl ∈ planPlaintextListeners (Ingest (with_tls t c)) → PPort pl ≠ TLSPort t).
  { intros pl Hi Ha Hpl. destruct (Htls Hi) as [T1 _ _ T4 T5 T6]. destruct (bearer_port_ok _ (Hbear Hi)) as [_ B2].
    destruct (plan_ports (Ingest (with_tls t c)) pl Hi Hpl) as [(_ & Hpa & ->)|(_ & Hau & ->)].
    - intros E. apply T6; [|done]. rewrite <- T1. cbn in Hpa. unfold PlaintextActive in Hpa. unfold TLSActive in Ha.
      destruct (String.eqb_spec (TLSMode t) TLSModePermissive); [done|]. by rewrite orb_false_l in Ha; rewrite Ha in Hpa.
    - intros E. by apply (B2 Hau Ha). }
  unfold opened. rewrite fmap_app. apply NoDup_app. split_and!.
  - destruct (JEnabled _); [apply NoDup_singleton|constructor].
  - change (JEnabled (CJournal (with_tls t c))) with (JEnabled (CJournal c)). intros p Hp Hq. destruct (JEnabled (CJournal c)) eqn:He; [|by apply elem_of_nil in Hp]. apply list_elem_of_singleton in Hp as ->. cbn [port_of] in Hq.
    destruct (journal_port_free c Hj He) as [Hpos [_ Hfree]%ports_in_use].
    change (IEnabled (Ingest (with_tls t c))) with (IEnabled (Ingest c)) in Hq.
    destruct (IEnabled (Ingest c)) eqn:Hi; [|by apply elem_of_nil in Hq]. destruct (Hfree eq_refl) as (F1 & F2 & F3). destruct (Htls eq_refl) as [T1 _ _ T4 T5 T6].
    assert (Hact : TLSActive t = TLSActive (TLS (Ingest c))) by (unfold TLSActive; by rewrite T1).
    rewrite fmap_app in Hq. apply elem_of_app in Hq as [Hq|Hq].
    + change (TLS (Ingest (with_tls t c))) with t in Hq. destruct (TLSActive t) eqn:Ha; [|by apply elem_of_nil in Hq].
      apply list_elem_of_singleton in Hq. cbn in Hq. apply (F3 (eq_sym Hact)). rewrite <- T4 by done. done.
    + rewrite <- list_fmap_compose in Hq. apply list_elem_of_fmap in Hq as (pl & E & Hpl). cbn in E.
      destruct (plan_ports (Ingest (with_tls t c)) pl Hi Hpl) as [(_ & _ & E')|(_ & _ & E')]; rewrite E' in E; [by apply F1|].
      cbn in E. unfold EffectiveBearerPort in E. cbn in E. destruct (Z.eqb_spec (BearerPort (Ingest c)) 0); [by apply F1|by apply F2].
  - destruct (IEnabled _) eqn:Hi; [|constructor]. rewrite fmap_app. apply NoDup_app. split_and!.
    + destruct (TLSActive _); [apply NoDup_singleton|constructor].
    + intros p Hp Hq. change (TLS (Ingest (with_tls t c))) with t in Hp. destruct (TLSActive t) eqn:Ha; [|by apply elem_of_nil in Hp].
      apply list_elem_of_singleton in Hp as ->. rewrite <- list_fmap_compose in Hq. apply list_elem_of_fmap in Hq as (pl & E & Hpl).
      by apply (Hplain pl eq_refl eq_refl Hpl).
    + rewrite <- list_fmap_compose. apply plan_distinct.
Qed.

(** An accepted configuration opens what it describes.  Its listeners
    (plaintext, mutual TLS, the journal's) have distinct ports, and the
    journal's is not that of the metrics; exactly one plaintext listener
    carries /v1/ingest, unless the mode is required, and then none does;
    exactly one carries the routes with bearer tokens when authentication is
    on, in every mode, and none otherwise; and the mutual TLS listener is
    opened in the modes permissive and required only. *)
Theorem accepted_listeners c c' :
  Validate c = Ok c' →
  NoDup (port_of <$> opened c') ∧ (JEnabled (CJournal c') = true → JPort (CJournal c') ≠ MetricsPort c') ∧
  (IEnabled (Ingest c') = true →
     let carrying f := length (List.filter f (planPlaintextListeners (Ingest c'))) in
     carrying PIngest = (if String.eqb (TLSMode (TLS (Ingest c'))) "required" then 0 else 1)%nat ∧
     carrying PBearer = (if AEnabled (Auth (Ingest c')) then 1 else 0)%nat ∧
     ((∃ p, MutualTLS p ∈ opened c') ↔ TLSMode (TLS (Ingest c')) = "permissive" ∨ TLSMode (TLS (Ingest c')) = "required")).
Proof using Type.
  intros H%Validate_ok. split_and!.
  - by eapply opened_apart.
  - destruct H as [Hsame _ _ _ _ _ _ Hj]. rewrite Hsame. cbn. intros He.
    destruct (journal_port_free c Hj He) as [_ [? _]%ports_in_use]. done.
  - intros Hi. destruct (plan_counts _ Hi) as [H1 H2]. split_and!; [|done|].
    + cbv zeta. rewrite H1. unfold PlaintextActive. change TLSModeRequired with "required". by destruct (String.eqb _ "required").
    + assert (Ha : TLSActive (TLS (Ingest c')) = true ↔ TLSMode (TLS (Ingest c')) = "permissive" ∨ TLSMode (TLS (Ingest c')) = "required").
      { unfold TLSActive. by rewrite orb_true_iff, !String.eqb_eq. }
      rewrite <- Ha. split.
      * intros [p Hp]. destruct (opened_port _ _ Hp) as [[_ E]|[(_ & E & _)|(_ & pl & _ & E)]]; done.
      * intros E. exists (TLSPort (TLS (Ingest c'))). unfold opened. rewrite Hi, E. apply elem_of_app. right. apply elem_of_app. left. left.
Qed.

(** *** The connector's name *)

Context (EqualFold : string → string → bool) (ParseMetadata : bytes → res string ItemMetadata).

Lemma required_modes c c' :
  config_ok c c' → IEnabled (Ingest c') = true → TLSMode (TLS (Ingest c')) = "required" →
  ∀ l, l ∈ opened c' → ∀ pl, l = Plaintext pl → PIngest pl = false.
Proof using Type.
  intros Hok Hi Hm l Hl pl ->. destruct (opened_port _ _ Hl) as [[_ E]|[(_ & _ & E)|(_ & q & Hq & [= <-])]]; [done|done|].
  destruct (PIngest pl) eqn:E; [|done]. destruct (plan_counts _ Hi) as [H1 _]. unfold PlaintextActive in H1. rewrite Hm in H1. cbn in H1.
  apply nil_length_inv in H1. assert (Hin : pl ∈ List.filter PIngest (planPlaintextListeners (Ingest c'))).
  { apply list_elem_of_In, filter_In. split; [by apply list_elem_of_In|done]. }
  rewrite H1 in Hin. by apply elem_of_nil in Hin.
Qed.

(** C4. In required mode a connector speaks for itself only.  With an
    accepted configuration whose TLS mode is required, and enforcement not
    switched off, an item is accepted (202) only on the mutual TLS listener,
    whoever asks on whichever listener, whatever the disk does: the client's
    own verified certificate states an identity in the trust domain; the item
    that was sent (the bytes of the request's one metadata part, of its one
    content part and of its sidecar parts, under their names) is in the
    staging folder; and its metadata names as its source the name of that
    identity. *)
Theorem required_mode_binds_source c c' l tls n r p d0 d' x :
  Validate c = Ok c' → IEnabled (Ingest c') = true → TLSMode (TLS (Ingest c')) = "required" →
  EnforceSourceMatch (TLS (Ingest c')) ≠ Some false →
  absolute (StagingDir c') → folders (staging_base (StagingDir c')) d0 →
  l ∈ opened c' → serve_intake Quote EqualFold ParseMetadata c' l tls n r = Some p → exec istep p d0 d' x → IStatus x.2 = 202%Z →
  l = MutualTLS (TLSPort (TLS (Ingest c'))) ∧
  ∃ uris rest id it name,
    tls = Some (Some uris :: rest) ∧ states Quote EqualFold uris (EffectiveTrustDomain (TLS (Ingest c'))) id ∧
    sent r it ∧ ParseMetadata (itMeta it) = Ok (itMetadata it) ∧
    accepted Quote EqualFold ParseMetadata (tls_intake c' n) (with_peer (Some id) r) it ∧
    staged (tls_intake c' n) it name d0 d' ∧ EqualFold (MSource (itMetadata it)) (Name id) = true.
Proof using Type.
  intros Hv Hi Hm Henf Hroot Hd0 Hl Hp He H202. pose proof (Validate_ok _ _ Hv) as Hok.
  destruct (opened_port _ _ Hl) as [[_ E]|[(_ & _ & E)|(_ & q & _ & E)]]; subst l; cbn [serve_intake] in Hp; [done| |].
  2: { by rewrite (required_modes _ _ Hok Hi Hm _ Hl q eq_refl) in Hp. }
  split; [done|]. destruct (peer_middleware Quote EqualFold _ tls) as [id|[status reason]] eqn:Hpm.
  2: { injection Hp as <-. inversion He; subst. cbn in H202. subst status. unfold peer_middleware in Hpm.
       destruct tls as [[|cert rest]|]; [done| |done]. by destruct (FromCertificate _ _ _ _). }
  injection Hp as <-. apply peer_middleware_states in Hpm as (uris & rest & -> & Hs).
  destruct (proj1 (under_exec _ _ _ _) (proj2 (serve_safely Quote EqualFold ParseMetadata (tls_intake c' n) (with_peer (Some id) r) d0 Hroot Hd0)) d' x He)
    as [(_ & _ & it & name & Hit & _ & Hst)|(Hn & _)]; [|done].
  exists uris, rest, id, it, name. split_and!; [done|done| |by apply Hit|done|done|].
  { destruct (ac_sent _ _ _ _ _ _ Hit) as (parts & []). by exists parts. }
  assert (Hen : enforceSourceMatch (tls_intake c' n) = true).
  { cbn. unfold SourceMatchEnforced, TLSActive. rewrite Hm. cbn. by destruct (EnforceSourceMatch _) as [[]|]. }
  destruct (ac_peer _ _ _ _ _ _ Hit Hen) as (id' & [= <-] & Heq). done.
Qed.

(** *** Durations *)

(** An accepted limiter starts, unless its window overflows.  The
    limiter of an accepted configuration is built, and does not panic, exactly
    when the window, as an int64 of nanoseconds, is positive; up to 292 years it
    is. *)
Theorem accepted_limiter_starts c c' {rl : RateLib} :
  Validate c = Ok c' → IEnabled (Ingest c') = true → AEnabled (Auth (Ingest c')) = true →
  let w := WindowSeconds (PerIPRateLimit (Auth (Ingest c'))) in
  ((∃ r, NewRateLimiter (rate_limit_config (Auth (Ingest c'))) = Ok r) ↔ (0 < wrap64 (w * 1000000000))%Z) ∧
  ((w ≤ 9223372036)%Z → (0 < wrap64 (w * 1000000000))%Z).
Proof using Type.
  intros H%Validate_ok Hi Ha. cbv zeta. pose proof (ck_same _ _ H) as Hs. rewrite Hs in Hi, Ha |- *. cbn [Ingest with_tls Auth IEnabled] in *.
  pose proof (ck_auth _ _ H Hi Ha) as Hv. unfold auth_validate in Hv. destruct (if _ || _ then _ else _) as [[]|]; [|done].
  apply first_error_ok in Hv. repeat (apply Forall_cons in Hv as [? Hv]). cbn [fst] in *.
  repeat match goal with H : (_ <=? 0)%Z = false |- _ => apply Z.leb_gt in H end. split.
  - unfold NewRateLimiter, rate_limit_config. cbn [Window PerIPMaxRejected GlobalMaxRejected LRUCapacity].
    destruct (Z.leb_spec (wrap64 (WindowSeconds (PerIPRateLimit (Auth (Ingest c))) * 1000000000)) 0); [split; [by intros [? ?]|lia]|].
    rewrite !(proj2 (Z.leb_gt _ _)) by done. split; [done|]. intros _. by eexists.
  - intros Hw. rewrite wrap64_small; lia.
Qed.
End accepted.
