(* ===== verification/IExample.v ===== *)
(** The ingest side at concrete inputs: the archive server with its
    authentication, the endpoint on a disk, and the theorems of the I files there. *)
From S2P Require Import Prelude IConfig GoStrings GoPath Utf8 JsonString Effects ADisk AMeta ATar AStore AFinalize AHandler AFinalizeFacts AUploads AUpkeep AListener ESign DSubject AExample DStaging GoNet ITokens IRateLimit IMiddleware IServer IIngest IIngestFacts IListeners.
Local Open Scope string_scope.

#[local] Existing Instance AExample.ex_lib.

(** A bucket that counts down and is never filled up. *)
#[local] Instance ex_rate : RateLib := {|
  Limit := Z; limiter := Z; Every := λ d, d; NewLimiter := λ _ n, n;
  Allow := λ _ n, if (0 <? n)%Z then ((n - 1)%Z, true) else (n, false);
|}.

(** ** The limiter *)

Definition ex_rcfg : RateLimitConfig := mkRateConfig 60000000000 2 1 4.
Definition ex_limiter : RateLimiter :=
  match NewRateLimiter ex_rcfg with Ok r => r | Err _ => mkRate ex_rcfg ∅ [] ∅ 0 0%Z end.

(** With room for one address, a second address resets the first one's bucket. *)
Example eviction_forgets :
  (answers AllowReject [(0, 0, "a"); (0, 0, "a"); (0, 0, "a")]%Z ex_limiter).2 = [true; true; false] ∧
  (answers AllowReject [(0, 0, "a"); (0, 0, "a"); (0, 0, "b"); (0, 0, "a")]%Z ex_limiter).2 = [true; true; true; true].
Proof. by vm_compute. Qed.

Lemma limiter_is_exact_witness :
  (answers AllowReject [(0, 0, "a"); (1, 1, "a"); (2, 2, "a")]%Z ex_limiter).2 =
  (answers simple_reject [(0, 0, "a"); (1, 1, "a"); (2, 2, "a")]%Z (mkSimple (rcfg ex_limiter) ∅ (global_limiter (rcfg ex_limiter)))).2.
Proof. apply (limiter_is_exact ex_rcfg ex_limiter); [reflexivity|]. vm_compute. discriminate. Defined.

(** ** The token sources *)

Definition ex_map : gmap string string := {["src" := ex_token_text]}.

Lemma ex_decoded : decodeToken ex_token_text = Some ex_token.
Proof. by vm_compute. Qed.

Lemma ex_provisioned : provisioned ex_map ex_token "src".
Proof.
  exists ex_token_text. unfold ex_map. split_and!; [by rewrite lookup_singleton_eq|by vm_compute|apply ex_decoded|].
  by intros sid' _ [<- _]%lookup_singleton_Some.
Qed.

Lemma ex_presents (env : environment source_sig) : presents (EnvTokenSource (λ s, s) "src" ex_token_text) env ex_map.
Proof. apply (env_presents (λ s, s) env "src" ex_token_text). Qed.

Lemma reload_serves_the_provisioned_witness :
  let env : environment source_sig := λ _ o, match o with
    | ListSecrets _ | KVGet _ _ => Err "" | ReadTokenFile _ => Err "" | Getenv _ => "" | LoginK8s _ _ => Err "" | _ => tt end in
  Lookup (run env [] (ReloadFrom (EnvTokenSource (λ s, s) "src" ex_token_text) (mkReload false) NewTokenStore)).2.1 ex_token = ("src", true).
Proof.
  cbv zeta. apply (reload_serves_the_provisioned _ _ ex_map (ex_presents _)); [apply NewTokenStore_ok|apply ex_provisioned].
Defined.

(** ** Addresses *)

(** The address of a peer with an empty host is empty. *)
Example client_address_can_be_empty : ResolveClientIP (mkResolver []) ":8080" "" = "".
Proof. by vm_compute. Qed.

(** ** The server *)

Definition ex_env : environment token_sig := λ _ o,
  match o return token_ans o with SourceList => Ok ["src"] | SourceRead _ => Ok ex_token_text | _ => tt end.
Definition ex_resolver : ProxyResolver := mkResolver [].
Definition ex_loaded : trace token_sig * (TokenStore * res string ()) := run ex_env [] (Reload (mkReload false) NewTokenStore).
Definition ex_store : TokenStore := ex_loaded.2.1.

Lemma ex_loads : ex_loaded = (ex_loaded.1, (ex_store, Ok tt)).
Proof. unfold ex_store. assert (H : is_ok ex_loaded.2.2 = true) by by vm_compute. by destruct ex_loaded as [h [tk [[]|]]]. Qed.

(** The requests of AExample.v as they arrive. *)
Definition ex_arrives (r : Request) : HttpRequest := mkHttp "192.0.2.7:5000" (mkRequest (Method r) (URLPath r) (Header r) None (RBody r)).

Lemma ex_forwarded (r : Request) :
  DeliveredBy r = Some "src" → header r "Authorization" = ex_bearer.2 →
  (Middleware ex_store ex_resolver 0 0 ex_limiter (ex_arrives r)).1.1 = ex_limiter ∧
  (Middleware ex_store ex_resolver 0 0 ex_limiter (ex_arrives r)).2 = Forwarded r.
Proof.
  intros Hs Hb. unfold Middleware. change (header (HRequest (ex_arrives r)) "Authorization") with (header r "Authorization").
  rewrite Hb. vm_compute. destruct r as [m u hd ctx b]. unfold DeliveredBy in Hs. cbn in Hs.
  destruct ctx as [s|]; [|done]. destruct (String.eqb s ""); [done|]. by injection Hs as ->.
Qed.

Abbreviation ex_server x tk rl := (mkServer _ x tk rl).
Definition ex_log : list auth_event := [AReloaded ex_loaded.1; AServed (ex_arrives ex_post); AServed (ex_arrives (ex_patch "src"))].

Section run.
Abbreviation step := (astep ex_quote ex_by ex_cfg ex_rcfg ex_resolver (mkReload false)).

Lemma ex_serve_step (x y : phase * disk) s qs d r resp :
  x = (Running s qs, d) → DeliveredBy r = Some "src" → header r "Authorization" = ex_bearer.2 →
  sstep ex_quote ex_by ex_cfg x (AServe r resp) y →
  step (ex_server x ex_store ex_limiter) [AServed (ex_arrives r)] (ex_server y ex_store ex_limiter).
Proof.
  intros -> Hs Hb Hstep. destruct (ex_forwarded r Hs Hb) as [H1 H2].
  destruct (Middleware ex_store ex_resolver 0 0 ex_limiter (ex_arrives r)) as [[rl tel] v] eqn:E. cbn in H1, H2. subst rl v.
  eapply TServe; [done|exact E|exact Hstep].
Qed.

Lemma ex_auth_run :
  auth_run ex_quote ex_by ex_cfg ex_rcfg ex_resolver (mkReload false) ∅ (ex_server (Running ex_3.2.1 NewQuotaState, ex_3.1) ex_store ex_limiter) ex_log.
Proof.
  change ex_log with ((([] ++ [AReloaded ex_loaded.1]) ++ [AServed (ex_arrives ex_post)]) ++ [AServed (ex_arrives (ex_patch "src"))])%list.
  eapply RStep; [|by eapply ex_serve_step, ex_patched]. eapply RStep; [|by eapply ex_serve_step, ex_posted].
  eapply RStep; [by apply (RStart _ _ _ _ _ _ ∅ NewTokenStore ex_limiter)|].
  destruct ex_started as (He & <- & _). eapply (TStart _ _ _ _ _ _ _ _ _ _ _ ex_env _ _ (Ok tt)); [|reflexivity|exact He]. exact ex_loads.
Qed.
End run.

Lemma published_archives_are_authenticated_witness :
  is_Some (ex_3.1 !! final_at "/s" "a1") ∧ verified_archive "/s" (authenticated ex_log) "a1" ex_3.1.
Proof.
  assert (H : is_Some (ex_3.1 !! final_at "/s" "a1")) by (vm_compute; by eexists). split; [exact H|].
  apply (published_archives_are_authenticated ex_quote ex_by ex_cfg ex_rcfg ex_resolver (mkReload false) ex_root ltac:(done) ∅ _ _ "a1" ltac:(done) ex_auth_run ltac:(done) H).
Defined.

(** ** The endpoint *)

(** A program's run on a disk whose calls succeed when they can. *)
Definition ianswer (d : disk) (o : ingest_op) : option (ingest_ans o * disk) :=
  match o return option (ingest_ans o * disk) with
  | Disk o => hanswer d o
  | WriteFile p b =>
      if decide (comps p ≠ [] ∧ is_folder d (removelast (comps p)) ∧ d !! comps p ≠ Some Folder)
      then Some (true, <[comps p := File b]> d) else Some (false, d)
  | Clock => Some (0%Z, d)
  | Uuid => Some ("0a1b2c3d", d)
  end.

Fixpoint isimulate {A : Type} (p : prog A) (d : disk) : option (disk * A) :=
  match p with
  | Ret a => Some (d, a)
  | Do o k => match ianswer d o with Some (r, d') => isimulate (k r) d' | None => None end
  end.

Lemma ianswer_step d o r d' : ianswer d o = Some (r, d') → istep d o r d'.
Proof.
  destruct o as [o|p b| |]; cbn [ianswer istep ingest_ans] in *; intros E.
  - by apply hstep_dstep, hanswer_step.
  - case_decide as H; injection E as <- <-; split_and!; try done. by left.
  - by injection E as <- <-.
  - injection E as <- <-. split_and!; [done|done|]. repeat constructor.
Qed.

Lemma isimulate_exec {A : Type} (p : prog A) d d' (a : A) : isimulate p d = Some (d', a) → exec istep p d d' a.
Proof.
  revert d. induction p as [a0|o k IH]; intros d; cbn [isimulate]; [intros [= <- <-]; constructor|].
  destruct (ianswer d o) as [[r d1]|] eqn:E; [|done]. intros H. econstructor; [by apply ianswer_step|by apply IH].
Qed.

Definition ex_metadata : ItemMetadata := mkMetadata "imap" "a@b.c" "hello" 1 "mail" "email" false false None ∅ "" None "" [].
Definition ex_parse (b : bytes) : res string ItemMetadata := Ok ex_metadata.
Definition ex_fold : string → string → bool := String.eqb.

(** The defaults, but one item fits. *)
Definition ex_config : IngestConfig :=
  let c := Ingest defaultConfig in
  IConfig.mkIngestConfig true 9091 0 67108864 262144 1 60 (Auth c) (Archives c) (TLS c).
Definition ex_handler : IIngest.Handler :=
  SetReady (SetPeerEnforcement true "mtls" (IIngest.NewHandler "/q" ex_config ["mail"])).
Definition ex_part (name filename : string) (b : bytes) : Part := mkPart name "application/json" "application/json" filename filename b None.
Definition ex_item : IngestRequest :=
  mkIngest "POST" (Some [ex_part "metadata" "" [1]%Z; ex_part "sidecar" "a.ics" [3]%Z; ex_part "content" "" [2]%Z]) None
    (Some (mkPeer "connector" "imap" "")).
Definition ex_staging : disk := {[["q"] := Folder]}.

Definition ex_staged : disk * (IIngest.Handler * IngestResponse) :=
  default (∅, (ex_handler, internal)) (isimulate (ServeHTTP ex_quote ex_fold ex_parse ex_handler ex_item) ex_staging).

Lemma ex_item_exec : exec istep (ServeHTTP ex_quote ex_fold ex_parse ex_handler ex_item) ex_staging ex_staged.1 ex_staged.2.
Proof.
  apply isimulate_exec. rewrite <- surjective_pairing. apply ran_default. by vm_compute.
Qed.

Lemma ex_item_answer : IStatus ex_staged.2.2 = 202%Z ∧ IItem ex_staged.2.2 = Some "19700101-000000-0a1b2c3d" ∧ queueDepth ex_staged.2.1 = 1%Z.
Proof. by vm_compute. Qed.

#[local] Opaque ex_staged.

Lemma ex_staging_root : absolute (IIngest.stagingDir ex_handler).
Proof. exists ["q"]. split; [by repeat constructor|done]. Qed.

Lemma ex_staging_folders : folders (staging_base (IIngest.stagingDir ex_handler)) ex_staging.
Proof. apply (folders_below ["q"]). by vm_compute. Qed.

Lemma staged_whole_or_not_witness :
  ∃ it, sent ex_item it ∧ accepted ex_quote ex_fold ex_parse ex_handler ex_item it ∧
    staged ex_handler it "19700101-000000-0a1b2c3d" ex_staging ex_staged.1.
Proof.
  destruct ex_item_answer as (H1 & H2 & _).
  destruct (proj1 (staged_whole_or_not ex_quote ex_fold ex_parse ex_handler ex_item ex_staging ex_staging_root ex_staging_folders) _ _ ex_item_exec)
    as [(_ & _ & it & name & Hit & Hi & Hst)|(Hn & _)]; [|destruct (Hn H1)].
  rewrite H2 in Hi. injection Hi as <-. exists it. split; [exact (ac_sent _ _ _ _ _ _ Hit)|]. split; [exact Hit|exact Hst].
Defined.

Lemma staged_items_are_taken_witness :
  ∃ data item, ex_staged.1 !! ["q"; "19700101-000000-0a1b2c3d"; "metadata.json"] = Some (File data) ∧
    ReadStagingItem ex_quote ex_parse (Join ["/q"; "19700101-000000-0a1b2c3d"]) (Ok data) ["mail"] = Ok item ∧
    MSource (DStaging.Metadata item) = "imap".
Proof.
  destruct ex_item_answer as (H1 & H2 & _).
  destruct (staged_items_are_taken ex_quote ex_fold ex_parse ex_handler ex_item ex_staging ex_staging_root ex_staging_folders
    ltac:(intros data m [= <-]; exists [104; 101; 108; 108; 111]%Z; split; [by repeat constructor|by vm_compute]) _ _ ex_item_exec H1)
    as (name & data & content & m & item & parts & Hi & _ & _ & _ & _ & Hd & _ & Hr & Hm & Hme & _).
  rewrite H2 in Hi. apply (inj Some) in Hi. rewrite <- Hi in Hd, Hr. clear Hi H1 H2. exists data, item. split; [exact Hd|]. split; [exact Hr|]. injection Hm as <-. by rewrite Hme.
Defined.

Lemma one_served (Quote : string → string) (EqualFold : string → string → bool) (ParseMetadata : bytes → res string ItemMetadata) (h : IIngest.Handler) (r : IngestRequest) (d : disk) (y : disk * (IIngest.Handler * IngestResponse)) :
  exec istep (ServeHTTP Quote EqualFold ParseMetadata h r) d y.1 y.2 → IStatus y.2.2 = 202%Z →
  served Quote EqualFold ParseMetadata h y.2.1 1.
Proof.
  destruct y as [d' [h' resp]]. cbn [fst snd]. intros He H.
  pose proof (SOne Quote EqualFold ParseMetadata h d r d' h' resp h' 0 He (SNone _ _ _ h')) as Hs. by rewrite H in Hs.
Qed.

Lemma intake_never_reopens_witness :
  served ex_quote ex_fold ex_parse ex_handler ex_staged.2.1 1 ∧
  under istep (ServeHTTP ex_quote ex_fold ex_parse ex_staged.2.1 ex_item) ex_staged.1 (λ _ x, IStatus x.2 = 429%Z).
Proof.
  destruct ex_item_answer as (H1 & _).
  pose proof (one_served _ _ _ _ _ _ _ ex_item_exec H1) as Hs.
  split; [exact Hs|]. refine (proj2 (under_exec _ _ _ _) _). intros d' x He.
  apply (proj2 (intake_never_reopens ex_quote ex_fold ex_parse ex_handler ex_staged.2.1 1 eq_refl Hs) ltac:(vm_compute; discriminate) ex_item ex_staged.1 d' x eq_refl He).
Defined.

(** ** The listeners *)

(** Mutual TLS only for connectors; bearer tokens on the plaintext port. *)
Definition ex_required : Config :=
  let c := defaultConfig in
  let i := Ingest c in
  let a := Auth i in
  mkConfig "/q" "/quarantine" "/audit" "/failed" "/agents" "/shared" ["mail"] 9090 "fsnotify" 5 "rules.json" "" (RulesSigning c) 4 30 30 262144 "" ""
    (IConfig.mkIngestConfig true 9091 0 67108864 262144 100 60
       (mkAuthConfig true "env" (Vault a) "" 300 [] (PerIPRateLimit a) (GlobalRateLimit a)) (Archives i)
       (mkTLSConfig "required" 0 "tls.crt" "tls.key" "ca.crt" "" None))
    (CJournal c).
Definition ex_accepted : Config := with_tls (with_port 9092 (TLS (Ingest ex_required))) ex_required.

Abbreviation ex_validate := (IConfig.Validate ex_quote (λ _, None) (λ _, None) (λ _, None) (λ _, None) (λ _, None) (λ _, Err "") (λ _, None) (λ _, None)).

Lemma ex_required_accepted : ex_validate ex_required = Ok ex_accepted.
Proof. vm_compute. reflexivity. Qed.

Example ex_opened : opened ex_accepted = [MutualTLS 9092; Plaintext (mkListener 9091 false true)].
Proof. vm_compute. reflexivity. Qed.

Lemma accepted_listeners_witness : NoDup (port_of <$> opened ex_accepted).
Proof. apply (accepted_listeners ex_quote (λ _, None) (λ _, None) (λ _, None) (λ _, None) (λ _, None) (λ _, Err "") (λ _, None) (λ _, None) ex_required ex_accepted ex_required_accepted). Defined.

Lemma accepted_limiter_starts_witness : ∃ r, NewRateLimiter (rate_limit_config (Auth (Ingest ex_accepted))) = Ok r.
Proof.
  apply (accepted_limiter_starts ex_quote (λ _, None) (λ _, None) (λ _, None) (λ _, None) (λ _, None) (λ _, Err "") (λ _, None) (λ _, None)
    ex_required ex_accepted ex_required_accepted eq_refl eq_refl). by vm_compute.
Defined.

(** A window that is accepted and whose limiter panics. *)
Definition ex_wide_window : Config :=
  let a := Auth (Ingest ex_required) in
  let i := Ingest ex_required in
  mkConfig "/q" "" "" "" "" "" [] 9090 "" 5 "" "" (RulesSigning ex_required) 4 30 30 262144 "" ""
    (IConfig.mkIngestConfig true 9091 0 1 1 1 60
       (mkAuthConfig true "env" (Vault a) "" 300 [] (mkWindow 9223372037 10 1000) (GlobalRateLimit a)) (Archives i) (TLS (Ingest defaultConfig)))
    (CJournal ex_required).
Example wide_window_panics :
  is_ok (ex_validate ex_wide_window) = true ∧ is_ok (NewRateLimiter (rate_limit_config (Auth (Ingest ex_wide_window)))) = false.
Proof. by vm_compute. Qed.

(** The port of the metrics may be that of the intake. *)
Example metrics_port_may_collide :
  let c := applyEnvOverrides (λ n, if String.eqb n "GLOVEBOX_METRICS_PORT" then "9091" else "") ex_required in
  is_ok (ex_validate c) = true ∧ MetricsPort c = IPort (Ingest c).
Proof. by vm_compute. Qed.

Definition ex_cert : Certificate := [Some (mkURL "spiffe" "glovebox" "/connector/imap" "spiffe://glovebox/connector/imap")].
Definition ex_tls_serve : option (prog (Σ := ingest_sig) (IIngest.Handler * IngestResponse)) :=
  serve_intake ex_quote ex_fold ex_parse ex_accepted (MutualTLS 9092) (Some [Some ex_cert]) 0 ex_item.
Definition ex_tls_staged : disk * (IIngest.Handler * IngestResponse) :=
  default (∅, (ex_handler, internal)) (match ex_tls_serve with Some p => isimulate p ex_staging | None => None end).

Lemma ex_tls_run : ∃ p, ex_tls_serve = Some p ∧ exec istep p ex_staging ex_tls_staged.1 ex_tls_staged.2 ∧ IStatus ex_tls_staged.2.2 = 202%Z.
Proof.
  assert (H : ran (match ex_tls_serve with Some p => isimulate p ex_staging | None => None end) = true) by by vm_compute.
  assert (H2 : IStatus ex_tls_staged.2.2 = 202%Z) by by vm_compute.
  unfold ex_tls_staged in H2 |- *. destruct ex_tls_serve as [p|]; [|done]. exists p. split; [done|]. split; [|exact H2].
  apply isimulate_exec. rewrite <- surjective_pairing. by apply ran_default.
Qed.
#[local] Opaque ex_tls_staged ex_tls_serve.

Lemma required_mode_binds_source_witness :
  ∃ id it name, states ex_quote ex_fold ex_cert "glovebox" id ∧ staged (tls_intake ex_accepted 0) it name ex_staging ex_tls_staged.1 ∧
    MSource (itMetadata it) = Name id.
Proof.
  destruct ex_tls_run as (p & Hp & He & H202).
  assert (Hl : MutualTLS 9092 ∈ opened ex_accepted) by (rewrite ex_opened; left).
  destruct (required_mode_binds_source ex_quote (λ _, None) (λ _, None) (λ _, None) (λ _, None) (λ _, None) (λ _, Err "") (λ _, None) (λ _, None)
    ex_fold ex_parse ex_required ex_accepted (MutualTLS 9092) (Some [Some ex_cert]) 0 ex_item p ex_staging _ _ ex_required_accepted
    eq_refl eq_refl ltac:(discriminate) ex_staging_root ex_staging_folders Hl Hp He H202) as (_ & uris & rest & id & it & name & E & Hs & _ & _ & _ & Hst & Hn).
  apply (inj Some) in E. assert (uris = ex_cert) as -> by congruence. exists id, it, name. split_and!; [exact Hs|exact Hst|].
  by apply String.eqb_eq.
Defined.
